(* ===== verification/_CoqProject ===== *)
-Q . S2P
Prelude.v
FlowControl.v
Demux.v
PortMessages.v
Relay.v
TunnelHandle.v
ControlledMux.v
IdWhitelist.v
LoginFailures.v
Admission.v
LoginScope.v
Passwords.v
LoginFlow.v
SessionScope.v
F32.v
VideoQos.v
QosFacts.v
Sessions.v
Paths.v
FileRemoveLog.v
FileTransfer.v
TransferFacts.v
TransferSession.v
TransferDelivery.v
Resampler.v
AudioPlayback.v
PlaybackRecovery.v
AudioCapture.v
Services.v
CursorService.v
VideoService.v
CodecNegotiation.v
VideoReceive.v
ServerTable.v
Subscriptions.v
KeyText.v
RemoteInput.v
TerminalText.v
TerminalSession.v
TerminalService.v
ClipFormat.v
ClipServe.v
ClipMount.v
ClipMessages.v
ClipPaste.v
