(* ===== verification/Prelude.v ===== *)
(** * A verification library for GoTechDesk

    GoTechDesk is a remote desktop program: a controlling side opens a session
    to a controlled side, which asks for a password (or a click, a second factor,
    a resumed session, a switch of sides), then serves video, input, files,
    terminals and TCP tunnels. This library models the parts of it whose
    correctness is the program's own: who gets in and what they may then do, what
    a session is subscribed to, file transfer, copying files from one side and
    pasting them on the other, the multiplexed port-forward protocol, the control
    of the video rate, and the path of the sound. File
    names below are under [src/]; [conn] is [src/server/connection.rs].

    ** The files

    - [Prelude] (this file): machine integers ([Int]), errors as values
      ([result]), reachability, record update, Rust text ([str] is a list of
      scalar values), and the tactics the proofs share.
    - [FlowControl], [PortMessages], [Relay], [TunnelHandle], [ControlledMux] and
      the interface [Demux]: the port-forward multiplexer of
      [src/port_forward_mux.rs] and [src/server/port_forward_mux.rs].
      [FlowControl] has the two ends of a channel's window ([RecvWindow],
      [SendCredit], the waiting protocol [CreditWait]) and their composition;
      [PortMessages] the frames and the queue they go to; [Relay] the two halves
      of a channel ([Up], [Down]) and [Channel], which joins them; [TunnelHandle]
      the controlling end ([Handle]), the tunnel it may be shared by ([Tunnel])
      and the reports to the user; [ControlledMux] the controlled end ([Mux]) and
      the task that connects a channel ([Controlled]). [Demux] is what the relay
      of a channel expects of either end: the class both implement.
    - [IdWhitelist], [LoginFailures], [Admission], [LoginScope], [Passwords],
      [LoginFlow], [Sessions]: how a connection is authorized, all from [conn]
      (and [src/server/login_failure_check.rs]). [LoginFlow] is the state machine
      of the login ([Conn.step]); it takes the answers of the checks, each of
      which is modelled and proved in the file of its name.
    - [SessionScope]: what an authorized connection of a limited kind may send.
    - [Paths], [FileRemoveLog]: paths and a store of files; the log of removed
      files.
    - [FileTransfer], [TransferSession], [TransferFacts], [TransferDelivery]: file
      transfer, [libs/base/src/fs.rs]. [FileTransfer] has the validation of names
      and the jobs ([TransferJob]: [read], [write], [confirm], [modify_time]);
      [TransferSession] the messages of a download and how the sending loop
      ([handle_read_jobs]) and the client ([src/client/io_loop.rs]) answer each
      other; the other two their proofs.
    - [F32], [VideoQos], [QosFacts]: the video rate controller of
      [src/server/video_qos.rs]; [F32] is single-precision arithmetic, [VideoQos]
      the controller with the source's own tests, [QosFacts] its proofs.
    - [Services], [CursorService], [VideoService], [CodecNegotiation],
      [VideoReceive], [ServerTable], [Subscriptions]: what a session receives.
      [Services] is a service with its subscribers and the two kinds of
      loop ([src/server/service.rs]), generic in the class [Subscriber];
      [CursorService] the service that sends the cursor and caches it by id
      ([src/server/input_service.rs]), its loop place by place, up to what the viewer
      shows; [VideoService]
      the loop that encodes a display and waits for its viewers
      ([src/server/video_service.rs]) with the threads that subscribe and answer;
      [CodecNegotiation] the codec all viewers share
      ([libs/scrap/src/common/codec.rs]); [VideoReceive] what the viewer does with the
      frames ([src/client/io_loop.rs] and the decoding thread of [src/client.rs]), up to
      the rate it asks for; [ServerTable]
      the table of services and connections ([src/server.rs]), proved against the
      class [Service] that [Services] implements; [Subscriptions] the handlers of
      [conn] that subscribe and unsubscribe a session: login, permissions,
      options, displays, voice calls.
    - [Resampler], [AudioCapture], [AudioPlayback], [PlaybackRecovery]:
      [src/audio_resampler.rs] (generic in the arithmetic of samples), the capture
      of sound on the controlled side ([src/server/audio_service.rs] and the files
      below it: frames, resampling, the bounded handoff to the thread that encodes),
      the buffer and the device callback of
      the viewer ([AudioBuffer] of [src/client.rs], [src/client/audio_playback.rs]),
      and how its stream is started, replaced and restarted
      ([src/client/audio_playback_recovery.rs] and [audio_playback_startup.rs]
      beside it); the device is an argument.
    - [ClipFormat], [ClipServe], [ClipMount], [ClipMessages], [ClipPaste]: copied
      files, [libs/clipboard/src/platform/unix]. [ClipFormat] is the list of files
      as it is sent ([local_file.rs], [filetype.rs]; UTF-16 through the class
      [WStrings] of the crate that converts it); [ClipServe] the side that has them:
      the files below a selection and serving their contents by index
      ([local_file.rs], [serv_files.rs]), over a file system that is an argument;
      [ClipMount] the side that pastes them: the read-only file system built of the
      list ([fuse/cs.rs]); [ClipMessages] the messages between them
      ([src/clipboard_file.rs]), the channels to connections
      ([libs/clipboard/src/lib.rs]) and the mounted contexts ([fuse/mod.rs]);
      [ClipPaste] both sides together.
    - [RemoteInput]: the keys and buttons a viewer presses, on X11: the handler of a
      key message and the input thread of [conn], [src/server/input_service.rs] with
      its record of held keys, and the X11 half of [libs/enigo/src/linux/nix_impl.rs];
      the libraries that reach the display are a class ([X11]) with what is relied on
      of them ([X11Laws]). Threads are lists of the steps they have still to make.
    - [KeyText]: the notation for typed keys, [libs/enigo/src/dsl.rs].
    - [TerminalText], [TerminalSession], [TerminalService]: remote terminals,
      [src/server/terminal_service.rs]. [TerminalText] is the text of a terminal:
      UTF-8, the cut of output between characters ([Utf8ChunkAccumulator]) and the
      buffer a returning viewer is shown ([OutputBuffer]). [TerminalSession] is one
      terminal: the thread that reads it, its channel, the return of a viewer, a
      pass that polls it and the two resizes that make it redraw.
      [TerminalService] is the registry of services with their terminals, the
      actions of viewers, the passes of the loops over a service, lock by lock, and
      the handlers of [conn] that reach them.

    ** How the models correspond to the code

    A struct is a record with the source's field names, an enum an inductive type,
    a method a function of the same name on the state. A method that sends,
    spawns or logs returns what it sends as a list of effects beside its state.
    An [async] function that waits in more than one place is a machine with one
    step per wait, driven by what the wait answers; interleavings are sequences of
    steps. Where threads or connections share state behind a lock, a step is what is
    done under one taking of it, and steps of others come in between: the looks of a
    login at the failure counters and its record of a wrong password
    ([LoginFailures]), the loops of services ([CursorService], [VideoService]), the two
    halves of setting up an encoder ([CodecNegotiation]), the passes over terminals
    ([TerminalService]), the input threads ([RemoteInput]). Sockets, queues, clocks, configuration and the checks of other
    components are arguments or events. [u32], [i32] and [u8] arithmetic wraps or
    saturates where the source's does (the release profile wraps); sums that
    cannot reach the bound are plain. A [clamp] whose bounds might be out of order
    returns [option], for it panics. [f32] is [SpecFloat] at 24 bits. A hash map is
    a [gmap]; where the order of its iteration matters it is an argument
    constrained to be some order.

    Code outside [src/] is an argument with named hypotheses: SHA-256 (nothing
    is assumed of it: a theorem exhibits the collision instead), Unicode lower-casing, the text
    of IPv6 addresses, CIDR membership, [tokio] primitives (through the events
    they produce).

    ** What is proved

    Each property says in the comment above it which histories or inputs it is of, and
    names the example that shows what happens in the others.

    - Getting in: [LoginFlow.authorized_for_a_reason] (no sequence of events
      authorizes a connection without authentication, the second factor when one
      is configured, and a permitted request), with the checks it relies on:
      [Passwords.validate_password_sound], [Passwords.temporary_password_rotates],
      [LoginFailures.wrong_attempts_bounded] (a bound that grows by one with every
      attempt made at the same time), [LoginFailures.backoff_admits],
      [Sessions.recent_session_sound], [Sessions.switch_sides_one_shot],
      [IdWhitelist.id_whitelist_allows_spec] and the glob matcher under it,
      [LoginScope.login_scope_latched], [Admission.admission_bounded].
    - Staying in bounds afterwards: the three theorems of [SessionScope].
    - Tunnels: no interleaving violates flow control or loses a wake-up
      ([FlowControl]); bytes arrive in order and complete, and channels end
      ([Relay]); both demultiplexers refine [Demux]
      ([TunnelHandle.handle_delivers_in_order],
      [ControlledMux.mux_delivers_in_order]); only the target the login was
      approved for is served ([ControlledMux.mux_serves_login_target]); a claimed
      tunnel is alive ([TunnelHandle.claim_is_live]).
    - Files: between systems that do what they are asked, a download delivers every
      file the user did not skip, in every interleaving of the two ends, and never stalls
      ([TransferDelivery.transfer_delivers]); a receiving job touches nothing
      outside its directory whatever the peer sends, and in each step only what the
      system says in that step is reached through no symbolic link
      ([TransferFacts.transfer_confined]; the temporaries are not looked at). Four examples show transfers that go
      wrong: [FileTransfer.failed_open_corrupts_previous],
      [FileTransfer.stale_download_promoted],
      [TransferDelivery.resumed_later_file_loses_its_head],
      [TransferDelivery.unreadable_file_ends_transfer].
    - Video: no panic and bounded rates ([QosFacts.qos_total]), the stream rate as
      a greatest lower bound, when a rate may fall and how it recovers, and the
      delay baseline.
    - What a session receives is bounded by its permissions and what was asked for
      ([Subscriptions.subscriptions_permitted], [Subscriptions.camera_audio_in_call],
      [Subscriptions.capture_displays_exact]) and nothing that changes what others
      receive ([Subscriptions.subscriptions_isolated]); a service refines, for each
      connection, the machine out - waiting for a snapshot - in
      ([Services.services_refine]); a viewer shows the cursor of the service, unless it
      came while a snapshot was sent
      ([CursorService.cursor_follows]). [Services.snapshot_race],
      [CursorService.comes_too_late] and three examples
      of [Subscriptions] show where this stops.
    - The picture: every frame a viewer is sent is the first of its encoder or
      follows the one it was sent before ([VideoService.viewers_decode]) and a viewer
      that joins others is shown a whole picture at the next turn
      ([VideoService.new_viewer_starts]), while viewers are not all replaced between two
      turns; while no wait is given up nobody has more than one frame under
      way ([VideoService.one_frame_under_way]). The viewer works the frames through in
      order ([VideoReceive.receive_refines]), catches up
      ([VideoReceive.decoder_catches_up]), and what it gives its decoder follows what it
      gave before ([VideoReceive.pictures_decode], over both ends;
      [VideoReceive.decoder_in_step], from any key frame on), a loss having a new picture
      asked for ([VideoReceive.loss_refreshes]); it asks for rates it decodes
      ([VideoReceive.fps_asked_bounded]) and has codecs it cannot decode left
      ([VideoReceive.failing_codec_left]). The codec is one that every viewer
      decodes, unless it told what it decodes while an encoder was set up
      ([CodecNegotiation.negotiated_decodable]), by majority
      ([CodecNegotiation.choice_follows_majority]), and displays come to agree on it
      ([CodecNegotiation.displays_agree]). [VideoService.begins_in_the_middle],
      [VideoService.late_answer_counts], [CodecNegotiation.vp9_is_assumed],
      [CodecNegotiation.setup_overwrites] and the examples at the end of [VideoReceive] show where this stops.
    - Sound, sent: what is encoded does not depend on the blocks of the device
      ([AudioCapture.capture_stream_total]); every packet is taken, waiting or
      counted as lost ([AudioCapture.handoff_accounts]), none that waits is slept on
      ([AudioCapture.packets_reach_encoder]), what is encoded is what was submitted,
      joined over losses ([AudioCapture.encoded_is_submitted],
      [AudioCapture.smoothing_joins]), and only lasting silence is kept back
      ([AudioCapture.zero_gate]). Sound, played: however the input is cut the output is the same
      ([Resampler.resample_streaming]) and of mono and stereo the device plays whole
      frames without unsignalled gaps ([AudioPlayback.playback_gapless]); a stream that plays is
      not given up ([PlaybackRecovery.sound_goes_on]), one that failed comes back
      within five time-outs of a working device
      ([PlaybackRecovery.sound_comes_back]), restarts being spaced
      ([PlaybackRecovery.restarts_spaced]).
    - Copied files: what is pasted is what was copied, path by path and byte by byte
      ([ClipPaste.paste_is_copy]), up to offsets the protocol garbles
      ([ClipPaste.high_offset_refused]); while the files stay as listed, open handles
      change no answer
      ([ClipServe.serving_is_stateless]); the list that was told is the list that is
      served ([ClipServe.told_is_served]) and survives its format
      ([ClipFormat.pdu_roundtrip]); whatever a peer sends as a list has safe names
      ([ClipFormat.parsed_descriptions_safe]) and is mounted as a tree
      ([ClipMount.peer_list_mounts]), whose handles stay in order
      ([ClipMount.handles_sorted]) and whose reads take no answer but their own
      ([ClipMount.read_takes_own_answer]). The examples at the ends of [ClipServe]
      and [ClipPaste] show where this stops.
    - Terminals: what the loops of all connections send together is what the terminal
      printed, without gaps or repetitions, across any number of returns, and all of it
      goes to the viewer if only its own loop polls
      ([TerminalSession.screen_continues]), cut between characters
      ([TerminalText.chunks_whole]), from a replay that is the end of the output
      ([TerminalText.replay_recent]); a return makes the program redraw, in a
      bounded number of passes ([TerminalSession.redraw_on_return]); terminals
      live until closed, ended, removed by a pass that found one ended under their
      number, or their service removed for a reason, and are not
      reached from other services ([TerminalService.terminals_stay]).
      [TerminalText.unfinished_line_unbounded], [TerminalSession.lost_loop_sends] and
      the examples at the end of [TerminalService] show where this stops.
    - Input: in every interleaving of the sessions' threads nothing but modifiers
      stays down ([RemoteInput.nothing_stays_down]), and releasing the recorded keys
      releases all but what function keys leave ([RemoteInput.reset_releases_all]); the
      modifiers are made those of the viewer before a key
      ([RemoteInput.modifiers_synced]), and so are the locks, which are put back
      ([RemoteInput.locks_follow_viewer]); the mouse leaves keys alone
      ([RemoteInput.mouse_leaves_keys]). [RemoteInput.pressed_modifiers_never] and the
      examples at the end of [RemoteInput] show where this stops.
    - Typed keys: written tokens are read back ([KeyText.tokenize_print]), and the
      errors are exactly the faults of a grammar ([KeyText.eval_error]).

    ** Bounds and fuel

    The glob matcher, the search for a free channel id, the loop that fills a
    block from a file and the listing of a selection are the only loops run on
    fuel. The listing has one unit per directory on the way down:
    [ClipServe.listing_terminates] shows that two more than the longest path the
    system takes always suffice. The loop that fills a block has one unit per
    byte of the block and one more ([TransferDelivery.fill_all]), and [IdWhitelist.wildcard_match_correct] and [TunnelHandle.handle_open]
    show that the fuel given ((length text + 2) * (length pattern + 1) + 1 steps,
    and one try per open channel and one more) always suffices.

    ** What is not modelled

    User interfaces, platform and capture code, codecs, the clipboards of the
    platforms (and the file copy of Windows and macOS), transport and rendezvous, which are I/O or wrappers of libraries. Of what is modelled: the
    services of the cursor's place and of the focused window, uploads as the
    viewer's loop sees them; of copied files, creating, inspecting and unmounting
    mount points, and access times; of input, Wayland, Windows and macOS; of the picture, screenshots, writing recordings, showing
    what was decoded and the recovery of a DXGI capturer; of audio, the encoder, the canceller of echo,
    finding and following devices and their threads; of terminals, starting
    shells, the thread that writes to them, reaping their processes and the helper
    process of Windows. The list of incoming sessions, the trusted devices and the
    second factor read and write the stored configuration and the clock through
    libraries, with little logic between; the login takes their answers. *)
From stdpp Require Export prelude gmap list strings pretty.
From Stdlib Require Export ZArith Lia.
#[export] Set Default Goal Selector "!".

(** [lia] also sees [/] and [mod]. *)
Ltac Zify.zify_post_hook ::= Z.to_euclidean_division_equations.

(** ** Fallible code

    [result E A] is Rust's [Result<A, E>]; the monad instances give the
    [x ← e; k] notation of stdpp for the [?] operator. *)
Inductive result (E A : Type) : Type :=
| Ok (a : A)
| Err (e : E).
Arguments Ok {E A} a.
Arguments Err {E A} e.

#[export] Instance result_ret E : MRet (result E) := λ A a, Ok a.
#[export] Instance result_bind E : MBind (result E) := λ A B f m,
  match m with Ok a => f a | Err e => Err e end.
#[export] Instance result_fmap E : FMap (result E) := λ A B f m,
  match m with Ok a => Ok (f a) | Err e => Err e end.

#[export] Instance result_eq_dec E A
  (HE : EqDecision E) (HA : EqDecision A) : EqDecision (result E A).
Proof. solve_decision. Defined.

Definition is_ok {E A} (r : result E A) : bool :=
  match r with Ok _ => true | Err _ => false end.

Lemma result_bind_ok {E A B} (m : result E A) (f : A → result E B) b :
  m ≫= f = Ok b ↔ ∃ a, m = Ok a ∧ f a = Ok b.
Proof. destruct m as [a|e]; simpl; naive_solver. Qed.

(** ** Machine integers

    Every width is a [Z] kept in range; the operations below are the ones the
    source spells out ([saturating_add], [checked_sub], wrapping casts). *)
Module Int.
Local Open Scope Z_scope.
Definition u8_max : Z := 2 ^ 8 - 1.
Definition u32_max : Z := 2 ^ 32 - 1.
Definition u64_max : Z := 2 ^ 64 - 1.
Definition usize_max : Z := u64_max.
Definition i32_min : Z := - 2 ^ 31.
Definition i32_max : Z := 2 ^ 31 - 1.
Definition i64_min : Z := - 2 ^ 63.
Definition i64_max : Z := 2 ^ 63 - 1.

Definition in_u8 (z : Z) : Prop := 0 <= z <= u8_max.
Definition in_u32 (z : Z) : Prop := 0 <= z <= u32_max.
Definition in_u64 (z : Z) : Prop := 0 <= z <= u64_max.
Definition in_i32 (z : Z) : Prop := i32_min <= z <= i32_max.
Definition in_i64 (z : Z) : Prop := i64_min <= z <= i64_max.

Definition wrap_u8 (z : Z) : Z := z mod 2 ^ 8.
Definition wrap_u32 (z : Z) : Z := z mod 2 ^ 32.
Definition wrap_u64 (z : Z) : Z := z mod 2 ^ 64.
Definition wrap_i32 (z : Z) : Z := (z + 2 ^ 31) mod 2 ^ 32 - 2 ^ 31.
Definition wrap_i64 (z : Z) : Z := (z + 2 ^ 63) mod 2 ^ 64 - 2 ^ 63.

Definition u8_saturating_add (a b : Z) : Z := Z.min (a + b) u8_max.
Definition u32_saturating_add (a b : Z) : Z := Z.min (a + b) u32_max.
Definition u32_saturating_sub (a b : Z) : Z := Z.max (a - b) 0.
Definition u32_saturating_mul (a b : Z) : Z := Z.min (a * b) u32_max.
Definition u32_checked_sub (a b : Z) : option Z :=
  if a <? b then None else Some (a - b).
Definition usize_saturating_add (a b : Z) : Z := Z.min (a + b) usize_max.
Definition i32_saturating_add (a b : Z) : Z :=
  Z.max i32_min (Z.min (a + b) i32_max).
Definition i32_saturating_sub (a b : Z) : Z :=
  Z.max i32_min (Z.min (a - b) i32_max).
Definition i64_saturating_sub (a b : Z) : Z :=
  Z.max i64_min (Z.min (a - b) i64_max).

(** [u32::try_from(n).unwrap_or(u32::MAX)] for an unsigned [n]. *)
Definition u32_try_from_or_max (n : Z) : Z :=
  if n <=? u32_max then n else u32_max.

(** [Ord::clamp] with [lo <= hi]. *)
Definition clamp (lo hi z : Z) : Z := Z.max lo (Z.min z hi).

Lemma wrap_u32_range z : in_u32 (wrap_u32 z).
Proof. unfold in_u32, wrap_u32, u32_max.
  pose proof (Z.mod_pos_bound z (2 ^ 32)). lia. Qed.
Lemma wrap_i32_range z : in_i32 (wrap_i32 z).
Proof. unfold in_i32, wrap_i32, i32_min, i32_max.
  pose proof (Z.mod_pos_bound (z + 2 ^ 31) (2 ^ 32)). lia. Qed.
Lemma wrap_i32_id z : in_i32 z → wrap_i32 z = z.
Proof. unfold in_i32, wrap_i32, i32_min, i32_max. intros.
  rewrite Z.mod_small; lia. Qed.
Lemma wrap_u64_id z : in_u64 z → wrap_u64 z = z.
Proof. unfold in_u64, wrap_u64, u64_max. intros. by rewrite Z.mod_small by lia. Qed.
Lemma wrap_u32_id z : in_u32 z → wrap_u32 z = z.
Proof. unfold in_u32, wrap_u32, u32_max. intros. apply Z.mod_small. lia. Qed.
Lemma int_clamp_range lo hi z : lo <= hi → lo <= clamp lo hi z <= hi.
Proof. unfold clamp. lia. Qed.
Lemma u32_checked_sub_Some a b c :
  u32_checked_sub a b = Some c ↔ b <= a ∧ c = a - b.
Proof. unfold u32_checked_sub. destruct (Z.ltb_spec a b); naive_solver lia. Qed.
Lemma u32_checked_sub_None a b : u32_checked_sub a b = None ↔ a < b.
Proof. unfold u32_checked_sub. destruct (Z.ltb_spec a b); naive_solver lia. Qed.
End Int.

(** [int_unfold] opens every width operation, after which [lia] applies. *)
Ltac int_unfold :=
  unfold Int.in_u8, Int.in_u32, Int.in_u64, Int.in_i32, Int.in_i64,
    Int.u8_saturating_add, Int.u32_saturating_add, Int.u32_saturating_sub,
    Int.u32_saturating_mul, Int.usize_saturating_add, Int.i32_saturating_add,
    Int.i32_saturating_sub, Int.i64_saturating_sub, Int.u32_try_from_or_max,
    Int.clamp, Int.u8_max, Int.u32_max, Int.u64_max, Int.usize_max,
    Int.i32_min, Int.i32_max, Int.i64_min, Int.i64_max in *.

(** ** Case analysis on the boolean tests the executable definitions use *)
Ltac bool_cases :=
  repeat match goal with
  | |- context [Z.eqb ?a ?b] => destruct (Z.eqb_spec a b)
  | |- context [Z.ltb ?a ?b] => destruct (Z.ltb_spec a b)
  | |- context [Z.leb ?a ?b] => destruct (Z.leb_spec a b)
  | H : context [Z.eqb ?a ?b] |- _ => destruct (Z.eqb_spec a b)
  | H : context [Z.ltb ?a ?b] |- _ => destruct (Z.ltb_spec a b)
  | H : context [Z.leb ?a ?b] |- _ => destruct (Z.leb_spec a b)
  end.

(** ** Reflexive transitive closure of a step relation, with rule induction *)
Section reach.
Context {S : Type} (init : S → Prop) (step : S → S → Prop).

Inductive reachable : S → Prop :=
| reach_init s : init s → reachable s
| reach_step s t : reachable s → step s t → reachable t.

(** An inductive invariant holds in every reachable state. *)
Lemma reachable_invariant (P : S → Prop) :
  (∀ s, init s → P s) →
  (∀ s t, P s → step s t → P t) →
  ∀ s, reachable s → P s.
Proof. intros Hi Hs s Hr. induction Hr; eauto. Qed.
End reach.

(** ** Functional record update

    A record declares how it is rebuilt from its own projections ([Eta]); the
    update at one projection is then found by type-class search, and
    [r <| f := v |>] reads like the source's field assignment. *)
Class Eta (R : Type) : Type := eta : R → R.
Class Upd {R T : Type} (proj : R → T) : Type := upd : (T → T) → R → R.
Arguments upd {R T} proj {_} _ _ /.

Ltac solve_upd :=
  lazymatch goal with
  | |- @Upd ?R ?T ?proj =>
      let e := constr:(_ : Eta R) in
      let e := eval cbv beta delta [eta] in (@eta R e) in
      let e := match e with
               | ?h => let h' := eval red in h in constr:(h')
               | ?h => constr:(h)
               end in
      lazymatch (eval pattern proj in e) with
      | ?k _ => exact (λ (f : T → T) (r : R), k (λ r', f (proj r')) r)
      end
  end.
#[export] Hint Extern 0 (Upd _) => solve_upd : typeclass_instances.

Declare Scope record_scope.
Delimit Scope record_scope with rec.
Global Open Scope record_scope.
Notation "r <| p := v |>" := (upd p (λ _, v) r)
  (at level 1, left associativity, p at level 9,
   format "r  <| p  :=  v |>") : record_scope.
Notation "r <| p ::= f |>" := (upd p f r)
  (at level 1, left associativity, p at level 9,
   format "r  <| p  ::=  f |>") : record_scope.

Module EtaCheck.
Record point := mk { px : Z; py : Z; pz : option Z }.
#[local] Instance point_eta : Eta point := λ r, mk (px r) (py r) (pz r).
Example upd_ok : (mk 1 2 None) <| py := 5%Z |> <| pz := Some 3%Z |> = mk 1 5 (Some 3%Z).
Proof. reflexivity. Qed.
Example upd_simpl r : px (r <| py := 5%Z |>) = px r.
Proof. simpl. match goal with |- px r = px r => reflexivity end. Qed.
End EtaCheck.

(** ** Text

    A Rust [&str] is its sequence of [char]s (Unicode scalar values); the
    functions of the standard library the source uses on text are below.
    [lit] turns an ASCII literal into text. *)
Abbreviation char := N.
Abbreviation str := (list N).
Abbreviation bytes := (list Byte.byte).

#[export] Instance byte_eq_dec : EqDecision Byte.byte := Byte.byte_eq_dec.

Definition lit (s : string) : str :=
  Ascii.N_of_ascii <$> String.list_ascii_of_string s.

(** The bytes of an ASCII literal. *)
Definition lit_bytes (s : string) : bytes := Ascii.byte_of_ascii <$> String.list_ascii_of_string s.
#[global] Arguments lit_bytes : simpl never.

(** A character literal. *)
Definition chr (s : string) : char := hd 0%N (lit s).

(** Decimal rendering of an integer, as [format!("{}")] prints it. *)
Definition fmt_Z (z : Z) : str := lit (pretty z).

(** [char::is_whitespace]: the Unicode [White_Space] property. *)
Definition is_whitespace (c : char) : bool :=
  ((9 <=? c) && (c <=? 13) || (c =? 32) || (c =? 133) || (c =? 160) || (c =? 5760)
   || ((8192 <=? c) && (c <=? 8202)) || (c =? 8232) || (c =? 8233) || (c =? 8239)
   || (c =? 8287) || (c =? 12288))%N.

Fixpoint trim_start (s : str) : str :=
  match s with
  | c :: s' => if is_whitespace c then trim_start s' else s
  | [] => []
  end.
Definition trim (s : str) : str := reverse (trim_start (reverse (trim_start s))).

(** [str::split] on a predicate: always at least one piece. *)
Fixpoint split_by (p : char → bool) (s : str) : list str :=
  match s with
  | [] => [[]]
  | c :: s' =>
      if p c then [] :: split_by p s'
      else match split_by p s' with
           | [] => [[c]]
           | w :: ws => (c :: w) :: ws
           end
  end.
Definition split_on (c : char) : str → list str := split_by (N.eqb c).

Definition starts_with (s pre : str) : bool := bool_decide (pre `prefix_of` s).

(** Bytes of the UTF-8 encoding of one scalar value. *)
Definition utf8_len (c : char) : nat :=
  if (c <? 128)%N then 1 else if (c <? 2048)%N then 2 else if (c <? 65536)%N then 3 else 4.
Definition byte_len (s : str) : nat := sum_list_with utf8_len s.

Lemma split_by_nonempty p s : split_by p s ≠ [].
Proof. destruct s as [|c s]; simpl; [done|]. destruct (p c), (split_by p s); done. Qed.

(** No piece of a split contains a separator. *)
Lemma split_by_pieces p s w : w ∈ split_by p s → Forall (λ c, p c = false) w.
Proof.
  revert w. induction s as [|c s IH]; intros w; simpl.
  - intros ->%list_elem_of_singleton. constructor.
  - destruct (p c) eqn:Hc.
    + intros [->|Hw]%elem_of_cons; [constructor|auto].
    + pose proof (split_by_nonempty p s). destruct (split_by p s) as [|v vs]; [done|].
      intros [->|Hw]%elem_of_cons; [|apply IH; by right].
      constructor; [done|]. apply IH. by left.
Qed.

(** A text without separators is its own single piece. *)
Lemma split_by_none p s : Forall (λ c, p c = false) s → split_by p s = [s].
Proof. induction 1 as [|c s Hc Hs IH]; simpl; [done|]. by rewrite Hc, IH. Qed.

(** Splitting at a separator. *)
Lemma split_by_sep p s c t :
  Forall (λ c, p c = false) s → p c = true → split_by p (s ++ c :: t) = s :: split_by p t.
Proof.
  intros Hs Hc. induction Hs as [|d s Hd Hs IH]; simpl; [by rewrite Hc|].
  by rewrite Hd, IH.
Qed.

Lemma starts_with_spec s pre : starts_with s pre = true ↔ ∃ t, s = pre ++ t.
Proof. unfold starts_with. rewrite bool_decide_eq_true. reflexivity. Qed.

Lemma fmt_Z_inj a b : fmt_Z a = fmt_Z b → a = b.
Proof.
  unfold fmt_Z, lit. intros Heq. apply (inj pretty).
  apply (f_equal (fmap Ascii.ascii_of_N)) in Heq.
  rewrite <- !list_fmap_compose in Heq.
  assert (∀ l : list Ascii.ascii, (Ascii.ascii_of_N ∘ Ascii.N_of_ascii <$> l) = l) as Hid.
  { intros l. induction l as [|x l IH]; simpl; [done|].
    rewrite Ascii.ascii_N_embedding. by f_equal. }
  rewrite !Hid in Heq. rewrite <- (String.string_of_list_ascii_of_string (pretty a)).
  rewrite Heq. apply String.string_of_list_ascii_of_string.
Qed.

(** ** Little-endian encodings *)
Section little_endian.
Local Open Scope Z_scope.
Definition byte_of_Z (z : Z) : Byte.byte :=
  default Byte.x00 (Byte.of_N (Z.to_N (z mod 256))).
Fixpoint le_bytes (n : nat) (z : Z) : bytes :=
  match n with O => [] | S n => byte_of_Z z :: le_bytes n (z / 256) end.

Lemma byte_of_Z_inj a b : 0 <= a < 256 → 0 <= b < 256 → byte_of_Z a = byte_of_Z b → a = b.
Proof.
  intros Ha Hb. unfold byte_of_Z. rewrite !Z.mod_small by lia.
  assert (∀ z, 0 <= z < 256 → ∃ x, Byte.of_N (Z.to_N z) = Some x ∧ Byte.to_N x = Z.to_N z) as H.
  { intros z Hz. destruct (Byte.of_N (Z.to_N z)) as [x|] eqn:Hx.
    - exists x. split; [done|]. by apply Byte.to_of_N.
    - apply Byte.of_N_None_iff in Hx. lia. }
  destruct (H a Ha) as (x & -> & Hx), (H b Hb) as (y & -> & Hy). simpl. intros ->. lia.
Qed.

Lemma byte_of_Z_mod z : byte_of_Z (z mod 256) = byte_of_Z z.
Proof. unfold byte_of_Z. by rewrite Z.mod_mod by lia. Qed.

Lemma length_le_bytes n z : length (le_bytes n z) = n.
Proof. revert z. induction n; intros; simpl; auto. Qed.

Lemma le_bytes_inj n a b : 0 <= a < 256 ^ Z.of_nat n → 0 <= b < 256 ^ Z.of_nat n →
  le_bytes n a = le_bytes n b → a = b.
Proof.
  revert a b. induction n as [|n IH]; intros a b Ha Hb; simpl in *; [lia|].
  replace (Z.of_nat (S n)) with (Z.succ (Z.of_nat n)) in * by lia.
  rewrite Z.pow_succ_r in * by lia. intros [= Hlo Hhi].
  rewrite <- (byte_of_Z_mod a), <- (byte_of_Z_mod b) in Hlo.
  apply byte_of_Z_inj in Hlo; [|lia|lia].
  specialize (IH (a / 256) (b / 256)). rewrite (Z.div_mod a 256), (Z.div_mod b 256) by lia.
  rewrite Hlo, IH; [done|nia|nia|done].
Qed.

(** The number that bytes stand for, the lowest first. *)
Definition Z_of_byte (b : Byte.byte) : Z := Z.of_N (Byte.to_N b).
Fixpoint of_le (l : bytes) : Z :=
  match l with [] => 0 | b :: l => Z_of_byte b + 256 * of_le l end.

Lemma Z_of_byte_of_Z z : Z_of_byte (byte_of_Z z) = z mod 256.
Proof.
  unfold Z_of_byte, byte_of_Z. pose proof (Z.mod_pos_bound z 256 ltac:(lia)).
  destruct (Byte.of_N (Z.to_N (z mod 256))) as [x|] eqn:Hx; cbn [default id].
  - apply Byte.to_of_N in Hx. rewrite Hx. lia.
  - apply Byte.of_N_None_iff in Hx. lia.
Qed.
Lemma Z_of_byte_range b : 0 <= Z_of_byte b < 256.
Proof. unfold Z_of_byte. pose proof (Byte.to_N_bounded b). lia. Qed.
Lemma byte_of_Z_of_byte b : byte_of_Z (Z_of_byte b) = b.
Proof. unfold byte_of_Z. rewrite Z.mod_small by apply Z_of_byte_range. unfold Z_of_byte. by rewrite N2Z.id, Byte.of_to_N. Qed.
Lemma of_le_bytes n z : of_le (le_bytes n z) = z mod 256 ^ Z.of_nat n.
Proof.
  revert z. induction n as [|n IH]; intros z; cbn [le_bytes of_le]; [by rewrite Z.mod_1_r|].
  rewrite IH, Z_of_byte_of_Z. replace (Z.of_nat (S n)) with (Z.succ (Z.of_nat n)) by lia.
  rewrite Z.pow_succ_r by lia. pose proof (Z.pow_pos_nonneg 256 (Z.of_nat n)). rewrite Z.rem_mul_r by lia. lia.
Qed.
Lemma of_le_bytes_small n z : 0 <= z < 256 ^ Z.of_nat n → of_le (le_bytes n z) = z.
Proof. intros. by rewrite of_le_bytes, Z.mod_small. Qed.
Lemma of_le_range l : 0 <= of_le l < 256 ^ Z.of_nat (length l).
Proof.
  induction l as [|b l IH]; cbn [of_le length]; [done|]. pose proof (Z_of_byte_range b).
  replace (Z.of_nat (S (length l))) with (Z.succ (Z.of_nat (length l))) by lia. rewrite Z.pow_succ_r by lia. nia.
Qed.
End little_endian.
