(* ===== verification/FlowControl.v ===== *)
(** * Per-channel credit flow control of the port-forward multiplexer

    [src/src/port_forward_mux.rs]: the wire constants, the
    receiver-side [RecvWindow], the sender-side [SendCredit], and the two of
    them connected by a FIFO wire ([Direction]). *)
From S2P Require Import Prelude.
Import Int.
Local Open Scope Z_scope.

Definition INITIAL_WINDOW : Z := 64 * 1024.
Definition MIN_FRAME_CHARGE : Z := 64.
Definition CHANNEL_WINDOW : Z := 256 * 1024.
Definition MAX_FRAME : Z := 64 * 1024.
Definition MAX_PACKET : Z := 2 * MAX_FRAME.
Definition UPDATE_THRESHOLD : Z := CHANNEL_WINDOW / 2.
Definition MAX_CHANNELS : nat := 256.
Definition DATA_QUEUE_FRAMES : nat := 128.
Definition MAX_SEND_CREDIT : Z := CHANNEL_WINDOW.

Definition effective_window (advertised : Z) : Z := Z.max advertised INITIAL_WINDOW.

Definition charge (len : Z) : Z := Z.max (u32_try_from_or_max len) MIN_FRAME_CHARGE.

(** Opens the constants above for [lia]. *)
Ltac flow_unfold :=
  unfold effective_window, charge, MAX_SEND_CREDIT, MAX_PACKET, UPDATE_THRESHOLD,
    INITIAL_WINDOW, MIN_FRAME_CHARGE, CHANNEL_WINDOW, MAX_FRAME in *; int_unfold.

(** ** Receiver side *)
Module RecvWindow.
Record t := mk { remaining : Z; drained_since_update : Z }.

Definition new (granted : Z) : t := mk (effective_window granted) 0.

(** [false] means the peer overran the window; the window is then unchanged. *)
Definition accept (w : t) (len : Z) : bool * t :=
  match u32_checked_sub w.(remaining) (charge len) with
  | Some rest => (true, mk rest w.(drained_since_update))
  | None => (false, w)
  end.

Definition grant (w : t) (n : Z) : t :=
  mk (u32_saturating_add w.(remaining) n) w.(drained_since_update).

Definition drained (w : t) (n : Z) : option Z * t :=
  let d := u32_saturating_add w.(drained_since_update) (charge n) in
  if d <? UPDATE_THRESHOLD then (None, mk w.(remaining) d)
  else (Some d, mk (u32_saturating_add w.(remaining) d) 0).
End RecvWindow.

(** ** Sender side

    [take] either takes at least one minimum charge or parks ([None]). *)
Module SendCredit.
Definition new (initial : Z) : Z := Z.min initial MAX_SEND_CREDIT.

Definition try_take (credit max : Z) : option (Z * Z) :=
  if MIN_FRAME_CHARGE <=? credit then
    let n := Z.min credit max in Some (n, credit - n)
  else None.

Definition add (credit n : Z) : Z :=
  Z.min (u32_saturating_add credit n) MAX_SEND_CREDIT.

Definition raise_initial (credit total : Z) : Z :=
  let extra := effective_window total - INITIAL_WINDOW in
  if 0 <? extra then add credit extra else credit.
End SendCredit.

(** Settling an allowance of [allow] after [got] bytes were read
    ([relay_socket_to_tunnel]). *)
Definition settle (credit allow got : Z) : Z :=
  let spent := if got =? 0 then 0 else charge got in
  if spent <? allow then SendCredit.add credit (allow - spent) else credit.

(** *** Arithmetic of one charge *)
Lemma charge_lower n : MIN_FRAME_CHARGE <= charge n.
Proof. flow_unfold. lia. Qed.
Lemma charge_ge_len n : 0 <= n <= u32_max → n <= charge n.
Proof. flow_unfold. intros. bool_cases; lia. Qed.
Lemma charge_u32 n : 0 <= n → in_u32 (charge n).
Proof. flow_unfold. intros. bool_cases; lia. Qed.
Lemma charge_le_allow got allow :
  0 <= got <= allow → MIN_FRAME_CHARGE <= allow <= MAX_FRAME → charge got <= allow.
Proof. flow_unfold. intros. bool_cases; lia. Qed.

Definition charges (l : list Z) : Z := foldr (λ n a, charge n + a) 0 l.
Definition sum_Z (l : list Z) : Z := foldr Z.add 0 l.

Lemma charges_app l k : charges (l ++ k) = charges l + charges k.
Proof. induction l as [|a l IH]; simpl; lia. Qed.
Lemma charges_nonneg l : 0 <= charges l.
Proof. induction l as [|a l IH]; simpl; [lia|].
  pose proof (charge_lower a). flow_unfold. lia. Qed.
Lemma charges_count l : MIN_FRAME_CHARGE * Z.of_nat (length l) <= charges l.
Proof. induction l as [|a l IH]; simpl; [lia|]. pose proof (charge_lower a). lia. Qed.
Lemma sum_Z_app l k : sum_Z (l ++ k) = sum_Z l + sum_Z k.
Proof. induction l as [|a l IH]; simpl; lia. Qed.
Create Rewrite HintDb flow.
#[export] Hint Rewrite charges_app sum_Z_app : flow.

(** ** The receiver against an arbitrary peer

    The demultiplexer runs [accept] on every [data] frame and queues the frame
    when it is accepted; the channel task drains the queue in order. *)
Module Receiver.
Record st := mk { win : RecvWindow.t; queue : list Z; violated : bool }.

Inductive event := Frame (len : Z) | Drain.

Definition step (s : st) (e : event) : st :=
  match e with
  | Frame len =>
      let '(ok, w) := RecvWindow.accept s.(win) len in
      if ok then mk w (s.(queue) ++ [len]) s.(violated)
      else mk w s.(queue) true
  | Drain =>
      match s.(queue) with
      | [] => s
      | len :: q => mk (RecvWindow.drained s.(win) len).2 q s.(violated)
      end
  end.

Definition start (granted : Z) : st := mk (RecvWindow.new granted) [] false.

(** What the channel owes its peer: credit still out, plus what is queued,
    plus what was drained and not yet advertised. *)
Definition total (s : st) : Z :=
  s.(win).(RecvWindow.remaining) + charges s.(queue)
    + s.(win).(RecvWindow.drained_since_update).

Definition wf (w : Z) (s : st) : Prop :=
  total s = w ∧ 0 <= s.(win).(RecvWindow.remaining)
  ∧ 0 <= s.(win).(RecvWindow.drained_since_update) < UPDATE_THRESHOLD.

Definition len_ok (e : event) : Prop :=
  match e with Frame len => 0 <= len | Drain => True end.

Lemma receiver_step_wf w s e : w <= u32_max → len_ok e → wf w s → wf w (step s e).
Proof.
  intros Hw Hlen (Ht & Hr & Hd). destruct s as [[r d] q v], e as [len|];
    unfold wf, total in *; simpl in *.
  - unfold RecvWindow.accept; simpl.
    destruct (u32_checked_sub r (charge len)) as [c|] eqn:Hc; simpl; [|lia].
    apply u32_checked_sub_Some in Hc as [? ->].
    autorewrite with flow; simpl. lia.
  - destruct q as [|len q]; simpl in *; [lia|].
    unfold RecvWindow.drained; simpl.
    pose proof (charges_nonneg q) as Hq. pose proof (charge_lower len) as Hl.
    unfold MIN_FRAME_CHARGE in Hl.
    assert (u32_saturating_add d (charge len) = d + charge len) as ->
      by (unfold u32_saturating_add; lia).
    destruct (Z.ltb_spec (d + charge len) UPDATE_THRESHOLD); simpl;
      unfold u32_saturating_add, u32_max, UPDATE_THRESHOLD, CHANNEL_WINDOW in *; lia.
Qed.

Lemma receiver_run_wf w s es :
  w <= u32_max → Forall len_ok es → wf w s → wf w (foldl step s es).
Proof.
  intros Hw Hes. revert s. induction Hes as [|e es He Hes IH]; intros s Hs;
    simpl; [done|]. apply IH, receiver_step_wf; auto.
Qed.

(** A frame the window covers is accepted and queued. *)
Lemma step_frame_ok s len :
  charge len <= s.(win).(RecvWindow.remaining) →
  step s (Frame len) =
    mk (RecvWindow.mk (s.(win).(RecvWindow.remaining) - charge len)
          s.(win).(RecvWindow.drained_since_update))
       (s.(queue) ++ [len]) s.(violated).
Proof.
  intros H. unfold step, RecvWindow.accept, u32_checked_sub.
  destruct (Z.ltb_spec (s.(win).(RecvWindow.remaining)) (charge len)); [lia|done].
Qed.

(** Draining hands back exactly what it advertises. *)
Lemma drained_remaining w s len q :
  w <= u32_max → wf w s → s.(queue) = len :: q →
  (RecvWindow.drained s.(win) len).2.(RecvWindow.remaining) =
    s.(win).(RecvWindow.remaining) + default 0 (RecvWindow.drained s.(win) len).1
  ∧ 0 <= default 0 (RecvWindow.drained s.(win) len).1.
Proof.
  intros Hw (Ht & Hr & Hd) Hq. unfold total in Ht. rewrite Hq in Ht. simpl in Ht.
  pose proof (charges_nonneg q) as Hqn. pose proof (charge_lower len) as Hl.
  unfold MIN_FRAME_CHARGE in Hl. unfold RecvWindow.drained.
  assert (u32_saturating_add s.(win).(RecvWindow.drained_since_update) (charge len)
          = s.(win).(RecvWindow.drained_since_update) + charge len) as ->
    by (unfold u32_saturating_add; lia).
  destruct (Z.ltb_spec (s.(win).(RecvWindow.drained_since_update) + charge len)
    UPDATE_THRESHOLD); simpl; unfold u32_saturating_add; lia.
Qed.

Lemma start_wf granted :
  wf (effective_window granted) (start granted).
Proof. unfold wf, total, start, RecvWindow.new; simpl. flow_unfold. lia. Qed.
End Receiver.
#[global] Arguments Receiver.step : simpl never.

(** ** One direction of a channel, both ends compliant

    The sender runs the loop of [relay_socket_to_tunnel]: [Take] an allowance,
    [Read] some bytes and settle, or give the allowance back.  Frames and
    window updates travel on FIFO wires; [Grant] is the controlled side raising
    its window when it sends [opened], [Granted] is [opened] arriving. *)
Module Direction.
Record st := mk {
  credit : Z;            (* the sender's [SendCredit] *)
  held : option Z;       (* allowance taken and not yet settled *)
  wire : list Z;         (* lengths of the [data] frames in flight *)
  recv : Receiver.st;    (* the receiver's window and queue *)
  updates : list Z;      (* [window_update]s in flight *)
  granted : bool;        (* the receiver has widened its window *)
  opened_wire : list Z   (* windows of the [opened] frames in flight *)
}.
#[global] Instance st_eta : Eta st := λ s, mk (credit s) (held s) (wire s)
  (recv s) (updates s) (granted s) (opened_wire s).
#[global] Instance recv_eta : Eta Receiver.st := λ s,
  Receiver.mk (Receiver.win s) (Receiver.queue s) (Receiver.violated s).

(** Controller to controlled: both ends start from [INITIAL_WINDOW]. *)
Definition init_up : st :=
  mk (SendCredit.new INITIAL_WINDOW) None [] (Receiver.start INITIAL_WINDOW) [] false [].
(** Controlled to controller: [open] carried [CHANNEL_WINDOW]. *)
Definition init_down : st :=
  mk (SendCredit.new (effective_window CHANNEL_WINDOW)) None []
     (Receiver.start CHANNEL_WINDOW) [] true [].

Inductive step : st → st → Prop :=
| Take s n c :
    s.(held) = None → SendCredit.try_take s.(credit) MAX_FRAME = Some (n, c) →
    step s (s <| credit := c |> <| held := Some n |>)
| Read s allow got :
    s.(held) = Some allow → 0 < got <= allow →
    step s (s <| credit := settle s.(credit) allow got |> <| held := None |>
              <| wire := s.(wire) ++ [got] |>)
| Eof s allow :
    s.(held) = Some allow →
    step s (s <| credit := settle s.(credit) allow 0 |> <| held := None |>)
| Deliver s len w :
    s.(wire) = len :: w →
    step s (s <| wire := w |> <| recv := Receiver.step s.(recv) (Receiver.Frame len) |>)
| Drain s len q :
    s.(recv).(Receiver.queue) = len :: q →
    step s (s <| recv := Receiver.step s.(recv) Receiver.Drain |>
              <| updates := s.(updates) ++
                   option_list (RecvWindow.drained s.(recv).(Receiver.win) len).1 |>)
| Update s n us :
    s.(updates) = n :: us →
    step s (s <| credit := SendCredit.add s.(credit) n |> <| updates := us |>)
| Grant s :
    s.(granted) = false →
    step s (s <| granted := true |>
              <| recv := s.(recv) <| Receiver.win :=
                   RecvWindow.grant s.(recv).(Receiver.win)
                     (CHANNEL_WINDOW - INITIAL_WINDOW) |> |>
              <| opened_wire := s.(opened_wire) ++ [CHANNEL_WINDOW] |>)
| Granted s w ws :
    s.(opened_wire) = w :: ws →
    step s (s <| credit := SendCredit.raise_initial s.(credit) w |>
              <| opened_wire := ws |>).

Definition init (s : st) : Prop := s = init_up ∨ s = init_down.
Definition reach : st → Prop := reachable init step.

Definition window_of (s : st) : Z :=
  if s.(granted) then CHANNEL_WINDOW else INITIAL_WINDOW.
Definition pending_grant (s : st) : Z :=
  Z.of_nat (length s.(opened_wire)) * (CHANNEL_WINDOW - INITIAL_WINDOW).
Definition in_flight (s : st) : Z :=
  default 0 s.(held) + charges s.(wire) + sum_Z s.(updates) + pending_grant s.

(** Credit is conserved: what the receiver will still accept is exactly the
    sender's credit plus everything in flight. *)
Record inv (s : st) : Prop := {
  inv_recv : Receiver.wf (window_of s) s.(recv);
  inv_conserve : s.(credit) + in_flight s = s.(recv).(Receiver.win).(RecvWindow.remaining);
  inv_credit : 0 <= s.(credit);
  inv_held : ∀ n, s.(held) = Some n → MIN_FRAME_CHARGE <= n <= MAX_FRAME;
  inv_wire : Forall (λ n, 0 < n <= MAX_FRAME) s.(wire);
  inv_updates : Forall (λ n, 0 <= n) s.(updates);
  inv_opened : Forall (eq CHANNEL_WINDOW) s.(opened_wire);
  inv_violated : s.(recv).(Receiver.violated) = false
}.

Lemma sum_Z_nonneg l : Forall (λ n, 0 <= n) l → 0 <= sum_Z l.
Proof. induction 1; simpl; lia. Qed.

(** What is in flight is never negative, so no credit exceeds the window. *)
Lemma inv_credit_bound s : inv s →
  0 <= in_flight s ∧ s.(credit) + in_flight s <= window_of s ∧ window_of s <= CHANNEL_WINDOW.
Proof.
  intros [Hr Hc Hcr Hh Hw Hu Ho Hv]. unfold Receiver.wf, Receiver.total in Hr.
  pose proof (charges_nonneg (wire s)). pose proof (sum_Z_nonneg _ Hu).
  pose proof (charges_nonneg (Receiver.queue (recv s))).
  assert (0 <= default 0 (held s)).
  { destruct (held s) as [n|]; simpl; [|lia]. specialize (Hh n eq_refl).
    unfold MIN_FRAME_CHARGE in Hh. lia. }
  unfold window_of, in_flight, pending_grant in *. flow_unfold.
  destruct (granted s); lia.
Qed.

Lemma direction_init_inv s : init s → inv s.
Proof.
  intros [-> | ->]; split; try done; try (by constructor); vm_compute; repeat split; congruence.
Qed.

Lemma settle_eq c allow got :
  0 <= c → 0 <= got <= allow → MIN_FRAME_CHARGE <= allow <= MAX_FRAME →
  c + allow <= MAX_SEND_CREDIT →
  settle c allow got = c + allow - (if got =? 0 then 0 else charge got).
Proof.
  intros Hc Hg Ha Hm. pose proof (charge_le_allow got allow Hg Ha) as Hle.
  pose proof (charge_lower got) as Hl.
  unfold settle, SendCredit.add, MAX_SEND_CREDIT, CHANNEL_WINDOW, MIN_FRAME_CHARGE in *.
  unfold u32_saturating_add, u32_max. bool_cases; lia.
Qed.

(** Each step transfers credit between two of the summands of [in_flight]. *)
Ltac dir_start Hi s :=
  pose proof (inv_credit_bound _ Hi) as (Hb0 & Hb1 & Hb2);
  destruct Hi as [Hr Hc Hcr Hh Hw Hu Ho Hv];
  destruct s as [cr hd wi rc up gr ow];
  unfold in_flight, window_of, pending_grant in *; simpl in *.

Lemma take_inv s n c :
  inv s → s.(held) = None → SendCredit.try_take s.(credit) MAX_FRAME = Some (n, c) →
  inv (s <| credit := c |> <| held := Some n |>).
Proof.
  intros Hi Hn Ht. dir_start Hi s. subst hd. cbn [from_option] in *. unfold SendCredit.try_take in Ht.
  destruct (Z.leb_spec MIN_FRAME_CHARGE cr) as [Hm|Hm]; [|done]. injection Ht as <- <-.
  unfold MIN_FRAME_CHARGE, MAX_FRAME in *.
  split; simpl; try done; unfold in_flight, pending_grant; simpl.
  - lia.
  - lia.
  - intros ? [= <-]. unfold MIN_FRAME_CHARGE, MAX_FRAME. lia.
Qed.

Lemma settle_inv s allow got wi' :
  inv s → s.(held) = Some allow → 0 <= got <= allow →
  wi' = (if got =? 0 then s.(wire) else s.(wire) ++ [got]) →
  inv (s <| credit := settle s.(credit) allow got |> <| held := None |> <| wire := wi' |>).
Proof.
  intros Hi Ha Hg ->. dir_start Hi s. subst hd. cbn [from_option] in *. simpl in *.
  pose proof (Hh allow eq_refl) as Hal.
  pose proof (charges_nonneg wi) as Hwi. pose proof (sum_Z_nonneg _ Hu) as Hus.
  pose proof (settle_eq cr allow got) as Hse. unfold MAX_SEND_CREDIT in Hse.
  rewrite Hse by (try done; destruct gr; unfold INITIAL_WINDOW, CHANNEL_WINDOW in *; lia).
  pose proof (charge_le_allow got allow Hg Hal).
  split; simpl; try done; unfold in_flight, pending_grant; simpl.
  - destruct (Z.eqb_spec got 0); autorewrite with flow; simpl; lia.
  - destruct (Z.eqb_spec got 0); lia.
  - destruct (Z.eqb_spec got 0); [done|]. apply Forall_app; split; [done|].
    constructor; [lia|constructor].
Qed.

Lemma deliver_inv s len w :
  inv s → s.(wire) = len :: w →
  inv (s <| wire := w |> <| recv := Receiver.step s.(recv) (Receiver.Frame len) |>).
Proof.
  intros Hi Hl. dir_start Hi s. subst wi. apply Forall_cons in Hw as [Hlen Hw].
  pose proof (charges_nonneg w) as Hwn. pose proof (sum_Z_nonneg _ Hu) as Hus.
  assert (0 <= default 0 hd).
  { destruct hd as [n|]; simpl; [|lia]. specialize (Hh n eq_refl).
    unfold MIN_FRAME_CHARGE in Hh. lia. }
  simpl in *.
  assert (charge len <= (Receiver.win rc).(RecvWindow.remaining)) as Hfit.
  { unfold CHANNEL_WINDOW, INITIAL_WINDOW in *. lia. }
  split; simpl; try done.
  - apply Receiver.receiver_step_wf; [unfold window_of, u32_max; simpl in *;
      unfold CHANNEL_WINDOW, INITIAL_WINDOW; destruct gr; lia|simpl; lia|done].
  - rewrite Receiver.step_frame_ok by done. unfold in_flight, pending_grant; simpl. lia.
  - by rewrite Receiver.step_frame_ok by done.
Qed.

Lemma drain_inv s len q :
  inv s → s.(recv).(Receiver.queue) = len :: q →
  inv (s <| recv := Receiver.step s.(recv) Receiver.Drain |>
         <| updates := s.(updates) ++
              option_list (RecvWindow.drained s.(recv).(Receiver.win) len).1 |>).
Proof.
  intros Hi Hq.
  assert (window_of s <= u32_max) as Hwm.
  { unfold window_of, CHANNEL_WINDOW, INITIAL_WINDOW, u32_max. destruct (granted s); lia. }
  pose proof (inv_recv _ Hi) as Hwf.
  pose proof (Receiver.drained_remaining _ _ _ _ Hwm Hwf Hq) as [Hd1 Hd2].
  pose proof (Receiver.receiver_step_wf _ (recv s) Receiver.Drain Hwm I Hwf) as Hwf'.
  dir_start Hi s.
  split; simpl; try done; unfold in_flight, pending_grant; simpl.
  - unfold Receiver.step. rewrite Hq. simpl. rewrite Hd1. autorewrite with flow.
    destruct (RecvWindow.drained (Receiver.win rc) len).1; simpl; lia.
  - apply Forall_app; split; [done|].
    destruct (RecvWindow.drained (Receiver.win rc) len).1; simpl in *; by repeat constructor.
  - unfold Receiver.step. by rewrite Hq.
Qed.

Lemma update_inv s n us :
  inv s → s.(updates) = n :: us →
  inv (s <| credit := SendCredit.add s.(credit) n |> <| updates := us |>).
Proof.
  intros Hi Hn. dir_start Hi s. subst up. apply Forall_cons in Hu as [Hn0 Hu].
  pose proof (charges_nonneg wi). pose proof (sum_Z_nonneg _ Hu) as Hus. simpl in *.
  assert (0 <= default 0 hd).
  { destruct hd as [m|]; simpl; [|lia]. specialize (Hh m eq_refl).
    unfold MIN_FRAME_CHARGE in Hh. lia. }
  assert (SendCredit.add cr n = cr + n) as ->.
  { unfold SendCredit.add, u32_saturating_add, u32_max, MAX_SEND_CREDIT,
      CHANNEL_WINDOW, INITIAL_WINDOW in *. destruct gr; lia. }
  split; simpl; try done; unfold in_flight, pending_grant; simpl; lia.
Qed.

Lemma grant_inv s :
  inv s → s.(granted) = false →
  inv (s <| granted := true |>
         <| recv := s.(recv) <| Receiver.win :=
              RecvWindow.grant s.(recv).(Receiver.win) (CHANNEL_WINDOW - INITIAL_WINDOW) |> |>
         <| opened_wire := s.(opened_wire) ++ [CHANNEL_WINDOW] |>).
Proof.
  intros Hi Hg. dir_start Hi s. subst gr.
  destruct rc as [[r d] q v]. simpl in *. destruct Hr as (Ht & Hr & Hd).
  unfold Receiver.total in Ht. simpl in *. pose proof (charges_nonneg q).
  assert (u32_saturating_add r (CHANNEL_WINDOW - INITIAL_WINDOW)
          = r + (CHANNEL_WINDOW - INITIAL_WINDOW)) as Hs.
  { unfold u32_saturating_add, u32_max, CHANNEL_WINDOW, INITIAL_WINDOW in *. lia. }
  split; simpl; try done; unfold in_flight, pending_grant, window_of,
    Receiver.wf, Receiver.total, RecvWindow.grant; simpl; rewrite ?Hs.
  - unfold CHANNEL_WINDOW, INITIAL_WINDOW in *. lia.
  - rewrite length_app. simpl. unfold CHANNEL_WINDOW, INITIAL_WINDOW in *. lia.
  - apply Forall_app; split; [done|]. by repeat constructor.
Qed.

Lemma granted_inv s w ws :
  inv s → s.(opened_wire) = w :: ws →
  inv (s <| credit := SendCredit.raise_initial s.(credit) w |> <| opened_wire := ws |>).
Proof.
  intros Hi Hws. dir_start Hi s. subst ow. apply Forall_cons in Ho as [<- Ho].
  pose proof (charges_nonneg wi). pose proof (sum_Z_nonneg _ Hu) as Hus. simpl in *.
  assert (0 <= default 0 hd).
  { destruct hd as [m|]; simpl; [|lia]. specialize (Hh m eq_refl).
    unfold MIN_FRAME_CHARGE in Hh. lia. }
  assert (SendCredit.raise_initial cr CHANNEL_WINDOW = cr + (CHANNEL_WINDOW - INITIAL_WINDOW)) as ->.
  { unfold SendCredit.raise_initial, SendCredit.add, u32_saturating_add, u32_max,
      effective_window, MAX_SEND_CREDIT, CHANNEL_WINDOW, INITIAL_WINDOW in *.
    destruct gr; simpl; lia. }
  split; simpl; try done; unfold in_flight, pending_grant; simpl;
    unfold CHANNEL_WINDOW, INITIAL_WINDOW in *; lia.
Qed.

Lemma direction_step_inv s t : inv s → step s t → inv t.
Proof.
  intros Hi Hst.
  destruct Hst as [s n c Hn Ht|s allow got Ha Hg|s allow Ha|s len w Hl|s len q Hq
                  |s n us Hus|s Hg|s w ws Hws].
  - by apply take_inv.
  - eapply (settle_inv _ _ got); try done; [lia|]. destruct (Z.eqb_spec got 0); [lia|done].
  - pose proof (inv_held _ Hi _ Ha) as Hal. unfold MIN_FRAME_CHARGE in Hal.
    apply (settle_inv s allow 0 (wire s)); [done|done|lia|done].
  - by apply deliver_inv.
  - by eapply drain_inv.
  - by apply update_inv.
  - by apply grant_inv.
  - by apply granted_inv.
Qed.
End Direction.

(** ** Parking and waking: [SendCredit::take] against [SendCredit::add]

    The lock is released before [notify.notified().await] and before
    [notify.notify_one()], so a taker and an adder interleave at every point
    in between.  tokio's [Notify] is an interface; the one documented law the
    code relies on is that a [notify_one] is seen by the next poll. *)
Class Notify (N : Type) := {
  notify_new : N;
  notify_one : N → N;
  poll_notified : N → bool * N
}.
Class NotifyLaws (N : Type) `{Notify N} : Prop := {
  notify_one_ready : ∀ n : N, (poll_notified (notify_one n)).1 = true
}.

(** A permit flag is a concrete [Notify]. *)
#[export] Instance permit_notify : Notify bool := {|
  notify_new := false; notify_one := λ _, true; poll_notified := λ b, (b, false) |}.
#[export] Instance permit_notify_laws : NotifyLaws bool.
Proof. split. reflexivity. Qed.

Module CreditWait.
Section wait.
Context {N : Type} `{Notify N}.

Inductive phase :=
| Checking             (* about to lock and look at the credit *)
| Waiting              (* saw too little; awaiting [notified()] *)
| Taken (n : Z).       (* [take] returned *)

Record st := mk {
  credit : Z;
  notify : N;
  owed : nat;          (* adds that released the lock and have not notified yet *)
  ph : phase
}.
#[global] Instance st_eta : Eta st := λ s, mk (credit s) (notify s) (owed s) (ph s).

Definition start (initial : Z) : st := mk (SendCredit.new initial) notify_new 0 Checking.

(** The taker's body between two awaits. *)
Definition take_check (max : Z) (s : st) : st :=
  match SendCredit.try_take s.(credit) max with
  | Some (n, c) => s <| credit := c |> <| ph := Taken n |>
  | None => s <| ph := Waiting |>
  end.
Definition take_poll (s : st) : st :=
  let '(ready, n) := poll_notified s.(notify) in
  if ready then s <| notify := n |> <| ph := Checking |> else s <| notify := n |>.
(** The two halves of [add]. *)
Definition add_locked (n : Z) (s : st) : st :=
  s <| credit := SendCredit.add s.(credit) n |> <| owed ::= S |>.
Definition add_notify (s : st) : st :=
  s <| notify := notify_one s.(notify) |> <| owed ::= pred |>.

Inductive step (max : Z) : st → st → Prop :=
| Check s : s.(ph) = Checking → step max s (take_check max s)
| Poll s : s.(ph) = Waiting → step max s (take_poll s)
| Call s n : s.(ph) = Taken n → step max s (s <| ph := Checking |>)
| AddLocked s n : 0 <= n <= u32_max → step max s (add_locked n s)
| AddNotify s : (0 < s.(owed))%nat → step max s (add_notify s).

Definition reach initial max : st → Prop := reachable (eq (start initial)) (step max).

Definition ready (s : st) : Prop := (poll_notified s.(notify)).1 = true.
#[global] Instance ready_dec s : Decision (ready s).
Proof. unfold ready. apply _. Defined.
(** A waiter that could take credit has a notification stored or coming. *)
Definition no_lost_wakeup (s : st) : Prop :=
  s.(ph) = Waiting → MIN_FRAME_CHARGE <= s.(credit) → (0 < s.(owed))%nat ∨ ready s.

Context `{!NotifyLaws N}.

Lemma step_no_lost_wakeup max s t :
  no_lost_wakeup s → step max s t → no_lost_wakeup t.
Proof.
  intros Hi Hst. destruct Hst as [s Hp|s Hp|s n Hp|s n Hn|s Ho]; unfold no_lost_wakeup in *.
  - unfold take_check, SendCredit.try_take.
    destruct (Z.leb_spec MIN_FRAME_CHARGE s.(credit)); simpl; intros; [done|lia].
  - unfold take_poll, ready in *. destruct (poll_notified s.(notify)) as [[] n'] eqn:Hr;
      simpl in *; [done|]. intros _ Hc. left. destruct (Hi Hp Hc); [done|congruence].
  - done.
  - simpl. left. lia.
  - intros _ _. right. apply notify_one_ready.
Qed.

Lemma take_check_taken max s :
  MIN_FRAME_CHARGE <= s.(credit) → (take_check max s).(ph) = Taken (Z.min s.(credit) max).
Proof.
  intros Hc. unfold take_check, SendCredit.try_take.
  by destruct (Z.leb_spec MIN_FRAME_CHARGE s.(credit)); [|lia].
Qed.
End wait.
End CreditWait.

(** ** Properties *)

Lemma reach_inv s : Direction.reach s → Direction.inv s.
Proof.
  apply reachable_invariant; [apply Direction.direction_init_inv|].
  intros ? ?. apply Direction.direction_step_inv.
Qed.

(** C9: with both ends running this code a receiver never sees a window
    overrun, in either direction of a channel and whatever the interleaving of
    frames, drains, window updates and [opened]: the credit the receiver will
    still accept is exactly the sender's credit plus everything in flight. *)
Theorem flow_never_violated s :
  Direction.reach s →
  s.(Direction.recv).(Receiver.violated) = false
  ∧ s.(Direction.credit) + Direction.in_flight s
      = s.(Direction.recv).(Receiver.win).(RecvWindow.remaining)
  ∧ 0 <= s.(Direction.credit) <= CHANNEL_WINDOW.
Proof.
  intros Hi%reach_inv. pose proof (Direction.inv_credit_bound _ Hi).
  destruct Hi. repeat split; try done; lia.
Qed.

(** A run of the theorem: take, read 5 bytes, deliver them. *)
Definition flow_run_state : Direction.st :=
  Direction.mk (INITIAL_WINDOW - 64) None []
    (Receiver.mk (RecvWindow.mk (INITIAL_WINDOW - 64) 0) [5] false) [] false [].

Lemma flow_run_reach : Direction.reach flow_run_state.
Proof.
  pose (s0 := Direction.init_up).
  pose (s1 := s0 <| Direction.credit := 0 |> <| Direction.held := Some INITIAL_WINDOW |>).
  pose (s2 := s1 <| Direction.credit := settle 0 INITIAL_WINDOW 5 |>
                 <| Direction.held := None |> <| Direction.wire := [5] |>).
  assert (Direction.step s0 s1) as H1 by (by apply Direction.Take).
  assert (Direction.step s1 s2) as H2 by (by apply (Direction.Read s1 INITIAL_WINDOW 5)).
  assert (Direction.step s2 flow_run_state) as H3
    by (exact (Direction.Deliver s2 5 [] eq_refl)).
  eapply reach_step, H3. eapply reach_step, H2. eapply reach_step, H1.
  apply reach_init. by left.
Qed.

Lemma flow_never_violated_witness :
  flow_run_state.(Direction.recv).(Receiver.violated) = false
  ∧ flow_run_state.(Direction.credit) + Direction.in_flight flow_run_state
      = flow_run_state.(Direction.recv).(Receiver.win).(RecvWindow.remaining)
  ∧ 0 <= flow_run_state.(Direction.credit) <= CHANNEL_WINDOW.
Proof. exact (flow_never_violated flow_run_state flow_run_reach). Defined.

(** Flow control never deadlocks: once [opened] went out and everything in
    flight has been delivered and drained, the sender's credit is back above
    half the channel window, so [take] does not park. *)
Theorem flow_drained_can_take s :
  Direction.reach s → s.(Direction.granted) = true →
  Direction.in_flight s = 0 → s.(Direction.recv).(Receiver.queue) = [] →
  CHANNEL_WINDOW - UPDATE_THRESHOLD < s.(Direction.credit)
  ∧ ∃ n c, SendCredit.try_take s.(Direction.credit) MAX_FRAME = Some (n, c).
Proof.
  intros Hi%reach_inv Hg Hf Hq. destruct Hi as [(Ht & _ & Hd) Hc _ _ _ _ _ _].
  unfold Receiver.total, Direction.window_of in Ht. rewrite Hq, Hg in Ht. simpl in Ht.
  assert (CHANNEL_WINDOW - UPDATE_THRESHOLD < s.(Direction.credit)) as Hlt by lia.
  split; [done|]. unfold SendCredit.try_take.
  destruct (Z.leb_spec MIN_FRAME_CHARGE s.(Direction.credit)) as [Hm|Hm]; [eauto|].
  unfold CHANNEL_WINDOW, UPDATE_THRESHOLD, CHANNEL_WINDOW, MIN_FRAME_CHARGE in *. lia.
Qed.

Lemma flow_drained_can_take_witness :
  CHANNEL_WINDOW - UPDATE_THRESHOLD < Direction.init_down.(Direction.credit)
  ∧ ∃ n c, SendCredit.try_take Direction.init_down.(Direction.credit) MAX_FRAME = Some (n, c).
Proof.
  apply flow_drained_can_take; [apply reach_init; by right| | |]; reflexivity.
Defined.

(** whatever frames a peer sends (even one that ignores its credit), the
    frames a channel has queued and not yet written cost at most the granted
    window, so at most [window / 64] queue entries are ever held; the
    accounting never wraps, however long the transfer. *)
Theorem receiver_queue_bounded granted es :
  0 <= granted <= u32_max → Forall Receiver.len_ok es →
  let s := foldl Receiver.step (Receiver.start granted) es in
  charges s.(Receiver.queue) <= effective_window granted
  ∧ MIN_FRAME_CHARGE * Z.of_nat (length s.(Receiver.queue)) <= effective_window granted
  ∧ Receiver.total s = effective_window granted.
Proof.
  intros Hg Hes s.
  assert (Receiver.wf (effective_window granted) s) as (Ht & Hr & Hd).
  { apply Receiver.receiver_run_wf; [|done|apply Receiver.start_wf].
    unfold effective_window, INITIAL_WINDOW, u32_max in *. lia. }
  pose proof (charges_count s.(Receiver.queue)). unfold Receiver.total in *. lia.
Qed.

Lemma receiver_queue_bounded_witness :
  let s := foldl Receiver.step (Receiver.start 1)
             (replicate 3 (Receiver.Frame 1) ++ [Receiver.Drain; Receiver.Frame 70000]) in
  charges s.(Receiver.queue) <= 65536
  ∧ MIN_FRAME_CHARGE * Z.of_nat (length s.(Receiver.queue)) <= 65536
  ∧ Receiver.total s = 65536.
Proof.
  apply (receiver_queue_bounded 1); [unfold u32_max; lia|].
  repeat constructor; simpl; lia.
Defined.

(** no wake-up is lost between [take] and [add]: in every interleaving, a
    taker parked while a whole minimum charge of credit is available has a
    notification stored or about to be sent, and delivering it makes [take]
    return [min(credit, max)]. *)
Theorem take_no_lost_wakeup {N} `{Notify N, !NotifyLaws N} initial max (s : CreditWait.st (N:=N)) :
  CreditWait.reach initial max s →
  s.(CreditWait.ph) = CreditWait.Waiting → MIN_FRAME_CHARGE <= s.(CreditWait.credit) →
  let woken := if decide (CreditWait.ready s) then s else CreditWait.add_notify s in
  CreditWait.reach initial max woken
  ∧ CreditWait.reach initial max (CreditWait.take_check max (CreditWait.take_poll woken))
  ∧ (CreditWait.take_check max (CreditWait.take_poll woken)).(CreditWait.ph)
    = CreditWait.Taken (Z.min s.(CreditWait.credit) max).
Proof.
  intros Hr Hp Hc woken.
  assert (CreditWait.no_lost_wakeup s) as Hn.
  { eapply (reachable_invariant _ _ CreditWait.no_lost_wakeup); [| |exact Hr].
    - by intros ? <-.
    - intros ? ?. apply CreditWait.step_no_lost_wakeup. }
  assert (CreditWait.reach initial max woken ∧ CreditWait.ready woken
    ∧ woken.(CreditWait.ph) = CreditWait.Waiting
    ∧ woken.(CreditWait.credit) = s.(CreditWait.credit)) as (Hw & Hrd & Hwp & Hwc).
  { subst woken. case_decide as Hd; [done|]. destruct (Hn Hp Hc) as [Ho|]; [|done].
    repeat split; try done.
    - eapply reach_step; [done|]. by apply CreditWait.AddNotify.
    - apply notify_one_ready. }
  clearbody woken. assert (CreditWait.reach initial max (CreditWait.take_poll woken)) as Hw2.
  { eapply reach_step; [done|]. by apply CreditWait.Poll. }
  unfold CreditWait.ready in Hrd. unfold CreditWait.take_poll in *.
  destruct (poll_notified woken.(CreditWait.notify)) as [[] n']; [|done].
  repeat split; [done| |].
  - eapply reach_step; [done|]. by apply CreditWait.Check.
  - rewrite CreditWait.take_check_taken; simpl; congruence.
Qed.

Lemma take_no_lost_wakeup_witness :
  CreditWait.reach (N:=bool) 0 MAX_FRAME
    (CreditWait.add_notify (CreditWait.mk MIN_FRAME_CHARGE false 1 CreditWait.Waiting)).
Proof.
  set (s := CreditWait.mk MIN_FRAME_CHARGE false 1 CreditWait.Waiting).
  assert (CreditWait.reach (N:=bool) 0 MAX_FRAME s) as Hs.
  { apply (reach_step _ _ (CreditWait.mk 0 false 0 CreditWait.Waiting)).
    - eapply reach_step; [by apply reach_init|].
      exact (CreditWait.Check MAX_FRAME (CreditWait.start 0) eq_refl).
    - assert (0 <= MIN_FRAME_CHARGE <= u32_max) as Hm
        by (unfold MIN_FRAME_CHARGE, u32_max; lia).
      exact (CreditWait.AddLocked MAX_FRAME (CreditWait.mk 0 false 0 CreditWait.Waiting)
               MIN_FRAME_CHARGE Hm). }
  exact (proj1 (take_no_lost_wakeup 0 MAX_FRAME s Hs eq_refl (Z.le_refl _))).
Defined.
