(* ===== verification/Demux.v ===== *)
(** * The demultiplexer interface

    Both ends of a multiplexed tunnel keep a map from channel ids to channels
    and forward inbound frames to the channel's task.  [Demux] states what such
    a component promises; the per-channel ordering theorem is proved against
    the interface and the two implementations discharge it
    ([TunnelHandle.v], [ControlledMux.v]). *)
From S2P Require Import Prelude.

(** What a channel task receives ([port_forward_mux.rs]). *)
Inductive Inbound :=
| IData (b : bytes)
| IClose
| IViolation.

Definition is_data (m : Inbound) : bool :=
  match m with IData _ => true | _ => false end.

(** A component with state [S], operations [O] and effects [E].  Every channel
    instance has its own number, so an id used again is a new channel. *)
Class Demux (S O E : Type) := {
  demux_step : S → O → S * list E;
  demux_delivery : E → option (nat * Inbound);
  demux_live : S → gset nat;
  demux_next : S → nat;
  demux_wf : S → Prop
}.

Class DemuxLaws (S O E : Type) `{Demux S O E} : Prop := {
  demux_wf_step (s : S) (o : O) : demux_wf s → demux_wf (demux_step s o).1;
  demux_next_mono (s : S) (o : O) : demux_next s ≤ demux_next (demux_step s o).1;
  demux_live_next (s : S) c : demux_wf s → c ∈ demux_live s → c < demux_next s;
  demux_live_step (s : S) (o : O) c :
    demux_wf s → c ∈ demux_live (demux_step s o).1 → c ∈ demux_live s ∨ demux_next s ≤ c;
  demux_delivery_step (s : S) (o : O) :
    demux_wf s →
    omap demux_delivery (demux_step s o).2 = []
    ∨ ∃ c m, omap demux_delivery (demux_step s o).2 = [(c, m)] ∧ c ∈ demux_live s
             ∧ (is_data m = false → c ∉ demux_live (demux_step s o).1)
}.

Section demux.
Context {S O E : Type} `{DemuxLaws S O E}.

Fixpoint demux_run (s : S) (os : list O) : S * list (nat * Inbound) :=
  match os with
  | [] => (s, [])
  | o :: os' =>
      let '(s', es) := demux_step s o in
      let '(t, ds) := demux_run s' os' in (t, omap demux_delivery es ++ ds)
  end.

Lemma demux_run_wf s os : demux_wf s → demux_wf (demux_run s os).1.
Proof.
  revert s. induction os as [|o os IH]; intros s Hwf; simpl; [done|].
  pose proof (demux_wf_step s o Hwf) as Hwf'.
  destruct (demux_step s o) as [s' es]. simpl in *.
  specialize (IH s' Hwf'). by destruct (demux_run s' os).
Qed.

(** The messages one channel receives, in order. *)
Definition for_channel (c : nat) (ds : list (nat * Inbound)) : list Inbound :=
  (filter (λ d, d.1 = c) ds).*2.

(** Data in order, then at most one [Close] or [Violation], then nothing. *)
Definition well_closed (l : list Inbound) : Prop :=
  ∃ ds t, l = ds ++ t ∧ Forall (λ m, is_data m = true) ds
          ∧ (t = [] ∨ ∃ m, t = [m] ∧ is_data m = false).

Lemma for_channel_app c d e : for_channel c (d ++ e) = for_channel c d ++ for_channel c e.
Proof. unfold for_channel. by rewrite filter_app, fmap_app. Qed.

Lemma well_closed_data l : Forall (λ m, is_data m = true) l → well_closed l.
Proof. exists l, []. rewrite app_nil_r. auto. Qed.

(** Nothing is delivered to a channel that is neither live nor yet to come. *)
Lemma demux_run_dead s os c :
  demux_wf s → c ∉ demux_live s → c < demux_next s →
  for_channel c (demux_run s os).2 = [].
Proof.
  revert s. induction os as [|o os IH]; intros s Hwf Hl Hn; simpl; [done|].
  pose proof (demux_wf_step s o Hwf) as Hwf'. pose proof (demux_next_mono s o) as Hm.
  pose proof (demux_delivery_step s o Hwf) as Hd.
  pose proof (demux_live_step s o c Hwf) as Hl'.
  destruct (demux_step s o) as [s' es]; simpl in *.
  specialize (IH s' Hwf'). destruct (demux_run s' os) as [t ds]; simpl in *.
  rewrite for_channel_app, IH; [|intros Hc; destruct (Hl' Hc); [done|lia]|lia].
  rewrite app_nil_r. destruct Hd as [->|(c' & m & -> & Hc' & _)]; [done|].
  unfold for_channel. rewrite filter_cons_False; [done|]. simpl. congruence.
Qed.

(** Every channel's messages are well closed. *)
Lemma demux_run_well_closed s os c :
  demux_wf s → well_closed (for_channel c (demux_run s os).2).
Proof.
  revert s. induction os as [|o os IH]; intros s Hwf; simpl.
  { by apply well_closed_data. }
  pose proof (demux_wf_step s o Hwf) as Hwf'. pose proof (demux_next_mono s o) as Hm.
  pose proof (demux_delivery_step s o Hwf) as Hd.
  pose proof (demux_live_next s) as Hln.
  destruct (demux_step s o) as [s' es]; simpl in *.
  pose proof (IH s' Hwf') as Hs'. pose proof (demux_run_dead s' os c Hwf') as Hdead.
  destruct (demux_run s' os) as [t ds]; simpl in *. rewrite for_channel_app.
  destruct Hd as [->|(c' & m & -> & Hc' & Hterm)]; [done|].
  unfold for_channel at 1. rewrite filter_cons. simpl. case_decide as Hcc; [|done].
  subst c'. simpl. destruct (is_data m) eqn:Hm'.
  - destruct Hs' as (ls & tl & -> & Hls & Htl). exists (m :: ls), tl. auto.
  - rewrite Hdead; [|auto|specialize (Hln c Hwf Hc'); lia].
    exists [], [m]. split; [done|]. split; [constructor|]. right. eauto.
Qed.
End demux.
