(* ===== verification/PortMessages.v ===== *)
(** * Port-forward frames and where they are queued

    [src/src/port_forward_mux.rs]: the frames of one channel,
    their builders, and the [FrameSink] that decides which queue a frame
    enters.  Queues are tokio's; whether their receiving half is still alive is
    an argument. *)
From S2P Require Import Prelude FlowControl.
Local Open Scope Z_scope.

(** The [oneof] of [PortForwardChannel] (message.proto). *)
Inductive ChannelUnion :=
| Open (channel_id : Z) (host : str) (port : Z) (window : Z)
| Opened (channel_id : Z) (success : bool) (message : str) (window : Z)
| Data (channel_id : Z) (data : bytes)
| CloseFrame (channel_id : Z)
| WindowUpdate (channel_id : Z) (add : Z).

(** The messages a tunnel reads or writes; [union] of a frame or a [Misc] may be
    unset, and every other message of the protocol is [MOther]. *)
Inductive Message :=
| MPortForwardChannel (union : option ChannelUnion)
| MTestDelay (from_client : bool) (time : Z)
| MMisc (close_reason : option str)
| MOther.

Definition channel_msg (u : ChannelUnion) : Message := MPortForwardChannel (Some u).
Definition open_msg (id : Z) (host : str) (port window : Z) : Message :=
  channel_msg (Open id host port window).
Definition opened_msg (id : Z) (success : bool) (message : str) (window : Z) : Message :=
  channel_msg (Opened id success message window).
Definition data_msg (id : Z) (data : bytes) : Message := channel_msg (Data id data).
Definition close_msg (id : Z) : Message := channel_msg (CloseFrame id).
Definition window_update_msg (id add : Z) : Message := channel_msg (WindowUpdate id add).

Definition blen (b : bytes) : Z := Z.of_nat (length b).

(** ** Queues *)
Inductive queue := QData | QControl | QConnection.

#[export] Instance queue_eq_dec : EqDecision queue.
Proof. solve_decision. Defined.

Inductive FrameSink := Queued | Direct.

Section sink.
(** Whether a queue's receiving half is alive. *)
Context (alive : queue → bool).

Definition writer_gone (what : str) : str := what ++ lit " gone".

Definition send_on (q : queue) (what : str) (msg : Message) : result str (queue * Message) :=
  if alive q then Ok (q, msg) else Err (writer_gone what).

Definition send_ordered (s : FrameSink) (msg : Message) : result str (queue * Message) :=
  match s with
  | Queued => send_on QData (lit "tunnel writer") msg
  | Direct => send_on QConnection (lit "connection writer") msg
  end.

Definition send_control (s : FrameSink) (msg : Message) : result str (queue * Message) :=
  match s with
  | Queued => send_on QControl (lit "tunnel writer") msg
  | Direct => send_on QConnection (lit "connection writer") msg
  end.

Definition sink_is_closed (s : FrameSink) : bool :=
  match s with
  | Queued => negb (alive QData)
  | Direct => negb (alive QConnection)
  end.
End sink.

(** [Connection::normalize_port_forward_target] (connection.rs): the target
    address and whether the request named the RDP shortcut. *)
Definition normalize_port_forward_target (host : str) (port : Z) : str * bool :=
  let '(host, port, is_rdp) :=
    if bool_decide (host = lit "RDP") && (port =? 0)
    then (lit "localhost", 3389, true) else (host, port, false) in
  let host := if bool_decide (host = []) then lit "localhost" else host in
  (host ++ lit ":" ++ fmt_Z port, is_rdp).
