(* ===== verification/Relay.v ===== *)
(** * The two relay halves of a channel and its end

    [src/src/port_forward_mux.rs].  Each half is the loop body
    between two awaits, driven by the outcome of the await: what the credit,
    the socket, the inbound queue or the cancel signal answered. *)
From S2P Require Import Prelude FlowControl Demux PortMessages.
Import Int.
Local Open Scope Z_scope.

Inductive RelayEnd := LocalEof | PeerClosed | Violation | Cancelled | TunnelGone.

#[export] Instance RelayEnd_eq_dec : EqDecision RelayEnd.
Proof. solve_decision. Defined.

(** ** Local socket to tunnel

    [source] is the head of the stream ([prebuf]) followed by what the socket
    still has to give. *)
Module Up.
Record st := mk {
  source : bytes;
  credit : Z;
  held : option Z;
  sent : list Message;
  ended : option RelayEnd
}.
#[global] Instance st_eta : Eta st := λ s,
  mk (source s) (credit s) (held s) (sent s) (ended s).

Inductive event :=
| Took                           (* [credit.take(MAX_FRAME)] returned *)
| CancelTake
| Read (got : nat) (send_ok : bool)  (* the read returned [got] bytes *)
| ReadErr                        (* the read failed: [unwrap_or(0)] *)
| CancelRead
| Add (n : Z).                   (* a [window_update] reached the credit *)

Definition start (prebuf socket : bytes) (credit : Z) : st :=
  mk (prebuf ++ socket) credit None [] None.

(** The rest of the loop body, once the read answered. *)
Definition on_read (id : Z) (s : st) (allow : Z) (got : nat) (send_ok : bool) : st :=
  let s := s <| credit := settle s.(credit) allow (Z.of_nat got) |> <| held := None |> in
  if (got =? 0)%nat then s <| ended := Some LocalEof |>
  else
    let frame := data_msg id (take got s.(source)) in
    let s := s <| source := drop got s.(source) |> in
    if send_ok then s <| sent := s.(sent) ++ [frame] |>
    else s <| ended := Some TunnelGone |>.

(** [None]: the event cannot happen in this state. *)
Definition step (id : Z) (s : st) (e : event) : option st :=
  match e, s.(ended), s.(held) with
  | Add n, _, _ => Some (s <| credit := SendCredit.add s.(credit) n |>)
  | Took, None, None =>
      match SendCredit.try_take s.(credit) MAX_FRAME with
      | Some (n, c) => Some (s <| credit := c |> <| held := Some n |>)
      | None => None
      end
  | CancelTake, None, None => Some (s <| ended := Some Cancelled |>)
  | Read got ok, None, Some allow =>
      (* A read of a non-empty buffer answers 0 at the end of the stream only. *)
      if (Z.of_nat got <=? allow) && (got <=? length s.(source))%nat
         && ((0 <? got)%nat || bool_decide (s.(source) = []))
      then Some (on_read id s allow got ok) else None
  | ReadErr, None, Some allow => Some (on_read id s allow 0 false)
  | CancelRead, None, Some allow =>
      Some (s <| credit := SendCredit.add s.(credit) allow |> <| held := None |>
              <| ended := Some Cancelled |>)
  | _, _, _ => None
  end.

Fixpoint run (id : Z) (s : st) (es : list event) : option st :=
  match es with
  | [] => Some s
  | e :: es' => s' ← step id s e; run id s' es'
  end.

Definition payload (m : Message) : bytes :=
  match m with MPortForwardChannel (Some (Data _ b)) => b | _ => [] end.
Definition payloads (ms : list Message) : bytes := concat (payload <$> ms).

(** A [data] frame of this channel, within the frame cap. *)
Definition frame_ok (id : Z) (m : Message) : Prop :=
  ∃ b, m = data_msg id b ∧ 0 < blen b <= MAX_FRAME.

Lemma payloads_app a b : payloads (a ++ b) = payloads a ++ payloads b.
Proof. unfold payloads. by rewrite fmap_app, concat_app. Qed.

Record inv (id : Z) (src : bytes) (s : st) : Prop := {
  inv_prefix : s.(ended) ≠ Some TunnelGone → payloads s.(sent) ++ s.(source) = src;
  inv_gone : payloads s.(sent) `prefix_of` src;
  inv_frames : Forall (frame_ok id) s.(sent);
  inv_held : ∀ n, s.(held) = Some n → MIN_FRAME_CHARGE <= n <= MAX_FRAME
}.

Lemma on_read_inv id src s allow got ok :
  inv id src s → s.(ended) = None → s.(held) = Some allow →
  Z.of_nat got <= allow → (got <= length s.(source))%nat →
  inv id src (on_read id s allow got ok).
Proof.
  intros [Hp Hg Hf Hh] He Ha Hle Hlen. rewrite He in Hp.
  assert (payloads s.(sent) ++ s.(source) = src) as Heq by (by apply Hp).
  specialize (Hh _ Ha). unfold on_read.
  destruct (Nat.eqb_spec got 0) as [->|Hz]; [by split|].
  destruct ok; [|by split].
  assert (payloads (s.(sent) ++ [data_msg id (take got s.(source))])
          ++ drop got s.(source) = src) as Heq'.
  { rewrite payloads_app. unfold payloads at 2. simpl.
    rewrite app_nil_r, <- app_assoc, take_drop. done. }
  split; simpl; [done| |apply Forall_app; split; [done|]|done].
  - exists (drop got s.(source)). done.
  - constructor; [|done]. exists (take got s.(source)). split; [done|].
    unfold blen. rewrite length_take. lia.
Qed.

Lemma up_step_inv id src s e t : inv id src s → step id s e = Some t → inv id src t.
Proof.
  intros Hi Hst. pose proof Hi as [Hp Hg Hf Hh].
  destruct e as [| |got ok| | |n]; simpl in Hst.
  - destruct (ended s) eqn:He, (held s) eqn:Hd; try done.
    unfold SendCredit.try_take in Hst.
    destruct (Z.leb_spec MIN_FRAME_CHARGE s.(credit)); [|done]. injection Hst as <-.
    split; simpl; try done. intros ? [= <-].
    unfold MIN_FRAME_CHARGE, MAX_FRAME in *. lia.
  - destruct (ended s) eqn:He, (held s) eqn:Hd; try done. injection Hst as <-.
    split; simpl; try done. intros _. by apply Hp.
  - destruct (ended s) eqn:He, (held s) eqn:Hd; try done.
    destruct (Z.leb_spec (Z.of_nat got) z); simpl in Hst; [|done].
    destruct (Nat.leb_spec got (length (source s))); simpl in Hst; [|done].
    destruct (_ || _); [|done]. injection Hst as <-. by apply on_read_inv.
  - destruct (ended s) eqn:He, (held s) eqn:Hd; try done. injection Hst as <-.
    pose proof (Hh _ eq_refl). unfold MIN_FRAME_CHARGE in *.
    apply on_read_inv; try done; simpl; lia.
  - destruct (ended s) eqn:He, (held s) eqn:Hd; try done. injection Hst as <-.
    split; simpl; try done. intros _. by apply Hp.
  - injection Hst as <-. by split.
Qed.

Lemma up_run_inv id src s es t : inv id src s → run id s es = Some t → inv id src t.
Proof.
  revert s. induction es as [|e es IH]; intros s Hi; simpl; [by intros [= <-]|].
  destruct (step id s e) as [s'|] eqn:Hs; [|done]. simpl.
  apply IH. by eapply up_step_inv.
Qed.

Lemma up_start_inv id prebuf socket c : inv id (prebuf ++ socket) (start prebuf socket c).
Proof. split; simpl; try done. apply prefix_nil. Qed.

(** What the frames sent so far cost. *)
Definition spent (ms : list Message) : Z := charges ((λ m, blen (payload m)) <$> ms).
#[global] Arguments spent : simpl never.
Definition added (es : list event) : Z :=
  sum_Z ((λ e, match e with Add n => n | _ => 0 end) <$> es).
Lemma added_cons e es : added (e :: es) = added [e] + added es.
Proof. unfold added. destruct e; cbn [fmap list_fmap sum_Z foldr]; unfold sum_Z; cbn; lia. Qed.
#[global] Arguments added : simpl never.
Definition budget (s : st) : Z := s.(credit) + default 0 s.(held) + spent s.(sent).

Lemma spent_app a b : spent (a ++ b) = spent a + spent b.
Proof. unfold spent. rewrite fmap_app. by autorewrite with flow. Qed.

Lemma settle_le c allow got :
  0 <= got <= allow → MIN_FRAME_CHARGE <= allow <= MAX_FRAME →
  settle c allow got + (if got =? 0 then 0 else charge got) <= c + allow.
Proof.
  intros Hg Ha. pose proof (charge_le_allow got allow Hg Ha) as Hc. unfold settle.
  cbv zeta. destruct (Z.eqb_spec got 0) as [->|];
    match goal with |- context [Z.ltb ?a ?b] => destruct (Z.ltb_spec a b) end;
    unfold SendCredit.add, u32_saturating_add; lia.
Qed.

Lemma on_read_budget s allow got id ok :
  MIN_FRAME_CHARGE <= allow <= MAX_FRAME → s.(held) = Some allow →
  Z.of_nat got <= allow → (got <= length s.(source))%nat →
  budget (on_read id s allow got ok) <= budget s.
Proof.
  intros Ha Hh Hle Hlen. pose proof (settle_le s.(credit) allow (Z.of_nat got)) as Hs.
  unfold budget, on_read. rewrite Hh. destruct (Nat.eqb_spec got 0) as [->|Hz].
  { unfold MIN_FRAME_CHARGE in *. specialize (Hs ltac:(lia) Ha).
    change (Z.of_nat 0) with 0 in *. simpl in *. lia. }
  destruct (Z.eqb_spec (Z.of_nat got) 0); [lia|].
  assert (blen (take got s.(source)) = Z.of_nat got) as Hb
    by (unfold blen; rewrite length_take; lia).
  pose proof (charge_lower (Z.of_nat got)). unfold MIN_FRAME_CHARGE in *.
  destruct ok; simpl; [|lia].
  rewrite spent_app. unfold spent at 2. simpl. rewrite Hb. lia.
Qed.

Lemma step_budget id src s e t :
  inv id src s → step id s e = Some t → budget t <= budget s + added [e].
Proof.
  intros Hi Hst. pose proof Hi as [_ _ _ Hh].
  destruct e as [| |got ok| | |n]; simpl in Hst; unfold added; simpl.
  - destruct (ended s) eqn:He, (held s) eqn:Hd; try done.
    unfold SendCredit.try_take in Hst.
    destruct (Z.leb_spec MIN_FRAME_CHARGE s.(credit)); [|done]. injection Hst as <-.
    unfold budget. rewrite Hd. cbn. lia.
  - destruct (ended s) eqn:He, (held s) eqn:Hd; try done. injection Hst as <-.
    unfold budget. rewrite Hd. cbn. lia.
  - destruct (ended s) eqn:He, (held s) eqn:Hd; try done.
    destruct (Z.leb_spec (Z.of_nat got) z); simpl in Hst; [|done].
    destruct (Nat.leb_spec got (length (source s))); simpl in Hst; [|done].
    destruct (_ || _); [|done]. injection Hst as <-.
    pose proof (on_read_budget s z got id ok (Hh _ eq_refl)). lia.
  - destruct (ended s) eqn:He, (held s) eqn:Hd; try done. injection Hst as <-.
    pose proof (Hh _ eq_refl) as Hz.
    pose proof (on_read_budget s z 0 id false Hz Hd). unfold MIN_FRAME_CHARGE in *.
    simpl in *. lia.
  - destruct (ended s) eqn:He, (held s) eqn:Hd; try done. injection Hst as <-.
    unfold budget, SendCredit.add, u32_saturating_add. rewrite Hd. simpl. lia.
  - injection Hst as <-. unfold budget, SendCredit.add, u32_saturating_add. simpl. lia.
Qed.

Lemma run_budget id src s es t :
  inv id src s → run id s es = Some t → budget t <= budget s + added es.
Proof.
  revert s. induction es as [|e es IH]; intros s Hi; simpl.
  { intros [= <-]. change (added []) with 0. lia. }
  destruct (step id s e) as [s'|] eqn:Hs; [|done]. simpl. intros Hr.
  pose proof (step_budget _ _ _ _ _ Hi Hs) as Hb.
  pose proof (up_step_inv _ _ _ _ _ Hi Hs) as Hi'. pose proof (IH s' Hi' Hr).
  rewrite added_cons. lia.
Qed.

(** The end of the stream is reported once everything before it was sent. *)
Lemma step_eof id s e t :
  step id s e = Some t → e ≠ ReadErr → ended s = None → ended t = Some LocalEof →
  source t = [].
Proof.
  intros Hst Hne He Ht. destruct e as [| |got ok| | |n]; simpl in Hst; rewrite He in Hst;
    try done; destruct (held s) as [allow|] eqn:Hd; try done.
  - destruct (SendCredit.try_take _ _) as [[? ?]|]; [|done]. injection Hst as <-.
    simpl in Ht. congruence.
  - injection Hst as <-. done.
  - destruct (Z.of_nat got <=? allow); simpl in Hst; [|done].
    destruct (Nat.leb_spec got (length (source s))); simpl in Hst; [|done].
    destruct (Nat.ltb_spec 0 got); simpl in Hst.
    + injection Hst as <-. unfold on_read in Ht.
      destruct (Nat.eqb_spec got 0); [lia|]. destruct ok; simpl in Ht; congruence.
    + case_bool_decide as Hs; [|done]. injection Hst as <-. unfold on_read.
      destruct (Nat.eqb_spec got 0); [done|lia].
  - injection Hst as <-. done.
  - injection Hst as <-. simpl in Ht. congruence.
  - injection Hst as <-. simpl in Ht. congruence.
Qed.

Lemma step_ended id s e t r :
  step id s e = Some t → ended s = Some r → ended t = Some r ∧ source t = source s.
Proof.
  intros Hst He. destruct e; simpl in Hst; rewrite He in Hst; try done.
  injection Hst as <-. done.
Qed.

Lemma run_eof id s es t :
  run id s es = Some t → ReadErr ∉ es → (ended s = Some LocalEof → source s = []) →
  ended t = Some LocalEof → source t = [].
Proof.
  revert s. induction es as [|e es IH]; intros s; simpl; [by intros [= <-]|].
  destruct (step id s e) as [s'|] eqn:Hs; [|done]. simpl.
  intros Hr Hne Hinv. apply (IH s' Hr); [set_solver|].
  destruct (ended s) as [r|] eqn:He.
  - destruct (step_ended _ _ _ _ _ Hs He) as [-> ->]. done.
  - apply (step_eof _ _ _ _ Hs); [set_solver|done].
Qed.
End Up.

(** ** Tunnel to local socket

    [initial] is written before anything from the queue.  The queue's sending
    half belongs to the demultiplexer, which pushes ([Push]) or drops it
    ([DropSender]), and which also runs [accept] on the shared window. *)
Module Down.
Record st := mk {
  pending : list bytes;
  inbound : list Inbound;
  sender : bool;
  window : RecvWindow.t;
  writing : option bytes;        (* parked in [write_all] *)
  written : bytes;               (* what the socket took *)
  controls : list Message;
  ended : option RelayEnd
}.
#[global] Instance st_eta : Eta st := λ s,
  mk (pending s) (inbound s) (sender s) (window s) (writing s) (written s)
     (controls s) (ended s).

Inductive event :=
| Push (m : Inbound)
| DropSender
| Accept (len : Z)
| Next                              (* pop [pending], or [recv] answered *)
| CancelNext
| Wrote (control_ok : bool)         (* [write_all] took the whole chunk *)
| WriteErr (k : nat)                (* it failed after [k] bytes *)
| CancelWrite (k : nat).

Definition start (initial : list bytes) (w : RecvWindow.t) : st :=
  mk initial [] true w None [] [] None.

Definition on_next (s : st) : option st :=
  match s.(pending) with
  | c :: p => Some (s <| pending := p |> <| writing := Some c |>)
  | [] =>
      match s.(inbound) with
      | IData c :: q => Some (s <| inbound := q |> <| writing := Some c |>)
      | IClose :: q => Some (s <| inbound := q |> <| ended := Some PeerClosed |>)
      | IViolation :: q => Some (s <| inbound := q |> <| ended := Some Violation |>)
      | [] => if s.(sender) then None else Some (s <| ended := Some TunnelGone |>)
      end
  end.

Definition on_written (id : Z) (s : st) (chunk : bytes) (control_ok : bool) : st :=
  let s := s <| writing := None |> <| written := s.(written) ++ chunk |> in
  let '(update, w) := RecvWindow.drained s.(window) (blen chunk) in
  let s := s <| window := w |> in
  match update with
  | Some add =>
      if control_ok then s <| controls := s.(controls) ++ [window_update_msg id add] |>
      else s <| ended := Some TunnelGone |>
  | None => s
  end.

Definition step (id : Z) (s : st) (e : event) : option st :=
  match e, s.(ended), s.(writing) with
  | Push m, None, _ => if s.(sender) then Some (s <| inbound := s.(inbound) ++ [m] |>) else None
  | DropSender, _, _ => Some (s <| sender := false |>)
  | Accept len, _, _ => Some (s <| window := (RecvWindow.accept s.(window) len).2 |>)
  | Next, None, None => on_next s
  (* [pending] is popped without waiting, so only the [recv] can be cancelled. *)
  | CancelNext, None, None =>
      match s.(pending) with
      | [] => Some (s <| ended := Some Cancelled |>)
      | _ => None
      end
  | Wrote ok, None, Some c => Some (on_written id s c ok)
  | WriteErr k, None, Some c =>
      Some (s <| written := s.(written) ++ take k c |> <| writing := None |>
              <| ended := Some LocalEof |>)
  | CancelWrite k, None, Some c =>
      Some (s <| written := s.(written) ++ take k c |> <| writing := None |>
              <| ended := Some Cancelled |>)
  | _, _, _ => None
  end.

Fixpoint run (id : Z) (s : st) (es : list event) : option st :=
  match es with
  | [] => Some s
  | e :: es' => s' ← step id s e; run id s' es'
  end.

Definition data_of (m : Inbound) : bytes := match m with IData b => b | _ => [] end.
Definition datas (l : list Inbound) : bytes := concat (data_of <$> l).
Definition pushed (es : list event) : list Inbound :=
  omap (λ e, match e with Push m => Some m | _ => None end) es.

Definition update_add (m : Message) : Z :=
  match m with MPortForwardChannel (Some (WindowUpdate _ a)) => a | _ => 0 end.

Lemma datas_app a b : datas (a ++ b) = datas a ++ datas b.
Proof. unfold datas. by rewrite fmap_app, concat_app. Qed.

(** [hist] is what the demultiplexer pushed so far.  Everything but the queue
    has been consumed, and what was consumed was written in order. *)
Record inv (initial : list bytes) (hist : list Inbound) (s : st) : Prop := {
  inv_live : s.(ended) = None →
    ∃ used, hist = used ++ s.(inbound) ∧ Forall (λ m, is_data m = true) used
      ∧ s.(written) ++ default [] s.(writing) ++ concat s.(pending)
        = concat initial ++ datas used;
  inv_prefix : s.(written) `prefix_of` concat initial ++ datas hist;
  inv_closed : ∀ r, s.(ended) = Some r → r = PeerClosed ∨ r = Violation →
    ∃ used m rest, hist = used ++ m :: rest ∧ Forall (λ m, is_data m = true) used
      ∧ m = (match r with PeerClosed => IClose | _ => IViolation end)
      ∧ s.(written) = concat initial ++ datas used
}.

Lemma inv_extend initial hist s : inv initial hist s → ended s = None →
  written s ++ default [] (writing s) ++ concat (pending s)
    `prefix_of` concat initial ++ datas hist.
Proof.
  intros [Hl _ _] He. destruct (Hl He) as (used & -> & _ & ->).
  rewrite datas_app, app_assoc. by apply prefix_app_r.
Qed.

Lemma on_next_inv initial hist s t :
  inv initial hist s → ended s = None → writing s = None →
  on_next s = Some t → inv initial hist t.
Proof.
  intros Hi He Hw Hn. pose proof Hi as [Hl Hp Hc].
  destruct (Hl He) as (used & Hh & Hd & Heq). rewrite Hw in Heq. simpl in Heq.
  unfold on_next in Hn. destruct (pending s) as [|c p] eqn:Hpend.
  - simpl in Heq. rewrite app_nil_r in Heq.
    destruct (inbound s) as [|[c| |] q] eqn:Hq.
    + destruct (sender s); [done|]. injection Hn as <-.
      split; simpl; [done|done|]. intros r [= <-] [?|?]; done.
    + injection Hn as <-. split; simpl; [|done|by rewrite He].
      intros _. exists (used ++ [IData c]). rewrite <- app_assoc.
      split; [done|]. split; [apply Forall_app; auto|].
      rewrite Hpend, datas_app, Heq. unfold datas. simpl.
      by rewrite !app_nil_r, <- app_assoc.
    + injection Hn as <-. split; simpl; [done|done|].
      intros r [= <-] _. exists used, IClose, q. auto.
    + injection Hn as <-. split; simpl; [done|done|].
      intros r [= <-] _. exists used, IViolation, q. auto.
  - injection Hn as <-. split; simpl; [|done|by rewrite He].
    intros _. exists used. auto.
Qed.

Lemma on_written_inv id initial hist s c ok :
  inv initial hist s → ended s = None → writing s = Some c →
  inv initial hist (on_written id s c ok).
Proof.
  intros Hi He Hw. pose proof Hi as [Hl Hp Hc].
  pose proof (inv_extend _ _ _ Hi He) as Hx. rewrite Hw in Hx. simpl in Hx.
  destruct (Hl He) as (used & Hh & Hd & Heq). rewrite Hw in Heq. simpl in Heq.
  assert (written s ++ c `prefix_of` concat initial ++ datas hist) as Hpre.
  { etransitivity; [|exact Hx]. rewrite app_assoc. by apply prefix_app_r. }
  unfold on_written. destruct (RecvWindow.drained _ _) as [[a|] w].
  - destruct ok; split; simpl; try done; try (rewrite He; done).
    + intros _. exists used. rewrite <- app_assoc. auto.
    + intros r [= <-] [?|?]; done.
  - split; simpl; [|done|by rewrite He]. intros _. exists used.
    rewrite <- app_assoc. auto.
Qed.

Lemma cut_inv initial hist s c k r :
  inv initial hist s → ended s = None → writing s = Some c →
  r ≠ PeerClosed → r ≠ Violation →
  inv initial hist
    (s <| written := s.(written) ++ take k c |> <| writing := None |> <| ended := Some r |>).
Proof.
  intros Hi He Hw Hr1 Hr2. pose proof (inv_extend _ _ _ Hi He) as Hx.
  rewrite Hw in Hx. simpl in Hx. split; simpl; [done| |].
  - etransitivity; [|exact Hx]. apply prefix_app.
    rewrite <- (take_drop k c) at 2. rewrite <- app_assoc. by apply prefix_app_r.
  - intros ? [= <-] [?|?]; done.
Qed.

Lemma push_inv initial hist s m :
  inv initial hist s → ended s = None →
  inv initial (hist ++ [m]) (s <| inbound := s.(inbound) ++ [m] |>).
Proof.
  intros [Hl Hp Hc] He. split; simpl; [intros _|rewrite datas_app, app_assoc|by rewrite He].
  - destruct (Hl He) as (used & -> & Hd & Heq). exists used. by rewrite <- app_assoc.
  - by apply prefix_app_r.
Qed.

Lemma down_step_inv id initial hist s e t :
  inv initial hist s → step id s e = Some t → inv initial (hist ++ pushed [e]) t.
Proof.
  intros Hi Hst. destruct e; cbn [step] in Hst; unfold pushed; simpl;
    try rewrite app_nil_r; destruct (ended s) eqn:He; try done;
    destruct (writing s) eqn:Hw; try done.
  1-2: destruct (sender s); [|done]; injection Hst as <-; by apply push_inv.
  all: try (injection Hst as <-; destruct Hi as [Hl Hp Hc]; by split).
  - by eapply on_next_inv.
  - destruct (pending s); [|done]. injection Hst as <-. destruct Hi as [Hl Hp Hc].
    split; simpl; [done|done|]. intros r [= <-] [?|?]; done.
  - injection Hst as <-. by apply on_written_inv.
  - injection Hst as <-. by apply cut_inv.
  - injection Hst as <-. by apply cut_inv.
Qed.

Lemma down_run_inv id initial hist s es t :
  inv initial hist s → run id s es = Some t → inv initial (hist ++ pushed es) t.
Proof.
  revert s hist. induction es as [|e es IH]; intros s hist Hi; simpl.
  { intros [= <-]. by rewrite app_nil_r. }
  destruct (step id s e) as [s'|] eqn:Hs; [|done]. simpl. intros Hr.
  pose proof (down_step_inv _ _ _ _ _ _ Hi Hs) as Hi'.
  pose proof (IH s' _ Hi' Hr) as H. rewrite <- app_assoc in H.
  unfold pushed in *. by destruct e.
Qed.

Lemma down_start_inv initial w : inv initial [] (start initial w).
Proof.
  split; simpl; [|apply prefix_nil|done].
  intros _. exists []. unfold datas. simpl. by rewrite app_nil_r.
Qed.

(** What the peer was told it may send again. *)
Definition advertised (ms : list Message) : Z := sum_Z (update_add <$> ms).

Lemma advertised_app a b : advertised (a ++ b) = advertised a + advertised b.
Proof. unfold advertised. rewrite fmap_app. by autorewrite with flow. Qed.

(** Every update announces at least the threshold, and together with what is
    not announced yet they never exceed the [n] the socket drained. *)
Definition updates_ok (id n : Z) (s : st) : Prop :=
  0 <= s.(window).(RecvWindow.drained_since_update)
  ∧ advertised s.(controls) + s.(window).(RecvWindow.drained_since_update) <= n
  ∧ Forall (λ m, ∃ a, m = window_update_msg id a ∧ UPDATE_THRESHOLD <= a) s.(controls).

(** The charge of the chunk a step drains. *)
Definition drains (s : st) (e : event) : Z :=
  match e, s.(writing) with Wrote _, Some c => charge (blen c) | _, _ => 0 end.

Lemma on_written_updates id n s c ok :
  updates_ok id n s → updates_ok id (n + charge (blen c)) (on_written id s c ok).
Proof.
  intros (H0 & Hn & Hf). pose proof (charge_lower (blen c)) as Hc.
  unfold MIN_FRAME_CHARGE in Hc.
  unfold on_written, RecvWindow.drained, updates_ok in *.
  set (d := RecvWindow.drained_since_update (window s)) in *. simpl. fold d.
  assert (0 <= u32_saturating_add d (charge (blen c)) <= d + charge (blen c)) as Hd.
  { unfold u32_saturating_add, u32_max. lia. }
  revert Hd. generalize (u32_saturating_add d (charge (blen c))). intros d' Hd.
  destruct (Z.ltb_spec d' UPDATE_THRESHOLD); simpl; [split_and!; [lia|lia|done]|].
  destruct ok; simpl; [|split_and!; [lia|lia|done]].
  rewrite advertised_app. unfold advertised at 2. simpl.
  split_and!; [lia|lia|]. apply Forall_app; split; [done|].
  constructor; [|constructor]. eauto.
Qed.

Lemma step_updates id n s e t :
  updates_ok id n s → step id s e = Some t → updates_ok id (n + drains s e) t.
Proof.
  intros Hu Hst. unfold drains. destruct e; cbn [step] in Hst;
    try (destruct (ended s) eqn:He; try done; []);
    try (destruct (writing s) as [c|] eqn:Hw; try done; []);
    rewrite ?Z.add_0_r.
  1: destruct (sender s), (writing s); simplify_eq/=; done.
  - by simplify_eq/=.
  - simplify_eq/=. destruct Hu as (? & ? & ?). unfold updates_ok, RecvWindow.accept.
    destruct (u32_checked_sub _ _); done.
  - unfold on_next in Hst. destruct (pending s) as [|c p]; [|by simplify_eq/=].
    destruct (inbound s) as [|[c| |] q]; [destruct (sender s)| | |]; by simplify_eq/=.
  - destruct (pending s); by simplify_eq/=.
  - injection Hst as <-. by apply on_written_updates.
  - by simplify_eq/=.
  - by simplify_eq/=.
Qed.

Fixpoint drained_by (id : Z) (s : st) (es : list event) : Z :=
  match es with
  | [] => 0
  | e :: es' =>
      drains s e + match step id s e with Some s' => drained_by id s' es' | None => 0 end
  end.

Lemma run_updates id n s es t :
  updates_ok id n s → run id s es = Some t → updates_ok id (n + drained_by id s es) t.
Proof.
  revert n s. induction es as [|e es IH]; intros n s Hu; simpl.
  { intros [= <-]. by rewrite Z.add_0_r. }
  destruct (step id s e) as [s'|] eqn:Hs; [|done]. simpl. intros Hr.
  rewrite Z.add_assoc. apply (IH _ s'); [|done]. by eapply step_updates.
Qed.
End Down.

(** ** The channel

    [run_channel]: both halves are tasks, whichever ends
    first raises the cancel signal, and so does the tunnel's [teardown]. *)
Module Channel.
Inductive arm := ArmUp | ArmDown | ArmTeardown.

Record st := mk {
  up : Up.st;
  down : Down.st;
  selected : option arm;      (* the arm of [select!] that answered *)
  ordered : list Message;     (* what entered the ordered queue *)
  finished : bool
}.
#[global] Instance st_eta : Eta st := λ s,
  mk (up s) (down s) (selected s) (ordered s) (finished s).

Definition start (prebuf socket : bytes) (credit : Z) (initial : list bytes)
    (w : RecvWindow.t) : st :=
  mk (Up.start prebuf socket credit) (Down.start initial w) None [] false.

Inductive event :=
| EUp (e : Up.event)
| EDown (e : Down.event)
| Select (a : arm)
| Finish (send_ok : bool).

(** Whether [close] is sent, from how the two halves ended. *)
Definition sends_close (first second : RelayEnd) : bool :=
  let peer_closed := bool_decide (first = PeerClosed) || bool_decide (second = PeerClosed) in
  let tunnel_gone := bool_decide (first = TunnelGone) || bool_decide (second = TunnelGone) in
  let is_local r := match r with LocalEof | Violation => true | _ => false end in
  negb peer_closed && negb tunnel_gone && (is_local first || is_local second).

Definition is_cancel_up (e : Up.event) : bool :=
  match e with Up.CancelTake | Up.CancelRead => true | _ => false end.
Definition is_cancel_down (e : Down.event) : bool :=
  match e with Down.CancelNext | Down.CancelWrite _ => true | _ => false end.

Definition step (id : Z) (s : st) (e : event) : option st :=
  if s.(finished) then None else
  match e with
  | EUp e =>
      if is_cancel_up e && bool_decide (s.(selected) = None) then None
      else u ← Up.step id s.(up) e;
           Some (s <| up := u |> <| ordered := s.(ordered) ++
                   drop (length s.(up).(Up.sent)) u.(Up.sent) |>)
  | EDown e =>
      if is_cancel_down e && bool_decide (s.(selected) = None) then None
      else d ← Down.step id s.(down) e; Some (s <| down := d |>)
  | Select a =>
      match s.(selected), a, s.(up).(Up.ended), s.(down).(Down.ended) with
      | None, ArmUp, Some _, _ | None, ArmDown, _, Some _ | None, ArmTeardown, _, _ =>
          Some (s <| selected := Some a |>)
      | _, _, _, _ => None
      end
  | Finish ok =>
      match s.(selected), s.(up).(Up.ended), s.(down).(Down.ended) with
      | Some a, Some u, Some d =>
          let '(first, second) := match a with ArmDown => (d, u) | _ => (u, d) end in
          let s := s <| finished := true |> in
          Some (if sends_close first second && ok
                then s <| ordered := s.(ordered) ++ [close_msg id] |> else s)
      | _, _, _ => None
      end
  end.

Fixpoint run (id : Z) (s : st) (es : list event) : option st :=
  match es with
  | [] => Some s
  | e :: es' => s' ← step id s e; run id s' es'
  end.

Definition is_close (m : Message) : bool :=
  match m with MPortForwardChannel (Some (CloseFrame _)) => true | _ => false end.

Lemma sends_close_comm a b : sends_close a b = sends_close b a.
Proof. destruct a, b; reflexivity. Qed.

(** The ordered queue holds the relayed frames, then [close] when it was sent. *)
Record inv (id : Z) (src : bytes) (initial : list bytes) (hist : list Inbound) (s : st) : Prop := {
  inv_up : Up.inv id src s.(up);
  inv_down : Down.inv initial hist s.(down);
  inv_ordered : ∃ tail, s.(ordered) = s.(up).(Up.sent) ++ tail
    ∧ (tail = [] ∨ tail = [close_msg id] ∧ s.(finished) = true
        ∧ ∃ u d, s.(up).(Up.ended) = Some u ∧ s.(down).(Down.ended) = Some d
                 ∧ sends_close u d = true);
}.

Lemma up_sent_grows id u e u' :
  Up.step id u e = Some u' → Up.sent u' = Up.sent u ++ drop (length (Up.sent u)) (Up.sent u').
Proof.
  intros Hst.
  assert (∃ k, Up.sent u' = Up.sent u ++ k) as [k ->]; [|by rewrite drop_app_length].
  assert (∃ k, Up.sent u = Up.sent u ++ k) as Hsame by (exists []; by rewrite app_nil_r).
  destruct e; cbn [Up.step] in Hst; destruct (Up.ended u), (Up.held u); try done;
    try (destruct (SendCredit.try_take _ _) as [[? ?]|]; [|done]);
    try (destruct (_ && _) in Hst; [|done]); injection Hst as <-; try done;
    unfold Up.on_read; destruct (_ =? 0)%nat; try done.
  destruct send_ok; [|done]. eexists. done.
Qed.

Definition down_pushed (es : list event) : list Inbound :=
  Down.pushed (omap (λ e, match e with EDown e => Some e | _ => None end) es).

Lemma channel_step_inv id src initial hist s e t :
  inv id src initial hist s → step id s e = Some t →
  inv id src initial (hist ++ down_pushed [e]) t.
Proof.
  intros [Hu Hd Ho] Hst. unfold step in Hst. destruct (finished s) eqn:Hf; [done|].
  destruct Ho as (tail & Ho & Ht).
  assert (tail = []) as -> by (destruct Ht as [?|(_ & ? & _)]; [done|congruence]).
  rewrite app_nil_r in Ho. unfold down_pushed.
  destruct e as [e|e|a|ok]; cbn [omap list_omap]; unfold Down.pushed at 1; simpl;
    rewrite ?app_nil_r.
  - destruct (_ && _); [done|]. destruct (Up.step id (up s) e) as [u|] eqn:Hs; [|done].
    injection Hst as <-. pose proof (up_sent_grows _ _ _ _ Hs) as Hg.
    split; simpl; [by eapply Up.up_step_inv|done|]. exists []. rewrite app_nil_r, Ho.
    rewrite <- Hg. auto.
  - destruct (_ && _); [done|]. destruct (Down.step id (down s) e) as [d|] eqn:Hs; [|done].
    injection Hst as <-. split; simpl; [done|by eapply Down.down_step_inv|].
    exists []. rewrite app_nil_r. auto.
  - assert (t = s <| selected := Some a |>) as ->.
    { destruct (selected s), a, (Up.ended _), (Down.ended _); by simplify_eq/=. }
    split; simpl; try done. exists []. rewrite app_nil_r. auto.
  - destruct (selected s) as [a|], (Up.ended (up s)) as [u|] eqn:Hue,
      (Down.ended (down s)) as [d|] eqn:Hde; try done.
    destruct (sends_close u d) eqn:Hc; [destruct ok|].
    all: assert (sends_close d u = sends_close u d) as Hc' by apply sends_close_comm;
      rewrite Hc in Hc'; destruct a; rewrite ?Hc, ?Hc' in Hst; injection Hst as <-;
      split; simpl; try done; rewrite Ho;
      first [exists [close_msg id]; split; [done|]; right; eauto 10
            |exists []; rewrite app_nil_r; auto].
Qed.

Lemma channel_run_inv id src initial hist s es t :
  inv id src initial hist s → run id s es = Some t →
  inv id src initial (hist ++ down_pushed es) t.
Proof.
  revert s hist. induction es as [|e es IH]; intros s hist Hi; simpl.
  { intros [= <-]. unfold down_pushed. by rewrite app_nil_r. }
  destruct (step id s e) as [s'|] eqn:Hs; [|done]. simpl. intros Hr.
  pose proof (IH s' _ (channel_step_inv _ _ _ _ _ _ _ Hi Hs) Hr) as H.
  rewrite <- app_assoc in H. unfold down_pushed, Down.pushed in *.
  destruct e as [e|e|a|ok]; try done. by destruct e.
Qed.

Lemma channel_start_inv id prebuf socket c initial w :
  inv id (prebuf ++ socket) initial [] (start prebuf socket c initial w).
Proof.
  split; simpl; [apply Up.up_start_inv|apply Down.down_start_inv|]. exists []. auto.
Qed.

(** Each half sees its own events. *)
Definition up_events (es : list event) : list Up.event :=
  omap (λ e, match e with EUp e => Some e | _ => None end) es.
Definition down_events (es : list event) : list Down.event :=
  omap (λ e, match e with EDown e => Some e | _ => None end) es.

Lemma step_halves id s e t :
  step id s e = Some t →
  Up.run id (up s) (up_events [e]) = Some (up t)
  ∧ Down.run id (down s) (down_events [e]) = Some (down t).
Proof.
  intros Hst. unfold step in Hst. destruct (finished s); [done|].
  destruct e as [e|e|a|ok]; simpl.
  - destruct (_ && _); [done|]. destruct (Up.step id (up s) e) as [u|]; [|done].
    injection Hst as <-. done.
  - destruct (_ && _); [done|]. destruct (Down.step id (down s) e) as [d|]; [|done].
    injection Hst as <-. done.
  - destruct (selected s), a, (Up.ended (up s)), (Down.ended (down s)); by simplify_eq/=.
  - destruct (selected s) as [a|], (Up.ended (up s)) as [u|], (Down.ended (down s)) as [d|];
      try done.
    destruct a, (_ && _) in Hst; injection Hst as <-; done.
Qed.

Lemma run_halves id s es t :
  run id s es = Some t →
  Up.run id (up s) (up_events es) = Some (up t)
  ∧ Down.run id (down s) (down_events es) = Some (down t).
Proof.
  revert s. induction es as [|e es IH]; intros s; simpl; [by intros [= <-]|].
  destruct (step id s e) as [s'|] eqn:Hs; [|done]. simpl. intros Hr.
  destruct (IH _ Hr) as [Hu Hd]. destruct (step_halves _ _ _ _ Hs) as [Hu1 Hd1].
  destruct e as [e|e|a|ok]; simpl in *.
  - destruct (Up.step id (up s) e) as [u|]; simplify_eq/=. split; congruence.
  - destruct (Down.step id (down s) e) as [u|]; simplify_eq/=. split; congruence.
  - simplify_eq. split; congruence.
  - simplify_eq. split; congruence.
Qed.

(** A raised cancel signal reaches every await of both halves. *)
Lemma up_cancels id s a :
  selected s = Some a → finished s = false →
  ∃ es t, (length es <= 1)%nat ∧ run id s es = Some t ∧ Up.ended (up t) ≠ None
    ∧ selected t = Some a ∧ finished t = false ∧ down t = down s.
Proof.
  intros Hs Hf. destruct (Up.ended (up s)) as [r|] eqn:He.
  - exists [], s. split_and!; try done; [simpl; lia|congruence].
  - destruct (Up.held (up s)) as [n|] eqn:Hh.
    + exists [EUp Up.CancelRead]. eexists. split; [simpl; lia|].
      cbn [run]. unfold step. rewrite Hf, Hs. simpl. rewrite He, Hh. simpl.
      split; [done|]. done.
    + exists [EUp Up.CancelTake]. eexists. split; [simpl; lia|].
      cbn [run]. unfold step. rewrite Hf, Hs. simpl. rewrite He, Hh. simpl.
      split; [done|]. done.
Qed.

Lemma down_cancels id s a :
  selected s = Some a → finished s = false →
  ∃ es t, (length es <= 2)%nat ∧ run id s es = Some t ∧ Down.ended (down t) ≠ None
    ∧ selected t = Some a ∧ finished t = false ∧ up t = up s.
Proof.
  intros Hs Hf. destruct (Down.ended (down s)) as [r|] eqn:He.
  { exists [], s. split_and!; try done; [simpl; lia|congruence]. }
  destruct (Down.writing (down s)) as [c|] eqn:Hw.
  { exists [EDown (Down.CancelWrite 0)]. eexists. split; [simpl; lia|].
    cbn [run]. unfold step. rewrite Hf, Hs. simpl. rewrite He, Hw. simpl.
    split; [done|]. done. }
  destruct (Down.pending (down s)) as [|c p] eqn:Hp.
  { exists [EDown Down.CancelNext]. eexists. split; [simpl; lia|].
    cbn [run]. unfold step. rewrite Hf, Hs. simpl. rewrite He, Hw, Hp. simpl.
    split; [done|]. done. }
  exists [EDown Down.Next; EDown (Down.CancelWrite 0)],
    (s <| down := (down s) <| Down.pending := p |>
         <| Down.written := Down.written (down s) ++ take 0 c |>
         <| Down.writing := None |> <| Down.ended := Some Cancelled |> |>).
  split; [simpl; lia|]. split_and!; try done.
  cbn [run]. unfold step. rewrite Hf. simpl. rewrite He, Hw. unfold Down.on_next.
  rewrite Hp. simpl. rewrite Hf, Hs. simpl. by rewrite He.
Qed.

Lemma run_app id s es fs t u :
  run id s es = Some t → run id t fs = Some u → run id s (es ++ fs) = Some u.
Proof.
  revert s. induction es as [|e es IH]; intros s; simpl; [by intros [= ->]|].
  destruct (step id s e); [|done]. simpl. auto.
Qed.
End Channel.

(** C39: What a channel puts on the ordered queue: nothing but its own non-empty
    [data] frames of at most [MAX_FRAME] bytes, whose payloads are a prefix of
    what the local side produced ([prebuf] first), then at most one [close],
    last; the bytes cost no more than the credit granted, and when the local
    stream ended without a read error all of it was sent. *)
Theorem channel_to_tunnel (id credit : Z) (prebuf socket : bytes)
    (initial : list bytes) (w : RecvWindow.t) (es : list Channel.event) (t : Channel.st) :
  Channel.run id (Channel.start prebuf socket credit initial w) es = Some t →
  ∃ frames tail, t.(Channel.ordered) = frames ++ tail
    ∧ Forall (Up.frame_ok id) frames
    ∧ Up.payloads frames `prefix_of` prebuf ++ socket
    ∧ (tail = [] ∨ tail = [close_msg id])
    ∧ Up.budget t.(Channel.up) <= credit + Up.added (Channel.up_events es)
    ∧ (t.(Channel.up).(Up.ended) = Some LocalEof →
       Up.ReadErr ∉ Channel.up_events es → Up.payloads frames = prebuf ++ socket).
Proof.
  intros Hr.
  pose proof (Channel.channel_run_inv _ _ _ _ _ _ _
    (Channel.channel_start_inv id prebuf socket credit initial w) Hr) as [Hu _ (tl & Ho & Ht)].
  destruct (Channel.run_halves _ _ _ _ Hr) as [Hur _]. simpl in Hur.
  pose proof (Up.run_budget _ _ _ _ _ (Up.up_start_inv id prebuf socket credit) Hur) as Hb.
  exists (Up.sent (Channel.up t)), tl. destruct Hu as [Hp Hg Hf _].
  split_and!; try done.
  - destruct Ht as [?|(? & _)]; auto.
  - unfold Up.budget, Up.spent at 2 in Hb. simpl in Hb. unfold Up.budget in *. lia.
  - intros He Hne. pose proof (Up.run_eof _ _ _ _ Hur Hne) as Hs.
    simpl in Hs. specialize (Hs ltac:(done) He). specialize (Hp ltac:(congruence)).
    by rewrite Hs, app_nil_r in Hp.
Qed.

(** What a channel gives the local socket: the buffered [initial] chunks and
    then the queued data, in order and nothing else; when the peer closed, all
    the data it sent before [close] was written; and every [window_update]
    announces at least the threshold while all of them together never announce
    more than the socket took. *)
Theorem channel_to_socket (id credit : Z) (prebuf socket : bytes)
    (initial : list bytes) (w : RecvWindow.t) (es : list Channel.event) (t : Channel.st) :
  Channel.run id (Channel.start prebuf socket credit initial w) es = Some t →
  w.(RecvWindow.drained_since_update) = 0 →
  let d := t.(Channel.down) in
  let hist := Down.pushed (Channel.down_events es) in
  d.(Down.written) `prefix_of` concat initial ++ Down.datas hist
  ∧ (d.(Down.ended) = Some PeerClosed → ∃ before rest,
       hist = before ++ IClose :: rest ∧ Forall (λ m, is_data m = true) before
       ∧ d.(Down.written) = concat initial ++ Down.datas before)
  ∧ Forall (λ m, ∃ a, m = window_update_msg id a ∧ UPDATE_THRESHOLD <= a) d.(Down.controls)
  ∧ Down.advertised d.(Down.controls)
    <= Down.drained_by id (Down.start initial w) (Channel.down_events es).
Proof.
  intros Hr Hw. cbv zeta. destruct (Channel.run_halves _ _ _ _ Hr) as [_ Hd]. simpl in Hd.
  pose proof (Down.down_run_inv _ _ _ _ _ _ (Down.down_start_inv initial w) Hd) as [Hl Hp Hc].
  simpl in *.
  assert (Down.updates_ok id 0 (Down.start initial w)) as H0.
  { unfold Down.updates_ok, Down.advertised. simpl. rewrite Hw. split_and!; [lia|lia|done]. }
  destruct (Down.run_updates _ _ _ _ _ H0 Hd) as (Hn & Ha & Hf). simpl in Ha.
  split_and!; [done| |done|lia].
  intros He. destruct (Hc _ He (or_introl eq_refl)) as (used & m & rest & -> & ? & -> & ?).
  eauto 10.
Qed.

(** A channel always ends and tells the peer exactly when it must: once the
    select answered (a half ended, or the tunnel was torn down) at most four
    further steps finish the task whatever its halves are parked on; when it
    finishes, [close] was queued only for a local reason (end of the local
    stream or a flow violation) with neither the peer's own [close] nor a gone
    tunnel behind it. *)
Theorem channel_ends (id credit : Z) (prebuf socket : bytes)
    (initial : list bytes) (w : RecvWindow.t) (es : list Channel.event) (t : Channel.st) :
  Channel.run id (Channel.start prebuf socket credit initial w) es = Some t →
  (close_msg id ∈ t.(Channel.ordered) → ∃ u d,
      t.(Channel.up).(Up.ended) = Some u ∧ t.(Channel.down).(Down.ended) = Some d
      ∧ (u ∈ [LocalEof; Violation] ∨ d ∈ [LocalEof; Violation])
      ∧ u ≠ PeerClosed ∧ d ≠ PeerClosed ∧ u ≠ TunnelGone ∧ d ≠ TunnelGone)
  ∧ (t.(Channel.selected) ≠ None → t.(Channel.finished) = false →
      ∀ ok, ∃ fs t', (length fs <= 4)%nat
        ∧ Channel.run id t (fs ++ [Channel.Finish ok]) = Some t'
        ∧ t'.(Channel.finished) = true).
Proof.
  intros Hr.
  pose proof (Channel.channel_run_inv _ _ _ _ _ _ _
    (Channel.channel_start_inv id prebuf socket credit initial w) Hr) as [Hu _ (tl & Ho & Ht)].
  split.
  - rewrite Ho. intros [Hin|Hin]%elem_of_app.
    { destruct Hu as [_ _ Hf _]. rewrite Forall_forall in Hf.
      destruct (Hf _ Hin) as (b & Hb & _). done. }
    destruct Ht as [->|(-> & _ & u & d & Hue & Hde & Hc)]; [by apply elem_of_nil in Hin|].
    exists u, d. split_and!; try done; destruct u, d; try done; try set_solver.
  - intros Hs Hf ok. destruct (Channel.selected t) as [a|] eqn:Ha; [clear Hs|done].
    destruct (Channel.up_cancels id t a Ha Hf) as (e1 & t1 & L1 & R1 & U1 & A1 & F1 & D1).
    destruct (Channel.down_cancels id t1 a A1 F1) as (e2 & t2 & L2 & R2 & D2 & A2 & F2 & U2).
    assert (∃ t', Channel.run id t2 [Channel.Finish ok] = Some t'
                  ∧ Channel.finished t' = true) as (t' & R3 & F3).
    { simpl. unfold Channel.step. rewrite F2, A2. rewrite U2.
      destruct (Up.ended (Channel.up t1)) as [u|]; [|done].
      destruct (Down.ended (Channel.down t2)) as [d|]; [|done].
      destruct a; destruct (_ && _); simpl; eauto. }
    exists (e1 ++ e2), t'. split_and!; [rewrite length_app; lia| |done].
    rewrite <- app_assoc. by eapply Channel.run_app, Channel.run_app.
Qed.

(** ** Witnesses: a session the peer closes, and one the local side ends *)
Definition sample_bytes (n : nat) : bytes := replicate n Byte.x41.
Definition sample_eof : list Channel.event :=
  [Channel.EUp Up.Took; Channel.EUp (Up.Read 3 true); Channel.EDown (Down.Push (IData (sample_bytes 5)));
   Channel.EUp Up.Took; Channel.EUp (Up.Read 0 true); Channel.Select Channel.ArmUp;
   Channel.EDown Down.Next; Channel.EDown (Down.CancelWrite 2); Channel.Finish true].
Definition sample_close : list Channel.event :=
  [Channel.EDown (Down.Push (IData (sample_bytes 5))); Channel.EDown Down.Next;
   Channel.EDown (Down.Wrote true); Channel.EDown Down.Next;
   Channel.EDown (Down.Wrote true); Channel.EDown (Down.Push IClose);
   Channel.EDown Down.Next; Channel.Select Channel.ArmDown; Channel.EUp Up.CancelTake;
   Channel.Finish true].
Definition sample_start : Channel.st :=
  Channel.start (sample_bytes 2) (sample_bytes 1) INITIAL_WINDOW [sample_bytes 4]
    (RecvWindow.new CHANNEL_WINDOW).

Lemma channel_to_tunnel_witness :
  ∃ t frames tail, Channel.run 7 sample_start sample_eof = Some t
    ∧ t.(Channel.ordered) = frames ++ tail ∧ tail = [close_msg 7]
    ∧ Up.payloads frames = sample_bytes 3.
Proof.
  assert (∃ t, Channel.run 7 sample_start sample_eof = Some t) as [t Ht]
    by (eexists; vm_compute; reflexivity).
  destruct (channel_to_tunnel 7 _ _ _ _ _ _ t Ht) as (fr & tl & H1 & H2 & H3 & H4 & H5 & H6).
  exists t, fr, tl. split; [done|]. split; [done|].
  assert (Channel.ordered t = [data_msg 7 (sample_bytes 3); close_msg 7]) as Ho
    by (vm_compute in Ht; injection Ht as <-; reflexivity).
  rewrite Ho in H1. destruct H4 as [->| ->].
  - rewrite app_nil_r in H1. subst fr. exfalso.
    apply Forall_cons in H2 as [_ H2]. apply Forall_cons in H2 as [(b & Hb & _) _]. done.
  - split; [done|].
    apply (app_inj_2 [data_msg 7 (sample_bytes 3)] fr [close_msg 7] [close_msg 7]) in H1
      as [<- _]; [|done]. reflexivity.
Defined.

Lemma channel_to_socket_witness :
  ∃ t, Channel.run 7 sample_start sample_close = Some t
    ∧ t.(Channel.down).(Down.ended) = Some PeerClosed
    ∧ t.(Channel.down).(Down.written) = sample_bytes 9.
Proof.
  assert (∃ t, Channel.run 7 sample_start sample_close = Some t
               ∧ t.(Channel.down).(Down.ended) = Some PeerClosed) as (t & Ht & He)
    by (eexists; vm_compute; split; reflexivity).
  exists t. split; [done|]. split; [done|].
  destruct (channel_to_socket 7 _ _ _ _ _ _ t Ht eq_refl) as (_ & H & _).
  destruct (H He) as (bf & rest & Hh & Hf & ->).
  assert (bf = [IData (sample_bytes 5)]) as ->.
  { destruct bf as [|b [|b' bf]]; try discriminate Hh; [by injection Hh as <-|].
    injection Hh as <- <- Hh. by rewrite !Forall_cons in Hf; destruct Hf as (_ & ? & _). }
  reflexivity.
Defined.

Lemma channel_ends_witness :
  (∃ t, Channel.run 7 sample_start sample_eof = Some t ∧ close_msg 7 ∈ t.(Channel.ordered)
    ∧ ∃ u d, t.(Channel.up).(Up.ended) = Some u ∧ t.(Channel.down).(Down.ended) = Some d
             ∧ (u ∈ [LocalEof; Violation] ∨ d ∈ [LocalEof; Violation]))
  ∧ ∃ t fs t', Channel.run 7 sample_start [Channel.Select Channel.ArmTeardown] = Some t
      ∧ Channel.run 7 t (fs ++ [Channel.Finish true]) = Some t' ∧ (length fs <= 4)%nat.
Proof.
  split.
  - assert (∃ t, Channel.run 7 sample_start sample_eof = Some t
                 ∧ close_msg 7 ∈ t.(Channel.ordered)) as (t & Ht & Hin).
    { eexists. split; [vm_compute; reflexivity|]. apply elem_of_cons. right.
      by apply list_elem_of_singleton. }
    exists t. split; [done|]. split; [done|].
    destruct (channel_ends 7 _ _ _ _ _ _ t Ht) as [H _].
    destruct (H Hin) as (u & d & ? & ? & ? & _). eauto.
  - assert (∃ t, Channel.run 7 sample_start [Channel.Select Channel.ArmTeardown] = Some t
                 ∧ t.(Channel.selected) ≠ None ∧ t.(Channel.finished) = false)
      as (t & Ht & Hs & Hf) by (eexists; vm_compute; split_and!; done).
    destruct (channel_ends 7 _ _ _ _ _ _ t Ht) as [_ H].
    destruct (H Hs Hf true) as (fs & t' & ? & ? & _). by exists t, fs, t'.
Defined.
