(* ===== verification/TunnelHandle.v ===== *)
(** * The controller's end of a multiplexed tunnel

    [src/src/port_forward_mux.rs]: the listener's [Tunnel]
    state and its claims, the [TunnelHandle] with its channel map, id
    allocation and frame handler, the limit on refusal dialogs, and the tunnel
    loop.  The credit and window of a channel are shared between its map entry
    and its task, so they live in a heap under the channel's own number. *)
From S2P Require Import Prelude FlowControl Demux PortMessages.
Import Int.
Local Open Scope Z_scope.

(** Instants are nanoseconds. *)
Definition REPORT_AGAIN_AFTER : Z := 10 * 1000000000.
Definition MAX_REPORTED_OPEN_ERRORS : nat := 8.
Definition duration_since (now last : Z) : Z := Z.max 0 (now - last).

(** ** Reports of refused channels *)
Module Reports.
Definition fresh (now last : Z) : bool := duration_since now last <? REPORT_AGAIN_AFTER.

Definition first_report_at (reported : gmap str Z) (message : str) (now : Z)
    : option str * gmap str Z :=
  if bool_decide (message = []) then (None, reported)
  else
    let reported := filter (λ p, fresh now p.2 = true) reported in
    match reported !! message with
    | Some _ => (None, <[message := now]> reported)
    | None =>
        if bool_decide (MAX_REPORTED_OPEN_ERRORS ≤ size reported)%nat then (None, reported)
        else (Some message, <[message := now]> reported)
    end.

Fixpoint run (r : gmap str Z) (ms : list (str * Z)) : list (str * Z) * gmap str Z :=
  match ms with
  | [] => ([], r)
  | (m, now) :: ms' =>
      let '(o, r') := first_report_at r m now in
      let '(out, r'') := run r' ms' in
      (match o with Some m' => (m', now) :: out | None => out end, r'')
  end.

(** Times of a monotonic clock. *)
Fixpoint ordered_from (t : Z) (ms : list (str * Z)) : Prop :=
  match ms with
  | [] => True
  | (_, now) :: ms' => t <= now ∧ ordered_from now ms'
  end.

Lemma size_filter_le (P : str * Z → Prop) `{∀ x, Decision (P x)} (m : gmap str Z) :
  (size (filter P m) ≤ size m)%nat.
Proof.
  rewrite <- !size_dom. apply subseteq_size. apply dom_filter_subseteq.
Qed.

Lemma first_report_size r m now o r' :
  first_report_at r m now = (o, r') →
  (size r ≤ MAX_REPORTED_OPEN_ERRORS)%nat → (size r' ≤ MAX_REPORTED_OPEN_ERRORS)%nat.
Proof.
  unfold first_report_at. case_bool_decide; [by intros [= <- <-]|].
  pose proof (size_filter_le (λ p, fresh now p.2 = true) r) as Hs.
  destruct (filter _ r !! m) eqn:Hl.
  - intros [= <- <-] ?. rewrite map_size_insert, Hl. simpl. lia.
  - case_bool_decide; intros [= <- <-] ?; [lia|].
    rewrite map_size_insert, Hl. lia.
Qed.

Lemma first_report_some r m now m' r' :
  first_report_at r m now = (Some m', r') →
  m' = m ∧ m ≠ [] ∧ r' !! m = Some now
  ∧ (∀ last, r !! m = Some last → REPORT_AGAIN_AFTER <= now - last).
Proof.
  unfold first_report_at. case_bool_decide as Hm; [done|].
  destruct (filter _ r !! m) eqn:Hl; [done|].
  case_bool_decide; [done|]. intros [= <- <-].
  rewrite lookup_insert_eq. split_and!; try done. intros last Hr.
  apply map_lookup_filter_None_1 in Hl as [Hl|Hl]; [congruence|].
  specialize (Hl last Hr). simpl in Hl. unfold fresh, duration_since in Hl.
  destruct (Z.ltb_spec (Z.max 0 (now - last)) REPORT_AGAIN_AFTER); [done|].
  unfold REPORT_AGAIN_AFTER in *. lia.
Qed.

(** A remembered instant is only ever replaced by a later one or forgotten
    once it is ten seconds old. *)
Lemma first_report_keeps r m now o r' k last :
  first_report_at r m now = (o, r') → r !! k = Some last → last <= now →
  (∃ last', r' !! k = Some last' ∧ last <= last' <= now)
  ∨ REPORT_AGAIN_AFTER <= now - last.
Proof.
  intros Hf Hk Hle. unfold first_report_at in Hf. case_bool_decide as Hm.
  { injection Hf as <- <-. eauto with lia. }
  destruct (fresh now last) eqn:Hfr.
  - left. assert (filter (λ p, fresh now p.2 = true) r !! k = Some last) as Hk'
      by (apply map_lookup_filter_Some; auto).
    assert (∀ x : Z, <[m := now]> (filter (λ p, fresh now p.2 = true) r) !! k = Some x →
              x = last ∨ x = now).
    { intros x. rewrite lookup_insert_Some. naive_solver congruence. }
    assert (is_Some (<[m := now]> (filter (λ p, fresh now p.2 = true) r) !! k)) as [x Hx].
    { apply lookup_insert_is_Some'. right. eauto. }
    destruct (filter _ r !! m) eqn:Hl; [|case_bool_decide]; injection Hf as <- <-.
    + exists x. split; [done|]. destruct (H _ Hx); lia.
    + eauto with lia.
    + exists x. split; [done|]. destruct (H _ Hx); lia.
  - right. unfold fresh, duration_since in Hfr.
    destruct (Z.ltb_spec (Z.max 0 (now - last)) REPORT_AGAIN_AFTER); [done|].
    unfold REPORT_AGAIN_AFTER in *. lia.
Qed.

(** *** Histories of reports, newest first *)
Definition within (t : Z) (p : str * Z) : Prop := t <= p.2 < t + REPORT_AGAIN_AFTER.
#[global] Instance within_dec t p : Decision (within t p).
Proof. unfold within. apply _. Defined.

Record hist_ok (past : list (str * Z)) (r : gmap str Z) (now : Z) : Prop := {
  hist_remembered : ∀ m t, (m, t) ∈ past → t <= now ∧
    (now - t < REPORT_AGAIN_AFTER → ∃ last, r !! m = Some last ∧ t <= last <= now);
  hist_past : map_Forall (λ _ last, last <= now) r;
  hist_size : (size r ≤ MAX_REPORTED_OPEN_ERRORS)%nat;
  hist_nodup : ∀ t, NoDup (filter (within t) past).*1;
  hist_few : ∀ t, (length (filter (within t) past) ≤ MAX_REPORTED_OPEN_ERRORS)%nat
}.

Lemma NoDup_dom_le (l : list str) (r : gmap str Z) :
  NoDup l → (∀ m, m ∈ l → is_Some (r !! m)) → (length l ≤ size r)%nat.
Proof.
  intros Hn Hl. rewrite <- size_dom, <- (size_list_to_set (C:=gset str) l) by done.
  apply subseteq_size. intros m Hm. apply elem_of_dom, Hl. by apply elem_of_list_to_set in Hm.
Qed.

Lemma first_report_past r m now o r' :
  first_report_at r m now = (o, r') → map_Forall (λ _ last, last <= now) r →
  map_Forall (λ _ last, last <= now) r'.
Proof.
  intros Hf Hr. unfold first_report_at in Hf. case_bool_decide; [by injection Hf as <- <-|].
  assert (map_Forall (λ _ last, last <= now) (filter (λ p, fresh now p.2 = true) r)) as Hr'.
  { intros k x [Hk _]%map_lookup_filter_Some. by apply (Hr k). }
  destruct (filter _ r !! m); [|case_bool_decide]; injection Hf as <- <-; try done;
    apply map_Forall_insert_2; auto; lia.
Qed.

Lemma hist_advance past r now now' m o r' :
  hist_ok past r now → now <= now' → first_report_at r m now' = (o, r') →
  (∀ k t, (k, t) ∈ past → t <= now' ∧
     (now' - t < REPORT_AGAIN_AFTER → ∃ last, r' !! k = Some last ∧ t <= last <= now'))
  ∧ map_Forall (λ _ last, last <= now') r' ∧ (size r' ≤ MAX_REPORTED_OPEN_ERRORS)%nat.
Proof.
  intros [Hrem Hpast Hsz _ _] Hle Hf. split_and!.
  - intros k t Hin. destruct (Hrem _ _ Hin) as [Ht Hl]. split; [lia|]. intros Hrec.
    destruct Hl as (last & Hk & Hlast); [lia|].
    destruct (first_report_keeps _ _ _ _ _ _ _ Hf Hk) as [(l' & ? & ?)|]; [lia| |lia].
    exists l'. split; [done|lia].
  - apply (first_report_past _ _ _ _ _ Hf). intros k x Hk. specialize (Hpast k x Hk).
    simpl in Hpast. lia.
  - by apply (first_report_size _ _ _ _ _ Hf).
Qed.

Lemma hist_step past r now now' m o r' :
  hist_ok past r now → now <= now' → first_report_at r m now' = (o, r') →
  hist_ok (match o with Some m' => (m', now') :: past | None => past end) r' now'.
Proof.
  intros Hi Hle Hf. destruct (hist_advance _ _ _ _ _ _ _ Hi Hle Hf) as (Hrem & Hp & Hsz).
  pose proof Hi as [_ _ _ Hnd Hfew].
  destruct o as [m'|]; [|by split].
  destruct (first_report_some _ _ _ _ _ Hf) as (-> & Hne & Hm & Hold).
  assert (∀ t, NoDup (filter (within t) ((m, now') :: past)).*1) as Hnd'.
  { intros t. rewrite filter_cons. case_decide as Hw; [|done]. simpl.
    apply NoDup_cons. split; [|done]. intros ([k u] & Hk & Hin)%list_elem_of_fmap.
    simpl in Hk. subst k. apply list_elem_of_filter in Hin as [Hwu Hin].
    unfold within in *. simpl in *. destruct Hi as [Hrem0 _ _ _ _].
    destruct (Hrem0 _ _ Hin) as [Hu Hl].
    destruct Hl as (last & Hr & ?); [lia|]. specialize (Hold _ Hr). lia. }
  split; try done.
  - intros k t [Hk|Hin]%elem_of_cons; [|by apply Hrem]. injection Hk as -> ->.
    split; [lia|]. intros _. exists now'. split; [done|lia].
  - intros t. specialize (Hnd' t). rewrite filter_cons in *. case_decide as Hw; [|done].
    rewrite <- (length_fmap fst). etransitivity; [|exact Hsz].
    apply NoDup_dom_le; [done|]. intros k [->|Hk]%elem_of_cons; [by eexists|].
    apply list_elem_of_fmap in Hk as ([k' u] & -> & Hin).
    apply list_elem_of_filter in Hin as [Hwu Hin]. unfold within in *. simpl in *.
    destruct (Hrem _ _ Hin) as [_ Hl]. destruct Hl as (last & ? & _); [lia|]. by eexists.
Qed.

Lemma run_hist past r now ms out r' :
  hist_ok past r now → ordered_from now ms → run r ms = (out, r') →
  ∃ now', hist_ok (reverse out ++ past) r' now'.
Proof.
  revert past r now out. induction ms as [|[m t] ms IH]; intros past r now out Hi Ho Hr;
    simpl in *.
  { injection Hr as <- <-. exists now. done. }
  destruct Ho as [Hle Ho]. destruct (first_report_at r m t) as [o r1] eqn:Hf.
  destruct (run r1 ms) as [out' r2] eqn:Hr'. injection Hr as <- <-.
  destruct (IH _ _ _ _ (hist_step _ _ _ _ _ _ _ Hi Hle Hf) Ho Hr') as [now' Hh].
  exists now'. destruct o; [|done]. by rewrite reverse_cons, <- app_assoc.
Qed.
End Reports.

(** However a peer varies its refusal texts and however fast they come, in
    any ten seconds at most eight dialogs are shown, no two of them with the
    same text; an empty text is never shown. *)
Theorem reports_bounded (t0 : Z) (ms : list (str * Z)) (t : Z) :
  Reports.ordered_from t0 ms →
  let shown := filter (Reports.within t) (Reports.run ∅ ms).1 in
  (length shown ≤ MAX_REPORTED_OPEN_ERRORS)%nat ∧ NoDup shown.*1
  ∧ (size (Reports.run ∅ ms).2 ≤ MAX_REPORTED_OPEN_ERRORS)%nat.
Proof.
  intros Ho. cbv zeta. destruct (Reports.run ∅ ms) as [out r] eqn:Hr. simpl.
  assert (Reports.hist_ok [] ∅ t0) as H0.
  { split; [set_solver|by intros ? ? ?%lookup_empty_Some|rewrite map_size_empty; lia| |].
    - intros u. by apply NoDup_nil.
    - intros u. simpl. lia. }
  destruct (Reports.run_hist _ _ _ _ _ _ H0 Ho Hr) as (now & [_ _ Hs Hn Hf]).
  rewrite app_nil_r in *. specialize (Hn t). specialize (Hf t).
  rewrite filter_reverse in Hn, Hf. rewrite length_reverse in Hf.
  rewrite fmap_reverse in Hn. rewrite reverse_Permutation in Hn. auto.
Qed.

Definition sample_refusals : list (str * Z) :=
  [(lit "unreachable", 0); (lit "unreachable", 1); (lit "refused", 2);
   (lit "unreachable", 9000000000); (lit "unreachable", 21000000000)].

Lemma reports_bounded_witness :
  (Reports.run ∅ sample_refusals).1 =
    [(lit "unreachable", 0); (lit "refused", 2); (lit "unreachable", 21000000000)]
  ∧ (length (filter (Reports.within 0) (Reports.run ∅ sample_refusals).1)
     ≤ MAX_REPORTED_OPEN_ERRORS)%nat.
Proof.
  split; [vm_compute; reflexivity|].
  apply (reports_bounded 0 sample_refusals 0). simpl. lia.
Defined.

(** ** The handle *)
Record ChannelEntry := Entry { inbound : nat; opened : bool }.

(** What the tunnel's code asks of its surroundings, in order: send to a
    channel's queue, spawn the task of a channel, write to the stream, show a
    dialog. *)
Inductive effect :=
| Deliver (chan : nat) (m : Inbound)
| SpawnChannel (chan : nat) (id : Z) (open : Message)
| StreamSend (m : Message)
| ShowError (text : str)
| TestDelay (m : Message).

Definition delivery (e : effect) : option (nat * Inbound) :=
  match e with Deliver c m => Some (c, m) | _ => None end.

Module Handle.
Record st := mk {
  channels : gmap Z ChannelEntry;
  next_id : Z;
  reported : gmap str Z;
  teardown : bool;
  next_chan : nat;                     (* the number of the next channel *)
  credits : gmap nat Z;                (* the shared [SendCredit]s *)
  windows : gmap nat RecvWindow.t      (* the shared [RecvWindow]s *)
}.
#[global] Instance st_eta : Eta st := λ s,
  mk (channels s) (next_id s) (reported s) (teardown s) (next_chan s) (credits s) (windows s).

Definition init : st := mk ∅ 1 ∅ false 0 ∅ ∅.

(** [next_id.fetch_add(1)] until an id is free. *)
Fixpoint alloc (fuel : nat) (channels : gmap Z ChannelEntry) (next : Z) : option (Z * Z) :=
  match fuel with
  | O => None
  | S fuel =>
      match channels !! next with
      | None => Some (next, wrap_i32 (next + 1))
      | Some _ => alloc fuel channels (wrap_i32 (next + 1))
      end
  end.

Inductive open_error := TunnelIsGone | TooManyChannels.

(** One more try than there can be channels: enough by [alloc_total]. *)
Definition ALLOC_FUEL : nat := S MAX_CHANNELS.

Definition open (sink_closed : bool) (s : st) (host : str) (port : Z)
    : option (result open_error (st * list effect)) :=
  if sink_closed then Some (Err TunnelIsGone)
  else if bool_decide (MAX_CHANNELS ≤ size s.(channels))%nat then Some (Err TooManyChannels)
  else
    '(id, next) ← alloc ALLOC_FUEL s.(channels) s.(next_id);
    let c := s.(next_chan) in
    Some (Ok (s <| next_id := next |>
                <| channels := <[id := Entry c false]> s.(channels) |>
                <| next_chan := S c |>
                <| credits := <[c := SendCredit.new INITIAL_WINDOW]> s.(credits) |>
                <| windows := <[c := RecvWindow.new CHANNEL_WINDOW]> s.(windows) |>,
              [SpawnChannel c id (open_msg id host port CHANNEL_WINDOW)])).

(** The last line of a channel's task. *)
Definition task_exit (id : Z) (s : st) : st := s <| channels := delete id s.(channels) |>.

Section frames.
(** Whether the receiving half of a channel's queue still exists. *)
Context (rx_alive : nat → bool) (now : Z).

(** An unbounded [send]: it reaches the queue unless the receiver is gone. *)
Definition send (c : nat) (m : Inbound) : bool * list effect :=
  if rx_alive c then (true, [Deliver c m]) else (false, []).

Definition update_credit (f : Z → Z) (c : nat) (s : st) : st :=
  s <| credits := alter f c s.(credits) |>.

Definition on_data (id : Z) (data : bytes) (s : st) : st * list effect :=
  match s.(channels) !! id with
  | None => (s, [])
  | Some e =>
      let w := default (RecvWindow.new 0) (s.(windows) !! e.(inbound)) in
      let '(accepted, w) := RecvWindow.accept w (blen data) in
      let s := s <| windows := <[e.(inbound) := w]> s.(windows) |> in
      let '(delivered, es) := if accepted then send e.(inbound) (IData data) else (false, []) in
      if delivered then (s, es)
      else (s <| channels := delete id s.(channels) |>,
            if accepted then [] else (send e.(inbound) IViolation).2)
  end.

(** The state, what was sent, and the refusal to show. *)
Definition on_frame (s : st) (ch : option ChannelUnion) : st * list effect * option str :=
  match ch with
  | Some (Opened id true _ window) =>
      (match s.(channels) !! id with
       | Some e =>
           if e.(opened) then s
           else update_credit (λ c, SendCredit.raise_initial c window) e.(inbound)
                  (s <| channels := <[id := Entry e.(inbound) true]> s.(channels) |>)
       | None => s
       end, [], None)
  | Some (Opened id false message _) =>
      match s.(channels) !! id with
      | Some e =>
          let '(shown, r) := Reports.first_report_at s.(reported) message now in
          (s <| channels := delete id s.(channels) |> <| reported := r |>,
           (send e.(inbound) IClose).2, shown)
      | None => (s, [], None)
      end
  | Some (Data id data) => (on_data id data s, None)
  | Some (CloseFrame id) =>
      match s.(channels) !! id with
      | Some e => (s <| channels := delete id s.(channels) |>, (send e.(inbound) IClose).2, None)
      | None => (s, [], None)
      end
  | Some (WindowUpdate id add) =>
      match s.(channels) !! id with
      | Some e => (update_credit (λ c, SendCredit.add c add) e.(inbound) s, [], None)
      | None => (s, [], None)
      end
  | Some (Open _ _ _ _) | None => (s, [], None)
  end.

Definition close_all (s : st) : st := s <| channels := ∅ |> <| teardown := true |>.

(** *** One turn of the tunnel loop *)
Inductive read_result :=
| ReadBytes (parsed : option Message)    (* [None]: not a message *)
| ReadFailed (e : str)
| ReadTimeout.

Inductive turn :=
| ControlReady (m : Message) (send_error : option str)
| Read (r : read_result)
| DataReady (m : Message) (send_error : option str)
| LifetimeChanged.

(** The new state and effects, and the reason when the loop breaks. *)
Definition loop_turn (s : st) (t : turn) : st * list effect * option str :=
  match t with
  | ControlReady m err | DataReady m err =>
      match err with
      | Some e => (s, [], Some (lit "send failed: " ++ e))
      | None => (s, [StreamSend m], None)
      end
  | Read (ReadBytes None) => (s, [], None)
  | Read (ReadBytes (Some (MPortForwardChannel ch))) =>
      let '(s, es, err) := on_frame s ch in
      (s, es ++ match err with Some e => [ShowError e] | None => [] end, None)
  | Read (ReadBytes (Some (MTestDelay c t))) => (s, [TestDelay (MTestDelay c t)], None)
  | Read (ReadBytes (Some (MMisc (Some r)))) => (s, [], Some (lit "closed by peer: " ++ r))
  | Read (ReadBytes (Some (MMisc None))) | Read (ReadBytes (Some MOther)) => (s, [], None)
  | Read (ReadFailed e) => (s, [], Some (lit "read failed: " ++ e))
  | Read ReadTimeout => (s, [], Some (lit "timeout or reset by the peer"))
  | LifetimeChanged => (s, [], Some (lit "window closed"))
  end.

(** A turn, and what follows the loop when it breaks. *)
Definition loop_step (s : st) (t : turn) : st * list effect * option str :=
  let '(s, es, err) := loop_turn s t in
  (match err with Some _ => close_all s | None => s end, es, err).
End frames.

(** *** Well-formedness *)
Record wf (s : st) : Prop := {
  wf_size : (size s.(channels) ≤ MAX_CHANNELS)%nat;
  wf_id : in_i32 s.(next_id);
  wf_key : ∀ id e, s.(channels) !! id = Some e → in_i32 id ∧ (e.(inbound) < s.(next_chan))%nat;
  wf_inj : ∀ i j e f, s.(channels) !! i = Some e → s.(channels) !! j = Some f →
    e.(inbound) = f.(inbound) → i = j;
  wf_credit : ∀ c, (c < s.(next_chan))%nat → ∃ n, s.(credits) !! c = Some n ∧ 0 <= n <= MAX_SEND_CREDIT;
  wf_window : ∀ c, (c < s.(next_chan))%nat → is_Some (s.(windows) !! c);
  wf_credit_dom : ∀ c, (s.(next_chan) ≤ c)%nat → s.(credits) !! c = None
}.

Lemma handle_init_wf : wf init.
Proof.
  split; simpl; try (intros; lia); try (intros ? ? H; by apply lookup_empty_Some in H).
  - rewrite map_size_empty. lia.
  - unfold in_i32, i32_min, i32_max. lia.
  - by intros ? ? ? ? ?%lookup_empty_Some.
  - intros c _. apply lookup_empty.
Qed.

(** [n] probes that all fail visit [n] distinct live ids. *)
Lemma alloc_none fuel channels next :
  in_i32 next → alloc fuel channels next = None →
  ∀ k : Z, 0 <= k < Z.of_nat fuel → is_Some (channels !! wrap_i32 (next + k)).
Proof.
  revert next. induction fuel as [|fuel IH]; intros next Hn Ha k Hk; simpl in *; [lia|].
  destruct (channels !! next) as [e|] eqn:He; [|done].
  destruct (decide (k = 0)) as [->|].
  { rewrite Z.add_0_r, wrap_i32_id by done. by eexists. }
  pose proof (IH _ (wrap_i32_range (next + 1)) Ha (k - 1) ltac:(lia)) as Hs.
  replace (wrap_i32 (wrap_i32 (next + 1) + (k - 1))) with (wrap_i32 (next + k)) in Hs; [done|].
  unfold wrap_i32. lia.
Qed.

Lemma alloc_total channels next :
  in_i32 next → (size channels < ALLOC_FUEL)%nat →
  ∃ id next', alloc ALLOC_FUEL channels next = Some (id, next').
Proof.
  intros Hn Hs. destruct (alloc ALLOC_FUEL channels next) as [[id n]|] eqn:Ha; [eauto|].
  exfalso. pose proof (alloc_none _ _ _ Hn Ha) as Hk.
  set (l := (λ k : nat, wrap_i32 (next + Z.of_nat k)) <$> seq 0 ALLOC_FUEL).
  assert (NoDup l) as Hl.
  { apply NoDup_fmap_2_strong; [|apply NoDup_seq]. intros a b Ha' Hb Heq.
    apply elem_of_seq in Ha', Hb. unfold ALLOC_FUEL, MAX_CHANNELS in *.
    unfold wrap_i32 in Heq. unfold in_i32, i32_min, i32_max in Hn. lia. }
  assert (list_to_set l ⊆ dom channels) as Hd.
  { intros x Hx%elem_of_list_to_set. apply list_elem_of_fmap in Hx as (k & -> & Hin).
    apply elem_of_seq in Hin. apply elem_of_dom. apply Hk. lia. }
  apply subseteq_size in Hd. rewrite size_dom, size_list_to_set in Hd by done.
  unfold l in Hd. rewrite length_fmap, length_seq in Hd. lia.
Qed.

Lemma alloc_fresh fuel channels next id next' :
  in_i32 next → alloc fuel channels next = Some (id, next') →
  channels !! id = None ∧ in_i32 id ∧ in_i32 next'.
Proof.
  revert next. induction fuel as [|fuel IH]; intros next Hn Ha; simpl in *; [done|].
  destruct (channels !! next) eqn:He.
  - eapply IH; [|done]. apply wrap_i32_range.
  - injection Ha as <- <-. split_and!; try done; apply wrap_i32_range.
Qed.

(** *** Preservation *)
Lemma wf_delete s id : wf s → wf (s <| channels := delete id s.(channels) |>).
Proof.
  intros [Hs Hi Hk Hj Hc Hw Hd]. split; simpl; try done.
  - rewrite map_size_delete. destruct (channels s !! id); simpl; lia.
  - intros k e [_ He]%lookup_delete_Some. eauto.
  - intros i j e f [_ He]%lookup_delete_Some [_ Hf]%lookup_delete_Some. eauto.
Qed.

Lemma wf_clear s : wf s → wf (close_all s).
Proof.
  intros [Hs Hi Hk Hj Hc Hw Hd]. split; simpl; try done;
    try (by intros ? ? ?%lookup_empty_Some).
  - rewrite map_size_empty. lia.
Qed.

Lemma wf_credit_upd s f c :
  (∀ n, 0 <= n <= MAX_SEND_CREDIT → 0 <= f n <= MAX_SEND_CREDIT) →
  wf s → wf (update_credit f c s).
Proof.
  intros Hf [Hs Hi Hk Hj Hc Hw Hd]. split; simpl; try done.
  - intros d Hlt. destruct (Hc d Hlt) as (n & Hn & Hr).
    destruct (decide (c = d)) as [->|Hne].
    + rewrite lookup_alter_eq, Hn. simpl. eauto.
    + rewrite lookup_alter_ne by done. eauto.
  - intros d Hge. apply lookup_alter_None. auto.
Qed.

Lemma add_bounds n a : 0 <= a → 0 <= n <= MAX_SEND_CREDIT →
  0 <= SendCredit.add n a <= MAX_SEND_CREDIT.
Proof. intros Ha. unfold SendCredit.add. flow_unfold. lia. Qed.

Lemma raise_bounds n w : 0 <= w → 0 <= n <= MAX_SEND_CREDIT →
  0 <= SendCredit.raise_initial n w <= MAX_SEND_CREDIT.
Proof.
  intros Hw Hn. unfold SendCredit.raise_initial. cbv zeta.
  destruct (Z.ltb_spec 0 (effective_window w - INITIAL_WINDOW)); [|done].
  apply add_bounds; [lia|done].
Qed.

Lemma wf_opened s id e :
  wf s → s.(channels) !! id = Some e →
  wf (s <| channels := <[id := Entry e.(inbound) true]> s.(channels) |>).
Proof.
  intros [Hs Hi Hk Hj Hc Hw Hd] He. split; simpl; try done.
  - rewrite map_size_insert, He. done.
  - intros k f [[<- <-]|[_ Hf]]%lookup_insert_Some; simpl; eauto.
  - intros i j f g [[<- <-]|[Hni Hf]]%lookup_insert_Some
      [[<- <-]|[Hnj Hg]]%lookup_insert_Some; simpl; eauto.
Qed.

Lemma wf_window_upd s c w : wf s → wf (s <| windows := <[c := w]> s.(windows) |>).
Proof.
  intros [Hs Hi Hk Hj Hc Hw Hd]. split; simpl; try done.
  intros d Hlt. apply lookup_insert_is_Some'. auto.
Qed.

Lemma wf_open closed s host port r :
  wf s → open closed s host port = Some (Ok r) → wf r.1.
Proof.
  intros Hwf Ho. pose proof Hwf as [Hs Hi Hk Hj Hc Hw Hd]. unfold open in Ho.
  destruct closed; [done|]. case_bool_decide as Hm; [done|].
  destruct (alloc _ _ _) as [[id next]|] eqn:Ha; [|done]. simpl in Ho. injection Ho as <-.
  destruct (alloc_fresh _ _ _ _ _ Hi Ha) as (Hf & Hid & Hn).
  split; simpl; try done.
  - rewrite map_size_insert, Hf. lia.
  - intros k e [[<- <-]|[_ He]]%lookup_insert_Some; simpl; [split; [done|lia]|].
    destruct (Hk _ _ He). split; [done|lia].
  - intros i j e f [[<- <-]|[Hni He]]%lookup_insert_Some
      [[<- <-]|[Hnj Hg]]%lookup_insert_Some; simpl; try done; [| |eauto];
      intros Heq; [destruct (Hk _ _ Hg)|destruct (Hk _ _ He)]; lia.
  - intros c Hlt. destruct (decide (c = s.(next_chan))) as [->|].
    + rewrite lookup_insert_eq. eexists. split; [done|].
      unfold SendCredit.new. flow_unfold. lia.
    + rewrite lookup_insert_ne by done. apply Hc. lia.
  - intros c Hlt. apply lookup_insert_is_Some'. destruct (decide (c = s.(next_chan))); [auto|].
    right. apply Hw. lia.
  - intros c Hge. rewrite lookup_insert_ne by lia. apply Hd. lia.
Qed.

(** Frames carry unsigned fields. *)
Definition frame_wf (ch : option ChannelUnion) : Prop :=
  match ch with
  | Some (Opened _ _ _ window) => in_u32 window
  | Some (WindowUpdate _ add) => in_u32 add
  | _ => True
  end.
Definition turn_wf (t : turn) : Prop :=
  match t with Read (ReadBytes (Some (MPortForwardChannel ch))) => frame_wf ch | _ => True end.

Lemma wf_on_data alive id data s : wf s → wf (on_data alive id data s).1.
Proof.
  intros Hwf. unfold on_data. destruct (channels s !! id) as [e|]; [|done].
  destruct (RecvWindow.accept _ _) as [[|] w].
  - unfold send. destruct (alive _); [exact (wf_window_upd s _ w Hwf)|].
    exact (wf_delete _ id (wf_window_upd s _ w Hwf)).
  - exact (wf_delete _ id (wf_window_upd s _ w Hwf)).
Qed.

Lemma wf_reported s r : wf s → wf (s <| reported := r |>).
Proof. intros []. by split. Qed.

Lemma wf_on_frame alive now ch s : frame_wf ch → wf s → wf (on_frame alive now s ch).1.1.
Proof.
  intros Hu Hwf. destruct ch as [[|id ok msg w|id data|id|id add]|]; simpl; try done.
  - destruct ok; simpl; destruct (channels s !! id) as [e|] eqn:He; try done.
    + destruct (opened e); [done|]. apply wf_credit_upd; [|by apply wf_opened].
      intros n. apply raise_bounds. simpl in Hu. unfold in_u32 in Hu. lia.
    + destruct (Reports.first_report_at _ _ _) as [o r].
      exact (wf_reported _ r (wf_delete s id Hwf)).
  - by apply wf_on_data.
  - destruct (channels s !! id); [|done]. by apply wf_delete.
  - destruct (channels s !! id) as [e|]; [|done]. apply wf_credit_upd; [|done].
    intros n. apply add_bounds. simpl in Hu. unfold in_u32 in Hu. lia.
Qed.

Lemma loop_turn_cases alive now s t :
  (loop_turn alive now s t).1.1 = s ∧ omap delivery (loop_turn alive now s t).1.2 = []
  ∨ ∃ ch, t = Read (ReadBytes (Some (MPortForwardChannel ch)))
     ∧ (loop_turn alive now s t).1.1 = (on_frame alive now s ch).1.1
     ∧ omap delivery (loop_turn alive now s t).1.2 = omap delivery (on_frame alive now s ch).1.2.
Proof.
  destruct t as [m [e|]|[[[ch| |[r|]|]|]|e|]|m [e|]|]; simpl; auto.
  right. exists ch. destruct (on_frame alive now s ch) as [[s' es] [err|]]; simpl; split_and!; try done.
  - rewrite omap_app. simpl. by rewrite app_nil_r.
  - by rewrite app_nil_r.
Qed.
End Handle.

(** ** The handle as a demultiplexer *)
Module HandleDemux.
Import Handle.

(** A turn's unsigned fields are in range because it was parsed. *)
Inductive op :=
| OpOpen (closed : bool) (host : str) (port : Z)
| OpTurn (alive : nat → bool) (now : Z) (t : turn) (Ht : turn_wf t)
| OpExit (id : Z).

Definition step (s : st) (o : op) : st * list effect :=
  match o with
  | OpOpen closed host port =>
      match open closed s host port with Some (Ok r) => r | _ => (s, []) end
  | OpTurn alive now t _ => (loop_step alive now s t).1
  | OpExit id => (task_exit id s, [])
  end.

Definition live (s : st) : gset nat :=
  list_to_set ((λ p, p.2.(inbound)) <$> map_to_list s.(channels)).

Lemma handle_demux_elem_of_live s c :
  c ∈ live s ↔ ∃ id e, s.(channels) !! id = Some e ∧ e.(inbound) = c.
Proof.
  unfold live. rewrite elem_of_list_to_set, list_elem_of_fmap. split.
  - intros ([id e] & -> & Hin). apply elem_of_map_to_list in Hin. eauto.
  - intros (id & e & He & <-). exists (id, e). split; [done|]. by apply elem_of_map_to_list.
Qed.

#[global] Instance handle_demux : Demux st op effect := {
  demux_step := step;
  demux_delivery := delivery;
  demux_live := live;
  demux_next := next_chan;
  demux_wf := wf
}.

(** No frame makes a channel or brings one back. *)
Lemma on_frame_shrinks alive now ch s id e :
  (on_frame alive now s ch).1.1.(channels) !! id = Some e →
  ∃ e', s.(channels) !! id = Some e' ∧ e.(inbound) = e'.(inbound).
Proof.
  destruct ch as [[|k ok msg w|k data|k|k add]|]; simpl; eauto.
  - destruct ok; destruct (channels s !! k) as [f|] eqn:Hf; simpl; eauto.
    + destruct (opened f); [eauto|]. unfold update_credit. simpl.
      intros [[<- <-]|[_ He]]%lookup_insert_Some; eauto.
    + destruct (Reports.first_report_at _ _ _). simpl.
      intros [_ He]%lookup_delete_Some. eauto.
  - unfold on_data. destruct (channels s !! k) as [f|]; [|eauto].
    destruct (RecvWindow.accept _ _) as [[|] w].
    + unfold send. destruct (alive _); simpl; [eauto|].
      intros [_ He]%lookup_delete_Some. eauto.
    + simpl. intros [_ He]%lookup_delete_Some. eauto.
  - destruct (channels s !! k); simpl; [|eauto].
    intros [_ He]%lookup_delete_Some. eauto.
  - destruct (channels s !! k); simpl; eauto.
Qed.

(** What a frame delivers: nothing, or one message to one live channel, whose
    entry is gone when the message ends it. *)
Lemma on_frame_delivers alive now ch s :
  omap delivery (on_frame alive now s ch).1.2 = []
  ∨ ∃ id e m, omap delivery (on_frame alive now s ch).1.2 = [(e.(inbound), m)]
      ∧ s.(channels) !! id = Some e ∧ alive e.(inbound) = true
      ∧ (is_data m = false → (on_frame alive now s ch).1.1.(channels) = delete id s.(channels)).
Proof.
  assert (∀ e m, omap delivery (send alive e m).2 = []
                 ∨ omap delivery (send alive e m).2 = [(e, m)] ∧ alive e = true) as Hs.
  { intros e m. unfold send. destruct (alive e); simpl; auto. }
  destruct ch as [[|k ok msg w|k data|k|k add]|]; simpl; eauto.
  - destruct ok; destruct (channels s !! k) as [f|] eqn:Hf; simpl; eauto.
    destruct (Reports.first_report_at _ _ _). simpl.
    destruct (Hs (inbound f) IClose) as [|[]]; [auto|]. right. eauto 10.
  - unfold on_data. destruct (channels s !! k) as [f|] eqn:Hf; [|eauto].
    destruct (RecvWindow.accept _ _) as [[|] w].
    + destruct (Hs (inbound f) (IData data)) as [H|[H Ha]]; unfold send in *;
        destruct (alive (inbound f)) eqn:Hal; try done; simpl in *; auto.
      right. exists k, f, (IData data). split_and!; done.
    + simpl. destruct (Hs (inbound f) IViolation) as [|[]]; [auto|]. right. eauto 10.
  - destruct (channels s !! k) as [f|] eqn:Hf; simpl; [|eauto].
    destruct (Hs (inbound f) IClose) as [|[]]; [auto|]. right. eauto 10.
  - destruct (channels s !! k); simpl; eauto.
Qed.

Lemma on_frame_next alive now ch s : (on_frame alive now s ch).1.1.(next_chan) = s.(next_chan).
Proof.
  destruct ch as [[|k ok msg w|k data|k|k add]|]; simpl; try done.
  - destruct ok; destruct (channels s !! k) as [f|]; simpl; try done.
    + by destruct (opened f).
    + by destruct (Reports.first_report_at _ _ _).
  - unfold on_data. destruct (channels s !! k) as [f|]; [|done].
    destruct (RecvWindow.accept _ _) as [[|] w]; [unfold send; by destruct (alive _)|done].
  - by destruct (channels s !! k).
  - by destruct (channels s !! k).
Qed.

Lemma loop_step_state alive now s t :
  (loop_step alive now s t).1.1 = (loop_turn alive now s t).1.1
  ∨ (loop_step alive now s t).1.1 = close_all (loop_turn alive now s t).1.1.
Proof. unfold loop_step. destruct (loop_turn _ _ _ _) as [[? ?] [?|]]; auto. Qed.

Lemma loop_step_effects alive now s t :
  (loop_step alive now s t).1.2 = (loop_turn alive now s t).1.2.
Proof. unfold loop_step. by destruct (loop_turn _ _ _ _) as [[? ?] [?|]]. Qed.

Lemma loop_turn_wf alive now s t : turn_wf t → wf s → wf (loop_turn alive now s t).1.1.
Proof.
  intros Ht Hwf. destruct (loop_turn_cases alive now s t) as [[-> _]|(ch & -> & -> & _)]; [done|].
  by apply wf_on_frame.
Qed.

Lemma loop_turn_live alive now s t c : c ∈ live (loop_turn alive now s t).1.1 → c ∈ live s.
Proof.
  destruct (loop_turn_cases alive now s t) as [[-> _]|(ch & _ & Hs & _)]; [done|].
  rewrite !handle_demux_elem_of_live. rewrite Hs. intros (id & e & He & <-).
  destruct (on_frame_shrinks _ _ _ _ _ _ He) as (e' & ? & ?). eauto.
Qed.

Lemma live_clear s c : c ∉ live (close_all s).
Proof. rewrite handle_demux_elem_of_live. simpl. by intros (? & ? & ?%lookup_empty_Some & _). Qed.

Lemma delete_not_live s s' id e :
  wf s → s.(channels) !! id = Some e → s'.(channels) = delete id s.(channels) →
  e.(inbound) ∉ live s'.
Proof.
  intros [_ _ _ Hj _ _ _] He Hd. rewrite handle_demux_elem_of_live, Hd.
  intros (k & f & [Hne Hf]%lookup_delete_Some & Heq). by apply Hne, (Hj id k e f).
Qed.

#[global] Instance handle_laws : DemuxLaws st op effect.
Proof.
  split; simpl.
  - intros s [closed host port|alive now t Ht|id] Hwf; simpl.
    + destruct (open closed s host port) as [[r|]|] eqn:Ho; try done. by eapply wf_open.
    + destruct (loop_step_state alive now s t) as [->| ->];
        [|apply wf_clear]; by apply loop_turn_wf.
    + by apply wf_delete.
  - intros s [closed host port|alive now t Ht|id]; simpl; [| |lia].
    + unfold open. destruct closed; [done|]. case_bool_decide; [done|].
      destruct (alloc _ _ _) as [[? ?]|]; simpl; lia.
    + assert ((loop_turn alive now s t).1.1.(next_chan) = s.(next_chan)) as Heq.
      { destruct (loop_turn_cases alive now s t) as [[-> _]|(ch & _ & -> & _)]; [done|].
        apply on_frame_next. }
      destruct (loop_step_state alive now s t) as [->| ->]; simpl; lia.
  - intros s c [_ _ Hk _ _ _ _] (id & e & He & <-)%handle_demux_elem_of_live. by apply (Hk id).
  - intros s [closed host port|alive now t Ht|id] c Hwf; simpl.
    + unfold open. destruct closed; [auto|]. case_bool_decide; [auto|].
      destruct (alloc _ _ _) as [[id n]|]; simpl; [|auto].
      rewrite !handle_demux_elem_of_live. simpl. intros (k & e & [[<- <-]|[_ He]]%lookup_insert_Some & <-);
        simpl; [lia|eauto].
    + destruct (loop_step_state alive now s t) as [->| ->];
        [intros ?; left; by eapply loop_turn_live|intros []%live_clear].
    + rewrite !handle_demux_elem_of_live. simpl. intros (k & e & [_ He]%lookup_delete_Some & <-). eauto.
  - intros s [closed host port|alive now t Ht|id] Hwf; simpl; [| |auto].
    + unfold open. destruct closed; [auto|]. case_bool_decide; [auto|].
      destruct (alloc _ _ _) as [[id n]|]; simpl; auto.
    + rewrite loop_step_effects.
      destruct (loop_turn_cases alive now s t) as [[_ ->]|(ch & -> & Hst & Heff)]; [auto|].
      rewrite Heff. destruct (on_frame_delivers alive now ch s)
        as [->|(id & e & m & -> & He & _ & Hd)]; [auto|].
      right. exists (inbound e), m. split; [done|]. split; [apply handle_demux_elem_of_live; eauto|].
      intros Hm. destruct (loop_step_state alive now s (Read (ReadBytes (Some (MPortForwardChannel ch)))))
        as [->| ->]; [|apply live_clear].
      eapply delete_not_live; [done..|]. rewrite Hst. auto.
Qed.
End HandleDemux.

(** Whatever the peer sends and however opens, task exits and loop turns
    interleave, each channel's task sees its data in order, then at most one
    close or violation, then nothing; and the handle never has more than
    [MAX_CHANNELS] channels nor a send credit above its cap. *)
Theorem handle_delivers_in_order (os : list HandleDemux.op) (c : nat) :
  well_closed (for_channel c (demux_run Handle.init os).2)
  ∧ let s := (demux_run Handle.init os).1 in
    (size s.(Handle.channels) ≤ MAX_CHANNELS)%nat
    ∧ ∀ k n, s.(Handle.credits) !! k = Some n → 0 <= n <= MAX_SEND_CREDIT.
Proof.
  split; [by apply demux_run_well_closed, Handle.handle_init_wf|]. cbv zeta.
  pose proof (demux_run_wf Handle.init os Handle.handle_init_wf) as [Hs _ _ _ Hc _ Hd].
  split; [done|]. intros k n Hk.
  destruct (decide (k < Handle.next_chan (demux_run Handle.init os).1)%nat) as [Hlt|Hge].
  - destruct (Hc k Hlt) as (m & Hm & ?). congruence.
  - rewrite Hd in Hk; [done|lia].
Qed.

(** Opening a channel in any well-formed state: refused when the tunnel is
    gone or [MAX_CHANNELS] channels are up; otherwise the id search ends, the id
    is in range and was free, no other entry changes, the new channel has its
    own credit of [INITIAL_WINDOW] and window of [CHANNEL_WINDOW], and its task
    is the one thing spawned. *)
Theorem handle_open (s : Handle.st) (closed : bool) (host : str) (port : Z) :
  Handle.wf s →
  if closed then Handle.open closed s host port = Some (Err Handle.TunnelIsGone)
  else if bool_decide (MAX_CHANNELS ≤ size s.(Handle.channels))%nat
  then Handle.open closed s host port = Some (Err Handle.TooManyChannels)
  else ∃ id s', let c := s.(Handle.next_chan) in
    Handle.open closed s host port
      = Some (Ok (s', [SpawnChannel c id (open_msg id host port CHANNEL_WINDOW)]))
    ∧ in_i32 id ∧ s.(Handle.channels) !! id = None
    ∧ s'.(Handle.channels) = <[id := Entry c false]> s.(Handle.channels)
    ∧ s'.(Handle.credits) !! c = Some INITIAL_WINDOW
    ∧ s'.(Handle.windows) !! c = Some (RecvWindow.mk CHANNEL_WINDOW 0)
    ∧ (∀ k, k ≠ c → s'.(Handle.credits) !! k = s.(Handle.credits) !! k
                    ∧ s'.(Handle.windows) !! k = s.(Handle.windows) !! k)
    ∧ Handle.wf s'.
Proof.
  intros Hwf. destruct closed; [done|]. pose proof Hwf as [_ Hi _ _ _ _ _].
  case_bool_decide as Hm; [by unfold Handle.open; rewrite bool_decide_true|].
  destruct (Handle.alloc_total (Handle.channels s) (Handle.next_id s) Hi) as (id & n & Ha);
    [unfold Handle.ALLOC_FUEL; lia|].
  destruct (Handle.alloc_fresh _ _ _ _ _ Hi Ha) as (Hf & Hid & _).
  eassert (Handle.open false s host port = Some (Ok _)) as Ho.
  { unfold Handle.open. rewrite bool_decide_false by done. rewrite Ha. reflexivity. }
  pose proof (Handle.wf_open _ _ _ _ _ Hwf Ho) as Hwf'.
  eexists id, _. split; [exact Ho|]. clear Ho Ha Hm. simpl in *. rewrite !lookup_insert_eq.
  split_and!; try done. intros k Hk. by rewrite !lookup_insert_ne by done.
Qed.

Lemma handle_open_witness :
  Handle.wf Handle.init ∧
  ∃ id s', Handle.open false Handle.init (lit "localhost") 22
    = Some (Ok (s', [SpawnChannel 0 id (open_msg id (lit "localhost") 22 CHANNEL_WINDOW)])).
Proof.
  split; [exact Handle.handle_init_wf|].
  destruct (handle_open Handle.init false (lit "localhost") 22 Handle.handle_init_wf)
    as (id & s' & H & _).
  exists id, s'. exact H.
Defined.

(** Only the first [opened] of a channel raises its credit: in any state and
    for any windows, a second one changes nothing. *)
Theorem opened_idempotent (alive : nat → bool) (now id w1 w2 : Z) (m1 m2 : str)
    (s : Handle.st) :
  let s1 := (Handle.on_frame alive now s (Some (Opened id true m1 w1))).1.1 in
  Handle.on_frame alive now s1 (Some (Opened id true m2 w2)) = (s1, [], None)
  ∧ (∀ e, s.(Handle.channels) !! id = Some e → e.(opened) = false →
      s1.(Handle.credits) = alter (λ c, SendCredit.raise_initial c w1) e.(inbound) s.(Handle.credits)).
Proof.
  cbv zeta. simpl. destruct (Handle.channels s !! id) as [[c o]|] eqn:He; simpl.
  - destruct o; simpl.
    + rewrite He. simpl. split; [done|]. intros e [= <-]. done.
    + rewrite lookup_insert_eq. simpl. split; [done|]. by intros e [= <-] _.
  - rewrite He. split; [done|]. congruence.
Qed.

Lemma opened_idempotent_witness :
  let s := (demux_run Handle.init [HandleDemux.OpOpen false (lit "h") 22]).1 in
  let s1 := (Handle.on_frame (λ _, true) 0 s (Some (Opened 1 true [] CHANNEL_WINDOW))).1.1 in
  s1.(Handle.credits) !! 0%nat = Some MAX_SEND_CREDIT
  ∧ Handle.on_frame (λ _, true) 0 s1 (Some (Opened 1 true [] CHANNEL_WINDOW)) = (s1, [], None).
Proof.
  cbv zeta.
  destruct (opened_idempotent (λ _, true) 0 1 CHANNEL_WINDOW CHANNEL_WINDOW [] []
    (demux_run Handle.init [HandleDemux.OpOpen false (lit "h") 22]).1) as [H1 H2].
  split; [|exact H1]. rewrite (H2 (Entry 0 false)); reflexivity.
Defined.

(** ** The listener's tunnel state

    [set_muxed] publishes the handle and then spawns its loop; the loop, once
    spawned, may end at any later moment and resets the state. *)
Module Tunnel.
Inductive TunnelState := Unset | Muxed (h : nat) | Legacy | Failed.
Inductive Claim := Claimed | ClaimMuxed (h : nat) | ClaimLegacy.

Definition claim (s : TunnelState) : Claim :=
  match s with
  | Unset | Failed => Claimed
  | Muxed h => ClaimMuxed h
  | Legacy => ClaimLegacy
  end.

Record st := mk { state : TunnelState; running : gset nat; next_handle : nat }.
#[global] Instance st_eta : Eta st := λ s, mk (state s) (running s) (next_handle s).

Inductive action := Publish (h : nat) | Spawn (h : nat).

Definition new : st := mk Unset ∅ 0.
Definition set_muxed (s : st) : list action * st :=
  ([Publish s.(next_handle); Spawn s.(next_handle)], s <| next_handle := S s.(next_handle) |>).
Definition act (a : action) (s : st) : st :=
  match a with
  | Publish h => s <| state := Muxed h |>
  | Spawn h => s <| running := {[h]} ∪ s.(running) |>
  end.
Definition set_legacy (s : st) : st := s <| state := Legacy |>.
Definition set_failed (s : st) : st := s <| state := Failed |>.
(** The last lines of the loop of handle [h]. *)
Definition loop_end (h : nat) (s : st) : st :=
  s <| state := Unset |> <| running := s.(running) ∖ {[h]} |>.

(** The listener's task is inside [set_muxed] with [todo] left to do. *)
Inductive step : st * list action → st * list action → Prop :=
| step_set_muxed s s' todo : set_muxed s = (todo, s') → step (s, []) (s', todo)
| step_act s a todo : step (s, a :: todo) (act a s, todo)
| step_legacy s : step (s, []) (set_legacy s, [])
| step_failed s : step (s, []) (set_failed s, [])
| step_loop_end s todo h : h ∈ s.(running) → step (s, todo) (loop_end h s, todo).

Definition inv (x : st * list action) : Prop :=
  let '(s, todo) := x in
  (∀ h, h ∈ s.(running) → (h < s.(next_handle))%nat)
  ∧ ((todo = [] ∧ ∀ h, s.(state) = Muxed h → h ∈ s.(running))
     ∨ ∃ h, (h < s.(next_handle))%nat ∧ h ∉ s.(running)
       ∧ (todo = [Publish h; Spawn h]
          ∨ todo = [Spawn h] ∧ ∀ k, s.(state) = Muxed k → k = h ∨ k ∈ s.(running))).

Lemma tunnel_step_inv x y : inv x → step x y → inv y.
Proof.
  intros Hi Hs. destruct Hs as [s s' todo Hm|s a todo|s|s|s todo h Hh]; simpl in *;
    destruct Hi as [Hlt Hi].
  - injection Hm as <- <-. simpl. split; [intros h Hh; specialize (Hlt h Hh); lia|].
    right. exists s.(next_handle). split; [lia|]. split; [|auto].
    intros Hh. specialize (Hlt _ Hh). lia.
  - destruct Hi as [[? _]|(h & Hh & Hn & [[= -> ->]|([= -> ->] & Hk)])]; [done| |]; simpl.
    + split; [done|]. right. exists h. split_and!; try done. right. split; [done|].
      intros k [= <-]. auto.
    + split; [set_solver|]. left. split; [done|]. set_solver.
  - destruct Hi as [[_ Hi]|(? & _ & _ & [|[]])]; try done. split; [done|]. left. done.
  - destruct Hi as [[_ Hi]|(? & _ & _ & [|[]])]; try done. split; [done|]. left. done.
  - split; [set_solver|]. destruct Hi as [[-> Hi]|(k & Hk & Hn & [->|[-> Hi]])].
    + left. done.
    + right. exists k. set_solver.
    + right. exists k. set_solver.
Qed.
End Tunnel.

(** C12: The listener is never pinned to a dead tunnel: whenever it is between
    calls, a claim that hands out a multiplexed handle hands out one whose loop
    is still running, however the loops' ends fall between the steps. *)
Theorem claim_is_live (x : Tunnel.st * list Tunnel.action) (h : nat) :
  reachable (λ x, x = (Tunnel.new, [])) Tunnel.step x →
  x.2 = [] → Tunnel.claim x.1.(Tunnel.state) = Tunnel.ClaimMuxed h →
  h ∈ x.1.(Tunnel.running).
Proof.
  intros Hr Hx Hc.
  assert (Tunnel.inv x) as Hi.
  { revert x Hr Hx Hc. intros x Hr _ _. revert x Hr. apply reachable_invariant.
    - intros ? ->. simpl. split; [set_solver|]. left. done.
    - intros ? ? ?. by apply Tunnel.tunnel_step_inv. }
  destruct x as [s todo]. simpl in *. subst todo.
  destruct Hi as [_ [[_ Hi]|(? & _ & _ & [|[]])]]; try done.
  apply Hi. by destruct (Tunnel.state s); simplify_eq/=.
Qed.

Lemma claim_is_live_witness :
  0%nat ∈ Tunnel.running (Tunnel.act (Tunnel.Spawn 0) (Tunnel.act (Tunnel.Publish 0)
            (Tunnel.set_muxed Tunnel.new).2)).
Proof.
  apply (claim_is_live (_, []) 0); [|reflexivity|reflexivity].
  eapply reach_step; [|exact (Tunnel.step_act _ (Tunnel.Spawn 0) [])].
  eapply reach_step; [|exact (Tunnel.step_act _ (Tunnel.Publish 0) [Tunnel.Spawn 0])].
  eapply reach_step; [|exact (Tunnel.step_set_muxed Tunnel.new _ _ eq_refl)].
  by apply reach_init.
Defined.
