(* ===== verification/ControlledMux.v ===== *)
(** * The controlled end of a multiplexed tunnel

    [src/src/server/port_forward_mux.rs]: [PortForwardMux],
    which the connection's main loop owns and feeds with every frame, and
    [run_controlled_channel], which connects while commands keep arriving. *)
From S2P Require Import Prelude FlowControl Demux PortMessages Relay.
Import Int.
Local Open Scope Z_scope.

Definition CONNECT_TIMEOUT_MS : Z := 3000.

Definition pending_fits (charged add_len : Z) : bool :=
  usize_saturating_add charged (charge add_len) <=? INITIAL_WINDOW.

Definition unreachable_message (addr : str) (is_rdp : bool) : str :=
  lit "Failed to access remote " ++ (if is_rdp then lit "RDP" else addr)
    ++ lit ". Please make sure it is reachable/open.".

Inductive effect :=
| Deliver (chan : nat) (m : Inbound)
| Reply (m : Message)
| SpawnChannel (chan : nat) (id : Z) (addr : str) (is_rdp : bool).

Definition delivery (e : effect) : option (nat * Inbound) :=
  match e with Deliver c m => Some (c, m) | _ => None end.

Module Mux.
Record st := mk {
  channels : gmap Z nat;               (* the channel number of each [Entry] *)
  login_target : str;
  teardown : bool;
  next_chan : nat;
  credits : gmap nat Z;
  windows : gmap nat RecvWindow.t
}.
#[global] Instance st_eta : Eta st := λ s,
  mk (channels s) (login_target s) (teardown s) (next_chan s) (credits s) (windows s).

Definition new (login_target : str) : st := mk ∅ login_target false 0 ∅ ∅.

Section handle.
Context (rx_alive : nat → bool).

Definition send (c : nat) (m : Inbound) : bool * list effect :=
  if rx_alive c then (true, [Deliver c m]) else (false, []).

(** What [on_open] answers, before it changes anything but closed entries. *)
Inductive decision :=
| Refuse (why : str)
| Ignore
| Accept (addr : str) (is_rdp : bool).

Definition decide_open (s : st) (id : Z) (host : str) (port : Z) (permitted : bool) : decision :=
  if negb permitted then Refuse (lit "No permission of IP tunneling")
  else if bool_decide (MAX_CHANNELS ≤ size s.(channels))%nat
  then Refuse (lit "Too many port forward channels")
  else if bool_decide (is_Some (s.(channels) !! id)) then Ignore
  else
    let '(addr, is_rdp) := normalize_port_forward_target host port in
    if bool_decide (addr = s.(login_target)) then Accept addr is_rdp
    else Refuse (lit "Port forward target not authorized").

(** The entry of an accepted channel. *)
Definition insert_channel (s : st) (id window : Z) : st :=
  let c := s.(next_chan) in
  s <| channels := <[id := c]> s.(channels) |>
    <| next_chan := S c |>
    <| credits := <[c := SendCredit.new (effective_window window)]> s.(credits) |>
    <| windows := <[c := RecvWindow.new INITIAL_WINDOW]> s.(windows) |>.

Definition on_open (s : st) (id : Z) (host : str) (port window : Z) (permitted : bool)
    : st * list effect :=
  let s := s <| channels := filter (λ p, rx_alive p.2 = true) s.(channels) |> in
  match decide_open s id host port permitted with
  | Refuse why => (s, [Reply (opened_msg id false why 0)])
  | Ignore => (s, [])
  | Accept addr is_rdp =>
      (insert_channel s id window, [SpawnChannel s.(next_chan) id addr is_rdp])
  end.

Definition on_data (s : st) (id : Z) (data : bytes) : st * list effect :=
  match s.(channels) !! id with
  | None => (s, [])
  | Some c =>
      let w := default (RecvWindow.new 0) (s.(windows) !! c) in
      let '(accepted, w) := RecvWindow.accept w (blen data) in
      let s := s <| windows := <[c := w]> s.(windows) |> in
      let '(delivered, es) := if accepted then send c (IData data) else (false, []) in
      if delivered then (s, es)
      else (s <| channels := delete id s.(channels) |>,
            if accepted then [] else (send c IViolation).2)
  end.

(** [tunnel_permitted] is a closure the code calls for [open] alone. *)
Definition handle (s : st) (frame : option ChannelUnion) (tunnel_permitted : bool)
    : st * list effect :=
  match frame with
  | Some (Open id host port window) => on_open s id host port window tunnel_permitted
  | Some (Data id data) => on_data s id data
  | Some (CloseFrame id) =>
      match s.(channels) !! id with
      | Some c => (s <| channels := delete id s.(channels) |>, (send c IClose).2)
      | None => (s, [])
      end
  | Some (WindowUpdate id add) =>
      match s.(channels) !! id with
      | Some c => (s <| credits := alter (λ n, SendCredit.add n add) c s.(credits) |>, [])
      | None => (s, [])
      end
  | Some (Opened _ _ _ _) | None => (s, [])
  end.
End handle.

Definition close_all (s : st) : st := s <| channels := ∅ |> <| teardown := true |>.

(** ** The mux as a demultiplexer *)
Inductive op :=
| OpFrame (alive : nat → bool) (frame : option ChannelUnion) (permitted : bool)
| OpCloseAll.

Definition step (s : st) (o : op) : st * list effect :=
  match o with
  | OpFrame alive frame permitted => handle alive s frame permitted
  | OpCloseAll => (close_all s, [])
  end.

Definition live (s : st) : gset nat := map_to_set (λ _ c, c) s.(channels).

Lemma mux_elem_of_live s c : c ∈ live s ↔ ∃ id, s.(channels) !! id = Some c.
Proof. unfold live. rewrite elem_of_map_to_set. naive_solver. Qed.

Record wf (s : st) : Prop := {
  wf_size : (size s.(channels) ≤ MAX_CHANNELS)%nat;
  wf_next : ∀ id c, s.(channels) !! id = Some c → (c < s.(next_chan))%nat;
  wf_inj : ∀ i j c, s.(channels) !! i = Some c → s.(channels) !! j = Some c → i = j;
  wf_window : ∀ id c, s.(channels) !! id = Some c → is_Some (s.(windows) !! c)
}.

Lemma new_wf target : wf (new target).
Proof.
  split; simpl; try (by intros ? ? ?%lookup_empty_Some).
  - rewrite map_size_empty. lia.
  - by intros ? ? ? ?%lookup_empty_Some.
Qed.

(** Fewer channels stay well-formed. *)
Lemma wf_sub s m : wf s → m ⊆ s.(channels) → wf (s <| channels := m |>).
Proof.
  intros [Hs Hn Hi Hw] Hm.
  assert (∀ i c, m !! i = Some c → channels s !! i = Some c) as Hl.
  { intros i c Hc. by eapply lookup_weaken. }
  split; simpl; eauto.
  rewrite <- size_dom in *. etransitivity; [|exact Hs]. by apply subseteq_size, subseteq_dom.
Qed.

Lemma wf_sub_window s m k w :
  wf s → m ⊆ s.(channels) → wf (s <| windows := <[k := w]> s.(windows) |> <| channels := m |>).
Proof.
  intros Hwf Hm. destruct (wf_sub s m Hwf Hm) as [Hs Hn Hi Hw]. split; simpl; try done.
  intros id c Hc. apply lookup_insert_is_Some'. right. by apply (Hw id).
Qed.

Lemma decide_open_accept s id host port permitted addr rdp :
  decide_open s id host port permitted = Accept addr rdp →
  permitted = true ∧ (size s.(channels) < MAX_CHANNELS)%nat ∧ s.(channels) !! id = None
  ∧ normalize_port_forward_target host port = (addr, rdp) ∧ addr = s.(login_target).
Proof.
  unfold decide_open. destruct permitted; [|done]. simpl. case_bool_decide; [done|].
  case_bool_decide as Hid; [done|]. apply eq_None_not_Some in Hid.
  destruct (normalize_port_forward_target host port) as [a r].
  case_bool_decide; [|done]. intros [= -> ->]. split_and!; try done. lia.
Qed.

Lemma wf_insert_channel s id window :
  wf s → (size s.(channels) < MAX_CHANNELS)%nat → s.(channels) !! id = None →
  wf (insert_channel s id window).
Proof.
  intros [Hs Hn Hi Hw] Hlt Hid. split; simpl.
  - rewrite map_size_insert, Hid. lia.
  - intros k c [[<- <-]|[_ Hc]]%lookup_insert_Some; [lia|]. specialize (Hn _ _ Hc). lia.
  - intros i j c [[<- <-]|[Hni He]]%lookup_insert_Some
      [[<- Hj]|[Hnj Hg]]%lookup_insert_Some; try done; [| |by eapply Hi].
    + specialize (Hn _ _ Hg). lia.
    + subst c. specialize (Hn _ _ He). lia.
  - intros k c [[<- <-]|[_ Hc]]%lookup_insert_Some; apply lookup_insert_is_Some'; eauto.
Qed.

Lemma wf_on_open alive s id host port window permitted :
  wf s → wf (on_open alive s id host port window permitted).1.
Proof.
  intros Hwf. unfold on_open. cbv zeta.
  pose proof (wf_sub s _ Hwf (map_filter_subseteq (λ p, alive p.2 = true) (channels s))) as Hf.
  destruct (decide_open _ _ _ _ _) as [why| |addr rdp] eqn:Hd; [exact Hf|exact Hf|].
  apply decide_open_accept in Hd as (_ & Hlt & Hid & _). by apply wf_insert_channel.
Qed.

Lemma wf_handle alive s frame permitted : wf s → wf (handle alive s frame permitted).1.
Proof.
  intros Hwf. destruct frame as [[id host port window|id ok msg w|id data|id|id add]|]; simpl;
    try done.
  - by apply wf_on_open.
  - unfold on_data. destruct (channels s !! id) as [c|]; [|done].
    destruct (RecvWindow.accept _ _) as [[|] w].
    + unfold send. destruct (alive c).
      * exact (wf_sub_window s _ c w Hwf (reflexivity _)).
      * exact (wf_sub_window s _ c w Hwf (delete_subseteq _ id)).
    + exact (wf_sub_window s _ c w Hwf (delete_subseteq _ id)).
  - destruct (channels s !! id); [|done]. exact (wf_sub s _ Hwf (delete_subseteq _ id)).
  - destruct (channels s !! id); [|done]. destruct Hwf. by split.
Qed.

#[global] Instance mux_demux : Demux st op effect := {
  demux_step := step;
  demux_delivery := delivery;
  demux_live := live;
  demux_next := next_chan;
  demux_wf := wf
}.

(** A frame keeps entries, drops entries, or adds the next channel. *)
Lemma handle_entries alive s frame permitted id c :
  (handle alive s frame permitted).1.(channels) !! id = Some c →
  s.(channels) !! id = Some c ∨ c = s.(next_chan).
Proof.
  destruct frame as [[k host port window|k ok msg w|k data|k|k add]|]; simpl; auto.
  - unfold on_open. destruct (decide_open _ _ _ _ _) as [why| |addr rdp]; simpl.
    + intros [? _]%map_lookup_filter_Some. auto.
    + intros [? _]%map_lookup_filter_Some. auto.
    + intros [[_ <-]|[_ [? _]%map_lookup_filter_Some]]%lookup_insert_Some; auto.
  - unfold on_data. destruct (channels s !! k) as [f|]; [|auto].
    destruct (RecvWindow.accept _ _) as [[|] w]; [unfold send; destruct (alive f)|]; simpl;
      [auto|intros [_ ?]%lookup_delete_Some; auto..].
  - destruct (channels s !! k); simpl; [|auto]. intros [_ ?]%lookup_delete_Some. auto.
  - destruct (channels s !! k); simpl; auto.
Qed.

Lemma handle_next alive s frame permitted :
  (s.(next_chan) ≤ (handle alive s frame permitted).1.(next_chan))%nat.
Proof.
  destruct frame as [[k host port window|k ok msg w|k data|k|k add]|]; simpl; try lia.
  - unfold on_open. destruct (decide_open _ _ _ _ _) as [why| |addr rdp]; simpl; lia.
  - unfold on_data. destruct (channels s !! k) as [f|]; [|done].
    destruct (RecvWindow.accept _ _) as [[|] w]; [unfold send; by destruct (alive f)|done].
  - by destruct (channels s !! k).
  - by destruct (channels s !! k).
Qed.

Lemma handle_delivers alive s frame permitted :
  omap delivery (handle alive s frame permitted).2 = []
  ∨ ∃ id c m, omap delivery (handle alive s frame permitted).2 = [(c, m)]
      ∧ s.(channels) !! id = Some c ∧ alive c = true
      ∧ (is_data m = false →
         (handle alive s frame permitted).1.(channels) = delete id s.(channels)).
Proof.
  assert (∀ c m, omap delivery (send alive c m).2 = []
                 ∨ omap delivery (send alive c m).2 = [(c, m)] ∧ alive c = true) as Hs.
  { intros c m. unfold send. destruct (alive c); simpl; auto. }
  destruct frame as [[k host port window|k ok msg w|k data|k|k add]|]; simpl; auto.
  - unfold on_open. destruct (decide_open _ _ _ _ _) as [why| |addr rdp]; simpl; auto.
  - unfold on_data. destruct (channels s !! k) as [c|] eqn:Hc; [|auto].
    destruct (RecvWindow.accept _ _) as [[|] w].
    + unfold send. destruct (alive c) eqn:Ha; simpl; [|auto].
      right. exists k, c, (IData data). split_and!; done.
    + simpl. destruct (Hs c IViolation) as [|[]]; [auto|]. right. exists k, c, IViolation. auto.
  - destruct (channels s !! k) as [c|] eqn:Hc; simpl; [|auto].
    destruct (Hs c IClose) as [|[]]; [auto|]. right. exists k, c, IClose. auto.
  - destruct (channels s !! k); simpl; auto.
Qed.

#[global] Instance mux_laws : DemuxLaws st op effect.
Proof.
  split; simpl.
  - intros s [alive frame permitted|] Hwf; simpl; [by apply wf_handle|].
    destruct (wf_sub s ∅ Hwf (map_empty_subseteq _)). by split.
  - intros s [alive frame permitted|]; simpl; [apply handle_next|lia].
  - intros s c [_ Hn _ _] [id Hc]%mux_elem_of_live. by apply (Hn id).
  - intros s [alive frame permitted|] c Hwf; simpl; rewrite !mux_elem_of_live; intros [id Hc].
    + destruct (handle_entries _ _ _ _ _ _ Hc) as [?| ->]; [eauto|auto].
    + simpl in Hc. by apply lookup_empty_Some in Hc.
  - intros s [alive frame permitted|] Hwf; simpl; [|auto].
    destruct (handle_delivers alive s frame permitted) as [->|(id & c & m & -> & Hc & _ & Hd)];
      [auto|]. right. exists c, m. split; [done|]. split; [apply mux_elem_of_live; eauto|].
    intros Hm. rewrite mux_elem_of_live, (Hd Hm). intros [j [Hne Hj]%lookup_delete_Some].
    destruct Hwf as [_ _ Hi _]. by apply Hne, (Hi id j c).
Qed.

(** What a run of operations put out. *)
Fixpoint run (s : st) (os : list op) : st * list effect :=
  match os with
  | [] => (s, [])
  | o :: os' => let '(s', es) := step s o in let '(t, es') := run s' os' in (t, es ++ es')
  end.

Lemma handle_target alive s frame permitted :
  (handle alive s frame permitted).1.(login_target) = s.(login_target).
Proof.
  destruct frame as [[k host port window|k ok msg w|k data|k|k add]|]; simpl; try done.
  - unfold on_open. by destruct (decide_open _ _ _ _ _).
  - unfold on_data. destruct (channels s !! k) as [f|]; [|done].
    destruct (RecvWindow.accept _ _) as [[|] w]; [unfold send; by destruct (alive f)|done].
  - by destruct (channels s !! k).
  - by destruct (channels s !! k).
Qed.

(** The frame that makes [handle] spawn. *)
Lemma handle_spawns alive s frame permitted c id addr rdp :
  SpawnChannel c id addr rdp ∈ (handle alive s frame permitted).2 →
  permitted = true ∧ addr = s.(login_target)
  ∧ ∃ host port window, frame = Some (Open id host port window)
      ∧ normalize_port_forward_target host port = (addr, rdp).
Proof.
  assert (∀ n m, SpawnChannel c id addr rdp ∉ (send alive n m).2) as Hs.
  { intros n m. unfold send. destruct (alive n); simpl; set_solver. }
  destruct frame as [[k host port window|k ok msg w|k data|k|k add]|]; simpl; try set_solver.
  - unfold on_open. destruct (decide_open _ _ _ _ _) as [why| |a r] eqn:Hd; simpl; [set_solver..|].
    intros [= -> -> -> ->]%list_elem_of_singleton.
    apply decide_open_accept in Hd as (-> & _ & _ & Hn & ->). eauto 10.
  - unfold on_data. destruct (channels s !! k) as [f|]; [|set_solver].
    destruct (RecvWindow.accept _ _) as [[|] w].
    + specialize (Hs f (IData data)). unfold send in *. destruct (alive f); set_solver.
    + simpl. specialize (Hs f IViolation). set_solver.
  - destruct (channels s !! k) as [f|]; [|set_solver]. simpl. specialize (Hs f IClose). set_solver.
  - destruct (channels s !! k); set_solver.
Qed.
End Mux.

(** C10: A tunnel serves the target its login was approved for and nothing else:
    in any run every channel that is spawned comes from an [open] made while
    tunnelling was permitted, for exactly the login's target, and there are
    never more than [MAX_CHANNELS] channels. *)
Theorem mux_serves_login_target (target : str) (os : list Mux.op) :
  (∀ c id addr rdp, SpawnChannel c id addr rdp ∈ (Mux.run (Mux.new target) os).2 →
    addr = target ∧ ∃ alive host port window,
      Mux.OpFrame alive (Some (Open id host port window)) true ∈ os
      ∧ normalize_port_forward_target host port = (target, rdp))
  ∧ (size (Mux.run (Mux.new target) os).1.(Mux.channels) ≤ MAX_CHANNELS)%nat.
Proof.
  assert (∀ s, Mux.wf s → s.(Mux.login_target) = target →
    (∀ c id addr rdp, SpawnChannel c id addr rdp ∈ (Mux.run s os).2 →
      addr = target ∧ ∃ alive host port window,
        Mux.OpFrame alive (Some (Open id host port window)) true ∈ os
        ∧ normalize_port_forward_target host port = (target, rdp))
    ∧ (size (Mux.run s os).1.(Mux.channels) ≤ MAX_CHANNELS)%nat) as H;
    [|by apply H; [apply Mux.new_wf|]].
  induction os as [|o os IH]; intros s Hwf Ht; simpl; [split; [set_solver|apply Hwf]|].
  pose proof (demux_wf_step s o Hwf : Mux.wf (Mux.step s o).1) as Hwf'.
  assert ((Mux.step s o).1.(Mux.login_target) = target) as Ht'.
  { destruct o; simpl; [by rewrite Mux.handle_target|done]. }
  destruct (Mux.step s o) as [s' es] eqn:Hs. destruct (IH s' Hwf' Ht') as [IH1 IH2].
  destruct (Mux.run s' os) as [t es']. simpl in *. split; [|done].
  intros c id addr rdp [Hin|Hin]%elem_of_app.
  - destruct o as [alive frame permitted|]; simpl in Hs; [|injection Hs as <- <-; set_solver].
    assert (SpawnChannel c id addr rdp ∈ (Mux.handle alive s frame permitted).2) as Hin'
      by (by rewrite Hs).
    destruct (Mux.handle_spawns _ _ _ _ _ _ _ _ Hin') as (-> & -> & host & port & w & -> & Hn).
    rewrite Ht in *. split; [done|]. exists alive, host, port, w. split; [left|done].
  - destruct (IH1 _ _ _ _ Hin) as (-> & alive & host & port & w & Ho & Hn).
    split; [done|]. exists alive, host, port, w. split; [by right|done].
Qed.

Definition sample_opens : list Mux.op :=
  [Mux.OpFrame (λ _, true) (Some (Open 1 (lit "db") 22 CHANNEL_WINDOW)) true;
   Mux.OpFrame (λ _, true) (Some (Open 2 [] 22 CHANNEL_WINDOW)) true].

Lemma mux_serves_login_target_witness :
  SpawnChannel 0 2 (lit "localhost:22") false
    ∈ (Mux.run (Mux.new (lit "localhost:22")) sample_opens).2
  ∧ lit "localhost:22" = lit "localhost:22"
  ∧ ∃ alive host port window,
      Mux.OpFrame alive (Some (Open 2 host port window)) true ∈ sample_opens
      ∧ normalize_port_forward_target host port = (lit "localhost:22", false).
Proof.
  assert (SpawnChannel 0 2 (lit "localhost:22") false
    ∈ (Mux.run (Mux.new (lit "localhost:22")) sample_opens).2) as Hin.
  { replace (Mux.run (Mux.new (lit "localhost:22")) sample_opens).2
      with [Reply (opened_msg 1 false (lit "Port forward target not authorized") 0);
            SpawnChannel 0 2 (lit "localhost:22") false]; [set_solver|].
    vm_compute. reflexivity. }
  split; [exact Hin|].
  exact (proj1 (mux_serves_login_target (lit "localhost:22") sample_opens) _ _ _ _ Hin).
Defined.

(** The controlled end keeps the same delivery order as the controller: a
    channel's task sees data, then at most one close or violation, then
    nothing, whatever frames arrive in whatever order and whichever tasks are
    already gone. *)
Theorem mux_delivers_in_order (target : str) (os : list Mux.op) (c : nat) :
  well_closed (for_channel c (demux_run (Mux.new target) os).2)
  ∧ Mux.wf (demux_run (Mux.new target) os).1.
Proof.
  split; [by apply demux_run_well_closed, Mux.new_wf|].
  exact (demux_run_wf (Mux.new target) os (Mux.new_wf target)).
Qed.

(** ** A channel's task until it relays

    [Frame], [Close] and [Dropped] are what the mux does to the channel's queue
    and window; [Poll] is the task polled with what the connect answers. *)
Module Controlled.
Inductive connect_poll := ConnectPending | Connected | ConnectFailed (e : str).

Inductive phase :=
| Connecting (pending : list bytes) (pending_len : Z)
| Relaying (initial : list bytes)
| Gone.

Record st := mk {
  queue : list Inbound;
  sender : bool;                 (* the mux still holds the sending half *)
  window : RecvWindow.t;
  stage : phase;
  out : list Message             (* what [send_ordered] was given *)
}.
#[global] Instance st_eta : Eta st := λ s,
  mk (queue s) (sender s) (window s) (stage s) (out s).

Inductive event :=
| Frame (b : bytes)
| Close
| Dropped
| Poll (c : connect_poll) (send_ok : bool).

Section task.
Context (id : Z) (addr : str) (is_rdp : bool).

Definition start : st := mk [] true (RecvWindow.new INITIAL_WINDOW) (Connecting [] 0) [].

(** The mux's side ([Mux.on_data], [handle] and [close_all]) on this channel;
    the receiver is there until the task is gone. *)
Definition on_frame (b : bytes) (s : st) : st :=
  if s.(sender) then
    let '(accepted, w) := RecvWindow.accept s.(window) (blen b) in
    let s := s <| window := w |> in
    match s.(stage), accepted with
    | Gone, _ => s <| sender := false |>
    | _, true => s <| queue := s.(queue) ++ [IData b] |>
    | _, false => s <| queue := s.(queue) ++ [IViolation] |> <| sender := false |>
    end
  else s.

Definition on_close (s : st) : st :=
  if s.(sender) then
    match s.(stage) with
    | Gone => s <| sender := false |>
    | _ => s <| queue := s.(queue) ++ [IClose] |> <| sender := false |>
    end
  else s.

(** One turn of the biased [select!] and what follows it. *)
Definition poll (c : connect_poll) (send_ok : bool) (s : st) : st :=
  match s.(stage) with
  | Connecting pending pending_len =>
      match s.(queue) with
      | IData b :: q =>
          let s := s <| queue := q |> in
          if pending_fits pending_len (blen b)
          then s <| stage := Connecting (pending ++ [b]) (pending_len + charge (blen b)) |>
          else s <| out := s.(out) ++ [close_msg id] |> <| stage := Gone |>
      | IClose :: q => s <| queue := q |> <| stage := Gone |>
      | IViolation :: q =>
          s <| queue := q |> <| out := s.(out) ++ [close_msg id] |> <| stage := Gone |>
      | [] =>
          if s.(sender) then
            match c with
            | ConnectPending => s
            | ConnectFailed _ =>
                s <| out := s.(out) ++ [opened_msg id false (unreachable_message addr is_rdp) 0] |>
                  <| stage := Gone |>
            | Connected =>
                let s := s <| window := RecvWindow.grant s.(window) (CHANNEL_WINDOW - INITIAL_WINDOW) |> in
                if send_ok
                then s <| out := s.(out) ++ [opened_msg id true [] CHANNEL_WINDOW] |>
                       <| stage := Relaying pending |>
                else s <| stage := Gone |>
            end
          else s <| stage := Gone |>
      end
  | _ => s
  end.

Definition step (s : st) (e : event) : st :=
  match e with
  | Frame b => on_frame b s
  | Close => on_close s
  | Dropped => s <| sender := false |>
  | Poll c ok => poll c ok s
  end.

Definition data_len (m : Inbound) : list Z :=
  match m with IData b => [blen b] | _ => [] end.
Definition lens (q : list Inbound) : list Z := concat (data_len <$> q).

Lemma lens_app a b : lens (a ++ b) = lens a ++ lens b.
Proof. unfold lens. by rewrite fmap_app, concat_app. Qed.

(** Data first, then at most the message the mux ends with. *)
Definition queue_ok (q : list Inbound) (sender : bool) : Prop :=
  ∃ ds t, q = ds ++ t ∧ Forall (λ m, is_data m = true) ds
    ∧ (t = [] ∨ sender = false ∧ ∃ m, t = [m] ∧ is_data m = false).

(** [sent] is what the peer's accepted frames carried so far. *)
Record connecting_ok (sent : bytes) (s : st) (pending : list bytes) (len : Z) : Prop := {
  co_window : s.(window).(RecvWindow.remaining) + len + charges (lens s.(queue)) = INITIAL_WINDOW;
  co_remaining : 0 <= s.(window).(RecvWindow.remaining);
  co_drained : s.(window).(RecvWindow.drained_since_update) = 0;
  co_len : len = charges (blen <$> pending);
  co_data : sent = concat pending ++ Down.datas s.(queue);
  co_out : s.(out) = []
}.

Record relaying_ok (sent : bytes) (s : st) (initial : list bytes) : Prop := {
  ro_out : s.(out) = [opened_msg id true [] CHANNEL_WINDOW];
  ro_initial : concat initial `prefix_of` sent
}.

(** How a task can have ended: never for data within the window it was given. *)
Definition gone_ok (s : st) : Prop :=
  s.(out) = [] ∨ s.(out) = [close_msg id] ∧ s.(sender) = false
  ∨ s.(out) = [opened_msg id false (unreachable_message addr is_rdp) 0].

Definition inv (sent : bytes) (s : st) : Prop :=
  queue_ok s.(queue) s.(sender) ∧
  match s.(stage) with
  | Connecting pending len => connecting_ok sent s pending len
  | Relaying initial => relaying_ok sent s initial
  | Gone => gone_ok s
  end.

(** What an event adds to the bytes the task will ever see. *)
Definition taken (s : st) (e : event) : bytes :=
  match e, s.(stage) with
  | Frame _, Gone => []
  | Frame b, _ =>
      if s.(sender) && (RecvWindow.accept s.(window) (blen b)).1 then b else []
  | _, _ => []
  end.

Lemma queue_ok_push q m :
  is_data m = true → queue_ok q true → queue_ok (q ++ [m]) true.
Proof.
  intros Hm (ds & t & -> & Hd & [->|[? _]]); [|done]. exists (ds ++ [m]), [].
  rewrite !app_nil_r. split; [done|]. split; [by apply Forall_app; auto|auto].
Qed.
Lemma queue_ok_end q m :
  is_data m = false → queue_ok q true → queue_ok (q ++ [m]) false.
Proof.
  intros Hm (ds & t & -> & Hd & [->|[? _]]); [|done]. exists ds, [m].
  rewrite !app_nil_r. split; [done|]. split; [done|]. right. eauto.
Qed.
Lemma queue_ok_drop q b : queue_ok q b → queue_ok q false.
Proof. intros (ds & t & -> & Hd & Ht). exists ds, t. naive_solver. Qed.
Lemma queue_ok_pop m q b : queue_ok (m :: q) b → queue_ok q b.
Proof.
  intros ([|d ds] & t & Heq & Hd & Ht); simpl in Heq.
  - destruct Ht as [->|(-> & m' & -> & Hm)]; [done|]. injection Heq as -> ->.
    exists [], []. auto.
  - injection Heq as -> ->. apply Forall_cons in Hd as [_ Hd]. exists ds, t. auto.
Qed.
Lemma queue_ok_final m q b : queue_ok (m :: q) b → is_data m = false → b = false.
Proof.
  intros ([|d ds] & t & Heq & Hd & Ht) Hm; simpl in Heq.
  - destruct Ht as [->|(-> & _)]; done.
  - injection Heq as -> ->. apply Forall_cons in Hd as [Hd _]. congruence.
Qed.

Lemma accept_cases w len :
  (RecvWindow.accept w len = (false, w) ∧ RecvWindow.remaining w < charge len)
  ∨ RecvWindow.accept w len
      = (true, RecvWindow.mk (w.(RecvWindow.remaining) - charge len) w.(RecvWindow.drained_since_update))
    ∧ charge len <= w.(RecvWindow.remaining).
Proof.
  unfold RecvWindow.accept. destruct (u32_checked_sub _ _) eqn:Hc.
  - apply u32_checked_sub_Some in Hc as [? ->]. auto.
  - apply u32_checked_sub_None in Hc. auto.
Qed.

Lemma on_frame_inv sent b s :
  inv sent s → inv (sent ++ taken s (Frame b)) (on_frame b s).
Proof.
  intros [Hq Hi]. unfold on_frame, taken. destruct (sender s) eqn:Hs.
  2: { simpl. destruct (stage s) eqn:Hst; rewrite app_nil_r; split; rewrite ?Hst, ?Hs; done. }
  destruct (accept_cases (window s) (blen b)) as [[-> Hlt]|[-> Hle]]; simpl.
  - assert (∀ t, inv sent t → inv (sent ++ []) t) as Happ by (intros; by rewrite app_nil_r).
    destruct (stage s) as [pending len|initial|] eqn:Hst; apply Happ; split; simpl;
      rewrite ?Hst; try (by apply queue_ok_end); try by eapply queue_ok_drop.
    + destruct Hi as [Hw Hr Hd Hl Hda Ho]. split; simpl; try done.
      * rewrite lens_app, charges_app. simpl. lia.
      * rewrite Down.datas_app. by rewrite app_nil_r.
    + destruct Hi as [Ho Hp]. by split.
    + unfold gone_ok in *. simpl. destruct Hi as [?|[[? ?]|?]]; auto.
  - destruct (stage s) as [pending len|initial|] eqn:Hst; split; simpl;
      rewrite ?Hst, ?Hs; try (by apply queue_ok_push); try by eapply queue_ok_drop.
    + destruct Hi as [Hw Hr Hd Hl Hda Ho]. split; simpl; try done.
      * rewrite lens_app, charges_app. simpl. lia.
      * lia.
      * rewrite Down.datas_app, Hda, app_assoc. unfold Down.datas at 3. simpl.
        by rewrite app_nil_r.
    + destruct Hi as [Ho Hp]. split; [done|]. by apply prefix_app_r.
    + unfold gone_ok in *. simpl. destruct Hi as [?|[[? ?]|?]]; auto.
Qed.

Lemma on_close_inv sent s : inv sent s → inv sent (on_close s).
Proof.
  intros [Hq Hi]. unfold on_close. destruct (sender s) eqn:Hs; [|by split; rewrite ?Hs].
  destruct (stage s) as [pending len|initial|] eqn:Hst; split; simpl; rewrite ?Hst;
    try (by apply queue_ok_end); try by eapply queue_ok_drop.
  - destruct Hi as [Hw Hr Hd Hl Hda Ho]. split; simpl; try done.
    + rewrite lens_app, charges_app. simpl. lia.
    + rewrite Down.datas_app. by rewrite app_nil_r.
  - destruct Hi as [Ho Hp]. by split.
  - unfold gone_ok in *. simpl. destruct Hi as [?|[[? ?]|?]]; auto.
Qed.

Lemma poll_inv c ok sent s : inv sent s → inv sent (poll c ok s).
Proof.
  intros Hinv. pose proof Hinv as [Hq Hi]. unfold poll.
  destruct (stage s) as [pending len|initial|] eqn:Hst; [|exact Hinv|exact Hinv].
  destruct Hi as [Hw Hr Hd Hl Hda Ho].
  destruct (queue s) as [|[b| |] q] eqn:Hqu.
  - destruct (sender s) eqn:Hs; [|split; simpl; [by rewrite Hqu, Hs|by left]].
    destruct c as [| |e]; [exact Hinv| |].
    + assert (concat pending `prefix_of` sent) as Hp.
      { rewrite Hda. by apply prefix_app_r. }
      destruct ok; (split; simpl; [by rewrite Hqu, Hs|]); [split; simpl; [by rewrite Ho|done]|].
      by left.
    + split; simpl; [by rewrite Hqu, Hs|]. right; right. simpl. by rewrite Ho.
  - change (lens (IData b :: q)) with (blen b :: lens q) in Hw. simpl in Hw.
    pose proof (charges_nonneg (lens q)) as Hn. pose proof (charge_lower (blen b)) as Hc.
    pose proof (charges_nonneg (blen <$> pending)) as Hpn. rewrite <- Hl in Hpn.
    unfold pending_fits, usize_saturating_add.
    destruct (Z.leb_spec (Z.min (len + charge (blen b)) usize_max) INITIAL_WINDOW); [|lia].
    split; simpl; [by eapply queue_ok_pop|].
    split; simpl; try done; [lia| |].
    + rewrite fmap_app, charges_app. simpl. lia.
    + rewrite Hda, concat_app. unfold Down.datas. simpl. by rewrite app_nil_r, <- app_assoc.
  - split; simpl; [by eapply queue_ok_pop|]. by left.
  - split; simpl; [by eapply queue_ok_pop|]. right; left. simpl.
    rewrite Ho. split; [done|]. by apply (queue_ok_final _ _ _ Hq).
Qed.

Lemma controlled_step_inv sent s e : inv sent s → inv (sent ++ taken s e) (step s e).
Proof.
  intros Hi. destruct e as [b| | |c ok]; [by apply on_frame_inv|..]; simpl; rewrite app_nil_r.
  - by apply on_close_inv.
  - destruct Hi as [Hq Hi]. split; simpl; [by eapply queue_ok_drop|].
    destruct (stage s); [destruct Hi; by split..|].
    unfold gone_ok in *. simpl. destruct Hi as [?|[[? ?]|?]]; auto.
  - by apply poll_inv.
Qed.

Fixpoint taken_by (s : st) (es : list event) : bytes :=
  match es with [] => [] | e :: es' => taken s e ++ taken_by (step s e) es' end.

Lemma controlled_run_inv sent s es : inv sent s → inv (sent ++ taken_by s es) (foldl step s es).
Proof.
  revert sent s. induction es as [|e es IH]; intros sent s Hi; simpl; [by rewrite app_nil_r|].
  rewrite app_assoc. by apply IH, controlled_step_inv.
Qed.

Lemma controlled_start_inv : inv [] start.
Proof.
  split; simpl; [exists [], []; auto|]. split; simpl; try done.
Qed.
End task.
End Controlled.

(** Until it relays, a channel's task never sees more than its initial
    window allows, so the early-data limit never cuts a channel whose frames
    the window accepted: its only messages are one [opened] or one [close] (the
    latter for a window violation), and the buffered chunks it relays first are
    a prefix of the accepted data. *)
Theorem connecting_within_window (id : Z) (addr : str) (is_rdp : bool)
    (es : list Controlled.event) :
  let step := Controlled.step id addr is_rdp in
  let t := foldl step Controlled.start es in
  let sent := Controlled.taken_by id addr is_rdp Controlled.start es in
  match t.(Controlled.stage) with
  | Controlled.Connecting pending len =>
      len <= INITIAL_WINDOW ∧ t.(Controlled.out) = []
      ∧ sent = concat pending ++ Down.datas t.(Controlled.queue)
  | Controlled.Relaying initial =>
      t.(Controlled.out) = [opened_msg id true [] CHANNEL_WINDOW]
      ∧ concat initial `prefix_of` sent
  | Controlled.Gone =>
      t.(Controlled.out) = []
      ∨ t.(Controlled.out) = [close_msg id] ∧ t.(Controlled.sender) = false
      ∨ t.(Controlled.out)
        = [opened_msg id false (unreachable_message addr is_rdp) 0]
  end.
Proof.
  cbv zeta. pose proof (Controlled.controlled_run_inv id addr is_rdp [] _ es
    (Controlled.controlled_start_inv id addr is_rdp)) as [_ Hi].
  simpl in Hi. destruct (Controlled.stage _).
  - destruct Hi as [Hw Hr Hd Hl Hda Ho]. split_and!; try done.
    pose proof (charges_nonneg (Controlled.lens (Controlled.queue
      (foldl (Controlled.step id addr is_rdp) Controlled.start es)))). lia.
  - destruct Hi. auto.
  - exact Hi.
Qed.

(** A [close] that is already queued wins over a connect that completes on
    the same poll: once one is in the queue, no poll ever sends [opened]. *)
Theorem close_beats_connect (id : Z) (addr : str) (is_rdp : bool)
    (s : Controlled.st) (pending : list bytes) (len : Z) (es : list Controlled.event) :
  s.(Controlled.stage) = Controlled.Connecting pending len →
  IClose ∈ s.(Controlled.queue) → s.(Controlled.sender) = false → s.(Controlled.out) = [] →
  let t := foldl (Controlled.step id addr is_rdp) s es in
  (∀ ok m w, opened_msg id ok m w ∉ t.(Controlled.out))
  ∧ ∀ initial, t.(Controlled.stage) ≠ Controlled.Relaying initial.
Proof.
  intros Hst Hq Hs Ho. cbv zeta.
  set (P t := t.(Controlled.sender) = false
    ∧ (t.(Controlled.stage) = Controlled.Gone
         ∧ (t.(Controlled.out) = [] ∨ t.(Controlled.out) = [close_msg id])
       ∨ (∃ p l, t.(Controlled.stage) = Controlled.Connecting p l)
         ∧ IClose ∈ t.(Controlled.queue) ∧ t.(Controlled.out) = [])).
  assert (P (foldl (Controlled.step id addr is_rdp) s es)) as Ht.
  { assert (P s) as H0 by (split; [done|]; right; eauto).
    clear Hst Hq Hs Ho. revert s H0. induction es as [|e es IH]; intros s H0; [done|].
    simpl. apply IH. destruct H0 as [Hs H0]. destruct e as [b| | |c ok]; simpl.
    - unfold Controlled.on_frame. by rewrite Hs.
    - unfold Controlled.on_close. by rewrite Hs.
    - by split.
    - unfold Controlled.poll. destruct H0 as [[Hg H0]|((p & l & Hc) & Hq & Ho)];
        [rewrite Hg|rewrite Hc].
      + split; [done|]. left. done.
      + destruct (Controlled.queue s) as [|[b| |] q]; [set_solver|..].
        * destruct (pending_fits l (blen b)); split; simpl; try done;
            [right|left; by rewrite Ho; auto]. split; [eauto|]. split; [set_solver|done].
        * split; [done|]. left. auto.
        * split; [done|]. left. simpl. rewrite Ho. auto. }
  destruct Ht as [_ [[Hg Ho']|((p & l & Hc) & _ & Ho')]].
  - split; [|congruence]. intros ok m w. destruct Ho' as [->| ->]; [set_solver|].
    intros ?%list_elem_of_singleton. done.
  - rewrite Ho', Hc. split; [set_solver|done].
Qed.

Lemma close_beats_connect_witness :
  let s := Controlled.step 1 (lit "localhost:22") false
             (Controlled.step 1 (lit "localhost:22") false Controlled.start
                (Controlled.Frame (sample_bytes 3))) Controlled.Close in
  IClose ∈ s.(Controlled.queue)
  ∧ opened_msg 1 true [] 0 ∉ (foldl (Controlled.step 1 (lit "localhost:22") false) s
    [Controlled.Poll Controlled.Connected true; Controlled.Poll Controlled.Connected true]).(Controlled.out).
Proof.
  cbv zeta. split; [vm_compute; right; left|].
  refine (proj1 (close_beats_connect 1 (lit "localhost:22") false _ [] 0 _ _ _ _ _) true [] 0).
  - reflexivity.
  - vm_compute. right. left.
  - reflexivity.
  - reflexivity.
Defined.
