(* ===== verification/IdWhitelist.v ===== *)
(** * Whitelists and their glob patterns

    [src/src/server/connection.rs]: [wildcard_match], [id_whitelist_allows], the
    option parsing of [check_id_whitelist] and [check_whitelist].  Lower-casing
    is Unicode's and CIDR matching is a crate's: both are parameters. *)
From S2P Require Import Prelude.

Definition star : char := chr "*".
Definition qmark : char := chr "?".

(** ** What a pattern means *)
Inductive glob : str → str → Prop :=
| glob_nil : glob [] []
| glob_char c p t : c ≠ star → glob p t → glob (c :: p) (c :: t)
| glob_any c p t : glob p t → glob (qmark :: p) (c :: t)
| glob_star_empty p t : glob p t → glob (star :: p) t
| glob_star_more c p t : glob (star :: p) t → glob (star :: p) (c :: t).

(** ** The matcher, on indices as the source has it *)
Section loop.
Context (p t : str).

Definition p_at (i : nat) (c : char) : bool := bool_decide (p !! i = Some c).

(** One iteration: [Some (Some s)] goes on, [Some None] answers [false], and
    [None] means the loop condition failed. *)
Definition wstate : Type := nat * nat * option (nat * nat).
Definition wstep (s : wstate) : option (option wstate) :=
  let '(pi, ti, st) := s in
  if bool_decide (ti < length t) then
    Some (if p_at pi star then Some (S pi, ti, Some (S pi, ti))
          else if bool_decide (pi < length p)
                  && (p_at pi qmark || bool_decide (p !! pi = t !! ti))
          then Some (S pi, S ti, st)
          else match st with
               | Some (sp, ts) => Some (sp, S ts, Some (sp, S ts))
               | None => None
               end)
  else None.

(** The loop after the text is used up: skip trailing stars. *)
Fixpoint skip_stars (l : str) : bool :=
  match l with
  | [] => true
  | c :: l' => if (c =? star)%N then skip_stars l' else false
  end.

Fixpoint wloop (fuel : nat) (s : wstate) : option bool :=
  match fuel with
  | O => None
  | S fuel =>
      match wstep s with
      | None => Some (skip_stars (drop s.1.1 p))
      | Some None => Some false
      | Some (Some s') => wloop fuel s'
      end
  end.

(** Enough by [wloop_total]. *)
Definition wfuel : nat := (length t + 2) * S (length p) + 1.
End loop.

Section case.
(** [str::to_lowercase]. *)
Context (lower : str → str).

Definition wildcard_match (pattern text : str) : bool :=
  let p := lower (trim pattern) in
  let t := lower (trim text) in
  default false (wloop p t (wfuel p t) (0, 0, None)).

Definition bare_id (my_id : str) : str := hd my_id (split_on (chr "@") my_id).

Definition id_whitelist_allows (id_whitelist : list str) (my_id : str) : bool :=
  match id_whitelist with
  | [] => true
  | _ => existsb (λ x, wildcard_match x my_id || wildcard_match x (bare_id my_id)) id_whitelist
  end.
End case.

(** The option's text, as [check_id_whitelist] reads it. *)
Definition parse_id_whitelist (opt : str) : list str :=
  filter (λ x, x ≠ []) (trim <$> split_on (chr ",") opt).

(** [check_whitelist]: whether a source address may connect; [cidr_contains]
    answers [None] for text that is no CIDR. *)
Definition parse_whitelist (opt : str) : list str :=
  filter (λ x, x ≠ []) (split_on (chr ",") opt).
Definition check_whitelist (cidr_contains : str → option bool) (opt : str) : bool :=
  let whitelist := parse_whitelist opt in
  negb (negb (bool_decide (whitelist = []))
        && negb (bool_decide (lit "0.0.0.0" ∈ whitelist))
        && negb (existsb (λ x, default false (cidr_contains x)) whitelist)).

(** ** Lemmas on globs *)
Lemma glob_star_drop p t k : glob p (drop k t) → glob (star :: p) t.
Proof.
  revert t. induction k as [|k IH]; intros t Hg; [by apply glob_star_empty|].
  destruct t as [|c t]; [by apply glob_star_empty|]. apply glob_star_more. auto.
Qed.

Lemma glob_star_inv p t : glob (star :: p) t → ∃ k, k ≤ length t ∧ glob p (drop k t).
Proof.
  intros Hg. remember (star :: p) as q eqn:Hq. revert p Hq.
  induction Hg as [|c p' t Hc Hg IH|c p' t Hg IH|p' t Hg IH|c p' t Hg IH]; intros p Hq;
    simplify_eq.
  - exists 0. split; [lia|done].
  - destruct (IH p eq_refl) as (k & Hk & Hd). exists (S k). simpl. split; [lia|done].
Qed.

Lemma glob_stars p : skip_stars p = true ↔ glob p [].
Proof.
  split.
  - induction p as [|c p IH]; simpl; [constructor|].
    destruct (N.eqb_spec c star) as [->|]; [|done]. intros. by apply glob_star_empty, IH.
  - intros Hg. remember [] as t eqn:Ht. induction Hg; simplify_eq; auto.
Qed.

(** A segment without stars consumes exactly its length. *)
Lemma glob_segment seg rest t :
  star ∉ seg → glob (seg ++ rest) t → length seg ≤ length t ∧ glob rest (drop (length seg) t).
Proof.
  revert t. induction seg as [|c seg IH]; intros t Hs Hg; simpl in *; [split; [lia|done]|].
  apply not_elem_of_cons in Hs as [Hc Hs].
  inversion Hg as [|c' p' t' Hc' Hg'|c' p' t' Hg'| |]; subst; simplify_eq;
    destruct (IH t' Hs Hg') as [? ?]; split; simpl; auto; lia.
Qed.

Lemma glob_head c p d t :
  c ≠ star → glob (c :: p) (d :: t) ↔ (c = qmark ∨ c = d) ∧ glob p t.
Proof.
  intros Hc. split.
  - intros Hg. inversion Hg; subst; simplify_eq; auto.
  - intros [[->| ->] Hg]; [by apply glob_any|by apply glob_char].
Qed.

(** ** The invariant of the loop *)
Section correct.
Context (p t : str).

Definition G (pi ti : nat) : Prop := glob (drop pi p) (drop ti t).

(** What a state still stands for: a match from here, or from a later start of
    the text covered by the last star. *)
Definition means (s : wstate) : Prop :=
  let '(pi, ti, st) := s in
  G pi ti ∨ ∃ sp ts k, st = Some (sp, ts) ∧ S ts ≤ k ≤ length t ∧ G sp k.

(** Since the last star, pattern and text advanced together and met no star. *)
Definition winv (s : wstate) : Prop :=
  let '(pi, ti, st) := s in
  pi ≤ length p ∧ ti ≤ length t ∧
  match st with
  | Some (sp, ts) => sp ≤ pi ∧ ts ≤ ti ∧ pi - sp = ti - ts
      ∧ star ∉ take (pi - sp) (drop sp p)
  | None => True
  end.

Lemma drop_cons i c (l : str) : l !! i = Some c → drop i l = c :: drop (S i) l.
Proof. intros H. by rewrite (drop_S l c i). Qed.

Lemma G_segment sp pi k :
  sp ≤ pi → star ∉ take (pi - sp) (drop sp p) → pi ≤ length p → G sp k →
  k ≤ length t → k + (pi - sp) ≤ length t ∧ G pi (k + (pi - sp)).
Proof.
  intros Hle Hs Hp Hg Hk. unfold G in *.
  rewrite <- (take_drop (pi - sp) (drop sp p)), drop_drop in Hg.
  apply glob_segment in Hg as [Hl Hg]; [|done].
  rewrite length_take, !length_drop in Hl.
  rewrite length_take, length_drop, drop_drop in Hg.
  replace ((pi - sp) `min` (length p - sp)) with (pi - sp) in * by lia.
  replace (sp + (pi - sp)) with pi in Hg by lia. split; [lia|done].
Qed.

Lemma G_star pi ti : p !! pi = Some star → ti ≤ length t →
  G pi ti ↔ ∃ k, ti ≤ k ≤ length t ∧ G (S pi) k.
Proof.
  intros Hp Ht. unfold G. rewrite (drop_cons _ _ _ Hp). split.
  - intros (k & Hk & Hg)%glob_star_inv. rewrite length_drop in Hk.
    rewrite drop_drop in Hg. exists (ti + k). split; [lia|done].
  - intros (k & Hk & Hg). apply (glob_star_drop _ _ (k - ti)).
    rewrite drop_drop. by replace (ti + (k - ti)) with k by lia.
Qed.

(** A fresh star replaces the older one: whatever the older one still covered,
    the fresh one covers. *)
Lemma step_star pi ti st :
  winv (pi, ti, st) → ti < length t → p !! pi = Some star →
  winv (S pi, ti, Some (S pi, ti)) ∧
  (means (pi, ti, st) ↔ means (S pi, ti, Some (S pi, ti))).
Proof.
  intros (Hp & Ht & Hst) Hlt Hstar. pose proof (lookup_lt_Some _ _ _ Hstar) as Hpl.
  split.
  { split; [lia|]. split; [lia|]. split; [lia|]. split; [lia|].
    rewrite !Nat.sub_diag. split; [done|]. simpl. set_solver. }
  simpl. rewrite (G_star _ _ Hstar) by lia. split.
  - intros [(k & Hk & Hg)|(sp & ts & k & -> & Hk & Hg)].
    { destruct (decide (k = ti)) as [->|]; [by left|].
      right. exists (S pi), ti, k. split; [done|]. split; [lia|done]. }
    destruct Hst as (? & ? & Heq & Hns).
    destruct (G_segment sp pi k) as [Hk' Hg']; [lia|done|lia|done|lia|].
    apply G_star in Hg' as (j & Hj & Hg'); [|done|lia].
    right. exists (S pi), ti, j. split; [done|]. split; [lia|done].
  - intros [Hg|(sp & ts & k & [= <- <-] & Hk & Hg)]; left; [exists ti|exists k];
      (split; [lia|done]).
Qed.

(** A character or [?] matched. *)
Lemma step_char pi ti st c d :
  winv (pi, ti, st) → p !! pi = Some c → t !! ti = Some d → c ≠ star → c = qmark ∨ c = d →
  winv (S pi, S ti, st) ∧ (means (pi, ti, st) ↔ means (S pi, S ti, st)).
Proof.
  intros (Hp & Ht & Hst) Hc Hd Hcs Hcd.
  pose proof (lookup_lt_Some _ _ _ Hc). pose proof (lookup_lt_Some _ _ _ Hd). split.
  - split; [lia|]. split; [lia|]. destruct st as [[sp ts]|]; [|done].
    destruct Hst as (? & ? & ? & Hns). split_and!; try lia.
    replace (S pi - sp) with (S (pi - sp)) by lia.
    rewrite (take_S_r _ _ c); [set_solver|].
    rewrite lookup_drop. by replace (sp + (pi - sp)) with pi by lia.
  - assert (G pi ti ↔ G (S pi) (S ti)) as HG; [|by simpl; rewrite HG].
    unfold G. rewrite (drop_cons _ _ _ Hc), (drop_cons _ _ _ Hd), glob_head by done.
    naive_solver.
Qed.

(** Nothing matches here: only later starts for the last star remain. *)
Lemma step_back pi ti sp ts :
  winv (pi, ti, Some (sp, ts)) → ti < length t → ¬ G pi ti →
  winv (sp, S ts, Some (sp, S ts)) ∧
  (means (pi, ti, Some (sp, ts)) ↔ means (sp, S ts, Some (sp, S ts))).
Proof.
  intros (Hp & Ht & ? & ? & ? & Hns) Hlt HG. split.
  { split; [lia|]. split; [lia|]. split_and!; try lia. rewrite Nat.sub_diag.
    simpl. set_solver. }
  split.
  - intros [?|(? & ? & k & [= <- <-] & Hk & Hg)]; [done|].
    destruct (decide (k = S ts)) as [->|]; [by left|].
    right. exists sp, (S ts), k. split; [done|]. split; [lia|done].
  - intros [Hg|(? & ? & k & [= <- <-] & Hk & Hg)]; right;
      [exists sp, ts, (S ts)|exists sp, ts, k]; (split; [done|]; split; [lia|done]).
Qed.

Lemma mismatch pi ti d :
  t !! ti = Some d → p !! pi ≠ Some star →
  (∀ c, p !! pi = Some c → c ≠ qmark ∧ c ≠ d) → ¬ G pi ti.
Proof.
  intros Hd Hs Hc Hg. unfold G in Hg. rewrite (drop_cons ti d t Hd) in Hg.
  destruct (p !! pi) as [c|] eqn:Hp.
  - rewrite (drop_cons _ _ _ Hp) in Hg. apply glob_head in Hg as [[?|?] _];
      [| |congruence]; by destruct (Hc c eq_refl).
  - apply lookup_ge_None in Hp. rewrite (drop_ge p) in Hg by lia. inversion Hg.
Qed.

(** At the end of the text an older star can give nothing more. *)
Lemma step_end pi st :
  winv (pi, length t, st) → means (pi, length t, st) ↔ glob (drop pi p) [].
Proof.
  intros (Hp & Ht & Hst). simpl. unfold G at 1. rewrite (drop_ge t) by lia.
  split; [|auto]. intros [?|(sp & ts & k & -> & Hk & Hg)]; [done|].
  destruct Hst as (? & ? & ? & Hns).
  destruct (G_segment sp pi k) as [Hk' _]; [lia|done|lia|done|lia|]. lia.
Qed.

(** A step keeps the invariant and what the state means. *)
Lemma wstep_ok s :
  winv s →
  match wstep p t s with
  | Some (Some s') => winv s' ∧ (means s ↔ means s')
  | Some None => ¬ means s
  | None => means s ↔ glob (drop s.1.1 p) []
  end.
Proof.
  destruct s as [[pi ti] st]. intros Hi. pose proof Hi as (_ & Ht & _). unfold wstep.
  case_bool_decide as Hlt; simpl.
  2: { assert (ti = length t) as -> by lia. by apply step_end. }
  destruct (lookup_lt_is_Some_2 t ti Hlt) as [d Hd].
  unfold p_at. case_bool_decide as Hstar; [by apply step_star|].
  assert (¬ G pi ti → match st with
    | Some (sp, ts) => winv (sp, S ts, Some (sp, S ts))
        ∧ (means (pi, ti, st) ↔ means (sp, S ts, Some (sp, S ts)))
    | None => ¬ means (pi, ti, st) end) as Hback.
  { intros HG. destruct st as [[sp ts]|]; [by apply step_back|].
    intros [?|(? & ? & ? & ? & _)]; done. }
  rewrite Hd. destruct (_ && _) eqn:Hm.
  - apply andb_true_iff in Hm as [Hpl Hm]. apply bool_decide_eq_true in Hpl.
    destruct (lookup_lt_is_Some_2 p pi Hpl) as [c Hc]. rewrite Hc in Hm, Hstar.
    apply (step_char _ _ _ c d); try done; [congruence|].
    apply orb_true_iff in Hm as [Hm|Hm]; apply bool_decide_eq_true in Hm;
      simplify_eq; auto.
  - assert (¬ G pi ti) as HG.
    { apply (mismatch _ _ d); [done|done|]. intros c Hc. rewrite Hc in Hm.
      pose proof (lookup_lt_Some _ _ _ Hc). rewrite bool_decide_true in Hm by done.
      simpl in Hm. apply orb_false_iff in Hm as [H1 H2].
      apply bool_decide_eq_false in H1, H2. split; congruence. }
    specialize (Hback HG). destruct st as [[sp ts]|]; exact Hback.
Qed.

(** *** Termination

    Every step moves the pattern index forward, or the text start of the last
    star. *)
Definition wmeasure (s : wstate) : nat :=
  let '(pi, ti, st) := s in
  match st with
  | Some (_, ts) => length t - ts
  | None => S (length t)
  end * S (length p) + (length p - pi).

Lemma wstep_measure s s' :
  winv s → wstep p t s = Some (Some s') → wmeasure s' < wmeasure s.
Proof.
  destruct s as [[pi ti] st]. intros (Hp & Ht & Hst) Hs. unfold wstep in Hs.
  case_bool_decide as Hlt; [|done]. unfold p_at in Hs. case_bool_decide as Hstar.
  - injection Hs as <-. pose proof (lookup_lt_Some _ _ _ Hstar). simpl.
    destruct st as [[sp ts]|]; [|nia]. destruct Hst as (? & ? & ? & _). nia.
  - destruct (_ && _) eqn:Hm.
    + injection Hs as <-. apply andb_true_iff in Hm as [Hpl _].
      apply bool_decide_eq_true in Hpl. simpl. destruct st as [[sp ts]|]; lia.
    + destruct st as [[sp ts]|]; [|done]. injection Hs as <-. simpl.
      destruct Hst as (? & ? & ? & _). nia.
Qed.

Lemma wloop_spec fuel s :
  winv s → wmeasure s < fuel → ∃ b, wloop p t fuel s = Some b ∧ (b = true ↔ means s).
Proof.
  revert s. induction fuel as [|fuel IH]; intros s Hi Hf; [lia|]. simpl.
  pose proof (wstep_ok s Hi) as Hok. pose proof (wstep_measure s) as Hm.
  destruct (wstep p t s) as [[s'|]|].
  - destruct Hok as [Hi' Hok]. specialize (Hm s' Hi eq_refl).
    destruct (IH s' Hi') as (b & Hb & Heq); [lia|]. exists b. by rewrite Hok.
  - exists false. split; [done|]. naive_solver.
  - exists (skip_stars (drop s.1.1 p)). by rewrite Hok, glob_stars.
Qed.

Lemma wloop_total :
  ∃ b, wloop p t (wfuel p t) (0, 0, None) = Some b ∧ (b = true ↔ glob p t).
Proof.
  destruct (wloop_spec (wfuel p t) (0, 0, None)) as (b & Hb & Hm).
  - simpl. split_and!; [lia|lia|done].
  - simpl. unfold wfuel. nia.
  - exists b. split; [done|]. rewrite Hm. simpl. unfold G. rewrite !drop_0.
    naive_solver.
Qed.
End correct.

(** The whitelist matcher decides the glob semantics: for every pattern and
    text the loop ends, and it answers [true] exactly when the trimmed,
    lower-cased text is an instance of the trimmed, lower-cased pattern, where a
    star stands for any characters and a question mark for exactly one. *)
Theorem wildcard_match_correct (lower : str → str) (pattern text : str) :
  let p := lower (trim pattern) in
  let t := lower (trim text) in
  (∃ b, wloop p t (wfuel p t) (0, 0, None) = Some b)
  ∧ (wildcard_match lower pattern text = true ↔ glob p t).
Proof.
  cbv zeta. unfold wildcard_match.
  destruct (wloop_total (lower (trim pattern)) (lower (trim text))) as (b & -> & Hb).
  split; [eauto|exact Hb].
Qed.

(** The ID whitelist admits exactly the peers whose reported id, or the part
    of it before an [@], matches one of the listed patterns; an option with no
    pattern in it (blank entries do not count) admits everyone. *)
Theorem id_whitelist_allows_spec (lower : str → str) (opt my_id : str) :
  let l := parse_id_whitelist opt in
  id_whitelist_allows lower l my_id = true ↔
  (∀ w, w ∈ split_on (chr ",") opt → trim w = [])
  ∨ ∃ w, w ∈ split_on (chr ",") opt ∧ trim w ≠ [] ∧
      (glob (lower (trim (trim w))) (lower (trim my_id))
       ∨ glob (lower (trim (trim w))) (lower (trim (bare_id my_id)))).
Proof.
  cbv zeta. unfold id_whitelist_allows, parse_id_whitelist.
  destruct (filter _ _) as [|x l] eqn:Hl.
  - split; [|done]. intros _. left. intros w Hw.
    destruct (decide (trim w = [])) as [|Hne]; [done|].
    assert (trim w ∈ filter (λ x, x ≠ []) (trim <$> split_on (chr ",") opt)) as Hin.
    { apply list_elem_of_filter. split; [done|]. apply list_elem_of_fmap. eauto. }
    rewrite Hl in Hin. set_solver.
  - rewrite <- Hl. assert (x ∈ filter (λ x, x ≠ []) (trim <$> split_on (chr ",") opt)) as Hx
      by (rewrite Hl; left).
    rewrite existsb_exists. split.
    + intros (y & Hy & Hm). right. apply list_elem_of_In, list_elem_of_filter in Hy as [Hne Hy].
      apply list_elem_of_fmap in Hy as (w & -> & Hw). exists w. split; [done|]. split; [done|].
      apply orb_true_iff in Hm as [Hm|Hm]; apply wildcard_match_correct in Hm; auto.
    + intros [Hall|(w & Hw & Hne & Hm)].
      { apply list_elem_of_filter in Hx as [Hne Hx].
        apply list_elem_of_fmap in Hx as (w & -> & Hw). by rewrite (Hall w Hw) in Hne. }
      exists (trim w). split.
      * apply list_elem_of_In, list_elem_of_filter. split; [done|].
        apply list_elem_of_fmap. eauto.
      * apply orb_true_iff. destruct Hm as [Hm|Hm]; [left|right];
          by apply wildcard_match_correct.
Qed.

Example star_in_the_middle :
  wildcard_match id (lit " 12*4?6 ") (lit "12004x6") = true
  ∧ wildcard_match id (lit "12*4?6") (lit "1200466x") = false.
Proof. vm_compute. auto. Qed.
