(* ===== verification/LoginFailures.v ===== *)
(** * Throttling of failed logins

    [src/src/server/connection.rs]: the failure buckets ([bump_failure_entry],
    [update_failure_with_scope], [check_failure_with_scope],
    [check_failure_ipv6_prefix], [get_ipv6_prefixes], [decay_stale_failures],
    [clear_failures]), and [src/src/server/login_failure_check.rs]: the backoff
    for terminal OS logins. [Failures.step] runs the attempts of any number of
    connections with the steps their locks make. *)
From S2P Require Import Prelude.
Import Int.
Local Open Scope Z_scope.

Inductive FailureScope := DefaultScope | TerminalOsLogin.

Inductive AlarmAuditType :=
| IpWhitelist | ExceedThirtyAttempts | SixAttemptsWithinOneMinute
| ExceedIPv6PrefixAttempts | TerminalOsLoginBackoff | IdWhitelistAlarm.

(** ** Backoff of terminal OS logins *)
Module Backoff.
Definition IDLE_RESET_MS : Z := 120 * 60 * 1000.
Definition BASE_SECONDS : Z := 15.
Definition MAX_SECONDS : Z := 30 * 60.

Record state := mk {
  total_failures : Z;
  backoff_until_ms : option Z;
  last_failure_ms : option Z
}.
#[global] Instance state_eta : Eta state := λ s,
  mk (total_failures s) (backoff_until_ms s) (last_failure_ms s).
Definition init : state := mk 0 None None.

Definition is_os_credential_scope (scope : FailureScope) : bool :=
  match scope with TerminalOsLogin => true | DefaultScope => false end.
Definition backoff_audit_type_for_scope (scope : FailureScope) : option AlarmAuditType :=
  match scope with TerminalOsLogin => Some TerminalOsLoginBackoff | DefaultScope => None end.

Definition os_credential_login_backoff_seconds (total : Z) : Z :=
  if total <=? 2 then 0
  else let exp := Z.min (total - 3) 7 in Z.min (BASE_SECONDS * Z.shiftl 1 exp) MAX_SECONDS.

Definition normalize_backoff (s : state) (now : Z) : state :=
  match s.(backoff_until_ms) with
  | Some until => if until <=? now then s <| backoff_until_ms := None |> else s
  | None => s
  end.

Definition reset_totals_on_idle (s : state) (now : Z) : state :=
  match s.(last_failure_ms) with
  | Some last => if IDLE_RESET_MS <=? i64_saturating_sub now last then init else s
  | None => s
  end.

Record decision := mk_decision {
  allowed : bool;
  login_error : option str;
  audit : option AlarmAuditType
}.
Definition allow_decision : decision := mk_decision true None None.
Definition block_decision (e : str) (a : option AlarmAuditType) : decision :=
  mk_decision false (Some e) a.

Definition retry_message (remaining_seconds : Z) : str :=
  lit "Please try again in " ++ fmt_Z remaining_seconds
    ++ (if remaining_seconds =? 1 then lit " second." else lit " seconds.").

Definition evaluate (scope : FailureScope) (now : Z) (s : state) : decision * state :=
  if negb (is_os_credential_scope scope) then (allow_decision, s)
  else
    let s := normalize_backoff (reset_totals_on_idle s now) now in
    match s.(backoff_until_ms) with
    | Some until =>
        let remaining_ms := Z.max (wrap_i64 (until - now)) 0 in
        let remaining_seconds := Z.max (Z.quot (remaining_ms + 999) 1000) 1 in
        (block_decision (retry_message remaining_seconds)
           (backoff_audit_type_for_scope scope), s)
    | None => (allow_decision, s)
    end.

Definition record_failure (scope : FailureScope) (now : Z) (s : state) : state :=
  if negb (is_os_credential_scope scope) then s
  else
    let s := normalize_backoff (reset_totals_on_idle s now) now in
    let s := s <| total_failures := i32_saturating_add s.(total_failures) 1 |>
               <| last_failure_ms := Some now |> in
    let backoff_seconds := os_credential_login_backoff_seconds s.(total_failures) in
    if 0 <? backoff_seconds
    then s <| backoff_until_ms := Some (wrap_i64 (now + backoff_seconds * 1000)) |>
    else s.

(** Wall-clock milliseconds, well inside 64 bits. *)
Definition time_ok (t : Z) : Prop := 0 <= t <= 2 ^ 62.

Record wf (s : state) : Prop := {
  wf_total : 0 <= s.(total_failures) <= i32_max;
  wf_last : ∀ l, s.(last_failure_ms) = Some l → time_ok l;
  wf_until : ∀ u, s.(backoff_until_ms) = Some u → 2 < s.(total_failures)
}.

Lemma backoff_init_wf : wf init.
Proof. split; simpl; [unfold i32_max; lia|done|done]. Qed.

Lemma backoff_range n : 0 <= os_credential_login_backoff_seconds n <= MAX_SECONDS.
Proof.
  unfold os_credential_login_backoff_seconds, BASE_SECONDS, MAX_SECONDS.
  destruct (Z.leb_spec n 2); [lia|]. rewrite Z.shiftl_1_l.
  pose proof (Z.pow_nonneg 2 (Z.min (n - 3) 7)). lia.
Qed.

Lemma backoff_zero n : os_credential_login_backoff_seconds n = 0 ↔ n <= 2.
Proof.
  unfold os_credential_login_backoff_seconds, BASE_SECONDS, MAX_SECONDS.
  destruct (Z.leb_spec n 2); [lia|]. rewrite Z.shiftl_1_l.
  pose proof (Z.pow_pos_nonneg 2 (Z.min (n - 3) 7)). lia.
Qed.

Lemma backoff_monotone n m : n <= m →
  os_credential_login_backoff_seconds n <= os_credential_login_backoff_seconds m.
Proof.
  intros Hle. unfold os_credential_login_backoff_seconds, BASE_SECONDS, MAX_SECONDS.
  destruct (Z.leb_spec n 2), (Z.leb_spec m 2); try lia.
  - rewrite Z.shiftl_1_l. pose proof (Z.pow_nonneg 2 (Z.min (m - 3) 7)). lia.
  - rewrite !Z.shiftl_1_l.
    assert (2 ^ Z.min (n - 3) 7 <= 2 ^ Z.min (m - 3) 7) by (apply Z.pow_le_mono_r; lia). lia.
Qed.

Lemma normalize_wf s now : wf s → wf (normalize_backoff s now).
Proof.
  intros Hwf. unfold normalize_backoff. destruct (backoff_until_ms s) as [u|]; [|done].
  destruct (u <=? now); [|done]. destruct Hwf. by split.
Qed.
Lemma reset_wf s now : wf s → wf (reset_totals_on_idle s now).
Proof.
  intros Hwf. unfold reset_totals_on_idle. destruct (last_failure_ms s); [|done].
  destruct (_ <=? _); [exact backoff_init_wf|done].
Qed.

(** How many failures count at [now]: none after two idle hours. *)
Definition counted (s : state) (now : Z) : Z := (reset_totals_on_idle s now).(total_failures).

Lemma normalize_total s now : (normalize_backoff s now).(total_failures) = s.(total_failures).
Proof. unfold normalize_backoff. destruct (backoff_until_ms s); [by destruct (_ <=? _)|done]. Qed.

Lemma record_shape s now :
  wf s → time_ok now →
  let n := Z.min (counted s now + 1) i32_max in
  let b := os_credential_login_backoff_seconds n in
  let t := record_failure TerminalOsLogin now s in
  t.(total_failures) = n ∧ t.(last_failure_ms) = Some now
  ∧ t.(backoff_until_ms) = (if 0 <? b then Some (now + b * 1000) else None).
Proof.
  intros Hwf Hnow. cbv zeta. unfold record_failure. simpl.
  pose proof (normalize_wf _ now (reset_wf s now Hwf)) as [Ht Hl Hu].
  assert ((normalize_backoff (reset_totals_on_idle s now) now).(total_failures) = counted s now)
    as Hc by (by rewrite normalize_total).
  rewrite Hc in *. unfold i32_max in *.
  assert (i32_saturating_add (counted s now) 1 = Z.min (counted s now + 1) (2 ^ 31 - 1)) as Hn.
  { unfold i32_saturating_add, i32_min, i32_max. lia. }
  rewrite Hn. set (n := Z.min (counted s now + 1) (2 ^ 31 - 1)).
  pose proof (backoff_range n) as Hr. unfold MAX_SECONDS, time_ok in *.
  destruct (Z.ltb_spec 0 (os_credential_login_backoff_seconds n)) as [Hb|Hb]; simpl.
  - split_and!; try done. f_equal. unfold wrap_i64. rewrite Z.mod_small; lia.
  - split_and!; try done.
    destruct (backoff_until_ms _) as [u|] eqn:Hu'; [|done].
    specialize (Hu u eq_refl). assert (n <= 2) as Hn2 by (apply backoff_zero; lia). lia.
Qed.
End Backoff.

(** After a recorded failure the next terminal login is admitted exactly when
    the backoff is over: [n] consecutive failures (without two idle hours) cost
    nothing up to two and then 15 s doubled each time, at most 30 minutes; a
    refused attempt is told the seconds left, rounded up and never zero, and
    evaluating an attempt never shortens the wait. *)
Theorem backoff_admits (s : Backoff.state) (now later : Z) :
  Backoff.wf s → Backoff.time_ok now → Backoff.time_ok later → now <= later →
  let n := Z.min (Backoff.counted s now + 1) i32_max in
  let wait := 1000 * Backoff.os_credential_login_backoff_seconds n in
  let r := Backoff.evaluate TerminalOsLogin later (Backoff.record_failure TerminalOsLogin now s) in
  ((r.1).(Backoff.allowed) = true ↔ now + wait <= later)
  ∧ (later < now + wait →
      (r.1).(Backoff.login_error) = Some (Backoff.retry_message ((now + wait - later + 999) / 1000))
      ∧ r.2 = Backoff.record_failure TerminalOsLogin now s).
Proof.
  intros Hwf Hnow Hlater Hle. cbv zeta.
  destruct (Backoff.record_shape s now Hwf Hnow) as (Ht & Hl & Hu). cbv zeta in *.
  set (n := Z.min (Backoff.counted s now + 1) i32_max) in *.
  pose proof (Backoff.backoff_range n) as Hr. unfold Backoff.MAX_SECONDS in Hr.
  set (b := Backoff.os_credential_login_backoff_seconds n) in *.
  set (t := Backoff.record_failure TerminalOsLogin now s) in *.
  unfold Backoff.time_ok in *. unfold Backoff.evaluate. simpl.
  unfold Backoff.reset_totals_on_idle. rewrite Hl.
  assert (i64_saturating_sub later now = later - now) as ->.
  { unfold i64_saturating_sub, i64_min, i64_max. lia. }
  unfold Backoff.IDLE_RESET_MS. destruct (Z.leb_spec (120 * 60 * 1000) (later - now)); simpl.
  { split; [split; [lia|done]|lia]. }
  unfold Backoff.normalize_backoff. rewrite Hu.
  destruct (Z.ltb_spec 0 b); [|rewrite Hu; simpl; split; [split; [lia|done]|lia]].
  destruct (Z.leb_spec (now + b * 1000) later); simpl; [split; [split; [lia|done]|lia]|].
  rewrite Hu. simpl. split; [split; [done|lia]|]. intros _. split; [|done].
  do 2 f_equal. unfold wrap_i64. rewrite (Z.mod_small (_ - later + 2 ^ 63)) by lia.
  rewrite Z.quot_div_nonneg by lia. replace (1000 * b) with (b * 1000) by lia.
  lia.
Qed.

Lemma backoff_admits_witness :
  let s := Backoff.mk 3 None (Some 1000) in
  Backoff.wf s ∧
  ((Backoff.evaluate TerminalOsLogin 20000 (Backoff.record_failure TerminalOsLogin 5000 s)).1)
    .(Backoff.login_error) = Some (lit "Please try again in 15 seconds.").
Proof.
  cbv zeta. assert (Backoff.wf (Backoff.mk 3 None (Some 1000))) as Hwf.
  { split; simpl; [unfold i32_max; lia|intros ? [= <-]; unfold Backoff.time_ok; lia|done]. }
  split; [exact Hwf|].
  destruct (backoff_admits (Backoff.mk 3 None (Some 1000)) 5000 20000 Hwf) as [_ H];
    try (unfold Backoff.time_ok; lia).
  refine (proj1 (H _)). vm_compute. reflexivity.
Defined.

(** ** Failure buckets

    A bucket counts per address and per IPv6 prefix: the minute of the last
    failure, the failures of that minute, and all of them. *)
Module Failures.
Definition entry : Type := Z * Z * Z.
Abbreviation bucket := (gmap str entry).

Definition mask_u128 (addr prefix : Z) : Z :=
  let mask := if (prefix =? 0) || (128 <? prefix) then 0
              else Z.shiftl (2 ^ 128 - 1) (128 - prefix) mod 2 ^ 128 in
  Z.land addr mask.

Definition get (m : bucket) (k : str) : entry := default (0, 0, 0) (m !! k).

Definition bump_failure_entry (cur : entry) (time : Z) : entry :=
  let '(t, minute, total) := cur in
  if t =? time then (t, wrap_i32 (minute + 1), wrap_i32 (total + 1))
  else (time, 1, wrap_i32 (total + 1)).

Definition bump (time : Z) (m : bucket) (k : str) : bucket :=
  <[k := bump_failure_entry (get m k) time]> m.

Section ip.
(** [Ipv6Addr::from_str] and its [Display]. *)
Context (ipv6_from_str : str → option Z) (ipv6_to_string : Z → str).

Definition get_ipv6_prefixes (ip : str) : option (str * str * str) :=
  let ip_only := trim (hd ip (split_on (chr "%") ip)) in
  a ← ipv6_from_str ip_only;
  Some (ipv6_to_string (mask_u128 a 64) ++ lit "/64",
        ipv6_to_string (mask_u128 a 56) ++ lit "/56",
        ipv6_to_string (mask_u128 a 48) ++ lit "/48").

Definition failure_keys (ip : str) : list str :=
  ip :: match get_ipv6_prefixes ip with Some (p64, p56, p48) => [p64; p56; p48] | None => [] end.

(** [failure] is what [check_failure] read for the address. *)
Definition update_failure (m : bucket) (ip : str) (failure : entry) (time : Z) (remove : bool)
    : bucket :=
  if remove then
    if failure.1.1 =? 0 then m
    else match get_ipv6_prefixes ip with
         | Some (p64, p56, p48) => delete ip (delete p48 (delete p56 (delete p64 m)))
         | None => delete ip m
         end
  else
    match get_ipv6_prefixes ip with
    | Some (p64, p56, p48) => bump time (foldl (bump time) m [p64; p56; p48]) ip
    | None => bump time m ip
    end.

Definition update_failure_with_scope (now_ms : Z) (m : bucket) (b : Backoff.state)
    (scope : FailureScope) (ip : str) (failure : entry) (time : Z) (remove : bool)
    : bucket * Backoff.state :=
  match scope with
  | TerminalOsLogin => (m, if remove then b else Backoff.record_failure scope now_ms b)
  | DefaultScope => (update_failure m ip failure time remove, b)
  end.

Inductive refusal :=
| TooManyForPrefix (prefix_num : Z)
| TooManyWrong
| TryLater
| OsBackoff (message : str).

Definition refusal_message (r : refusal) : str :=
  match r with
  | TooManyForPrefix n => lit "Too many wrong attempts for IPv6 prefix /" ++ fmt_Z n
  | TooManyWrong => lit "Too many wrong attempts"
  | TryLater => lit "Please try 1 minute later"
  | OsBackoff m => m
  end.
Definition refusal_audit (r : refusal) : AlarmAuditType :=
  match r with
  | TooManyForPrefix _ => ExceedIPv6PrefixAttempts
  | TooManyWrong => ExceedThirtyAttempts
  | TryLater => SixAttemptsWithinOneMinute
  | OsBackoff _ => TerminalOsLoginBackoff
  end.

Definition check_failure_ipv6_prefix (m : bucket) (prefix : str) (prefix_num thresh : Z)
    : option (entry * refusal) :=
  let failure_prefix := get m prefix in
  if thresh <? failure_prefix.2 then Some (failure_prefix, TooManyForPrefix prefix_num) else None.

Definition first_some {A} (a b : option A) : option A := match a with Some _ => a | None => b end.

(** What the address's own entry says. *)
Definition check_failure_ip (m : bucket) (ip : str) (time : Z) : entry * option refusal :=
  let failure := get m ip in
  (failure,
   if 30 <? failure.2 then Some TooManyWrong
   else if (time =? failure.1.1) && (6 <? failure.1.2) then Some TryLater
   else None).

(** The entry read and why the attempt is refused, if it is. *)
Definition check_failure (m : bucket) (ip : str) (time : Z) : entry * option refusal :=
  let prefix_refusal :=
    match get_ipv6_prefixes ip with
    | Some (p64, p56, p48) =>
        first_some (check_failure_ipv6_prefix m p64 64 60)
          (first_some (check_failure_ipv6_prefix m p56 56 80)
             (check_failure_ipv6_prefix m p48 48 100))
    | None => None
    end in
  match prefix_refusal with
  | Some (f, r) => (f, Some r)
  | None => check_failure_ip m ip time
  end.

Definition check_failure_with_scope (now_ms : Z) (m : bucket) (b : Backoff.state)
    (scope : FailureScope) (ip : str) : entry * Z * option refusal * Backoff.state :=
  let time := wrap_i32 (Z.quot now_ms 60000) in
  match scope with
  | TerminalOsLogin =>
      let '(d, b) := Backoff.evaluate scope now_ms b in
      (0, 0, 0, time,
       if d.(Backoff.allowed) then None
       else OsBackoff <$> d.(Backoff.login_error), b)
  | DefaultScope => let '(f, r) := check_failure m ip time in (f, time, r, b)
  end.

Definition decay_stale_failures (m : bucket) (keys : list str) (now window : Z) : bucket :=
  foldl (λ m k, match m !! k with
                | Some v => if window <=? i32_saturating_sub now v.1.1 then delete k m else m
                | None => m
                end) m keys.

Definition clear_failures (m : bucket) (keys : list str) : bucket :=
  foldl (λ m k, delete k m) m keys.

(** ** Attempts of many connections at once

    Every look a check takes at the buckets is a lock of its own, and so is the
    record of a wrong password; the connections of other viewers run in between. *)
Record attempt := mk_attempt { from : str; minute : Z }.
Inductive look := PrefixLook (prefix : str) (prefix_num thresh : Z) | AddressLook.
#[global] Instance look_eq_dec : EqDecision look.
Proof. solve_decision. Defined.
(** The looks of [check_failure], in order. *)
Definition looks (ip : str) : list look :=
  match get_ipv6_prefixes ip with
  | Some (p64, p56, p48) => [PrefixLook p64 64 60; PrefixLook p56 56 80; PrefixLook p48 48 100]
  | None => []
  end ++ [AddressLook].
Definition look_key (ip : str) (l : look) : str := match l with PrefixLook p _ _ => p | AddressLook => ip end.
Definition look_limit (l : look) : Z := match l with PrefixLook _ _ thresh => thresh | AddressLook => 30 end.
Definition look_at (m : bucket) (a : attempt) (l : look) : entry * option refusal :=
  match l with
  | PrefixLook p n thresh =>
      match check_failure_ipv6_prefix m p n thresh with Some (f, r) => (f, Some r) | None => (get m p, None) end
  | AddressLook => check_failure_ip m a.(from) a.(minute)
  end.

(** An attempt under way: the looks still to take, the entry read last. *)
Record flight := mk_flight { att : attempt; todo : list look; failure : entry }.
(** The buckets, the attempts under way and the wrong passwords recorded, oldest first. *)
Record state := mk_state { entries : bucket; flying : list flight; recorded : list attempt }.
Inductive event := Begin (a : attempt) | Look (i : nat) | Wrong (i : nat).
Definition step (s : state) (e : event) : state :=
  match e with
  | Begin a => mk_state (entries s) (flying s ++ [mk_flight a (looks a.(from)) (0, 0, 0)]) (recorded s)
  | Look i =>
      match flying s !! i with
      | Some (mk_flight a (l :: ls) f) =>
          match look_at (entries s) a l with
          | (f, None) => mk_state (entries s) (<[i := mk_flight a ls f]> (flying s)) (recorded s)
          | (_, Some _) => mk_state (entries s) (delete i (flying s)) (recorded s)
          end
      | _ => s
      end
  | Wrong i =>
      match flying s !! i with
      | Some (mk_flight a [] f) =>
          mk_state (update_failure (entries s) a.(from) f a.(minute) false) (delete i (flying s)) (recorded s ++ [a])
      | _ => s
      end
  end.
Definition start : state := mk_state ∅ [] [].
Definition run (evs : list event) : state := foldl step start evs.
(** The wrong attempts whose password was looked at: recorded, or with every look taken. *)
Definition looked_through (f : flight) : bool := match todo f with [] => true | _ => false end.
Definition let_through (s : state) : list attempt := recorded s ++ (att <$> filter looked_through (flying s)).
Fixpoint throughout (P : state → Prop) (s : state) (evs : list event) : Prop :=
  P s ∧ match evs with [] => True | e :: evs' => throughout P (step s e) evs' end.
Fixpoint throughoutb (p : state → bool) (s : state) (evs : list event) : bool :=
  p s && match evs with [] => true | e :: evs' => throughoutb p (step s e) evs' end.
Lemma throughoutb_spec p (P : state → Prop) s evs : (∀ s, p s = true → P s) → throughoutb p s evs = true → throughout P s evs.
Proof.
  intros Hp. revert s. induction evs as [|e evs IH]; intros s; cbn; rewrite andb_true_iff; intros [Hs Ht]; split; auto.
Qed.
Definition begun (evs : list event) : list attempt :=
  omap (λ e, match e with Begin a => Some a | _ => None end) evs.

(** [check_failure] takes the looks one after another. *)
Lemma check_failure_looks m a :
  (check_failure m a.(from) a.(minute)).2
  = foldr (λ l r, first_some (look_at m a l).2 r) None (looks a.(from)).
Proof.
  unfold check_failure, looks, check_failure_ipv6_prefix. destruct (get_ipv6_prefixes _) as [[[p64 p56] p48]|]; cbn.
  - unfold check_failure_ipv6_prefix. destruct (60 <? _); [done|]. destruct (80 <? _); [done|]. destruct (100 <? _); [done|].
    cbn. by destruct (if 30 <? _ then _ else _).
  - by destruct (if 30 <? _ then _ else _).
Qed.

(** ** What the counters mean *)
Definition charged (k : str) (a : attempt) : Prop := k ∈ failure_keys a.(from).
#[global] Instance charged_dec k a : Decision (charged k a).
Proof. unfold charged. apply _. Defined.
Definition in_minute (k : str) (t : Z) (a : attempt) : Prop := charged k a ∧ a.(minute) = t.
#[global] Instance in_minute_dec k t a : Decision (in_minute k t a).
Proof. unfold in_minute. apply _. Defined.
Definition count {A} (P : A → Prop) `{∀ a, Decision (P a)} (h : list A) : Z :=
  Z.of_nat (length (filter P h)).

Lemma count_app {A} (P : A → Prop) `{∀ a, Decision (P a)} h h' : count P (h ++ h') = count P h + count P h'.
Proof. unfold count. rewrite filter_app, length_app. lia. Qed.
Lemma count_cons {A} (P : A → Prop) `{∀ a, Decision (P a)} h a :
  count P (a :: h) = (if decide (P a) then 1 else 0) + count P h.
Proof. unfold count. rewrite filter_cons. destruct (decide (P a)); simpl; lia. Qed.
Lemma count_snoc {A} (P : A → Prop) `{∀ a, Decision (P a)} h a :
  count P (h ++ [a]) = count P h + (if decide (P a) then 1 else 0).
Proof. rewrite count_app, count_cons. unfold count at 2. simpl. lia. Qed.
Lemma count_length {A} (P : A → Prop) `{∀ a, Decision (P a)} h : 0 <= count P h <= Z.of_nat (length h).
Proof. unfold count. pose proof (length_filter P h). lia. Qed.
Lemma count_delete {A} (P : A → Prop) `{∀ a, Decision (P a)} h i a : h !! i = Some a →
  count P h = count P (delete i h) + (if decide (P a) then 1 else 0).
Proof.
  intros Hi. rewrite <- (take_drop_middle h i a Hi) at 1. rewrite delete_take_drop, !count_app, count_cons. lia.
Qed.
Lemma count_insert {A} (P : A → Prop) `{∀ a, Decision (P a)} h i a a' : h !! i = Some a →
  count P (<[i := a']> h) + (if decide (P a) then 1 else 0) = count P h + (if decide (P a') then 1 else 0).
Proof.
  intros Hi. rewrite insert_take_drop by (by eapply lookup_lt_Some).
  rewrite <- (take_drop_middle h i a Hi) at 3. rewrite !count_app, !count_cons. lia.
Qed.
Lemma count_fmap {A B} (g : A → B) (P : B → Prop) `{∀ a, Decision (P a)} h : count P (g <$> h) = count (λ a, P (g a)) h.
Proof. induction h as [|a h IH]; [done|]. rewrite fmap_cons, !count_cons, IH. done. Qed.
Lemma count_filter {A} (P Q R : A → Prop) `{∀ a, Decision (P a), ∀ a, Decision (Q a), ∀ a, Decision (R a)} h :
  (∀ a, P a → Q a → R a) → count P (filter Q h) <= count R h.
Proof.
  intros HR. induction h as [|a h IH]; [done|]. rewrite filter_cons, count_cons.
  destruct (decide (Q a)) as [Hq|]; [rewrite count_cons|]; destruct (decide (R a)) as [|Hr]; try lia;
    [destruct (decide (P a)); lia|]. rewrite decide_False by auto. lia.
Qed.
Lemma count_mono {A} (P Q : A → Prop) `{∀ a, Decision (P a), ∀ a, Decision (Q a)} h :
  (∀ a, P a → Q a) → count P h <= count Q h.
Proof.
  intros HPQ. induction h as [|a h IH]; [done|]. rewrite !count_cons.
  destruct (decide (P a)) as [Hp|]; [rewrite decide_True by auto|destruct (decide (Q a))]; lia.
Qed.
Lemma count_none {A} (P : A → Prop) `{∀ a, Decision (P a)} h : (∀ a, a ∈ h → ¬ P a) → count P h = 0.
Proof.
  intros Hn. induction h as [|a h IH]; [done|]. rewrite count_cons, decide_False by (apply Hn; left).
  rewrite IH; [done|]. intros b Hb. apply Hn. by right.
Qed.

(** The keys of one attempt are bumped in turn; a bump adds one to its key. *)
Definition bumped_keys (ip : str) : list str :=
  match get_ipv6_prefixes ip with Some (p64, p56, p48) => [p64; p56; p48; ip] | None => [ip] end.

Lemma update_bumps m ip f time :
  update_failure m ip f time false = foldl (bump time) m (bumped_keys ip).
Proof. unfold update_failure, bumped_keys. by destruct (get_ipv6_prefixes ip) as [[[? ?] ?]|]. Qed.

Lemma bumped_charged ip k : k ∈ bumped_keys ip ↔ k ∈ failure_keys ip.
Proof.
  unfold bumped_keys, failure_keys. destruct (get_ipv6_prefixes ip) as [[[? ?] ?]|]; set_solver.
Qed.

Lemma get_bump m k time j :
  get (bump time m k) j = if decide (j = k) then bump_failure_entry (get m k) time else get m j.
Proof.
  unfold get at 1, bump. case_decide as Hj; [subst; by rewrite lookup_insert_eq|].
  by rewrite lookup_insert_ne.
Qed.

(** How a run of bumps at one minute moves one entry. *)
Lemma get_bumps ks m time j :
  (get m j).2 + Z.of_nat (length ks) <= i32_max → 0 <= (get m j).2 →
  (get m j).1.2 + Z.of_nat (length ks) <= i32_max → 0 <= (get m j).1.2 →
  let e := get (foldl (bump time) m ks) j in
  (get m j).2 <= e.2 <= (get m j).2 + Z.of_nat (length ks)
  ∧ ((get m j).1.2 <= (get m j).2 → e.1.2 <= e.2)
  ∧ (j ∉ ks → e = get m j)
  ∧ (j ∈ ks → (get m j).2 + 1 <= e.2 ∧ e.1.1 = time ∧ 1 <= e.1.2 <= (get m j).1.2 + Z.of_nat (length ks)
       ∧ ((get m j).1.1 = time → (get m j).1.2 + 1 <= e.1.2)).
Proof.
  revert m. induction ks as [|k ks IH]; intros m H2 H2' H1 H1'; simpl length in *.
  { simpl. split; [lia|]. split; [done|]. split; [done|set_solver]. }
  simpl. set (m' := bump time m k).
  assert (get m' j = if decide (j = k) then bump_failure_entry (get m k) time else get m j) as Hj
    by apply get_bump.
  destruct (decide (j = k)) as [->|Hne].
  - destruct (get m k) as [[t mi] tot] eqn:Hg. simpl in *.
    assert (get m' k = (time, (if t =? time then mi + 1 else 1), tot + 1)) as Hg'.
    { rewrite Hj. unfold bump_failure_entry.
      rewrite !wrap_i32_id by (int_unfold; lia).
      destruct (Z.eqb_spec t time) as [->|]; done. }
    specialize (IH m'). rewrite Hg' in IH. simpl in IH.
    destruct IH as (Hb & Hle & Hno & Hin);
      [lia|lia|destruct (_ =? _); lia|destruct (_ =? _); lia|].
    split; [lia|]. split; [intros; apply Hle; destruct (_ =? _); lia|].
    split; [set_solver|]. intros _.
    destruct (decide (k ∈ ks)) as [Hk|Hk].
    + destruct (Hin Hk) as (? & ? & ? & ?). revert H3 H4. destruct (Z.eqb_spec t time); intros;
        split_and!; try lia; try done.
    + rewrite (Hno Hk). simpl. destruct (Z.eqb_spec t time); split_and!; try lia; done.
  - destruct (IH m') as (Hb & Hle & Hno & Hin); [rewrite Hj; lia..|]. rewrite Hj in *.
    split; [lia|]. split; [done|]. split; [set_solver|].
    intros [?|Hk]%elem_of_cons; [done|]. destruct (Hin Hk) as (? & ? & ? & ?).
    split; [lia|]. split; [done|]. split; [lia|]. intros Ht. specialize (H4 Ht). lia.
Qed.

(** The prefix keys of an address. *)
Definition prefix_key (n : Z) (ip : str) : option str :=
  '(p64, p56, p48) ← get_ipv6_prefixes ip;
  Some (if n =? 64 then p64 else if n =? 56 then p56 else p48).
Definition sent_from (ip : str) (a : attempt) : Prop := a.(from) = ip.
Definition sent_in (n : Z) (p : str) (a : attempt) : Prop := prefix_key n a.(from) = Some p.
#[global] Instance sent_from_dec ip a : Decision (sent_from ip a).
Proof. unfold sent_from. apply _. Defined.
Definition from_in (ip : str) (t : Z) (a : attempt) : Prop := a.(from) = ip ∧ a.(minute) = t.
#[global] Instance from_in_dec ip t a : Decision (from_in ip t a).
Proof. unfold from_in. apply _. Defined.
#[global] Instance sent_in_dec n p a : Decision (sent_in n p a).
Proof. unfold sent_in. apply _. Defined.

Lemma sent_from_charged ip a : sent_from ip a → charged ip a.
Proof. intros <-. unfold charged, failure_keys. left. Qed.
Lemma sent_in_charged n p a : sent_in n p a → charged p a.
Proof.
  unfold sent_in, prefix_key, charged, failure_keys.
  destruct (get_ipv6_prefixes _) as [[[p64 p56] p48]|]; simpl; [|done].
  intros [= <-]. destruct (n =? 64), (n =? 56); set_solver.
Qed.

(** A key is charged by an attempt exactly when its check looks at it. *)
Lemma charged_look k a : charged k a ↔ ∃ l, l ∈ looks a.(from) ∧ look_key a.(from) l = k.
Proof.
  unfold charged, failure_keys, looks. destruct (get_ipv6_prefixes _) as [[[p64 p56] p48]|]; cbn; split.
  - rewrite !elem_of_cons, elem_of_nil. intros [->|[->|[->|[->|[]]]]];
      [exists AddressLook|exists (PrefixLook p64 64 60)|exists (PrefixLook p56 56 80)|exists (PrefixLook p48 48 100)];
      (split; [set_solver|done]).
  - intros (l & Hl & <-). rewrite !elem_of_cons, elem_of_nil in Hl. destruct Hl as [->|[->|[->|[->|[]]]]]; cbn; set_solver.
  - intros ->%list_elem_of_singleton. exists AddressLook. split; [set_solver|done].
  - intros (l & ->%list_elem_of_singleton & <-). cbn. set_solver.
Qed.
Lemma look_limits ip l : l ∈ looks ip → look_limit l <= 100.
Proof.
  unfold looks. destruct (get_ipv6_prefixes _) as [[[p64 p56] p48]|]; cbn; rewrite !elem_of_cons, elem_of_nil;
    intros Hl; destruct_or? Hl; subst; cbn; (lia || done).
Qed.
Lemma look_passed m a l f : look_at m a l = (f, None) →
  (get m (look_key a.(from) l)).2 <= look_limit l
  ∧ (l = AddressLook → a.(minute) = (get m a.(from)).1.1 → (get m a.(from)).1.2 <= 6).
Proof.
  destruct l as [p n th|]; cbn; unfold check_failure_ipv6_prefix, check_failure_ip.
  - destruct (Z.ltb_spec th (get m p).2); [done|]. done.
  - destruct (Z.ltb_spec 30 (get m (from a)).2); [done|].
    destruct (Z.eqb_spec (minute a) (get m (from a)).1.1), (Z.ltb_spec 6 (get m (from a)).1.2); cbn; intros [= <-]; split; lia.
Qed.

(** Attempts whose check looks at one key in one way. *)
Definition class (P : attempt → Prop) (l : look) (k : str) : Prop :=
  0 <= look_limit l ∧ ∀ a, P a → l ∈ looks a.(from) ∧ look_key a.(from) l = k.
Lemma address_class ip : class (sent_from ip) AddressLook ip.
Proof.
  split; [done|]. intros a <-. split; [|done]. unfold looks. apply elem_of_app. right. by left.
Qed.
Lemma prefix_class n thresh p : (n, thresh) ∈ [(64, 60); (56, 80); (48, 100)] →
  class (sent_in n p) (PrefixLook p n thresh) p.
Proof.
  intros Hn. rewrite !elem_of_cons, elem_of_nil in Hn. split; [destruct_or? Hn; simplify_eq; cbn; done|].
  intros a Ha. split; [|done]. unfold sent_in, prefix_key, looks in *.
  destruct (get_ipv6_prefixes _) as [[[p64 p56] p48]|]; cbn in *; [|done].
  injection Ha as <-. destruct_or? Hn; simplify_eq; cbn; set_solver.
Qed.

(** ** The invariant *)
Section crowd.
Context (crowd : Z).
(** Every look at the key is behind it. *)
Definition past_key (k : str) (f : flight) : Prop :=
  charged k (att f) ∧ Forall (λ l, look_key (att f).(from) l ≠ k) (todo f).
#[global] Instance past_key_dec k f : Decision (past_key k f).
Proof. unfold past_key. apply _. Defined.
Definition past_look (P : attempt → Prop) (l : look) (f : flight) : Prop := P (att f) ∧ l ∉ todo f.
#[global] Instance past_look_dec P `{∀ a, Decision (P a)} l f : Decision (past_look P l f).
Proof. unfold past_look. apply _. Defined.
Record inv (s : state) : Prop := {
  inv_total : ∀ k, count (charged k) (recorded s) <= (get (entries s) k).2;
  inv_minute : ∀ k, 0 <= (get (entries s) k).1.2 <= (get (entries s) k).2;
  inv_range : ∀ k, (get (entries s) k).2 + 4 * count (past_key k) (flying s) <= 100 + 4 * crowd;
  inv_todo : ∀ f, f ∈ flying s → todo f ⊆ looks (att f).(from);
  inv_class : ∀ P `{∀ a, Decision (P a)} l k, class P l k →
    count P (recorded s) + count (past_look P l) (flying s) <= look_limit l + crowd
}.

Lemma class_charged P l k a : class P l k → P a → charged k a.
Proof. intros [_ Hc] Ha. destruct (Hc a Ha) as [? <-]. apply charged_look. eauto. Qed.
Lemma class_count P `{∀ a, Decision (P a)} l k s : inv s → class P l k → count P (recorded s) <= (get (entries s) k).2.
Proof. intros Hi Hc. etransitivity; [|apply (inv_total _ Hi k)]. apply count_mono. intros a. by eapply class_charged. Qed.

Lemma begin_inv s a : inv s → inv (step s (Begin a)).
Proof.
  intros [Ht Hm Hr Htd Hc]. split; cbn; try done.
  - intros k. rewrite count_snoc, decide_False; [specialize (Hr k); lia|]. intros [(l & Hl & Hk)%charged_look Hf].
    rewrite Forall_forall in Hf. by apply (Hf l Hl).
  - intros f [?| ->%list_elem_of_singleton]%elem_of_app; [by apply Htd|done].
  - intros P Hd l k Hcl. rewrite count_snoc, decide_False; [specialize (Hc P Hd l k Hcl); lia|].
    intros [Hp Hn]. by apply Hn, (proj2 Hcl).
Qed.
Lemma drop_inv s i f : inv s → flying s !! i = Some f →
  inv (mk_state (entries s) (delete i (flying s)) (recorded s)).
Proof.
  intros [Ht Hm Hr Htd Hc] Hi. split; cbn; try done.
  - intros k. specialize (Hr k). rewrite (count_delete _ _ _ _ Hi) in Hr. destruct (decide _); lia.
  - intros g Hg. apply Htd. apply list_elem_of_lookup_1 in Hg as [j Hj]. apply list_elem_of_lookup.
    destruct (decide (j < i)%nat); [exists j; by rewrite list_lookup_delete_lt in Hj|exists (S j); by rewrite list_lookup_delete_ge in Hj by lia].
  - intros P Hd l k Hcl. specialize (Hc P Hd l k Hcl). rewrite (count_delete _ _ _ _ Hi) in Hc. destruct (decide _); lia.
Qed.
Lemma look_inv s i a l ls f f' : inv s → Z.of_nat (length (flying s)) <= crowd →
  flying s !! i = Some (mk_flight a (l :: ls) f) → look_at (entries s) a l = (f', None) →
  inv (mk_state (entries s) (<[i := mk_flight a ls f']> (flying s)) (recorded s)).
Proof.
  intros Hinv Hlen Hi Hl. pose proof (look_passed _ _ _ _ Hl) as [Hlim _].
  assert (l :: ls ⊆ looks (from a)) as Hsub by (apply (inv_todo _ Hinv (mk_flight a (l :: ls) f)); by eapply list_elem_of_lookup_2).
  assert (∀ (Q : flight → Prop) `{∀ x, Decision (Q x)}, count Q (<[i := mk_flight a ls f']> (flying s)) <= crowd) as Hle.
  { intros Q HQ. pose proof (count_length Q (<[i := mk_flight a ls f']> (flying s))) as Hb. rewrite length_insert in Hb. lia. }
  pose proof Hinv as [Ht Hm Hr Htd Hc]. split; cbn; try done.
  - intros k. destruct (decide (look_key (from a) l = k)) as [<-|Hne].
    { specialize (Hle (past_key (look_key (from a) l)) _). pose proof (look_limits (from a) l ltac:(set_solver)). lia. }
    specialize (Hr k). pose proof (count_insert (past_key k) _ i _ (mk_flight a ls f') Hi) as Hci.
    destruct (decide (past_key k (mk_flight a ls f'))) as [[Hk Hf]|]; [|destruct (decide _); lia].
    rewrite decide_True in Hci; [lia|]. split; [done|]. by constructor.
  - intros g [j [(_ & <- & _)|[_ Hj]]%list_lookup_insert_Some]%list_elem_of_lookup; [cbn; set_solver|]. apply Htd. by eapply list_elem_of_lookup_2.
  - intros P Hd l0 k Hcl. pose proof (count_insert (past_look P l0) _ i _ (mk_flight a ls f') Hi) as Hci.
    pose proof (Hc P Hd l0 k Hcl) as Hb.
    destruct (decide (past_look P l0 (mk_flight a ls f'))) as [[Hp Hn]|]; [|destruct (decide _); lia].
    destruct (decide (l = l0)) as [->|Hne].
    + pose proof (class_count P l0 k s Hinv Hcl). destruct (proj2 Hcl a Hp) as [_ Hk]. rewrite Hk in Hlim.
      specialize (Hle (past_look P l0) _). lia.
    + rewrite decide_True in Hci; [lia|]. split; [done|]. cbn in *. set_solver.
Qed.
(** What recording a wrong password makes of an entry. *)
Lemma update_entry m a f k : let e := get m k in let e' := get (update_failure m a.(from) f a.(minute) false) k in
  0 <= e.1.2 <= e.2 → e.2 + 4 <= i32_max →
  (charged k a → e.2 + 1 <= e'.2 <= e.2 + 4 ∧ e'.1.1 = a.(minute) ∧ 1 <= e'.1.2 <= e'.2
    ∧ (e.1.1 = a.(minute) → e.1.2 + 1 <= e'.1.2))
  ∧ (¬ charged k a → e' = e).
Proof.
  cbv zeta. intros Hm Hr. rewrite update_bumps.
  assert (Z.of_nat (length (bumped_keys (from a))) <= 4) as H4
    by (unfold bumped_keys; destruct (get_ipv6_prefixes _) as [[[? ?] ?]|]; cbn; lia).
  destruct (get_bumps (bumped_keys (from a)) m (minute a) k) as (Hb & Hle & Hno & Hin); try lia.
  specialize (Hle ltac:(lia)). rewrite bumped_charged in Hno, Hin. fold (charged k a) in Hno, Hin. split; [|exact Hno].
  intros Hc. destruct (Hin Hc) as (H1 & H2 & H3 & H5). split_and!; try lia; auto.
Qed.
Lemma wrong_inv s i a f : inv s → crowd <= 2 ^ 28 → flying s !! i = Some (mk_flight a [] f) → inv (step s (Wrong i)).
Proof.
  intros Hinv Hcrowd Hi. pose proof (drop_inv _ _ _ Hinv Hi) as [_ _ _ Htd _]. cbn in Htd.
  pose proof Hinv as [Ht Hm Hr _ Hc]. cbn [step]. rewrite Hi.
  assert (∀ k, (get (entries s) k).2 + 4 <= i32_max) as Hmax.
  { intros k. specialize (Hr k). pose proof (count_length (past_key k) (flying s)). unfold i32_max. lia. }
  split; cbn [entries flying recorded]; [..|exact Htd|].
  - intros k. destruct (update_entry (entries s) a f k (Hm k) (Hmax k)) as [Hin Hno]. rewrite count_snoc. specialize (Ht k).
    destruct (decide _) as [Hk|Hk]; [destruct (Hin Hk) as (? & _); lia|rewrite (Hno Hk); lia].
  - intros k. destruct (update_entry (entries s) a f k (Hm k) (Hmax k)) as [Hin Hno]. specialize (Hm k).
    destruct (decide (charged k a)) as [Hk|Hk]; [destruct (Hin Hk) as (? & _ & ? & _); lia|rewrite (Hno Hk); lia].
  - intros k. destruct (update_entry (entries s) a f k (Hm k) (Hmax k)) as [Hin Hno]. specialize (Hr k).
    rewrite (count_delete _ _ _ _ Hi) in Hr. destruct (decide (charged k a)) as [Hk|Hk].
    + rewrite decide_True in Hr by done. destruct (Hin Hk) as (? & _). lia.
    + rewrite (Hno Hk). destruct (decide _); lia.
  - intros P Hd l k Hcl. specialize (Hc P Hd l k Hcl). rewrite (count_delete _ _ _ _ Hi) in Hc. rewrite count_snoc.
    destruct (decide (P a)) as [Hp|]; [|destruct (decide (past_look _ _ _)); lia].
    rewrite decide_True in Hc; [lia|]. split; [done|]. apply not_elem_of_nil.
Qed.
Lemma step_inv s e : inv s → Z.of_nat (length (flying s)) <= crowd <= 2 ^ 28 → inv (step s e).
Proof.
  intros Hinv Hlen. destruct e as [a|i|i]; [by apply begin_inv| |]; cbn [step];
    destruct (flying s !! i) as [[a [|l ls] f]|] eqn:Hi; try done.
  - destruct (look_at (entries s) a l) as [f' [r|]] eqn:Hl; [by eapply drop_inv|]. eapply look_inv; [done|lia|done..].
  - pose proof (wrong_inv s i a f Hinv ltac:(lia) Hi) as Hw. cbn [step] in Hw. by rewrite Hi in Hw.
Qed.
Lemma get_empty k : get ∅ k = (0, 0, 0).
Proof. unfold get. by rewrite lookup_empty. Qed.
Lemma failures_start_inv : 0 <= crowd → inv start.
Proof.
  intros H0. split; cbn; intros; rewrite ?get_empty; unfold count; cbn; try lia; [by apply elem_of_nil in H|].
  match goal with H : class _ _ _ |- _ => destruct H end. lia.
Qed.
Definition crowded (s : state) : Prop := Z.of_nat (length (flying s)) <= crowd.
Lemma throughout_now P s evs : throughout P s evs → P s.
Proof. destruct evs; by intros [? _]. Qed.
Lemma failures_run_inv evs s : inv s → crowd <= 2 ^ 28 → throughout crowded s evs → inv (foldl step s evs).
Proof.
  revert s. induction evs as [|e evs IH]; intros s Hinv Hc [Hs Ht]; [done|]. apply IH; [by apply step_inv|done..].
Qed.
(** What is let through from a class of attempts. *)
Lemma class_let_through P `{∀ a, Decision (P a)} l k s : inv s → class P l k → count P (let_through s) <= look_limit l + crowd.
Proof.
  intros Hinv Hcl. pose proof (inv_class _ Hinv P l k Hcl) as Hc. unfold let_through. rewrite count_app, count_fmap.
  assert (count (λ f, P (att f)) (filter looked_through (flying s)) <= count (past_look P l) (flying s)); [|lia].
  apply count_filter. intros [a [|] f] Hp Hd; [|done]. split; [done|apply not_elem_of_nil].
Qed.
(** ** The minute *)
(** All attempts that charge the key and are under way began in the same minute. *)
Definition one_minute (k : str) (s : state) : Prop :=
  Forall (λ f, Forall (λ g, charged k (att f) → charged k (att g) → (att f).(minute) = (att g).(minute)) (flying s)) (flying s).
Record minutes (k : str) (now : Z) (s : state) : Prop := {
  min_count : count (in_minute k (get (entries s) k).1.1) (recorded s) <= (get (entries s) k).1.2;
  min_past : ∀ b, b ∈ recorded s → charged k b → b.(minute) <= (get (entries s) k).1.1;
  min_flying : ∀ f, f ∈ flying s → charged k (att f) → (get (entries s) k).1.1 <= (att f).(minute) <= now;
  min_now : (get (entries s) k).1.1 <= now;
  min_bound : ∀ t, count (from_in k t) (recorded s) + count (past_look (from_in k t) AddressLook) (flying s) <= 6 + crowd
}.
Lemma from_charged k t a : from_in k t a → in_minute k t a.
Proof. intros [Hf <-]. split; [by apply sent_from_charged|done]. Qed.
Lemma no_minute k now s t : minutes k now s → (get (entries s) k).1.1 < t → count (in_minute k t) (recorded s) = 0.
Proof. intros Hm Ht. apply count_none. intros b Hb [Hc Hbt]. pose proof (min_past _ _ _ Hm b Hb Hc). lia. Qed.
Lemma begin_minutes k now s a : minutes k now s → now <= a.(minute) → minutes k a.(minute) (step s (Begin a)).
Proof.
  intros [Hc Hp Hf Hn Hb] Ht. split; cbn [step entries flying recorded]; [done|done| |lia|].
  - intros f [Hi| ->%list_elem_of_singleton]%elem_of_app Hk; [specialize (Hf f Hi Hk)|cbn]; lia.
  - intros t. rewrite count_snoc, decide_False; [specialize (Hb t); lia|]. intros [[<- _] Hno]. apply Hno, (address_class a.(from)). done.
Qed.
Lemma drop_minutes k now s i f : minutes k now s → flying s !! i = Some f →
  minutes k now (mk_state (entries s) (delete i (flying s)) (recorded s)).
Proof.
  intros [Hc Hp Hf Hn Hb] Hi. split; cbn [entries flying recorded]; [done|done| |done|].
  - intros g Hg%list_elem_of_delete_inv. by apply Hf.
  - intros t. specialize (Hb t). rewrite (count_delete _ _ _ _ Hi) in Hb. destruct (decide _); lia.
Qed.
Lemma look_minutes k now s i a l ls f f' : minutes k now s → crowded s →
  flying s !! i = Some (mk_flight a (l :: ls) f) → look_at (entries s) a l = (f', None) →
  minutes k now (mk_state (entries s) (<[i := mk_flight a ls f']> (flying s)) (recorded s)).
Proof.
  intros Hm Hlen Hi Hl. pose proof (look_passed _ _ _ _ Hl) as [_ Hlim]. unfold crowded in Hlen.
  pose proof Hm as [Hc Hp Hf Hn Hb]. split; cbn [entries flying recorded]; [done|done| |done|].
  - intros g [j [(_ & <- & _)|[_ Hj]]%list_lookup_insert_Some]%list_elem_of_lookup.
    + apply (Hf (mk_flight a (l :: ls) f)). by eapply list_elem_of_lookup_2.
    + apply Hf. by eapply list_elem_of_lookup_2.
  - intros t. pose proof (count_insert (past_look (from_in k t) AddressLook) _ i _ (mk_flight a ls f') Hi) as Hci. specialize (Hb t).
    destruct (decide (past_look _ _ (mk_flight a ls f'))) as [[[Hk Ht] Hno]|]; [|destruct (decide _); lia]. cbn in Hk, Ht.
    destruct (decide (l = AddressLook)) as [->|Hne].
    + pose proof (count_length (past_look (from_in k t) AddressLook) (<[i := mk_flight a ls f']> (flying s))) as Hle. rewrite length_insert in Hle.
      assert (count (from_in k t) (recorded s) <= 6); [|lia]. etransitivity; [apply (count_mono _ (in_minute k t)), from_charged|].
      assert ((get (entries s) k).1.1 <= t) as Hle'.
      { rewrite <- Ht. apply (Hf (mk_flight a (AddressLook :: ls) f)); [by eapply list_elem_of_lookup_2|by apply sent_from_charged]. }
      destruct (decide ((get (entries s) k).1.1 = t)) as [He|]; [|rewrite (no_minute k now); [lia|done|lia]].
      rewrite Hk in Hlim. specialize (Hlim eq_refl ltac:(lia)). rewrite He in Hc. lia.
    + rewrite decide_True in Hci; [lia|]. split; [done|]. cbn in *. set_solver.
Qed.
Lemma wrong_minutes k now s i a f : inv s → crowd <= 2 ^ 28 → minutes k now s → one_minute k s →
  flying s !! i = Some (mk_flight a [] f) → minutes k now (step s (Wrong i)).
Proof.
  unfold one_minute. setoid_rewrite Forall_forall. setoid_rewrite Forall_forall. intros Hinv Hcrowd Hm Hone Hi. pose proof Hm as [Hc Hp Hf Hn Hb].
  assert (mk_flight a [] f ∈ flying s) as Hin by (by eapply list_elem_of_lookup_2).
  cbn [step]. rewrite Hi. pose proof (inv_range _ Hinv k) as Hr. pose proof (count_length (past_key k) (flying s)) as Hlen.
  destruct (update_entry (entries s) a f k (inv_minute _ Hinv k) ltac:(unfold i32_max; lia)) as [Hch Hno].
  assert (∀ t, count (from_in k t) (recorded s ++ [a]) + count (past_look (from_in k t) AddressLook) (delete i (flying s)) <= 6 + crowd) as Hb'.
  { intros t. specialize (Hb t). rewrite (count_delete _ _ _ _ Hi) in Hb. rewrite count_snoc.
    destruct (decide (from_in k t a)); [|destruct (decide (past_look _ _ _)); lia].
    rewrite decide_True in Hb; [lia|]. split; [done|apply not_elem_of_nil]. }
  destruct (decide (charged k a)) as [Hk|Hk].
  - destruct (Hch Hk) as (_ & Ht & Hmi & Hsame). pose proof (Hf _ Hin Hk) as Hle. cbn in Hle.
    split; cbn [entries flying recorded]; rewrite ?Ht; [| | |lia|exact Hb'].
    + rewrite count_snoc, decide_True by done. destruct (decide ((get (entries s) k).1.1 = minute a)) as [He|].
      * specialize (Hsame He). rewrite He in Hc. lia.
      * rewrite (no_minute k now); [lia|done|lia].
    + intros b [Hb0| ->%list_elem_of_singleton]%elem_of_app Hbk; [specialize (Hp b Hb0 Hbk); lia|done].
    + intros g Hg%list_elem_of_delete_inv Hgk. rewrite (Hone _ Hg _ Hin Hgk Hk). cbn. lia.
  - split; cbn [entries flying recorded]; rewrite ?(Hno Hk); [| | |done|exact Hb'].
    + rewrite count_snoc, decide_False by (by intros [? _]). lia.
    + intros b [Hb0| ->%list_elem_of_singleton]%elem_of_app Hbk; [by apply Hp|done].
    + intros g Hg%list_elem_of_delete_inv Hgk. by apply Hf.
Qed.
(** Attempts in the order of a clock that does not go back. *)
Fixpoint ordered_from (t : Z) (l : list attempt) : Prop :=
  match l with [] => True | a :: l' => t <= a.(minute) ∧ ordered_from a.(minute) l' end.
Definition clock (now : Z) (e : event) : Z := match e with Begin a => a.(minute) | _ => now end.
Lemma step_minutes k now s e : inv s → crowded s → crowd <= 2 ^ 28 → minutes k now s → one_minute k s →
  now <= clock now e → minutes k (clock now e) (step s e).
Proof.
  intros Hinv Hlen Hc Hm Hone Hclk. destruct e as [a|i|i]; cbn [clock] in *; [by apply (begin_minutes k now)| |].
  - cbn [step]. destruct (flying s !! i) as [[a [|l ls] f]|] eqn:Hi; try done.
    destruct (look_at (entries s) a l) as [f' [r|]] eqn:Hl; [by eapply drop_minutes|by eapply look_minutes].
  - destruct (flying s !! i) as [[a [|l ls] f]|] eqn:Hi; [by eapply wrong_minutes|..]; cbn [step]; by rewrite Hi.
Qed.
Lemma run_minutes k evs now s : inv s → crowd <= 2 ^ 28 → minutes k now s → throughout crowded s evs →
  throughout (one_minute k) s evs → ordered_from now (begun evs) → ∃ now', minutes k now' (foldl step s evs).
Proof.
  revert now s. induction evs as [|e evs IH]; intros now s Hinv Hc Hm [Hs Ht] [Ho Hone] Hord; [by exists now|].
  assert (now <= clock now e ∧ ordered_from (clock now e) (begun evs)) as [Hle Hord']
    by (destruct e; cbn in Hord |- *; [exact Hord|split; [lia|exact Hord]..]).
  apply (IH (clock now e)); [by apply step_inv| |apply step_minutes|..]; done.
Qed.
Lemma start_minutes k : 0 <= crowd → minutes k 0 start.
Proof.
  intros H0. split; cbn; rewrite ?get_empty; unfold count; cbn; try done; try lia; intros f Hf; by apply elem_of_nil in Hf.
Qed.
Lemma minutes_let_through k now s t : minutes k now s → count (from_in k t) (let_through s) <= 6 + crowd.
Proof.
  intros Hm. pose proof (min_bound _ _ _ Hm t) as Hb. unfold let_through. rewrite count_app, count_fmap.
  assert (count (λ f, from_in k t (att f)) (filter looked_through (flying s)) <= count (past_look (from_in k t) AddressLook) (flying s)); [|lia].
  apply count_filter. intros [a [|] f] Hp Hd; [|done]. split; [done|apply not_elem_of_nil].
Qed.
End crowd.
End ip.
End Failures.

(** C18: However an attacker spreads wrong passwords over addresses and connections, and
    however the connections' looks at the counters and their records of a wrong password
    come between each other: with at most [k] attempts between their first look and
    their record at once, no more than [30 + k] passwords from one address are looked
    at, and from one IPv6 /64, /56 and /48 no more than [60 + k], [80 + k] and
    [100 + k], as long as nobody's attempt succeeds. No more than [6 + k] are from one
    address in one minute, when the clock does not go back and the attempts of a minute that
    charge the address are over before the next minute's begin. One at a time ([k] is 1)
    that is 31, 7, 61, 81 and 101. *)
Theorem wrong_attempts_bounded (ipv6_from_str : str → option Z) (ipv6_to_string : Z → str)
    (k : Z) (evs : list Failures.event)
    (Hk : 0 <= k <= 2 ^ 28)
    (Hcrowd : Failures.throughout ipv6_from_str ipv6_to_string (Failures.crowded k) Failures.start evs) :
  let looked_at := Failures.let_through (Failures.run ipv6_from_str ipv6_to_string evs) in
  let sent n p := Failures.count (Failures.sent_in ipv6_from_str ipv6_to_string n p) looked_at in
  (∀ ip, Failures.count (Failures.sent_from ip) looked_at <= 30 + k)
  ∧ (∀ p, sent 64 p <= 60 + k ∧ sent 56 p <= 80 + k ∧ sent 48 p <= 100 + k)
  ∧ ∀ ip, Failures.ordered_from 0 (Failures.begun evs) →
      Failures.throughout ipv6_from_str ipv6_to_string
        (Failures.one_minute ipv6_from_str ipv6_to_string ip) Failures.start evs →
      ∀ t, Failures.count (Failures.from_in ip t) looked_at <= 6 + k.
Proof.
  cbv zeta. pose proof (Failures.failures_start_inv ipv6_from_str ipv6_to_string k (proj1 Hk)) as Hstart.
  pose proof (Failures.failures_run_inv _ _ k evs _ Hstart (proj2 Hk) Hcrowd) as Hinv. split; [|split].
  - intros ip. apply (Failures.class_let_through _ _ _ _ Failures.AddressLook ip _ Hinv). apply Failures.address_class.
  - intros p. assert (∀ n th, (n, th) ∈ [(64, 60); (56, 80); (48, 100)] →
      Failures.count (Failures.sent_in ipv6_from_str ipv6_to_string n p)
        (Failures.let_through (Failures.run ipv6_from_str ipv6_to_string evs)) <= th + k) as Hp; [|split_and!; apply Hp; set_solver].
    intros n th Hn. apply (Failures.class_let_through _ _ _ _ (Failures.PrefixLook p n th) p _ Hinv). by apply Failures.prefix_class.
  - intros ip Hord Hone t.
    destruct (Failures.run_minutes _ _ k ip evs 0 _ Hstart (proj2 Hk) (Failures.start_minutes _ _ _ _ (proj1 Hk)) Hcrowd Hone Hord) as [now' Hm].
    by eapply Failures.minutes_let_through.
Qed.

(** A resolver for the witness: hexadecimal is not needed, one known address. *)
Definition sample_ipv6 (s : str) : option Z :=
  if bool_decide (s = lit "2001:db8::1") then Some 42540766411282592856903984951653826561
  else if bool_decide (s = lit "2001:db8::2") then Some 42540766411282592856903984951653826562
  else None.
(** Two connections, each trying over and over, one look behind the other. *)
Definition sample_round (a : Failures.attempt) : list Failures.event :=
  [Failures.Begin a; Failures.Begin a]
  ++ concat (replicate 4 [Failures.Look 1; Failures.Look 0]) ++ [Failures.Wrong 0; Failures.Wrong 0].
Definition sample_events : list Failures.event :=
  concat (replicate 9 (sample_round (Failures.mk_attempt (lit "2001:db8::1") 1)))
  ++ concat (replicate 9 (sample_round (Failures.mk_attempt (lit "2001:db8::2") 2))).

Lemma sample_crowded : Failures.throughout sample_ipv6 fmt_Z (Failures.crowded 2) Failures.start sample_events.
Proof.
  apply (Failures.throughoutb_spec _ _ (λ s, Z.of_nat (length (Failures.flying s)) <=? 2)); [|vm_compute; reflexivity].
  intros s. apply Z.leb_le.
Qed.
Definition same_minute (s : Failures.state) : bool :=
  forallb (λ f, forallb (λ g, (Failures.att f).(Failures.minute) =? (Failures.att g).(Failures.minute)) (Failures.flying s)) (Failures.flying s).
Lemma sample_one_minute : Failures.throughout sample_ipv6 fmt_Z
  (Failures.one_minute sample_ipv6 fmt_Z (lit "2001:db8::1")) Failures.start sample_events.
Proof.
  apply (Failures.throughoutb_spec _ _ same_minute); [|vm_compute; reflexivity].
  unfold same_minute, Failures.one_minute. intros s. rewrite forallb_forall, Forall_forall. intros Hs f Hf.
  apply list_elem_of_In, Hs in Hf. rewrite forallb_forall in Hf. rewrite Forall_forall. intros g Hg _ _.
  by apply Z.eqb_eq, Hf, list_elem_of_In.
Qed.
Lemma wrong_attempts_bounded_witness :
  let s := Failures.run sample_ipv6 fmt_Z sample_events in
  length (Failures.let_through s) = 16%nat
  ∧ Failures.count (Failures.sent_from (lit "2001:db8::1")) (Failures.let_through s) = 8
  ∧ Failures.count (Failures.from_in (lit "2001:db8::1") 1) (Failures.let_through s) <= 6 + 2.
Proof.
  cbv zeta. do 2 (split; [vm_compute; reflexivity|]).
  assert (Failures.ordered_from 0 (Failures.begun sample_events)) as Ht by (vm_compute; repeat split; discriminate).
  destruct (wrong_attempts_bounded sample_ipv6 fmt_Z 2 sample_events ltac:(lia) sample_crowded) as (_ & _ & H).
  exact (H (lit "2001:db8::1") Ht sample_one_minute 1).
Defined.

(** Two at once get one more password looked at than one at a time. *)
Definition spread_events : list Failures.event :=
  concat ((λ i, sample_round (Failures.mk_attempt (lit "10.0.0.1") (Z.of_nat i))) <$> seq 1 20).
Example two_at_once : length (Failures.let_through (Failures.run sample_ipv6 fmt_Z spread_events)) = 32%nat.
Proof. vm_compute. reflexivity. Qed.
