(* ===== verification/Admission.v ===== *)
(** * Connections that are not authorized yet

    [src/src/server/connection.rs]: [admit_unauthorized], [UnauthorizedID] and
    [login_deadline].  A connection takes a place before its handshake and
    gives it back when it is authorized or ends. *)
From S2P Require Import Prelude.

Definition LOGIN_GRACE : Z := 180.
Definition MAX_UNAUTHORIZED_CONNS : nat := 64.
Definition MAX_UNAUTHORIZED_CONNS_PER_ADDR : nat := 16.

Module Unauthorized.
(** [IpAddr] is compared only. *)
Record conn := mk { id : Z; ip : str; evicted : bool }.
#[global] Instance conn_eta : Eta conn := λ c, mk (id c) (ip c) (evicted c).

Definition held_by (a : str) (c : conn) : Prop := ip c = a.
#[global] Instance held_by_dec a c : Decision (held_by a c).
Proof. unfold held_by. apply _. Defined.

(** The new table, the connection notified to go, and whether the arrival got
    a place. *)
Definition try_admit (new_id : Z) (a : str) (conns : list conn) : list conn * option Z * bool :=
  if bool_decide (MAX_UNAUTHORIZED_CONNS_PER_ADDR ≤ length (filter (held_by a) conns))
  then (conns, None, false)
  else if bool_decide (MAX_UNAUTHORIZED_CONNS ≤ length conns) then
    match conns with
    | oldest :: rest =>
        (oldest <| evicted := true |> :: rest,
         if oldest.(evicted) then None else Some oldest.(id), false)
    | [] => (conns, None, false)
    end
  else (conns ++ [mk new_id a false], None, true).

(** [Drop]: the place is given back. *)
Definition release (gone : Z) (conns : list conn) : list conn :=
  filter (λ c, id c ≠ gone) conns.

Inductive event := Arrive (new_id : Z) (a : str) | Leave (gone : Z).

Definition step (conns : list conn) (e : event) : list conn * option Z :=
  match e with
  | Arrive new_id a => (try_admit new_id a conns).1
  | Leave gone => (release gone conns, None)
  end.

Fixpoint run (conns : list conn) (es : list event) : list conn * list Z :=
  match es with
  | [] => (conns, [])
  | e :: es' =>
      let '(conns', told) := step conns e in
      let '(t, ids) := run conns' es' in (t, match told with Some i => i :: ids | None => ids end)
  end.

(** Whoever is on its way out is the oldest, so there is at most one. *)
Record wf (conns : list conn) : Prop := {
  wf_bound : length conns ≤ MAX_UNAUTHORIZED_CONNS;
  wf_addr : ∀ a, length (filter (held_by a) conns) ≤ MAX_UNAUTHORIZED_CONNS_PER_ADDR;
  wf_evicted : Forall (λ c, evicted c = false) (tail conns)
}.

Lemma length_filter_sub (P Q : conn → Prop) `{∀ c, Decision (P c)} `{∀ c, Decision (Q c)} l :
  length (filter P (filter Q l)) ≤ length (filter P l).
Proof.
  induction l as [|c l IH]; [done|]. rewrite (filter_cons Q), (filter_cons P).
  destruct (decide (Q c)), (decide (P c)); rewrite ?filter_cons;
    repeat case_decide; simpl; try lia; done.
Qed.

Lemma unauthorized_step_wf conns e : wf conns → wf (step conns e).1.
Proof.
  intros [Hb Ha He]. destruct e as [new_id a|gone]; simpl.
  - unfold try_admit. case_bool_decide as Hm; [by split|].
    case_bool_decide as Hfull; simpl.
    + destruct conns as [|c conns]; [by split|]. split; simpl in *; [done| |done].
      intros b. specialize (Ha b). rewrite filter_cons in *. unfold held_by in *. simpl in *.
      repeat case_decide; done.
    + split.
      * rewrite length_app. simpl. lia.
      * intros b. rewrite filter_app, length_app. specialize (Ha b).
        rewrite filter_cons, filter_nil. unfold held_by at 2. simpl.
        case_decide as Hab; [|simpl; lia]. subst b. simpl. lia.
      * destruct conns; simpl; [done|]. apply Forall_app. auto.
  - unfold release. split.
    + etransitivity; [apply length_filter|done].
    + intros a. etransitivity; [apply length_filter_sub|done].
    + destruct conns as [|c conns]; [done|]. rewrite filter_cons. simpl in He.
      assert (Forall (λ c, evicted c = false) (filter (λ c, id c ≠ gone) conns)) as Hf.
      { apply Forall_forall. intros x [_ Hx]%list_elem_of_filter.
        rewrite Forall_forall in He. auto. }
      case_decide; [exact Hf|]. destruct (filter _ conns); [done|].
      by apply Forall_inv_tail in Hf.
Qed.

Lemma unauthorized_run_wf conns es : wf conns → wf (run conns es).1.
Proof.
  revert conns. induction es as [|e es IH]; intros conns Hw; simpl; [done|].
  pose proof (unauthorized_step_wf conns e Hw) as Hw'. destruct (step conns e) as [c' told].
  specialize (IH c' Hw'). by destruct (run c' es).
Qed.

Lemma empty_wf : wf [].
Proof. split; simpl; [lia|intros a; simpl; lia|done]. Qed.
End Unauthorized.

(** However connections arrive and leave, at most 64 are unauthorized at once
    and at most 16 from one address, and at most one of them is on its way out;
    an arrival is admitted exactly when both bounds leave room, and when the
    table is full only the oldest is told to go, and only once. *)
Theorem admission_bounded (es : list Unauthorized.event) (new_id : Z) (a : str) :
  let conns := (Unauthorized.run [] es).1 in
  let '(conns', told, admitted) := Unauthorized.try_admit new_id a conns in
  length conns ≤ MAX_UNAUTHORIZED_CONNS
  ∧ (∀ b, length (filter (Unauthorized.held_by b) conns) ≤ MAX_UNAUTHORIZED_CONNS_PER_ADDR)
  ∧ length (filter (λ c, Unauthorized.evicted c = true) conns') ≤ 1
  ∧ (admitted = true ↔ length conns < MAX_UNAUTHORIZED_CONNS
       ∧ length (filter (Unauthorized.held_by a) conns) < MAX_UNAUTHORIZED_CONNS_PER_ADDR)
  ∧ (∀ i, told = Some i → ∃ c rest, conns = c :: rest ∧ Unauthorized.id c = i
       ∧ Unauthorized.evicted c = false ∧ admitted = false
       ∧ conns' = c <| Unauthorized.evicted := true |> :: rest).
Proof.
  cbv zeta. pose proof (Unauthorized.unauthorized_run_wf [] es Unauthorized.empty_wf) as Hwf.
  revert Hwf. generalize (Unauthorized.run [] es).1. intros conns Hwf.
  pose proof (Unauthorized.unauthorized_step_wf conns (Unauthorized.Arrive new_id a) Hwf) as [_ _ He].
  destruct Hwf as [Hb Ha _]. simpl in He.
  assert (∀ l, Forall (λ c, Unauthorized.evicted c = false) (tail l) →
            length (filter (λ c, Unauthorized.evicted c = true) l) ≤ 1) as Hone.
  { intros [|c l] Hl; [simpl; lia|]. rewrite filter_cons.
    assert (filter (λ c, Unauthorized.evicted c = true) l = []) as Hn.
    { simpl in Hl. clear -Hl. induction Hl as [|d l Hd Hl IH]; [done|].
      rewrite filter_cons, decide_False by congruence. done. }
    rewrite Hn. case_decide; simpl; lia. }
  apply Hone in He. unfold Unauthorized.try_admit in *.
  case_bool_decide as Hm; [split_and!; try done; naive_solver lia|].
  case_bool_decide as Hf.
  - destruct conns as [|c conns]; simpl in Hf; [unfold MAX_UNAUTHORIZED_CONNS in *; lia|].
    split_and!; try done; [simpl in *; naive_solver lia|].
    intros i Hi. exists c, conns. destruct (Unauthorized.evicted c) eqn:Hev; [done|].
    injection Hi as <-. auto.
  - split_and!; try done. split; [intros _; lia|done].
Qed.
