(* ===== verification/LoginScope.v ===== *)
(** * What a login is for, latched

    [src/src/server/connection.rs]: [login_scope_digest] and
    [check_login_scope].  Text is its UTF-8 bytes here; the hash is a
    parameter. *)
From S2P Require Import Prelude.
Import Int.
Local Open Scope Z_scope.

(** ** The request's union and its scope *)
Inductive LoginUnion :=
| FileTransfer (dir : bytes) (show_hidden : bool)
| ViewCamera
| Terminal (service_id : bytes)
| PortForward (host : bytes) (port : Z) (multiplex : bool)
| UnknownUnion.

Record LoginRequest := mk_request { my_id : bytes; union : option LoginUnion }.

(** Unknown variants execute as remote. *)
Definition scope_of (lr : LoginRequest) : bytes * option LoginUnion :=
  (my_id lr, match union lr with Some UnknownUnion => None | u => u end).

Definition bool_byte (b : bool) : Byte.byte := if b then Byte.x01 else Byte.x00.

Section digest.
(** [Sha256]: [update]s concatenate. *)
Context (sha256 : bytes → bytes).

Definition push (b : bytes) : bytes := le_bytes 8 (Z.of_nat (length b)) ++ b.

Definition login_scope_bytes (lr : LoginRequest) : bytes :=
  push (my_id lr) ++
  match union lr with
  | Some (FileTransfer dir show_hidden) =>
      push (lit_bytes "file_transfer") ++ push dir ++ push [bool_byte show_hidden]
  | Some ViewCamera => push (lit_bytes "view_camera")
  | Some (Terminal service_id) => push (lit_bytes "terminal") ++ push service_id
  | Some (PortForward host port multiplex) =>
      push (lit_bytes "port_forward") ++ push host
        ++ push (le_bytes 4 (port mod 2 ^ 32)) ++ push [bool_byte multiplex]
  | None | Some UnknownUnion => push (lit_bytes "remote")
  end.

Definition login_scope_digest (lr : LoginRequest) : bytes := sha256 (login_scope_bytes lr).

(** The latched scope, and the answer; [None] latches. *)
Definition check_login_scope (latched : option bytes) (lr : LoginRequest)
    : option bytes * bool :=
  let requested := login_scope_digest lr in
  match latched with
  | Some initial => if bool_decide (initial = requested) then (latched, true) else (latched, false)
  | None => (Some requested, true)
  end.

Fixpoint check_all (latched : option bytes) (lrs : list LoginRequest) : list LoginRequest :=
  match lrs with
  | [] => []
  | lr :: lrs' =>
      let '(latched', ok) := check_login_scope latched lr in
      if ok then lr :: check_all latched' lrs' else check_all latched' lrs'
  end.
End digest.
#[global] Arguments push : simpl never.

(** Lengths fit 64 bits and ports 32, as in memory. *)
Definition fits (b : bytes) : Prop := Z.of_nat (length b) < 2 ^ 64.
Definition request_ok (lr : LoginRequest) : Prop :=
  fits (my_id lr) ∧
  match union lr with
  | Some (FileTransfer dir _) => fits dir
  | Some (Terminal service_id) => fits service_id
  | Some (PortForward host port _) => fits host ∧ in_i32 port
  | _ => True
  end.

Lemma push_inj a b r s : fits a → fits b → push a ++ r = push b ++ s → a = b ∧ r = s.
Proof.
  unfold fits, push. intros Ha Hb Heq. rewrite <- !app_assoc in Heq.
  apply app_inj_1 in Heq as [Hl Heq]; [|by rewrite !length_le_bytes].
  apply le_bytes_inj in Hl; [|simpl; lia..].
  by apply app_inj_1 in Heq; [|lia].
Qed.

Lemma push_inj_last a b : fits a → fits b → push a = push b → a = b.
Proof.
  intros Ha Hb Heq. apply (push_inj a b [] []); [done..|]. by rewrite !app_nil_r.
Qed.

Lemma fits_small b : (length b <= 13)%nat → fits b.
Proof. unfold fits. intros. lia. Qed.

Lemma bool_byte_inj a b : [bool_byte a] = [bool_byte b] → a = b.
Proof. by destruct a, b. Qed.

Lemma port_inj a b : in_i32 a → in_i32 b →
  le_bytes 4 (a mod 2 ^ 32) = le_bytes 4 (b mod 2 ^ 32) → a = b.
Proof.
  unfold in_i32, i32_min, i32_max. intros Ha Hb Heq.
  apply le_bytes_inj in Heq; [lia|simpl; lia..].
Qed.

(** Every encoding is the id, a tag, and the fields of the kind. *)
Definition kind_tag (u : option LoginUnion) : bytes :=
  lit_bytes match u with
  | Some (FileTransfer _ _) => "file_transfer"
  | Some ViewCamera => "view_camera"
  | Some (Terminal _) => "terminal"
  | Some (PortForward _ _ _) => "port_forward"
  | None | Some UnknownUnion => "remote"
  end.
Definition kind_fields (u : option LoginUnion) : bytes :=
  match u with
  | Some (FileTransfer dir show_hidden) => push dir ++ push [bool_byte show_hidden]
  | Some (Terminal service_id) => push service_id
  | Some (PortForward host port multiplex) =>
      push host ++ push (le_bytes 4 (port mod 2 ^ 32)) ++ push [bool_byte multiplex]
  | _ => []
  end.

Lemma login_scope_bytes_parts a u :
  login_scope_bytes (mk_request a u) = push a ++ push (kind_tag u) ++ kind_fields u.
Proof. destruct u as [[| | | |]|]; unfold login_scope_bytes; simpl; by rewrite ?app_nil_r. Qed.

Lemma kind_tag_fits u : fits (kind_tag u).
Proof. apply fits_small. destruct u as [[| | | |]|]; vm_compute; lia. Qed.

Lemma kind_fields_inj u v a b :
  request_ok (mk_request a u) → request_ok (mk_request b v) →
  kind_tag u = kind_tag v → kind_fields u = kind_fields v →
  (scope_of (mk_request a u)).2 = (scope_of (mk_request a v)).2.
Proof.
  intros [_ Hu] [_ Hv] Ht Heq. simpl in Hu, Hv.
  destruct u as [[d1 h1| |s1|o1 p1 m1|]|], v as [[d2 h2| |s2|o2 p2 m2|]|];
    try discriminate Ht; try reflexivity; cbn [kind_fields] in Heq.
  - apply push_inj in Heq as [-> Heq]; [|done..].
    apply push_inj_last, bool_byte_inj in Heq as ->; [done|apply fits_small; simpl; lia..].
  - apply push_inj_last in Heq as ->; done.
  - destruct Hu as [Hu Hp1], Hv as [Hv Hp2].
    apply push_inj in Heq as [-> Heq]; [|done..].
    apply push_inj in Heq as [Hp Heq];
      [|apply fits_small; rewrite length_le_bytes; lia..].
    apply port_inj in Hp as ->; [|done..].
    apply push_inj_last, bool_byte_inj in Heq as ->; [done|apply fits_small; simpl; lia..].
Qed.

Lemma kind_inj (u v : option LoginUnion) a b :
  request_ok (mk_request a u) → request_ok (mk_request b v) →
  login_scope_bytes (mk_request a u) = login_scope_bytes (mk_request b v) →
  scope_of (mk_request a u) = scope_of (mk_request b v).
Proof.
  intros H1 H2. rewrite !login_scope_bytes_parts. intros Heq.
  apply push_inj in Heq as [-> Heq]; [|apply H1|apply H2].
  apply push_inj in Heq as [Ht Hf]; [|apply kind_tag_fits..].
  unfold scope_of. simpl. f_equal. exact (kind_fields_inj u v b b H1 H2 Ht Hf).
Qed.

(** The bytes hashed for a login's scope determine it: two requests have the
    same encoding exactly when their controller id and what they ask for (with
    every field, unknown kinds counting as remote) are the same. *)
Theorem login_scope_bytes_inj (l1 l2 : LoginRequest) :
  request_ok l1 → request_ok l2 →
  login_scope_bytes l1 = login_scope_bytes l2 ↔ scope_of l1 = scope_of l2.
Proof.
  intros H1 H2. destruct l1 as [a u], l2 as [b v]. split; [by apply kind_inj|].
  unfold scope_of, login_scope_bytes. simpl. intros [= -> Hk].
  by destruct u as [[]|], v as [[]|]; simplify_eq.
Qed.

Definition sample_tunnel (port : Z) : LoginRequest :=
  mk_request (lit_bytes "123456789") (Some (PortForward (lit_bytes "localhost") port true)).

Lemma login_scope_bytes_inj_witness :
  request_ok (sample_tunnel 22)
  ∧ login_scope_bytes (sample_tunnel 22) ≠ login_scope_bytes (sample_tunnel 3389).
Proof.
  assert (∀ p, in_i32 p → request_ok (sample_tunnel p)) as Hok.
  { intros p Hp. split; [vm_compute; reflexivity|]. simpl. split; [vm_compute; reflexivity|done]. }
  assert (in_i32 22 ∧ in_i32 3389) as [H1 H2] by (unfold in_i32, i32_min, i32_max; lia).
  split; [by apply Hok|].
  intros H. apply (login_scope_bytes_inj _ _ (Hok _ H1) (Hok _ H2)) in H. discriminate H.
Defined.

(** Authentication retries stay bound to the first request: every request a
    connection accepts after the first has its scope, unless the two are a
    collision of the hash. *)
Theorem login_scope_latched (sha256 : bytes → bytes) (lr0 : LoginRequest)
    (lrs : list LoginRequest) (lr : LoginRequest) :
  request_ok lr0 → request_ok lr → lr ∈ check_all sha256 None (lr0 :: lrs) →
  scope_of lr = scope_of lr0
  ∨ (login_scope_bytes lr ≠ login_scope_bytes lr0
     ∧ sha256 (login_scope_bytes lr) = sha256 (login_scope_bytes lr0)).
Proof.
  intros H0 Hlr. simpl. intros [->|Hin]%elem_of_cons; [by left|].
  assert (login_scope_digest sha256 lr = login_scope_digest sha256 lr0) as Hd.
  { revert Hin. generalize (login_scope_digest sha256 lr0). intros d.
    induction lrs as [|l lrs IH]; simpl; [set_solver|].
    case_bool_decide as Hd; [|done]. intros [->|Hin]%elem_of_cons; auto. }
  destruct (decide (login_scope_bytes lr = login_scope_bytes lr0)) as [He|He].
  - left. destruct lr as [a u], lr0 as [b v]. by apply kind_inj.
  - right. auto.
Qed.

Lemma login_scope_latched_witness :
  request_ok (sample_tunnel 22) ∧ request_ok (sample_tunnel 3389)
  ∧ (sample_tunnel 3389 ∈ check_all id None [sample_tunnel 22; sample_tunnel 3389] → False).
Proof.
  assert (∀ p, in_i32 p → request_ok (sample_tunnel p)) as Hok.
  { intros p Hp. split; [vm_compute; reflexivity|]. simpl. split; [vm_compute; reflexivity|done]. }
  assert (in_i32 22 ∧ in_i32 3389) as [H1 H2] by (unfold in_i32, i32_min, i32_max; lia).
  split; [by apply Hok|]. split; [by apply Hok|]. intros H.
  destruct (login_scope_latched id (sample_tunnel 22) [sample_tunnel 3389] (sample_tunnel 3389)
    (Hok _ H1) (Hok _ H2) H) as [Hs|[Hn He]]; [discriminate Hs|exact (Hn He)].
Defined.
