(* ===== verification/Passwords.v ===== *)
(** * Passwords

    [src/src/server/connection.rs]: [constant_time_eq], [verify_h1], the
    [validate_*] functions and [check_update_temporary_password].  The hash and
    what the configuration crate decides about its own storage formats are
    parameters. *)
From S2P Require Import Prelude.
Import Int.
Local Open Scope Z_scope.

(** ** Comparison without early exit *)
Definition byte_Z (b : Byte.byte) : Z := Z.of_N (Byte.to_N b).

Fixpoint xor_fold (x : Z) (a b : bytes) : Z :=
  match a, b with
  | c :: a', d :: b' => xor_fold (Z.lor x (Z.lxor (byte_Z c) (byte_Z d))) a' b'
  | _, _ => x
  end.

Definition constant_time_eq (a b : bytes) : bool :=
  if negb (length a =? length b)%nat then false else xor_fold 0 a b =? 0.

Lemma byte_Z_inj a b : byte_Z a = byte_Z b → a = b.
Proof.
  unfold byte_Z. intros H. apply N2Z.inj in H.
  pose proof (Byte.of_to_N a) as Ha. pose proof (Byte.of_to_N b) as Hb. congruence.
Qed.

Lemma xor_fold_zero x a b :
  length a = length b → xor_fold x a b = 0 ↔ x = 0 ∧ a = b.
Proof.
  revert x b. induction a as [|c a IH]; intros x [|d b] Hl; simplify_eq/=; [naive_solver|].
  rewrite IH by done. rewrite Z.lor_eq_0_iff, Z.lxor_eq_0_iff. split.
  - intros [[-> Hc] ->]. by rewrite (byte_Z_inj _ _ Hc).
  - intros [-> [= -> ->]]. auto.
Qed.

(** The constant-time comparison of credentials is equality, on inputs of any
    lengths. *)
Theorem constant_time_eq_spec (a b : bytes) : constant_time_eq a b = true ↔ a = b.
Proof.
  unfold constant_time_eq. destruct (Nat.eqb_spec (length a) (length b)) as [Hl|Hl]; simpl.
  - rewrite Z.eqb_eq, xor_fold_zero by done. naive_solver.
  - split; [done|]. intros ->. done.
Qed.

(** ** Validation *)
Inductive ConnAuditPrimaryAuth :=
| NoPrimaryAuth | Click | TemporaryPassword | PermanentPassword | SwitchSides.

(** What [hbb_common::config] and [password_security] answer. *)
Record config := mk_config {
  temporary_enabled : bool;
  temporary_password : bytes;
  permanent_enabled : bool;
  local_storage : bytes;
  local_salt : bytes;
  preset_storage : bytes;
  preset_salt : bytes;
  local_usable : bool;        (* [local_permanent_password_storage_is_usable_for_auth] *)
  preset_usable : bool        (* [preset_permanent_password_storage_is_usable_for_auth] *)
}.

(** The challenge of this connection, and the password field of the login. *)
Record login := mk_login { salt : bytes; challenge : bytes; password : bytes }.

Section validate.
Context (sha256 : bytes → bytes).
(** [decode_permanent_password_h1_from_storage] and its preset counterpart. *)
Context (decode_permanent decode_preset : bytes → option bytes).

Definition verify_h1 (l : login) (h1 : bytes) : bool :=
  constant_time_eq (sha256 (h1 ++ l.(challenge))) l.(password).

Definition validate_password_plain (l : login) (p : bytes) : bool :=
  if bool_decide (p = []) then false else verify_h1 l (sha256 (p ++ l.(salt))).

Definition validate_password_storage (l : login) (storage : bytes) : bool :=
  if bool_decide (storage = []) then false
  else match decode_permanent storage with
       | Some h1 => verify_h1 l h1
       | None => validate_password_plain l storage
       end.

Definition validate_preset_password_storage (l : login) (storage salt : bytes) : bool :=
  if bool_decide (salt = []) then validate_password_plain l storage
  else match decode_preset storage with
       | Some h1 => verify_h1 l h1
       | None => false
       end.

(** Which password let the login in, if any. *)
Definition validate_password (c : config) (l : login) (allow_permanent_password : bool)
    : option ConnAuditPrimaryAuth :=
  if c.(temporary_enabled) && validate_password_plain l c.(temporary_password)
  then Some TemporaryPassword
  else if c.(permanent_enabled) || allow_permanent_password then
    if negb (bool_decide (c.(local_storage) = [])) then
      if c.(local_usable) && validate_password_storage l c.(local_storage)
      then Some PermanentPassword else None
    else if c.(preset_usable)
            && validate_preset_password_storage l c.(preset_storage) c.(preset_salt)
    then Some PermanentPassword else None
  else None.

End validate.

Section answers.
Context (sha256 : bytes → bytes).

(** The response a peer that knows [h1] computes for this challenge. *)
Definition response (l : login) (h1 : bytes) : bytes := sha256 (h1 ++ l.(challenge)).

Lemma verify_h1_spec l h1 : verify_h1 sha256 l h1 = true ↔ l.(password) = response l h1.
Proof. unfold verify_h1, response. rewrite constant_time_eq_spec. split; congruence. Qed.

Lemma validate_plain_spec l p :
  validate_password_plain sha256 l p = true ↔ p ≠ [] ∧ l.(password) = response l (sha256 (p ++ l.(salt))).
Proof.
  unfold validate_password_plain. case_bool_decide; [naive_solver|].
  rewrite verify_h1_spec. naive_solver.
Qed.
End answers.

(** C17: A login is let in by exactly one of three answers to its challenge: the
    enabled temporary password; the usable local permanent password; or, only
    when no local one is stored, the usable preset one.  An empty password is
    never accepted, and the permanent ones count only when enabled or on the
    logon screen. *)
Theorem validate_password_sound (sha256 : bytes → bytes)
    (decode_permanent decode_preset : bytes → option bytes)
    (c : config) (l : login) (allow : bool) (auth : ConnAuditPrimaryAuth) :
  let h p := sha256 (p ++ l.(salt)) in
  let answers h1 := l.(password) = response sha256 l h1 in
  validate_password sha256 decode_permanent decode_preset c l allow = Some auth →
  (auth = TemporaryPassword ∧ c.(temporary_enabled) = true ∧ c.(temporary_password) ≠ []
     ∧ answers (h c.(temporary_password)))
  ∨ auth = PermanentPassword ∧ (c.(permanent_enabled) = true ∨ allow = true) ∧
      (c.(local_storage) ≠ [] ∧ c.(local_usable) = true
         ∧ answers (default (h c.(local_storage)) (decode_permanent c.(local_storage)))
       ∨ c.(local_storage) = [] ∧ c.(preset_usable) = true ∧
         (c.(preset_salt) = [] ∧ c.(preset_storage) ≠ [] ∧ answers (h c.(preset_storage))
          ∨ c.(preset_salt) ≠ [] ∧ ∃ h1, decode_preset c.(preset_storage) = Some h1 ∧ answers h1)).
Proof.
  cbv zeta. unfold validate_password.
  destruct (temporary_enabled c && _) eqn:Ht.
  { intros [= <-]. left. apply andb_true_iff in Ht as [? Ht].
    apply validate_plain_spec in Ht as [? ?]. auto. }
  intros Hv; right. destruct (permanent_enabled c || allow) eqn:Hp; [|done].
  apply orb_true_iff in Hp.
  case_bool_decide as Hls; cbn [negb] in Hv;
    match type of Hv with context [?a && ?b] => destruct (a && b) eqn:Hu; [|done] end;
    injection Hv as <-; apply andb_true_iff in Hu as [Hu Hv].
  - unfold validate_preset_password_storage in Hv. case_bool_decide.
    + apply validate_plain_spec in Hv as [? ?]. eauto 10.
    + destruct (decode_preset _) as [h1|]; [|done]. apply verify_h1_spec in Hv. eauto 15.
  - unfold validate_password_storage in Hv. rewrite bool_decide_false in Hv by done.
    destruct (decode_permanent _) as [h1|].
    + apply verify_h1_spec in Hv. eauto 10.
    + apply validate_plain_spec in Hv as [_ Hv]. eauto 10.
Qed.

Lemma validate_password_sound_witness :
  let l := mk_login (lit_bytes "salt") (lit_bytes "nonce") (lit_bytes "pwsaltnonce") in
  let c := mk_config true (lit_bytes "pw") false [] [] [] [] false false in
  validate_password id (λ _, None) (λ _, None) c l false = Some TemporaryPassword
  ∧ l.(password) = response id l (lit_bytes "pw" ++ l.(salt)).
Proof.
  cbv zeta.
  assert (validate_password id (λ _, None) (λ _, None)
    (mk_config true (lit_bytes "pw") false [] [] [] [] false false)
    (mk_login (lit_bytes "salt") (lit_bytes "nonce") (lit_bytes "pwsaltnonce")) false
    = Some TemporaryPassword) as Hv by (vm_compute; reflexivity).
  split; [exact Hv|].
  destruct (validate_password_sound id (λ _, None) (λ _, None) _ _ _ _ Hv)
    as [(_ & _ & _ & H)|(H & _)]; [exact H|discriminate H].
Defined.

(** ** Rotation of the temporary password *)
Module Rotation.
Definition MAX_CONSECUTIVE_FAILURES : Z := 10.

(** The static [State] of [check_update_temporary_password], and the
    configuration's current password: the [current]-th one generated. *)
Record state := mk { tracked : bytes; failures : Z; current : nat }.
#[global] Instance state_eta : Eta state := λ s, mk (tracked s) (failures s) (current s).
Definition init : state := mk [] 0 0.

Section gen.
(** [update_temporary_password]: the passwords that will be generated. *)
Context (generate : nat → bytes).

(** The counter belongs to one password. *)
Definition track (s : state) : state :=
  let current_password := generate s.(current) in
  if negb (bool_decide (s.(tracked) = current_password))
  then s <| tracked := current_password |> <| failures := 0 |> else s.

Definition check_update_temporary_password (enabled success : bool) (s : state) : state :=
  if negb enabled then s
  else
    let current_password := generate s.(current) in
    if bool_decide (current_password = []) then s
    else
      let s := track s in
      if success then s <| failures := 0 |>
      else
        let s := s <| failures := wrap_i32 (s.(failures) + 1) |> in
        if s.(failures) <? MAX_CONSECUTIVE_FAILURES then s
        else
          let s := s <| current := S s.(current) |> in
          s <| tracked := generate s.(current) |> <| failures := 0 |>.

(** A login attempt against the current password, or the user asking for a new
    one. *)
Inductive event := Attempt (success : bool) | Refresh.

Definition step (s : state) (e : event) : state :=
  match e with
  | Attempt ok => check_update_temporary_password true ok s
  | Refresh => s <| current := S s.(current) |>
  end.

(** What was tried, newest first: which password was current, and the result. *)
Fixpoint trace (s : state) (past : list (nat * bool)) (es : list event)
    : state * list (nat * bool) :=
  match es with
  | [] => (s, past)
  | Attempt ok :: es' => trace (step s (Attempt ok)) ((s.(current), ok) :: past) es'
  | Refresh :: es' => trace (step s Refresh) past es'
  end.

(** Wrong attempts on password [n] since the last success or other password. *)
Fixpoint wrong_run (n : nat) (past : list (nat * bool)) : Z :=
  match past with
  | (m, ok) :: past' => if bool_decide (m = n) && negb ok then 1 + wrong_run n past' else 0
  | [] => 0
  end.

Hypothesis generate_nonempty : ∀ i, generate i ≠ [].

Record inv (s : state) (past : list (nat * bool)) : Prop := {
  inv_failures : 0 <= s.(failures) < MAX_CONSECUTIVE_FAILURES;
  inv_past : Forall (λ p, p.1 ≤ s.(current))%nat past;
  inv_tracked : s.(tracked) = [] ∨ ∃ k, (k ≤ s.(current))%nat ∧ s.(tracked) = generate k;
  inv_run : wrong_run s.(current) past
    <= (if bool_decide (s.(tracked) = generate s.(current)) then s.(failures) else 0);
  inv_all : ∀ n pre, past = pre ++ drop (length pre) past →
    wrong_run n (drop (length pre) past) <= MAX_CONSECUTIVE_FAILURES
}.

Lemma wrong_run_fresh n past : Forall (λ p, p.1 < n)%nat past → wrong_run n past = 0.
Proof.
  intros Hf. destruct past as [|[m ok] past]; [done|]. simpl.
  apply Forall_cons in Hf as [Hm _]. simpl in Hm. rewrite bool_decide_false by lia. done.
Qed.

Lemma wrong_run_nonneg n past : 0 <= wrong_run n past.
Proof.
  induction past as [|[m ok] past IH]; simpl; [lia|]. destruct (_ && _); lia.
Qed.

Lemma inv_suffix (P : list (nat * bool) → Prop) x past :
  P (x :: past) → (∀ pre, past = pre ++ drop (length pre) past → P (drop (length pre) past)) →
  ∀ pre, x :: past = pre ++ drop (length pre) (x :: past) → P (drop (length pre) (x :: past)).
Proof.
  intros Hx Hp [|y pre] Heq; simpl in *; [done|]. injection Heq as -> Heq. auto.
Qed.

Lemma attempt_inv s past ok :
  inv s past → inv (step s (Attempt ok)) ((s.(current), ok) :: past).
Proof.
  intros [Hf Hp Ht Hr Ha]. unfold step, check_update_temporary_password. cbn [negb].
  cbv zeta. rewrite bool_decide_false by apply generate_nonempty.
  set (fl := if bool_decide (tracked s = generate (current s)) then failures s else 0).
  assert (0 <= fl < MAX_CONSECUTIVE_FAILURES) as Hfl.
  { unfold fl, MAX_CONSECUTIVE_FAILURES in *. case_bool_decide; lia. }
  assert (track s = mk (generate (current s)) fl (current s)) as ->.
  { unfold fl, track. destruct s as [tr f c]. simpl.
    destruct (decide (tr = generate c)) as [Htr|].
    - rewrite bool_decide_true by done. simpl. by rewrite Htr.
    - by rewrite bool_decide_false by done. }
  assert (Forall (λ p, p.1 ≤ current s)%nat ((current s, ok) :: past)) as Hp'
    by (constructor; [done|exact Hp]).
  assert (wrong_run (current s) ((current s, ok) :: past) <= if ok then 0 else fl + 1) as Hrun.
  { simpl. rewrite bool_decide_true by done. destruct ok; simpl; [lia|].
    unfold fl. unfold MAX_CONSECUTIVE_FAILURES in *. case_bool_decide; lia. }
  assert (∀ n pre, (current s, ok) :: past = pre ++ drop (length pre) ((current s, ok) :: past) →
    wrong_run n (drop (length pre) ((current s, ok) :: past)) <= MAX_CONSECUTIVE_FAILURES) as Ha'.
  { intros n. apply (inv_suffix (λ l, wrong_run n l <= MAX_CONSECUTIVE_FAILURES)); [|apply Ha].
    destruct (decide (n = current s)) as [->|Hne].
    - unfold MAX_CONSECUTIVE_FAILURES in *. destruct ok; lia.
    - simpl. rewrite bool_decide_false by done. simpl. unfold MAX_CONSECUTIVE_FAILURES. lia. }
  unfold MAX_CONSECUTIVE_FAILURES in *.
  destruct ok.
  - split; [simpl; unfold MAX_CONSECUTIVE_FAILURES; lia|done| |simpl in *|done].
    + right. exists (current s). split; [simpl; lia|done].
    + rewrite !bool_decide_true by done. simpl. lia.
  - cbn [upd failures]. rewrite wrap_i32_id by (int_unfold; lia).
    destruct (Z.ltb_spec (fl + 1) 10) as [Hlt|Hge].
    + split; [simpl; unfold MAX_CONSECUTIVE_FAILURES; lia|done| |simpl in *|done].
      * right. exists (current s). split; [simpl; lia|done].
      * rewrite (bool_decide_true (generate _ = generate _)) by done. lia.
    + split; [simpl; unfold MAX_CONSECUTIVE_FAILURES; lia| | |simpl|done].
      * eapply Forall_impl; [exact Hp'|]. simpl. lia.
      * right. exists (S (current s)). split; [simpl; lia|done].
      * rewrite bool_decide_false by lia. simpl.
        by rewrite bool_decide_true by done.
Qed.

Lemma refresh_inv s past : inv s past → inv (step s Refresh) past.
Proof.
  intros [Hf Hp Ht Hr Ha]. split; simpl; try done.
  - eapply Forall_impl; [exact Hp|]. simpl. lia.
  - destruct Ht as [?|(k & ? & ?)]; [by left|right]. exists k. split; [lia|done].
  - rewrite wrong_run_fresh; [clear Hr; simpl; case_bool_decide; lia|].
    eapply Forall_impl; [exact Hp|]. simpl. lia.
Qed.

Lemma trace_inv s past es : inv s past → inv (trace s past es).1 (trace s past es).2.
Proof.
  revert s past. induction es as [|[ok|] es IH]; intros s past Hi; [done|..]; cbn [trace].
  - by apply IH, attempt_inv.
  - by apply IH, refresh_inv.
Qed.

Lemma rotation_init_inv : inv init [].
Proof.
  split; [simpl; unfold MAX_CONSECUTIVE_FAILURES; lia|by constructor|by left
         |simpl; case_bool_decide; lia|].
  intros n pre _. rewrite drop_nil. simpl. unfold MAX_CONSECUTIVE_FAILURES. lia.
Qed.
End gen.
End Rotation.

(** No temporary password outlives ten consecutive wrong guesses: in any
    sequence of attempts and refreshes, at any moment of it, at most ten wrong
    attempts in a row were made against one password. *)
Theorem temporary_password_rotates (generate : nat → bytes)
    (es : list Rotation.event) (n : nat) (newer older : list (nat * bool)) :
  (∀ i, generate i ≠ []) →
  (Rotation.trace generate Rotation.init [] es).2 = newer ++ older →
  Rotation.wrong_run n older <= Rotation.MAX_CONSECUTIVE_FAILURES.
Proof.
  intros Hne Ht.
  destruct (Rotation.trace_inv generate Hne _ _ es (Rotation.rotation_init_inv generate)) as [_ _ _ _ Ha].
  rewrite Ht in Ha. specialize (Ha n newer). rewrite drop_app_length in Ha. auto.
Qed.

Lemma temporary_password_rotates_witness :
  Rotation.wrong_run 0
    (Rotation.trace (λ i, replicate (S i) Byte.x61) Rotation.init []
       (replicate 12 (Rotation.Attempt false))).2 = 0
  ∧ Rotation.wrong_run 0
    (drop 2 (Rotation.trace (λ i, replicate (S i) Byte.x61) Rotation.init []
       (replicate 12 (Rotation.Attempt false))).2) <= Rotation.MAX_CONSECUTIVE_FAILURES.
Proof.
  split; [vm_compute; reflexivity|].
  apply (temporary_password_rotates (λ i, replicate (S i) Byte.x61)
    (replicate 12 (Rotation.Attempt false)) 0 [(1%nat, false); (1%nat, false)]).
  - intros i. done.
  - vm_compute. reflexivity.
Defined.
