(* ===== verification/LoginFlow.v ===== *)
(** * How a connection becomes authorized

    [src/src/server/connection.rs]: the part of [on_message] that runs before
    authorization (login requests, 2FA answers, switch-sides responses), the
    connection manager's [Authorize], [send_logon_response_and_keep_alive],
    [prepare_terminal_login_for_authorization],
    [handle_login_request_without_validation] and
    [connect_port_forward_if_needed].  What the handlers ask of their
    surroundings while handling one event (the whitelist, the throttle, the
    password check, TOTP, the connect) is the event's [answers]. *)
From S2P Require Import Prelude FlowControl PortMessages Passwords.

Inductive AuthConnType := Remote | FileTransferConn | PortForwardConn | ViewCameraConn | TerminalConn.
#[export] Instance AuthConnType_eq_dec : EqDecision AuthConnType.
Proof. solve_decision. Defined.
Inductive ConnAuditTwoFactor := NoTwoFactor | Totp | TrustedDevice.

(** The [union] of a login request; [OtherUnion] is a variant this build does
    not know. *)
Inductive LoginUnion :=
| LFileTransfer (dir : str) (show_hidden : bool)
| LViewCamera
| LTerminal (service_id : str)
| LPortForward (host : str) (port : Z) (multiplex : bool)
| LOther.

Record LoginRequest := mk_login_request {
  my_id : str;
  hwid : bytes;
  password : bytes;
  os_username : str;
  version_ge_1_2_0 : bool;
  options : option bool;                (* [option] and its [terminal_persistent] = Yes *)
  union : option LoginUnion
}.

Inductive permission := PFile | PCamera | PTerminal | PTunnel.

(** What the surroundings answer while one event is handled. *)
Record answers := mk_answers {
  scope_ok : bool;                      (* [check_login_scope] *)
  id_refusal : option str;              (* [check_id_whitelist]: the error sent, if any *)
  permitted : permission → bool;        (* [Self::permission] *)
  privacy_mode_off : bool;              (* [check_privacy_mode_on] *)
  target_is_me : bool;                  (* direct IP access, or my own id *)
  windows : bool;
  installed : bool;
  prelogin : bool;
  click_only : bool;                    (* the approve mode wants a click *)
  recent_session : bool → bool;         (* [is_recent_session tfa] *)
  throttle_refusal : option str;        (* [check_failure]: the error sent, if any *)
  password_auth : option ConnAuditPrimaryAuth;   (* [validate_password] *)
  trusted_device : bool;                (* enabled, known, not outdated, same peer *)
  totp_check : option bool;             (* [check_current]: [None] is an error *)
  uuid_matches : bool;                  (* the switch-sides uuid is the stored one *)
  os_refusal : option str;              (* [check_failure_with_scope], OS credentials *)
  os_gate_free : bool;
  token_error : option str;             (* [fill_terminal_user_token] *)
  service_user_mismatch : bool;
  violation_closes : bool;              (* the option that ends a session out of scope *)
  connect_ok : bool                     (* [TcpStream::connect] within 3 s *)
}.

Inductive effect :=
| SendLoginError (m : str)
| StartCm (authorized : bool)
| StartCmIpc
| UpdateFailure (remove : bool) (bucket : nat)
| UpdateOsFailure (remove : bool)
| CheckUpdateTemporaryPassword (success : bool)
| ClearIdWhitelistFailures
| UpdateOrInsertSession
| SetSession2fa
| AddTrustedDevice
| NewAuthedConn (t : AuthConnType).

Module Conn.
Record st := mk {
  authorized : bool;
  awaiting_2fa : bool;
  require_2fa : bool;
  from_switch : bool;
  lr : option LoginRequest;
  file_transfer : option (str * bool);
  view_camera : bool;
  terminal : bool;
  terminal_user_token : bool;
  port_forward_address : str;
  port_forward : bool;          (* a socket or a mux *)
  primary_auth : ConnAuditPrimaryAuth;
  two_factor : ConnAuditTwoFactor;
  unauthorized_id : bool;
  options_in_login : option bool;
  terminal_service_id : str;
  terminal_persistent : bool;
  authed_conn : option AuthConnType
}.
#[global] Instance st_eta : Eta st := λ s,
  mk (authorized s) (awaiting_2fa s) (require_2fa s) (from_switch s) (lr s) (file_transfer s)
     (view_camera s) (terminal s) (terminal_user_token s) (port_forward_address s)
     (port_forward s) (primary_auth s) (two_factor s) (unauthorized_id s)
     (options_in_login s) (terminal_service_id s) (terminal_persistent s) (authed_conn s).

Definition init (require_2fa : bool) : st :=
  mk false false require_2fa false None None false false false [] false
     NoPrimaryAuth NoTwoFactor true None [] false None.

(** The new state, what was done, and whether the connection goes on. *)
Definition outcome : Type := st * list effect * bool.

Definition reset_session_scope_for_login (s : st) : st :=
  s <| file_transfer := None |> <| view_camera := false |> <| terminal := false |>
    <| port_forward_address := [] |> <| terminal_persistent := false |>.

Definition should_use_terminal_os_login_scope (a : answers) (is_terminal : bool) (user : str) : bool :=
  a.(windows) && is_terminal && negb (bool_decide (trim user = [])).

Definition handle_login_request_without_validation (a : answers) (r : LoginRequest) (s : st) : st :=
  let s := s <| lr := Some r |> in
  let s := match r.(options) with Some _ => s <| options_in_login := r.(options) |> | None => s end in
  if s.(require_2fa) && negb (bool_decide (r.(hwid) = [])) && a.(trusted_device)
  then s <| two_factor := TrustedDevice |> <| require_2fa := false |> else s.

(** [is_recent_session]: an empty password never matches, and a match records
    how the peer was authenticated. *)
Definition is_recent_session (a : answers) (tfa : bool) (s : st) : st * bool :=
  if negb (bool_decide ((password <$> s.(lr)) = Some []) || bool_decide (s.(lr) = None))
     && a.(recent_session) tfa
  then (if tfa then s <| two_factor := Totp |>
        else s <| primary_auth := TemporaryPassword |>, true)
  else (s, false).

(** [None] goes on; [Some keep] ends the handler with [keep]. *)
Definition prepare_terminal_login_for_authorization (a : answers) (s : st)
    : st * list effect * option bool :=
  if negb s.(terminal) || s.(terminal_user_token) then (s, [], None)
  else
    let user := default [] (os_username <$> s.(lr)) in
    let is_os := should_use_terminal_os_login_scope a s.(terminal) user in
    match (if is_os then a.(os_refusal) else None) with
    | Some m => (s, [SendLoginError m], Some false)
    | None =>
    if is_os && negb a.(os_gate_free)
    then (s, [SendLoginError (lit "Please try 1 minute later")], Some false)
    else match a.(token_error) with
         | Some m => (s, (if is_os then [UpdateOsFailure false] else []) ++ [SendLoginError m],
                      Some false)
         | None =>
             let s := s <| terminal_user_token := true |> in
             let es := if is_os then [UpdateOsFailure true] else [] in
             if a.(service_user_mismatch)
             then (s, es ++ [SendLoginError (lit "Terminal service user mismatch detected.")],
                   Some false)
             else (s, es ++ (if is_os then [StartCmIpc] else []), None)
         end
    end.

Definition connect_port_forward_if_needed (a : answers) (s : st) : st * list effect * bool :=
  if s.(port_forward) then (s, [], true)
  else match union <$> s.(lr) with
       | Some (Some (LPortForward host port multiplex)) =>
           if multiplex then (s <| port_forward := true |>, [], true)
           else
             let '(addr, is_rdp) := normalize_port_forward_target host port in
             let s := s <| port_forward_address := addr |> in
             if a.(connect_ok) then (s <| port_forward := true |>, [], true)
             else (s, [SendLoginError (lit "Failed to access remote "
                         ++ (if is_rdp then lit "RDP" else addr)
                         ++ lit ". Please make sure it is reachable/open.")], false)
       | _ => (s, [], true)
       end.

Definition conn_type (s : st) : AuthConnType :=
  if bool_decide (is_Some s.(file_transfer)) then FileTransferConn
  else if s.(port_forward) then PortForwardConn
  else if s.(view_camera) then ViewCameraConn
  else if s.(terminal) then TerminalConn else Remote.

Definition normalize_conn_audit_auth_fields (s : st) : st :=
  match s.(primary_auth) with
  | Click | SwitchSides => s <| two_factor := NoTwoFactor |>
  | _ => s
  end.

Definition send_logon_response_and_keep_alive (a : answers) (s : st) : outcome :=
  if s.(authorized) then (s, [], true)
  else
    let '(s, tfa_ok) := if s.(require_2fa)
                        then let '(s, recent) := is_recent_session a true s in
                             (s, recent || s.(from_switch))
                        else (s, true) in
    if negb tfa_ok
    then (s <| awaiting_2fa := true |>, [SendLoginError (lit "2FA Required")], true)
    else
      let s := s <| awaiting_2fa := false |> in
      let '(s, es, prep) := prepare_terminal_login_for_authorization a s in
      match prep with
      | Some keep_alive => (s, es, keep_alive)
      | None =>
          let '(s, es', ok) := connect_port_forward_if_needed a s in
          if negb ok then (s, es ++ es', false)
          else
            let s := s <| authorized := true |> <| unauthorized_id := false |>
                       <| authed_conn := Some (conn_type s) |> in
            (normalize_conn_audit_auth_fields s,
             es ++ es' ++ [ClearIdWhitelistFailures; NewAuthedConn (conn_type s)], true)
      end.

(** Continue a handler that may have ended. *)
Definition then_ (o : outcome) (k : st → outcome) : outcome :=
  let '(s, es, keep) := o in
  if keep then let '(s', es', keep') := k s in (s', es ++ es', keep') else (s, es, false).

Definition refuse (m : str) (s : st) : outcome := (s, [SendLoginError m], false).

(** The scope of the request and its permission, [None] when refused. *)
Definition enter_scope (a : answers) (r : LoginRequest) (s : st) : st + outcome :=
  match r.(union) with
  | Some (LFileTransfer dir show_hidden) =>
      if a.(permitted) PFile then inl (s <| file_transfer := Some (dir, show_hidden) |>)
      else inr (refuse (lit "No permission of file transfer") s)
  | Some LViewCamera =>
      if a.(permitted) PCamera then inl (s <| view_camera := true |>)
      else inr (refuse (lit "No permission of viewing camera") s)
  | Some (LTerminal service_id) =>
      if negb (a.(permitted) PTerminal) then inr (refuse (lit "No permission of terminal") s)
      else if a.(windows) && negb (bool_decide (r.(os_username) = [])) && negb a.(installed)
      then inr (refuse (lit "Supported only in the installed version.") s)
      else inl (s <| terminal := true |>
                  <| terminal_persistent := default false s.(options_in_login) |>
                  <| terminal_service_id := service_id |>)
  | Some (LPortForward host port _) =>
      if a.(permitted) PTunnel
      then inl (s <| port_forward_address := (normalize_port_forward_target host port).1 |>)
      else inr (refuse (lit "No permission of IP tunneling") s)
  | Some LOther | None => if a.(privacy_mode_off) then inl s
      else inr (refuse (lit "Someone turns on privacy mode, exit") s)
  end.

(** Run [prepare_terminal_login_for_authorization] when the OS credentials are
    what the login relies on, then [k]. *)
Definition with_os_login (a : answers) (r : LoginRequest) (s : st) (k : st → outcome) : outcome :=
  if should_use_terminal_os_login_scope a s.(terminal) r.(os_username) then
    let '(s, es, prep) := prepare_terminal_login_for_authorization a s in
    match prep with
    | Some keep_alive => (s, es, keep_alive)
    | None => let '(s, es', keep) := k s in (s, es ++ es', keep)
    end
  else k s.

(** The authentication proper, once the scope was entered. *)
Definition authenticate (a : answers) (r : LoginRequest) (s : st) : outcome :=
  if a.(click_only) then
    with_os_login a r s (λ s,
      (s, StartCm false ::
          (if r.(version_ge_1_2_0) then [SendLoginError (lit "No Password Access")] else []), true))
  else
    let '(s, recent) := is_recent_session a false s in
    if recent then
      then_ (send_logon_response_and_keep_alive a s) (λ s, (s, [StartCm s.(authorized)], true))
    else if bool_decide (r.(password) = []) then
      with_os_login a r s (λ s, (s, [StartCm false], true))
    else match a.(throttle_refusal) with
    | Some m => (s, [SendLoginError m], true)
    | None =>
    match a.(password_auth) with
         | None => (s, [UpdateFailure false 0; CheckUpdateTemporaryPassword false;
                        SendLoginError (lit "Wrong Password"); StartCm false], true)
         | Some auth =>
             let s := s <| primary_auth := auth |> in
             let es := match auth with
                       | TemporaryPassword => [UpdateOrInsertSession; CheckUpdateTemporaryPassword true]
                       | _ => [] end ++ [UpdateFailure true 0] in
             then_ (s, es, true) (λ s,
               then_ (send_logon_response_and_keep_alive a s)
                 (λ s, (s, [StartCm s.(authorized)], true)))
         end
    end.

Definition on_login_request (a : answers) (r : LoginRequest) (s : st) : outcome :=
  if negb a.(scope_ok) then refuse (lit "Connection not allowed") s
  else
    let s := s <| awaiting_2fa := false |> in
    let s := handle_login_request_without_validation a r s in
    let s := reset_session_scope_for_login s in
    match a.(id_refusal) with
    | Some m => refuse m s
    | None =>
    match enter_scope a r s with
    | inr o => o
    | inl s =>
        if negb a.(target_is_me) then refuse (lit "Offline") s
        else if a.(windows) && s.(terminal) && bool_decide (trim r.(os_username) = [])
                && a.(prelogin)
        then refuse (lit "No active console user logged on, please connect and logon first.") s
        else
          let es := if should_use_terminal_os_login_scope a s.(terminal) r.(os_username)
                    then [] else [StartCmIpc] in
          then_ (s, es, true) (authenticate a r)
    end
    end.

Definition on_auth_2fa (a : answers) (hwid : bytes) (s : st) : outcome :=
  if negb s.(awaiting_2fa) then (s, [], true)
  else match a.(throttle_refusal) with
  | Some m => (s, [SendLoginError m], true)
  | None =>
  if s.(require_2fa) then
    match a.(totp_check) with
    | Some true =>
        let s := s <| require_2fa := false |> <| two_factor := Totp |> in
        then_ (s, [UpdateFailure true 1; SetSession2fa], true) (λ s,
          then_ (send_logon_response_and_keep_alive a s) (λ s,
            (s, StartCm s.(authorized) ::
                (if negb (bool_decide (hwid = [])) then [AddTrustedDevice] else []), true)))
    | Some false => (s, [UpdateFailure false 1; SendLoginError (lit "Wrong 2FA Code")], true)
    | None => (s, [], true)
    end
  else (s, [], true)
  end.

(** [SwitchSidesResponse]; the stored uuid is consumed by the lookup. *)
Definition on_switch_sides (a : answers) (r : option LoginRequest) (s : st) : outcome :=
  match r with
  | None => (s, [], true)
  | Some r =>
      if negb a.(uuid_matches) then (s, [], true)
      else if bool_decide (is_Some r.(union)) then refuse (lit "Connection not allowed") s
      else
        let s := reset_session_scope_for_login s in
        let s := handle_login_request_without_validation a r s in
        match a.(id_refusal) with
        | Some m => refuse m s
        | None =>
          let s := s <| from_switch := true |> <| primary_auth := SwitchSides |> in
          then_ (send_logon_response_and_keep_alive a s) (λ s,
            (s, [StartCm s.(authorized); StartCmIpc], true))
        end
  end.

(** [ipc::Data::Authorize]: the user clicked accept. *)
Definition on_authorize (a : answers) (s : st) : outcome :=
  send_logon_response_and_keep_alive a
    (s <| primary_auth := Click |> <| require_2fa := false |>).

Inductive event :=
| LoginMsg (r : LoginRequest) (a : answers)
| Auth2fa (hwid : bytes) (a : answers)
| SwitchSidesResponse (r : option LoginRequest) (a : answers)
| Authorize (a : answers).

(** The guards at the top of [on_message]: an authorized connection drops login
    requests, and limited sessions refuse what is out of their scope (none of
    the messages here is in the scope of one). *)
Definition guarded (a : answers) (s : st) (k : st → outcome) : outcome :=
  if s.(authorized) && negb (bool_decide (s.(authed_conn) = Some Remote))
  then (s, [], negb a.(violation_closes)) else k s.

Definition step (s : st) (e : event) : outcome :=
  match e with
  | LoginMsg r a => if s.(authorized) then (s, [], true) else on_login_request a r s
  | Auth2fa h a => guarded a s (on_auth_2fa a h)
  | SwitchSidesResponse r a => guarded a s (on_switch_sides a r)
  | Authorize a => on_authorize a s
  end.

(** A connection's life: it stops at the first handler that ends it. *)
Fixpoint run (s : st) (es : list event) : st * list effect :=
  match es with
  | [] => (s, [])
  | e :: es' =>
      let '(s', fs, keep) := step s e in
      if keep then let '(t, fs') := run s' es' in (t, fs ++ fs') else (s', fs)
  end.

(** ** What lets a peer in

    [primary]: an event that authenticates the peer. *)
Definition primary (e : event) : Prop :=
  match e with
  | LoginMsg r a => a.(id_refusal) = None ∧ a.(target_is_me) = true ∧ a.(click_only) = false
      ∧ r.(password) ≠ []
      ∧ (a.(recent_session) false = true
         ∨ a.(throttle_refusal) = None ∧ is_Some a.(password_auth))
  | SwitchSidesResponse (Some r) a =>
      a.(uuid_matches) = true ∧ r.(union) = None ∧ a.(id_refusal) = None
  | Authorize _ => True
  | _ => False
  end.

(** [second]: an event that answers for a second factor. *)
Definition second (e : event) : Prop :=
  match e with
  | LoginMsg r a => r.(hwid) ≠ [] ∧ a.(trusted_device) = true ∨ a.(recent_session) true = true
  | Auth2fa _ a => a.(throttle_refusal) = None ∧ a.(totp_check) = Some true
  | SwitchSidesResponse _ a => a.(uuid_matches) = true
  | Authorize _ => True
  end.

(** A login request of a limited kind whose permission was granted. *)
Definition grants (p : permission) (e : event) : Prop :=
  match e with
  | LoginMsg r a => a.(permitted) p = true ∧
      match r.(union), p with
      | Some (LFileTransfer _ _), PFile | Some LViewCamera, PCamera
      | Some (LTerminal _), PTerminal | Some (LPortForward _ _ _), PTunnel => True
      | _, _ => False
      end
  | _ => False
  end.

Definition some_event (P : event → Prop) (h : list event) : Prop := ∃ e, e ∈ h ∧ P e.

Lemma some_event_here P e h : P e → some_event P (e :: h).
Proof. exists e. split; [left|done]. Qed.
Lemma some_event_there P e h : some_event P h → some_event P (e :: h).
Proof. intros (x & ? & ?). exists x. split; [by right|done]. Qed.

Definition wants_tunnel (s : st) : Prop :=
  ∃ r host port m, s.(lr) = Some r ∧ r.(union) = Some (LPortForward host port m).

Definition kind_granted (h : list event) (k : AuthConnType) : Prop :=
  match k with
  | FileTransferConn => some_event (grants PFile) h
  | ViewCameraConn => some_event (grants PCamera) h
  | TerminalConn => some_event (grants PTerminal) h
  | PortForwardConn => some_event (grants PTunnel) h
  | Remote => True
  end.

Section history.
(** Whether a second factor was configured when the connection began. *)
Context (tfa : bool).

Definition factor_ok (h : list event) : Prop := tfa = false ∨ some_event second h.

(** What holds of a connection after the events [h], newest first. *)
Record base (h : list event) (s : st) : Prop := {
  base_2fa : s.(require_2fa) = false → factor_ok h;
  base_switch : s.(from_switch) = true → some_event second h;
  base_file : is_Some s.(file_transfer) → some_event (grants PFile) h;
  base_camera : s.(view_camera) = true → some_event (grants PCamera) h;
  base_terminal : s.(terminal) = true → some_event (grants PTerminal) h;
  base_tunnel : s.(port_forward) = true → some_event (grants PTunnel) h;
  base_authorized : s.(authorized) = true →
    some_event primary h ∧ factor_ok h ∧ ∃ k, s.(authed_conn) = Some k ∧ kind_granted h k
}.
Record inv (h : list event) (s : st) : Prop := {
  inv_base : base h s;
  inv_tunnel : wants_tunnel s → some_event (grants PTunnel) h;
  inv_awaiting : s.(awaiting_2fa) = true → some_event primary h
}.

Lemma base_more e h s : base h s → base (e :: h) s.
Proof.
  intros [H1 H2 H3 H4 H5 H6 H7].
  assert (factor_ok h → factor_ok (e :: h)) as Hf
    by (intros [?|?]; [by left|right; by apply some_event_there]).
  split; eauto using some_event_there.
  intros Ha. destruct (H7 Ha) as (? & ? & k & ? & Hk).
  split; [by apply some_event_there|]. split; [auto|]. exists k. split; [done|].
  destruct k; simpl in *; auto using some_event_there.
Qed.
Lemma inv_more e h s : inv h s → inv (e :: h) s.
Proof. intros [Hb Ht Ha]. split; eauto using base_more, some_event_there. Qed.

(** Recording how the peer was authenticated changes nothing else. *)
Definition same (s t : st) : Prop :=
  t.(authorized) = s.(authorized) ∧ t.(require_2fa) = s.(require_2fa)
  ∧ t.(from_switch) = s.(from_switch) ∧ t.(lr) = s.(lr) ∧ t.(file_transfer) = s.(file_transfer)
  ∧ t.(view_camera) = s.(view_camera) ∧ t.(terminal) = s.(terminal)
  ∧ t.(port_forward) = s.(port_forward) ∧ t.(authed_conn) = s.(authed_conn)
  ∧ t.(awaiting_2fa) = s.(awaiting_2fa).

Lemma base_same h s t : same s t → base h s → base h t.
Proof.
  intros (E1 & E2 & E3 & E4 & E5 & E6 & E7 & E8 & E9 & E10) [H1 H2 H3 H4 H5 H6 H7].
  split; rewrite ?E1, ?E2, ?E3, ?E5, ?E6, ?E7, ?E8, ?E9; auto.
Qed.
Lemma inv_same h s t : same s t → inv h s → inv h t.
Proof.
  intros Hs [Hb Ht Ha]. pose proof Hs as (E1 & E2 & E3 & E4 & E5 & E6 & E7 & E8 & E9 & E10).
  split; [by apply (base_same h s)| |by rewrite E10].
  unfold wants_tunnel. rewrite E4. exact Ht.
Qed.

Lemma recent_same a b s : same s (is_recent_session a b s).1.
Proof.
  unfold is_recent_session. destruct (_ && _); [destruct b|]; unfold same; simpl; auto 12.
Qed.
Lemma recent_true a b s :
  (is_recent_session a b s).2 = true →
  a.(recent_session) b = true ∧ ∃ r, s.(lr) = Some r ∧ r.(password) ≠ [].
Proof.
  unfold is_recent_session. destruct (_ && _) eqn:H; [|done]. intros _.
  apply andb_true_iff in H as [H Hr]. split; [done|].
  apply negb_true_iff, orb_false_iff in H as [H1 H2]. apply bool_decide_eq_false in H1, H2.
  destruct (lr s) as [r|]; [|done]. exists r. split; [done|]. simpl in H1. congruence.
Qed.

Lemma prepare_same a s : 
  let r := prepare_terminal_login_for_authorization a s in
  same s r.1.1.
Proof.
  cbv zeta. unfold prepare_terminal_login_for_authorization, same.
  repeat (case_match; simpl); auto 12.
Qed.

Lemma connect_base h a s :
  base h s → (wants_tunnel s → some_event (grants PTunnel) h) →
  base h (connect_port_forward_if_needed a s).1.1
  ∧ (connect_port_forward_if_needed a s).1.1.(lr) = s.(lr).
Proof.
  intros Hb Ht. unfold connect_port_forward_if_needed.
  destruct (port_forward s) eqn:Hp; [done|].
  destruct (lr s) as [r|] eqn:Hlr; simpl; [|auto].
  destruct (union r) as [[| | |host port m|]|] eqn:Hu; simpl; auto.
  assert (some_event (grants PTunnel) h) as Hg.
  { apply Ht. exists r, host, port, m. auto. }
  destruct m; simpl.
  - split; [|done]. destruct Hb. by split.
  - destruct (normalize_port_forward_target host port) as [addr rdp].
    destruct (connect_ok a); simpl; (split; [|done]); destruct Hb; by split.
Qed.

Lemma conn_type_granted h s : base h s → kind_granted h (conn_type s).
Proof.
  intros [H1 H2 H3 H4 H5 H6 H7]. unfold conn_type.
  case_bool_decide; simpl; [auto|]. destruct (port_forward s); simpl; [auto|].
  destruct (view_camera s); simpl; [auto|]. destruct (terminal s); simpl; auto.
Qed.

Lemma logon_inv h a s :
  base h s → (wants_tunnel s → some_event (grants PTunnel) h) →
  some_event primary h → (a.(recent_session) true = true → factor_ok h) →
  inv h (send_logon_response_and_keep_alive a s).1.1
  ∨ (authorized s = true ∧ (send_logon_response_and_keep_alive a s).1.1 = s).
Proof.
  intros Hb Ht Hp Hr. unfold send_logon_response_and_keep_alive.
  destruct (authorized s) eqn:Hauth; [auto|]. left.
  match goal with |- context [let '(_, _) := ?e in _] => destruct e as [s1 ok] eqn:H1 end.
  assert (same s s1 ∧ (ok = true → factor_ok h)) as [Hs Hok].
  { destruct (require_2fa s) eqn:H2.
    - pose proof (recent_same a true s) as Hs. pose proof (recent_true a true s) as Hrt.
      destruct (is_recent_session a true s) as [s2 rc]. injection H1 as <- <-.
      split; [done|]. intros [Hrc|Hsw]%orb_true_iff.
      + apply Hr. by destruct (Hrt Hrc).
      + destruct Hs as (_ & _ & E & _). simpl in E. rewrite E in Hsw.
        right. by apply Hb.
    - injection H1 as <- <-. split; [unfold same; auto 12|]. intros _. by apply Hb. }
  assert (base h s1) as Hb1 by (by apply (base_same h s)).
  assert (wants_tunnel s1 → some_event (grants PTunnel) h) as Ht1.
  { destruct Hs as (_ & _ & _ & E & _). unfold wants_tunnel. by rewrite E. }
  destruct ok; cbn [negb]; cbv zeta.
  2: { split; simpl; [destruct Hb1; by split|exact Ht1|done]. }
  set (s2 := s1 <| awaiting_2fa := false |>).
  assert (base h s2) as Hb2 by (destruct Hb1; by split).
  pose proof (prepare_same a s2) as Hps. cbv zeta in Hps.
  destruct (prepare_terminal_login_for_authorization a s2) as [[s3 es] prep]. simpl in Hps.
  assert (base h s3) as Hb3 by (by apply (base_same h s2)).
  assert (wants_tunnel s3 → some_event (grants PTunnel) h) as Ht3.
  { destruct Hps as (_ & _ & _ & E & _). unfold wants_tunnel. rewrite E. exact Ht1. }
  assert (awaiting_2fa s3 = false) as Ha3.
  { destruct Hps as (_ & _ & _ & _ & _ & _ & _ & _ & _ & E). rewrite E. done. }
  destruct prep as [keep|]; [split; simpl; [done|done|congruence]|].
  destruct (connect_base h a s3 Hb3 Ht3) as [Hb4 Hl4].
  assert (awaiting_2fa (connect_port_forward_if_needed a s3).1.1 = awaiting_2fa s3) as Ha4.
  { unfold connect_port_forward_if_needed. destruct (port_forward s3); [done|].
    destruct (union <$> lr s3) as [[[| | |? ? []|]|]|]; try done.
    destruct (normalize_port_forward_target _ _). by destruct (connect_ok a). }
  destruct (connect_port_forward_if_needed a s3) as [[s4 es'] ok].
  cbn [fst snd] in *. destruct ok; cbn [negb]; cbv zeta.
  2: { split; simpl; [done| |congruence]. unfold wants_tunnel. rewrite Hl4. exact Ht3. }
  pose proof (conn_type_granted h s4 Hb4) as Hk.
  set (s5 := s4 <| authorized := true |> <| unauthorized_id := false |>
                <| authed_conn := Some (conn_type s4) |>).
  assert (inv h s5) as Hi5.
  { split; simpl; [|unfold wants_tunnel; simpl; rewrite Hl4; exact Ht3|congruence].
    destruct Hb4 as [G1 G2 G3 G4 G5 G6 G7]. split; simpl; auto.
    intros _. split; [done|]. split; [auto|]. eauto. }
  apply (inv_same h s5); [|exact Hi5].
  unfold normalize_conn_audit_auth_fields. destruct (primary_auth s5); unfold same; simpl; auto 12.
Qed.

(** *** Handlers

    A handler that goes on keeps the invariant; one that ends the connection
    may leave a refused request behind. *)
Definition good (h : list event) (o : outcome) : Prop :=
  base h o.1.1 ∧ (o.2 = true → inv h o.1.1).

Lemma good_inv h s es keep : inv h s → good h (s, es, keep).
Proof. intros Hi. split; simpl; [by destruct Hi|done]. Qed.

Lemma good_end h s es : base h s → good h (s, es, false).
Proof. intros Hb. split; simpl; [done|done]. Qed.

Lemma good_then h o k : good h o → (∀ s, inv h s → good h (k s)) → good h (then_ o k).
Proof.
  destruct o as [[s es] keep]. intros [Hb Hi] Hk. simpl in *. destruct keep; [|by apply good_end].
  specialize (Hk s (Hi eq_refl)). destruct (k s) as [[s' es'] keep']. exact Hk.
Qed.

Lemma logon_good h a s :
  base h s → (wants_tunnel s → some_event (grants PTunnel) h) →
  some_event primary h → (a.(recent_session) true = true → factor_ok h) →
  good h (send_logon_response_and_keep_alive a s).
Proof.
  intros Hb Ht Hp Hr. destruct (logon_inv h a s Hb Ht Hp Hr) as [Hi|[_ Heq]].
  - destruct (send_logon_response_and_keep_alive a s) as [[t es] k]. by apply good_inv.
  - destruct (send_logon_response_and_keep_alive a s) as [[t es] k]. simpl in Heq. subst t.
    apply good_inv. by split.
Qed.

Lemma handle_login_base h a r s :
  base h s → (r.(hwid) ≠ [] → a.(trusted_device) = true → factor_ok h) →
  base h (handle_login_request_without_validation a r s)
  ∧ (handle_login_request_without_validation a r s).(lr) = Some r
  ∧ (handle_login_request_without_validation a r s).(awaiting_2fa) = s.(awaiting_2fa)
  ∧ (handle_login_request_without_validation a r s).(authorized) = s.(authorized).
Proof.
  intros [H1 H2 H3 H4 H5 H6 H7] Ht. unfold handle_login_request_without_validation.
  assert (∀ t, t = s <| lr := Some r |> ∨ t = s <| lr := Some r |> <| options_in_login := options r |> →
    base h t ∧ lr t = Some r ∧ awaiting_2fa t = awaiting_2fa s ∧ authorized t = authorized s) as Hg.
  { intros t [->| ->]; (split; [by split|done]). }
  destruct (Hg (match options r with
    | Some _ => s <| lr := Some r |> <| options_in_login := options r |>
    | None => s <| lr := Some r |> end)) as (Hb & Hl & Ha & Hau);
    [destruct (options r); auto|].
  destruct (_ && _) eqn:Hc; [|done].
  apply andb_true_iff in Hc as [Hc Htd]. apply andb_true_iff in Hc as [_ Hh].
  apply negb_true_iff, bool_decide_eq_false in Hh.
  split; [|done]. destruct Hb as [G1 G2 G3 G4 G5 G6 G7]. split; simpl; auto.
Qed.

Lemma reset_base h s : base h s → base h (reset_session_scope_for_login s).
Proof. intros [H1 H2 H3 H4 H5 H6 H7]. split; simpl; try done. Qed.

(** Entering the scope of a request records its permission. *)
Lemma enter_scope_good h a r s :
  let e := LoginMsg r a in
  base (e :: h) s → s.(lr) = Some r → s.(awaiting_2fa) = false →
  match enter_scope a r s with
  | inl t => base (e :: h) t ∧ t.(lr) = Some r ∧ t.(awaiting_2fa) = false
             ∧ (wants_tunnel t → some_event (grants PTunnel) (e :: h))
  | inr o => good (e :: h) o
  end.
Proof.
  cbv zeta. intros Hb Hl Ha. unfold enter_scope.
  assert (∀ m, good (LoginMsg r a :: h) (refuse m s)) as Hr by (intros; by apply good_end).
  assert (∀ p, permitted a p = true → match union r, p with
      | Some (LFileTransfer _ _), PFile | Some LViewCamera, PCamera
      | Some (LTerminal _), PTerminal | Some (LPortForward _ _ _), PTunnel => True
      | _, _ => False end → some_event (grants p) (LoginMsg r a :: h)) as Hg.
  { intros p Hp Hu. apply some_event_here. split; done. }
  assert (∀ t, lr t = Some r → (∀ host port m, union r ≠ Some (LPortForward host port m)) →
      wants_tunnel t → some_event (grants PTunnel) (LoginMsg r a :: h)) as Hnt.
  { intros t Ht Hu (r' & host & port & m & Hr' & Hu'). naive_solver. }
  destruct Hb as [H1 H2 H3 H4 H5 H6 H7].
  destruct (union r) as [[dir sh| |svc|host port m|]|] eqn:Hu; try rewrite Hu in Hg, Hnt.
  - destruct (permitted a PFile) eqn:Hp; [|apply Hr]. simpl.
    split; [split; simpl; auto|]. split; [done|]. split; [done|]. by apply Hnt.
  - destruct (permitted a PCamera) eqn:Hp; [|apply Hr]. simpl.
    split; [split; simpl; auto|]. split; [done|]. split; [done|]. by apply Hnt.
  - destruct (permitted a PTerminal) eqn:Hp; simpl; [|apply Hr].
    destruct (_ && _); [apply Hr|]. simpl.
    split; [split; simpl; auto|]. split; [done|]. split; [done|]. by apply Hnt.
  - destruct (permitted a PTunnel) eqn:Hp; [|apply Hr]. simpl.
    split; [split; simpl; auto|]. auto.
  - destruct (privacy_mode_off a); [|apply Hr]. split; [by split|]. split; [done|].
    split; [done|]. by apply Hnt.
  - destruct (privacy_mode_off a); [|apply Hr]. split; [by split|]. split; [done|].
    split; [done|]. by apply Hnt.
Qed.

Lemma with_os_login_good h a r s k :
  inv h s → (∀ t, inv h t → good h (k t)) → good h (with_os_login a r s k).
Proof.
  intros Hi Hk. unfold with_os_login. destruct (should_use_terminal_os_login_scope _ _ _); [|auto].
  pose proof (prepare_same a s) as Hs. cbv zeta in Hs.
  destruct (prepare_terminal_login_for_authorization a s) as [[t es] [keep|]]; simpl in Hs;
    pose proof (inv_same h s t Hs Hi) as Hi'; [by apply good_inv|].
  specialize (Hk t Hi'). destruct (k t) as [[t' es'] keep]. exact Hk.
Qed.

Lemma authenticate_good h a r s :
  let e := LoginMsg r a in
  a.(id_refusal) = None → a.(target_is_me) = true →
  inv (e :: h) s → s.(lr) = Some r → good (e :: h) (authenticate a r s).
Proof.
  cbv zeta. intros Hid Hme Hi Hl. unfold authenticate.
  assert (∀ t es keep, inv (LoginMsg r a :: h) t → good (LoginMsg r a :: h) (t, es, keep)) as Hgi
    by (intros; by apply good_inv).
  destruct (click_only a) eqn:Hck; [apply with_os_login_good; auto|].
  pose proof (recent_same a false s) as Hs. pose proof (recent_true a false s) as Hrt.
  destruct (is_recent_session a false s) as [s1 rc]. cbn [fst snd] in *.
  pose proof (inv_same _ s s1 Hs Hi) as Hi1.
  assert (lr s1 = Some r) as Hl1 by (destruct Hs as (_ & _ & _ & E & _); congruence).
  assert (∀ t, inv (LoginMsg r a :: h) t → some_event primary (LoginMsg r a :: h) →
    good (LoginMsg r a :: h) (then_ (send_logon_response_and_keep_alive a t)
      (λ s, (s, [StartCm s.(authorized)], true)))) as Hlogon.
  { intros t Ht Hp. apply good_then; [|auto]. destruct Ht as [Hb Htu _].
    apply logon_good; auto. intros Hrs. right. apply some_event_here. by right. }
  destruct rc.
  { apply Hlogon; [done|]. destruct (Hrt eq_refl) as (Hrf & r' & Hr' & Hpw).
    apply some_event_here. rewrite Hl in Hr'. injection Hr' as <-. simpl. auto 10. }
  case_bool_decide as Hpw; [apply with_os_login_good; auto|].
  destruct (throttle_refusal a) eqn:Hth; [auto|].
  destruct (password_auth a) as [auth|] eqn:Hpa; [|auto].
  apply good_then.
  - apply Hgi. apply (inv_same _ s1); [unfold same; simpl; auto 12|done].
  - intros t Ht. apply Hlogon; [done|]. apply some_event_here. simpl.
    rewrite Hpa. split_and!; try done. right. eauto.
Qed.

Lemma on_login_good h a r s :
  inv h s → good (LoginMsg r a :: h) (on_login_request a r s).
Proof.
  intros Hi. unfold on_login_request. set (e := LoginMsg r a).
  pose proof (inv_more e h s Hi) as Hi'. destruct (scope_ok a); cbn [negb]; [|by apply good_end, Hi'].
  cbv zeta. set (s0 := s <| awaiting_2fa := false |>).
  assert (base (e :: h) s0) as Hb0 by (destruct Hi' as [[] _ _]; by split).
  destruct (handle_login_base (e :: h) a r s0 Hb0) as (Hb1 & Hl1 & Ha1 & _).
  { intros Hh Ht. right. apply some_event_here. left. auto. }
  set (s1 := handle_login_request_without_validation a r s0) in *.
  pose proof (reset_base _ s1 Hb1) as Hb2.
  destruct (id_refusal a) eqn:Hid; [by apply good_end|].
  pose proof (enter_scope_good h a r (reset_session_scope_for_login s1) Hb2 Hl1 Ha1) as Hsc.
  destruct (enter_scope a r (reset_session_scope_for_login s1)) as [s3|o]; [|exact Hsc].
  destruct Hsc as (Hb3 & Hl3 & Ha3 & Ht3).
  destruct (target_is_me a) eqn:Hme; cbn [negb]; [|by apply good_end].
  destruct (_ && _); [by apply good_end|].
  assert (inv (e :: h) s3) as Hi3 by (split; [done|done|congruence]).
  unfold then_. pose proof (authenticate_good h a r s3 Hid Hme Hi3 Hl3) as Hg.
  destruct (authenticate a r s3) as [[t es] keep]. exact Hg.
Qed.

Lemma on_auth_2fa_good h a hw s :
  inv h s → good (Auth2fa hw a :: h) (on_auth_2fa a hw s).
Proof.
  intros Hi. unfold on_auth_2fa. set (e := Auth2fa hw a).
  pose proof (inv_more e h s Hi) as Hi'.
  destruct (awaiting_2fa s) eqn:Haw; cbn [negb]; [|by apply good_inv].
  destruct (throttle_refusal a) eqn:Hth; [by apply good_inv|].
  destruct (require_2fa s); [|by apply good_inv].
  destruct (totp_check a) as [[|]|] eqn:Hto; [|by apply good_inv..].
  assert (some_event second (e :: h)) as Hse by (apply some_event_here; by split).
  cbv zeta. apply good_then.
  - apply good_inv. destruct Hi' as [[H1 H2 H3 H4 H5 H6 H7] Ht Ha].
    split; [split; simpl; auto; by right|exact Ht|exact Ha].
  - intros t Ht. apply good_then; [|intros; by apply good_inv].
    apply logon_good; [apply Ht|apply Ht| |by right].
    apply some_event_there. exact (inv_awaiting _ _ Hi Haw).
Qed.

Lemma on_switch_good h a r s :
  inv h s → good (SwitchSidesResponse r a :: h) (on_switch_sides a r s).
Proof.
  intros Hi. unfold on_switch_sides. set (e := SwitchSidesResponse r a).
  pose proof (inv_more e h s Hi) as Hi'. destruct r as [r|]; [|by apply good_inv].
  destruct (uuid_matches a) eqn:Hu; cbn [negb]; [|by apply good_inv].
  case_bool_decide as Hun; [by apply good_end, Hi'|]. apply eq_None_not_Some in Hun.
  assert (some_event second (e :: h)) as Hse by (by apply some_event_here).
  cbv zeta. destruct Hi' as [Hb Ht Ha].
  destruct (handle_login_base (e :: h) a r _ (reset_base _ s Hb)) as (Hb1 & Hl1 & Ha1 & _);
    [by right|].
  destruct (id_refusal a) eqn:Hid; [by apply good_end|].
  set (s1 := handle_login_request_without_validation a r _) in *.
  assert (some_event primary (e :: h)) as Hp by (apply some_event_here; simpl; auto).
  apply good_then; [|intros; by apply good_inv]. apply logon_good; [| |done|by right].
  - destruct Hb1. by split.
  - intros (r' & host & port & m & Hr' & Hu'). simpl in Hr'. naive_solver.
Qed.

Lemma step_good h s e : inv h s → good (e :: h) (step s e).
Proof.
  intros Hi. pose proof (inv_more e h s Hi) as Hi'. destruct e as [r a|hw a|r a|a]; simpl.
  - destruct (authorized s); [by apply good_inv|]. by apply on_login_good.
  - unfold guarded. destruct (_ && _); [by apply good_inv|]. by apply on_auth_2fa_good.
  - unfold guarded. destruct (_ && _); [by apply good_inv|]. by apply on_switch_good.
  - unfold on_authorize. destruct Hi' as [[H1 H2 H3 H4 H5 H6 H7] Ht Ha].
    assert (some_event second (Authorize a :: h)) as Hse by (by apply some_event_here).
    apply logon_good; [split; simpl; auto; by right|exact Ht|by apply some_event_here|by right].
Qed.

Lemma run_base h s es : inv h s → ∃ h', base h' (run s es).1 ∧ (∀ e, e ∈ h' → e ∈ h ∨ e ∈ es).
Proof.
  revert h s. induction es as [|e es IH]; intros h s Hi; simpl.
  { exists h. split; [apply Hi|auto]. }
  pose proof (step_good h s e Hi) as [Hb Hk]. destruct (step s e) as [[s' fs] keep]. simpl in *.
  destruct keep.
  - destruct (IH _ _ (Hk eq_refl)) as (h' & Hb' & Hin). destruct (run s' es). simpl in *.
    exists h'. split; [done|]. intros x Hx. destruct (Hin x Hx) as [[->|?]%elem_of_cons|?]; set_solver.
  - exists (e :: h). split; [done|]. set_solver.
Qed.

Lemma conn_init_inv : inv [] (init tfa).
Proof.
  split; simpl; [split; simpl; try done; by left| |done].
  by intros (? & ? & ? & ? & ? & _).
Qed.
End history.
End Conn.

(** C1: A connection is authorized only for a reason: in any sequence of login
    requests, 2FA answers, switch-sides responses and clicks, whatever the
    surroundings answer, an authorized connection had an event that
    authenticated its peer (password or live session, both past the ID
    whitelist; the switch-sides secret; or the user's click), one that answered
    for the second factor if one was configured, and, when it is limited to
    files, camera, terminal or tunnel, a request of that kind that was
    permitted. *)
Theorem authorized_for_a_reason (tfa : bool) (es : list Conn.event) :
  let s := (Conn.run (Conn.init tfa) es).1 in
  s.(Conn.authorized) = true →
  Conn.some_event Conn.primary es
  ∧ (tfa = false ∨ Conn.some_event Conn.second es)
  ∧ ∃ k, s.(Conn.authed_conn) = Some k ∧ Conn.kind_granted es k.
Proof.
  cbv zeta. destruct (Conn.run_base tfa [] _ es (Conn.conn_init_inv tfa)) as (h & [_ _ _ _ _ _ H] & Hin).
  intros Ha. destruct (H Ha) as (Hp & Hf & k & Hk & Hg).
  assert (∀ P, Conn.some_event P h → Conn.some_event P es) as Hsub.
  { intros P (e & He & HP). exists e. split; [|done]. destruct (Hin e He); set_solver. }
  split; [auto|]. split; [destruct Hf; [by left|right; auto]|].
  exists k. split; [done|]. destruct k; simpl in *; auto.
Qed.

(** A file transfer login with the right password, then the right TOTP. *)
Definition sample_answers : answers :=
  mk_answers true None (λ _, true) true true false true false false (λ _, false) None
    (Some PermanentPassword) false (Some true) false None true None false true true.
Definition sample_login : LoginRequest :=
  mk_login_request (lit "123") [] (lit_bytes "answer") [] true None
    (Some (LFileTransfer (lit "/") false)).

Lemma authorized_for_a_reason_witness :
  let es := [Conn.LoginMsg sample_login sample_answers; Conn.Auth2fa [] sample_answers] in
  (Conn.run (Conn.init true) es).1.(Conn.authorized) = true
  ∧ Conn.some_event Conn.second es
  ∧ Conn.kind_granted es FileTransferConn.
Proof.
  cbv zeta. set (es := [Conn.LoginMsg sample_login sample_answers; Conn.Auth2fa [] sample_answers]).
  assert ((Conn.run (Conn.init true) es).1.(Conn.authorized) = true) as Ha by (vm_compute; reflexivity).
  split; [exact Ha|].
  destruct (authorized_for_a_reason true es Ha) as (_ & [Hf|Hs] & k & Hk & Hg); [discriminate Hf|].
  split; [exact Hs|].
  assert ((Conn.run (Conn.init true) es).1.(Conn.authed_conn) = Some FileTransferConn) as Hk'
    by (vm_compute; reflexivity).
  rewrite Hk' in Hk. injection Hk as <-. exact Hg.
Defined.
