(* ===== verification/SessionScope.v ===== *)
(** * What an authorized session may still send

    [src/src/server/connection.rs]: the scope tables of limited sessions
    ([authorized_message_scope_violation] and its helpers), the filters on
    option messages, and [handle_authorized_scope_violation]. *)
From S2P Require Import Prelude LoginFlow.
Local Open Scope Z_scope.

(** ** Option messages

    An enum field is its number; [enum_value] knows the numbers of
    message.proto. *)
Record OptionMessage := mk_option {
  image_quality : Z;
  lock_after_session_end : Z;
  show_remote_cursor : Z;
  privacy_mode : Z;
  block_input : Z;
  custom_image_quality : Z;
  disable_audio : Z;
  disable_clipboard : Z;
  enable_file_transfer : Z;
  supported_decoding : option str;    (* opaque here *)
  custom_fps : Z;
  disable_keyboard : Z;
  follow_remote_cursor : Z;
  follow_remote_window : Z;
  disable_camera : Z;
  terminal_persistent : Z;
  show_my_cursor : Z
}.
#[export] Instance option_eta : Eta OptionMessage := λ o,
  mk_option (image_quality o) (lock_after_session_end o) (show_remote_cursor o) (privacy_mode o)
    (block_input o) (custom_image_quality o) (disable_audio o) (disable_clipboard o)
    (enable_file_transfer o) (supported_decoding o) (custom_fps o) (disable_keyboard o)
    (follow_remote_cursor o) (follow_remote_window o) (disable_camera o)
    (terminal_persistent o) (show_my_cursor o).
Definition new_option : OptionMessage := mk_option 0 0 0 0 0 0 0 0 0 None 0 0 0 0 0 0 0.

Definition bool_option_known (v : Z) : bool := (0 <=? v) && (v <=? 2).
Definition image_quality_known (v : Z) : bool := bool_decide (v ∈ [0; 2; 3; 4]).
Definition is_bool_option_not_set (v : Z) : bool := v =? 0.

Definition option_has_non_view_camera_login_field (o : OptionMessage) : bool :=
  negb (is_bool_option_not_set (lock_after_session_end o)
        && is_bool_option_not_set (show_remote_cursor o)
        && is_bool_option_not_set (privacy_mode o)
        && is_bool_option_not_set (block_input o)
        && is_bool_option_not_set (disable_clipboard o)
        && is_bool_option_not_set (enable_file_transfer o)
        && is_bool_option_not_set (disable_keyboard o)
        && is_bool_option_not_set (follow_remote_cursor o)
        && is_bool_option_not_set (follow_remote_window o)
        && is_bool_option_not_set (disable_camera o)
        && is_bool_option_not_set (terminal_persistent o)
        && is_bool_option_not_set (show_my_cursor o)).

Definition option_has_non_terminal_login_field (o : OptionMessage) : bool :=
  negb (image_quality o =? 0)
  || negb (custom_image_quality o =? 0)
  || negb (custom_fps o =? 0)
  || bool_decide (is_Some (supported_decoding o))
  || negb (is_bool_option_not_set (lock_after_session_end o))
  || negb (is_bool_option_not_set (show_remote_cursor o))
  || negb (is_bool_option_not_set (privacy_mode o))
  || negb (is_bool_option_not_set (block_input o))
  || negb (is_bool_option_not_set (disable_audio o))
  || negb (is_bool_option_not_set (disable_clipboard o))
  || negb (is_bool_option_not_set (enable_file_transfer o))
  || negb (is_bool_option_not_set (disable_keyboard o))
  || negb (is_bool_option_not_set (follow_remote_cursor o))
  || negb (is_bool_option_not_set (follow_remote_window o))
  || negb (is_bool_option_not_set (disable_camera o))
  || negb (is_bool_option_not_set (show_my_cursor o)).

Definition option_has_any_field (o : OptionMessage) : bool :=
  option_has_non_terminal_login_field o || negb (is_bool_option_not_set (terminal_persistent o)).

Definition is_supported_decoding_only_option (o : OptionMessage) : bool :=
  bool_decide (is_Some (supported_decoding o))
  && (image_quality o =? 0) && (custom_image_quality o =? 0) && (custom_fps o =? 0)
  && is_bool_option_not_set (lock_after_session_end o)
  && is_bool_option_not_set (show_remote_cursor o)
  && is_bool_option_not_set (privacy_mode o)
  && is_bool_option_not_set (block_input o)
  && is_bool_option_not_set (disable_audio o)
  && is_bool_option_not_set (disable_clipboard o)
  && is_bool_option_not_set (enable_file_transfer o)
  && is_bool_option_not_set (disable_keyboard o)
  && is_bool_option_not_set (follow_remote_cursor o)
  && is_bool_option_not_set (follow_remote_window o)
  && is_bool_option_not_set (disable_camera o)
  && is_bool_option_not_set (terminal_persistent o)
  && is_bool_option_not_set (show_my_cursor o).

(** A filter's answer: what is left, and whether something was out of scope
    (["login.option"]). *)
Definition filtered : Type := option OptionMessage * option str.
Definition login_option : str := lit "login.option".
Definition then_some {A} (b : bool) (x : A) : option A := if b then Some x else None.

(** [scoped], the fields a view-camera session may set. *)
Definition view_camera_fields (o : OptionMessage) : OptionMessage :=
  let s := new_option in
  let s := if image_quality_known (image_quality o)
           then s <| image_quality := image_quality o |> else s in
  let s := if 0 <=? custom_image_quality o
           then s <| custom_image_quality := custom_image_quality o |> else s in
  let s := if 0 <=? custom_fps o then s <| custom_fps := custom_fps o |> else s in
  let s := s <| supported_decoding := supported_decoding o |> in
  if bool_option_known (disable_audio o)
  then s <| disable_audio := disable_audio o |> else s.

Definition scoped_view_camera_option (o : OptionMessage) : filtered :=
  let s := view_camera_fields o in
  (then_some (option_has_any_field s) s,
   then_some (option_has_non_view_camera_login_field o) login_option).

Definition scoped_terminal_login_option (o : OptionMessage) : filtered :=
  let '(s, violation) :=
    if bool_option_known (terminal_persistent o)
    then (new_option <| terminal_persistent := terminal_persistent o |>, false)
    else (new_option, true) in
  let violation := violation || option_has_non_terminal_login_field o in
  (then_some (option_has_any_field s) s, then_some violation login_option).

Definition scoped_login_option (t : AuthConnType) (o : OptionMessage) : filtered :=
  match t with
  | Remote => (Some o, None)
  | ViewCameraConn => scoped_view_camera_option o
  | TerminalConn => scoped_terminal_login_option o
  | FileTransferConn | PortForwardConn =>
      (None, then_some (option_has_any_field o) login_option)
  end.

Definition scoped_update_option_message (t : option AuthConnType) (o : OptionMessage)
    : option OptionMessage :=
  match t with
  | Some ViewCameraConn => (scoped_view_camera_option o).1
  | Some TerminalConn => (scoped_terminal_login_option o).1
  | _ => None
  end.

(** ** Messages, by what the scope tables look at *)
Inductive MiscUnion :=
| CloseReason | ChatMessage | SwitchDisplay | MOption (o : OptionMessage) | AudioFormat
| CaptureDisplays | ClientRecordStatus | TogglePrivacyMode | ToggleVirtualDisplay | SelectedSid
| ChangeResolution | ChangeDisplayResolution | MessageQuery | FollowCurrentDisplay
| SwitchSidesRequest | RefreshVideo | RefreshVideoDisplay | VideoReceived | OtherMisc.
Inductive MessageUnion :=
| MouseEvent | AudioFrame | PointerDeviceEvent | KeyEvent | Clipboard | FileAction | FileResponse
| VoiceCallRequest | VoiceCallResponse | MultiClipboards | ScreenshotRequest | ScreenshotResponse
| TerminalAction | TerminalResponse | PortForwardChannel | LoginRequestMsg | TestDelayMsg
| Misc (u : option MiscUnion) | OtherMessage.
(** A message is its [union], if any. *)
Definition Message : Type := option MessageUnion.

Section scope.
(** [cfg(windows)]. *)
Context (windows : bool).

Definition is_connection_housekeeping_message (m : Message) : bool :=
  match m with
  | Some LoginRequestMsg | Some TestDelayMsg | Some (Misc (Some CloseReason)) => true
  | _ => false
  end.
Definition is_render_broadcast_noop_compat_message (m : Message) : bool :=
  match m with
  | Some (Misc (Some RefreshVideo)) | Some (Misc (Some RefreshVideoDisplay)) => true
  | Some (Misc (Some (MOption o))) => is_supported_decoding_only_option o
  | _ => false
  end.
Definition is_text_clipboard_noop_compat_message (m : Message) : bool :=
  match m with Some Clipboard | Some MultiClipboards => true | _ => false end.

Definition is_file_transfer_scoped_message (m : Message) : bool :=
  match m with
  | Some FileAction | Some FileResponse => true
  | Some (Misc (Some SelectedSid)) => windows
  | _ => false
  end.
Definition is_port_forward_scoped_message (m : Message) : bool :=
  match m with Some PortForwardChannel => true | _ => false end.
Definition is_terminal_scoped_option (o : OptionMessage) : bool :=
  bool_decide ((scoped_terminal_login_option o).2 = None).
Definition is_terminal_scoped_message (m : Message) : bool :=
  match m with
  | Some TerminalAction => true
  | Some (Misc (Some ChatMessage)) => true
  | Some (Misc (Some (MOption o))) => is_terminal_scoped_option o
  | _ => false
  end.
Definition is_view_camera_scoped_option (o : OptionMessage) : bool :=
  bool_decide ((scoped_view_camera_option o).2 = None).
Definition is_view_camera_scoped_misc (u : option MiscUnion) : bool :=
  match u with
  | Some SwitchDisplay | Some CaptureDisplays | Some RefreshVideo | Some RefreshVideoDisplay
  | Some VideoReceived | Some ChatMessage | Some AudioFormat | Some ClientRecordStatus
  | Some MessageQuery | Some TogglePrivacyMode | Some ToggleVirtualDisplay
  | Some ChangeResolution | Some ChangeDisplayResolution => true
  | Some (MOption o) => is_view_camera_scoped_option o
  | Some SelectedSid => windows
  | _ => false
  end.
Definition is_view_camera_scoped_message (m : Message) : bool :=
  match m with
  | Some ScreenshotRequest => true
  | Some (Misc u) => is_view_camera_scoped_misc u
  | Some MouseEvent | Some PointerDeviceEvent | Some KeyEvent => true
  | Some AudioFrame | Some VoiceCallRequest | Some VoiceCallResponse => true
  | _ => false
  end.

Definition misc_message_family (u : option MiscUnion) : str :=
  lit match u with
  | Some ChatMessage => "misc.chat_message"
  | Some SwitchDisplay => "misc.switch_display"
  | Some (MOption _) => "misc.option"
  | Some AudioFormat => "misc.audio_format"
  | Some CaptureDisplays => "misc.capture_displays"
  | Some ClientRecordStatus => "misc.client_record_status"
  | Some TogglePrivacyMode => "misc.toggle_privacy_mode"
  | Some ToggleVirtualDisplay => "misc.toggle_virtual_display"
  | Some SelectedSid => "misc.selected_sid"
  | Some ChangeResolution => "misc.change_resolution"
  | Some ChangeDisplayResolution => "misc.change_display_resolution"
  | Some MessageQuery => "misc.message_query"
  | Some FollowCurrentDisplay => "misc.follow_current_display"
  | Some SwitchSidesRequest => "misc.switch_sides_request"
  | Some _ => "misc.other"
  | None => "misc.empty"
  end.
Definition message_family (m : Message) : str :=
  match m with
  | Some MouseEvent => lit "mouse_event"
  | Some AudioFrame => lit "audio_frame"
  | Some PointerDeviceEvent => lit "pointer_device_event"
  | Some KeyEvent => lit "key_event"
  | Some Clipboard => lit "clipboard"
  | Some FileAction => lit "file_action"
  | Some FileResponse => lit "file_response"
  | Some VoiceCallRequest => lit "voice_call_request"
  | Some VoiceCallResponse => lit "voice_call_response"
  | Some MultiClipboards => lit "multi_clipboards"
  | Some ScreenshotRequest => lit "screenshot_request"
  | Some ScreenshotResponse => lit "screenshot_response"
  | Some TerminalAction => lit "terminal_action"
  | Some TerminalResponse => lit "terminal_response"
  | Some PortForwardChannel => lit "port_forward_channel"
  | Some (Misc u) => misc_message_family u
  | Some _ => lit "message.other"
  | None => lit "empty"
  end.

Definition noop_compat (t : AuthConnType) (m : Message) : bool :=
  match t with
  | FileTransferConn | TerminalConn =>
      is_render_broadcast_noop_compat_message m || is_text_clipboard_noop_compat_message m
  | PortForwardConn => is_render_broadcast_noop_compat_message m
  | ViewCameraConn => is_text_clipboard_noop_compat_message m
  | Remote => false
  end.
Definition allowed (t : AuthConnType) (m : Message) : bool :=
  match t with
  | Remote => true
  | FileTransferConn => is_file_transfer_scoped_message m
  | PortForwardConn => is_port_forward_scoped_message m
  | ViewCameraConn => is_view_camera_scoped_message m
  | TerminalConn => is_terminal_scoped_message m
  end.

(** [None]: in scope. *)
Definition authorized_message_scope_violation (t : AuthConnType) (m : Message) : option str :=
  if is_connection_housekeeping_message m then None
  else if noop_compat t m then None
  else if allowed t m then None else Some (message_family m).

Definition authorized_scope_violation (t : option AuthConnType) (m : Message) : option str :=
  match t with
  | None => if is_connection_housekeeping_message m then None else Some (lit "session.auth_type")
  | Some t => authorized_message_scope_violation t m
  end.
End scope.

(** ** Violations seen so far *)
Section violations.
Context (alarm close : bool).   (* the two options *)

(** The families seen, whether an alarm is posted, and whether the session
    goes on. *)
Definition handle_authorized_scope_violation (seen : gset str) (message : str)
    : gset str * bool * bool :=
  let is_first := negb (bool_decide (message ∈ seen)) in
  ({[message]} ∪ seen, is_first && alarm, negb close).

(** The messages an authorized session receives: what is alarmed and what is
    handled. *)
Fixpoint receive (windows : bool) (t : option AuthConnType) (seen : gset str) (ms : list Message)
    : list str * list Message :=
  match ms with
  | [] => ([], [])
  | m :: ms' =>
      match authorized_scope_violation windows t m with
      | None => let '(al, hd) := receive windows t seen ms' in (al, m :: hd)
      | Some family =>
          let '(seen', post, goes_on) := handle_authorized_scope_violation seen family in
          let '(al, hd) := if goes_on then receive windows t seen' ms' else ([], []) in
          (if post then family :: al else al, hd)
      end
  end.
End violations.

(** ** What the filters leave *)
Ltac option_cases :=
  repeat match goal with
  | H : context [is_bool_option_not_set ?v] |- _ => unfold is_bool_option_not_set in H
  | H : negb _ = true |- _ => apply negb_true_iff in H
  | H : negb _ = false |- _ => apply negb_false_iff in H
  | H : _ && _ = true |- _ => apply andb_true_iff in H as [? ?]
  | H : _ || _ = false |- _ => apply orb_false_iff in H as [? ?]
  | H : (_ =? _) = true |- _ => apply Z.eqb_eq in H
  | H : bool_decide (is_Some ?d) = false |- _ =>
      apply bool_decide_eq_false in H; rewrite <- eq_None_not_Some in H
  end.

Lemma no_field_is_new o : option_has_any_field o = false → o = new_option.
Proof.
  unfold option_has_any_field, option_has_non_terminal_login_field. intros H.
  destruct o. simpl in *. option_cases. by subst.
Qed.

Lemma view_camera_fields_scope o :
  option_has_non_view_camera_login_field (view_camera_fields o) = false
  ∧ view_camera_fields (view_camera_fields o) = view_camera_fields o.
Proof.
  unfold view_camera_fields at 1 3 4.
  destruct (image_quality_known (image_quality o)) eqn:Hq,
    (0 <=? custom_image_quality o) eqn:Hc, (0 <=? custom_fps o) eqn:Hf,
    (bool_option_known (disable_audio o)) eqn:Ha;
    (split; [reflexivity|]); unfold view_camera_fields; cbn;
    rewrite ?Hq, ?Hc, ?Hf, ?Ha; reflexivity.
Qed.

(** The option filters of limited sessions: what the view-camera filter lets
    through never sets a field outside its scope, passes the filter unchanged,
    and loses nothing of an in-scope option with sensible values; likewise for
    terminals, where at most the persistence flag is left. *)
Theorem scoped_options_sound (o : OptionMessage) :
  (∀ s, (scoped_view_camera_option o).1 = Some s →
     option_has_non_view_camera_login_field s = false
     ∧ scoped_view_camera_option s = (Some s, None))
  ∧ ((scoped_view_camera_option o).2 = None → image_quality_known (image_quality o) = true →
     bool_option_known (disable_audio o) = true → 0 <= custom_image_quality o → 0 <= custom_fps o →
     (scoped_view_camera_option o).1 = then_some (option_has_any_field o) o)
  ∧ (∀ s, (scoped_terminal_login_option o).1 = Some s →
     s = new_option <| terminal_persistent := terminal_persistent o |>
     ∧ scoped_terminal_login_option s = (Some s, None))
  ∧ ((scoped_terminal_login_option o).2 = None →
     (scoped_terminal_login_option o).1 = then_some (option_has_any_field o) o).
Proof.
  split_and!.
  - intros s. unfold scoped_view_camera_option, then_some. cbn [fst].
    destruct (option_has_any_field (view_camera_fields o)) eqn:Hany; [|done].
    intros [= <-]. destruct (view_camera_fields_scope o) as [-> ->]. by rewrite Hany.
  - intros Hv Hq Ha Hc Hf. unfold scoped_view_camera_option, view_camera_fields in *. cbn in Hv.
    unfold then_some in Hv. destruct (option_has_non_view_camera_login_field o) eqn:Hn; [done|].
    rewrite Hq, Ha, !(proj2 (Z.leb_le _ _)) by done. simpl.
    unfold option_has_non_view_camera_login_field in Hn. destruct o. simpl in *.
    option_cases. by subst.
  - intros s Hs. unfold scoped_terminal_login_option in *.
    destruct (bool_option_known (terminal_persistent o)) eqn:Hk; simpl in Hs.
    + unfold then_some in Hs. destruct (option_has_any_field _) eqn:Hany; [|done].
      injection Hs as <-. split; [done|]. cbn -[option_has_any_field] in *. rewrite Hk. simpl.
      by rewrite Hany.
    + discriminate Hs.
  - intros Hv. unfold scoped_terminal_login_option in *.
    destruct (bool_option_known (terminal_persistent o)) eqn:Hk; simpl in *; [|done].
    unfold then_some in Hv. destruct (option_has_non_terminal_login_field o) eqn:Hn; [done|].
    unfold option_has_non_terminal_login_field in Hn. destruct o. simpl in *.
    option_cases. by subst.
Qed.

(** Scopes are disjoint: a message two different limited kinds of session
    both accept is housekeeping, ignored for compatibility by one of them, a
    chat message, a session selection on Windows, or an option with no field
    set. *)
Theorem scopes_disjoint (windows : bool) (t u : AuthConnType) (m : Message) :
  t ≠ u → t ≠ Remote → u ≠ Remote →
  authorized_message_scope_violation windows t m = None →
  authorized_message_scope_violation windows u m = None →
  is_connection_housekeeping_message m = true
  ∨ noop_compat t m = true ∨ noop_compat u m = true
  ∨ m = Some (Misc (Some ChatMessage))
  ∨ (windows = true ∧ m = Some (Misc (Some SelectedSid)))
  ∨ m = Some (Misc (Some (MOption new_option))).
Proof.
  intros Htu Ht Hu Hvt Hvu. unfold authorized_message_scope_violation in *.
  destruct (is_connection_housekeeping_message m); [auto|].
  destruct (noop_compat t m); [auto|]. destruct (noop_compat u m); [auto|].
  destruct (allowed windows t m) eqn:At; [|done]. destruct (allowed windows u m) eqn:Au; [|done].
  clear Hvt Hvu. do 3 right.
  assert (∀ o, is_terminal_scoped_option o = true → is_view_camera_scoped_option o = true →
    o = new_option) as Hopt.
  { intros o H1 H2. apply bool_decide_eq_true in H1, H2. apply no_field_is_new.
    unfold scoped_terminal_login_option in H1. unfold scoped_view_camera_option in H2.
    simpl in H2. unfold then_some in *.
    destruct (bool_option_known _); simpl in H1; [|done].
    destruct (option_has_non_terminal_login_field o) eqn:Hn; [done|].
    destruct (option_has_non_view_camera_login_field o) eqn:Hc; [done|].
    unfold option_has_any_field. rewrite Hn. simpl.
    unfold option_has_non_view_camera_login_field in Hc. option_cases.
    apply negb_false_iff. by apply Z.eqb_eq. }
  destruct t, u; try done; destruct m as [[]|]; try discriminate At; try discriminate Au;
    simpl in At, Au; repeat (case_match; try discriminate); subst; auto;
    right; right; f_equal; f_equal; f_equal; f_equal; auto.
Qed.

Lemma scopes_disjoint_witness :
  let m := Some (Misc (Some ChatMessage)) in
  authorized_message_scope_violation false TerminalConn m = None
  ∧ (m = Some (Misc (Some ChatMessage)) ∨ True).
Proof.
  cbv zeta. split; [reflexivity|].
  destruct (scopes_disjoint false TerminalConn ViewCameraConn (Some (Misc (Some ChatMessage))))
    as [H|[H|[H|[H|[[H _]|H]]]]]; try done; auto.
Defined.

(** Out-of-scope messages are never handled, and each family of them raises
    at most one alarm for the whole session; with the closing option nothing is
    handled after the first one. *)
Theorem violations_contained (windows alarm close : bool) (t : option AuthConnType)
    (ms : list Message) :
  let '(alarms, handled) := receive alarm close windows t ∅ ms in
  Forall (λ m, authorized_scope_violation windows t m = None) handled
  ∧ NoDup alarms ∧ (alarm = false → alarms = [])
  ∧ (close = true → ∃ rest, ms = handled ++ rest
       ∧ match rest with m :: _ => is_Some (authorized_scope_violation windows t m) | [] => True end).
Proof.
  assert (∀ seen, let '(alarms, handled) := receive alarm close windows t seen ms in
    Forall (λ m, authorized_scope_violation windows t m = None) handled
    ∧ NoDup alarms ∧ (∀ a, a ∈ alarms → a ∉ seen) ∧ (alarm = false → alarms = [])
    ∧ (close = true → ∃ rest, ms = handled ++ rest
       ∧ match rest with m :: _ => is_Some (authorized_scope_violation windows t m) | [] => True end))
    as H.
  { induction ms as [|m ms IH]; intros seen; simpl.
    { split_and!; try done; [constructor|set_solver|]. intros _. by exists []. }
    destruct (authorized_scope_violation windows t m) as [f|] eqn:Hv; simpl.
    - specialize (IH ({[f]} ∪ seen)). destruct close; simpl.
      + assert (∃ rest, m :: ms = [] ++ rest
          ∧ match rest with m :: _ => is_Some (authorized_scope_violation windows t m)
            | [] => True end) by (exists (m :: ms); rewrite Hv; eauto).
        destruct (negb _ && alarm) eqn:Hp; split_and!; try done; try by constructor.
        * repeat constructor. set_solver.
        * apply andb_true_iff in Hp as [Hp _]. apply negb_true_iff, bool_decide_eq_false in Hp.
          set_solver.
        * intros ->. by rewrite andb_false_r in Hp.
        * set_solver.
      + destruct (receive alarm false windows t ({[f]} ∪ seen) ms) as [al hd].
        destruct IH as (H1 & H2 & H3 & H4 & _).
        destruct (negb _ && alarm) eqn:Hp; (split_and!; try done).
        * constructor; [|done]. intros Hin. specialize (H3 _ Hin). set_solver.
        * apply andb_true_iff in Hp as [Hp _]. apply negb_true_iff, bool_decide_eq_false in Hp.
          intros a [->|Ha]%elem_of_cons; [done|]. specialize (H3 _ Ha). set_solver.
        * intros ->. by rewrite andb_false_r in Hp.
        * intros a Ha. specialize (H3 _ Ha). set_solver.
    - specialize (IH seen). destruct (receive alarm close windows t seen ms) as [al hd].
      destruct IH as (H1 & H2 & H3 & H4 & H5). split_and!; try done; [by constructor|].
      intros Hc. destruct (H5 Hc) as (rest & -> & Hr). by exists rest. }
  specialize (H ∅). destruct (receive alarm close windows t ∅ ms). naive_solver.
Qed.
