(* ===== verification/F32.v ===== *)
(** * Single-precision floats

    The [f32] arithmetic the rate controller uses, as the IEEE-754 operations
    of the Standard Library's [SpecFloat] (round to nearest, ties to even) at
    precision 24: exact, executable, and with the order the proofs need. *)
From Stdlib Require Import SpecFloat.
From S2P Require Import Prelude.
Local Open Scope Z_scope.

Abbreviation f32 := spec_float.

(** [z as f32] *)
Definition f32_of_Z (z : Z) : f32 := binary_normalize 24 128 z 0 false.
Definition fmul : f32 → f32 → f32 := SFmul 24 128.
Definition fdiv : f32 → f32 → f32 := SFdiv 24 128.

(** The literal [n/d]: both are exact, so the quotient is the literal rounded
    once, as the compiler rounds it. *)
Definition f32_lit (n d : Z) : f32 := fdiv (f32_of_Z n) (f32_of_Z d).

(** [a < b], [a <= b], [a > b]: false on NaN. *)
Definition fltb : f32 → f32 → bool := SFltb.
Definition fleb : f32 → f32 → bool := SFleb.
Definition fgtb (a b : f32) : bool := fltb b a.

Definition is_nan (a : f32) : bool := match a with S754_nan => true | _ => false end.

(** [f32::max] and [f32::min] ignore a NaN argument. *)
Definition fmax (a b : f32) : f32 :=
  if is_nan a then b else if is_nan b then a else if fltb a b then b else a.
Definition fmin (a b : f32) : f32 :=
  if is_nan a then b else if is_nan b then a else if fltb b a then b else a.

(** [f32::clamp] panics unless [lo <= hi]. *)
Definition fclamp (x lo hi : f32) : option f32 :=
  if fleb lo hi then
    let x := if fltb x lo then lo else x in
    Some (if fgtb x hi then hi else x)
  else None.

(** [x.ceil() as u32]: the cast saturates, and NaN is 0. *)
Definition fceil_u32 (x : f32) : Z :=
  let sat z := Z.min z (2 ^ 32 - 1) in
  match x with
  | S754_finite false m e =>
      sat (if 0 <=? e then Z.pos m * 2 ^ e else (Z.pos m + 2 ^ (- e) - 1) / 2 ^ (- e))
  | S754_infinity false => 2 ^ 32 - 1
  | _ => 0
  end.

Example literal_067 : f32_lit 67 100 = S754_finite false 11240735 (-24).
Proof. reflexivity. Qed.
Example ceil_3_2 : fceil_u32 (f32_lit 3 2) = 2.
Proof. reflexivity. Qed.
Example ceil_exact : fceil_u32 (f32_lit 6 2) = 3.
Proof. reflexivity. Qed.

(** ** Order

    A number's place: comparing floats is comparing places lexicographically. *)
Definition place (x : f32) : Z * Z * Z :=
  match x with
  | S754_infinity false => (2, 0, 0)
  | S754_finite false m e => (1, e, Z.pos m)
  | S754_zero _ | S754_nan => (0, 0, 0)
  | S754_finite true m e => (-1, - e, Z.neg m)
  | S754_infinity true => (-2, 0, 0)
  end.
Definition lex_lt (p q : Z * Z * Z) : Prop :=
  p.1.1 < q.1.1 ∨ p.1.1 = q.1.1 ∧ (p.1.2 < q.1.2 ∨ p.1.2 = q.1.2 ∧ p.2 < q.2).

Lemma fcompare_place a b :
  is_nan a = false → is_nan b = false →
  ∃ c, SFcompare a b = Some c ∧
  match c with
  | Eq => place a = place b
  | Lt => lex_lt (place a) (place b)
  | Gt => lex_lt (place b) (place a)
  end.
Proof.
  intros Ha Hb. unfold lex_lt.
  destruct a as [s|s| |s m e], b as [s'|s'| |s' m' e']; try done; simpl;
    try (destruct s, s'; eexists; (split; [reflexivity|]); simpl; auto with lia; fail);
    try (destruct s; eexists; (split; [reflexivity|]); simpl; auto with lia; fail).
  destruct s, s'; eexists; (split; [reflexivity|]); simpl; try (left; lia);
      destruct (Z.compare_spec e e'); try lia;
      change (Pos.compare_cont Eq m m') with (Pos.compare m m');
      destruct (Pos.compare_spec m m'); subst; simpl; try done; try lia.
Qed.

Lemma fltb_place a b : fltb a b = true ↔ is_nan a = false ∧ is_nan b = false ∧ lex_lt (place a) (place b).
Proof.
  unfold fltb, SFltb. split.
  - intros H. assert (is_nan a = false) as Ha by by destruct a.
    assert (is_nan b = false) as Hb by by destruct a, b.
    destruct (fcompare_place a b Ha Hb) as (c & Hc & Hp). rewrite Hc in H. by destruct c.
  - intros (Ha & Hb & Hl). destruct (fcompare_place a b Ha Hb) as (c & -> & Hp).
    destruct c; [rewrite Hp in Hl| |]; unfold lex_lt in *; [lia|done|lia].
Qed.

Lemma fleb_place a b :
  fleb a b = true ↔ is_nan a = false ∧ is_nan b = false ∧ ¬ lex_lt (place b) (place a).
Proof.
  unfold fleb, SFleb. split.
  - intros H. assert (is_nan a = false) as Ha by by destruct a.
    assert (is_nan b = false) as Hb by by destruct a, b.
    destruct (fcompare_place a b Ha Hb) as (c & Hc & Hp). rewrite Hc in H.
    destruct c; [rewrite Hp| |done]; unfold lex_lt in *; (split_and!; [done..|lia]).
  - intros (Ha & Hb & Hl). destruct (fcompare_place a b Ha Hb) as (c & -> & Hp). by destruct c.
Qed.

(** Solves goals about [fltb]/[fleb] of numbers by comparing places. *)
Ltac float_order :=
  unfold fgtb in *;
  repeat match goal with
  | H : fltb _ _ = true |- _ => apply fltb_place in H
  | H : fleb _ _ = true |- _ => apply fleb_place in H
  | H : fltb _ _ = false |- _ => apply not_true_iff_false in H; rewrite fltb_place in H
  end;
  repeat first [rewrite fltb_place | rewrite fleb_place];
  destruct_and?; split_and?; try done;
  unfold lex_lt in *; try (intuition lia).

Lemma fleb_trans a b c : fleb a b = true → fleb b c = true → fleb a c = true.
Proof. intros. float_order. Qed.

Lemma fleb_refl a : is_nan a = false → fleb a a = true.
Proof. intros. float_order. Qed.

Lemma fltb_fleb a b : fltb a b = true → fleb a b = true.
Proof. intros. float_order. Qed.

Lemma fleb_not_nan a b : fleb a b = true → is_nan a = false ∧ is_nan b = false.
Proof. intros. by float_order. Qed.

Lemma fclamp_total x lo hi :
  fleb lo hi = true → is_nan x = false →
  ∃ y, fclamp x lo hi = Some y ∧ fleb lo y = true ∧ fleb y hi = true.
Proof.
  intros Hle Hx. unfold fclamp. rewrite Hle. cbv zeta. eexists; split; [done|].
  pose proof (fleb_not_nan _ _ Hle) as [? ?].
  destruct (fltb x lo) eqn:Hlo; unfold fgtb; destruct (fltb hi _) eqn:Hhi; auto using fleb_refl.
  all: split; float_order.
Qed.

(** A maximum with a number is a number at least as large. *)
Lemma fmax_lower a b : is_nan b = false → fleb b (fmax a b) = true.
Proof.
  intros Hb. unfold fmax. destruct (is_nan a) eqn:Ha; [by apply fleb_refl|].
  rewrite Hb. destruct (fltb a b) eqn:Hlt; [by apply fleb_refl|]. float_order.
Qed.

(** It stays below any bound of both. *)
Lemma fmax_upper a b c : fleb a c = true → fleb b c = true → fleb (fmax a b) c = true.
Proof. intros Ha Hb. unfold fmax. repeat case_match; auto. Qed.

(** ** Products of numbers are numbers *)
Definition fnum (x : f32) : Prop := match x with S754_finite _ _ _ => True | _ => False end.

Lemma shr_1_nonneg r : 0 <= shr_m r → 0 <= shr_m (shr_1 r).
Proof. destruct r as [[|[p|p|]|p] ? ?]; simpl; lia. Qed.

Lemma iter_shr_nonneg p r : 0 <= shr_m r → 0 <= shr_m (SpecFloat.iter_pos shr_1 p r).
Proof.
  revert r. induction p as [p IH|p IH|]; intros r Hr; simpl; auto using shr_1_nonneg.
Qed.

Lemma shr_fexp_nonneg m e l : 0 <= m → 0 <= shr_m (shr_fexp 24 128 m e l).1.
Proof.
  intros Hm. unfold shr_fexp, shr.
  assert (0 <= shr_m (shr_record_of_loc m l)) by (by destruct l as [|[]]).
  destruct (fexp 24 128 (Zdigits2 m + e) - e); simpl; auto using iter_shr_nonneg.
Qed.

Lemma round_aux_number s m e l : 0 <= m → is_nan (binary_round_aux 24 128 s m e l) = false.
Proof.
  intros Hm. unfold binary_round_aux.
  pose proof (shr_fexp_nonneg m e l Hm) as H1. destruct (shr_fexp _ _ m e l) as [r e']. simpl in H1.
  assert (0 <= round_nearest_even (shr_m r) (loc_of_shr_record r)) as H2.
  { unfold round_nearest_even. destruct (loc_of_shr_record r) as [|[]]; repeat case_match; lia. }
  pose proof (shr_fexp_nonneg _ e' loc_Exact H2) as H3. destruct (shr_fexp _ _ _ e' _) as [r' e''].
  simpl in H3. destruct (shr_m r'); [done| |lia]. by destruct (_ <=? _).
Qed.

Lemma fmul_number a b : fnum a → fnum b → is_nan (fmul a b) = false.
Proof.
  destruct a, b; try done. intros _ _. by apply round_aux_number.
Qed.

(** Between two positive numbers lies a number. *)
Lemma between_number a b c : fnum a → fnum c → fleb a b = true → fleb b c = true →
  (place a).1.1 = (place c).1.1 → fnum b.
Proof.
  intros Ha Hc H1 H2 Heq. apply fleb_place in H1 as (_ & _ & H1), H2 as (_ & _ & H2).
  unfold lex_lt in *.
  destruct a as [| | |sa ma ea], c as [| | |sc mc ec], b as [sb|sb| |sb mb eb]; try done;
    destruct sa, sc; try (simpl in *; lia); destruct sb; simpl in *; lia.
Qed.
