(* ===== verification/VideoQos.v ===== *)
(** * The video rate controller

    [src/src/server/video_qos.rs] and the quality ratios of
    [src/libs/scrap/src/common/codec.rs]: per viewer a delay baseline and a
    frame-rate target, and one frame rate and bitrate ratio for the stream.

    Instants and delays are milliseconds; an operation reads the clock once.
    A [clamp] whose bounds are not constants panics when they are out of order,
    so the operations that use one return [option]. Frame rates stay below 121
    ([qos_total] in [QosFacts]), so additions on them are exact; the sums of
    delays wrap as [u32]. *)
From S2P Require Import Prelude F32.
Local Open Scope Z_scope.

Definition FPS : Z := 30.
Definition MIN_FPS : Z := 1.
Definition MAX_FPS : Z := 120.
Definition INIT_FPS : Z := 15.
Definition MIN_AUTO_FPS : Z := 5.
Definition BR_MAX : f32 := f32_of_Z 40.
Definition BR_MIN : f32 := f32_lit 2 10.
Definition BR_MIN_HIGH_RESOLUTION : f32 := f32_lit 1 10.
Definition MAX_BR_MULTIPLE : f32 := f32_of_Z 1.
Definition HISTORY_DELAY_LEN : nat := 2.
Definition ADJUST_RATIO_INTERVAL : Z := 3.
Definition DYNAMIC_SCREEN_THRESHOLD : Z := 2.
Definition DELAY_THRESHOLD_150MS : Z := 150.
Definition RESTORE_GUARD_SAMPLES : Z := 5.
Definition BR_BEST : f32 := f32_lit 15 10.
Definition BR_BALANCED : f32 := f32_lit 67 100.
Definition BR_SPEED : f32 := f32_lit 5 10.

Definition u8_max : Z := 255.
Definition wrap32 (z : Z) : Z := z mod 2 ^ 32.
Definition sat_sub (a b : Z) : Z := Z.max 0 (a - b).
Definition sat_add32 (a b : Z) : Z := Z.min (a + b) (2 ^ 32 - 1).
Definition sat_add8 (a b : Z) : Z := Z.min (a + b) u8_max.
(** [clamp] between constants in order, and in general. *)
Definition clamp (x lo hi : Z) : Z := Z.max lo (Z.min x hi).
Definition clamp_checked (x lo hi : Z) : option Z := if lo <=? hi then Some (clamp x lo hi) else None.
(** [Iterator::min] *)
Definition list_min (l : list Z) : option Z :=
  match l with [] => None | x :: l' => Some (foldr Z.min x l') end.
(** [pop_front] when full, then [push_back]. *)
Definition push_window (n : nat) (l : list Z) (x : Z) : list Z :=
  (if (n <=? length l)%nat then tail l else l) ++ [x].

Inductive Quality := Best | Balanced | Low | Custom (v : f32).
Definition quality_ratio (q : Quality) : f32 :=
  match q with Best => BR_BEST | Balanced => BR_BALANCED | Low => BR_SPEED | Custom v => v end.

(** ** Delay baseline *)
Module Rtt.
Record t := mk { baseline : option Z; samples : list Z }.
Definition default : t := mk None [].
Definition WINDOW_SAMPLES : nat := 20.
Definition MAX_INCREASE_MS : Z := 50.
Definition half : nat := 10.   (* WINDOW_SAMPLES / 2 *)

Definition update (r : t) (delay : Z) : t :=
  let samples := push_window WINDOW_SAMPLES (samples r) delay in
  let base := Z.min (stdpp.option.default delay (baseline r)) delay in
  let r := mk (Some base) samples in
  if (length samples <? WINDOW_SAMPLES)%nat then r else
  match list_min (take half samples), list_min (drop half samples) with
  | Some older_min, Some recent_min =>
      if sat_add32 older_min 10 <? recent_min then r else
      let rise := sat_sub (Z.min older_min recent_min) base in
      if 0 <? rise then mk (Some (base + clamp (rise / 2) 1 MAX_INCREASE_MS)) samples else r
  | _, _ => r
  end.

(** [get_rtt().unwrap_or_default()] *)
Definition base (r : t) : Z := stdpp.option.default 0 (baseline r).
End Rtt.

(** ** One viewer's delays *)
Module UserDelay.
Record t := mk {
  stall_ticks : Z;
  delay_history : list Z;
  fps : option Z;
  rtt_calculator : Rtt.t;
  quick_increase_fps_count : Z;
  increase_fps_count : Z;
  consecutive_bad_samples : Z;
  fps_bad_samples : Z;
  good_samples : Z;
  replies_after_bitrate_reduction : option Z;
  fps_before_congestion : option Z;
  samples_since_restore : option Z;
  stall_reference_fps : option Z;
  startup_good_samples : Z
}.
#[global] Instance eta : Eta t := λ d,
  mk (stall_ticks d) (delay_history d) (fps d) (rtt_calculator d) (quick_increase_fps_count d)
    (increase_fps_count d) (consecutive_bad_samples d) (fps_bad_samples d) (good_samples d)
    (replies_after_bitrate_reduction d) (fps_before_congestion d) (samples_since_restore d)
    (stall_reference_fps d) (startup_good_samples d).
Definition default : t := mk 0 [] None Rtt.default 0 0 0 0 0 None None None None 0.

Definition add_delay (d : t) (delay : Z) : t :=
  d <| delay_history := push_window HISTORY_DELAY_LEN (delay_history d) delay |>.

Definition base (d : t) : Z := Rtt.base (rtt_calculator d).

Definition avg_delay (d : t) : Z :=
  match delay_history d with
  | [] => DELAY_THRESHOLD_150MS
  | h => sat_sub (wrap32 (foldr Z.add 0 h) / Z.of_nat (length h)) (base d)
  end.

Definition on_reduction (d : t) (current_fps : Z) : t :=
  let d := d <| startup_good_samples := u8_max |> <| good_samples := 0 |> <| fps_bad_samples := 0 |> in
  match fps_before_congestion d with
  | None => d <| fps_before_congestion := Some current_fps |>
  | Some _ => d
  end.

Definition recover (d : t) (current_fps new_fps : Z) : t * Z :=
  let gradual := current_fps + Z.max (current_fps / 10) 1 in
  let level := match fps_before_congestion d with
               | Some level => if current_fps <? level then Some level else None
               | None => None
               end in
  match level with
  | Some level =>
      if (good_samples d =? 2) || (good_samples d =? 3) then
        (d <| fps_before_congestion := None |> <| samples_since_restore := Some 0 |>,
         Z.max new_fps level)
      else (d, gradual)
  | None =>
      if good_samples d =? 3 then
        (d <| fps_before_congestion := None |>,
         Z.max new_fps (current_fps + Z.max (current_fps / 5) 2))
      else (d, gradual)
  end.

(** The level restored last is still on probation. *)
Definition within_guard (d : t) : bool :=
  match samples_since_restore d with
  | Some samples => samples <=? RESTORE_GUARD_SAMPLES
  | None => false
  end.

(** A good reply, and a bad one, in the counters. *)
Definition note_good (d : t) : t :=
  d <| consecutive_bad_samples := 0 |> <| fps_bad_samples := 0 |>
    <| replies_after_bitrate_reduction := None |>
    <| good_samples := Z.min (good_samples d + 1) 3 |>.
Definition note_bad (d : t) : t :=
  d <| consecutive_bad_samples := Z.min (consecutive_bad_samples d + 1) 3 |>
    <| fps_bad_samples := Z.min (fps_bad_samples d + 1) 3 |>
    <| replies_after_bitrate_reduction ::= fmap (λ replies, Z.min (replies + 1) 2) |>.

Definition limit_fps_change (d : t) (current_fps new_fps delay : Z) (bitrate_first braked : bool)
    : t * Z :=
  let delay := sat_sub delay (base d) in
  let d := d <| samples_since_restore ::= fmap (λ samples, sat_add8 samples 1) |> in
  if delay <? DELAY_THRESHOLD_150MS then recover (note_good d) current_fps new_fps
  else
    let d := note_bad d in
    let failed_restore := (600 <=? delay) && within_guard d in
    let d :=
      if within_guard d && (failed_restore || (3 <=? consecutive_bad_samples d)) then
        d <| fps_before_congestion := Some (current_fps - current_fps / 4) |>
          <| samples_since_restore := None |>
      else d in
    if (current_fps <=? new_fps) || braked then (d, current_fps)
    else if negb failed_restore && (delay <? 1000)
            && ((fps_bad_samples d <? 3)
                || (bitrate_first
                    && (stdpp.option.default 0 (replies_after_bitrate_reduction d) <? 2)))
    then (d, current_fps)
    else
      let divisor := if (1000 <=? delay) || failed_restore then 2 else 5 in
      (on_reduction d current_fps,
       Z.max new_fps (sat_sub current_fps (Z.max (current_fps / divisor) 1))).

Definition accelerate_startup (d : t) (current_fps new_fps cap delay : Z) (braked : bool) : t * Z :=
  if startup_good_samples d =? u8_max then (d, new_fps)
  else
    let excess := sat_sub delay (base d) in
    if braked || (50 <=? excess) || (cap <=? current_fps) then
      (d <| startup_good_samples := u8_max |>, new_fps)
    else
      let n := startup_good_samples d + 1 in
      if n <? 2 then (d <| startup_good_samples := n |>, new_fps)
      else
        let accelerated := Z.min (Z.max new_fps (sat_add32 current_fps current_fps)) cap in
        (d <| startup_good_samples := if cap <=? accelerated then u8_max else 0 |>, accelerated).

Definition needs_bitrate_reduction (d : t) : bool :=
  (2 <=? consecutive_bad_samples d) || (2 <=? stall_ticks d).

Definition ratio_reduction (d : t) : option f32 :=
  if negb (needs_bitrate_reduction d) then None
  else
    let excess := avg_delay d in
    let confirmed := 3 <=? consecutive_bad_samples d in
    Some (if excess <? 200 then f32_lit 95 100
          else if excess <? 300 then f32_lit 9 10
          else if excess <? 500 then if confirmed then f32_lit 7 10 else f32_lit 85 100
          else if confirmed then f32_lit 5 10 else f32_lit 8 10).

(** The frame rate the average delay calls for, and the counters that pace its
    growth. *)
Definition adapt (d : t) (current_fps old_avg_delay avg_delay min_fps normal_fps : Z) : t * Z :=
  let dividend_ms := DELAY_THRESHOLD_150MS * min_fps in
  let new_fps := current_fps in
  let '(d, new_fps) :=
    if avg_delay <? 50 then
      let count := quick_increase_fps_count d + 1 in
      let step := if new_fps <? normal_fps then 1 else 0 in
      let '(count, step) := if 3 <=? count then (0, 5) else (count, step) in
      (d <| quick_increase_fps_count := count |>, Z.max min_fps (new_fps + step))
    else if avg_delay <? 100 then
      let step := if avg_delay <? old_avg_delay then if new_fps <? normal_fps then 1 else 0 else 0 in
      (d, Z.max min_fps (new_fps + step))
    else if avg_delay <? DELAY_THRESHOLD_150MS then (d, Z.max min_fps new_fps)
    else
      let devide_fps :=
        fceil_u32 (fdiv (f32_of_Z new_fps)
                        (fdiv (f32_of_Z avg_delay) (f32_of_Z DELAY_THRESHOLD_150MS))) in
      (d, if avg_delay <? 200 then Z.max min_fps devide_fps
          else if avg_delay <? 300 then Z.min min_fps devide_fps
          else if avg_delay <? 600 then dividend_ms / avg_delay
          else Z.min (dividend_ms / avg_delay) devide_fps) in
  let d := d <| increase_fps_count :=
                  if avg_delay <? DELAY_THRESHOLD_150MS then increase_fps_count d + 1 else 0 |> in
  let '(d, new_fps) :=
    if 3 <=? increase_fps_count d then (d <| increase_fps_count := 0 |>, new_fps + 1)
    else (d, new_fps) in
  let d := if 50 <? avg_delay then d <| quick_increase_fps_count := 0 |> else d in
  (d, new_fps).
End UserDelay.

(** ** One viewer *)
Module UserData.
Record t := mk {
  auto_adjust_fps : option Z;
  custom_fps : option Z;
  quality : option (Z * Quality);
  delay : UserDelay.t;
  record : bool;
  joined_at : option Z
}.
#[global] Instance eta : Eta t := λ u,
  mk (auto_adjust_fps u) (custom_fps u) (quality u) (delay u) (record u) (joined_at u).
Definition default : t := mk None None None UserDelay.default false None.

Definition fps_cap (u : t) : Z :=
  let cap := stdpp.option.default FPS (custom_fps u) in
  let cap := match auto_adjust_fps u with
             | Some a => if (cap =? 0) || (a <? cap) then a else cap
             | None => cap
             end in
  clamp cap MIN_FPS MAX_FPS.

(** [user.delay.fps.unwrap_or(INIT_FPS.min(user_cap))] *)
Definition current_fps (u : t) : Z :=
  stdpp.option.default (Z.min INIT_FPS (fps_cap u)) (UserDelay.fps (delay u)).

(** A reply to a probe: the viewer after it, whether it calls for less bitrate,
    and whether it was the viewer's first. *)
Definition on_reply (u : t) (reply min_fps normal_fps : Z) (bitrate_first : bool)
    : option (t * bool * bool) :=
  let reply := Z.max reply 10 in
  let d := delay u in
  let braked := bool_decide (is_Some (UserDelay.stall_reference_fps d)) in
  let d := d <| UserDelay.stall_ticks := 0 |> <| UserDelay.stall_reference_fps := None |> in
  let old_avg_delay := UserDelay.avg_delay d in
  let d := if braked then d
           else d <| UserDelay.rtt_calculator ::= λ r, Rtt.update r reply |> in
  let d := UserDelay.add_delay d reply in
  let avg_delay := Z.max (UserDelay.avg_delay d) 10 in
  let user_cap := fps_cap u in
  let current := stdpp.option.default (Z.min INIT_FPS user_cap) (UserDelay.fps d) in
  let '(d, fps) := UserDelay.adapt d current old_avg_delay avg_delay min_fps normal_fps in
  let fps := if bitrate_first then Z.max fps min_fps else fps in
  let fps := Z.max fps (Z.min MIN_AUTO_FPS user_cap) in
  let '(d, fps) := UserDelay.limit_fps_change d current fps reply bitrate_first braked in
  let '(d, fps) := UserDelay.accelerate_startup d current fps user_cap reply braked in
  let reduce_bitrate :=
    bitrate_first && UserDelay.needs_bitrate_reduction d
    && bool_decide (UserDelay.replies_after_bitrate_reduction d = None) in
  fps ← clamp_checked fps MIN_FPS user_cap;
  let first := bool_decide (UserDelay.fps d = None) in
  Some (u <| delay := d <| UserDelay.fps := Some fps |> |>, reduce_bitrate, first).

(** The probe has been out for [elapsed] (a [u128]) milliseconds. *)
Definition on_elapsed (u : t) (elapsed : Z) : option t :=
  if elapsed <=? 2000 then Some u
  else
    let d := delay u in
    let d := d <| UserDelay.stall_ticks := sat_add8 (UserDelay.stall_ticks d) 1 |> in
    let d := UserDelay.add_delay d (wrap32 elapsed) in
    let '(d, reference) :=
      match UserDelay.stall_reference_fps d with
      | Some reference => (d, reference)
      | None =>
          let reference := stdpp.option.default (Z.min INIT_FPS (fps_cap u)) (UserDelay.fps d) in
          (UserDelay.on_reduction (d <| UserDelay.stall_reference_fps := Some reference |>) reference,
           reference)
      end in
    let divisor := Z.shiftl 1 (Z.min (sat_sub (wrap32 (elapsed / 1000)) 1) 5) in
    let user_cap := fps_cap u in
    let current := stdpp.option.default reference (UserDelay.fps d) in
    fps ← clamp_checked (reference / divisor) (Z.min MIN_AUTO_FPS user_cap) user_cap;
    Some (u <| delay := d <| UserDelay.fps := Some (Z.min fps current) |> |>).
End UserData.

Module DisplayData.
Record t := mk { send_counter : Z; support_changing_quality : bool }.
#[global] Instance eta : Eta t := λ d, mk (send_counter d) (support_changing_quality d).
Definition default : t := mk 0 false.
End DisplayData.

(** ** The controller *)
Module VideoQoS.
Record t := mk {
  fps : Z;
  ratio : f32;
  users : gmap Z UserData.t;
  displays : gmap str DisplayData.t;
  bitrate_store : Z;
  adjust_ratio_instant : Z;
  abr_config : bool;
  first_reply_adjusts_ratio : bool
}.
#[global] Instance eta : Eta t := λ q,
  mk (fps q) (ratio q) (users q) (displays q) (bitrate_store q) (adjust_ratio_instant q)
    (abr_config q) (first_reply_adjusts_ratio q).

Section controller.
(** [cfg!(target_os = "linux")], and the order in which the hash map of viewers
    is iterated. *)
Context (linux : bool) (iter : gmap Z UserData.t → list UserData.t).

Definition default (now : Z) : t := mk FPS BR_BALANCED ∅ ∅ 0 now true (negb linux).

(** [self.since(instant).as_secs()] *)
Definition secs_since (now instant : Z) : Z := sat_sub now instant / 1000.

Definition get_fps (q : t) : Z :=
  if (MIN_FPS <=? fps q) && (fps q <=? MAX_FPS) then fps q else FPS.
Definition store_bitrate (q : t) (bitrate : Z) : t := q <| bitrate_store := bitrate |>.
Definition bitrate (q : t) : Z := bitrate_store q.
Definition get_ratio (q : t) : t * f32 :=
  let q := if fltb (ratio q) BR_MIN_HIGH_RESOLUTION || fgtb (ratio q) BR_MAX
           then q <| ratio := BR_BALANCED |> else q in
  (q, ratio q).
Definition record (q : t) : bool := existsb UserData.record (iter (users q)).
Definition set_support_changing_quality (q : t) (name : str) (support : bool) : t :=
  q <| displays ::= alter (λ d, d <| DisplayData.support_changing_quality := support |>) name |>.
Definition in_vbr_state (q : t) : bool :=
  abr_config q
  && forallb (λ e, DisplayData.support_changing_quality e.2) (map_to_list (displays q)).

(** *** What the viewers add up to *)
Definition highest_fps (q : t) : Z :=
  clamp (stdpp.option.default FPS (list_min (UserData.fps_cap <$> iter (users q)))) MIN_FPS MAX_FPS.

(** [max_by] on the times: the last of the greatest. *)
Definition later (best : option (Z * Quality)) (q : Z * Quality) : option (Z * Quality) :=
  match best with
  | None => Some q
  | Some b => if q.1 <? b.1 then Some b else Some q
  end.
Definition latest_quality (q : t) : Quality :=
  match foldl later None (omap UserData.quality (iter (users q))) with
  | Some (_, quality) => quality
  | None => Balanced
  end.

Definition min_ratio (q : t) : f32 :=
  let current_bitrate := bitrate q in
  let ratio_1mbps :=
    if 0 <? current_bitrate
    then Some (fmax (fdiv (fmul (ratio q) (f32_of_Z 1000)) (f32_of_Z current_bitrate))
                    BR_MIN_HIGH_RESOLUTION)
    else None in
  let lower (min : f32) :=
    match ratio_1mbps with Some r => if fgtb min r then r else min | None => min end in
  match latest_quality q with
  | Best => fmax (lower (fdiv BR_BEST (f32_lit 25 10))) BR_MIN
  | Balanced => fmax (lower (fmin (fdiv BR_BALANCED (f32_of_Z 2)) (f32_lit 4 10)))
                     BR_MIN_HIGH_RESOLUTION
  | Low | Custom _ => BR_MIN_HIGH_RESOLUTION
  end.

Definition can_reduce_bitrate (q : t) : bool :=
  in_vbr_state q && negb (bool_decide (displays q = ∅))
  && fgtb (ratio q) (fmul (min_ratio q) (f32_lit 102 100)).

Definition reset_send_counters (q : t) : t :=
  q <| displays ::= fmap (λ d, d <| DisplayData.send_counter := 0 |>) |>.

(** [reduce(f32::min)] *)
Definition reduce_min (l : list f32) : option f32 :=
  match l with [] => None | x :: l' => Some (foldl fmin x l') end.

(** The ratio wanted, before it is clamped. *)
Definition wanted_ratio (q : t) (reduction : option f32) (max_delay : Z) (dynamic_screen : bool) : f32 :=
  let current_ratio := ratio q in
  let current_bitrate := bitrate q in
  let ratio_add_150kbps :=
    if 0 <? current_bitrate
    then Some (fdiv (fmul (f32_of_Z (wrap32 (current_bitrate + 150))) current_ratio)
                    (f32_of_Z current_bitrate))
    else None in
  let v :=
    match reduction with
    | Some factor => fmul current_ratio factor
    | None =>
        if dynamic_screen then
          fmul current_ratio
            (if max_delay <? 50 then f32_lit 115 100
             else if max_delay <? 100 then f32_lit 11 10 else f32_lit 105 100)
        else current_ratio
    end in
  match ratio_add_150kbps with
  | Some add => if fgtb v add && fgtb add current_ratio && fleb BR_SPEED current_ratio then add else v
  | None => v
  end.

(** Who asked for the reduction waits for its effect. The clamp in this loop
    has the bounds of the one after it. *)
Definition note_reduction (u : UserData.t) (lowered : bool) : UserData.t :=
  let d := UserData.delay u in
  if UserDelay.needs_bitrate_reduction d
     && bool_decide (UserDelay.replies_after_bitrate_reduction d = None)
  then u <| UserData.delay :=
         d <| UserDelay.replies_after_bitrate_reduction := Some (if lowered then 0 else 2) |> |>
  else u.

Definition adjust_ratio (q : t) (now : Z) (dynamic_screen : bool) : option t :=
  if negb (in_vbr_state q) then Some q
  else
    let delays := (λ u, UserDelay.avg_delay (UserData.delay u)) <$> iter (users q) in
    match delays with
    | [] => Some q
    | d :: ds =>
        let max_delay := foldr Z.max d ds in
        let reduction :=
          reduce_min (omap (λ u, UserDelay.ratio_reduction (UserData.delay u)) (iter (users q))) in
        if negb (bool_decide (is_Some reduction)) && (DELAY_THRESHOLD_150MS <=? max_delay)
        then Some (reset_send_counters q)
        else
          let min := min_ratio q in
          let max := fmul (quality_ratio (latest_quality q)) MAX_BR_MULTIPLE in
          clamped ← fclamp (wanted_ratio q reduction max_delay dynamic_screen) min max;
          let users' :=
            match reduction with
            | Some _ => (λ u, note_reduction u (fltb clamped (ratio q))) <$> users q
            | None => users q
            end in
          Some (reset_send_counters (q <| users := users' |> <| ratio := clamped |>)
                <| adjust_ratio_instant := now |>)
    end.

Definition adjust_fps (q : t) (now : Z) : option t :=
  let highest := highest_fps q in
  let us := iter (users q) in
  let fps' := stdpp.option.default INIT_FPS
    (list_min ((λ u, stdpp.option.default INIT_FPS (UserDelay.fps (UserData.delay u))) <$> us)) in
  let starting (u : UserData.t) :=
    match UserData.joined_at u with Some joined => secs_since now joined <? 1 | None => false end in
  let fps' := if existsb starting us then Z.min fps' INIT_FPS else fps' in
  fps' ← clamp_checked fps' MIN_FPS highest;
  Some (q <| fps := fps' |>).

(** *** Viewers coming, going and choosing *)
Definition on_connection_open (q : t) (now id : Z) (enable_abr : bool) : t :=
  q <| users ::= <[id := UserData.default <| UserData.joined_at := Some now |> ]> |>
    <| abr_config := enable_abr |>.

Definition on_connection_close (q : t) (now id : Z) : option t :=
  let q := q <| users ::= delete id |> in
  if bool_decide (users q = ∅) then Some (default now) else adjust_fps q now.

Definition fps_in_range (fps : Z) : bool := negb ((fps <? MIN_FPS) || (MAX_FPS <? fps)).
Definition user_custom_fps (q : t) (id fps : Z) : t :=
  if fps_in_range fps then q <| users ::= alter (λ u, u <| UserData.custom_fps := Some fps |>) id |>
  else q.
Definition user_auto_adjust_fps (q : t) (id fps : Z) : t :=
  if fps_in_range fps then q <| users ::= alter (λ u, u <| UserData.auto_adjust_fps := Some fps |>) id |>
  else q.

(** [ImageQuality]: Low = 2, Balanced = 3, Best = 4. *)
Definition custom_ratio (bits : Z) : option f32 :=
  fclamp (fdiv (f32_of_Z (bits * 2)) (f32_of_Z 100)) BR_MIN BR_MAX.
Definition convert_quality (q : Z) : option Quality :=
  if q =? 3 then Some Balanced
  else if q =? 2 then Some Low
  else if q =? 4 then Some Best
  else Custom <$> custom_ratio (Z.land (Z.shiftr q 8) 4095).

Definition user_image_quality (q : t) (time id image_quality : Z) : option t :=
  quality ← convert_quality image_quality;
  match users q !! id with
  | Some u =>
      let q := q <| users ::= <[id := u <| UserData.quality := Some (time, quality) |> ]> |> in
      Some (q <| ratio := quality_ratio (latest_quality q) |>)
  | None => Some q
  end.

Definition user_record (q : t) (id : Z) (v : bool) : t :=
  q <| users ::= alter (λ u, u <| UserData.record := v |>) id |>.

(** *** Replies, timeouts and the display tick *)
Definition fps_bounds (target_ratio : f32) : Z * Z :=
  if fleb BR_BEST target_ratio then (8, 16)
  else if fleb BR_BALANCED target_ratio then (10, 20)
  else (12, 24).

Definition user_network_delay (q : t) (now id delay : Z) : option t :=
  let target_ratio := quality_ratio (latest_quality q) in
  let bitrate_first := can_reduce_bitrate q in
  let '(min_fps, normal_fps) := fps_bounds target_ratio in
  '(q, reduce_bitrate, first) ←
    match users q !! id with
    | Some u =>
        '(u, reduce_bitrate, first) ← UserData.on_reply u delay min_fps normal_fps bitrate_first;
        Some (q <| users ::= <[id := u]> |>, reduce_bitrate, first)
    | None => Some (q, false, false)
    end;
  q ← adjust_fps q now;
  let cooled (q : t) := ADJUST_RATIO_INTERVAL <=? secs_since now (adjust_ratio_instant q) in
  q ← if first && first_reply_adjusts_ratio q && cooled q then adjust_ratio q now false else Some q;
  if reduce_bitrate && cooled q then adjust_ratio q now false else Some q.

Definition user_delay_response_elapsed (q : t) (now id elapsed : Z) : option t :=
  match users q !! id with
  | None => Some q
  | Some u =>
      if elapsed <=? 2000 then Some q
      else
        u ← UserData.on_elapsed u elapsed;
        adjust_fps (q <| users ::= <[id := u]> |>) now
  end.

Definition new_display (q : t) (name : str) : t :=
  q <| displays ::= <[name := DisplayData.default]> |>.
Definition remove_display (q : t) (name : str) : t := q <| displays ::= delete name |>.

Definition update_display_data (q : t) (now : Z) (name : str) (send_counter : Z) : option t :=
  let q := q <| displays ::= alter (λ d, d <| DisplayData.send_counter ::= Z.add send_counter |>) name |> in
  q ← adjust_fps q now;
  if in_vbr_state q then
    if ADJUST_RATIO_INTERVAL <=? secs_since now (adjust_ratio_instant q) then
      let dynamic_screen :=
        existsb (λ d, ADJUST_RATIO_INTERVAL * DYNAMIC_SCREEN_THRESHOLD <=? DisplayData.send_counter d.2)
          (map_to_list (displays q)) in
      adjust_ratio q now dynamic_screen
    else Some q
  else Some (q <| ratio := quality_ratio (latest_quality q) |>).

(** *** The controller as a step function *)
Inductive op :=
| Open (id : Z) (enable_abr : bool)
| Close (id : Z)
| CustomFps (id fps : Z)
| AutoAdjustFps (id fps : Z)
| ImageQuality (time id quality : Z)
| RecordOn (id : Z) (v : bool)
| NetworkDelay (id delay : Z)
| ResponseElapsed (id elapsed : Z)
| NewDisplay (name : str)
| RemoveDisplay (name : str)
| SetSupport (name : str) (support : bool)
| DisplayTick (name : str) (send_counter : Z)
| StoreBitrate (bitrate : Z)
| ReadRatio.

Definition step (q : t) (now : Z) (o : op) : option t :=
  match o with
  | Open id abr => Some (on_connection_open q now id abr)
  | Close id => on_connection_close q now id
  | CustomFps id f => Some (user_custom_fps q id f)
  | AutoAdjustFps id f => Some (user_auto_adjust_fps q id f)
  | ImageQuality time id v => user_image_quality q time id v
  | RecordOn id v => Some (user_record q id v)
  | NetworkDelay id d => user_network_delay q now id d
  | ResponseElapsed id e => user_delay_response_elapsed q now id e
  | NewDisplay n => Some (new_display q n)
  | RemoveDisplay n => Some (remove_display q n)
  | SetSupport n b => Some (set_support_changing_quality q n b)
  | DisplayTick n c => update_display_data q now n c
  | StoreBitrate b => Some (store_bitrate q b)
  | ReadRatio => Some (get_ratio q).1
  end.

Fixpoint run (q : t) (ops : list (Z * op)) : option t :=
  match ops with
  | [] => Some q
  | (now, o) :: ops' => q ← step q now o; run q ops'
  end.
End controller.
End VideoQoS.

(** ** The source's own tests *)
Module QosTests.
Import VideoQoS.
Definition order (m : gmap Z UserData.t) : list UserData.t := (map_to_list m).*2.

(** [stable_qos]: a viewer whose start-up second is over, twelve replies of 10 ms. *)
Definition viewer_inserted : t := (default true 0) <| users := {[1 := UserData.default]} |>.
Definition replies (q : option t) (l : list Z) : list (option Z) :=
  (λ n, q ← q; get_fps <$> run true order q ((λ d, (2000, NetworkDelay 1 d)) <$> take n l))
    <$> seq 1 (length l).
Definition stable_qos : option t :=
  run true order viewer_inserted (replicate 12 (2000, NetworkDelay 1 10)).

Example stable : get_fps <$> stable_qos = Some FPS.
Proof. vm_compute. reflexivity. Qed.
Example isolated_delay_spike_does_not_lower_fps :
  replies stable_qos [800; 10; 10; 10] = Some <$> [30; 30; 30; 30].
Proof. vm_compute. reflexivity. Qed.
Example sustained_delay_reduces_fps_gradually :
  replies stable_qos (replicate 6 800) = Some <$> [30; 30; 24; 24; 24; 20].
Proof. vm_compute. reflexivity. Qed.
Example severe_delay_does_not_wait_for_another_reply : replies stable_qos [1200] = [Some 15].
Proof. vm_compute. reflexivity. Qed.
Example response_timeout_halves_fps_for_each_second_outstanding :
  (λ n, q ← stable_qos; get_fps <$> run true order q
     ((λ e, (2000, ResponseElapsed 1 e)) <$> take n [2001; 3001; 4001; 5001; 6001])) <$> seq 1 5
  = Some <$> [15; 7; 5; 5; 5].
Proof. vm_compute. reflexivity. Qed.
Example response_timeout_recovers_in_two_good_replies :
  (q ← stable_qos; q ← step true order q 2000 (ResponseElapsed 1 3000);
   Some (get_fps q :: omap id (replies (Some q) [3200; 10; 10; 10]))) = Some [7; 7; 8; 30; 30].
Proof. vm_compute. reflexivity. Qed.
Example custom_fps_limit_applies_during_delay_spike :
  (q ← stable_qos; get_fps <$> run true order q
     [(2000, CustomFps 1 12); (2000, NetworkDelay 1 800)]) = Some 12.
Proof. vm_compute. reflexivity. Qed.
End QosTests.
