(* ===== verification/QosFacts.v ===== *)
(** * The video rate controller, proved

    The invariant of the controller (no panic, bounded rates and ratio), the
    stream's frame rate as the greatest lower bound of what its viewers allow,
    when a viewer's frame rate may fall and how it recovers, and the delay
    baseline. *)
From Stdlib Require Import SpecFloat.
From S2P Require Import Prelude F32 VideoQos.
Local Open Scope Z_scope.

(** ** Integers *)
Lemma clamp_checked_some x lo hi : lo <= hi → clamp_checked x lo hi = Some (clamp x lo hi).
Proof. intros. unfold clamp_checked. by rewrite (proj2 (Z.leb_le _ _)). Qed.

Lemma clamp_between x lo hi : lo <= hi → lo <= clamp x lo hi <= hi.
Proof. unfold clamp. lia. Qed.

Lemma fps_cap_range u : 1 <= UserData.fps_cap u <= 120.
Proof. unfold UserData.fps_cap. apply clamp_between. unfold MIN_FPS, MAX_FPS. lia. Qed.

Lemma list_min_spec l m :
  list_min l = Some m ↔ m ∈ l ∧ ∀ x, x ∈ l → m <= x.
Proof.
  destruct l as [|y l]; simpl; [by split; [|intros [?%not_elem_of_nil _]]|].
  assert (foldr Z.min y l ∈ y :: l ∧ ∀ x, x ∈ y :: l → foldr Z.min y l <= x) as [Hin Hle].
  { induction l as [|z l [IHin IHle]]; simpl.
    - split; [by left|]. intros x [->|?%not_elem_of_nil]%elem_of_cons; [lia|done].
    - split.
      + destruct (Z.min_spec z (foldr Z.min y l)) as [[_ ->]|[_ ->]]; [by right; left|].
        apply elem_of_cons in IHin as [->|?]; [by left|by right; right].
      + intros x [->|[->|?]%elem_of_cons]%elem_of_cons; [|lia|].
        * specialize (IHle y). rewrite elem_of_cons in IHle. specialize (IHle (or_introl eq_refl)). lia.
        * specialize (IHle x). rewrite elem_of_cons in IHle. specialize (IHle (or_intror H)). lia. }
  split; [intros [= <-]; done|]. intros [Hm Hmle]. f_equal. apply Z.le_antisymm; eauto.
Qed.

Lemma list_min_none l : list_min l = None ↔ l = [].
Proof. by destruct l. Qed.

Lemma last_in_window n l x y : y ∈ push_window n l x → y = x ∨ y ∈ l.
Proof.
  unfold push_window. intros [Hy| ->%list_elem_of_singleton]%elem_of_app; [right|by left].
  case_match; [|done]. destruct l; [done|]. by right.
Qed.

(** ** The shape of a reply *)
Section reply.
Import UserData UserDelay.

(** What the average-delay step leaves alone. *)
Lemma adapt_frame d c o a mn nm :
  ∃ x y, (adapt d c o a mn nm).1 = d <| quick_increase_fps_count := x |> <| increase_fps_count := y |>.
Proof. unfold adapt. repeat case_match; simplify_eq/=; eauto. Qed.

(** The excess of a reply over the baseline the viewer has after it. *)
Definition excess (u : UserData.t) (reply : Z) : Z := sat_sub (Z.max reply 10) (base (delay u)).

Lemma limit_rtt d c f r bf br : rtt_calculator (limit_fps_change d c f r bf br).1 = rtt_calculator d.
Proof.
  unfold limit_fps_change, recover, on_reduction. cbv zeta. repeat case_match; simplify_eq/=; done.
Qed.

Lemma accelerate_frame d c f cap r br :
  ∃ x, (accelerate_startup d c f cap r br).1 = d <| startup_good_samples := x |>.
Proof. unfold accelerate_startup. repeat case_match; simplify_eq/=; eauto. by destruct d; eexists. Qed.

Lemma accelerate_ge d c f cap r br :
  Z.min f cap <= (accelerate_startup d c f cap r br).2.
Proof. unfold accelerate_startup. repeat case_match; simpl; lia. Qed.

(** Nothing is accelerated on a bad reply. *)
Lemma accelerate_bad d c f cap r br :
  50 <= sat_sub r (base d) → (accelerate_startup d c f cap r br).2 = f.
Proof.
  intros H. unfold accelerate_startup. rewrite (proj2 (Z.leb_le _ _) H).
  repeat case_match; try done; simpl in *; rewrite ?orb_true_r in *; done.
Qed.

(** Two frame-rate states that agree on all that limiting looks at. *)
Definition same_counters (d d' : UserDelay.t) : Prop :=
  good_samples d = good_samples d'
  ∧ fps_bad_samples d = fps_bad_samples d'
  ∧ consecutive_bad_samples d = consecutive_bad_samples d'
  ∧ fps_before_congestion d = fps_before_congestion d'
  ∧ samples_since_restore d = samples_since_restore d'
  ∧ replies_after_bitrate_reduction d = replies_after_bitrate_reduction d'.

(** A reply in terms of its limiting step. *)
Lemma on_reply_view u r mn nm bf :
  ∃ u' rb first d f x acc,
    on_reply u r mn nm bf = Some (u', rb, first)
    ∧ Z.min MIN_AUTO_FPS (fps_cap u) <= f
    ∧ same_counters d (delay u)
    ∧ base d = base (delay u')
    ∧ let braked := bool_decide (is_Some (stall_reference_fps (delay u))) in
      let limit := limit_fps_change d (current_fps u) f (Z.max r 10) bf braked in
      Z.min limit.2 (fps_cap u) <= acc
      ∧ (50 <= excess u' r → acc = limit.2)
      ∧ u' = u <| delay := limit.1 <| startup_good_samples := x |>
                             <| UserDelay.fps := Some (clamp acc 1 (fps_cap u)) |> |>.
Proof.
  unfold on_reply, current_fps. cbv zeta.
  set (d0 := (delay u) <| stall_ticks := 0 |> <| stall_reference_fps := None |>).
  set (br := bool_decide _).
  set (d1 := if br then d0 else _). set (d2 := add_delay d1 _).
  assert (same_counters d2 (delay u) ∧ UserDelay.fps d2 = UserDelay.fps (delay u)) as [Hsame Hfps].
  { unfold d2, d1, d0. by destruct br. }
  clearbody d2. clear d1. rewrite Hfps.
  set (c := stdpp.option.default _ _).
  destruct (adapt d2 c _ _ mn nm) as [d3 f3] eqn:Had.
  edestruct (adapt_frame d2 c) as (x & y & Hd3). rewrite Had in Hd3. simpl in Hd3.
  assert (same_counters d3 (delay u)) as Hsame3 by (subst d3; apply Hsame).
  set (f4 := Z.max (if bf then _ else _) (Z.min MIN_AUTO_FPS (fps_cap u))).
  assert (Z.min MIN_AUTO_FPS (fps_cap u) <= f4) as Hfloor by (unfold f4; lia). clearbody f4.
  pose proof (limit_rtt d3 c f4 (Z.max r 10) bf br) as Hrtt.
  destruct (limit_fps_change d3 c f4 (Z.max r 10) bf br) as [d5 f5] eqn:Hlim. simpl in Hrtt.
  pose proof (accelerate_ge d5 c f5 (fps_cap u) (Z.max r 10) br) as Hge.
  pose proof (accelerate_bad d5 c f5 (fps_cap u) (Z.max r 10) br) as Hbad.
  edestruct (accelerate_frame d5 c f5 (fps_cap u) (Z.max r 10) br) as (z & Hz).
  destruct (accelerate_startup d5 c f5 (fps_cap u) (Z.max r 10) br) as [d6 f6]. simpl in *.
  rewrite clamp_checked_some by (pose proof (fps_cap_range u); unfold MIN_FPS; lia).
  simpl. eexists _, _, _, d3, f4, z, f6. rewrite Hlim. subst d6.
  split; [reflexivity|]. split_and!; try done. by unfold base; simpl; rewrite Hrtt.
Qed.
End reply.

(** ** When a viewer's frame rate falls *)
Section reductions.
Import UserData UserDelay.

(** How far one reply may lower a rate. *)
Definition step_down (f divisor : Z) : Z := f - Z.max 1 (f / divisor).

Lemma limit_good d c f r bf br :
  sat_sub r (base d) < 150 →
  c < (limit_fps_change d c f r bf br).2
  ∧ fps_bad_samples (limit_fps_change d c f r bf br).1 = 0.
Proof.
  intros H. unfold limit_fps_change, recover, base. cbv zeta. simpl.
  unfold base in H. rewrite (proj2 (Z.ltb_lt _ _)) by done.
  repeat case_match; simplify_eq/=; split; try done; try lia;
    repeat match goal with H : (if ?b then _ else _) = _ |- _ => destruct b eqn:?; simplify_eq/= end;
    try lia.
Qed.

Lemma limit_bad d c f r bf br (e := sat_sub r (base d)) :
  150 <= e → 1 <= c → 0 <= f →
  let '(d', f') := limit_fps_change d c f r bf br in
  f' <= c
  ∧ (f' = c → fps_bad_samples d' = Z.min (fps_bad_samples d + 1) 3)
  ∧ (f' < c → br = false ∧ fps_bad_samples d' = 0 ∧ f <= f'
       ∧ (600 <= e ∨ 2 <= fps_bad_samples d ∧ step_down c 5 <= f')
       ∧ step_down c 2 <= f').
Proof.
  intros He Hc Hf. unfold limit_fps_change, base. cbv zeta. simpl. fold (base d). fold e.
  rewrite (proj2 (Z.ltb_ge _ _)) by done.
  set (d1 := note_bad _). set (failed := (600 <=? e) && within_guard d1).
  assert (failed = true → 600 <= e) as Hfailed.
  { unfold failed. intros [?%Z.leb_le _]%andb_true_iff. done. }
  set (d2 := if within_guard d1 && _ then _ else d1).
  assert (fps_bad_samples d2 = Z.min (fps_bad_samples d + 1) 3) as Hbad.
  { unfold d2. by case_match. }
  clearbody d2 failed. destruct (Z.leb_spec c f); simpl; [split_and!; [lia|done|lia]|].
  destruct br; [split_and!; [lia|done|lia]|].
  destruct (negb failed && (e <? 1000) && _) eqn:Hwait; [split_and!; [lia|done|lia]|].
  set (div := if (1000 <=? e) || failed then 2 else 5).
  assert (0 <= c / div /\ c / div <= c / 2 /\ (e < 600 → div = 5)) as (Hdiv & Hdiv2 & H5).
  { unfold div. split_and!; [apply Z.div_pos; [lia|by case_match]|..].
    - case_match; [lia|]. apply Z.div_le_compat_l; lia.
    - intros He6. rewrite (proj2 (Z.leb_gt _ _)) by lia. destruct failed; [|done].
      specialize (Hfailed eq_refl). lia. }
  assert (c / 2 <= c) by (apply Z.div_le_upper_bound; lia).
  unfold sat_sub, step_down. split_and!; [lia|lia|]. intros _.
  split; [done|]. split.
  { unfold on_reduction. simpl. by destruct (fps_before_congestion d2). }
  split_and!; [lia| |lia].
  destruct (Z.le_gt_cases 600 e) as [|He6]; [by left|right]. rewrite H5 by done. split; [|lia].
  destruct failed; [specialize (Hfailed eq_refl); lia|]. simpl in Hwait.
  rewrite (proj2 (Z.ltb_lt e 1000)) in Hwait by lia. simpl in Hwait.
  apply orb_false_iff in Hwait as [Hlt _]. rewrite Hbad in Hlt. lia.
Qed.

(** The viewer's rate is one it may have. *)
Definition in_range (u : UserData.t) : Prop := 1 <= current_fps u <= fps_cap u.

(** One reply, as the rates before and after it see it. *)
Lemma on_reply_rate u r mn nm bf :
  in_range u →
  ∃ u' rb first,
    on_reply u r mn nm bf = Some (u', rb, first)
    ∧ fps_cap u' = fps_cap u ∧ in_range u'
    ∧ let e := excess u' r in let f := current_fps u in let f' := current_fps u' in
      (e < 150 → f <= f' ∧ fps_bad_samples (delay u') = 0)
      ∧ (150 <= e → f' = f → fps_bad_samples (delay u') = Z.min (fps_bad_samples (delay u) + 1) 3)
      ∧ (150 <= e → f' <= f)
      ∧ (150 <= e → f' < f → stall_reference_fps (delay u) = None
           ∧ fps_bad_samples (delay u') = 0 ∧ Z.min MIN_AUTO_FPS (fps_cap u) <= f'
           ∧ (600 <= e ∨ 2 <= fps_bad_samples (delay u) ∧ step_down f 5 <= f')
           ∧ step_down f 2 <= f').
Proof.
  intros [Hlo Hhi].
  destruct (on_reply_view u r mn nm bf)
    as (u' & rb & first & d & f & x & acc & Hrun & Hfloor & Hsame & Hbase & Hacc & Hbad & Hu').
  exists u', rb, first. split; [done|]. pose proof (fps_cap_range u) as Hcap.
  assert (fps_cap u' = fps_cap u) as Hcap' by by rewrite Hu'.
  assert (current_fps u' = clamp acc 1 (fps_cap u)) as Hcur by by rewrite Hu'.
  assert (fps_bad_samples (delay u') = fps_bad_samples (limit_fps_change d (current_fps u) f
    (Z.max r 10) bf (bool_decide (is_Some (stall_reference_fps (delay u))))).1) as Hbs by by rewrite Hu'.
  split; [done|]. split; [unfold in_range; rewrite Hcap', Hcur; apply clamp_between; lia|].
  cbv zeta. rewrite Hcur, Hbs. unfold excess in *. rewrite <- Hbase in *. clear Hu' Hcur Hbs.
  split.
  { intros He. destruct (limit_good d (current_fps u) f _ bf
      (bool_decide (is_Some (stall_reference_fps (delay u)))) He) as [Hgt ->].
    split; [|done]. unfold clamp. lia. }
  assert (Z.min 5 (fps_cap u) <= f) as Hf by done.
  pose proof (λ He, limit_bad d (current_fps u) f (Z.max r 10) bf
    (bool_decide (is_Some (stall_reference_fps (delay u)))) He ltac:(lia) ltac:(lia)) as Hlim.
  destruct (limit_fps_change _ _ _ _ _ _) as [d' f']. simpl in *.
  destruct Hsame as (_ & Hs & _). rewrite Hs in Hlim.
  split_and!; intros He; specialize (Hbad ltac:(lia)); subst acc; specialize (Hlim He) as (H1 & H2 & H3).
  - intros Heq. apply H2. unfold clamp in Heq. lia.
  - unfold clamp. lia.
  - intros Hlt. unfold clamp in *. destruct H3 as (Hb & ? & ? & Hd & ?); [lia|].
    apply bool_decide_eq_false in Hb. rewrite <- eq_None_not_Some in Hb.
    split_and!; [done|done|unfold MIN_AUTO_FPS; lia| |lia].
    destruct Hd as [|[? ?]]; [by left|right; lia].
Qed.

(** A run of replies: the excess of each, and the rate before and after it.
    A reply comes with the frame-rate bounds and bitrate state of its moment. *)
Fixpoint viewer_trace (u : UserData.t) (rs : list (Z * (Z * Z * bool))) : option (list (Z * Z * Z)) :=
  match rs with
  | [] => Some []
  | (r, (mn, nm, bf)) :: rs' =>
      '(u', _, _) ← on_reply u r mn nm bf;
      tr ← viewer_trace u' rs';
      Some ((excess u' r, current_fps u, current_fps u') :: tr)
  end.

(** A bad reply that lowered nothing. *)
Definition held (x : option (Z * Z * Z)) : Prop := ∃ e f f', x = Some (e, f, f') ∧ 150 <= e ∧ f' = f.

Lemma trace_reductions rs : ∀ u, in_range u →
  ∃ tr, viewer_trace u rs = Some tr ∧ length tr = length rs
  ∧ ∀ k e f f', tr !! k = Some (e, f, f') → f' < f →
      150 <= e ∧ Z.min MIN_AUTO_FPS (fps_cap u) <= f' ∧ step_down f 2 <= f'
      ∧ (600 <= e ∨ step_down f 5 <= f'
           ∧ match k with
             | 0%nat => 2 <= fps_bad_samples (delay u)
             | 1%nat => 1 <= fps_bad_samples (delay u) ∧ held (tr !! 0%nat)
             | S (S j) => held (tr !! j) ∧ held (tr !! S j)
             end).
Proof.
  induction rs as [|[r [[mn nm] bf]] rs IH]; intros u Hu.
  { exists []. split_and!; [done..|]. intros k e f f' Hk. by rewrite lookup_nil in Hk. }
  destruct (on_reply_rate u r mn nm bf Hu) as (u' & rb & first & Hrun & Hcap & Hu' & Hgood & Hkeep & Hle & Hlow).
  destruct (IH u' Hu') as (tr & Htr & Hlen & IH'). rewrite Hcap in IH'.
  eexists. split; [simpl; rewrite Hrun; simpl; rewrite Htr; reflexivity|]. split; [simpl; lia|].
  assert (1 <= fps_bad_samples (delay u') → held (Some (excess u' r, current_fps u, current_fps u'))
    ∧ fps_bad_samples (delay u') <= fps_bad_samples (delay u) + 1) as Hheld.
  { intros Hb. destruct (Z.lt_ge_cases (excess u' r) 150) as [He|He];
      [destruct (Hgood He); lia|]. specialize (Hle He).
    destruct (decide (current_fps u' = current_fps u)) as [Heq|Hne].
    - rewrite (Hkeep He Heq) in *. split; [|lia]. by exists (excess u' r), (current_fps u), (current_fps u').
    - destruct (Hlow He) as (_ & ? & _); lia. }
  intros [|[|[|k]]] e f f' Hk Hlt; simpl in Hk.
  - injection Hk as <- <- <-. destruct (Z.lt_ge_cases (excess u' r) 150) as [He|He].
    { destruct (Hgood He). lia. }
    destruct (Hlow He Hlt) as (_ & _ & ? & Hd & ?). split_and!; [done..|].
    destruct Hd as [|[? ?]]; auto.
  - destruct (IH' 0%nat e f f' Hk Hlt) as (? & ? & ? & Hd). split_and!; [done..|].
    destruct Hd as [|[? Hb]]; [by left|right]. destruct Hheld as [? ?]; [lia|].
    split_and!; [done|lia|done].
  - destruct (IH' 1%nat e f f' Hk Hlt) as (? & ? & ? & Hd). split_and!; [done..|].
    destruct Hd as [|[? [Hb ?]]]; [by left|right]. destruct Hheld as [? ?]; [lia|]. done.
  - destruct (IH' (S (S k)) e f f' Hk Hlt) as (? & ? & ? & Hd). split_and!; [done..|].
    destruct Hd as [|[? [? ?]]]; [by left|right]. done.
Qed.
End reductions.

(** ** Recovery *)
Section recovery.
Import UserData UserDelay.

Lemma limit_good_level d c f r bf br L :
  sat_sub r (base d) < 150 → fps_before_congestion d = Some L → 0 <= good_samples d →
  let '(d', f') := limit_fps_change d c f r bf br in
  L <= f' ∨ fps_before_congestion d' = Some L ∧ good_samples d' = 1 ∧ good_samples d = 0.
Proof.
  intros He HL Hg. unfold limit_fps_change, base. cbv zeta. simpl. fold (base d).
  rewrite (proj2 (Z.ltb_lt _ _)) by done. unfold recover. simpl. rewrite HL.
  destruct (Z.ltb_spec c L); simpl.
  - destruct (Z.eqb_spec (Z.min (good_samples d + 1) 3) 2); simpl; [lia|].
    destruct (Z.eqb_spec (Z.min (good_samples d + 1) 3) 3); simpl; [lia|].
    right. split_and!; [done|lia|lia].
  - repeat case_match; simplify_eq/=; left; lia.
Qed.

(** What a reply leaves of the level to return to. *)
Lemma on_reply_level u r mn nm bf u' rb first L :
  in_range u → on_reply u r mn nm bf = Some (u', rb, first) →
  fps_before_congestion (delay u) = Some L → 0 <= good_samples (delay u) → excess u' r < 150 →
  Z.min L (fps_cap u) <= current_fps u'
  ∨ fps_before_congestion (delay u') = Some L ∧ good_samples (delay u') = 1
    ∧ good_samples (delay u) = 0.
Proof.
  intros Hu Hrun HL Hg He.
  destruct (on_reply_view u r mn nm bf)
    as (v & rb' & first' & d & f & x & acc & Hrun' & _ & Hsame & Hbase & Hacc & _ & Hv).
  rewrite Hrun' in Hrun. injection Hrun as <- _ _. unfold excess in He. rewrite <- Hbase in He.
  destruct Hsame as (Sg & _ & _ & SL & _).
  pose proof (limit_good_level d (current_fps u) f (Z.max r 10) bf
    (bool_decide (is_Some (stall_reference_fps (delay u)))) L He ltac:(congruence) ltac:(lia)) as Hlim.
  rewrite Hv. destruct (limit_fps_change _ _ _ _ _ _) as [d' f']. simpl in *.
  destruct Hlim as [Hlim|(H1 & H2 & H3)]; [left|right].
  - pose proof (fps_cap_range u). unfold current_fps. simpl. unfold clamp. lia.
  - split_and!; [done..|lia].
Qed.

(** Two good replies in a row give the level back. *)
Lemma two_good_replies u u1 u2 r1 r2 p1 p2 a1 a2 b1 b2 L :
  in_range u → fps_before_congestion (delay u) = Some L → 0 <= good_samples (delay u) →
  on_reply u r1 p1.1.1 p1.1.2 p1.2 = Some (u1, a1, b1) → excess u1 r1 < 150 →
  on_reply u1 r2 p2.1.1 p2.1.2 p2.2 = Some (u2, a2, b2) → excess u2 r2 < 150 →
  Z.min L (fps_cap u) <= current_fps u2.
Proof.
  intros Hu HL Hg H1 E1 H2 E2.
  destruct (on_reply_rate u r1 p1.1.1 p1.1.2 p1.2 Hu) as (v & ? & ? & Hv & Hcap & Hu1 & _).
  rewrite H1 in Hv. injection Hv as <- _ _.
  destruct (on_reply_rate u1 r2 p2.1.1 p2.1.2 p2.2 Hu1) as (w & ? & ? & Hw & _ & _ & Hgood & _).
  rewrite H2 in Hw. injection Hw as <- _ _. destruct (Hgood E2) as [Hup _].
  destruct (on_reply_level _ _ _ _ _ _ _ _ L Hu H1 HL Hg E1) as [?|(HL1 & Hg1 & _)]; [lia|].
  destruct (on_reply_level _ _ _ _ _ _ _ _ L Hu1 H2 HL1 ltac:(lia) E2) as [Hl|(_ & _ & Hg2)].
  - by rewrite Hcap in Hl.
  - lia.
Qed.

Lemma limit_bad_level d c f r bf br :
  150 <= sat_sub r (base d) → samples_since_restore d = None → 0 <= good_samples d →
  let '(d', f') := limit_fps_change d c f r bf br in
  0 <= good_samples d'
  ∧ (fps_before_congestion d' = fps_before_congestion d
     ∨ fps_before_congestion d = None ∧ fps_before_congestion d' = Some c)
  ∧ (f' < c → is_Some (fps_before_congestion d')).
Proof.
  intros He Hs Hg. unfold limit_fps_change, base, within_guard. cbv zeta. simpl. fold (base d).
  rewrite Hs. simpl. rewrite (proj2 (Z.ltb_ge _ _)) by done. rewrite andb_false_r. simpl.
  destruct ((c <=? f) || br); simpl; [split_and!; [lia|by left|lia]|].
  destruct (_ && _); simpl; [split_and!; [lia|by left|lia]|].
  unfold on_reduction. simpl. destruct (fps_before_congestion d) eqn:HL; simpl; rewrite ?HL.
  - split_and!; [lia|by left|done].
  - split_and!; [lia|by right|done].
Qed.

(** A reply that lowers the rate remembers the level, unless one is remembered. *)
Lemma on_reply_remembers u r mn nm bf u' rb first :
  in_range u → on_reply u r mn nm bf = Some (u', rb, first) →
  samples_since_restore (delay u) = None → 0 <= good_samples (delay u) → 150 <= excess u' r →
  0 <= good_samples (delay u')
  ∧ (fps_before_congestion (delay u') = fps_before_congestion (delay u)
     ∨ fps_before_congestion (delay u) = None
       ∧ fps_before_congestion (delay u') = Some (current_fps u))
  ∧ (current_fps u' < current_fps u → is_Some (fps_before_congestion (delay u'))).
Proof.
  intros [Hlo Hhi] Hrun Hs Hg He.
  destruct (on_reply_view u r mn nm bf)
    as (v & rb' & first' & d & f & x & acc & Hrun' & _ & Hsame & Hbase & _ & Hacc & Hv).
  rewrite Hrun' in Hrun. injection Hrun as <- _ _. specialize (Hacc ltac:(lia)). subst acc.
  unfold excess in He. rewrite <- Hbase in He. destruct Hsame as (Sg & _ & _ & SL & Ss & _).
  pose proof (limit_bad_level d (current_fps u) f (Z.max r 10) bf
    (bool_decide (is_Some (stall_reference_fps (delay u)))) He ltac:(congruence) ltac:(lia)) as Hlim.
  rewrite Hv. rewrite SL in Hlim. destruct (limit_fps_change _ _ _ _ _ _) as [d' f']. simpl in *.
  destruct Hlim as (H1 & H2 & H3). split_and!; [done..|].
  unfold current_fps at 1. simpl. intros Hlt. apply H3. unfold clamp in Hlt. lia.
Qed.
End recovery.

Section stalls.
Import UserData UserDelay.

(** [u'] is the viewer after the reply [r]; [p] holds the frame-rate bounds and
    bitrate state of that moment. *)
Definition replied (u : UserData.t) (r : Z) (p : Z * Z * bool) (u' : UserData.t) : Prop :=
  ∃ reduce first, on_reply u r p.1.1 p.1.2 p.2 = Some (u', reduce, first).
Definition replied_good (u : UserData.t) (r : Z) (p : Z * Z * bool) (u' : UserData.t) : Prop :=
  replied u r p u' ∧ excess u' r < 150.

(** Timeouts of one outstanding probe. *)
Fixpoint timeouts (u : UserData.t) (es : list Z) : option UserData.t :=
  match es with
  | [] => Some u
  | e :: es' => u ← on_elapsed u e; timeouts u es'
  end.

(** The rate a timeout after [e] milliseconds brakes a stall from [level] to. *)
Definition brake (cap level e : Z) : Z :=
  clamp (level / 2 ^ Z.min (sat_sub (wrap32 (e / 1000)) 1) 5) (Z.min MIN_AUTO_FPS cap) cap.

(** A stall that began at the rate [level]. *)
Record stalled (level : Z) (u : UserData.t) : Prop := {
  stalled_ref : stall_reference_fps (delay u) = Some level;
  stalled_level : fps_before_congestion (delay u) = Some level;
  stalled_good : good_samples (delay u) = 0;
  stalled_restore : samples_since_restore (delay u) = None;
  stalled_fps : is_Some (UserDelay.fps (delay u))
}.

Lemma shiftl_1 n : 0 <= n → Z.shiftl 1 n = 2 ^ n.
Proof. intros. by rewrite Z.shiftl_mul_pow2, Z.mul_1_l. Qed.

(** The first timeout of a stall, and the later ones. *)
Lemma on_elapsed_first u e :
  2000 < e → in_range u → stall_reference_fps (delay u) = None →
  fps_before_congestion (delay u) = None → samples_since_restore (delay u) = None →
  ∃ u', on_elapsed u e = Some u' ∧ stalled (current_fps u) u' ∧ fps_cap u' = fps_cap u
    ∧ current_fps u' = Z.min (brake (fps_cap u) (current_fps u) e) (current_fps u).
Proof.
  intros He [Hlo Hhi] Href HL Hs. unfold on_elapsed. rewrite (proj2 (Z.leb_gt _ _)) by done.
  cbv zeta. simpl. pose proof (fps_cap_range u). fold (current_fps u). rewrite Href.
  rewrite clamp_checked_some by (unfold MIN_AUTO_FPS; lia). rewrite shiftl_1 by (unfold sat_sub; lia).
  unfold on_reduction. simpl. rewrite HL. eexists. split; [reflexivity|]. split; [by split|].
  split; [done|]. unfold current_fps at 1. simpl. by destruct (UserDelay.fps (delay u)) eqn:Hf;
    unfold current_fps; rewrite Hf.
Qed.

Lemma on_elapsed_next u e level :
  2000 < e → stalled level u →
  ∃ u', on_elapsed u e = Some u' ∧ stalled level u' ∧ fps_cap u' = fps_cap u
    ∧ current_fps u' = Z.min (brake (fps_cap u) level e) (current_fps u).
Proof.
  intros He [Href HL Hg Hs [f Hf]]. unfold on_elapsed. rewrite (proj2 (Z.leb_gt _ _)) by done.
  cbv zeta. simpl. pose proof (fps_cap_range u). rewrite Href.
  rewrite clamp_checked_some by (unfold MIN_AUTO_FPS; lia). rewrite shiftl_1 by (unfold sat_sub; lia).
  simpl. rewrite Hf. eexists. split; [reflexivity|]. split; [by split|].
  split; [done|]. unfold current_fps. simpl. by rewrite Hf.
Qed.

Lemma timeouts_stalled es : ∀ u level, Forall (Z.lt 2000) es → stalled level u →
  ∃ u', timeouts u es = Some u' ∧ stalled level u' ∧ fps_cap u' = fps_cap u
    ∧ current_fps u' = foldl (λ f e, Z.min (brake (fps_cap u) level e) f) (current_fps u) es.
Proof.
  induction es as [|e es IH]; intros u level Hes Hst; simpl.
  { exists u. by split_and!. }
  apply Forall_cons in Hes as [He Hes].
  destruct (on_elapsed_next u e level He Hst) as (u1 & Hrun & Hst1 & Hcap & Hcur).
  rewrite Hrun. simpl. destruct (IH u1 level Hes Hst1) as (u2 & H2 & ? & ? & Hcur2).
  exists u2. rewrite <- Hcur, <- Hcap. by split_and!; [..|congruence|rewrite Hcap in *].
Qed.

Lemma brakes_range es : ∀ cap level f, 1 <= cap → 1 <= f →
  Z.min (Z.min MIN_AUTO_FPS cap) f <= foldl (λ f e, Z.min (brake cap level e) f) f es <= f.
Proof.
  induction es as [|e es IH]; intros cap level f Hcap Hf; simpl; [lia|].
  assert (Z.min MIN_AUTO_FPS cap <= brake cap level e <= cap) as Hb
    by (apply clamp_between; unfold MIN_AUTO_FPS; lia).
  unfold MIN_AUTO_FPS in *.
  specialize (IH cap level (Z.min (brake cap level e) f) Hcap ltac:(lia)). lia.
Qed.

(** The late reply of a stall never lowers the rate, and keeps the level. *)
Lemma late_reply u r p u' level :
  in_range u → stalled level u → replied u r p u' →
  in_range u' ∧ fps_cap u' = fps_cap u ∧ current_fps u <= current_fps u'
  ∧ (Z.min level (fps_cap u) <= current_fps u'
     ∨ fps_before_congestion (delay u') = Some level ∧ 0 <= good_samples (delay u')).
Proof.
  intros Hu [Href HL Hg Hs _] (rb & first & Hrun).
  destruct (on_reply_rate u r p.1.1 p.1.2 p.2 Hu) as (v & ? & ? & Hv & Hcap & Hv' & Hgood & Hkeep & _ & Hlow).
  rewrite Hrun in Hv. injection Hv as <- _ _. split_and!; [done..| |].
  - destruct (Z.lt_ge_cases (excess u' r) 150) as [E|E]; [by destruct (Hgood E)|].
    destruct (Z.lt_ge_cases (current_fps u') (current_fps u)) as [Hlt|]; [|done].
    destruct (Hlow E Hlt) as [? _]. congruence.
  - destruct (Z.lt_ge_cases (excess u' r) 150) as [E|E].
    + destruct (on_reply_level _ _ _ _ _ _ _ _ level Hu Hrun HL ltac:(lia) E) as [?|(? & ? & _)];
        [by left|right; split; [done|lia]].
    + destruct (on_reply_remembers _ _ _ _ _ _ _ _ Hu Hrun Hs ltac:(lia) E) as (? & [Heq|[Hn _]] & _).
      * right. by rewrite Heq.
      * congruence.
Qed.

(** Good replies never lower the rate. *)
Lemma replied_good_up u r p u' : in_range u → replied_good u r p u' →
  in_range u' ∧ fps_cap u' = fps_cap u ∧ current_fps u <= current_fps u'.
Proof.
  intros Hu [(rb & first & Hrun) E].
  destruct (on_reply_rate u r p.1.1 p.1.2 p.2 Hu) as (v & ? & ? & Hv & Hcap & Hv' & Hgood & _).
  rewrite Hrun in Hv. injection Hv as <- _ _. by destruct (Hgood E).
Qed.

Lemma replied_good_back u r1 r2 p1 p2 u1 u2 level :
  in_range u → fps_before_congestion (delay u) = Some level → 0 <= good_samples (delay u) →
  replied_good u r1 p1 u1 → replied_good u1 r2 p2 u2 → Z.min level (fps_cap u) <= current_fps u2.
Proof.
  intros Hu HL Hg [(a1 & b1 & H1) E1] [(a2 & b2 & H2) E2].
  by eapply (two_good_replies u u1 u2 r1 r2 p1 p2).
Qed.
End stalls.

(** ** The delay baseline *)
Section baseline.
Import Rtt.

Definition replies_of (ds : list Z) : Rtt.t := foldl update Rtt.default ds.

(** The window holds at most 20 replies, and the baseline is below them all. *)
Record window_ok (r : Rtt.t) : Prop := {
  window_len : (length (samples r) <= WINDOW_SAMPLES)%nat;
  window_base : match baseline r with
                | Some b => ∀ x, x ∈ samples r → b <= x
                | None => samples r = []
                end
}.

Lemma push_window_len n l x : (0 < n)%nat → (length l <= n)%nat → (length (push_window n l x) <= n)%nat.
Proof.
  intros Hn Hl. unfold push_window. rewrite length_app. simpl.
  destruct (Nat.leb_spec n (length l)); [destruct l; simpl in *; lia|lia].
Qed.

(** The baseline before it is raised. *)
Definition lowered (r : Rtt.t) (d : Z) : Z := Z.min (stdpp.option.default d (baseline r)) d.

Lemma lowered_window r d x : window_ok r → x ∈ push_window WINDOW_SAMPLES (samples r) d → lowered r d <= x.
Proof.
  intros [_ Hb] [->|Hx]%last_in_window; unfold lowered; [lia|].
  destruct (baseline r) as [b|]; simpl; [specialize (Hb x Hx); lia|].
  rewrite Hb in Hx. by apply not_elem_of_nil in Hx.
Qed.

Lemma update_spec r d :
  window_ok r →
  ∃ b, baseline (update r d) = Some b ∧ samples (update r d) = push_window WINDOW_SAMPLES (samples r) d
    ∧ lowered r d <= b <= lowered r d + 50 ∧ ∀ x, x ∈ samples (update r d) → b <= x.
Proof.
  intros Hok. pose proof (lowered_window r d) as Hlow. unfold update. fold (lowered r d).
  set (w := push_window _ _ _) in *. cbv zeta.
  assert (∃ b, baseline (mk (Some (lowered r d)) w) = Some b ∧ w = w
    ∧ lowered r d <= b <= lowered r d + 50 ∧ ∀ x, x ∈ w → b <= x) as Hsame.
  { exists (lowered r d). split_and!; [done..|lia|lia|eauto]. }
  destruct (_ <? _)%nat; [done|].
  destruct (list_min (take half w)) as [o|] eqn:Ho; [|done].
  destruct (list_min (drop half w)) as [c|] eqn:Hc; [|done].
  destruct (_ <? c); [done|]. destruct (Z.ltb_spec 0 (sat_sub (Z.min o c) (lowered r d))) as [Hr|]; [|done].
  apply list_min_spec in Ho as [_ Ho], Hc as [_ Hc].
  assert (lowered r d < Z.min o c) as Hlt by (unfold sat_sub in Hr; lia).
  unfold sat_sub, clamp, MAX_INCREASE_MS in *. simpl. eexists. split_and!; [done..|lia|lia|].
  intros x Hx. rewrite <- (take_drop half w) in Hx.
  assert (Z.min o c <= x) by (apply elem_of_app in Hx as [Hx|Hx]; [specialize (Ho x Hx)|specialize (Hc x Hx)]; lia).
  lia.
Qed.

Lemma update_window r d : window_ok r → window_ok (update r d).
Proof.
  intros Hok. destruct (update_spec r d Hok) as (b & Hb & Hs & _ & Hle). split.
  - rewrite Hs. apply push_window_len; [unfold WINDOW_SAMPLES; lia|apply Hok].
  - by rewrite Hb.
Qed.

Lemma updates_window ds : ∀ r, window_ok r → window_ok (foldl update r ds).
Proof. induction ds; intros r Hr; simpl; auto using update_window. Qed.

Lemma default_window : window_ok Rtt.default.
Proof. by split; simpl; [lia|]. Qed.

(** The baseline never drops below every reply seen. *)
Lemma updates_lower ds : ∀ r m, window_ok r →
  (∀ b, baseline r = Some b → m <= b) → Forall (Z.le m) ds →
  ∀ b, baseline (foldl update r ds) = Some b → m <= b.
Proof.
  induction ds as [|d ds IH]; intros r m Hok Hm Hds; simpl; [done|].
  apply Forall_cons in Hds as [Hd Hds]. apply IH; [by apply update_window| |done].
  intros b Hb. destruct (update_spec r d Hok) as (b' & Hb' & _ & [Hlo _] & _).
  rewrite Hb' in Hb. injection Hb as ->. unfold lowered in Hlo.
  destruct (baseline r) as [a|]; simpl in Hlo; [specialize (Hm a eq_refl)|]; lia.
Qed.

(** A window of equal replies: the baseline climbs to them. *)
Lemma list_min_replicate n d : (0 < n)%nat → list_min (replicate n d) = Some d.
Proof.
  intros Hn. apply list_min_spec. split.
  - apply elem_of_replicate. split; [done|lia].
  - intros x [-> _]%elem_of_replicate. lia.
Qed.

Lemma update_steady b d :
  0 <= d < 2 ^ 32 → b <= d →
  ∃ b', update (mk (Some b) (replicate WINDOW_SAMPLES d)) d = mk (Some b') (replicate WINDOW_SAMPLES d)
    ∧ b <= b' <= d ∧ (b < d → b < b').
Proof.
  intros Hd Hb.
  assert (push_window WINDOW_SAMPLES (replicate WINDOW_SAMPLES d) d = replicate WINDOW_SAMPLES d) as Hw
    by reflexivity.
  unfold update. cbn [samples baseline stdpp.option.default from_option id]. rewrite Hw. cbv zeta.
  change (id b) with b.
  rewrite (proj2 (Nat.ltb_ge _ _)) by (rewrite length_replicate; done).
  rewrite take_replicate, drop_replicate, !list_min_replicate by (unfold WINDOW_SAMPLES, half; lia).
  destruct (Z.ltb_spec (sat_add32 d 10) d) as [Hs|_]; [unfold sat_add32 in Hs; lia|].
  rewrite Z.min_id, (Z.min_l b d) by lia. unfold sat_sub. destruct (Z.ltb_spec 0 (Z.max 0 (d - b))).
  - eexists. split; [done|]. unfold clamp, MAX_INCREASE_MS. lia.
  - exists b. split; [done|lia].
Qed.

Lemma steady_climbs n : ∀ b d,
  0 <= d < 2 ^ 32 → b <= d → d - b <= Z.of_nat n →
  foldl update (mk (Some b) (replicate WINDOW_SAMPLES d)) (replicate n d)
    = mk (Some d) (replicate WINDOW_SAMPLES d).
Proof.
  induction n as [|n IH]; intros b d Hd Hb Hn; simpl.
  - repeat f_equal. lia.
  - destruct (update_steady b d Hd Hb) as (b' & Hu & Hle & Hlt).
    change (mk (Some b) (d :: _)) with (mk (Some b) (replicate WINDOW_SAMPLES d)).
    rewrite Hu. apply IH; [done|lia|]. destruct (decide (b = d)); lia.
Qed.

(** Pushing [n] equal replies leaves the last of them in the window. *)
Lemma window_fills n : ∀ r d, window_ok r → (n <= WINDOW_SAMPLES)%nat →
  ∃ l, samples (foldl update r (replicate n d)) = l ++ replicate n d
    ∧ (n = WINDOW_SAMPLES → l = []).
Proof.
  intros r d Hok Hn.
  assert (∃ l, samples (foldl update r (replicate n d)) = l ++ replicate n d) as [l Hl].
  { induction n as [|n IH]; [exists (samples r); by rewrite app_nil_r|].
    destruct IH as [l Hl]; [lia|].
    rewrite replicate_S_end, foldl_app. simpl.
    pose proof (updates_window (replicate n d) r Hok) as Hok'.
    destruct (update_spec _ d Hok') as (_ & _ & -> & _). rewrite Hl. unfold push_window.
    case_match eqn:Hfull; [|exists l; by rewrite app_assoc].
    destruct l as [|x l]; [|exists l; simpl; by rewrite app_assoc].
    apply Nat.leb_le in Hfull. simpl in Hfull. rewrite length_replicate in Hfull. lia. }
  exists l. split; [done|]. intros ->.
  pose proof (window_len _ (updates_window (replicate WINDOW_SAMPLES d) r Hok)) as Hlen.
  rewrite Hl, length_app, length_replicate in Hlen. destruct l; [done|simpl in Hlen; lia].
Qed.

Lemma baseline_forgets r d n :
  window_ok r → 0 <= d < 2 ^ 32 → (∀ b, baseline r = Some b → 0 <= b) →
  d + 20 <= Z.of_nat n → baseline (foldl update r (replicate n d)) = Some d.
Proof.
  intros Hok Hd Hb Hn.
  replace n with (WINDOW_SAMPLES + (n - WINDOW_SAMPLES))%nat by (unfold WINDOW_SAMPLES; lia).
  rewrite replicate_add, foldl_app.
  destruct (window_fills WINDOW_SAMPLES r d Hok) as (l & Hl & Hnil); [done..|].
  rewrite (Hnil eq_refl) in Hl. change (_ ++ _) with (replicate WINDOW_SAMPLES d) in Hl.
  pose proof (updates_window (replicate WINDOW_SAMPLES d) r Hok) as Hok'.
  pose proof (λ H, updates_lower (replicate WINDOW_SAMPLES d) r 0 Hok Hb H) as Hlo.
  set (r1 := foldl update r (replicate WINDOW_SAMPLES d)) in *.
  destruct Hok' as [_ Hbase]. destruct r1 as [[b|] s]; simpl in *; subst s; [|done].
  specialize (Hbase d ltac:(by left)).
  assert (0 <= b) by (apply Hlo; [repeat constructor; lia|done]).
  pose proof (steady_climbs (n - WINDOW_SAMPLES) b d Hd Hbase) as Hs.
  change (d :: _) with (replicate WINDOW_SAMPLES d).
  rewrite Hs; [done|]. unfold WINDOW_SAMPLES. lia.
Qed.
End baseline.

(** ** The ratio *)
Section ratio.
Import VideoQoS.

Definition quality_ok (q : Quality) : Prop :=
  match q with
  | Custom v => ∃ bits, 0 <= bits < 4096 ∧ custom_ratio bits = Some v
  | _ => True
  end.
Definition ratio_ok (r : f32) : Prop := fleb BR_MIN_HIGH_RESOLUTION r = true ∧ fleb r BR_MAX = true.

(** Every custom quality there is, checked one by one. *)
Lemma custom_ratios_checked :
  forallb (λ bits, match custom_ratio bits with
    | Some v => fleb BR_MIN_HIGH_RESOLUTION v && fleb v BR_MAX
                && fleb BR_MIN_HIGH_RESOLUTION (fmul v MAX_BR_MULTIPLE)
                && fleb (fmul v MAX_BR_MULTIPLE) BR_MAX
    | None => false
    end) (seqZ 0 4096) = true.
Proof. vm_compute. reflexivity. Qed.

Lemma custom_ratio_checked bits : 0 <= bits < 4096 →
  ∃ v, custom_ratio bits = Some v ∧ ratio_ok v ∧ ratio_ok (fmul v MAX_BR_MULTIPLE).
Proof.
  intros Hb. pose proof (proj1 (forallb_forall _ _) custom_ratios_checked bits) as H.
  specialize (H ltac:(apply list_elem_of_In, elem_of_seqZ; lia)). cbv beta in H.
  destruct (custom_ratio bits) as [v|]; [|discriminate H].
  exists v. split; [done|]. unfold ratio_ok. rewrite !andb_true_iff in H. tauto.
Qed.

Lemma quality_ratio_ok q : quality_ok q →
  ratio_ok (quality_ratio q) ∧ ratio_ok (fmul (quality_ratio q) MAX_BR_MULTIPLE).
Proof.
  destruct q as [| | |v];
    [intros _; split; split; vm_compute; reflexivity..|].
  intros (bits & Hb & Hv). destruct (custom_ratio_checked bits Hb) as (w & Hw & ?). by simplify_eq.
Qed.

Lemma convert_quality_ok v : ∃ q, convert_quality v = Some q ∧ quality_ok q.
Proof.
  unfold convert_quality. do 3 (case_match; [by eexists|]).
  assert (0 <= Z.land (Z.shiftr v 8) 4095 < 4096) as Hb.
  { change 4095 with (Z.ones 12). rewrite Z.land_ones by lia. apply Z.mod_pos_bound. lia. }
  destruct (custom_ratio_checked _ Hb) as (w & Hw & _). rewrite Hw. eexists. split; [done|]. by eexists.
Qed.

Lemma ratio_ok_number r : ratio_ok r → fnum r.
Proof. intros [H1 H2]. by eapply (between_number BR_MIN_HIGH_RESOLUTION r BR_MAX). Qed.

Lemma reduction_number d f : UserDelay.ratio_reduction d = Some f → fnum f.
Proof.
  unfold UserDelay.ratio_reduction. case_match; [done|]. intros [= <-]. repeat case_match; done.
Qed.

Lemma reduce_min_number l f : Forall fnum l → reduce_min l = Some f → fnum f.
Proof.
  destruct l as [|x l]; [done|]. intros [Hx Hl]%Forall_cons [= <-].
  revert x Hx. induction Hl as [|y l Hy Hl IH]; intros x Hx; simpl; [done|].
  apply IH. unfold fmin. by repeat case_match.
Qed.

Lemma wanted_ratio_number q red max_delay dyn :
  ratio_ok (ratio q) → match red with Some f => fnum f | None => True end →
  is_nan (wanted_ratio q red max_delay dyn) = false.
Proof.
  intros Hr%ratio_ok_number Hred. unfold wanted_ratio. cbv zeta.
  set (v := match red with Some _ => _ | None => _ end).
  assert (is_nan v = false) as Hv.
  { subst v. destruct red as [f|]; [by apply fmul_number|]. destruct dyn.
    - apply fmul_number; [done|]. by repeat case_match.
    - by destruct (ratio q). }
  clearbody v. destruct (0 <? bitrate q); [|done].
  destruct (fgtb v _ && _ && _) eqn:Hc; [|done].
  apply andb_true_iff in Hc as [[Hc _]%andb_true_iff _]. unfold fgtb in Hc.
  apply fltb_fleb, fleb_not_nan in Hc. tauto.
Qed.
End ratio.

(** ** The controller's invariant *)
Section controller.
Import VideoQoS.
Context (linux : bool) (iter : gmap Z UserData.t → list UserData.t).
Context (Hiter : ∀ m, iter m ≡ₚ (map_to_list m).*2).

Definition target (u : UserData.t) : Z := stdpp.option.default INIT_FPS (UserDelay.fps (UserData.delay u)).

Record viewer_ok (u : UserData.t) : Prop := {
  viewer_quality : ∀ time q, UserData.quality u = Some (time, q) → quality_ok q;
  viewer_fps : ∀ f, UserDelay.fps (UserData.delay u) = Some f → 1 <= f <= MAX_FPS;
  viewer_stall : is_Some (UserDelay.stall_reference_fps (UserData.delay u)) →
                 is_Some (UserDelay.fps (UserData.delay u))
}.
Record qos_ok (q : t) : Prop := {
  ok_fps : MIN_FPS <= fps q <= MAX_FPS;
  ok_ratio : ratio_ok (ratio q);
  ok_users : map_Forall (λ _, viewer_ok) (users q)
}.

Lemma iter_elem m u : u ∈ iter m ↔ ∃ id, m !! id = Some u.
Proof.
  rewrite (Hiter m), list_elem_of_fmap. split.
  - intros ([id v] & -> & Hin%elem_of_map_to_list). eauto.
  - intros [id Hid]. exists (id, u). by rewrite elem_of_map_to_list.
Qed.

Lemma target_range u : viewer_ok u → 1 <= target u <= MAX_FPS.
Proof.
  intros [_ Hf _]. unfold target. destruct (UserDelay.fps _) as [f|]; simpl; [by apply Hf|].
  unfold INIT_FPS, MAX_FPS. lia.
Qed.

Lemma later_from l : ∀ best b,
  foldl later best l = Some b → Some b = best ∨ b ∈ l.
Proof.
  induction l as [|x l IH]; intros best b; simpl; [by left|].
  intros [Hb|Hb]%IH; [|right; by right]. unfold later in Hb. destruct best as [y|].
  - case_match; simplify_eq; [by left|right; by left].
  - simplify_eq. right. by left.
Qed.

Lemma latest_quality_ok q : map_Forall (λ _, viewer_ok) (users q) → quality_ok (latest_quality iter q).
Proof.
  intros Hok. unfold latest_quality. destruct (foldl later None _) as [[time qu]|] eqn:Hl; [|done].
  apply later_from in Hl as [?|Hin]; [done|].
  apply list_elem_of_omap in Hin as (u & [id Hid]%iter_elem & Hu).
  by eapply (viewer_quality _ (Hok _ _ Hid)).
Qed.

Lemma min_ratio_ok q :
  map_Forall (λ _, viewer_ok) (users q) →
  fleb BR_MIN_HIGH_RESOLUTION (min_ratio iter q) = true
  ∧ fleb (min_ratio iter q) (fmul (quality_ratio (latest_quality iter q)) MAX_BR_MULTIPLE) = true.
Proof.
  intros Hok. pose proof (latest_quality_ok q Hok) as Hq. unfold min_ratio. cbv zeta.
  set (r := if 0 <? bitrate q then _ else _).
  assert (∀ m, is_nan m = false →
    fleb match r with Some r => if fgtb m r then r else m | None => m end m = true) as Hlow.
  { intros m Hm. clearbody r. destruct r as [r|]; [|by apply fleb_refl].
    destruct (fgtb m r) eqn:Hg; [by apply fltb_fleb|by apply fleb_refl]. }
  clearbody r. destruct (latest_quality iter q) as [| | |v] eqn:Hlq.
  - split.
    + eapply fleb_trans; [|by apply fmax_lower]. done.
    + apply fmax_upper; [|done]. eapply fleb_trans; [by apply Hlow|done].
  - split; [by apply fmax_lower|].
    apply fmax_upper; [|done]. eapply fleb_trans; [by apply Hlow|done].
  - done.
  - split; [done|]. apply (quality_ratio_ok (Custom v) Hq).
Qed.

Lemma note_reduction_frame u b :
  UserData.quality (note_reduction u b) = UserData.quality u
  ∧ UserDelay.fps (UserData.delay (note_reduction u b)) = UserDelay.fps (UserData.delay u)
  ∧ UserDelay.stall_reference_fps (UserData.delay (note_reduction u b))
    = UserDelay.stall_reference_fps (UserData.delay u)
  ∧ UserData.fps_cap (note_reduction u b) = UserData.fps_cap u
  ∧ UserData.joined_at (note_reduction u b) = UserData.joined_at u.
Proof. unfold note_reduction. by case_match. Qed.

Lemma note_reduction_ok u b : viewer_ok u → viewer_ok (note_reduction u b).
Proof.
  intros [H1 H2 H3]. destruct (note_reduction_frame u b) as (E1 & E2 & E3 & _).
  split; rewrite ?E1, ?E2, ?E3; done.
Qed.

(** [adjust_ratio] never panics, keeps the invariant, and touches viewers only
    to note that they wait for a bitrate reduction. *)
Lemma adjust_ratio_ok q now dyn :
  qos_ok q →
  ∃ q', adjust_ratio iter q now dyn = Some q' ∧ qos_ok q' ∧ fps q' = fps q
    ∧ (users q' = users q ∨ ∃ b, users q' = (λ u, note_reduction u b) <$> users q).
Proof.
  intros Hok. destruct Hok as [Hf Hr Hu]. unfold adjust_ratio.
  destruct (negb (in_vbr_state q)); [exists q; split_and!; auto; by split|].
  destruct (_ <$> iter (users q)) as [|d ds]; [exists q; split_and!; auto; by split|].
  set (red := reduce_min _).
  assert (match red with Some f => fnum f | None => True end) as Hred.
  { destruct red as [f|] eqn:E; [|done]. eapply reduce_min_number; [|exact E].
    apply Forall_forall. intros x (u & _ & Hx)%list_elem_of_omap. by eapply reduction_number. }
  destruct (negb _ && _); [eexists; split; [done|]; split_and!; auto; by split|].
  destruct (min_ratio_ok q Hu) as [Hmin Hle]. cbv zeta.
  destruct (fclamp_total (wanted_ratio q red (foldr Z.max d ds) dyn) _ _ Hle) as (y & -> & Hy1 & Hy2);
    [by apply wanted_ratio_number|]. simpl.
  eexists. split; [reflexivity|].
  assert (ratio_ok y) as Hy.
  { destruct (quality_ratio_ok _ (latest_quality_ok q Hu)) as [_ [_ Hmax]].
    split; eapply fleb_trans; eauto. }
  destruct red as [f|]; simpl.
  - split_and!; [|done|right; eauto]. split; [done|done|]. simpl.
    intros id u Hid. apply lookup_fmap_Some in Hid as (v & <- & Hv).
    apply note_reduction_ok. by eapply Hu.
  - split_and!; auto. by split.
Qed.
End controller.

(** ** Every operation keeps the invariant *)
Section steps.
Import VideoQoS.
Context (linux : bool) (iter : gmap Z UserData.t → list UserData.t).
Context (Hiter : ∀ m, iter m ≡ₚ (map_to_list m).*2).

Lemma on_reply_ok u r mn nm bf :
  viewer_ok u → ∃ u' rb first, UserData.on_reply u r mn nm bf = Some (u', rb, first) ∧ viewer_ok u'.
Proof.
  intros [H1 H2 H3].
  destruct (on_reply_view u r mn nm bf)
    as (u' & rb & first & d & f & x & acc & Hrun & _ & _ & _ & _ & _ & Hu').
  exists u', rb, first. split; [done|]. pose proof (fps_cap_range u).
  rewrite Hu'. split; simpl; [done| |eauto].
  intros g [= <-]. pose proof (clamp_between acc 1 (UserData.fps_cap u)). unfold MAX_FPS. lia.
Qed.

Lemma on_elapsed_ok u e :
  viewer_ok u → ∃ u', UserData.on_elapsed u e = Some u' ∧ viewer_ok u'.
Proof.
  intros [H1 H2 H3]. unfold UserData.on_elapsed.
  destruct (e <=? 2000); [by exists u|]. cbv zeta. pose proof (fps_cap_range u).
  set (d0 := UserDelay.add_delay _ _).
  set (p := match UserDelay.stall_reference_fps d0 with Some _ => _ | None => _ end).
  assert (UserDelay.fps p.1 = UserDelay.fps (UserData.delay u)
    ∧ 1 <= stdpp.option.default p.2 (UserDelay.fps (UserData.delay u)) <= 120) as [Hfps Hcur].
  { subst p d0. cbn [UserDelay.stall_reference_fps UserDelay.add_delay upd].
    destruct (UserDelay.stall_reference_fps (UserData.delay u)) as [ref|] eqn:Hs; simpl.
    - split; [done|]. destruct H3 as [f Hf]; [eauto|]. rewrite Hf. by apply H2.
    - split; [unfold UserDelay.on_reduction; by case_match|].
      destruct (UserDelay.fps (UserData.delay u)) as [f|]; simpl; [by apply H2|].
      unfold INIT_FPS. lia. }
  destruct p as [d ref]. simpl in Hfps, Hcur.
  rewrite clamp_checked_some by (unfold MIN_AUTO_FPS; lia). simpl. rewrite Hfps.
  eexists. split; [reflexivity|]. split; simpl; [done| |eauto].
  intros g [= <-]. match goal with |- context [clamp ?a ?b ?c] => pose proof (clamp_between a b c) end.
  unfold MIN_AUTO_FPS, MAX_FPS in *. lia.
Qed.

(** What the stream's rate is after it was adjusted: at most what every viewer
    asks for and its connection takes, and one of these. *)
Definition starting (now : Z) (u : UserData.t) : Prop :=
  match UserData.joined_at u with Some joined => secs_since now joined < 1 | None => False end.
Definition allows (now : Z) (u : UserData.t) (f : Z) : Prop :=
  f <= UserData.fps_cap u ∧ f <= target u ∧ (starting now u → f <= INIT_FPS).
Record stream_rate (now : Z) (q : t) : Prop := {
  stream_allowed : ∀ id u, users q !! id = Some u → allows now u (fps q);
  stream_greatest : users q = ∅ ∨
    ∃ id u, users q !! id = Some u ∧ ¬ allows now u (fps q + 1)
}.

Lemma list_min_at {A} (h : A → Z) us :
  us ≠ [] → ∃ u, u ∈ us ∧ list_min (h <$> us) = Some (h u) ∧ ∀ v, v ∈ us → h u <= h v.
Proof.
  intros Hne. destruct (list_min (h <$> us)) as [m|] eqn:Hm;
    [|apply list_min_none, fmap_nil_inv in Hm; done].
  apply list_min_spec in Hm as [(u & -> & Hu)%list_elem_of_fmap Hm].
  exists u. split_and!; [done..|]. intros v Hv. by apply Hm, list_elem_of_fmap_2.
Qed.

(** The rate of a non-empty list of viewers, before it is checked. *)
Lemma highest_fps_at q : users q ≠ ∅ →
  ∃ u, u ∈ iter (users q) ∧ highest_fps iter q = UserData.fps_cap u
    ∧ ∀ v, v ∈ iter (users q) → highest_fps iter q <= UserData.fps_cap v.
Proof.
  intros Hne. unfold highest_fps.
  destruct (list_min_at UserData.fps_cap (iter (users q))) as (u & Hu & -> & Hmin).
  { intros Hnil. apply Hne. apply map_to_list_empty_iff. specialize (Hiter (users q)).
    rewrite Hnil in Hiter. apply Permutation_nil in Hiter. by apply fmap_nil_inv in Hiter. }
  simpl. pose proof (fps_cap_range u). unfold clamp, MIN_FPS, MAX_FPS.
  exists u. split_and!; [done|lia|]. intros v Hv. specialize (Hmin v Hv). lia.
Qed.

Lemma starting_spec now u :
  (match UserData.joined_at u with Some joined => secs_since now joined <? 1 | None => false end) = true
  ↔ starting now u.
Proof. unfold starting. destruct (UserData.joined_at u); [apply Z.ltb_lt|done]. Qed.

Lemma adjust_fps_ok q now :
  qos_ok q → ∃ f, adjust_fps iter q now = Some (q <| fps := f |>)
    ∧ qos_ok (q <| fps := f |>) ∧ stream_rate now (q <| fps := f |>).
Proof.
  intros [Hf Hr Hu]. unfold adjust_fps. cbv zeta.
  set (hi := highest_fps iter q).
  assert (1 <= hi <= 120) as Hhi by (apply clamp_between; unfold MIN_FPS, MAX_FPS; lia).
  rewrite clamp_checked_some by (unfold MIN_FPS; lia). simpl.
  set (g := stdpp.option.default INIT_FPS _). set (st := existsb _ _). set (f := clamp _ MIN_FPS hi).
  assert (MIN_FPS <= f <= hi) as Hfr by (apply clamp_between; unfold MIN_FPS; lia).
  exists f. split; [done|]. split; [split; simpl; [unfold MAX_FPS in *; lia|done|done]|].
  destruct (decide (users q = ∅)) as [He|Hne].
  { split; simpl; [|by left]. intros id u. by rewrite He, lookup_empty. }
  destruct (highest_fps_at q Hne) as (uc & Huc & Hcap & Hcapmin). fold hi in Hcap, Hcapmin.
  destruct (list_min_at target (iter (users q))) as (ut & Hut & Htgt & Htmin).
  { intros Hnil. by rewrite Hnil in Huc; apply not_elem_of_nil in Huc. }
  assert (g = target ut) as Hg by (unfold g; unfold target in Htgt at 1; by rewrite Htgt). clearbody g.
  assert (∀ u, u ∈ iter (users q) → 1 <= target u) as Htpos.
  { intros u [id Hid]%(iter_elem iter Hiter). apply (target_range u (Hu _ _ Hid)). }
  pose proof (Htpos ut Hut). clearbody hi.
  assert (∀ u, u ∈ iter (users q) → starting now u → st = true) as Hst.
  { intros u Hin Hs. apply existsb_exists. exists u. by rewrite <- list_elem_of_In, starting_spec. }
  split; simpl.
  - intros id u Hid. assert (u ∈ iter (users q)) as Hin by (apply (iter_elem iter Hiter); eauto).
    specialize (Hcapmin u Hin). specialize (Htmin u Hin). split_and!; [lia| |].
    + unfold f, clamp, MIN_FPS, INIT_FPS. destruct st; lia.
    + intros Hs%(Hst u Hin). unfold f, clamp, MIN_FPS, INIT_FPS. destruct st; [lia|done].
  - right. assert (f = hi ∨ f = g ∨ st = true ∧ f = INIT_FPS) as [E|[E|[Ht E]]].
    { unfold f, clamp, MIN_FPS, INIT_FPS. destruct st; lia. }
    + apply (iter_elem iter Hiter) in Huc as [id Hid]. exists id, uc. split; [done|].
      intros (Hc & _). lia.
    + apply (iter_elem iter Hiter) in Hut as [id Hid]. exists id, ut. split; [done|].
      intros (_ & Hc & _). lia.
    + apply existsb_exists in Ht as (u & Hin & Hs). apply starting_spec in Hs.
      apply list_elem_of_In, (iter_elem iter Hiter) in Hin as [id Hid]. exists id, u. split; [done|].
      intros (_ & _ & Hc). specialize (Hc Hs). lia.
Qed.

(** Noting a reduction changes nothing the stream's rate depends on. *)
Lemma stream_rate_noted now q q' :
  fps q' = fps q → (users q' = users q ∨ ∃ b, users q' = (λ u, note_reduction u b) <$> users q) →
  stream_rate now q → stream_rate now q'.
Proof.
  intros Hf [Hu|[b Hu]] [Ha Hg]; split; rewrite ?Hf, Hu; auto.
  - intros id u (v & <- & Hv)%lookup_fmap_Some. specialize (Ha _ _ Hv).
    destruct (note_reduction_frame v b) as (_ & E1 & _ & E2 & E3).
    unfold allows, target, starting in *. by rewrite E1, E2, E3.
  - destruct Hg as [Hg|(id & v & Hv & Hn)]; [left; by rewrite Hg, fmap_empty|right].
    exists id, (note_reduction v b). rewrite lookup_fmap, Hv. split; [done|].
    destruct (note_reduction_frame v b) as (_ & E1 & _ & E2 & E3).
    unfold allows, target, starting in *. by rewrite E1, E2, E3.
Qed.
(** *** One operation at a time *)
Lemma insert_ok q id u : qos_ok q → viewer_ok u → qos_ok (q <| users ::= <[id := u]> |>).
Proof. intros [Hf Hr Hu] Hv. split; simpl; [done..|]. by apply map_Forall_insert_2. Qed.

Lemma alter_ok q id (h : UserData.t → UserData.t) :
  qos_ok q → (∀ u, viewer_ok u → viewer_ok (h u)) → qos_ok (q <| users ::= alter h id |>).
Proof.
  intros [Hf Hr Hu] Hh. split; simpl; [done..|]. intros i u.
  destruct (decide (i = id)) as [->|Hne].
  - rewrite lookup_alter_eq. intros (v & Hv & ->)%fmap_Some. apply Hh. by eapply Hu.
  - rewrite lookup_alter_ne by done. apply Hu.
Qed.

Lemma user_network_delay_ok q now id delay :
  qos_ok q → ∃ q', user_network_delay iter q now id delay = Some q' ∧ qos_ok q' ∧ stream_rate now q'.
Proof.
  intros Hok. unfold user_network_delay. destruct (fps_bounds _) as [mn nm].
  set (bf := can_reduce_bitrate _ _).
  assert (∃ q1 rb first,
    match users q !! id with
    | Some u =>
        '(u, reduce_bitrate, first) ← UserData.on_reply u delay mn nm bf;
        Some (q <| users ::= <[id := u]> |>, reduce_bitrate, first)
    | None => Some (q, false, false)
    end = Some (q1, rb, first) ∧ qos_ok q1) as (q1 & rb & first & -> & H1).
  { destruct (users q !! id) as [u|] eqn:Hid; [|by eexists _, _, _].
    destruct (on_reply_ok u delay mn nm bf) as (u' & rb & first & -> & Hu');
      [by eapply (ok_users _ Hok)|].
    eexists _, _, _. split; [reflexivity|]. by apply insert_ok. }
  cbn [mbind option_bind]. destruct (adjust_fps_ok q1 now H1) as (f & -> & H2 & Hs2).
  cbn [mbind option_bind].
  set (q2 := q1 <| fps := f |>) in *. clearbody q2.
  assert (∀ q b, qos_ok q → stream_rate now q →
    ∃ q', (if b : bool then adjust_ratio iter q now false else Some q) = Some q'
      ∧ qos_ok q' ∧ stream_rate now q') as Hadj.
  { intros q3 [|] H3 Hs3; [|by exists q3].
    destruct (adjust_ratio_ok iter Hiter q3 now false H3) as (q4 & -> & H4 & Hf & Hu).
    exists q4. split_and!; [done..|]. by eapply stream_rate_noted. }
  match goal with |- context [if ?b then adjust_ratio _ q2 _ _ else _] =>
    destruct (Hadj q2 b H2 Hs2) as (q3 & -> & H3 & Hs3) end. cbn [mbind option_bind]. by apply Hadj.
Qed.

Lemma update_display_data_ok q now name c :
  qos_ok q → ∃ q', update_display_data iter q now name c = Some q' ∧ qos_ok q' ∧ stream_rate now q'.
Proof.
  intros Hok. unfold update_display_data. set (q1 := q <| displays ::= _ |>).
  assert (qos_ok q1) as H1 by (by destruct Hok; split). clearbody q1.
  destruct (adjust_fps_ok q1 now H1) as (f & -> & H2 & Hs2). cbn [mbind option_bind].
  set (q2 := q1 <| fps := f |>) in *. clearbody q2.
  destruct (in_vbr_state q2).
  - destruct (_ <=? _); [|by exists q2].
    edestruct (adjust_ratio_ok iter Hiter q2 now) as (q4 & -> & H4 & Hf & Hu); [done|].
    exists q4. split_and!; [done..|]. by eapply stream_rate_noted.
  - eexists. split; [done|]. split; [|by destruct Hs2; split]. destruct H2 as [? ? Hu]. split; simpl; [done| |done].
    by apply quality_ratio_ok, latest_quality_ok.
Qed.

(** The operations after which the stream follows its viewers. *)
Definition adjusts (q : t) (o : op) : Prop :=
  match o with
  | NetworkDelay _ _ | DisplayTick _ _ | Close _ => True
  | ResponseElapsed id e => 2000 < e ∧ is_Some (users q !! id)
  | _ => False
  end.

Lemma default_ok now : qos_ok (default linux now) ∧ stream_rate now (default linux now).
Proof.
  split; split; simpl.
  - unfold MIN_FPS, FPS, MAX_FPS. lia.
  - split; vm_compute; reflexivity.
  - apply map_Forall_empty.
  - intros id u. by rewrite lookup_empty.
  - by left.
Qed.

Lemma step_ok q now o :
  qos_ok q → ∃ q', step linux iter q now o = Some q' ∧ qos_ok q' ∧ (adjusts q o → stream_rate now q').
Proof.
  intros Hok. destruct o as [id abr|id|id f|id f|time id v|id v|id d|id e|n|n|n b|n c|b|]; simpl.
  - eexists. split_and!; [done| |done]. destruct (insert_ok q id
      (UserData.default <| UserData.joined_at := Some now |>) Hok) as [? ? ?]; [by split|by split].
  - unfold on_connection_close. case_bool_decide.
    + eexists. split; [done|]. split; [|intros _]; apply default_ok.
    + destruct (adjust_fps_ok (q <| users ::= delete id |>) now) as (f & -> & H2 & Hs2); [|eauto].
      destruct Hok as [? ? Hu]. split; simpl; [done..|]. by apply map_Forall_delete.
  - eexists. split_and!; [done| |done]. unfold user_custom_fps. case_match; [|done].
    apply alter_ok; [done|]. by intros u []; split.
  - eexists. split_and!; [done| |done]. unfold user_auto_adjust_fps. case_match; [|done].
    apply alter_ok; [done|]. by intros u []; split.
  - unfold user_image_quality. destruct (convert_quality_ok v) as (qu & -> & Hq). simpl.
    destruct (users q !! id) as [u|] eqn:Hid; [|by exists q].
    eexists. split_and!; [done| |done].
    set (u' := u <| UserData.quality := Some (time, qu) |>).
    assert (viewer_ok u') as Hu'.
    { pose proof (ok_users _ Hok _ _ Hid) as [? ? ?]. split; simpl; [|done..]. by intros t' q' [= <- <-]. }
    destruct (insert_ok q id u' Hok Hu') as [? ? Hu]. split; simpl; [done| |done].
    apply quality_ratio_ok, latest_quality_ok; done.
  - eexists. split_and!; [done| |done]. apply alter_ok; [done|]. by intros u []; split.
  - destruct (user_network_delay_ok q now id d Hok) as (q' & -> & ? & ?). eauto.
  - unfold user_delay_response_elapsed. destruct (users q !! id) as [u|] eqn:Hid.
    2: { exists q. split_and!; [done..|]. intros [_ [? ?]]. done. }
    destruct (Z.leb_spec e 2000); [exists q; split_and!; [done..|lia]|].
    destruct (on_elapsed_ok u e) as (u' & -> & Hu'); [by eapply (ok_users _ Hok)|].
    cbn [mbind option_bind].
    destruct (adjust_fps_ok (q <| users ::= <[id := u']> |>) now) as (f & -> & H2 & Hs2); [|eauto].
    by apply insert_ok.
  - eexists. split_and!; [done| |done]. by destruct Hok; split.
  - eexists. split_and!; [done| |done]. by destruct Hok; split.
  - eexists. split_and!; [done| |done]. by destruct Hok; split.
  - destruct (update_display_data_ok q now n c Hok) as (q' & -> & ? & ?). eauto.
  - eexists. split_and!; [done| |done]. by destruct Hok; split.
  - eexists. split_and!; [done| |done]. unfold get_ratio. simpl.
    destruct (_ || _); [|done]. destruct Hok; split; [done| |done]. split; vm_compute; reflexivity.
Qed.
End steps.

(** ** The properties *)
Section properties.
Import VideoQoS.

(** C35: Whatever viewers do, the rate controller never panics (every [clamp] has
    its bounds in order), its frame rate stays within 1 and 120 and its bitrate
    ratio is a number between 0.1 and 40, so neither getter ever falls back to
    its default. *)
Theorem qos_total (linux : bool) (iter : gmap Z UserData.t → list UserData.t) (start : Z)
    (ops : list (Z * op)) :
  (∀ m, iter m ≡ₚ (map_to_list m).*2) →
  ∃ q, run linux iter (default linux start) ops = Some q
    ∧ MIN_FPS <= get_fps q <= MAX_FPS ∧ get_fps q = fps q
    ∧ fleb BR_MIN_HIGH_RESOLUTION (ratio q) = true ∧ fleb (ratio q) BR_MAX = true
    ∧ get_ratio q = (q, ratio q).
Proof.
  intros Hiter. destruct (default_ok linux start) as [H0 _].
  assert (∃ q, run linux iter (default linux start) ops = Some q ∧ qos_ok q) as (q & Hrun & Hok).
  { generalize dependent (default linux start). induction ops as [|[now o] ops IH]; intros q Hq; simpl.
    - by exists q.
    - destruct (step_ok linux iter Hiter q now o Hq) as (q' & -> & Hq' & _). simpl. by apply IH. }
  exists q. split; [done|]. destruct Hok as [Hf [Hr1 Hr2] _].
  assert (get_fps q = fps q) as Hg.
  { unfold get_fps. rewrite !(proj2 (Z.leb_le _ _)) by lia. done. }
  rewrite Hg. split_and!; [lia|lia|done|done|done|]. unfold get_ratio.
  destruct (fltb (ratio q) BR_MIN_HIGH_RESOLUTION) eqn:E1; [exfalso; float_order|].
  destruct (fgtb (ratio q) BR_MAX) eqn:E2; [exfalso; float_order|]. done.
Qed.

Lemma qos_total_witness :
  ∃ q, run true QosTests.order (default true 0)
         [(0, Open 1 true); (0, NewDisplay []); (0, SetSupport [] true);
          (2000, NetworkDelay 1 900); (5000, DisplayTick [] 30)] = Some q
       ∧ 1 <= get_fps q <= 120.
Proof.
  destruct (qos_total true QosTests.order 0
    [(0, Open 1 true); (0, NewDisplay []); (0, SetSupport [] true);
     (2000, NetworkDelay 1 900); (5000, DisplayTick [] 30)]) as (q & Hq & Hf & _); [done|].
  exists q. split; [exact Hq|exact Hf].
Defined.

(** After every reply, stall tick, display tick and departure the stream's
    frame rate is the greatest every viewer allows: at most each viewer's cap
    and target, at most 15 while a viewer is in its first second, and one frame
    more would exceed one of these. *)
Theorem stream_follows_slowest (linux : bool) (iter : gmap Z UserData.t → list UserData.t)
    (start : Z) (ops : list (Z * op)) (q q' : t) (now : Z) (o : op) :
  (∀ m, iter m ≡ₚ (map_to_list m).*2) →
  run linux iter (default linux start) ops = Some q →
  step linux iter q now o = Some q' → adjusts q o →
  (∀ id u, users q' !! id = Some u → allows now u (fps q'))
  ∧ (users q' = ∅ ∨ ∃ id u, users q' !! id = Some u ∧ ¬ allows now u (fps q' + 1)).
Proof.
  intros Hiter Hrun Hstep Hadj. destruct (default_ok linux start) as [H0 _].
  assert (qos_ok q) as Hok.
  { revert Hrun H0. generalize (default linux start).
    induction ops as [|[n p] ops IH]; intros q0 Hrun Hq; simpl in Hrun; [by simplify_eq|].
    destruct (step_ok linux iter Hiter q0 n p Hq) as (q1 & Hq1 & Hok1 & _).
    rewrite Hq1 in Hrun. by eapply IH. }
  destruct (step_ok linux iter Hiter q now o Hok) as (q1 & Hq1 & _ & Hs).
  rewrite Hstep in Hq1. injection Hq1 as <-. by destruct (Hs Hadj).
Qed.

Lemma stream_follows_slowest_witness :
  ∃ q q', run true QosTests.order (default true 0) [(0, Open 1 true); (0, Open 2 true); (0, CustomFps 2 12)]
      = Some q
    ∧ step true QosTests.order q 2000 (NetworkDelay 1 10) = Some q' ∧ fps q' = 12
    ∧ ∃ id u, users q' !! id = Some u ∧ ¬ allows 2000 u 13.
Proof.
  eexists _, _. split; [reflexivity|]. split; [vm_compute; reflexivity|].
  match goal with |- fps ?q = _ ∧ _ => split; [reflexivity|];
    destruct (stream_follows_slowest true QosTests.order 0
      [(0, Open 1 true); (0, Open 2 true); (0, CustomFps 2 12)] _ q 2000 (NetworkDelay 1 10)
      (λ m, reflexivity _) eq_refl ltac:(vm_compute; reflexivity) I) as [_ [H|H]] end.
  - discriminate H.
  - exact H.
Defined.

(** A reply lowers a viewer's frame rate only for congestion: its excess over
    the baseline is at least 600 ms, or it and the two replies before it are all
    bad (at least 150 ms) and those two lowered nothing. Such a confirmed
    reduction takes a fifth at most, any reduction half at most, and none goes
    below five frames or the viewer's own cap. *)
Theorem reductions_confirmed (u : UserData.t) (rs : list (Z * (Z * Z * bool))) :
  in_range u → UserDelay.fps_bad_samples (UserData.delay u) = 0 →
  ∃ tr, viewer_trace u rs = Some tr ∧ length tr = length rs
  ∧ ∀ k e f f', tr !! k = Some (e, f, f') → f' < f →
      150 <= e ∧ Z.min MIN_AUTO_FPS (UserData.fps_cap u) <= f' ∧ step_down f 2 <= f'
      ∧ (600 <= e
         ∨ step_down f 5 <= f' ∧ ∃ j, k = S (S j) ∧ held (tr !! j) ∧ held (tr !! S j)).
Proof.
  intros Hu H0. destruct (trace_reductions rs u Hu) as (tr & Htr & Hlen & H).
  exists tr. split_and!; [done..|]. intros k e f f' Hk Hlt.
  destruct (H k e f f' Hk Hlt) as (? & ? & ? & Hc). split_and!; [done..|].
  destruct Hc as [|[? Hc]]; [by left|right]. split; [done|].
  destruct k as [|[|j]]; [lia|lia|eauto].
Qed.

Lemma reductions_confirmed_witness :
  let rs := replicate 4 (400, (10, 20, false)) in
  let u := UserData.default <| UserData.delay := UserDelay.default
             <| UserDelay.rtt_calculator := foldl Rtt.update Rtt.default [10; 10] |>
             <| UserDelay.fps := Some 30 |> |> in
  viewer_trace u rs = Some [(390, 30, 30); (390, 30, 30); (390, 30, 24); (390, 24, 24)]
  ∧ ∃ j, 2%nat = S (S j).
Proof.
  cbv zeta. split; [vm_compute; reflexivity|].
  edestruct (reductions_confirmed (UserData.default <| UserData.delay := UserDelay.default
             <| UserDelay.rtt_calculator := foldl Rtt.update Rtt.default [10; 10] |>
             <| UserDelay.fps := Some 30 |> |>) (replicate 4 (400, (10, 20, false))))
    as (tr & Htr & _ & H); [by split; vm_compute|reflexivity|].
  vm_compute in Htr. injection Htr as <-.
  destruct (H 2%nat 390 30 24 eq_refl eq_refl) as (_ & _ & _ & [H6|[_ (j & Hj & _)]]).
  - by destruct H6.
  - by exists j.
Defined.

(** Recovery. A viewer whose rate a congested reply lowered is back at its
    rate after two good replies. A stall brakes it by the second, to half, a
    quarter and so on of the rate it began at, never up and never below five
    frames; the late reply lowers nothing more, and two good replies later it is
    back. *)
Theorem recovers_level (u : UserData.t) :
  in_range u → UserDelay.fps_before_congestion (UserData.delay u) = None →
  UserDelay.samples_since_restore (UserData.delay u) = None →
  0 <= UserDelay.good_samples (UserData.delay u) →
  (∀ r p u1 r1 p1 u2 r2 p2 u3,
     replied u r p u1 → 150 <= excess u1 r → UserData.current_fps u1 < UserData.current_fps u →
     replied_good u1 r1 p1 u2 → replied_good u2 r2 p2 u3 →
     UserData.current_fps u <= UserData.current_fps u3)
  ∧ (UserDelay.stall_reference_fps (UserData.delay u) = None →
     ∀ es, es ≠ [] → Forall (Z.lt 2000) es →
     ∃ u1, timeouts u es = Some u1
       ∧ UserData.current_fps u1
         = foldl (λ f e, Z.min (brake (UserData.fps_cap u) (UserData.current_fps u) e) f)
             (UserData.current_fps u) es
       ∧ Z.min (Z.min MIN_AUTO_FPS (UserData.fps_cap u)) (UserData.current_fps u)
         <= UserData.current_fps u1 <= UserData.current_fps u
       ∧ ∀ r p u2, replied u1 r p u2 → UserData.current_fps u1 <= UserData.current_fps u2
         ∧ ∀ r1 p1 u3 r2 p2 u4, replied_good u2 r1 p1 u3 → replied_good u3 r2 p2 u4 →
           UserData.current_fps u <= UserData.current_fps u4).
Proof.
  intros Hu HL Hs Hg. pose proof Hu as [Hlo Hhi]. split.
  - intros r p u1 r1 p1 u2 r2 p2 u3 (rb & first & Hrun) He Hlt Hg1 Hg2.
    destruct (on_reply_remembers _ _ _ _ _ _ _ _ Hu Hrun Hs Hg He) as (Hg' & HL' & Hsome).
    destruct HL' as [HL'|[_ HL']]; [destruct (Hsome Hlt); congruence|].
    destruct (on_reply_rate u r p.1.1 p.1.2 p.2 Hu) as (v & ? & ? & Hv & Hcap & Hu1 & _).
    rewrite Hrun in Hv. injection Hv as <- _ _.
    pose proof (replied_good_back u1 r1 r2 p1 p2 u2 u3 _ Hu1 HL' Hg' Hg1 Hg2). lia.
  - intros Href [|e es] Hne Hes; [done|]. apply Forall_cons in Hes as [He Hes].
    destruct (on_elapsed_first u e He Hu Href HL Hs) as (v & Hv & Hst & Hcapv & Hcurv).
    destruct (timeouts_stalled es v _ Hes Hst) as (u1 & H1 & Hst1 & Hcap1 & Hcur1).
    rewrite Hcapv in Hcap1, Hcur1. rewrite Hcurv in Hcur1.
    exists u1. split; [simpl; rewrite Hv; exact H1|]. split; [done|].
    pose proof (brakes_range (e :: es) (UserData.fps_cap u) (UserData.current_fps u)
      (UserData.current_fps u) ltac:(lia) Hlo) as Hbr. simpl in Hbr. rewrite <- Hcur1 in Hbr.
    split; [done|].
    assert (in_range u1) as Hu1 by (unfold in_range; rewrite Hcap1; unfold MIN_AUTO_FPS in Hbr; lia).
    intros r p u2 Hr. destruct (late_reply u1 r p u2 _ Hu1 Hst1 Hr) as (Hu2 & Hcap2 & Hup & Hl).
    split; [done|]. intros r1 p1 u3 r2 p2 u4 G1 G2.
    destruct (replied_good_up _ _ _ _ Hu2 G1) as (Hu3 & Hcap3 & Hup3).
    destruct (replied_good_up _ _ _ _ Hu3 G2) as (_ & _ & Hup4).
    destruct Hl as [Hl|[HL2 Hg2]]; [lia|].
    pose proof (replied_good_back u2 r1 r2 p1 p2 u3 u4 _ Hu2 HL2 Hg2 G1 G2). lia.
Qed.

Lemma recovers_level_witness :
  let u := UserData.default <| UserData.delay := UserDelay.default
             <| UserDelay.rtt_calculator := foldl Rtt.update Rtt.default [10; 10] |>
             <| UserDelay.fps := Some 30 |> |> in
  ∃ u1, timeouts u [2500; 3500] = Some u1 ∧ UserData.current_fps u1 = 7.
Proof.
  cbv zeta. edestruct (recovers_level (UserData.default <| UserData.delay := UserDelay.default
             <| UserDelay.rtt_calculator := foldl Rtt.update Rtt.default [10; 10] |>
             <| UserDelay.fps := Some 30 |> |>)) as [_ H];
    [by split; vm_compute|reflexivity|reflexivity|by vm_compute|].
  destruct (H eq_refl [2500; 3500]) as (u1 & H1 & H2 & _); [done|by repeat constructor|].
  exists u1. split; [exact H1|exact H2].
Defined.

(** The delay baseline is below every reply of its window and above some
    reply ever seen, grows by 50 ms a reply at most, and settles on a path whose
    delay has become steady, so a permanently longer path stops counting as
    congestion. *)
Theorem baseline_tracks (ds : list Z) :
  ds ≠ [] → Forall (λ d, 0 <= d < 2 ^ 32) ds →
  ∃ b, Rtt.baseline (replies_of ds) = Some b
    ∧ (∀ x, x ∈ Rtt.samples (replies_of ds) → b <= x)
    ∧ (length (Rtt.samples (replies_of ds)) <= 20)%nat
    ∧ (∃ x, x ∈ ds ∧ x <= b)
    ∧ (∀ d b', Rtt.baseline (replies_of (ds ++ [d])) = Some b' → b' <= Z.min b d + 50)
    ∧ ∀ d n, 0 <= d < 2 ^ 32 → d + 20 <= Z.of_nat n →
        Rtt.baseline (replies_of (ds ++ replicate n d)) = Some d.
Proof.
  intros Hne Hds. unfold replies_of.
  pose proof (updates_window ds _ default_window) as Hok.
  assert (∃ b, Rtt.baseline (foldl Rtt.update Rtt.default ds) = Some b) as [b Hb].
  { destruct ds as [|d ds _] using rev_ind; [done|]. rewrite foldl_app. simpl.
    pose proof (updates_window ds _ default_window) as Hok'.
    destruct (update_spec _ d Hok') as (b & Hb & _). eauto. }
  exists b. destruct (list_min_at id ds Hne) as (m & Hm & _ & Hmin).
  split_and!; [done| |apply Hok| | |].
  - destruct Hok as [_ Hle]. by rewrite Hb in Hle.
  - exists m. split; [done|]. eapply (updates_lower ds Rtt.default m default_window); [done| |done].
    apply Forall_forall. exact Hmin.
  - intros d b' Hb'. rewrite foldl_app in Hb'. simpl in Hb'.
    destruct (update_spec _ d Hok) as (b2 & Hb2 & _ & [_ Hle] & _). unfold lowered in Hle.
    rewrite Hb in Hle. simpl in Hle. simplify_eq. lia.
  - intros d n Hd Hn. rewrite foldl_app. apply baseline_forgets; [done|done| |done].
    intros b2 Hb2. eapply (updates_lower ds Rtt.default 0 default_window); [done| |exact Hb2].
    eapply Forall_impl; [exact Hds|]. simpl. lia.
Qed.

Lemma baseline_tracks_witness :
  Rtt.baseline (replies_of ([10; 10] ++ replicate 60 40)) = Some 40.
Proof.
  destruct (baseline_tracks [10; 10]) as (b & _ & _ & _ & _ & _ & H);
    [done|repeat constructor; lia|]. apply H; [split; reflexivity || lia|]. vm_compute. discriminate.
Defined.
End properties.
