(* ===== verification/Sessions.v ===== *)
(** * Sessions and connections of the controlled side

    [mod raii] of [src/src/server/connection.rs]: the registries of live and of
    authorized connections, the sessions a peer may resume without a password,
    and the grants of a switch of sides. Instants are milliseconds. *)
From S2P Require Import Prelude LoginFlow.
Local Open Scope Z_scope.

Definition SESSION_TIMEOUT : Z := 30000.
Definition SWITCH_SIDES_UUID_TTL : Z := 10000.

Record SessionKey := mk_key { peer_id : str; name : str; session_id : Z }.
#[export] Instance SessionKey_eq_dec : EqDecision SessionKey.
Proof. solve_decision. Defined.
#[export] Instance SessionKey_countable : Countable SessionKey.
Proof.
  refine (inj_countable' (λ k, (peer_id k, name k, session_id k)) (λ p, mk_key p.1.1 p.1.2 p.2) _).
  by intros [].
Defined.

(** ** Sessions

    [last_recv_time] is a cell shared with connections: sessions and
    connections name cells of a store. *)
Module Sessions.
Record Session := mk_session { last_recv_time : N; random_password : str; tfa : bool }.
Record AuthedConn := mk_conn { conn_id : Z; conn_type : AuthConnType; session_key : SessionKey }.

Record st := mk {
  cells : gmap N Z;                  (* [Arc<Mutex<Instant>>] *)
  fresh : N;
  sessions : gmap SessionKey Session;         (* SESSIONS *)
  alive_conns : list Z;                       (* ALIVE_CONNS *)
  authed_conns : list AuthedConn;             (* AUTHED_CONNS *)
  recv_cells : gmap Z N             (* each connection's [session_last_recv_time] *)
}.
#[global] Instance eta : Eta st := λ s,
  mk (cells s) (fresh s) (sessions s) (alive_conns s) (authed_conns s) (recv_cells s).
Definition init : st := mk ∅ 0 ∅ [] [] ∅.

(** [ConnectionID] *)
Definition connection_new (s : st) (id : Z) : st := s <| alive_conns ::= λ l, l ++ [id] |>.
Definition connection_drop (s : st) (id : Z) : st :=
  s <| alive_conns ::= filter (λ c, c ≠ id) |>.

Definition is_newer_session_remote (c : AuthedConn) (id : Z) (key : SessionKey) : bool :=
  (id <? conn_id c) && bool_decide (conn_type c = Remote) && bool_decide (session_key c = key).
Definition session_reconnected (s : st) (id : Z) (key : SessionKey) : bool :=
  existsb (λ c, is_newer_session_remote c id key) (authed_conns s).

(** What [check_wake_lock] sends: all connections, and the remote ones. *)
Definition check_wake_lock (s : st) : nat * nat :=
  (length (authed_conns s), length (filter (λ c, conn_type c = Remote) (authed_conns s))).

(** [AuthedConnID::new], and the connection taking its session's cell. *)
Definition authed_new (s : st) (id : Z) (t : AuthConnType) (key : SessionKey) : st :=
  let s := s <| authed_conns ::= λ l, l ++ [mk_conn id t key] |> in
  s <| recv_cells ::= λ m, match sessions s !! key with
                           | Some se => <[id := last_recv_time se]> m
                           | None => delete id m
                           end |>.
Definition authed_drop (s : st) (id : Z) : st :=
  s <| authed_conns ::= filter (λ c, conn_id c ≠ id) |>.

(** A message received on a connection. *)
Definition on_recv (s : st) (id now : Z) : st :=
  match recv_cells s !! id with
  | Some c => s <| cells ::= <[c := now]> |>
  | None => s
  end.

Definition new_session (s : st) (key : SessionKey) (password : str) (tfa : bool) (now : Z) : st :=
  s <| cells ::= <[fresh s := now]> |>
    <| sessions ::= <[key := mk_session (fresh s) password tfa]> |>
    <| fresh := N.succ (fresh s) |>.

Definition update_or_insert_session (s : st) (key : SessionKey) (password : option str)
    (tfa' : option bool) (now : Z) : st :=
  match sessions s !! key with
  | Some se =>
      s <| sessions ::= <[key := mk_session (last_recv_time se)
                                  (default (random_password se) password) (default (tfa se) tfa')]> |>
  | None => new_session s key (default [] password) (default false tfa') now
  end.

Definition set_session_2fa (s : st) (key : SessionKey) (now : Z) : st :=
  match sessions s !! key with
  | Some se => s <| sessions ::= <[key := mk_session (last_recv_time se) (random_password se) true]> |>
  | None => new_session s key [] true now
  end.

(** Whether [check_remove_session] removes an existing session. *)
Definition removes (s : st) (id : Z) (key : SessionKey) : bool :=
  let is_remote := existsb (λ c, bool_decide (conn_id c = id) && bool_decide (conn_type c = Remote))
                     (authed_conns s) in
  let another_remote :=
    existsb (λ c, negb (bool_decide (conn_id c = id)) && bool_decide (session_key c = key)
                  && bool_decide (conn_type c = Remote)) (authed_conns s) in
  is_remote || negb another_remote.
Definition check_remove_session (s : st) (id : Z) (key : SessionKey) : st :=
  match sessions s !! key with
  | Some _ => if removes s id key then s <| sessions ::= delete key |> else s
  | None => s
  end.

(** The sweep and lookup of [is_recent_session], and its answer; an instant
    later than now has not elapsed at all. *)
Definition elapsed (s : st) (c : N) (now : Z) : Z := Z.max 0 (now - default 0 (cells s !! c)).
Definition sweep (s : st) (now : Z) : st :=
  s <| sessions ::= filter (λ p, elapsed s (last_recv_time p.2) now < SESSION_TIMEOUT) |>.
Definition is_recent_session (validate_password_plain : str → bool) (password : str)
    (tfa' : bool) (key : SessionKey) (s : st) (now : Z) : st * bool :=
  let s := sweep s now in
  (s, match sessions s !! key with
      | Some se =>
          negb (bool_decide (password = []))
          && (tfa' && tfa se || negb tfa' && validate_password_plain (random_password se))
      | None => false
      end).

(** *** Histories *)
Inductive event :=
| Validated (key : SessionKey) (password : str)    (* a temporary password was right *)
| Passed2fa (key : SessionKey)
| Authorized (id : Z) (t : AuthConnType) (key : SessionKey)
| Received (id : Z)
| ClosedForGood (id : Z) (key : SessionKey)        (* a close that forbids a retry *)
| Dropped (id : Z)
| Asked.                                           (* [is_recent_session] *)

Definition step (s : st) (now : Z) (e : event) : st :=
  match e with
  | Validated key p => update_or_insert_session s key (Some p) (Some false) now
  | Passed2fa key => set_session_2fa s key now
  | Authorized id t key => authed_new s id t key
  | Received id => on_recv s id now
  | ClosedForGood id key => check_remove_session s id key
  | Dropped id => authed_drop s id
  | Asked => sweep s now
  end.
(** The newest event first. *)
Fixpoint run (h : list (Z * event)) : st :=
  match h with
  | [] => init
  | (now, e) :: h' => step (run h') now e
  end.
End Sessions.

(** ** Switching sides *)
Module SwitchSides.
Abbreviation uuid := Z (only parsing).

(** [SWITCH_SIDES_UUID]: a grant this side gave out. *)
Abbreviation grants := (gmap str (Z * uuid)) (only parsing).
Definition insert_switch_sides_uuid (m : grants) (now : Z) (id : str) (u : uuid) : grants :=
  <[id := (now, u)]> m.
(** The response of a peer: the grant of its id is gone whatever it answers. *)
Definition take_switch_sides_uuid (m : grants) (now : Z) (id : str) (u : uuid) : grants * bool :=
  let m := filter (λ p, Z.max 0 (now - p.2.1) < SWITCH_SIDES_UUID_TTL) m in
  (delete id m, match m !! id with Some (_, old) => bool_decide (u = old) | None => false end).

Inductive grant_op := Insert (id : str) (u : uuid) | Respond (id : str) (u : uuid).
Definition grant_step (m : grants) (now : Z) (o : grant_op) : grants * bool :=
  match o with
  | Insert id u => (insert_switch_sides_uuid m now id u, false)
  | Respond id u => take_switch_sides_uuid m now id u
  end.

(** [PENDING_SWITCH_SIDES_UUID]: requests this side follows. *)
Abbreviation pending := (gmap str (Z * uuid * bool)) (only parsing).
Definition retain_pending (m : pending) (now : Z) : pending :=
  filter (λ p, Z.max 0 (now - p.2.1.1) < SWITCH_SIDES_UUID_TTL) m.
Definition insert_pending_switch_sides_uuid (m : pending) (now : Z) (id : str) (u : uuid)
    : pending * bool :=
  let m := retain_pending m now in
  if bool_decide ((λ e : Z * uuid * bool, e.1.2) <$> m !! id = Some u) then (m, false)
  else (<[id := (now, u, false)]> m, true).
Definition has_pending_switch_sides_uuid (m : pending) (now : Z) (id : str) (u : uuid)
    : pending * bool :=
  let m := retain_pending m now in
  (m, match m !! id with
      | Some (_, stored, claimed) => bool_decide (stored = u) && negb claimed
      | None => false
      end).
Definition claim_pending_switch_sides_uuid (m : pending) (now : Z) (id : str) (u : uuid)
    : pending * bool :=
  let m := retain_pending m now in
  match m !! id with
  | Some (instant, stored, claimed) =>
      if bool_decide (stored = u) && negb claimed
      then (<[id := (instant, stored, true)]> m, true)
      else (m, false)
  | None => (m, false)
  end.

Inductive pending_op := PInsert (id : str) (u : uuid) | PHas (id : str) (u : uuid)
                      | PClaim (id : str) (u : uuid).
Definition pending_step (m : pending) (now : Z) (o : pending_op) : pending * bool :=
  match o with
  | PInsert id u => insert_pending_switch_sides_uuid m now id u
  | PHas id u => has_pending_switch_sides_uuid m now id u
  | PClaim id u => claim_pending_switch_sides_uuid m now id u
  end.

(** What a sequence of operations answers: the operations with their answers. *)
Section answers.
Context {M O : Type} (step : M → Z → O → M * bool).
Fixpoint answers (m : M) (ops : list (Z * O)) : list (Z * O * bool) :=
  match ops with
  | [] => []
  | (now, o) :: ops' => let '(m', b) := step m now o in (now, o, b) :: answers m' ops'
  end.
End answers.
End SwitchSides.

(** ** What a session vouches for *)
Section life.
Import Sessions.

(** The password last found right in the life [log] of a session, and whether a
    second factor was passed since. *)
Fixpoint last_password (key : SessionKey) (log : list (Z * event)) : str :=
  match log with
  | [] => []
  | (_, Validated k p) :: log' => if decide (k = key) then p else last_password key log'
  | _ :: log' => last_password key log'
  end.
Fixpoint second_factor (key : SessionKey) (log : list (Z * event)) : bool :=
  match log with
  | [] => false
  | (_, Validated k _) :: log' => if decide (k = key) then false else second_factor key log'
  | (_, Passed2fa k) :: log' => if decide (k = key) then true else second_factor key log'
  | _ :: log' => second_factor key log'
  end.
(** No close for good removed the session during [log]; [pre] is what happened
    before it. *)
Fixpoint kept (key : SessionKey) (log pre : list (Z * event)) : Prop :=
  match log with
  | [] => True
  | (_, e) :: log' =>
      kept key log' pre
      ∧ match e with
        | ClosedForGood id k => k = key → removes (run (log' ++ pre)) id key = false
        | _ => True
        end
  end.
Definition creates (key : SessionKey) (e : event) : Prop :=
  match e with Validated k _ => k = key | Passed2fa k => k = key | _ => False end.
(** The session's life began with its creation at [t0]. *)
Definition begins (key : SessionKey) (t0 : Z) (log : list (Z * event)) : Prop :=
  ∃ e log', log = log' ++ [(t0, e)] ∧ creates key e.
(** At [t] the peer was heard on a connection that was authorized during [log]
    under [key]. *)
Definition heard (key : SessionKey) (log : list (Z * event)) (t : Z) : Prop :=
  ∃ id t' ty, (t, Received id) ∈ log ∧ (t', Authorized id ty key) ∈ log.

Record life (h : list (Z * event)) (key : SessionKey) (se : Session) (log pre : list (Z * event))
    (t0 : Z) : Prop := {
  life_split : h = log ++ pre;
  life_begins : begins key t0 log;
  life_kept : kept key log pre;
  life_password : random_password se = last_password key log;
  life_tfa : tfa se = second_factor key log;
  life_heard : ∃ t, cells (run h) !! last_recv_time se = Some t ∧ (t = t0 ∨ heard key log t);
  life_attached : ∀ id, recv_cells (run h) !! id = Some (last_recv_time se) →
    ∃ t' ty, (t', Authorized id ty key) ∈ log
}.

(** Cells are handed out once. *)
Record cells_ok (s : st) : Prop := {
  cells_sessions : ∀ key se, sessions s !! key = Some se → (last_recv_time se < fresh s)%N;
  cells_conns : ∀ id c, recv_cells s !! id = Some c → (c < fresh s)%N;
  cells_distinct : ∀ k1 k2 s1 s2, sessions s !! k1 = Some s1 → sessions s !! k2 = Some s2 →
    last_recv_time s1 = last_recv_time s2 → k1 = k2
}.

Lemma new_session_cells s key p b now : cells_ok s → cells_ok (new_session s key p b now).
Proof.
  intros [H1 H2 H3]. split; simpl.
  - intros k se. rewrite lookup_insert_Some. intros [[<- <-]|[_ Hk]]; simpl; [lia|].
    specialize (H1 _ _ Hk). lia.
  - intros id c Hc. specialize (H2 _ _ Hc). lia.
  - intros k1 k2 s1 s2. rewrite !lookup_insert_Some.
    intros [[<- <-]|[N1 E1]] [[<- <-]|[N2 E2]] Heq; simpl in *; try done.
    + specialize (H1 _ _ E2). lia.
    + specialize (H1 _ _ E1). lia.
    + eauto.
Qed.

Lemma change_session_cells s key se p b :
  sessions s !! key = Some se → cells_ok s →
  cells_ok (s <| sessions ::= <[key := mk_session (last_recv_time se) p b]> |>).
Proof.
  intros Hse [H1 H2 H3]. split; simpl; [|done|].
  - intros k se'. rewrite lookup_insert_Some. intros [[<- <-]|[_ Hk]]; simpl; eauto.
  - intros k1 k2 s1 s2. rewrite !lookup_insert_Some.
    intros [[<- <-]|[N1 E1]] [[<- <-]|[N2 E2]] Heq; simpl in *; eauto.
Qed.

Lemma fewer_sessions_cells s m : m ⊆ sessions s → cells_ok s → cells_ok (s <| sessions := m |>).
Proof.
  intros Hm [H1 H2 H3]. split; simpl; [|done|].
  - intros k se Hk. eapply H1, lookup_weaken; eauto.
  - intros k1 k2 s1 s2 E1 E2. eapply H3; eapply lookup_weaken; eauto.
Qed.

Lemma step_cells s now e : cells_ok s → cells_ok (step s now e).
Proof.
  intros Hok. destruct e; simpl.
  - unfold update_or_insert_session. destruct (sessions s !! key) eqn:Hk;
      [by apply change_session_cells|by apply new_session_cells].
  - unfold set_session_2fa. destruct (sessions s !! key) eqn:Hk;
      [by apply change_session_cells|by apply new_session_cells].
  - destruct Hok as [H1 H2 H3]. split; simpl; [done| |done]. intros i c.
    destruct (sessions s !! key) eqn:Hk.
    + rewrite lookup_insert_Some. intros [[<- <-]|[_ Hc]]; eauto.
    + rewrite lookup_delete_Some. intros [_ Hc]. eauto.
  - unfold on_recv. by case_match; [destruct Hok; split|].
  - unfold check_remove_session. do 2 (case_match; [|done]).
    apply (fewer_sessions_cells s (delete key (sessions s))); [apply delete_subseteq|done].
  - by destruct Hok; split.
  - apply (fewer_sessions_cells s (filter _ (sessions s))); [apply map_filter_subseteq|done].
Qed.

Lemma run_cells h : cells_ok (run h).
Proof.
  induction h as [|[now e] h IH]; simpl; [|by apply step_cells].
  split; simpl; [intros ? ?|intros ? ?|intros ? ? ? ?]; by rewrite lookup_empty.
Qed.

(** A session that an event leaves alone lives on. *)
Lemma life_same h key se log pre t0 now e :
  life h key se log pre t0 →
  cells (run ((now, e) :: h)) !! last_recv_time se = cells (run h) !! last_recv_time se →
  (∀ id, recv_cells (run ((now, e) :: h)) !! id = Some (last_recv_time se) →
     recv_cells (run h) !! id = Some (last_recv_time se) ∨ ∃ ty, e = Authorized id ty key) →
  match e with
  | Validated k _ | Passed2fa k => k ≠ key
  | ClosedForGood id k => k = key → removes (run h) id key = false
  | _ => True
  end →
  life ((now, e) :: h) key se ((now, e) :: log) pre t0.
Proof.
  intros [-> (e0 & l & -> & He0) Hk Hp Ht (t & Hc & Hh) Ha] Hcell Hatt He. split.
  - done.
  - by exists e0, ((now, e) :: l).
  - split; [done|]. by destruct e.
  - rewrite Hp. destruct e; simpl; try done. by destruct (decide (key0 = key)).
  - rewrite Ht. destruct e; simpl; try done; by destruct (decide (key0 = key)).
  - exists t. rewrite Hcell. split; [done|]. destruct Hh as [|(id & t' & ty & H1 & H2)]; [by left|right].
    exists id, t', ty. split; by right.
  - intros id [Hid|[ty ->]]%Hatt.
    + destruct (Ha id Hid) as (t' & ty & ?). exists t', ty. by right.
    + exists now, ty. by left.
Qed.

(** The two events that create or change a session, on another one. *)
Lemma life_changed h key se log pre t0 now e p b :
  life h key se log pre t0 → creates key e →
  last_password key ((now, e) :: log) = p → second_factor key ((now, e) :: log) = b →
  cells (run ((now, e) :: h)) = cells (run h) → recv_cells (run ((now, e) :: h)) = recv_cells (run h) →
  life ((now, e) :: h) key (mk_session (last_recv_time se) p b) ((now, e) :: log) pre t0.
Proof.
  intros [-> (e0 & l & -> & He0) Hk _ _ (t & Hc & Hh) Ha] He Hp Hb Hcell Hrecv. split.
  - done.
  - by exists e0, ((now, e) :: l).
  - split; [done|]. by destruct e.
  - done.
  - done.
  - exists t. rewrite Hcell. split; [done|]. destruct Hh as [|(id & t' & ty & H1 & H2)]; [by left|right].
    exists id, t', ty. split; by right.
  - intros id. rewrite Hrecv. simpl. intros Hid. destruct (Ha id Hid) as (t' & ty & ?).
    exists t', ty. by right.
Qed.

Lemma life_born h key now e p b :
  creates key e → sessions (run h) !! key = None →
  last_password key [(now, e)] = p → second_factor key [(now, e)] = b →
  run ((now, e) :: h) = new_session (run h) key p b now →
  life ((now, e) :: h) key (mk_session (fresh (run h)) p b) [(now, e)] h now.
Proof.
  intros He Hn Hp Hb Hrun. split; [done|by exists e, []|by destruct e|done|done| |].
  - exists now. rewrite Hrun. simpl. rewrite lookup_insert_eq. auto.
  - intros id. rewrite Hrun. simpl. intros Hid.
    apply (cells_conns _ (run_cells h)) in Hid. lia.
Qed.
(** Being heard. *)
Lemma life_received h key se log pre t0 now id :
  life h key se log pre t0 → life ((now, Received id) :: h) key se ((now, Received id) :: log) pre t0.
Proof.
  intros Hl. destruct (decide (recv_cells (run h) !! id = Some (last_recv_time se))) as [Hid|Hid].
  - destruct Hl as [-> (e0 & l & -> & He0) Hk Hp Ht _ Ha]. split; [done| |done|done|done| |].
    + by exists e0, ((now, Received id) :: l).
    + exists now. simpl. unfold on_recv. rewrite Hid. simpl. rewrite lookup_insert_eq. split; [done|right].
      destruct (Ha id Hid) as (t' & ty & Hin). exists id, t', ty. split; [by left|by right].
    + intros i Hi. destruct (Ha i) as (t' & ty & Hin).
      { simpl in Hi. unfold on_recv in Hi. by rewrite Hid in Hi. }
      exists t', ty. by right.
  - apply life_same; [done| | |done].
    + simpl. unfold on_recv. destruct (recv_cells (run h) !! id) as [c|] eqn:Hc; [|done]. simpl.
      rewrite lookup_insert_ne; [done|]. congruence.
    + intros i Hi. left. simpl in Hi. unfold on_recv in Hi. by case_match.
Qed.

Definition alive (h : list (Z * event)) (key : SessionKey) (se : Session) : Prop :=
  ∃ log pre t0, life h key se log pre t0.

(** An event that creates or changes the session of [k]. *)
Lemma upsert_life h now e k (f : Session → str) (g : Session → bool) p b key se :
  (∀ key se, sessions (run h) !! key = Some se → alive h key se) → creates k e →
  run ((now, e) :: h) =
    match sessions (run h) !! k with
    | Some s0 => (run h) <| sessions ::= <[k := mk_session (last_recv_time s0) (f s0) (g s0)]> |>
    | None => new_session (run h) k p b now
    end →
  (∀ log s0, random_password s0 = last_password k log → last_password k ((now, e) :: log) = f s0) →
  (∀ log s0, tfa s0 = second_factor k log → second_factor k ((now, e) :: log) = g s0) →
  last_password k [(now, e)] = p → second_factor k [(now, e)] = b →
  sessions (run ((now, e) :: h)) !! key = Some se → alive ((now, e) :: h) key se.
Proof.
  intros IH He Hrun Hf Hg Hp Hb Hse. pose proof (run_cells h) as Hcells.
  destruct (decide (k = key)) as [->|Hne].
  - rewrite Hrun in Hse. destruct (sessions (run h) !! key) as [s0|] eqn:Hs0;
      simpl in Hse; rewrite lookup_insert_eq in Hse; injection Hse as <-.
    + destruct (IH key s0 Hs0) as (log & pre & t0 & Hl). eexists _, pre, t0.
      apply (life_changed h key s0 log pre t0); [done|done| | |by rewrite Hrun..].
      * apply Hf, Hl.
      * apply Hg, Hl.
    + eexists _, _, _. by apply life_born.
  - assert (sessions (run h) !! key = Some se) as Hold.
    { rewrite Hrun in Hse. case_match; simpl in Hse; by rewrite lookup_insert_ne in Hse. }
    destruct (IH _ _ Hold) as (log & pre & t0 & Hl). eexists _, _, _.
    apply life_same; [exact Hl| | |by destruct e; simpl in *; try subst].
    + rewrite Hrun. case_match; simpl; [done|].
      pose proof (cells_sessions _ Hcells _ _ Hold). by rewrite lookup_insert_ne by lia.
    + intros id Hid. left. rewrite Hrun in Hid. by case_match.
Qed.

Lemma authorized_life h now id t k key se :
  (∀ key se, sessions (run h) !! key = Some se → alive h key se) →
  sessions (run h) !! key = Some se → alive ((now, Authorized id t k) :: h) key se.
Proof.
  intros IH Hse. destruct (IH _ _ Hse) as (log & pre & t0 & Hl). eexists _, _, _.
  apply life_same; [exact Hl|done| |done].
  simpl. intros i. destruct (sessions (run h) !! k) as [s0|] eqn:Hk.
  - rewrite lookup_insert_Some. intros [[<- Heq]|[_ Hi]]; [right|by left].
    rewrite (cells_distinct _ (run_cells h) _ _ _ _ Hk Hse Heq). eauto.
  - rewrite lookup_delete_Some. intros [_ Hi]. by left.
Qed.

Lemma closed_life h now id k key se :
  (∀ key se, sessions (run h) !! key = Some se → alive h key se) →
  sessions (run ((now, ClosedForGood id k) :: h)) !! key = Some se →
  alive ((now, ClosedForGood id k) :: h) key se.
Proof.
  intros IH Hse. simpl in Hse. unfold check_remove_session in Hse.
  assert (sessions (run h) !! key = Some se ∧ (k = key → removes (run h) id key = false)) as [Hold Hr].
  { destruct (sessions (run h) !! k) as [s0|] eqn:Hk; [destruct (removes (run h) id k) eqn:Hrm|].
    - simpl in Hse. apply lookup_delete_Some in Hse as [Hne Hse]. split; [done|]. by intros ->.
    - split; [done|]. by intros ->.
    - split; [done|]. intros ->. congruence. }
  destruct (IH _ _ Hold) as (log & pre & t0 & Hl). eexists _, _, _.
  apply life_same; [exact Hl| | |done];
    simpl; unfold check_remove_session; do 2 (case_match; simpl; auto).
Qed.

Lemma step_life h now e :
  (∀ key se, sessions (run h) !! key = Some se → alive h key se) →
  ∀ key se, sessions (run ((now, e) :: h)) !! key = Some se → alive ((now, e) :: h) key se.
Proof.
  intros IH key se Hse. destruct e as [k p|k|id t k|id|id k|id|].
  - apply (upsert_life h now (Validated k p) k (λ _, p) (λ _, false) p false); try done;
      intros; simpl; by rewrite decide_True.
  - apply (upsert_life h now (Passed2fa k) k random_password (λ _, true) [] true); try done;
      intros; simpl; by rewrite ?decide_True.
  - by apply authorized_life.
  - assert (sessions (run h) !! key = Some se) as Hold
      by (simpl in Hse; unfold on_recv in Hse; by case_match).
    destruct (IH _ _ Hold) as (log & pre & t0 & Hl). eexists _, _, _. by apply life_received.
  - by apply closed_life.
  - destruct (IH _ _ Hse) as (log & pre & t0 & Hl). eexists _, _, _.
    apply life_same; [exact Hl|auto..].
  - apply map_lookup_filter_Some in Hse as [Hse _].
    destruct (IH _ _ Hse) as (log & pre & t0 & Hl). eexists _, _, _.
    apply life_same; [exact Hl|auto..].
Qed.

Lemma session_life h key se :
  sessions (run h) !! key = Some se → alive h key se.
Proof.
  revert key se. induction h as [|[now e] h IH]; intros key se Hse.
  - simpl in Hse. by rewrite lookup_empty in Hse.
  - by eapply step_life.
Qed.
End life.

(** C33: A login may resume a session without being asked for a password (or the
    second factor) only if that session was created by a right password or
    second factor under the same key, was not removed by a close for good since,
    still vouches for the password last found right (or for a second factor
    passed after it), and its peer was authenticated or heard from on one of the
    session's own connections within the last 30 seconds. *)
Theorem recent_session_sound (h : list (Z * Sessions.event)) (now : Z) (key : SessionKey)
    (validate_password_plain : str → bool) (password : str) (tfa : bool) :
  (Sessions.is_recent_session validate_password_plain password tfa key (Sessions.run h) now).2 = true →
  ∃ log pre t0, h = log ++ pre ∧ begins key t0 log ∧ kept key log pre
    ∧ password ≠ []
    ∧ (if tfa then second_factor key log = true
       else validate_password_plain (last_password key log) = true)
    ∧ ∃ t, now - t < SESSION_TIMEOUT ∧ (t = t0 ∨ heard key log t).
Proof.
  unfold Sessions.is_recent_session. simpl. intros Ha.
  destruct (filter _ _ !! key) as [se|] eqn:Hse; [|done].
  apply map_lookup_filter_Some in Hse as [Hse Helapsed].
  destruct (session_life h key se Hse) as (log & pre & t0 & [Hs Hb Hk Hp Ht (t & Hc & Hh) _]).
  exists log, pre, t0. apply andb_true_iff in Ha as [Hpw Ha].
  apply negb_true_iff, bool_decide_eq_false in Hpw. split_and!; [done..| |].
  - rewrite <- Hp, <- Ht. destruct tfa; simpl in Ha; [|done]. by rewrite orb_false_r in Ha.
  - exists t. split; [|done]. unfold Sessions.elapsed in Helapsed. simpl in Helapsed.
    rewrite Hc in Helapsed. simpl in Helapsed. lia.
Qed.

Lemma recent_session_sound_witness :
  let key := mk_key [] [] 7 in
  let h := [(9000, Sessions.Received 1); (1000, Sessions.Authorized 1 Remote key);
            (1000, Sessions.Validated key (lit "pw"))] in
  let ask := Sessions.is_recent_session (λ p, bool_decide (p = lit "pw")) (lit "x") false key
               (Sessions.run h) in
  (ask 38999).2 = true ∧ (ask 39000).2 = false
  ∧ ∃ log pre t0, h = log ++ pre ∧ begins key t0 log.
Proof.
  cbv zeta. split; [vm_compute; reflexivity|]. split; [vm_compute; reflexivity|].
  destruct (recent_session_sound
    [(9000, Sessions.Received 1); (1000, Sessions.Authorized 1 Remote (mk_key [] [] 7));
     (1000, Sessions.Validated (mk_key [] [] 7) (lit "pw"))] 38999 (mk_key [] [] 7)
    (λ p, bool_decide (p = lit "pw")) (lit "x") false) as (log & pre & t0 & Hh & Hb & _);
    [vm_compute; reflexivity|]. exists log, pre, t0. split; [exact Hh|exact Hb].
Defined.

(** ** Grants are used once *)
Section grants.
Import SwitchSides.

(** The grant map in terms of the operations so far (newest first): an entry is
    the newest operation on its id, and it is an insertion. *)
Definition on_grant (id : str) (o : grant_op) : Prop :=
  match o with Insert i _ | Respond i _ => i = id end.
Definition granted (h : list (Z * grant_op * bool)) (id : str) (t : Z) (u : Z) : Prop :=
  ∃ suf pre b, h = suf ++ (t, Insert id u, b) :: pre ∧ Forall (λ x, ¬ on_grant id x.1.2) suf.

Lemma granted_later h id t u x :
  granted h id t u → ¬ on_grant id x.1.2 → granted (x :: h) id t u.
Proof. intros (suf & pre & b & -> & Hs) Hx. exists (x :: suf), pre, b. split; [done|by constructor]. Qed.

Lemma grant_step_granted m h now o b :
  (∀ id t u, m !! id = Some (t, u) → granted h id t u) →
  ∀ id t u, (grant_step m now o).1 !! id = Some (t, u) → granted ((now, o, b) :: h) id t u.
Proof.
  intros IH id t u Hid. destruct o as [i v|i v]; simpl in Hid.
  - unfold insert_switch_sides_uuid in Hid.
    apply lookup_insert_Some in Hid as [[<- [= <- <-]]|[Hne Hid]].
    + exists [], h, b. split; [done|constructor].
    + by apply granted_later; [apply IH|].
  - apply lookup_delete_Some in Hid as [Hne Hid].
    apply map_lookup_filter_Some in Hid as [Hid _]. by apply granted_later; [apply IH|].
Qed.

(** An accepted response uses a fresh grant of its own id and uuid. *)
Lemma response_granted m h now id u :
  (∀ id t u, m !! id = Some (t, u) → granted h id t u) →
  (take_switch_sides_uuid m now id u).2 = true →
  ∃ t, granted h id t u ∧ now - t < SWITCH_SIDES_UUID_TTL.
Proof.
  intros IH. unfold take_switch_sides_uuid. simpl.
  destruct (filter _ _ !! id) as [[t v]|] eqn:Hid; [|done].
  intros ->%bool_decide_eq_true. apply map_lookup_filter_Some in Hid as [Hid Ht]. simpl in Ht.
  exists t. split; [by apply IH|lia].
Qed.

Definition on_pending (id : str) (o : pending_op) : Prop :=
  match o with PInsert i _ | PClaim i _ => i = id | PHas _ _ => False end.
(** The newest accepted operation on the id: its insertion, or the claim of it. *)
Definition pending_since (h : list (Z * pending_op * bool)) (id : str) (t u : Z) (claimed : bool) : Prop :=
  if claimed then True
  else ∃ suf pre, h = suf ++ (t, PInsert id u, true) :: pre
    ∧ Forall (λ x, on_pending id x.1.2 → x.2 = false) suf.

Lemma pending_step_since m h now o :
  (∀ id t u c, m !! id = Some (t, u, c) → pending_since h id t u c) →
  ∀ id t u c, (pending_step m now o).1 !! id = Some (t, u, c) →
    pending_since ((now, o, (pending_step m now o).2) :: h) id t u c.
Proof.
  intros IH.
  assert (∀ id t u c b, m !! id = Some (t, u, c) → (on_pending id o → b = false) →
    pending_since ((now, o, b) :: h) id t u c) as Hlater.
  { intros id t u c b Hid Hb. specialize (IH _ _ _ _ Hid). destruct c; [done|].
    destruct IH as (suf & pre & -> & Hs). exists ((now, o, b) :: suf), pre.
    split; [done|]. by constructor. }
  assert (∀ id e, retain_pending m now !! id = Some e → m !! id = Some e) as Hret.
  { intros id e He. by apply map_lookup_filter_Some in He as [He _]. }
  intros id t u c. destruct o as [i v|i v|i v]; simpl.
  - unfold insert_pending_switch_sides_uuid. case_bool_decide; simpl.
    + intros Hid%Hret. by apply Hlater.
    + intros [[<- [= <- <- <-]]|[Hne Hid%Hret]]%lookup_insert_Some; [|by apply Hlater].
      exists [], h. split; [done|constructor].
  - intros Hid%Hret. by apply Hlater.
  - unfold claim_pending_switch_sides_uuid.
    destruct (retain_pending m now !! i) as [[[t' v'] c']|] eqn:Hi; simpl.
    + case_match; simpl; [|intros Hid%Hret; by apply Hlater].
      intros [[<- [= <- <- <-]]|[Hne Hid%Hret]]%lookup_insert_Some; [done|by apply Hlater].
    + intros Hid%Hret. by apply Hlater.
Qed.

Lemma claim_since m h now id u :
  (∀ id t u c, m !! id = Some (t, u, c) → pending_since h id t u c) →
  (claim_pending_switch_sides_uuid m now id u).2 = true →
  ∃ t, pending_since h id t u false ∧ now - t < SWITCH_SIDES_UUID_TTL.
Proof.
  intros IH. unfold claim_pending_switch_sides_uuid.
  destruct (retain_pending m now !! id) as [[[t v] c]|] eqn:Hid; [|done].
  case_match eqn:Hc; [|done]. intros _. apply andb_true_iff in Hc as [->%bool_decide_eq_true Hc].
  apply negb_true_iff in Hc as ->. apply map_lookup_filter_Some in Hid as [Hid Ht]. simpl in Ht.
  exists t. split; [by apply (IH _ _ _ _ Hid)|lia].
Qed.
(** The state before the [k]th operation, with the answered operations so far. *)
Lemma answers_at {M O} (step : M → Z → O → M * bool) (P : M → list (Z * O * bool) → Prop) :
  (∀ m h now o, P m h → P (step m now o).1 ((now, o, (step m now o).2) :: h)) →
  ∀ ops m h k now o b, P m h → answers step m ops !! k = Some (now, o, b) →
    ∃ m', P m' (reverse (take k (answers step m ops)) ++ h) ∧ (step m' now o).2 = b.
Proof.
  intros Hstep ops. induction ops as [|[t p] ops IH]; intros m h k now o b Hm Hk; simpl in Hk.
  { by rewrite lookup_nil in Hk. }
  specialize (Hstep m h t p Hm). simpl. destruct (step m t p) as [m' c] eqn:Hs. simpl in Hstep.
  destruct k as [|k]; simpl in *.
  - injection Hk as -> -> ->. exists m. by rewrite Hs.
  - destruct (IH m' _ k now o b Hstep Hk) as (m2 & H2 & ?). exists m2. split; [|done].
    by rewrite reverse_cons, <- app_assoc.
Qed.

(** From a split of the reversed past to positions. *)
Lemma past_position {A} (l : list A) k suf e pre :
  reverse (take k l) = suf ++ e :: pre →
  ∃ j, (j < k)%nat ∧ l !! j = Some e ∧ ∀ i x, (j < i < k)%nat → l !! i = Some x → x ∈ suf.
Proof.
  intros Heq. apply (f_equal reverse) in Heq. rewrite reverse_involutive, reverse_app, reverse_cons in Heq.
  rewrite <- app_assoc in Heq. simpl in Heq. exists (length pre).
  assert (length (take k l) <= k)%nat as Hlen by (rewrite length_take; lia).
  rewrite Heq, length_app, length_reverse in Hlen. simpl in Hlen.
  assert (∀ i, (i < k)%nat → l !! i = take k l !! i) as Hl by (intros; by rewrite lookup_take_lt).
  split_and!; [lia| |].
  - rewrite Hl, Heq, lookup_app_r by (rewrite ?length_reverse; lia).
    by rewrite length_reverse, Nat.sub_diag.
  - intros i x Hi. rewrite Hl, Heq, lookup_app_r by (rewrite ?length_reverse; lia).
    rewrite length_reverse. destruct (i - length pre)%nat as [|n] eqn:Hn; [lia|]. simpl.
    intros Hx%list_elem_of_lookup_2. by rewrite elem_of_reverse in Hx.
Qed.
End grants.

(** C34: Grants of a switch of sides are used once. A response is accepted only if
    it names the uuid of the newest grant of its id, given less than ten seconds
    ago and with no response for the id since, right or wrong: a peer has one
    guess per grant. A request is claimed only within ten seconds of its accepted
    insertion, with no claim of the id accepted since, so replaying a request
    launches nothing. *)
Theorem switch_sides_one_shot (ops : list (Z * SwitchSides.grant_op))
    (pops : list (Z * SwitchSides.pending_op)) (k : nat) (now : Z) (id : str) (u : Z) :
  (SwitchSides.answers SwitchSides.grant_step ∅ ops !! k = Some (now, SwitchSides.Respond id u, true) →
   ∃ j t b, (j < k)%nat
     ∧ SwitchSides.answers SwitchSides.grant_step ∅ ops !! j = Some (t, SwitchSides.Insert id u, b)
     ∧ now - t < SWITCH_SIDES_UUID_TTL
     ∧ ∀ i x, (j < i < k)%nat → SwitchSides.answers SwitchSides.grant_step ∅ ops !! i = Some x →
         ¬ on_grant id x.1.2)
  ∧ (SwitchSides.answers SwitchSides.pending_step ∅ pops !! k = Some (now, SwitchSides.PClaim id u, true) →
   ∃ j t, (j < k)%nat
     ∧ SwitchSides.answers SwitchSides.pending_step ∅ pops !! j = Some (t, SwitchSides.PInsert id u, true)
     ∧ now - t < SWITCH_SIDES_UUID_TTL
     ∧ ∀ i x, (j < i < k)%nat → SwitchSides.answers SwitchSides.pending_step ∅ pops !! i = Some x →
         on_pending id x.1.2 → x.2 = false).
Proof.
  split; intros Hk.
  - apply (answers_at SwitchSides.grant_step
      (λ m h, ∀ id t u, m !! id = Some (t, u) → granted h id t u)) with (h := []) in Hk
      as (m & Hm & Ha); [|intros; by eapply grant_step_granted|intros ? ? ?; by rewrite lookup_empty].
    rewrite app_nil_r in Hm. destruct (response_granted m _ now id u Hm Ha) as (t & (suf & pre & b & Hs & Hf) & Ht).
    destruct (past_position _ _ _ _ _ Hs) as (j & Hj & Hjt & Hbetween).
    exists j, t, b. split_and!; [done..|]. intros i x Hi Hx.
    rewrite Forall_forall in Hf. by eapply Hf, Hbetween.
  - apply (answers_at SwitchSides.pending_step
      (λ m h, ∀ id t u c, m !! id = Some (t, u, c) → pending_since h id t u c)) with (h := []) in Hk
      as (m & Hm & Ha); [|intros; by eapply pending_step_since|intros ? ? ? ?; by rewrite lookup_empty].
    rewrite app_nil_r in Hm. destruct (claim_since m _ now id u Hm Ha) as (t & (suf & pre & Hs & Hf) & Ht).
    destruct (past_position _ _ _ _ _ Hs) as (j & Hj & Hjt & Hbetween).
    exists j, t. split_and!; [done..|]. intros i x Hi Hx.
    rewrite Forall_forall in Hf. by eapply Hf, Hbetween.
Qed.

Lemma switch_sides_one_shot_witness :
  let ops := [(0, SwitchSides.Insert [] 5); (9999, SwitchSides.Respond [] 5);
              (9999, SwitchSides.Respond [] 5)] in
  (SwitchSides.answers SwitchSides.grant_step ∅ ops).*2 = [false; true; false]
  ∧ ∃ j, (j < 1)%nat.
Proof.
  cbv zeta. split; [vm_compute; reflexivity|].
  destruct (switch_sides_one_shot [(0, SwitchSides.Insert [] 5); (9999, SwitchSides.Respond [] 5);
              (9999, SwitchSides.Respond [] 5)] [] 1%nat 9999 [] 5) as [H _].
  destruct H as (j & _ & _ & Hj & _); [vm_compute; reflexivity|]. exists j. exact Hj.
Defined.
