(* ===== verification/Paths.v ===== *)
(** * Paths and files

    What the source uses of [std::path] and [std::fs] on Unix: components,
    parents and joins of paths, and a store of named files whose open handles
    survive renames. *)
From S2P Require Import Prelude.
Local Open Scope Z_scope.

(** ** Components *)
Inductive component := Prefix (s : str) | RootDir | CurDir | ParentDir | Normal (s : str).
#[export] Instance component_eq_dec : EqDecision component.
Proof. solve_decision. Defined.
#[export] Instance component_countable : Countable component.
Proof.
  refine (inj_countable'
    (λ c, match c with
          | Prefix s => (0%nat, s) | RootDir => (1%nat, []) | CurDir => (2%nat, [])
          | ParentDir => (3%nat, []) | Normal s => (4%nat, s) end)
    (λ p, match p.1 with
          | 0%nat => Prefix p.2 | 1%nat => RootDir | 2%nat => CurDir | 3%nat => ParentDir
          | _ => Normal p.2 end) _).
  by intros [].
Defined.

Definition removable (c : component) : bool :=
  match c with Normal _ | CurDir | ParentDir => true | Prefix _ | RootDir => false end.
(** [Path::parent] *)
Definition parent (p : list component) : option (list component) :=
  match reverse p with
  | c :: rest => if removable c then Some (reverse rest) else None
  | [] => None
  end.

Lemma parent_app p q : parent p = Some q → ∃ c, p = q ++ [c].
Proof.
  unfold parent. destruct (reverse p) as [|c rest] eqn:Hr; [done|]. case_match; [|done].
  intros [= <-]. exists c. rewrite <- reverse_cons, <- Hr. by rewrite reverse_involutive.
Qed.

(** ** Unix paths *)
Definition slash : char := chr "/".
Definition piece (s : str) : option component :=
  if bool_decide (s = []) then None
  else if bool_decide (s = lit ".") then None
  else if bool_decide (s = lit "..") then Some ParentDir
  else Some (Normal s).

(** [Path::components]: repeated separators and inner dots vanish. *)
Definition components (s : str) : list component :=
  (if starts_with s [slash] then [RootDir]
   else if bool_decide (head (split_on slash s) = Some (lit ".")) then [CurDir] else [])
  ++ omap piece (split_on slash s).

(** [PathBuf::push] *)
Definition push (base name : str) : str :=
  if starts_with name [slash] then name
  else if bool_decide (base = []) || bool_decide (last base = Some slash) then base ++ name
  else base ++ slash :: name.

Example components_ok :
  components (lit "/a//./b/..") = [RootDir; Normal (lit "a"); Normal (lit "b"); ParentDir]
  ∧ components (lit "./a/") = [CurDir; Normal (lit "a")] ∧ components [] = [].
Proof. by vm_compute. Qed.

Lemma split_on_app c s t : split_on c (s ++ c :: t) = split_on c s ++ split_on c t.
Proof.
  unfold split_on. induction s as [|d s IH]; simpl; [by rewrite N.eqb_refl|].
  destruct (c =? d)%N; [by rewrite IH|]. rewrite IH.
  pose proof (split_by_nonempty (N.eqb c) s). by destruct (split_by (N.eqb c) s).
Qed.

Lemma split_on_head c s t : head (split_on c (s ++ c :: t)) = head (split_on c s).
Proof.
  rewrite split_on_app. unfold split_on.
  pose proof (split_by_nonempty (N.eqb c) s). by destruct (split_by (N.eqb c) s).
Qed.

Lemma starts_slash s : starts_with s [slash] = true ↔ head s = Some slash.
Proof.
  rewrite starts_with_spec. split; [by intros (t & ->)|].
  destruct s as [|c s]; [done|]. intros [= ->]. by exists s.
Qed.

Lemma components_app s t :
  s ≠ [] → components (s ++ slash :: t) = components s ++ omap piece (split_on slash t).
Proof.
  intros Hs. unfold components. rewrite split_on_head, split_on_app, omap_app, app_assoc. f_equal.
  f_equal. destruct s as [|c s]; [done|].
  assert (starts_with ((c :: s) ++ slash :: t) [slash] = starts_with (c :: s) [slash]) as ->; [|done].
  apply eq_true_iff_eq. by rewrite !starts_slash.
Qed.

(** A relative name is appended component by component. *)
Lemma components_push base name :
  base ≠ [] → starts_with name [slash] = false →
  components (push base name) = components base ++ omap piece (split_on slash name).
Proof.
  intros Hb Hn. unfold push. rewrite Hn, bool_decide_false by done. simpl.
  case_bool_decide as Hl; [|by apply components_app].
  apply last_Some in Hl as [b ->]. rewrite <- app_assoc. simpl.
  destruct b as [|c b].
  - assert (∀ t, components (slash :: t) = RootDir :: omap piece (split_on slash t)) as Hroot.
    { intros t. unfold components. rewrite (proj2 (starts_slash (slash :: t))) by done. done. }
    simpl. by rewrite !Hroot.
  - rewrite components_app by done. rewrite components_app by done. rewrite <- app_assoc. f_equal.
Qed.

(** ** Files *)
Abbreviation path := (list component) (only parsing).
Record store := mk_store {
  names : gmap path N;           (* which file a path names *)
  inodes : gmap N bytes;
  next_inode : N
}.
#[export] Instance store_eta : Eta store := λ s, mk_store (names s) (inodes s) (next_inode s).

Definition content (s : store) (p : path) : option bytes := i ← names s !! p; inodes s !! i.
Definition exists_file (s : store) (p : path) : bool := bool_decide (is_Some (names s !! p)).

(** [File::create]: empties the file there is, or makes one. *)
Definition create (s : store) (p : path) : store * N :=
  match names s !! p with
  | Some i => (s <| inodes ::= <[i := []]> |>, i)
  | None => let i := next_inode s in
            (mk_store (<[p := i]> (names s)) (<[i := []]> (inodes s)) (N.succ i), i)
  end.

Definition overwrite (old : bytes) (pos : nat) (data : bytes) : bytes :=
  take pos old ++ replicate (pos - length old) Byte.x00 ++ data ++ drop (pos + length data) old.
Definition write_at (s : store) (i : N) (pos : nat) (data : bytes) : store :=
  s <| inodes ::= <[i := overwrite (default [] (inodes s !! i)) pos data]> |>.

Definition remove_name (s : store) (p : path) : store := s <| names ::= delete p |>.
Definition rename (s : store) (a b : path) : store :=
  match names s !! a with
  | Some i => s <| names ::= λ m, <[b := i]> (delete a m) |>
  | None => s
  end.

Lemma overwrite_end old data : overwrite old (length old) data = old ++ data.
Proof.
  unfold overwrite. rewrite firstn_all, Nat.sub_diag, drop_ge by lia. simpl. by rewrite app_nil_r.
Qed.

(** ** Stores without aliases *)
Record store_ok (s : store) : Prop := {
  names_distinct : ∀ p q i, names s !! p = Some i → names s !! q = Some i → p = q;
  names_used : ∀ p i, names s !! p = Some i → (i < next_inode s)%N;
  names_live : ∀ p i, names s !! p = Some i → is_Some (inodes s !! i)
}.

(** Only the paths [P] are touched. *)
Definition touches (P : path → Prop) (s s' : store) : Prop :=
  store_ok s' ∧ ∀ q, ¬ P q → names s' !! q = names s !! q ∧ content s' q = content s q.

Lemma touches_refl P s : store_ok s → touches P s s.
Proof. by split. Qed.
Lemma touches_trans P s1 s2 s3 : touches P s1 s2 → touches P s2 s3 → touches P s1 s3.
Proof.
  intros [_ H1] [Hok H2]. split; [done|]. intros q Hq.
  destruct (H1 q Hq) as [<- <-]. by apply H2.
Qed.
Lemma touches_weaken (P Q : path → Prop) s s' : (∀ q, P q → Q q) → touches P s s' → touches Q s s'.
Proof. intros HPQ [Hok H]. split; [done|]. intros q Hq. apply H. auto. Qed.

Lemma create_spec s p : store_ok s →
  let '(s', i) := create s p in
  touches (eq p) s s' ∧ names s' !! p = Some i ∧ content s' p = Some [].
Proof.
  intros [Hd Hu Hl]. unfold create, content. destruct (names s !! p) as [i|] eqn:Hi; simpl.
  - split; [|split; [done|by rewrite Hi; simpl; rewrite lookup_insert_eq]].
    split; [split; simpl; [done..|]; intros q k Hk; apply lookup_insert_is_Some'; eauto|]. intros q Hq. split; [done|]. unfold content. simpl.
    destruct (names s !! q) as [k|] eqn:Hk; [|done]. simpl.
    rewrite lookup_insert_ne; [done|]. intros <-. by apply Hq, (Hd _ _ i).
  - split; [|by rewrite lookup_insert_eq; simpl; rewrite lookup_insert_eq]. split.
    + split; simpl.
      * intros q r k. rewrite !lookup_insert_Some.
        intros [[<- <-]|[_ Hq]] [[<- E]|[_ Hr]]; try done.
        -- apply Hu in Hr. lia.
        -- subst. apply Hu in Hq. lia.
        -- eauto.
      * intros q k. rewrite lookup_insert_Some. intros [[_ <-]|[_ Hq%Hu]]; lia.
      * intros q k. rewrite lookup_insert_Some, lookup_insert_is_Some'. intros [[_ <-]|[_ Hq]]; eauto.
    + intros q Hq. unfold content. simpl. rewrite lookup_insert_ne by done. split; [done|].
      destruct (names s !! q) as [k|] eqn:Hk; [|done]. simpl. rewrite lookup_insert_ne; [done|].
      apply Hu in Hk. lia.
Qed.

Lemma write_at_spec s p i pos b : store_ok s → names s !! p = Some i →
  touches (eq p) s (write_at s i pos b)
  ∧ content (write_at s i pos b) p = Some (overwrite (default [] (content s p)) pos b).
Proof.
  intros [Hd Hu Hl] Hi. split; [split|].
  { split; [done..|]. intros q k Hk. apply lookup_insert_is_Some'. eauto. }
  - intros q Hq. split; [done|]. unfold content. simpl. destruct (names s !! q) as [k|] eqn:Hk; [|done].
    simpl. rewrite lookup_insert_ne; [done|]. intros <-. by apply Hq, (Hd _ _ i).
  - unfold content. simpl. rewrite Hi. simpl. by rewrite lookup_insert_eq.
Qed.

Lemma remove_spec s p : store_ok s → touches (eq p) s (remove_name s p).
Proof.
  intros [Hd Hu Hl]. split; [split; simpl|].
  - intros q r k [_ Hq]%lookup_delete_Some [_ Hr]%lookup_delete_Some. eauto.
  - intros q k [_ Hq]%lookup_delete_Some. eauto.
  - intros q k [_ Hq]%lookup_delete_Some. eauto.
  - intros q Hq. unfold content. simpl. by rewrite lookup_delete_ne.
Qed.

Lemma rename_spec s a b : store_ok s →
  touches (λ q, q = a ∨ q = b) s (rename s a b)
  ∧ (is_Some (names s !! a) → content (rename s a b) b = content s a).
Proof.
  intros [Hd Hu Hl]. unfold rename, content. destruct (names s !! a) as [i|] eqn:Hi.
  2: { split; [apply touches_refl; by split|]. by intros [? ?]. }
  split.
  - split; [split; simpl|].
    + intros q r k. rewrite !lookup_insert_Some, !lookup_delete_Some.
      intros [[<- <-]|(_ & N1 & Hq)] [[<- E]|(_ & N2 & Hr)]; try done.
      * by destruct (N2 (Hd _ _ _ Hi Hr)).
      * subst. by destruct (N1 (Hd _ _ _ Hi Hq)).
      * eauto.
    + intros q k. rewrite lookup_insert_Some, lookup_delete_Some. intros [[_ <-]|(_ & _ & Hq)]; eauto.
    + intros q k. rewrite lookup_insert_Some, lookup_delete_Some. intros [[_ <-]|(_ & _ & Hq)]; eauto.
    + intros q Hq. unfold content. simpl. rewrite lookup_insert_ne, lookup_delete_ne; [done|..]; naive_solver.
  - intros _. simpl. by rewrite lookup_insert_eq.
Qed.
