(* ===== verification/FileRemoveLog.v ===== *)
(** * The log of removed files

    [FileRemoveLogControl] of [src/src/server/connection.rs]: removals are told
    to the connection manager at once, and what is left of them again once
    nothing was removed for a second, so that it can be summed up. *)
From S2P Require Import Prelude Paths.
Local Open Scope Z_scope.

(** How text parses into path components is the platform's, an argument here;
    parents and equality are taken on components. *)
Record FileRemoveFile := mk_file { file_id : Z; file_path : str }.
Record FileRemoveDir := mk_dir { dir_id : Z; dir_path : str }.
(** The entry sent: [FileActionLog], before it is written as JSON. *)
Record FileActionLog := mk_log { log_id : Z; log_conn_id : Z; log_path : str; log_dir : bool }.

Record FileRemoveLogControl := mk {
  conn_id : Z;
  instant : Z;      (* milliseconds *)
  removed_files : list FileRemoveFile;
  removed_dirs : list FileRemoveDir
}.
#[export] Instance control_eta : Eta FileRemoveLogControl := λ c,
  mk (conn_id c) (instant c) (removed_files c) (removed_dirs c).
Definition new (conn_id now : Z) : FileRemoveLogControl := mk conn_id now [] [].

Section control.
Context (components : str → list component).

Definition direct_child (p child : str) : bool :=
  bool_decide (parent (components child) = Some (components p)).

Definition log_file (c : FileRemoveLogControl) (f : FileRemoveFile) : FileActionLog :=
  mk_log (file_id f) (conn_id c) (file_path f) false.
Definition log_of_dir (c : FileRemoveLogControl) (d : FileRemoveDir) : FileActionLog :=
  mk_log (dir_id d) (conn_id c) (dir_path d) true.

Definition on_remove_file (c : FileRemoveLogControl) (now : Z) (f : FileRemoveFile)
    : FileRemoveLogControl * FileActionLog :=
  (c <| instant := now |> <| removed_files ::= λ l, l ++ [f] |>, log_file c f).

Definition on_remove_dir (c : FileRemoveLogControl) (now : Z) (d : FileRemoveDir)
    : FileRemoveLogControl * FileActionLog :=
  let c := c <| instant := now |> in
  let c := c <| removed_files ::= filter (λ f, direct_child (file_path f) (dir_path d) = false) |> in
  let c := c <| removed_dirs ::= filter (λ x, direct_child (dir_path d) (dir_path x) = false) |> in
  let c := if existsb (λ x, direct_child (dir_path x) (dir_path d)) (removed_dirs c) then c
           else c <| removed_dirs ::= λ l, l ++ [d] |> in
  (c, log_of_dir c d).

Definition on_timer (c : FileRemoveLogControl) (now : Z) : FileRemoveLogControl * list FileActionLog :=
  if Z.max 0 (now - instant c) / 1000 <? 1 then (c, [])
  else (c <| removed_files := [] |> <| removed_dirs := [] |>,
        (log_file c <$> removed_files c) ++ (log_of_dir c <$> removed_dirs c)).

(** ** Histories *)
Inductive op := RemoveFile (f : FileRemoveFile) | RemoveDir (d : FileRemoveDir) | Timer.
Definition step (c : FileRemoveLogControl) (now : Z) (o : op) : FileRemoveLogControl * list FileActionLog :=
  match o with
  | RemoveFile f => let '(c, l) := on_remove_file c now f in (c, [l])
  | RemoveDir d => let '(c, l) := on_remove_dir c now d in (c, [l])
  | Timer => on_timer c now
  end.
Definition run (c : FileRemoveLogControl) (ops : list (Z * op)) : FileRemoveLogControl :=
  foldl (λ c x, (step c x.1 x.2).1) c ops.

(** No directory kept is directly inside another one kept. *)
Definition collapsed (c : FileRemoveLogControl) : Prop :=
  ∀ x y, x ∈ removed_dirs c → y ∈ removed_dirs c → direct_child (dir_path x) (dir_path y) = false.

Lemma direct_child_irrefl p : direct_child p p = false.
Proof.
  apply bool_decide_eq_false. intros [c Hc]%parent_app.
  apply (f_equal length) in Hc. rewrite length_app in Hc. simpl in Hc. lia.
Qed.

Lemma remove_dir_collapsed c now d : collapsed c → collapsed (on_remove_dir c now d).1.
Proof.
  intros Hc. unfold on_remove_dir. cbv zeta. simpl.
  set (l := filter (λ x, direct_child (dir_path d) (dir_path x) = false) (removed_dirs c)).
  assert (∀ x, x ∈ l → x ∈ removed_dirs c ∧ direct_child (dir_path d) (dir_path x) = false) as Hl.
  { intros x [? ?]%list_elem_of_filter. done. }
  destruct (existsb _ l) eqn:He; unfold collapsed; simpl; fold l; intros x y Hx Hy.
  - apply Hc; [by apply Hl in Hx as [? _]|by apply Hl in Hy as [? _]].
  - assert (∀ x, x ∈ l → direct_child (dir_path x) (dir_path d) = false) as Hn.
    { intros z Hz. destruct (direct_child (dir_path z) (dir_path d)) eqn:Hzd; [|done].
      assert (existsb (λ x, direct_child (dir_path x) (dir_path d)) l = true) as Ht; [|congruence].
      apply existsb_exists. exists z. by rewrite <- list_elem_of_In. }
    apply elem_of_app in Hx as [Hx| ->%list_elem_of_singleton],
      Hy as [Hy| ->%list_elem_of_singleton].
    + apply Hc; [by apply Hl in Hx as [? _]|by apply Hl in Hy as [? _]].
    + by apply Hn.
    + by apply Hl in Hy as [_ ?].
    + apply direct_child_irrefl.
Qed.

Lemma step_collapsed c now o : collapsed c → collapsed (step c now o).1.
Proof.
  intros Hc. destruct o as [f|d|]; simpl.
  - exact Hc.
  - by apply (remove_dir_collapsed c now d) in Hc.
  - unfold on_timer. case_match; [done|]. intros x y Hx. by apply not_elem_of_nil in Hx.
Qed.

Lemma run_collapsed ops : ∀ c, collapsed c → collapsed (run c ops).
Proof.
  induction ops as [|[now o] ops IH]; intros c Hc; simpl; [done|]. by apply IH, step_collapsed.
Qed.
End control.

(** In any history the removed directories kept for the summary never include
    one directly inside another, and a quiet second hands over everything kept.
    The files of a removed directory stay: removing the directory that a kept
    file lies in does not drop the file. *)
Theorem removed_dirs_collapse (components : str → list component) (id start : Z) (ops : list (Z * op)) :
  let c := run components (new id start) ops in
  (∀ x y, x ∈ removed_dirs c → y ∈ removed_dirs c →
     direct_child components (dir_path x) (dir_path y) = false)
  ∧ (∀ now, instant c + 1000 <= now →
       on_timer c now = (c <| removed_files := [] |> <| removed_dirs := [] |>,
         (log_file c <$> removed_files c) ++ (log_of_dir c <$> removed_dirs c)))
  ∧ ∀ now f d, f ∈ removed_files c → direct_child components (dir_path d) (file_path f) = true →
       f ∈ removed_files (on_remove_dir components c now d).1.
Proof.
  cbv zeta. set (c := run _ _ _). split_and!.
  - apply run_collapsed. intros x y Hx. by apply not_elem_of_nil in Hx.
  - intros now Hn. unfold on_timer. destruct (Z.ltb_spec (Z.max 0 (now - instant c) / 1000) 1) as [Hlt|]; [|done].
    assert (1 <= Z.max 0 (now - instant c) / 1000) by (apply Z.div_le_lower_bound; lia). lia.
  - intros now f d Hf Hd. unfold on_remove_dir. cbv zeta. simpl.
    assert (f ∈ filter (λ f, direct_child components (file_path f) (dir_path d) = false)
              (removed_files c)) as Hkeep.
    { apply list_elem_of_filter. split; [|done]. apply bool_decide_eq_false. intros [x Hx]%parent_app.
      apply bool_decide_eq_true, parent_app in Hd as [y Hy].
      apply (f_equal length) in Hx, Hy. rewrite length_app in Hx, Hy. simpl in Hx, Hy. lia. }
    by case_match.
Qed.

(** A file in a removed directory is told of again at the end of the second. *)
Example child_told_again :
  let c := run components (new 1 0)
    [(0, RemoveFile (mk_file 1 (lit "a/f"))); (0, RemoveDir (mk_dir 1 (lit "a/b")));
     (0, RemoveDir (mk_dir 1 (lit "a")))] in
  (on_timer c 1000).2 = [mk_log 1 1 (lit "a/f") false; mk_log 1 1 (lit "a") true].
Proof. vm_compute. reflexivity. Qed.
