(* ===== verification/FileTransfer.v ===== *)
(** * File transfer jobs

    [src/libs/base/src/fs.rs]: validation of the names a peer sends, and the
    jobs that read files into blocks and write blocks into files. Paths are
    Unix paths; what the operating system answers is an argument. *)
From S2P Require Import Prelude Paths.
Local Open Scope Z_scope.

(** ** Names *)
Definition nul : char := 0%N.
Definition is_ascii_alphabetic (c : char) : bool :=
  (((65 <=? c) && (c <=? 90)) || ((97 <=? c) && (c <=? 122)))%N.

Definition get_ext (name : str) : str :=
  match reverse (split_on (chr ".") name) with
  | ext :: _ :: _ => ext
  | _ => []
  end.
Definition compressed_exts : list str :=
  lit <$> ["xz"; "gz"; "zip"; "7z"; "rar"; "bz2"; "tgz"; "png"; "jpg"].
Definition is_compressed_file (name : str) : bool := bool_decide (get_ext name ∈ compressed_exts).

(** [windows] is [cfg!(windows)]; the error is its message. *)
Definition validate_file_name_no_traversal (windows : bool) (name : str) : result str unit :=
  let backslash := chr "\" in
  if bool_decide (nul ∈ name) then Err (lit "file name contains null bytes")
  else if bool_decide (lit ".." ∈ split_by (λ c, (slash =? c)%N || (windows && (backslash =? c)%N)) name)
  then Err (lit "path traversal detected in file name")
  else if windows then
    if match name with c :: d :: _ => is_ascii_alphabetic c && (d =? chr ":")%N | _ => false end
    then Err (lit "absolute path detected in file name")
    else if starts_with name [slash] || starts_with name [backslash]
    then Err (lit "absolute path detected in file name") else Ok tt
  else if starts_with name [slash] then Err (lit "absolute path detected in file name") else Ok tt.

Record FileEntry := mk_entry { name : str; size : Z; modified_time : Z }.

Fixpoint validate_names (files : list FileEntry) : result str unit :=
  match files with
  | [] => Ok tt
  | file :: files' =>
      if bool_decide (name file = []) then Err (lit "empty file name in multi-file transfer")
      else match validate_file_name_no_traversal false (name file) with
           | Ok _ => validate_names files'
           | Err e => Err e
           end
  end.
Definition validate_transfer_file_names (files : list FileEntry) : result str unit :=
  match files with
  | [file] => if bool_decide (name file = []) then Ok tt else validate_names files
  | _ => validate_names files
  end.

(** [symlink_metadata] *)
Inductive Meta := NotSymlink | Symlink | NotFound | MetaError.

Fixpoint no_symlink (meta : path → Meta) (current : path) (cs : list component) : result str unit :=
  match cs with
  | [] => Ok tt
  | Normal seg :: cs' =>
      let current := current ++ [Normal seg] in
      match meta current with
      | Symlink => Err (lit "symlink path component is not allowed")
      | MetaError => Err (lit "failed to validate path component")
      | NotSymlink | NotFound => no_symlink meta current cs'
      end
  | CurDir :: cs' => no_symlink meta current cs'
  | _ => Err (lit "invalid file name component")
  end.
Definition validate_no_symlink_components (meta : path → Meta) (base name : str) : result str unit :=
  if bool_decide (name = []) then Ok tt else no_symlink meta (components base) (components name).

Definition join (p name : str) : str := if bool_decide (name = []) then p else push p name.

Definition join_validated_path (meta : path → Meta) (base name : str) : result str str :=
  match validate_file_name_no_traversal false name with
  | Err e => Err e
  | Ok _ =>
      match validate_no_symlink_components meta base name with
      | Err e => Err e
      | Ok _ => Ok (join base name)
      end
  end.

(** ** Jobs *)
Inductive JobType := Generic | Printer.
#[export] Instance JobType_eq_dec : EqDecision JobType.
Proof. solve_decision. Defined.
Inductive DataSource := FilePath (p : str) | MemoryCursor (b : bytes).
(** An open file is its inode, a position and whether it may be written. *)
Inductive DataStream :=
| FileStream (inode : N) (pos : nat) (writable : bool)
| BufStream (buf : bytes) (pos : nat).
Record FileDigest := mk_digest { digest_size : Z; digest_modified : Z }.

Record TransferJob := mk_job {
  id : Z;
  type : JobType;
  data_source : DataSource;
  is_last_job : bool;
  is_resume : bool;
  file_num : Z;
  files : list FileEntry;
  data_stream : option DataStream;
  total_size : Z;
  finished_size : Z;
  transferred : Z;
  enable_overwrite_detection : bool;
  file_confirmed : bool;
  file_skipped : bool;
  file_is_waiting : bool;
  default_overwrite_strategy : option bool;
  digest : FileDigest
}.
#[export] Instance TransferJob_eta : Eta TransferJob := λ j,
  mk_job (id j) (type j) (data_source j) (is_last_job j) (is_resume j) (file_num j) (files j)
    (data_stream j) (total_size j) (finished_size j) (transferred j)
    (enable_overwrite_detection j) (file_confirmed j) (file_skipped j) (file_is_waiting j)
    (default_overwrite_strategy j) (digest j).

Record FileTransferBlock := mk_block {
  blk_id : Z; blk_file_num : Z; data : bytes; compressed : bool
}.
Inductive Confirm := Skip (s : bool) | OffsetBlk (offset : Z) | NoConfirm.

(** What the system answers in one operation. A failed write still wrote some
    bytes first. *)
Record os := mk_os {
  meta : path → Meta;
  create_ok : path → bool;
  open_ok : path → bool;
  remove_ok : path → bool;
  rename_ok : bool;
  sync_ok : bool;
  seek_ok : bool;
  digest_written : bool;
  write_fails : option nat
}.

Definition as_usize (z : Z) : Z := z mod 2 ^ 64.

Definition suffix_download : str := lit ".download".
Definition suffix_digest : str := lit ".digest".

Definition nth_file (j : TransferJob) : option FileEntry := files j !! Z.to_nat (as_usize (file_num j)).

Definition new_write (id : Z) (t : JobType) (src : DataSource) (file_num : Z)
    (enable_overwrite_detection : bool) : TransferJob :=
  mk_job id t src false false file_num [] None 0 0 0 enable_overwrite_detection false false false
    None (mk_digest 0 0).

Definition total (files : list FileEntry) : Z := foldl (λ a f, Int.wrap_u64 (a + size f)) 0 files.

(** [listing] is what [get_recursive_files] answers. *)
Definition new_read (id : Z) (t : JobType) (src : DataSource) (listing : result str (list FileEntry))
    (file_num : Z) (enable_overwrite_detection : bool) : result str TransferJob :=
  match (match src with
         | FilePath _ => match listing with Ok files => Ok (files, total files) | Err e => Err e end
         | MemoryCursor c => Ok ([], Z.of_nat (length c))
         end : result str (list FileEntry * Z)) with
  | Err e => Err e
  | Ok (files, total_size) =>
      Ok (mk_job id t src false false file_num files None total_size 0 0 enable_overwrite_detection
            false false false None (mk_digest 0 0))
  end.

Fixpoint first_error (es : list (result str unit)) : option str :=
  match es with
  | [] => None
  | Err e :: _ => Some e
  | Ok _ :: es' => first_error es'
  end.

Section job.
Context (o : os).

Definition set_files (j : TransferJob) (fs : list FileEntry) : result str TransferJob :=
  match validate_transfer_file_names fs with
  | Err e => Err e
  | Ok _ =>
      match match data_source j with
            | FilePath base =>
                first_error ((λ f, validate_no_symlink_components (meta o) base (name f)) <$> fs)
            | MemoryCursor _ => None
            end with
      | Some e => Err e
      | None => Ok (j <| total_size := total fs |> <| files := fs |>)
      end
  end.

Definition set_digest (j : TransferJob) (size modified : Z) : TransferJob :=
  j <| digest := mk_digest size modified |>.

Definition resolve_entry_path (j : TransferJob) (base name : str) : option str :=
  match type j with
  | Generic => match join_validated_path (meta o) base name with Ok p => Some p | Err _ => None end
  | Printer => Some (join base name)
  end.

(** The path of the current file, where the job has one to finish. *)
Definition current_path (j : TransferJob) : option str :=
  match type j, data_source j with
  | Generic, FilePath p =>
      entry ← nth_file j; resolve_entry_path j p (name entry)
  | _, _ => None
  end.

Definition try_remove (s : store) (p : path) : store := if remove_ok o p then remove_name s p else s.

(** Finish the current file: its [.download] takes its name. (The time set on
    it is not modelled.) *)
Definition modify_time (s : store) (j : TransferJob) : store :=
  match current_path j with
  | Some path =>
      let s := try_remove s (components (path ++ suffix_digest)) in
      if rename_ok o then rename s (components (path ++ suffix_download)) (components path) else s
  | None => s
  end.
Definition remove_download_file (s : store) (j : TransferJob) : store :=
  match current_path j with
  | Some path =>
      try_remove (try_remove s (components (path ++ suffix_download))) (components (path ++ suffix_digest))
  | None => s
  end.

Definition set_finished_size_on_resume (j : TransferJob) : TransferJob :=
  if is_resume j && (0 <? file_num j)
  then j <| finished_size := total (take (Z.to_nat (file_num j)) (files j)) |> else j.

(** [write_all]: the store and stream after it, and whether it succeeded. *)
Definition write_all (s : store) (st : DataStream) (buf : bytes) : store * DataStream * bool :=
  match st with
  | FileStream i pos writable =>
      if negb writable then (s, st, false)
      else match write_fails o with
           | None => (write_at s i pos buf, FileStream i (pos + length buf) true, true)
           | Some n => let b := take n buf in
                       (write_at s i pos b, FileStream i (pos + length b) true, false)
           end
  | BufStream b pos => (s, BufStream (overwrite b pos buf) (pos + length buf), true)
  end.

(** *** Writing a block *)
Section write.
Context (decompress : bytes → bytes) (digest_json : FileDigest → bytes).

Definition written (j : TransferJob) (n m : Z) : TransferJob :=
  j <| finished_size := Int.wrap_u64 (finished_size j + n) |>
    <| transferred := Int.wrap_u64 (transferred j + m) |>.

(** The second half of [write]: the data goes to the stream there is. *)
Definition write_data (s : store) (j : TransferJob) (b : FileTransferBlock)
    : store * TransferJob * option str :=
  let buf := if compressed b then decompress (data b) else data b in
  match data_stream j with
  | None => (s, j, Some (if compressed b then lit "data stream is None" else lit "file is None"))
  | Some st =>
      let '(s, st, ok) := write_all s st buf in
      let j := j <| data_stream := Some st |> in
      if ok then (s, written j (Z.of_nat (length buf)) (Z.of_nat (length (data b))), None)
      else (s, j, Some (lit "write failed"))
  end.

(** The file the next block goes to, created anew. *)
Definition open_next (s : store) (j : TransferJob) (base : str) (entry : FileEntry)
    : store * TransferJob * option str :=
  match (match type j with
         | Printer => Ok (base, None)
         | Generic =>
             match join_validated_path (meta o) base (name entry) with
             | Ok p => Ok (p ++ suffix_download, Some (p ++ suffix_digest))
             | Err e => Err e
             end
         end : result str (str * option str)) with
  | Err e => (s, j, Some e)
  | Ok (path, digest_path) =>
      let stale := match digest_path with
                   | Some dp => exists_file s (components dp)
                   | None => false
                   end in
      let dpath := default [] (components <$> digest_path) in
      if stale && negb (remove_ok o dpath) then (s, j, Some (lit "remove failed"))
      else
        let s := if stale then remove_name s dpath else s in
        if negb (create_ok o (components path)) then (s, j, Some (lit "create failed"))
        else
          let '(s, i) := create s (components path) in
          let j := j <| data_stream := Some (FileStream i 0 true) |> in
          let s := match digest_path with
                   | Some dp =>
                       if digest_written o then
                         let '(s, d) := create s (components dp) in
                         write_at s d 0 (digest_json (digest j))
                       else s
                   | None => s
                   end in
          (s, j, None)
  end.

Definition write (s : store) (j : TransferJob) (b : FileTransferBlock)
    : store * TransferJob * option str :=
  if negb (blk_id b =? id j) then (s, j, Some (lit "Wrong id"))
  else match data_source j with
  | FilePath base =>
      let num := as_usize (blk_file_num b) in
      match files j !! Z.to_nat num with
      | None => (s, j, Some (lit "Wrong file number"))
      | Some entry =>
          if negb (num =? as_usize (file_num j)) || bool_decide (data_stream j = None) then
            let s := modify_time s j in
            let open_file := match data_stream j with Some (FileStream _ _ _) => true | _ => false end in
            if open_file && negb (sync_ok o) then (s, j, Some (lit "sync failed"))
            else
              let j := j <| file_num := blk_file_num b |> in
              let '(s, j, e) := open_next s j base entry in
              match e with
              | Some e => (s, j, Some e)
              | None => write_data s j b
              end
          else write_data s j b
      end
  | MemoryCursor c =>
      let j := match data_stream j with
               | None => j <| data_stream := Some (BufStream c 0) |>
               | Some _ => j
               end in
      write_data s j b
  end.
End write.
End job.

(** ** Reading *)
Definition BUF_SIZE : Z := 128 * 1024.

Section read.
Context (o : os).

(** [file_num += 1] with the stream dropped and nothing confirmed. *)
Definition next_file (j : TransferJob) : TransferJob :=
  j <| file_num := Int.wrap_i32 (file_num j + 1) |> <| data_stream := None |>
    <| file_confirmed := false |> <| file_is_waiting := false |>.

(** The stream of the current file; [Ok true]: the job is done. *)
Definition open_data_stream (s : store) (j : TransferJob) : TransferJob * result str bool :=
  match data_source j with
  | FilePath p =>
      match nth_file j with
      | None => (j <| data_stream := None |>, Ok true)
      | Some entry =>
          match data_stream j with
          | Some _ => (j, Ok false)
          | None =>
              let path := components (join p (name entry)) in
              match names s !! path with
              | Some i =>
                  if open_ok o path then
                    (j <| data_stream := Some (FileStream i 0 false) |> <| file_confirmed := false |>
                       <| file_is_waiting := false |>, Ok false)
                  else (next_file j, Err (lit "open failed"))
              | None => (next_file j, Err (lit "open failed"))
              end
          end
      end
  | MemoryCursor c =>
      (match data_stream j with
       | None => j <| data_source := MemoryCursor [] |> <| data_stream := Some (BufStream c 0) |>
       | Some _ => j
       end, Ok false)
  end.

(** Whether [init_data_stream] sends the digest of the current file and waits
    for it to be confirmed. The answer [digest_of] is the time and size read
    from the open file. *)
Definition init_data_stream (s : store) (j : TransferJob) (digest_of : option (Z * Z))
    : TransferJob * result str (option (Z * Z)) :=
  match open_data_stream s j with
  | (j, Err e) => (j, Err e)
  | (j, Ok true) => (j, Ok None)
  | (j, Ok false) =>
      if bool_decide (type j = Generic) && enable_overwrite_detection j
         && negb (file_confirmed j) && negb (file_is_waiting j)
      then match digest_of with
           | Some d => (j <| file_is_waiting := true |>, Ok (Some d))
           | None => (j, Err (lit "no digest"))
           end
      else (j, Ok None)
  end.

(** One read of a stream: at least one byte, unless it is at its end, and at
    most what there is room for. [None] is an error. *)
Definition read_some (avail : bytes) (room : nat) (answer : nat) : nat :=
  Nat.min (Nat.min (Nat.max 1 answer) room) (length avail).

(** The loop of [read]: the buffer fills until it is full or the stream ends;
    [answers n] is how much the system is ready to give when [n] bytes are in. *)
Fixpoint fill (fuel : nat) (answers : nat → option nat) (avail : bytes) (room offset : nat)
    : option (option nat) :=
  match fuel with
  | O => None
  | S fuel =>
      match answers offset with
      | None => Some None
      | Some a =>
          let n := read_some (drop offset avail) (room - offset) a in
          if (n =? 0)%nat || (offset + n =? room)%nat then Some (Some (offset + n)%nat)
          else fill fuel answers avail room (offset + n)
      end
  end.

Definition stream_rest (s : store) (st : DataStream) : bytes :=
  match st with
  | FileStream i pos _ => drop pos (default [] (inodes s !! i))
  | BufStream b pos => drop pos b
  end.
Definition advance (st : DataStream) (n : nat) : DataStream :=
  match st with
  | FileStream i pos w => FileStream i (pos + n) w
  | BufStream b pos => BufStream b (pos + n)
  end.

(** The name that decides whether compressing is tried. *)
Definition shown_name (j : TransferJob) : option (option FileEntry) :=
  match data_source j with
  | FilePath _ => match nth_file j with Some e => Some (Some e) | None => None end
  | MemoryCursor _ => Some None
  end.
Definition file_name_of (p : str) : str :=
  match last (components p) with Some (Normal n) => n | _ => [] end.
Definition block_name (j : TransferJob) (entry : FileEntry) : str :=
  match data_source j with
  | FilePath p =>
      if (length (files j) =? 1)%nat && bool_decide (name entry = []) then file_name_of p else name entry
  | MemoryCursor _ => []
  end.

Context (compress : bytes → bytes).

Definition read (s : store) (j : TransferJob) (answers : nat → option nat)
    : TransferJob * result str (option FileTransferBlock) :=
  if bool_decide (type j = Generic) && enable_overwrite_detection j && negb (file_confirmed j)
  then (j, Ok None)
  else match shown_name j with
  | None => (j <| data_stream := None |>, Ok None)
  | Some entry =>
      let num := file_num j in
      match data_stream j with
      | None => (j, Err (lit "data stream is None"))
      | Some st =>
          let avail := stream_rest s st in
          let room := Z.to_nat BUF_SIZE in
          match default None (fill (S room) answers avail room 0) with
          | None => (next_file j, Err (lit "read failed"))
          | Some offset =>
              let buf := take offset avail in
              if (offset =? 0)%nat then
                match data_source j with
                | MemoryCursor _ => (j <| data_stream := None |>, Ok None)
                | FilePath _ => (next_file j, Ok (Some (mk_block (id j) num [] false)))
                end
              else
                let small := compress buf in
                let comp := match entry with
                            | Some e => negb (is_compressed_file (block_name j e))
                                        && (length small <? length buf)%nat
                            | None => false
                            end in
                let out := if comp then small else buf in
                (j <| data_stream := Some (advance st offset) |>
                   <| finished_size := Int.wrap_u64 (finished_size j + Z.of_nat offset) |>
                   <| transferred := Int.wrap_u64 (transferred j + Z.of_nat (length out)) |>,
                 Ok (Some (mk_block (id j) num out comp)))
          end
      end
  end.
End read.

(** ** Confirmations *)
Definition set_file_confirmed (j : TransferJob) (b : bool) : TransferJob :=
  j <| file_confirmed := b |> <| file_skipped := false |>.
Definition set_file_skipped (j : TransferJob) : TransferJob :=
  next_file (set_file_confirmed (j <| data_stream := None |>) false) <| file_skipped := true |>.
Definition job_skipped (j : TransferJob) : bool := file_skipped j && (length (files j) =? 1)%nat.
Definition job_completed (j : TransferJob) : bool :=
  negb (enable_overwrite_detection j) || (negb (file_confirmed j) && negb (file_is_waiting j)).
Definition job_error (j : TransferJob) : option str :=
  if job_skipped j then Some (lit "skipped") else None.

Section confirm.
Context (o : os).

Definition set_stream_offset (s : store) (j : TransferJob) (num offset : Z) : store * TransferJob :=
  match files j !! Z.to_nat num, data_source j with
  | Some entry, FilePath p =>
      match resolve_entry_path o j p (name entry) with
      | None => (s, j)
      | Some path =>
          let dl := components (path ++ suffix_download) in
          let stream :=
            if exists_file s dl && exists_file s (components (path ++ suffix_digest)) then
              if open_ok o dl then (λ i, FileStream i (Z.to_nat offset) true) <$> names s !! dl else None
            else if open_ok o (components path)
                 then (λ i, FileStream i (Z.to_nat offset) false) <$> names s !! components path
                 else None in
          match stream with
          | Some st =>
              if seek_ok o then
                (s, j <| data_stream := Some st |>
                      <| transferred := Int.wrap_u64 (transferred j + offset) |>
                      <| finished_size := Int.wrap_u64 (finished_size j + offset) |>)
              else (s, j)
          | None => (s, j)
          end
      end
  | _, _ => (s, j)
  end.

Definition confirm (s : store) (j : TransferJob) (num : Z) (c : Confirm) : store * TransferJob :=
  if negb (num =? file_num j) then (s, j)
  else match c with
  | Skip true => (s, set_file_skipped j)
  | Skip false => (s, set_file_confirmed j true)
  | OffsetBlk offset =>
      let j := set_file_confirmed j true in
      if 0 <? offset then set_stream_offset s j (as_usize num) offset else (s, j)
  | NoConfirm => (s, j)
  end.
End confirm.

(** ** Jobs in a list *)
Definition get_job (i : Z) (jobs : list TransferJob) : option TransferJob :=
  snd <$> list_find (λ j, id j = i) jobs.
Definition remove_job (i : Z) (jobs : list TransferJob) : list TransferJob * option TransferJob :=
  match list_find (λ j, id j = i) jobs with
  | Some (k, j) => (delete k jobs, Some j)
  | None => (jobs, None)
  end.

(** ** The life of a writing job

    What the connection manager and the client do with one: the file list is
    set, blocks arrive, a resume is confirmed, and in the end the last file is
    finished or a cancelled one removed. *)
Section writer.
Context (decompress : bytes → bytes) (digest_json : FileDigest → bytes).

Inductive wop :=
| SetFiles (fs : list FileEntry)
| SetDigest (size modified : Z)
| Block (b : FileTransferBlock)
| Confirmed (num : Z) (c : Confirm)
| Done
| CancelWrite.

Definition wstep (o : os) (x : store * TransferJob) (op : wop) : store * TransferJob :=
  let '(s, j) := x in
  match op with
  | SetFiles fs => (s, match set_files o j fs with Ok j' => j' | Err _ => j end)
  | SetDigest size modified => (s, set_digest j size modified)
  | Block b => (write o decompress digest_json s j b).1
  | Confirmed num c => confirm o s j num c
  | Done => (modify_time o s j, j)
  | CancelWrite => (remove_download_file o s j, j)
  end.
Definition wrun (x : store * TransferJob) (ops : list (os * wop)) : store * TransferJob :=
  foldl (λ x op, wstep op.1 x op.2) x ops.
End writer.

(** A system that does what it is asked, with no symbolic links. *)
Definition os_fine : os :=
  mk_os (λ _, NotFound) (λ _, true) (λ _, true) (λ _, true) true true true true None.

(** ** Two transfers that go wrong *)
Section examples.
Definition empty_store : store := mk_store ∅ ∅ 0.
Definition os_cannot_create (p : path) : os :=
  mk_os (λ _, NotFound) (λ q, negb (bool_decide (q = p))) (λ _, true) (λ _, true) true true true true None.
Definition sample_run (o : os) (s : store) (files : list str) (blocks : list FileTransferBlock) : store :=
  (wrun (λ b, b) (λ _, []) (s, new_write 1 Generic (FilePath (lit "/d")) 0 false)
     ((o, SetFiles ((λ n, mk_entry n 0 0) <$> files)) :: ((λ b, (o, Block b)) <$> blocks) ++ [(o, Done)])).1.

(** When the second file cannot be created, its further blocks are appended to
    the first one, which is already complete. *)
Example failed_open_corrupts_previous :
  let s := sample_run (os_cannot_create (components (lit "/d/b.download"))) empty_store
    [lit "a"; lit "b"]
    [mk_block 1 0 (lit_bytes "one") false; mk_block 1 1 (lit_bytes "two") false;
     mk_block 1 1 (lit_bytes "three") false] in
  content s (components (lit "/d/a")) = Some (lit_bytes "onethree").
Proof. vm_compute. reflexivity. Qed.

(** A left-over partial download replaces the file it was for as soon as the
    first block of a new transfer arrives. *)
Example stale_download_promoted :
  let '(s, i) := create empty_store (components (lit "/d/a")) in
  let s := write_at s i 0 (lit_bytes "complete") in
  let '(s, k) := create s (components (lit "/d/a.download")) in
  let s := write_at s k 0 (lit_bytes "part") in
  let j := (new_write 1 Generic (FilePath (lit "/d")) 0 false) <| files := [mk_entry (lit "a") 0 0] |> in
  let s := (write os_fine (λ b, b) (λ _, []) s j (mk_block 1 0 (lit_bytes "new") false)).1.1 in
  content s (components (lit "/d/a")) = Some (lit_bytes "part").
Proof. vm_compute. reflexivity. Qed.
End examples.
