(* ===== verification/TransferFacts.v ===== *)
(** * File transfer, proved

    What a receiving job can touch, and that a whole transfer delivers every
    file. *)
From S2P Require Import Prelude Paths FileTransfer.
Local Open Scope Z_scope.

(** ** Names that were validated *)
Definition normal (c : component) : Prop := match c with Normal _ => True | _ => False end.

Lemma split_by_ext p q s : (∀ c, p c = q c) → split_by p s = split_by q s.
Proof. intros H. induction s as [|c s IH]; simpl; [done|]. by rewrite H, IH. Qed.

Lemma validated_relative nm :
  validate_file_name_no_traversal false nm = Ok tt →
  starts_with nm [slash] = false ∧ lit ".." ∉ split_on slash nm.
Proof.
  unfold validate_file_name_no_traversal. cbv zeta. case_bool_decide; [done|].
  case_bool_decide as Hd; [done|]. destruct (starts_with nm [slash]); [done|]. intros _. split; [done|].
  erewrite (split_by_ext _ (N.eqb slash)) in Hd; [done|]. intros c. simpl. apply orb_false_r.
Qed.

Lemma pieces_normal l : lit ".." ∉ l → Forall normal (omap piece l).
Proof.
  intros Hl. apply Forall_forall. intros c (w & Hw & Hc)%list_elem_of_omap. unfold piece in Hc.
  do 2 (case_bool_decide; [done|]). case_bool_decide; [by subst|]. by injection Hc as <-.
Qed.

(** Text without separators only changes the last piece. *)
Lemma split_on_suffix sep s suf : sep ∉ suf →
  ∃ l w, split_on sep s = l ++ [w] ∧ split_on sep (s ++ suf) = l ++ [w ++ suf].
Proof.
  intros Hs. unfold split_on. induction s as [|c s (l & w & IH1 & IH2)]; simpl.
  - exists [], []. split; [done|]. apply split_by_none, Forall_forall. intros c Hc.
    apply N.eqb_neq. intros E. apply Hs. by rewrite E.
  - destruct (sep =? c)%N.
    + exists ([] :: l), w. by rewrite IH1, IH2.
    + rewrite IH1, IH2. destruct l as [|v l]; simpl.
      * exists [], (c :: w). done.
      * exists ((c :: v) :: l), w. done.
Qed.

Lemma piece_long w : (2 < length w)%nat → ∃ n, piece w = Some (Normal n).
Proof.
  intros Hw. unfold piece. do 3 (case_bool_decide; [by subst; simpl in Hw; lia|]). eauto.
Qed.

(** ** The paths a job may touch *)
Definition inside (base : str) (p : path) : Prop :=
  ∃ ns, p = components base ++ ns ∧ Forall normal ns.
Definition confined (base : str) (p : path) : Prop :=
  inside base p ∨ p = components (base ++ suffix_download) ∨ p = components (base ++ suffix_digest).

#[export] Instance normal_dec c : Decision (normal c).
Proof. destruct c; simpl; apply _. Defined.
#[export] Instance inside_dec base p : Decision (inside base p).
Proof.
  refine (cast_if (decide (take (length (components base)) p = components base
                           ∧ Forall normal (drop (length (components base)) p)))).
  - destruct a as [Ht Hf]. exists (drop (length (components base)) p). split; [|done].
    rewrite <- Ht at 1. by rewrite take_drop.
  - intros (ns & -> & Hns). apply n. by rewrite take_app_length, drop_app_length.
Defined.
#[export] Instance confined_decision base p : Decision (confined base p).
Proof. unfold confined. apply _. Defined.

Lemma join_inside base nm : base ≠ [] → validate_file_name_no_traversal false nm = Ok tt →
  inside base (components (join base nm)).
Proof.
  intros Hb [Hn Hd]%validated_relative. unfold join. case_bool_decide.
  - exists []. by rewrite app_nil_r.
  - rewrite components_push by done. eexists. split; [done|]. by apply pieces_normal.
Qed.

Lemma push_suffix base nm suf : nm ≠ [] → push base nm ++ suf = push base (nm ++ suf).
Proof.
  intros Hn. unfold push.
  assert (starts_with (nm ++ suf) [slash] = starts_with nm [slash]) as ->.
  { apply eq_true_iff_eq. rewrite !starts_slash. by destruct nm. }
  destruct (starts_with nm [slash]); [done|]. case_match; by rewrite <- app_assoc.
Qed.

Lemma join_suffix_confined base nm suf :
  base ≠ [] → validate_file_name_no_traversal false nm = Ok tt →
  suf = suffix_download ∨ suf = suffix_digest →
  confined base (components (join base nm ++ suf)).
Proof.
  intros Hb [Hn Hd]%validated_relative Hsuf. unfold join, confined. case_bool_decide as He.
  - by destruct Hsuf as [-> | ->]; auto.
  - left. rewrite push_suffix by done. rewrite components_push; [|done|].
    2: { apply not_true_iff_false. rewrite starts_slash. apply not_true_iff_false in Hn.
         rewrite starts_slash in Hn. by destruct nm. }
    destruct (split_on_suffix slash nm suf) as (l & w & H1 & H2).
    { destruct Hsuf as [-> | ->]; apply (bool_decide_eq_false (slash ∈ _)); vm_compute; reflexivity. }
    rewrite H2. rewrite H1 in Hd. eexists. split; [done|]. rewrite omap_app. apply Forall_app. split.
    + apply pieces_normal. intros Hin. apply Hd, elem_of_app. by left.
    + destruct (piece_long (w ++ suf)) as [n Hp].
      { rewrite length_app. destruct Hsuf as [-> | ->]; simpl; lia. }
      simpl. rewrite Hp. by repeat constructor.
Qed.

Lemma join_validated_ok m base nm q :
  join_validated_path m base nm = Ok q → validate_file_name_no_traversal false nm = Ok tt ∧ q = join base nm.
Proof.
  unfold join_validated_path. destruct (validate_file_name_no_traversal false nm) as [[]|]; [|done].
  destruct (validate_no_symlink_components m base nm); [|done]. by intros [= <-].
Qed.

(** No directory on the way to a validated path is a symbolic link. *)
Lemma no_symlink_spec m cs : ∀ cur ns,
  no_symlink m cur cs = Ok tt → ns ≠ [] → ns `prefix_of` filter (λ c, c ≠ CurDir) cs →
  m (cur ++ ns) ≠ Symlink ∧ m (cur ++ ns) ≠ MetaError.
Proof.
  induction cs as [|c cs IH]; intros cur ns; simpl.
  { intros _ Hn [k Hk]. by destruct ns. }
  destruct c as [s| | | |s]; try done.
  - intros Hok Hn Hp. rewrite filter_cons_False in Hp by (intros H; by apply H). by apply IH.
  - rewrite filter_cons_True by done. intros Hok Hn [k Hk].
    destruct ns as [|n ns]; [done|]. simpl in Hk. injection Hk as <- Hk.
    destruct ns as [|n ns]; [by destruct (m (cur ++ [Normal s]))|].
    replace (cur ++ Normal s :: n :: ns) with ((cur ++ [Normal s]) ++ n :: ns) by (by rewrite <- app_assoc).
    apply IH; [by destruct (m (cur ++ [Normal s]))|done|by exists k].
Qed.

Section confinement.
Context (base : str).

(** The file is named only where the job may write. *)
Definition named_inside (s : store) (i : N) : Prop :=
  (i < next_inode s)%N ∧ ∀ p, names s !! p = Some i → confined base p.

(** A change of the store a job may make. *)
Record keeps (s s' : store) : Prop := {
  keeps_ok : store_ok s';
  keeps_names : ∀ p, ¬ confined base p → names s' !! p = names s !! p;
  keeps_content : ∀ p, ¬ confined base p → content s' p = content s p;
  keeps_inside : ∀ i, named_inside s i → named_inside s' i
}.

Lemma keeps_refl s : store_ok s → keeps s s.
Proof. by split. Qed.
Lemma keeps_trans s1 s2 s3 : keeps s1 s2 → keeps s2 s3 → keeps s1 s3.
Proof.
  intros [_ N1 C1 I1] [H2 N2 C2 I2]. split; [done| | |auto].
  - intros p Hp. by rewrite N2, N1.
  - intros p Hp. by rewrite C2, C1.
Qed.

(** What touches only confined paths keeps everything, if it gives files that
    were named inside no names outside. *)
Lemma touches_keeps (P : path → Prop) s s' :
  touches P s s' → (∀ p, P p → confined base p) → (next_inode s <= next_inode s')%N →
  keeps s s'.
Proof.
  intros [Hok H] HP Hn. split; [done| | |].
  - intros p Hp. apply H. auto.
  - intros p Hp. apply H. auto.
  - intros i [Hi Hin]. split; [lia|]. intros p Hp.
    destruct (decide (confined base p)) as [|Hc]; [done|]. apply Hin. destruct (H p) as [<- _]; auto.
Qed.

Lemma create_keeps s p : store_ok s → confined base p →
  let '(s', i) := create s p in keeps s s' ∧ named_inside s' i ∧ names s' !! p = Some i.
Proof.
  intros Hok Hp. pose proof (create_spec s p Hok) as Hc.
  assert (next_inode s <= next_inode (create s p).1)%N as Hn.
  { unfold create. destruct (names s !! p); simpl; lia. }
  destruct (create s p) as [s' i]. destruct Hc as (Ht & Hi & _). split; [|split; [|done]].
  - eapply touches_keeps; [exact Ht|by intros ? <-|done].
  - destruct Ht as [Hok' _]. split; [by eapply names_used|]. intros q Hq.
    by rewrite (names_distinct _ Hok' _ _ _ Hq Hi).
Qed.

Lemma write_at_keeps s i pos d : store_ok s → named_inside s i → keeps s (write_at s i pos d).
Proof.
  intros Hok [Hi Hin]. split; [|done| |done].
  { destruct Hok as [Hd Hu Hl]. split; [done..|]. intros q k Hk. apply lookup_insert_is_Some'. eauto. }
  intros q Hq. unfold content. simpl. destruct (names s !! q) as [k|] eqn:Hk; [|done]. simpl.
  rewrite lookup_insert_ne; [done|]. intros <-. by apply Hq, Hin.
Qed.

Lemma remove_keeps s p : store_ok s → confined base p → keeps s (remove_name s p).
Proof. intros Hok Hp. eapply touches_keeps; [by apply remove_spec|by intros ? <-|done]. Qed.

Lemma rename_keeps s a b : store_ok s → confined base a → confined base b → keeps s (rename s a b).
Proof.
  intros Hok Ha Hb. eapply touches_keeps; [by apply rename_spec| |].
  - by intros q [-> | ->].
  - unfold rename. by case_match.
Qed.

(** *** The operations of a writing job *)
Context (Hbase : base ≠ []) (decompress : bytes → bytes) (digest_json : FileDigest → bytes).

Definition stream_ok (s : store) (d : option DataStream) : Prop :=
  match d with Some (FileStream i _ true) => named_inside s i | _ => True end.
Record job_ok (s : store) (j : TransferJob) : Prop := {
  job_generic : type j = Generic;
  job_base : data_source j = FilePath base;
  job_stream : stream_ok s (data_stream j)
}.

Lemma stream_keeps s s' d : keeps s s' → stream_ok s d → stream_ok s' d.
Proof. intros K. destruct d as [[i pos [|]|]|]; simpl; auto. by apply K. Qed.

Lemma current_path_confined o j p : data_source j = FilePath base →
  current_path o j = Some p →
  confined base (components p) ∧ confined base (components (p ++ suffix_download))
  ∧ confined base (components (p ++ suffix_digest)).
Proof.
  intros Hs. unfold current_path. rewrite Hs. destruct (type j) eqn:Ht; [|done].
  destruct (nth_file j) as [e|]; [|done]. simpl. unfold resolve_entry_path. rewrite Ht.
  destruct (join_validated_path _ _ _) as [q|] eqn:Hj; [|done]. intros [= <-].
  apply join_validated_ok in Hj as [Hv ->].
  split_and!; [by left; apply join_inside|apply join_suffix_confined; auto..].
Qed.

Lemma try_remove_keeps o s p : store_ok s → confined base p → keeps s (try_remove o s p).
Proof. intros. unfold try_remove. case_match; [by apply remove_keeps|by apply keeps_refl]. Qed.

Lemma modify_time_keeps o s j : store_ok s → data_source j = FilePath base → keeps s (modify_time o s j).
Proof.
  intros Hok Hs. unfold modify_time. destruct (current_path o j) as [p|] eqn:Hp; [|by apply keeps_refl].
  destruct (current_path_confined o j p Hs Hp) as (H1 & H2 & H3). cbv zeta.
  pose proof (try_remove_keeps o s _ Hok H3) as K. eapply keeps_trans; [exact K|].
  case_match; [apply rename_keeps; [apply K|done..]|apply keeps_refl, K].
Qed.

Lemma remove_download_keeps o s j :
  store_ok s → data_source j = FilePath base → keeps s (remove_download_file o s j).
Proof.
  intros Hok Hs. unfold remove_download_file.
  destruct (current_path o j) as [p|] eqn:Hp; [|by apply keeps_refl].
  destruct (current_path_confined o j p Hs Hp) as (H1 & H2 & H3).
  pose proof (try_remove_keeps o s _ Hok H2) as K. eapply keeps_trans; [exact K|].
  apply try_remove_keeps; [apply K|done].
Qed.

Lemma write_data_keeps o s j b :
  store_ok s → job_ok s j →
  let '(s', j', _) := write_data o decompress s j b in keeps s s' ∧ job_ok s' j'.
Proof.
  intros Hok [Ht Hb Hst]. unfold write_data. cbv zeta.
  destruct (data_stream j) as [st|] eqn:Hd; [|split; [by apply keeps_refl|]; split; [done..|by rewrite Hd]].
  set (buf := if compressed b then _ else _).
  assert (∃ s' st' ok, write_all o s st buf = (s', st', ok) ∧ keeps s s' ∧ stream_ok s' (Some st'))
    as (s' & st' & ok & -> & K & Hst').
  { unfold write_all. destruct st as [i pos [|]|buf0 pos]; simpl.
    - destruct (write_fails o) as [n|]; eexists _, _, _; (split; [done|]);
        (split; [by apply write_at_keeps|]); simpl in Hst |- *; by apply write_at_keeps.
    - eexists _, _, _. split; [done|]. split; [by apply keeps_refl|done].
    - eexists _, _, _. split; [done|]. split; [by apply keeps_refl|done]. }
  destruct ok; (split; [done|]); by split.
Qed.

Lemma open_next_keeps o s j entry :
  store_ok s → job_ok s j →
  let '(s', j', _) := open_next o digest_json s j base entry in keeps s s' ∧ job_ok s' j'.
Proof.
  intros Hok Hj. destruct Hj as [Ht Hb Hst]. unfold open_next. rewrite Ht.
  destruct (join_validated_path _ _ _) as [q|e] eqn:Hq; [|split; [by apply keeps_refl|by split]].
  apply join_validated_ok in Hq as [Hv ->]. cbv zeta. simpl.
  set (dl := components (join base (name entry) ++ suffix_download)).
  set (dg := components (join base (name entry) ++ suffix_digest)).
  assert (confined base dl ∧ confined base dg) as [Hdl Hdg]
    by (split; apply join_suffix_confined; auto).
  clearbody dl dg. change (Datatypes.id dg) with dg.
  destruct (exists_file s dg && _); [split; [by apply keeps_refl|by split]|].
  set (s1 := if exists_file s dg then remove_name s dg else s).
  assert (keeps s s1) as K1 by (unfold s1; case_match; [by apply remove_keeps|by apply keeps_refl]).
  clearbody s1. pose proof (keeps_ok _ _ K1) as Hok1.
  destruct (negb _); [split; [done|]; split; [done..|by eapply stream_keeps]|].
  pose proof (create_keeps s1 dl Hok1 Hdl) as Hc. destruct (create s1 dl) as [s2 i].
  destruct Hc as (K2 & Hi & _). pose proof (keeps_ok _ _ K2) as Hok2.
  destruct (digest_written o).
  - pose proof (create_keeps s2 dg Hok2 Hdg) as Hc. destruct (create s2 dg) as [s3 d].
    destruct Hc as (K3 & Hd & _). pose proof (write_at_keeps s3 d 0 (digest_json (digest j)) (keeps_ok _ _ K3) Hd) as K4.
    split; [exact (keeps_trans _ _ _ K1 (keeps_trans _ _ _ K2 (keeps_trans _ _ _ K3 K4)))|].
    split; [done..|]. simpl.
    by apply K4, K3.
  - split; [by eapply keeps_trans|]. by split.
Qed.

Lemma write_keeps o s j b :
  store_ok s → job_ok s j →
  let '(s', j', _) := write o decompress digest_json s j b in keeps s s' ∧ job_ok s' j'.
Proof.
  intros Hok Hj. pose proof Hj as [Ht Hb Hst]. unfold write.
  destruct (negb _); [split; [by apply keeps_refl|done]|]. rewrite Hb. cbv zeta.
  destruct (files j !! _) as [entry|]; [|split; [by apply keeps_refl|done]].
  destruct (_ || _); [|by apply write_data_keeps].
  pose proof (modify_time_keeps o s j Hok Hb) as K1. set (s1 := modify_time o s j) in *. clearbody s1.
  pose proof (keeps_ok _ _ K1) as Hok1.
  destruct (_ && negb (sync_ok o)); [split; [done|]; split; [done..|by eapply stream_keeps]|].
  pose proof (open_next_keeps o s1 (j <| file_num := blk_file_num b |>) entry Hok1) as Ho.
  destruct (open_next o digest_json s1 _ base entry) as [[s2 j2] [e|]]; simpl in Ho;
    destruct Ho as [K2 Hj2]; try (split; [done..|by eapply stream_keeps]).
  - split; [by eapply keeps_trans|done].
  - pose proof (write_data_keeps o s2 j2 b (keeps_ok _ _ K2) Hj2) as Hw.
    destruct (write_data _ _ _ _ _) as [[s3 j3] e3]. destruct Hw as [K3 Hj3].
    split; [exact (keeps_trans _ _ _ K1 (keeps_trans _ _ _ K2 K3))|done].
Qed.

Lemma confirm_keeps o s j num c :
  store_ok s → job_ok s j →
  let '(s', j') := confirm o s j num c in s' = s ∧ job_ok s j'.
Proof.
  intros Hok [Ht Hb Hst]. unfold confirm. destruct (negb _); [split; [done|by split]|].
  destruct c as [[|]|offset|]; try (split; [done|by split]).
  destruct (0 <? offset); [|split; [done|by split]].
  set (j1 := set_file_confirmed j true). unfold set_stream_offset.
  assert (job_ok s j1) as Hj1 by by split.
  destruct (files j1 !! _) as [entry|]; [|done]. simpl. rewrite Hb.
  unfold resolve_entry_path. simpl. rewrite Ht.
  destruct (join_validated_path _ _ _) as [q|] eqn:Hq; [|done].
  apply join_validated_ok in Hq as [Hv ->]. cbv zeta.
  set (dl := components (join base (name entry) ++ suffix_download)).
  assert (confined base dl) as Hdl by (apply join_suffix_confined; auto). clearbody dl.
  set (st := if _ && _ then _ else _).
  assert (stream_ok s st) as Hst2.
  { unfold st. repeat case_match; simpl; try done.
    - destruct (names s !! dl) as [i|] eqn:Hi; [|done]. simpl. split; [by eapply names_used|].
      intros q Hq. by rewrite (names_distinct _ Hok _ _ _ Hq Hi).
    - by destruct (names s !! _). }
  destruct st as [d|]; [|done]. destruct (seek_ok o); [|done]. split; [done|]. by split.
Qed.
End confinement.

Lemma relative_components nm :
  starts_with nm [slash] = false → lit ".." ∉ split_on slash nm →
  filter (λ c, c ≠ CurDir) (components nm) = omap piece (split_on slash nm).
Proof.
  intros Hn Hd. unfold components. rewrite Hn, filter_app.
  assert (filter (λ c, c ≠ CurDir) (if bool_decide (head (split_on slash nm) = Some (lit "."))
            then [CurDir] else []) = []) as -> by (by case_match).
  pose proof (pieces_normal _ Hd) as Hf. simpl. induction Hf as [|c l Hc Hl IH]; [done|].
  rewrite filter_cons_True, IH; [done|]. by intros ->.
Qed.

(** ** No symbolic links on the way *)
Section guarded.
Context (base : str) (decompress : bytes → bytes) (digest_json : FileDigest → bytes).

(** The system says of each step of a name below [base] that it is no symbolic link. *)
Definition guarded (o : os) (nm : str) : Prop :=
  ∀ ns, ns ≠ [] → ns `prefix_of` omap piece (split_on slash nm) →
  meta o (components base ++ ns) ≠ Symlink ∧ meta o (components base ++ ns) ≠ MetaError.
(** A path a file of the list has licensed: its own or one of its two temporaries. *)
Definition targets_of (nm : str) : list path :=
  [components (join base nm); components (join base nm ++ suffix_download); components (join base nm ++ suffix_digest)].
Definition licensed (o : os) (fs : list FileEntry) (p : path) : Prop :=
  ∃ e, e ∈ fs ∧ guarded o (name e) ∧ p ∈ targets_of (name e).
(** What one step may do: names change only where a file is licensed; contents also
    where the file is named that the job had open; and it has a file open only if it had
    before or a licensed path names it. *)
Record step_guarded (o : os) (x x' : store * TransferJob) : Prop := {
  sg_names : ∀ p, ¬ licensed o (files x.2) p → names x'.1 !! p = names x.1 !! p;
  sg_content : ∀ p, ¬ licensed o (files x.2) p →
    (∀ i pos, data_stream x.2 = Some (FileStream i pos true) → names x.1 !! p ≠ Some i) → content x'.1 p = content x.1 p;
  sg_stream : ∀ i pos w, data_stream x'.2 = Some (FileStream i pos w) →
    (∃ pos', data_stream x.2 = Some (FileStream i pos' w)) ∨ ∃ p, licensed o (files x.2) p ∧ names x'.1 !! p = Some i
}.

Lemma join_validated_guarded o nm q : join_validated_path (meta o) base nm = Ok q → guarded o nm ∧ q = join base nm.
Proof.
  intros Hq. pose proof (join_validated_ok _ _ _ _ Hq) as [Hv ->]. split; [|done]. intros ns Hns Hp.
  unfold join_validated_path in Hq. rewrite Hv in Hq. apply validated_relative in Hv as [Hr Hd]. rewrite <- relative_components in Hp by done.
  unfold validate_no_symlink_components in Hq. case_bool_decide.
  { subst nm. destruct Hp as [k Hk]. by destruct ns. }
  destruct (no_symlink (meta o) (components base) (components nm)) as [[]|] eqn:Hl; [|done].
  by eapply no_symlink_spec.
Qed.
Lemma entry_licensed o fs e q : e ∈ fs → join_validated_path (meta o) base (name e) = Ok q →
  licensed o fs (components q) ∧ licensed o fs (components (q ++ suffix_download)) ∧ licensed o fs (components (q ++ suffix_digest)).
Proof.
  intros He [Hg ->]%join_validated_guarded. split_and!; exists e; (split; [done|split; [done|]]); unfold targets_of; set_solver.
Qed.
Lemma current_licensed o j p : data_source j = FilePath base → current_path o j = Some p →
  licensed o (files j) (components p) ∧ licensed o (files j) (components (p ++ suffix_download))
  ∧ licensed o (files j) (components (p ++ suffix_digest)).
Proof.
  intros Hs. unfold current_path. rewrite Hs. destruct (type j) eqn:Ht; [|done].
  destruct (nth_file j) as [e|] eqn:He; [|done]. simpl. unfold resolve_entry_path. rewrite Ht.
  destruct (join_validated_path _ _ _) as [q|] eqn:Hj; [|done]. intros [= <-].
  apply (entry_licensed o (files j) e); [|done]. by eapply list_elem_of_lookup_2.
Qed.
Lemma touches_one (P : path → Prop) s s' q : touches (eq q) s s' → P q → touches P s s'.
Proof. intros H HP. by apply (touches_weaken (eq q)); [intros ? <-|]. Qed.
Lemma try_remove_touches (P : path → Prop) o s q : store_ok s → P q → touches P s (try_remove o s q).
Proof. intros Hok HP. unfold try_remove. case_match; [by eapply touches_one; [apply remove_spec|]|by apply touches_refl]. Qed.
Lemma modify_time_touches o s j : store_ok s → data_source j = FilePath base → touches (licensed o (files j)) s (modify_time o s j).
Proof.
  intros Hok Hs. unfold modify_time. destruct (current_path o j) as [p|] eqn:Hp; [|by apply touches_refl].
  destruct (current_licensed o j p Hs Hp) as (H1 & H2 & H3). cbv zeta.
  pose proof (try_remove_touches _ o s _ Hok H3) as T. eapply touches_trans; [exact T|].
  case_match; [|apply touches_refl, T]. eapply touches_weaken; [|apply rename_spec, T]. by intros q [-> | ->].
Qed.
Lemma remove_download_touches o s j : store_ok s → data_source j = FilePath base →
  touches (licensed o (files j)) s (remove_download_file o s j).
Proof.
  intros Hok Hs. unfold remove_download_file. destruct (current_path o j) as [p|] eqn:Hp; [|by apply touches_refl].
  destruct (current_licensed o j p Hs Hp) as (H1 & H2 & H3).
  pose proof (try_remove_touches _ o s _ Hok H2) as T. eapply touches_trans; [exact T|]. by apply try_remove_touches; [apply T|].
Qed.
(** A file that is opened is named by the path that was licensed for it. *)
Lemma open_next_touches o s j entry : store_ok s → type j = Generic → entry ∈ files j →
  let '(s', j', e) := open_next o digest_json s j base entry in
  touches (licensed o (files j)) s s'
  ∧ (e = None → ∃ i p, data_stream j' = Some (FileStream i 0 true) ∧ licensed o (files j) p ∧ names s' !! p = Some i)
  ∧ (e ≠ None → data_stream j' = data_stream j).
Proof.
  intros Hok Ht He. unfold open_next. rewrite Ht.
  destruct (join_validated_path _ _ _) as [q|err] eqn:Hq; [|by split; [apply touches_refl|]].
  destruct (entry_licensed o (files j) entry q He Hq) as (H1 & H2 & H3). cbv zeta. simpl.
  set (dl := components (q ++ suffix_download)) in *. set (dg := components (q ++ suffix_digest)) in *.
  clearbody dl dg. change (Datatypes.id dg) with dg.
  destruct (exists_file s dg && _); [by split; [apply touches_refl|]|].
  set (s1 := if exists_file s dg then remove_name s dg else s).
  assert (touches (licensed o (files j)) s s1) as T1.
  { unfold s1. case_match; [by eapply touches_one; [apply remove_spec|]|by apply touches_refl]. }
  clearbody s1. destruct (negb _); [by split|].
  pose proof (create_spec s1 dl (proj1 T1)) as Hc. destruct (create s1 dl) as [s2 i]. destruct Hc as (T2 & Hi & _).
  pose proof (touches_trans _ _ _ _ T1 (touches_one _ _ _ _ T2 H2)) as T12.
  destruct (digest_written o).
  - pose proof (create_spec s2 dg (proj1 T2)) as Hc. assert (dl = dg → (create s2 dg).2 = i) as Hsame by (intros <-; unfold create; by rewrite Hi).
    destruct (create s2 dg) as [s3 d]. destruct Hc as (T3 & Hd & _). simpl in Hsame.
    destruct (write_at_spec s3 dg d 0 (digest_json (digest j)) (proj1 T3) Hd) as [T4 _].
    split; [exact (touches_trans _ _ _ _ T12 (touches_one _ _ _ _ (touches_trans _ _ _ _ T3 T4) H3))|]. split; [|done].
    intros _. exists i, dl. do 2 (split; [done|]). simpl.
    destruct (decide (dl = dg)) as [E|E]; [by rewrite E, Hd, Hsame|]. destruct (proj2 T3 dl) as [-> _]; [congruence|done].
  - split; [done|]. split; [|done]. intros _. by exists i, dl.
Qed.
Lemma write_data_effect o s j b : store_ok s →
  let '(s', j', _) := write_data o decompress s j b in
  (∀ p, names s' !! p = names s !! p)
  ∧ (∀ p, (∀ i pos, data_stream j = Some (FileStream i pos true) → names s !! p ≠ Some i) → content s' p = content s p)
  ∧ ∀ i pos w, data_stream j' = Some (FileStream i pos w) → ∃ pos', data_stream j = Some (FileStream i pos' w).
Proof.
  intros Hok. unfold write_data. cbv zeta. destruct (data_stream j) as [st|] eqn:Hd; [|split; [done|]; split; [done|]; by rewrite Hd].
  assert (∀ i pos d p, names s !! p ≠ Some i → content (write_at s i pos d) p = content s p) as Hw.
  { intros i pos d p. unfold content. simpl. destruct (names s !! p) as [k|] eqn:Hk; [|done]. simpl. intros Hne.
    rewrite lookup_insert_ne; [done|congruence]. }
  set (buf := if compressed b then _ else _). unfold write_all. destruct st as [i pos [|]|buf0 pos]; simpl.
  - destruct (write_fails o) as [n|]; (split; [done|]); (split; [intros p Hp; by eapply Hw, Hp|]); intros ? ? ? [= -> _ <-]; by exists pos.
  - split; [done|]. split; [done|]. intros ? ? ? [= -> _ <-]; by exists pos.
  - split; [done|]. by split.
Qed.
Lemma quiet_guarded o s j s' j' : touches (licensed o (files j)) s s' →
  (∀ i pos w, data_stream j' = Some (FileStream i pos w) → ∃ pos', data_stream j = Some (FileStream i pos' w)) →
  step_guarded o (s, j) (s', j').
Proof. intros [_ T] Hj. split; simpl; [intros p Hp; by apply T|intros p Hp _; by apply T|left; eauto]. Qed.
Lemma write_guarded o s j b : store_ok s → type j = Generic → data_source j = FilePath base →
  step_guarded o (s, j) (write o decompress digest_json s j b).1.
Proof.
  intros Hok Ht Hb. unfold write. assert (step_guarded o (s, j) (s, j)) as Hid by (apply quiet_guarded; [by apply touches_refl|eauto]).
  destruct (negb _); [done|]. rewrite Hb. cbv zeta.
  destruct (files j !! _) as [entry|] eqn:He; [|done]. apply list_elem_of_lookup_2 in He.
  destruct (_ || _).
  2: { pose proof (write_data_effect o s j b Hok) as Hw. destruct (write_data _ _ _ _ _) as [[s' j'] e']. destruct Hw as (H1 & H2 & H3).
       split; simpl; [by intros|by intros; apply H2|left; eauto]. }
  pose proof (modify_time_touches o s j Hok Hb) as T1. set (s1 := modify_time o s j) in *. clearbody s1.
  destruct (_ && negb (sync_ok o)); [by apply quiet_guarded; eauto|].
  match goal with |- context [open_next o digest_json s1 ?x base entry] =>
    pose proof (open_next_touches o s1 x entry (proj1 T1) Ht He) as Ho; destruct (open_next o digest_json s1 x base entry) as [[s2 j2] e] end.
  destruct Ho as (T2 & Hn & Hs). destruct e as [e|]; simpl in T2, Hn, Hs.
  - apply quiet_guarded; [by eapply touches_trans|]. rewrite Hs by done. eauto.
  - destruct (Hn eq_refl) as (i & q & Hi & Hq & Hnq). pose proof (touches_trans _ _ _ _ T1 T2) as T12.
    pose proof (write_data_effect o s2 j2 b (proj1 T2)) as Hw. destruct (write_data _ _ _ _ _) as [[s3 j3] e3]. destruct Hw as (H1 & H2 & H3).
    split; simpl.
    + intros p Hp. rewrite H1. by apply T12.
    + intros p Hp _. rewrite H2; [by apply T12|]. intros k pos. rewrite Hi. intros [= <- _] Hk. apply Hp.
      by rewrite (names_distinct _ (proj1 T2) _ _ _ Hk Hnq).
    + intros k pos w Hk. destruct (H3 _ _ _ Hk) as [pos' E]. rewrite Hi in E. injection E as <- _ _. right. exists q. by rewrite H1.
Qed.
Lemma confirm_guarded o s j num c : store_ok s → type j = Generic → data_source j = FilePath base →
  step_guarded o (s, j) (confirm o s j num c).
Proof.
  intros Hok Ht Hb. unfold confirm.
  assert (∀ j', (∀ i pos w, data_stream j' = Some (FileStream i pos w) → ∃ pos', data_stream j = Some (FileStream i pos' w)) → step_guarded o (s, j) (s, j')) as Hid
    by (intros; apply quiet_guarded; [by apply touches_refl|done]).
  destruct (negb _); [apply Hid; eauto|]. destruct c as [[|]|offset|]; try (apply Hid; simpl; eauto; done).
  destruct (0 <? offset); [|apply Hid; simpl; eauto].
  set (j1 := set_file_confirmed j true). unfold set_stream_offset.
  assert (step_guarded o (s, j) (s, j1)) as Hid1 by (apply Hid; simpl; eauto).
  destruct (files j1 !! _) as [entry|] eqn:He; [|done]. simpl. rewrite Hb. unfold resolve_entry_path. simpl. rewrite Ht.
  destruct (join_validated_path _ _ _) as [q|] eqn:Hq; [|done]. apply list_elem_of_lookup_2 in He.
  destruct (entry_licensed o (files j) entry q He Hq) as (H1 & H2 & _). cbv zeta.
  set (dl := components (q ++ suffix_download)) in *. clearbody dl.
  set (st := if _ && _ then _ else _).
  assert (∀ i pos w, st = Some (FileStream i pos w) → ∃ p, licensed o (files j) p ∧ names s !! p = Some i) as Hst.
  { unfold st. intros i pos w. destruct (_ && _); destruct (open_ok o _); try done.
    - destruct (names s !! dl) as [k|] eqn:Hk; [|done]. intros [= <- _ _]. by exists dl.
    - destruct (names s !! components q) as [k|] eqn:Hk; [|done]. intros [= <- _ _]. by exists (components q). }
  destruct st as [d|]; [|done]. destruct (seek_ok o); [|done]. split; simpl; [done..|]. intros i pos w [= ->]. right. by eapply Hst.
Qed.
Lemma wstep_guarded o s j op : store_ok s → job_ok base s j → step_guarded o (s, j) (wstep decompress digest_json o (s, j) op).
Proof.
  intros Hok [Ht Hb _]. assert (∀ j', data_stream j' = data_stream j → step_guarded o (s, j) (s, j')) as Hid.
  { intros j' E. apply quiet_guarded; [by apply touches_refl|]. rewrite E. eauto. }
  destruct op as [fs|sz md|b|num c| |]; simpl.
  - apply Hid. unfold set_files. destruct (validate_transfer_file_names fs); [|done]. by destruct (match data_source j with FilePath _ => _ | _ => _ end).
  - by apply Hid.
  - by apply write_guarded.
  - by apply confirm_guarded.
  - apply quiet_guarded; [by apply modify_time_touches|eauto].
  - apply quiet_guarded; [by apply remove_download_touches|eauto].
Qed.
End guarded.
Lemma wstep_keeps base decompress digest_json o s j op : base ≠ [] → store_ok s → job_ok base s j →
  let x := wstep decompress digest_json o (s, j) op in keeps base s x.1 ∧ job_ok base x.1 x.2.
Proof.
  intros Hb Hok Hj. destruct op as [fs|sz md|b|num c| |]; simpl.
  - split; [by apply keeps_refl|]. unfold set_files. destruct (validate_transfer_file_names fs); [|done].
    destruct Hj as [Ht Hs Hd]. destruct (match data_source j with FilePath _ => _ | _ => _ end); by split.
  - split; [by apply keeps_refl|]. by destruct Hj; split.
  - pose proof (write_keeps base Hb decompress digest_json o s j b Hok Hj) as Hw. by destruct (write _ _ _ _ _ _) as [[s2 j2] e].
  - pose proof (confirm_keeps base Hb o s j num c Hok Hj) as Hc. destruct (confirm o s j num c) as [s2 j2].
    destruct Hc as [-> Hj2]. split; [by apply keeps_refl|done].
  - pose proof (modify_time_keeps base Hb o s j Hok (job_base _ _ _ Hj)) as K2.
    split; [done|]. destruct Hj. split; [done..|by eapply stream_keeps].
  - pose proof (remove_download_keeps base Hb o s j Hok (job_base _ _ _ Hj)) as K2.
    split; [done|]. destruct Hj. split; [done..|by eapply stream_keeps].
Qed.

(** C8: A receiving job is confined. Whatever file names, blocks and confirmations a peer
    sends, in any order and whatever the system answers, a job writing into [base] never
    creates, changes, renames or removes anything but paths made of [base] and plain names
    below it (or the two temporaries of [base] itself, when that names a single file).
    And whatever step it takes next changes only paths of a file of its list, or of that
    file's two temporaries, of whose name the system says in this very step that no step
    of it below [base] is a symbolic link - and the contents of the file it has open,
    which it opened at such a path. The temporaries themselves are not looked at, and
    nothing prevents a link that is made after the question. *)
Theorem transfer_confined (decompress : bytes → bytes) (digest_json : FileDigest → bytes)
    (base : str) (s : store) (id n : Z) (overwrite_detection : bool) (ops : list (os * wop)) :
  base ≠ [] → store_ok s →
  let x := wrun decompress digest_json (s, new_write id Generic (FilePath base) n overwrite_detection) ops in
  (∀ p, ¬ confined base p → names x.1 !! p = names s !! p ∧ content x.1 p = content s p)
  ∧ ∀ o op, step_guarded base o x (wstep decompress digest_json o x op).
Proof.
  intros Hb Hok x.
  assert (∀ ops x0, keeps base s x0.1 → job_ok base x0.1 x0.2 →
    let x := wrun decompress digest_json x0 ops in keeps base s x.1 ∧ job_ok base x.1 x.2) as H.
  { induction ops0 as [|[o op] ops0 IH]; intros [s1 j] K Hj; [done|]. cbn [fst snd] in *.
    destruct (wstep_keeps base decompress digest_json o s1 j op Hb (keeps_ok _ _ _ K) Hj) as [K2 Hj2].
    apply IH; [by eapply keeps_trans|done]. }
  destruct (H ops (s, new_write id Generic (FilePath base) n overwrite_detection)) as [[Hok' Hn Hc _] Hj]; [by apply keeps_refl|by split|].
  fold x in Hok', Hn, Hc, Hj. split; [auto|]. intros o op. destruct x as [s' j]. destruct Hj. by apply wstep_guarded.
Qed.

Definition sample_store : store :=
  write_at (create empty_store (components (lit "/e/x"))).1 0 0 (lit_bytes "mine").

Lemma sample_store_ok : store_ok sample_store.
Proof.
  assert (store_ok empty_store) as H0 by (split; simpl; intros *; by rewrite lookup_empty).
  pose proof (create_keeps (lit "/e") empty_store (components (lit "/e/x")) H0) as Hc.
  change (create empty_store (components (lit "/e/x")))
    with ((create empty_store (components (lit "/e/x"))).1, 0%N) in Hc.
  destruct Hc as (K & Hi & _).
  { left. exists [Normal (lit "x")]. split; [reflexivity|by repeat constructor]. }
  apply (write_at_keeps (lit "/e")); [apply K|done].
Qed.

Lemma transfer_confined_witness :
  let s' := (wrun (λ b, b) (λ _, []) (sample_store, new_write 1 Generic (FilePath (lit "/d")) 0 false)
    [(os_fine, SetFiles [mk_entry (lit "sub/a") 3 0]);
     (os_fine, Block (mk_block 1 0 (lit_bytes "new") false)); (os_fine, Done)]).1 in
  content s' (components (lit "/d/sub/a")) = Some (lit_bytes "new")
  ∧ content s' (components (lit "/e/x")) = content sample_store (components (lit "/e/x")).
Proof.
  cbv zeta. split; [vm_compute; reflexivity|].
  destruct (transfer_confined (λ b, b) (λ _, []) (lit "/d") sample_store 1 0 false
    [(os_fine, SetFiles [mk_entry (lit "sub/a") 3 0]);
     (os_fine, Block (mk_block 1 0 (lit_bytes "new") false)); (os_fine, Done)])
    as [H _]; [discriminate|exact sample_store_ok|].
  apply H.
  intros [(ns & Hp & _)|[Hp|Hp]]; vm_compute in Hp; discriminate Hp.
Defined.
