(* ===== verification/TransferSession.v ===== *)
(** * Two ends of a file transfer

    [handle_read_jobs] and [is_write_need_confirmation] of
    [src/libs/base/src/fs.rs], and how the sending end
    ([src/src/server/connection.rs]) and the receiving end
    ([src/src/client/io_loop.rs]) of a download handle each other's messages.
    Queues between them keep their order; a send that fails ends the
    connection and both ends with it. *)
From S2P Require Import Prelude Paths FileTransfer.
Local Open Scope Z_scope.

(** ** Messages *)
Record FileTransferDigest := mk_fdigest {
  fd_id : Z;
  fd_file_num : Z;
  last_modified : Z;
  file_size : Z;
  is_identical : bool;
  transferred_size : Z;
  is_upload : bool
}.
Inductive FileResponse :=
| RBlock (b : FileTransferBlock)
| RDone (id file_num : Z)
| RError (id : Z) (e : str) (file_num : Z)
| RDigest (d : FileTransferDigest).
Record SendConfirm := mk_confirm { sc_id : Z; sc_file_num : Z; sc_union : Confirm }.

(** The first job with the id, changed in place. *)
Definition with_job (i : Z) (f : TransferJob → TransferJob) (jobs : list TransferJob) : list TransferJob :=
  match list_find (λ j, id j = i) jobs with
  | Some (k, j) => <[k := f j]> jobs
  | None => jobs
  end.

(** ** The sending end *)
Section sender.
Context (o : os) (compress : bytes → bytes).

(** What opening each file answers for its time and size. *)
Definition init_job (s : store) (digest_of : TransferJob → option (Z * Z)) (j : TransferJob)
    : TransferJob * list FileResponse :=
  if is_last_job j then (j, [])
  else match init_data_stream o s j (digest_of j) with
       | (j', Err e) => (j', [RError (id j') e (file_num j')])
       | (j', Ok (Some (modified, size))) =>
           (j', [RDigest (mk_fdigest (id j') (file_num j') modified size false 0 false)])
       | (j', Ok None) => (j', [])
       end.
Definition init_jobs (s : store) (digest_of : TransferJob → option (Z * Z)) (jobs : list TransferJob)
    : list TransferJob * list FileResponse :=
  let r := init_job s digest_of <$> jobs in (r.*1, concat r.*2).

(** One read: the job after it, what is sent, and whether it is finished. *)
Definition read_step (s : store) (answers : nat → option nat) (j : TransferJob)
    : TransferJob * list FileResponse * bool :=
  match read compress s j answers with
  | (j', Err e) => (j', [RError (id j') e (file_num j')], false)
  | (j', Ok (Some b)) => (j', [RBlock b], false)
  | (j', Ok None) =>
      if job_completed j' then
        (j', [match job_error j' with
              | Some e => RError (id j') e (file_num j')
              | None => RDone (id j') (file_num j')
              end], true)
      else (j', [], false)
  end.
(** Only the first job that may run reads. *)
Fixpoint read_first (s : store) (answers : nat → option nat) (jobs : list TransferJob)
    : list TransferJob * list FileResponse * option Z :=
  match jobs with
  | [] => ([], [], None)
  | j :: js =>
      if is_last_job j then
        let '(js', out, fin) := read_first s answers js in (j :: js', out, fin)
      else
        let '(j', out, fin) := read_step s answers j in
        (j' :: js, out, if fin then Some (id j') else None)
  end.
Definition handle_read_jobs (s : store) (digest_of : TransferJob → option (Z * Z))
    (answers : nat → option nat) (jobs : list TransferJob) : list TransferJob * list FileResponse :=
  let '(jobs1, out1) := init_jobs s digest_of jobs in
  let '(jobs2, out2, fin) := read_first s answers jobs1 in
  (match fin with Some i => (remove_job i jobs2).1 | None => jobs2 end, out1 ++ out2).

(** A confirmation the peer sends for one of the jobs. *)
Definition on_send_confirm (s : store) (c : SendConfirm) (jobs : list TransferJob) : list TransferJob :=
  with_job (sc_id c) (λ j, (confirm o s j (sc_file_num c) (sc_union c)).2) jobs.
End sender.

(** ** The receiving end *)
Inductive DigestCheckResult := IsSame | NeedConfirm (d : FileTransferDigest) | NoSuchFile.

(** What the receiver can learn of a file. [mtime] is in seconds and
    nanoseconds, and [None] where it cannot be read or is before 1970. *)
Record stat := mk_stat { meta_ok : path → bool; mtime : path → option (Z * Z) }.

Section receiver.
Context (o : os) (st : stat) (decompress : bytes → bytes).
Context (digest_json : FileDigest → bytes) (parse_digest : bytes → option FileDigest).

(** The size of the partial download, where the digest stored beside it is
    the one of the file that is offered. *)
Definition partial_size (s : store) (file_path : str) (d : FileTransferDigest) : option Z :=
  let digest_file := components (file_path ++ suffix_digest) in
  let download_file := components (file_path ++ suffix_download) in
  if exists_file s digest_file && exists_file s download_file then
    text ← (if open_ok o digest_file then content s digest_file else None);
    local ← parse_digest text;
    if (digest_modified local =? last_modified d) && (digest_size local =? file_size d) then
      b ← (if meta_ok st download_file then content s download_file else None);
      if 0 <? Z.of_nat (length b) then Some (Z.of_nat (length b)) else None
    else None
  else None.

Definition is_write_need_confirmation (is_resume : bool) (s : store) (file_path : str)
    (d : FileTransferDigest) : option DigestCheckResult :=
  match (if is_resume then partial_size s file_path d else None) with
  | Some n => Some (NeedConfirm (mk_fdigest (fd_id d) (fd_file_num d) (last_modified d) (file_size d) true n false))
  | None =>
      let path := components file_path in
      if exists_file s path then
        if negb (meta_ok st path) then None
        else match mtime st path, content s path with
        | Some (secs, nanos), Some b =>
            let len := Z.of_nat (length b) in
            let same := (last_modified d =? secs) && (nanos =? 0) && (file_size d =? len) in
            Some (NeedConfirm (mk_fdigest (fd_id d) (fd_file_num d) secs len same 0 false))
        | _, _ => None
        end
      else Some NoSuchFile
  end.

(** What a digest leads to: a confirmation, sent to the peer and applied to
    the job itself, or a question to the user. *)
Inductive DigestAnswer := Answer (c : Confirm) | Ask | NoAnswer.

Definition answer_strategy (j : TransferJob) (d : FileTransferDigest) : DigestAnswer :=
  let '(strategy, offset) :=
    if is_identical d && is_resume j && (0 <? transferred_size d)
    then (Some true, transferred_size d mod 2 ^ 32) else (default_overwrite_strategy j, 0) in
  match strategy with
  | Some true => Answer (OffsetBlk offset)
  | Some false => Answer (Skip true)
  | None => Ask
  end.
Definition digest_answer (support_resume : bool) (s : store) (j : TransferJob) (path : str)
    (d : FileTransferDigest) : DigestAnswer :=
  match is_write_need_confirmation (support_resume && is_resume j) s path d with
  | Some IsSame => Answer (Skip true)
  | Some (NeedConfirm d) => answer_strategy j d
  | Some NoSuchFile => Answer (OffsetBlk 0)
  | None => NoAnswer
  end.

(** The writing jobs, the files asked about and the confirmations sent. *)
Record receiver := mk_receiver {
  r_store : store;
  r_jobs : list TransferJob;
  r_asked : list (Z * Z);
  r_sent : list SendConfirm
}.

(** The first job with the id, and the store, after one of its operations. *)
Definition job_op (i : Z) (f : store → TransferJob → store * TransferJob) (r : receiver) : receiver :=
  match get_job i (r_jobs r) with
  | Some j =>
      let '(s, j') := f (r_store r) j in
      mk_receiver s (with_job i (λ _, j') (r_jobs r)) (r_asked r) (r_sent r)
  | None => r
  end.

Definition reply (i num : Z) (c : Confirm) (r : receiver) : receiver :=
  let r := job_op i (λ s j, confirm o s j num c) r in
  mk_receiver (r_store r) (r_jobs r) (r_asked r) (r_sent r ++ [mk_confirm i num c]).

Definition on_digest (support_resume : bool) (d : FileTransferDigest) (r : receiver) : receiver :=
  match get_job (fd_id d) (r_jobs r) with
  | None => r
  | Some j =>
      match files j !! Z.to_nat (as_usize (fd_file_num d)), data_source j with
      | Some file, FilePath p =>
          let r := job_op (fd_id d) (λ s j, (s, set_digest j (file_size d) (last_modified d))) r in
          match digest_answer support_resume (r_store r) j (join p (name file)) d with
          | Answer c => reply (fd_id d) (fd_file_num d) c r
          | Ask => mk_receiver (r_store r) (r_jobs r) (r_asked r ++ [(fd_id d, fd_file_num d)]) (r_sent r)
          | NoAnswer => r
          end
      | _, _ => r
      end
  end.

(** [FileResponse] messages of a download. The digests of uploads go to the
    reading jobs and are left out. *)
Definition on_response (support_resume : bool) (m : FileResponse) (r : receiver) : receiver :=
  match m with
  | RBlock b => job_op (blk_id b) (λ s j, (write o decompress digest_json s j b).1) r
  | RDone i _ =>
      match get_job i (r_jobs r) with
      | Some j => mk_receiver (modify_time o (r_store r) j) (remove_job i (r_jobs r)).1 (r_asked r) (r_sent r)
      | None => r
      end
  | RError i _ _ => mk_receiver (r_store r) (remove_job i (r_jobs r)).1 (r_asked r) (r_sent r)
  | RDigest d => if is_upload d then r else on_digest support_resume d r
  end.

(** The user's answer to one of the questions. *)
Definition on_user (i num : Z) (need_override remember : bool) (r : receiver) : receiver :=
  match get_job i (r_jobs r) with
  | None => r
  | Some _ =>
      let r := if remember
               then job_op i (λ s j, (s, j <| default_overwrite_strategy := Some need_override |>)) r else r in
      reply i num (if need_override then OffsetBlk 0 else Skip true) r
  end.
End receiver.
Arguments mk_receiver : clear implicits.
