(* ===== verification/TransferDelivery.v ===== *)
(** * A transfer delivers its files

    The two ends of a download joined by queues, and the proof that every
    file the receiver did not skip arrives whole, however the ends interleave. *)
From S2P Require Import Prelude Paths FileTransfer TransferSession.
Local Open Scope Z_scope.

(** ** The system *)
Record sys := mk_sys {
  sending : list TransferJob;
  forward : list FileResponse;
  receiving : receiver;
  confirmed_upto : nat           (* how many of the confirmations have arrived *)
}.

(** The system's and the user's part in one step. *)
Inductive event :=
| Tick (digest_of : TransferJob → option (Z * Z)) (answers : nat → option nat)
| Arrive (st : stat)
| ConfirmArrives
| UserAnswers (need_override remember : bool).

Section system.
Context (compress decompress : bytes → bytes) (digest_json : FileDigest → bytes)
  (parse_digest : bytes → option FileDigest) (support_resume : bool) (source : store).

Definition step (x : sys) (e : event) : sys :=
  match e with
  | Tick digest_of answers =>
      let '(jobs, out) := handle_read_jobs os_fine compress source digest_of answers (sending x) in
      mk_sys jobs (forward x ++ out) (receiving x) (confirmed_upto x)
  | Arrive st =>
      match forward x with
      | [] => x
      | m :: q =>
          mk_sys (sending x) q
            (on_response os_fine st decompress digest_json parse_digest support_resume m (receiving x))
            (confirmed_upto x)
      end
  | ConfirmArrives =>
      match r_sent (receiving x) !! confirmed_upto x with
      | Some c => mk_sys (on_send_confirm os_fine source c (sending x)) (forward x) (receiving x)
                    (S (confirmed_upto x))
      | None => x
      end
  | UserAnswers need_override remember =>
      let r := receiving x in
      match r_asked r with
      | [] => x
      | (i, num) :: q =>
          mk_sys (sending x) (forward x)
            (on_user os_fine i num need_override remember (mk_receiver (r_store r) (r_jobs r) q (r_sent r)))
            (confirmed_upto x)
      end
  end.
Definition run (x : sys) (es : list event) : sys := foldl step x es.
End system.

(** Reads that do not fail, and files whose time and size can be read. *)
Definition event_fine (e : event) : Prop :=
  match e with
  | Tick digest_of answers => (∀ j, is_Some (digest_of j)) ∧ ∀ n, is_Some (answers n)
  | Arrive st => ∀ p, meta_ok st p = true ∧ is_Some (mtime st p)
  | _ => True
  end.

Definition complete (x : sys) : Prop := sending x = [] ∧ forward x = [].

(** The receiver asked for this file to be skipped. *)
Definition skipped (sent : list SendConfirm) (m : nat) : Prop :=
  Exists (λ c, sc_file_num c = Z.of_nat m ∧ sc_union c = Skip true) sent.
#[export] Instance skip_eq_dec (c : Confirm) : Decision (c = Skip true).
Proof. destruct c as [[|]| |]; (by left) || (by right). Defined.
#[export] Instance skipped_dec sent m : Decision (skipped sent m).
Proof. unfold skipped. apply _. Defined.

(** ** Reading *)
Lemma fill_all avail room : ∀ fuel answers offset,
  (∀ n, is_Some (answers n)) → (room - offset < fuel)%nat →
  (offset ≤ Nat.min room (length avail))%nat → (0 < room)%nat →
  fill fuel answers avail room offset = Some (Some (Nat.min room (length avail))).
Proof.
  induction fuel as [|fuel IH]; intros answers offset Ha Hf Ho Hr; [lia|].
  cbn [fill]. destruct (Ha offset) as [a ->]. cbv zeta. unfold read_some.
  rewrite length_drop. set (n := Nat.min (Nat.min (Nat.max 1 a) (room - offset)) (length avail - offset)).
  destruct (Nat.eqb_spec n 0) as [Hn|Hn]; cbn [orb]; [do 2 f_equal; lia|].
  destruct (Nat.eqb_spec (offset + n) room) as [Hm|Hm]; [do 2 f_equal; lia|].
  apply IH; [done|lia..].
Qed.

(** The bytes a block carries. *)
Definition decoded (decompress : bytes → bytes) (b : FileTransferBlock) : bytes :=
  if compressed b then decompress (data b) else data b.

Lemma BUF_SIZE_pos : (0 < Z.to_nat BUF_SIZE)%nat.
Proof. unfold BUF_SIZE. lia. Qed.

Section delivery.
Context (compress decompress : bytes → bytes) (Hdc : ∀ b, decompress (compress b) = b).
Context (digest_json : FileDigest → bytes) (parse_digest : bytes → option FileDigest)
  (support_resume : bool).
Context (source : store) (jid : Z) (sb db : str) (detect : bool)
  (fs : list FileEntry) (cs : list bytes).
Context (Hsmall : Z.of_nat (length fs) < 2 ^ 31).
Context (Hsrc : Forall2 (λ e c, content source (components (join sb (name e))) = Some c) fs cs).

Lemma source_at k e : fs !! k = Some e →
  ∃ c i, cs !! k = Some c ∧ names source !! components (join sb (name e)) = Some i
         ∧ inodes source !! i = Some c.
Proof.
  intros He. destruct (Forall2_lookup_l _ _ _ _ _ Hsrc He) as (c & Hc & Hcont).
  unfold content in Hcont. destruct (names source !! _) as [i|]; [|done]. eauto.
Qed.

(** *** The sending job *)
Record sender_job (j : TransferJob) (k : nat) : Prop := {
  sj_id : id j = jid;
  sj_type : type j = Generic;
  sj_source : data_source j = FilePath sb;
  sj_last : is_last_job j = false;
  sj_files : files j = fs;
  sj_detect : enable_overwrite_detection j = detect;
  sj_num : file_num j = Z.of_nat k;
  sj_le : (k ≤ length fs)%nat
}.

Lemma sender_nth j k : sender_job j k → nth_file j = fs !! k.
Proof.
  intros H. unfold nth_file. rewrite (sj_files _ _ H), (sj_num _ _ H).
  pose proof (sj_le _ _ H). unfold as_usize. rewrite Z.mod_small by lia. by rewrite Nat2Z.id.
Qed.
Lemma sender_next j k : sender_job j k → (k < length fs)%nat → sender_job (next_file j) (S k).
Proof.
  intros H Hk. pose proof (sj_num _ _ H) as Hn. destruct H. split; try done.
  cbn. rewrite Hn, Int.wrap_i32_id; [lia|]. unfold Int.in_i32, Int.i32_min, Int.i32_max. lia.
Qed.

(** No file open; the current one open but not agreed on; being sent. *)
Definition closed (j : TransferJob) (k : nat) : Prop :=
  sender_job j k ∧ data_stream j = None ∧ file_confirmed j = false ∧ file_is_waiting j = false
  ∧ (file_skipped j = true → detect = true).
Definition asking (j : TransferJob) (k : nat) : Prop :=
  sender_job j k ∧ detect = true ∧ file_confirmed j = false ∧ file_is_waiting j = true
  ∧ ∃ e i, fs !! k = Some e ∧ names source !! components (join sb (name e)) = Some i
           ∧ data_stream j = Some (FileStream i 0 false).
Definition going (j : TransferJob) (k p : nat) : Prop :=
  sender_job j k ∧ file_confirmed j = detect ∧ file_skipped j = false
  ∧ ∃ e i c, fs !! k = Some e ∧ names source !! components (join sb (name e)) = Some i
             ∧ inodes source !! i = Some c ∧ cs !! k = Some c ∧ (p ≤ length c)%nat
             ∧ data_stream j = Some (FileStream i p false).

Definition tick (digest_of : TransferJob → option (Z * Z)) (answers : nat → option nat) (j : TransferJob) :=
  handle_read_jobs os_fine compress source digest_of answers [j].

(** The tick of a single job that may run. *)
Lemma tick_eq digest_of answers j k j1 out1 :
  sender_job j k → init_job os_fine source digest_of j = (j1, out1) → sender_job j1 k →
  tick digest_of answers j =
  let '(j2, out2, fin) := read_step compress source answers j1 in
  (if fin then [] else [j2], out1 ++ out2).
Proof.
  intros Hj Hi Hj1. unfold tick, handle_read_jobs, init_jobs. simpl. rewrite Hi. cbn.
  rewrite (sj_last _ _ Hj1), app_nil_r.
  destruct (read_step compress source answers j1) as [[j2 out2] [|]]; [|done].
  unfold remove_job. simpl. by rewrite decide_True.
Qed.

Lemma open_closed j k e i :
  closed j k → fs !! k = Some e → names source !! components (join sb (name e)) = Some i →
  ∃ j1, open_data_stream os_fine source j = (j1, Ok false) ∧ sender_job j1 k
    ∧ data_stream j1 = Some (FileStream i 0 false) ∧ file_confirmed j1 = false
    ∧ file_is_waiting j1 = false ∧ file_skipped j1 = file_skipped j.
Proof.
  intros (Hj & Hs & Hc & Hw & _) He Hi. unfold open_data_stream.
  rewrite (sj_source _ _ Hj), (sender_nth _ _ Hj), He, Hs, Hi. cbn.
  eexists. split; [done|]. destruct Hj. by repeat split.
Qed.

Lemma init_closed_asks digest_of j k e i :
  detect = true → is_Some (digest_of j) →
  closed j k → fs !! k = Some e → names source !! components (join sb (name e)) = Some i →
  ∃ j1 md sz, init_job os_fine source digest_of j
    = (j1, [RDigest (mk_fdigest jid (Z.of_nat k) md sz false 0 false)])
    ∧ asking j1 k ∧ file_skipped j1 = file_skipped j.
Proof.
  intros Hd [[md sz] Hdig] Hcl He Hi. pose proof Hcl as (Hj & _).
  destruct (open_closed j k e i Hcl He Hi) as (j1 & Ho & Hj1 & Hs & Hc & Hw & Hk).
  unfold init_job, init_data_stream. rewrite (sj_last _ _ Hj), Ho, Hdig.
  rewrite (sj_type _ _ Hj1), (sj_detect _ _ Hj1), Hd, Hc, Hw. cbn [bool_decide andb negb].
  rewrite bool_decide_true by done. cbn [andb].
  exists (j1 <| file_is_waiting := true |>), md, sz. split; [|split; [|exact Hk]].
  - rewrite <- (sj_id _ _ Hj1), <- (sj_num _ _ Hj1). reflexivity.
  - split; [by destruct Hj1; split|]. repeat split; try done. eauto.
Qed.

Lemma read_going answers j k p c :
  going j k p → cs !! k = Some c → (∀ n, is_Some (answers n)) →
  if decide (p = length c) then
    read_step compress source answers j
      = (next_file j, [RBlock (mk_block jid (Z.of_nat k) [] false)], false)
  else ∃ j' b q,
    read_step compress source answers j = (j', [RBlock b], false)
    ∧ blk_id b = jid ∧ blk_file_num b = Z.of_nat k ∧ decoded decompress b = take q (drop p c)
    ∧ (0 < q)%nat ∧ (p + q ≤ length c)%nat ∧ going j' k (p + q).
Proof.
  intros (Hj & Hc & Hk & e & i & c' & He & Hn & Hi & Hcs & Hp & Hs) Hcs' Ha.
  rewrite Hcs in Hcs'. injection Hcs' as ->. pose proof Hj as Hj0. destruct Hj0 as [Hid Ht Hsrc' Hl Hf Hd Hnum Hle].
  unfold read_step, read. rewrite Hd, Hc, Ht.
  replace (bool_decide (Generic = Generic) && detect && negb detect) with false by (by destruct detect).
  unfold shown_name. rewrite Hsrc', (sender_nth _ _ Hj), He, Hs. cbv zeta. unfold stream_rest. rewrite Hi.
  cbn [default Datatypes.id]. pose proof BUF_SIZE_pos as HB. generalize dependent (Z.to_nat BUF_SIZE).
  intros B HB. rewrite fill_all by (done || lia). cbn [default Datatypes.id]. rewrite length_drop.
  destruct (decide (p = length c)) as [->|Hne].
  - rewrite Nat.sub_diag, Nat.min_0_r, Nat.eqb_refl. by rewrite Hid, Hnum.
  - set (q := Nat.min B (length c - p)). assert (0 < q ∧ p + q ≤ length c)%nat as [Hq Hpq] by lia.
    clearbody q. destruct (Nat.eqb_spec q 0); [lia|].
    set (comp := negb _ && _). set (out := if comp then _ else _).
    assert (decoded decompress (mk_block (id j) (file_num j) out comp) = take q (drop p c)) as Hdec.
    { unfold out, decoded. cbn [compressed data]. destruct comp; [apply Hdc|done]. }
    eexists _, _, q. split; [reflexivity|]. split_and!; [done..|].
    split; [by split|]. split; [done|]. split; [done|]. by exists e, i, c.
Qed.

Lemma init_going digest_of j k p : going j k p → init_job os_fine source digest_of j = (j, []).
Proof.
  intros (Hj & Hc & _ & e & i & c & He & _ & _ & _ & _ & Hs).
  unfold init_job, init_data_stream, open_data_stream.
  rewrite (sj_last _ _ Hj), (sj_source _ _ Hj), (sender_nth _ _ Hj), He, Hs, (sj_detect _ _ Hj), Hc.
  rewrite (sj_type _ _ Hj). by destruct detect.
Qed.

Lemma read_asking answers j k : asking j k → read_step compress source answers j = (j, [], false).
Proof.
  intros (Hj & Hd & Hc & Hw & _). unfold read_step, read.
  rewrite (sj_type _ _ Hj), (sj_detect _ _ Hj), Hc, Hd, bool_decide_true by done.
  cbn [andb negb]. unfold job_completed. by rewrite (sj_detect _ _ Hj), Hd, Hc, Hw.
Qed.

Lemma tick_asking digest_of answers j k : asking j k → tick digest_of answers j = ([j], []).
Proof.
  intros Hask. pose proof Hask as (Hj & Hd & Hc & Hw & e & i & He & _ & Hs).
  assert (init_job os_fine source digest_of j = (j, [])) as Hi.
  { unfold init_job, init_data_stream, open_data_stream.
    rewrite (sj_last _ _ Hj), (sj_source _ _ Hj), (sender_nth _ _ Hj), He, Hs, (sj_detect _ _ Hj), Hc, Hw, Hd.
    by rewrite (sj_type _ _ Hj). }
  by rewrite (tick_eq _ _ _ _ _ _ Hj Hi Hj), (read_asking _ _ _ Hask).
Qed.

Lemma init_closed_goes digest_of j k e c :
  detect = false → closed j k → fs !! k = Some e → cs !! k = Some c →
  ∃ j1, init_job os_fine source digest_of j = (j1, []) ∧ going j1 k 0.
Proof.
  intros Hd Hcl He Hc. pose proof Hcl as (Hj & _ & _ & _ & Hsk).
  destruct (source_at k e He) as (c' & i & Hc' & Hn & Hi). rewrite Hc in Hc'. injection Hc' as <-.
  destruct (open_closed j k e i Hcl He Hn) as (j1 & Ho & Hj1 & Hs & Hf & Hw & Hk).
  exists j1. unfold init_job, init_data_stream. rewrite (sj_last _ _ Hj), Ho, (sj_detect _ _ Hj1), Hd.
  rewrite andb_false_r. split; [done|]. split; [done|]. rewrite Hd. split; [done|]. split.
  - rewrite Hk. destruct (file_skipped j); [|done]. rewrite Hd in Hsk. by destruct Hsk.
  - exists e, i, c. split_and!; try done. lia.
Qed.

(** After the last file the job ends. *)
Lemma tick_end digest_of answers j :
  closed j (length fs) →
  ∃ m, tick digest_of answers j = ([], [m])
    ∧ (m = RDone jid (Z.of_nat (length fs))
       ∨ file_skipped j = true ∧ length fs = 1%nat ∧ ∃ e, m = RError jid e (Z.of_nat (length fs))).
Proof.
  intros (Hj & Hs & Hc & Hw & Hsk).
  assert (fs !! length fs = None) as He by (by apply lookup_ge_None).
  set (j1 := j <| data_stream := None |>).
  assert (sender_job j1 (length fs)) as Hj1 by (destruct Hj; by split).
  assert (init_job os_fine source digest_of j = (j1, [])) as Hi.
  { unfold init_job, init_data_stream, open_data_stream.
    by rewrite (sj_last _ _ Hj), (sj_source _ _ Hj), (sender_nth _ _ Hj), He. }
  rewrite (tick_eq _ _ _ _ _ _ Hj Hi Hj1).
  unfold read_step. assert (∃ j2, read compress source j1 answers = (j2, Ok None) ∧ sender_job j2 (length fs)
           ∧ job_completed j2 = true ∧ file_skipped j2 = file_skipped j) as (j2 & -> & Hj2 & Hcm & Hk).
  { unfold read. rewrite (sj_type _ _ Hj1). destruct (_ && _ && _) eqn:E.
    - exists j1. split_and!; try done. unfold job_completed. cbn. by rewrite Hc, Hw, orb_true_r.
    - unfold shown_name. rewrite (sj_source _ _ Hj1), (sender_nth _ _ Hj1), He.
      exists (j1 <| data_stream := None |>). split_and!; [done|by destruct Hj1; split| |done].
      unfold job_completed. cbn. by rewrite Hc, Hw, orb_true_r. }
  rewrite Hcm. eexists. split; [reflexivity|].
  rewrite (sj_id _ _ Hj2), (sj_num _ _ Hj2). unfold job_error, job_skipped. rewrite (sj_files _ _ Hj2), Hk.
  destruct (file_skipped j); cbn [andb]; [|by left].
  destruct (Nat.eqb_spec (length fs) 1); [|by left]. right. eauto.
Qed.

(** *** Confirmations at the sender *)
Lemma sender_confirm_go j k : asking j k →
  ∃ c, cs !! k = Some c ∧ going (confirm os_fine source j (Z.of_nat k) (OffsetBlk 0)).2 k 0.
Proof.
  intros (Hj & Hd & Hc & Hw & e & i & He & Hn & Hs). destruct (source_at k e He) as (c & i' & Hcs & Hn' & Hi).
  rewrite Hn in Hn'. injection Hn' as <-. exists c. split; [done|]. unfold confirm.
  rewrite (sj_num _ _ Hj), Z.eqb_refl. cbn. split; [by destruct Hj; split|]. split; [done|]. split; [done|].
  exists e, i, c. split_and!; try done. lia.
Qed.
Lemma sender_confirm_skip j k : asking j k →
  closed (confirm os_fine source j (Z.of_nat k) (Skip true)).2 (S k).
Proof.
  intros (Hj & Hd & Hc & Hw & e & i & He & Hn & Hs). unfold confirm.
  rewrite (sj_num _ _ Hj), Z.eqb_refl. cbn [negb]. apply lookup_lt_Some in He.
  split.
  - assert (sender_job (set_file_confirmed (j <| data_stream := None |>) false) k) as H by (by destruct Hj; split).
    apply sender_next in H; [|done]. by destruct H; split.
  - by split_and!.
Qed.

(** *** The receiving job *)
Definition final (e : FileEntry) : path := components (join db (name e)).
Definition partial (e : FileEntry) : path := components (join db (name e) ++ suffix_download).
Definition digest_path (e : FileEntry) : path := components (join db (name e) ++ suffix_digest).
Definition targets (e : FileEntry) : list path := [final e; partial e; digest_path e].

Context (Hval : ∀ k e, fs !! k = Some e → join_validated_path (meta os_fine) db (name e) = Ok (join db (name e))).
Context (Hdistinct : NoDup (fs ≫= targets)).

Lemma targets_nodup k e : fs !! k = Some e → NoDup (targets e).
Proof.
  intros (l1 & l2 & E & _)%list_elem_of_split_length. revert Hdistinct.
  rewrite E, bind_app, bind_cons. intros H.
  apply NoDup_app in H as (_ & _ & H). by apply NoDup_app in H as (H & _ & _).
Qed.
Lemma targets_apart k m e e' q :
  fs !! k = Some e → fs !! m = Some e' → q ∈ targets e → q ∈ targets e' → k = m.
Proof.
  assert (∀ a b ea eb, fs !! a = Some ea → fs !! b = Some eb → (a < b)%nat →
            q ∈ targets ea → q ∈ targets eb → False) as H.
  { intros a b ea eb Ha Hb Hab H1 H2. apply list_elem_of_split_length in Ha as (l1 & l2 & E & Hl).
    revert Hdistinct. rewrite E, bind_app, bind_cons. intros N.
    apply NoDup_app in N as (_ & _ & N). apply NoDup_app in N as (_ & N & _). apply (N q H1).
    apply list_elem_of_bind. exists eb. split; [done|]. rewrite E, lookup_app_r in Hb by lia.
    destruct (b - length l1)%nat as [|n] eqn:En; [lia|]. by eapply list_elem_of_lookup_2. }
  intros Hk Hm H1 H2. destruct (lt_eq_lt_dec k m) as [[Hlt|]|Hlt]; [|done|]; exfalso; eauto.
Qed.

Record receiver_job (j : TransferJob) : Prop := {
  rj_id : id j = jid;
  rj_type : type j = Generic;
  rj_source : data_source j = FilePath db;
  rj_files : files j = fs;
  rj_resume : is_resume j = false
}.

Lemma receiver_nth j k : receiver_job j → file_num j = Z.of_nat k → (k ≤ length fs)%nat →
  nth_file j = fs !! k.
Proof.
  intros H Hk Hle. unfold nth_file. rewrite (rj_files _ H), Hk. unfold as_usize.
  rewrite Z.mod_small by lia. by rewrite Nat2Z.id.
Qed.

(** Finishing the current file gives it its name. *)
Lemma finish_spec s j k e : store_ok s → receiver_job j → file_num j = Z.of_nat k → fs !! k = Some e →
  touches (λ q, q ∈ targets e) s (modify_time os_fine s j)
  ∧ (is_Some (names s !! partial e) → content (modify_time os_fine s j) (final e) = content s (partial e)).
Proof.
  intros Hok Hj Hk He. pose proof (lookup_lt_Some _ _ _ He) as Hlt. unfold modify_time, current_path.
  rewrite (rj_type _ Hj), (rj_source _ Hj), (receiver_nth _ _ Hj Hk), He by lia. cbn [mbind option_bind].
  unfold resolve_entry_path. rewrite (rj_type _ Hj), (Hval _ _ He). cbv zeta. unfold try_remove. cbn [remove_ok rename_ok os_fine].
  pose proof (remove_spec s (digest_path e) Hok) as Hrm.
  pose proof (rename_spec (remove_name s (digest_path e)) (partial e) (final e) (proj1 Hrm)) as [Hrn Hc].
  fold (digest_path e) (partial e) (final e). split.
  - eapply touches_trans; [eapply touches_weaken, Hrm|eapply touches_weaken, Hrn].
    + intros q <-. set_solver.
    + intros q [-> | ->]; set_solver.
  - pose proof (targets_nodup k e He) as Hnd. apply NoDup_cons in Hnd as [_ Hnd].
    apply NoDup_cons in Hnd as [Hnd _].
    assert (digest_path e ≠ partial e) as Hne by set_solver.
    destruct Hrm as [_ Hrm]. destruct (Hrm (partial e) Hne) as [Hn Hcn].
    intros Hp. by rewrite Hc, Hcn by by rewrite Hn.
Qed.
Lemma finish_none s j : receiver_job j → nth_file j = None → modify_time os_fine s j = s.
Proof.
  intros Hj Hn. unfold modify_time, current_path. by rewrite (rj_type _ Hj), (rj_source _ Hj), Hn.
Qed.

(** The partial download of [e] is open at its end and holds [w]. *)
Definition writing (s : store) (j : TransferJob) (e : FileEntry) (w : bytes) : Prop :=
  ∃ i, data_stream j = Some (FileStream i (length w) true)
       ∧ names s !! partial e = Some i ∧ content s (partial e) = Some w.

Lemma open_spec s j k e : store_ok s → receiver_job j → fs !! k = Some e →
  ∃ s' j', open_next os_fine digest_json s j db e = (s', j', None)
    ∧ touches (λ q, q ∈ targets e) s s' ∧ content s' (final e) = content s (final e)
    ∧ receiver_job j' ∧ file_num j' = file_num j ∧ writing s' j' e [].
Proof.
  intros Hok Hj He. unfold open_next. rewrite (rj_type _ Hj), (Hval _ _ He). cbv zeta.
  cbn [fmap option_fmap option_map default Datatypes.id remove_ok create_ok digest_written os_fine].
  fold (digest_path e) (partial e). rewrite andb_false_r. cbn [negb].
  set (s1 := if exists_file s (digest_path e) then _ else s).
  assert (touches (eq (digest_path e)) s s1) as H1.
  { unfold s1. case_match; [by apply remove_spec|by apply touches_refl]. }
  clearbody s1. pose proof (create_spec s1 (partial e) (proj1 H1)) as H2.
  destruct (create s1 (partial e)) as [s2 i]. destruct H2 as (H2 & Hi2 & Hc2).
  pose proof (create_spec s2 (digest_path e) (proj1 H2)) as H3.
  destruct (create s2 (digest_path e)) as [s3 d]. destruct H3 as (H3 & Hi3 & _).
  destruct (write_at_spec s3 (digest_path e) d 0 (digest_json (digest j)) (proj1 H3) Hi3) as [H4 _].
  pose proof (targets_nodup k e He) as Hnd. apply NoDup_cons in Hnd as [Hf Hnd].
  apply NoDup_cons in Hnd as [Hp _].
  assert (digest_path e ≠ partial e ∧ digest_path e ≠ final e ∧ partial e ≠ final e) as (N1 & N2 & N3) by set_solver.
  assert (∀ q, digest_path e ≠ q → names (write_at s3 d 0 (digest_json (digest j))) !! q = names s2 !! q
            ∧ content (write_at s3 d 0 (digest_json (digest j))) q = content s2 q) as H34.
  { intros q Hq. destruct (proj2 H4 q Hq) as [-> ->]. by apply H3. }
  eexists (write_at s3 d 0 (digest_json (digest j))), (j <| data_stream := Some (FileStream i 0 true) |>).
  split; [reflexivity|]. split; [|split; [|split; [|split; [done|]]]].
  - eapply touches_trans; [eapply touches_weaken, H1|]; [intros q <-; set_solver|].
    eapply touches_trans; [eapply touches_weaken, H2|]; [intros q <-; set_solver|].
    eapply touches_trans; [eapply touches_weaken, H3|eapply touches_weaken, H4]; intros q <-; set_solver.
  - rewrite (proj2 (H34 _ N2)). rewrite (proj2 (proj2 H2 _ N3)). by rewrite (proj2 (proj2 H1 _ N2)).
  - by destruct Hj; split.
  - exists i. split; [done|]. destruct (H34 _ N1) as [-> ->]. done.
Qed.

Lemma append_spec s j e w b : store_ok s → receiver_job j → writing s j e w →
  ∃ s' j', write_data os_fine decompress s j b = (s', j', None)
    ∧ touches (eq (partial e)) s s' ∧ receiver_job j' ∧ file_num j' = file_num j
    ∧ writing s' j' e (w ++ decoded decompress b).
Proof.
  intros Hok Hj (i & Hs & Hi & Hc). unfold write_data. rewrite Hs. cbv zeta. fold (decoded decompress b).
  cbn [write_all write_fails os_fine negb].
  destruct (write_at_spec s (partial e) i (length w) (decoded decompress b) Hok Hi) as [Ht Hc'].
  eexists _, _. split; [reflexivity|]. split; [done|]. split; [by destruct Hj; split|]. split; [done|].
  exists i. split; [|split; [done|]].
  - cbn. by rewrite length_app.
  - rewrite Hc', Hc. cbn. by rewrite overwrite_end.
Qed.

(** *** Where the receiver is *)
Context (s0 : store).

Definition untouched (s : store) (m : nat) : Prop :=
  ∀ e, fs !! m = Some e → content s (final e) = content s0 (final e).
Definition settled (sent : list SendConfirm) (s : store) (m : nat) : Prop :=
  ∀ e c, fs !! m = Some e → cs !! m = Some c →
    content s (final e) = if decide (skipped sent m) then content s0 (final e) else Some c.

(** [p] bytes of file [k] have arrived; the files before it are settled, apart
    from one that still has to be given its name. *)
Inductive progress (sent : list SendConfirm) (k : nat) : nat → store → TransferJob → Prop :=
| at_nothing s j :
    data_stream j = None → file_num j = Z.of_nat k →
    (∀ m, (m < k)%nat → settled sent s m) → progress sent k 0 s j
| at_previous f e c s j :
    (f < k)%nat → fs !! f = Some e → cs !! f = Some c → ¬ skipped sent f →
    file_num j = Z.of_nat f → writing s j e c →
    (∀ m, (m < k)%nat → m ≠ f → settled sent s m) → progress sent k 0 s j
| at_current e c p s j :
    (0 < p)%nat → fs !! k = Some e → cs !! k = Some c →
    file_num j = Z.of_nat k → writing s j e (take p c) →
    (∀ m, (m < k)%nat → settled sent s m) → progress sent k p s j.

Record receiver_at (sent : list SendConfirm) (k p : nat) (s : store) (j : TransferJob) : Prop := {
  ra_store : store_ok s;
  ra_job : receiver_job j;
  ra_progress : progress sent k p s j;
  ra_rest : ∀ m, (k ≤ m)%nat → m ≠ k ∨ p = 0%nat → untouched s m;
  ra_le : (k ≤ length fs)%nat
}.

Lemma final_frame s s' k m e e' : touches (λ q, q ∈ targets e) s s' →
  fs !! k = Some e → fs !! m = Some e' → m ≠ k → content s' (final e') = content s (final e').
Proof.
  intros [_ H] Hk Hm Hne. apply H. intros Hin. apply Hne. symmetry.
  eapply targets_apart; [exact Hk|exact Hm|exact Hin|]. set_solver.
Qed.
Lemma settled_frame sent s s' k m e : touches (λ q, q ∈ targets e) s s' →
  fs !! k = Some e → m ≠ k → settled sent s m → settled sent s' m.
Proof. intros Ht Hk Hne Hs e' c Hm Hc. rewrite (final_frame s s' k m e e') by done. by apply Hs. Qed.
Lemma untouched_frame s s' k m e : touches (λ q, q ∈ targets e) s s' →
  fs !! k = Some e → m ≠ k → untouched s m → untouched s' m.
Proof. intros Ht Hk Hne Hs e' Hm. rewrite (final_frame s s' k m e e') by done. by apply Hs. Qed.

(** What one block leaves. *)
Definition written_to (sent : list SendConfirm) (k : nat) (e : FileEntry) (w : bytes) (s : store) (j : TransferJob) : Prop :=
  store_ok s ∧ receiver_job j ∧ file_num j = Z.of_nat k ∧ writing s j e w
  ∧ (∀ m, (m < k)%nat → settled sent s m) ∧ ∀ m, (k < m)%nat → untouched s m.

Lemma written_frame sent k e w s j s' j' w' : touches (λ q, q ∈ targets e) s s' → fs !! k = Some e →
  written_to sent k e w s j → receiver_job j' → file_num j' = file_num j → writing s' j' e w' →
  written_to sent k e w' s' j'.
Proof.
  intros Ht He (Hok & Hj & Hn & Hw & Hs & Hu) Hj' Hn' Hw'. split; [apply Ht|]. split; [done|].
  split; [congruence|]. split; [done|]. split.
  - intros m Hm. eapply settled_frame; [exact Ht|exact He|lia|auto].
  - intros m Hm. eapply untouched_frame; [exact Ht|exact He|lia|auto].
Qed.

(** The first block of a file finishes the one before and starts it anew. *)
Lemma first_block sent k s j e c :
  receiver_at sent k 0 s j → fs !! k = Some e → cs !! k = Some c →
  ∃ s' j', open_next os_fine digest_json (modify_time os_fine s j) (j <| file_num := Z.of_nat k |>) db e
             = (s', j', None)
    ∧ written_to sent k e [] s' j'.
Proof.
  intros [Hok Hj Hp Hr _] He Hc.
  assert (store_ok (modify_time os_fine s j) ∧ (∀ m, (m < k)%nat → settled sent (modify_time os_fine s j) m)
          ∧ ∀ m, (k < m)%nat → untouched (modify_time os_fine s j) m) as (Hok1 & Hs1 & Hu1).
  { inversion Hp as [? ? Hst Hn Hset|f e' c' ? ? Hf He' Hc' Hsk Hn Hw Hset|]; subst; [| |lia].
    - destruct (finish_spec s j k e Hok Hj Hn He) as [Ht _]. split; [apply Ht|]. split; intros m Hm.
      + eapply settled_frame; [exact Ht|exact He|lia|auto].
      + eapply untouched_frame; [exact Ht|exact He|lia|]. apply Hr; lia.
    - destruct (finish_spec s j f e' Hok Hj Hn He') as [Ht Hcf]. split; [apply Ht|]. split; intros m Hm.
      + destruct (decide (m = f)) as [->|Hne]; [|eapply settled_frame; [exact Ht|exact He'|lia|auto]].
        intros e2 c2 He2 Hc2. rewrite He' in He2. rewrite Hc' in Hc2. injection He2 as <-. injection Hc2 as <-.
        destruct Hw as (i & _ & Hi & Hcw). rewrite decide_False, Hcf, Hcw by done. done.
      + eapply untouched_frame; [exact Ht|exact He'|lia|]. apply Hr; lia. }
  assert (receiver_job (j <| file_num := Z.of_nat k |>)) as Hj1 by (by destruct Hj; split).
  destruct (open_spec _ _ k e Hok1 Hj1 He) as (s' & j' & -> & Ht & _ & Hj' & Hn' & Hw).
  exists s', j'. split; [done|]. split; [apply Ht|]. split_and!; try done.
  - intros m Hm. eapply settled_frame; [exact Ht|exact He|lia|auto].
  - intros m Hm. eapply untouched_frame; [exact Ht|exact He|lia|auto].
Qed.

Lemma as_usize_nat k : (k ≤ length fs)%nat → as_usize (Z.of_nat k) = Z.of_nat k.
Proof. intros H. unfold as_usize. apply Z.mod_small. lia. Qed.

Lemma block_spec sent k p s j e c b :
  receiver_at sent k p s j → fs !! k = Some e → cs !! k = Some c →
  blk_id b = jid → blk_file_num b = Z.of_nat k →
  ∃ s' j', write os_fine decompress digest_json s j b = (s', j', None)
    ∧ written_to sent k e (take p c ++ decoded decompress b) s' j'.
Proof.
  intros Hat He Hc Hb Hnum. pose proof Hat as [Hok Hj Hp Hr Hle].
  assert (k < length fs)%nat as Hlt by (by eapply lookup_lt_Some).
  unfold write. rewrite (rj_id _ Hj), Hb, Z.eqb_refl, (rj_source _ Hj), Hnum, as_usize_nat by lia.
  cbn [negb]. rewrite Nat2Z.id, (rj_files _ Hj), He. cbv zeta.
  assert (∃ s1 j1, written_to sent k e (take p c) s1 j1 ∧
    (if negb (Z.of_nat k =? as_usize (file_num j)) || bool_decide (data_stream j = None)
     then True else s1 = s ∧ j1 = j) ∧
    (negb (Z.of_nat k =? as_usize (file_num j)) || bool_decide (data_stream j = None) = true →
     open_next os_fine digest_json (modify_time os_fine s j) (j <| file_num := Z.of_nat k |>) db e = (s1, j1, None)))
    as (s1 & j1 & Hw1 & Hold & Hnew).
  { destruct (negb _ || _) eqn:E.
    - assert (p = 0%nat) as ->.
      { inversion Hp as [| |? ? ? ? ? Hpp ? ? Hn (i & Hs & _)]; subst; try done. exfalso.
        rewrite Hn, as_usize_nat, Z.eqb_refl, Hs in E by lia. done. }
      destruct (first_block sent k s j e c Hat He Hc) as (s1 & j1 & Ho & Hw). exists s1, j1.
      split; [done|]. by split.
    - exists s, j. split; [|by split]. apply orb_false_iff in E as [E1 E2].
      apply negb_false_iff, Z.eqb_eq in E1. apply bool_decide_eq_false in E2.
      inversion Hp as [? ? Hs|f ? ? ? ? Hf ? ? ? Hn|e' c' ? ? ? Hpp He' Hc' Hn Hw Hset]; subst.
      + done.
      + exfalso. rewrite Hn, as_usize_nat in E1 by lia. lia.
      + simplify_eq. split_and!; try done. intros m Hm. apply Hr; lia. }
  pose proof Hw1 as (Hok1 & Hj1 & Hn1 & Hwr & _).
  destruct (append_spec s1 j1 e (take p c) b Hok1 Hj1 Hwr) as (s' & j' & Hwd & Ht & Hj' & Hn' & Hw').
  exists s', j'. split.
  - destruct (negb _ || _) eqn:E; [|destruct Hold as [<- <-]; done].
    cbn [sync_ok os_fine negb]. rewrite andb_false_r, Hnew by done. done.
  - eapply written_frame; [|done..]. eapply touches_weaken; [|exact Ht]. intros q <-. set_solver.
Qed.

(** *** The receiver's messages *)
Definition at_ (k p : nat) (r : receiver) : Prop :=
  ∃ j, r_jobs r = [j] ∧ receiver_at (r_sent r) k p (r_store r) j.
Definition finished (r : receiver) : Prop :=
  r_jobs r = [] ∧ ∀ m, (m < length fs)%nat → settled (r_sent r) (r_store r) m.

Lemma get_single j : id j = jid → get_job jid [j] = Some j.
Proof. intros H. unfold get_job. simpl. by rewrite decide_True. Qed.
Lemma with_single f j : id j = jid → with_job jid f [j] = [f j].
Proof. intros H. unfold with_job. simpl. by rewrite decide_True. Qed.
Lemma remove_single j : id j = jid → remove_job jid [j] = ([], Some j).
Proof. intros H. unfold remove_job. simpl. by rewrite decide_True. Qed.

Lemma job_op_single f r j : r_jobs r = [j] → id j = jid →
  job_op jid f r = mk_receiver (f (r_store r) j).1 [(f (r_store r) j).2] (r_asked r) (r_sent r).
Proof.
  intros Hr Hj. unfold job_op. rewrite Hr, get_single by done.
  destruct (f (r_store r) j) as [s' j']. by rewrite with_single.
Qed.

Definition respond (st : stat) : FileResponse → receiver → receiver :=
  on_response os_fine st decompress digest_json parse_digest support_resume.

Lemma block_arrives st k p r b e c :
  at_ k p r → fs !! k = Some e → cs !! k = Some c → blk_id b = jid → blk_file_num b = Z.of_nat k →
  ∃ j', respond st (RBlock b) r = mk_receiver (r_store (respond st (RBlock b) r)) [j'] (r_asked r) (r_sent r)
    ∧ written_to (r_sent r) k e (take p c ++ decoded decompress b) (r_store (respond st (RBlock b) r)) j'.
Proof.
  intros (j & Hr & Hat) He Hc Hb Hn. destruct (block_spec _ _ _ _ _ _ _ _ Hat He Hc Hb Hn) as (s' & j' & Hw & Hwt).
  exists j'. unfold respond, on_response. rewrite Hb, (job_op_single _ _ _ Hr), Hw; [done|]. apply Hat.
Qed.

Lemma block_more st k p q r b e c :
  at_ k p r → fs !! k = Some e → cs !! k = Some c → blk_id b = jid → blk_file_num b = Z.of_nat k →
  decoded decompress b = take q (drop p c) → (0 < q)%nat → at_ k (p + q) (respond st (RBlock b) r).
Proof.
  intros Hat He Hc Hb Hn Hd Hq. destruct (block_arrives st k p r b e c Hat He Hc Hb Hn) as (j' & -> & Hw).
  rewrite Hd, take_take_drop in Hw. destruct Hw as (Hok & Hj & Hnum & Hw & Hs & Hu).
  exists j'. split; [done|]. split; cbn; [done..| | |].
  - eapply at_current; [lia|done..].
  - intros m Hm [Hne|]; [|lia]. apply Hu. lia.
  - apply lookup_lt_Some in He. lia.
Qed.

Lemma block_last st k p r b e c :
  at_ k p r → fs !! k = Some e → cs !! k = Some c → ¬ skipped (r_sent r) k → blk_id b = jid →
  blk_file_num b = Z.of_nat k → decoded decompress b = [] → p = length c → at_ (S k) 0 (respond st (RBlock b) r).
Proof.
  intros Hat He Hc Hsk Hb Hn Hd ->. destruct (block_arrives st k _ r b e c Hat He Hc Hb Hn) as (j' & -> & Hw).
  rewrite Hd, firstn_all, app_nil_r in Hw. destruct Hw as (Hok & Hj & Hnum & Hw & Hs & Hu).
  exists j'. split; [done|]. split; cbn; [done..| | |].
  - eapply at_previous with (f := k); try done; [lia|]. intros m Hm Hne. apply Hs. lia.
  - intros m Hm _. apply Hu. lia.
  - apply lookup_lt_Some in He. lia.
Qed.

Lemma done_arrives st n r : at_ (length fs) 0 r → finished (respond st (RDone jid n) r).
Proof.
  intros (j & Hr & [Hok Hj Hp _ _]). unfold respond, on_response.
  rewrite Hr, get_single, remove_single by apply Hj. split; [done|]. cbn. intros m Hm.
  inversion Hp as [? ? Hst Hn Hset|f e' c' ? ? Hf He' Hc' Hsk Hn Hw Hset|]; subst; [| |lia].
  - rewrite finish_none; [auto|done|]. rewrite (receiver_nth _ _ Hj Hn) by lia. by apply lookup_ge_None.
  - destruct (finish_spec _ j f e' Hok Hj Hn He') as [Ht Hcf].
    destruct (decide (m = f)) as [->|Hne]; [|eapply settled_frame; [exact Ht|exact He'|lia|auto]].
    intros e2 c2 He2 Hc2. simplify_eq.
    destruct Hw as (i & _ & Hi & Hcw). rewrite decide_False, Hcf, Hcw by done. done.
Qed.
Lemma error_arrives st e n r :
  at_ (length fs) 0 r → length fs = 1%nat → skipped (r_sent r) 0 → finished (respond st (RError jid e n) r).
Proof.
  intros (j & Hr & [Hok Hj Hp _ _]) H1 Hsk. unfold respond, on_response.
  rewrite Hr, remove_single by apply Hj. split; [done|]. cbn. intros m Hm.
  inversion Hp as [? ? Hst Hn Hset|f e' c' ? ? Hf He' Hc' Hns Hn Hw Hset|]; subst; [auto| |lia].
  assert (f = 0)%nat as -> by lia. done.
Qed.

(** Flags of the job that the store does not depend on may change. *)
Lemma at_flags sent k p s j j' : receiver_at sent k p s j → receiver_job j' → file_num j' = file_num j →
  data_stream j' = data_stream j → receiver_at sent k p s j'.
Proof.
  intros [Hok Hj Hp Hr Hle] Hj' Hn Hs. split; try done.
  assert (∀ e w, writing s j e w → writing s j' e w) as Hw by (intros e w; unfold writing; by rewrite Hs).
  inversion Hp; subst; [eapply at_nothing|eapply at_previous|eapply at_current]; eauto; congruence.
Qed.

(** Which files before [k] are skipped is all that counts. *)
Lemma at_sent sent sent' k p s j : (∀ m, (m < k)%nat → skipped sent m ↔ skipped sent' m) →
  receiver_at sent k p s j → receiver_at sent' k p s j.
Proof.
  intros Hm [Hok Hj Hp Hr Hle]. split; try done.
  assert (∀ m, (m < k)%nat → settled sent s m → settled sent' s m) as Hset.
  { intros m Hlt H e c He Hc. rewrite (H e c He Hc).
    destruct (decide (skipped sent m)) as [H1|H1]; [rewrite decide_True|rewrite decide_False]; try done.
    - by apply Hm.
    - by rewrite <- Hm. }
  inversion Hp; subst; [eapply at_nothing|eapply at_previous|eapply at_current]; eauto.
  by rewrite <- Hm.
Qed.

Lemma skipped_app sent c m : skipped (sent ++ [c]) m ↔
  skipped sent m ∨ (sc_file_num c = Z.of_nat m ∧ sc_union c = Skip true).
Proof. unfold skipped. rewrite Exists_app, Exists_cons, Exists_nil. tauto. Qed.

Lemma reply_go k r :
  at_ k 0 r → at_ k 0 (reply os_fine jid (Z.of_nat k) (OffsetBlk 0) r)
  ∧ r_asked (reply os_fine jid (Z.of_nat k) (OffsetBlk 0) r) = r_asked r
  ∧ r_sent (reply os_fine jid (Z.of_nat k) (OffsetBlk 0) r) = r_sent r ++ [mk_confirm jid (Z.of_nat k) (OffsetBlk 0)].
Proof.
  intros (j & Hr & Hat). unfold reply. rewrite (job_op_single _ _ _ Hr) by apply Hat. split; [|by split].
  eexists. split; [reflexivity|]. cbn [r_sent r_store]. apply (at_sent (r_sent r)).
  { intros m _. rewrite skipped_app. cbn. naive_solver. }
  unfold confirm. destruct (negb _); [done|]. cbn. eapply at_flags; [exact Hat|by destruct (ra_job _ _ _ _ _ Hat); split|done..].
Qed.

Lemma reply_skip k r :
  (k < length fs)%nat →
  at_ k 0 r → at_ (S k) 0 (reply os_fine jid (Z.of_nat k) (Skip true) r)
  ∧ r_asked (reply os_fine jid (Z.of_nat k) (Skip true) r) = r_asked r
  ∧ r_sent (reply os_fine jid (Z.of_nat k) (Skip true) r) = r_sent r ++ [mk_confirm jid (Z.of_nat k) (Skip true)].
Proof.
  intros Hk (j & Hr & Hat). unfold reply. rewrite (job_op_single _ _ _ Hr) by apply Hat. split; [|by split].
  eexists. split; [reflexivity|]. cbn [r_sent r_store].
  set (sent := r_sent r ++ _).
  assert (∀ m, (m < k)%nat → skipped (r_sent r) m ↔ skipped sent m) as Hsent.
  { intros m Hm. unfold sent. rewrite skipped_app. cbn. split; [by left|]. intros [?|[? _]]; [done|lia]. }
  assert (skipped sent k) as Hsk by (unfold sent; rewrite skipped_app; by right).
  apply (at_sent _ sent) in Hat; [|done]. pose proof Hat as [Hok Hj Hp Hu Hle].
  assert (∀ m, (m < S k)%nat → ((m < k)%nat → settled sent (r_store r) m) → settled sent (r_store r) m) as Hset'.
  { intros m Hm H. destruct (decide (m = k)) as [->|]; [|apply H; lia].
    intros e c He Hc. rewrite decide_True by done. apply (Hu k); [lia|by right|done]. }
  unfold confirm. inversion Hp as [? ? Hst Hn Hset|f e' c' ? ? Hf He' Hc' Hns Hn Hw Hset|]; subst; [| |lia].
  - rewrite Hn, Z.eqb_refl. cbn [negb]. split; try done.
    + by destruct Hj; split.
    + apply at_nothing; [done| |].
      * cbn. rewrite Hn, Int.wrap_i32_id; [lia|]. unfold Int.in_i32, Int.i32_min, Int.i32_max. lia.
      * intros m Hm. apply Hset'; auto.
    + intros m Hm _. apply Hu; [lia|by right].
  - destruct (Z.eqb_spec (Z.of_nat k) (file_num j)); [lia|]. cbn [negb]. split; try done.
    + eapply at_previous with (f := f); try done; [lia|]. intros m Hm Hne. apply Hset'; auto.
    + intros m Hm _. apply Hu; [lia|by right].
Qed.

(** The confirmation of file [k] is sent. *)
Definition answered (k : nat) (r r' : receiver) : Prop :=
  r_asked r' = r_asked r ∧ ∃ c, r_sent r' = r_sent r ++ [mk_confirm jid (Z.of_nat k) c]
    ∧ ((c = OffsetBlk 0 ∧ at_ k 0 r') ∨ (c = Skip true ∧ at_ (S k) 0 r')).

Lemma reply_answers k r (b : bool) : (k < length fs)%nat → at_ k 0 r →
  answered k r (reply os_fine jid (Z.of_nat k) (if b then OffsetBlk 0 else Skip true) r).
Proof.
  intros Hk Hat. destruct b.
  - destruct (reply_go k r Hat) as (H1 & H2 & H3). split; [done|]. eauto.
  - destruct (reply_skip k r Hk Hat) as (H1 & H2 & H3). split; [done|]. eauto.
Qed.

Lemma at_set f k r : at_ k 0 r →
  (∀ j, receiver_job j → receiver_job (f j) ∧ file_num (f j) = file_num j ∧ data_stream (f j) = data_stream j) →
  at_ k 0 (job_op jid (λ s j, (s, f j)) r) ∧ r_asked (job_op jid (λ s j, (s, f j)) r) = r_asked r
  ∧ r_sent (job_op jid (λ s j, (s, f j)) r) = r_sent r.
Proof.
  intros (j & Hr & Hat) Hf. rewrite (job_op_single _ _ _ Hr) by apply Hat. split; [|done].
  eexists. split; [reflexivity|]. destruct (Hf j (ra_job _ _ _ _ _ Hat)) as (H1 & H2 & H3).
  by eapply at_flags.
Qed.

Lemma user_answers k r b remember : (k < length fs)%nat → at_ k 0 r →
  answered k r (on_user os_fine jid (Z.of_nat k) b remember r).
Proof.
  intros Hk Hat. unfold on_user. pose proof Hat as (j & Hr & Hj). rewrite Hr, get_single by apply Hj.
  destruct remember; [|by apply reply_answers].
  destruct (at_set (λ j, j <| default_overwrite_strategy := Some b |>) k r Hat) as (H1 & H2 & H3).
  { intros j1 Hj1. by destruct Hj1. }
  destruct (reply_answers k _ b Hk H1) as (H4 & c & H5 & H6).
  split; [by rewrite H4|]. exists c. by rewrite H5, H3.
Qed.

Lemma digest_arrives st k r md sz :
  (∀ p, meta_ok st p = true ∧ is_Some (mtime st p)) → (k < length fs)%nat → at_ k 0 r →
  let r' := respond st (RDigest (mk_fdigest jid (Z.of_nat k) md sz false 0 false)) r in
  answered k r r'
  ∨ (at_ k 0 r' ∧ r_asked r' = r_asked r ++ [(jid, Z.of_nat k)] ∧ r_sent r' = r_sent r).
Proof.
  intros Hst Hk Hat. pose proof Hat as (j & Hr & Hj). pose proof (ra_job _ _ _ _ _ Hj) as Hrj.
  cbv zeta. unfold respond, on_response, on_digest. cbn [is_upload fd_id fd_file_num file_size last_modified].
  rewrite Hr, get_single by apply Hrj. rewrite (rj_files _ Hrj), as_usize_nat, Nat2Z.id by lia.
  destruct (lookup_lt_is_Some_2 fs k Hk) as [e He]. rewrite He, (rj_source _ Hrj).
  destruct (at_set (λ j, set_digest j sz md) k r Hat) as (H1 & H2 & H3).
  { intros j1 Hj1. by destruct Hj1. }
  set (r1 := job_op jid _ r) in *. clearbody r1.
  assert (∃ a, digest_answer os_fine st parse_digest support_resume (r_store r1) j (join db (name e))
            (mk_fdigest jid (Z.of_nat k) md sz false 0 false) = a
          ∧ (a = Ask ∨ ∃ b : bool, a = Answer (if b then OffsetBlk 0 else Skip true)))
    as (a & -> & Ha).
  { eexists. split; [reflexivity|]. unfold digest_answer. rewrite (rj_resume _ Hrj), andb_false_r.
    unfold is_write_need_confirmation. cbv zeta. destruct (exists_file _ _) eqn:Hex; [|right; by exists true].
    destruct (Hst (components (join db (name e)))) as [-> [[secs nanos] ->]]. cbn [negb].
    assert (is_Some (content (r_store r1) (components (join db (name e))))) as [b ->].
    { unfold exists_file in Hex. apply bool_decide_eq_true in Hex as [i Hi]. unfold content. rewrite Hi.
      destruct H1 as (j1 & _ & H1). by apply (names_live _ (ra_store _ _ _ _ _ H1) _ _ Hi). }
    unfold answer_strategy. rewrite (rj_resume _ Hrj), andb_false_r. cbn [andb].
    destruct (default_overwrite_strategy j) as [[|]|]; [right; by exists true|right; by exists false|by left]. }
  destruct Ha as [-> |[b ->]].
  - right. split; [exact H1|]. cbn. by rewrite H2, H3.
  - left. destruct (reply_answers k r1 b Hk H1) as (H4 & c & H5 & H6).
    split; [by rewrite H4|]. exists c. by rewrite H5, H3.
Qed.

(** *** The invariant *)
Inductive phase := Closed (k : nat) | Asking (k : nat) | Going (k p : nat) | Over.

Definition quiet (x : sys) : Prop :=
  r_asked (receiving x) = [] ∧ confirmed_upto x = length (r_sent (receiving x)).
Definition plain (m : FileResponse) : Prop := match m with RDigest _ => False | _ => True end.
(** The receiver after what is on its way. *)
Definition drain (q : list FileResponse) (r : receiver) : receiver :=
  foldl (λ r m, respond (mk_stat (λ _, true) (λ _, None)) m r) r q.
Definition no_skip_from (k : nat) (sent : list SendConfirm) : Prop := ∀ m, (k ≤ m)%nat → ¬ skipped sent m.
Definition sent_of (x : sys) : list SendConfirm := r_sent (receiving x).
Definition offer (k : nat) (md sz : Z) : FileResponse := RDigest (mk_fdigest jid (Z.of_nat k) md sz false 0 false).

Inductive inv : phase → sys → Prop :=
| inv_closed k j x :
    sending x = [j] → closed j k → quiet x → Forall plain (forward x) →
    at_ k 0 (drain (forward x) (receiving x)) → no_skip_from k (sent_of x) →
    (file_skipped j = true → (0 < k)%nat ∧ skipped (sent_of x) (k - 1)) → inv (Closed k) x
| inv_offer k j x q md sz :
    sending x = [j] → asking j k → quiet x → forward x = q ++ [offer k md sz] → Forall plain q →
    at_ k 0 (drain q (receiving x)) → no_skip_from k (sent_of x) → inv (Asking k) x
| inv_question k j x :
    sending x = [j] → asking j k → forward x = [] → r_asked (receiving x) = [(jid, Z.of_nat k)] →
    confirmed_upto x = length (sent_of x) →
    at_ k 0 (receiving x) → no_skip_from k (sent_of x) → inv (Asking k) x
| inv_answer k j x sent c :
    sending x = [j] → asking j k → forward x = [] → r_asked (receiving x) = [] →
    sent_of x = sent ++ [mk_confirm jid (Z.of_nat k) c] → confirmed_upto x = length sent →
    (c = OffsetBlk 0 ∧ at_ k 0 (receiving x)) ∨ (c = Skip true ∧ at_ (S k) 0 (receiving x)) →
    no_skip_from k sent → inv (Asking k) x
| inv_going k p j x :
    sending x = [j] → going j k p → quiet x → Forall plain (forward x) →
    at_ k p (drain (forward x) (receiving x)) → no_skip_from k (sent_of x) → inv (Going k p) x
| inv_over x :
    sending x = [] → quiet x → Forall plain (forward x) →
    finished (drain (forward x) (receiving x)) → inv Over x.

Definition rest (k : nat) : nat := sum_list ((λ c : bytes, length c + 3)%nat <$> drop k cs).
Definition weight (ph : phase) : nat :=
  match ph with
  | Closed k => rest k + 1
  | Asking k => rest k
  | Going k p => rest (S k) + (length (default [] (cs !! k)) - p) + 2
  | Over => 0
  end.
Definition measure (ph : phase) (x : sys) : nat :=
  10 * weight ph + 3 * length (forward x) + 2 * length (r_asked (receiving x))
  + (length (sent_of x) - confirmed_upto x).

Lemma rest_step k c : cs !! k = Some c → rest k = (length c + 3 + rest (S k))%nat.
Proof. intros Hc. unfold rest. by rewrite (drop_S _ _ _ Hc). Qed.

Lemma drain_app q m r : drain (q ++ [m]) r = respond (mk_stat (λ _, true) (λ _, None)) m (drain q r).
Proof. unfold drain. by rewrite foldl_app. Qed.
Lemma drain_cons m q r : drain (m :: q) r = drain q (respond (mk_stat (λ _, true) (λ _, None)) m r).
Proof. reflexivity. Qed.
Lemma respond_plain st m r : plain m →
  respond st m r = respond (mk_stat (λ _, true) (λ _, None)) m r.
Proof. by destruct m. Qed.

Lemma job_op_keeps i f r : r_asked (job_op i f r) = r_asked r ∧ r_sent (job_op i f r) = r_sent r.
Proof. unfold job_op. destruct (get_job i (r_jobs r)); [|done]. by destruct (f (r_store r) _). Qed.
Lemma respond_keeps st m r : plain m →
  r_asked (respond st m r) = r_asked r ∧ r_sent (respond st m r) = r_sent r.
Proof.
  destruct m as [b|i n|i e n|d]; intros Hm; [apply job_op_keeps| |done|done].
  unfold respond, on_response. by destruct (get_job i (r_jobs r)).
Qed.
Lemma drain_keeps q r : Forall plain q → r_asked (drain q r) = r_asked r ∧ r_sent (drain q r) = r_sent r.
Proof.
  revert r. induction q as [|m q IH]; intros r Hq; [done|]. apply Forall_cons in Hq as [Hm Hq].
  rewrite drain_cons. destruct (IH (respond (mk_stat (λ _, true) (λ _, None)) m r) Hq) as [-> ->].
  by apply respond_keeps.
Qed.

Definition fire : sys → event → sys :=
  step compress decompress digest_json parse_digest support_resume source.
Definition moves (ph : phase) (x : sys) (e : event) : Prop :=
  ∃ ph', inv ph' (fire x e) ∧ (measure ph' (fire x e) < measure ph x)%nat.

(** One message more on its way. *)
Lemma push_measure ph ph' x jobs out :
  (weight ph' < weight ph)%nat → (length out ≤ 1)%nat →
  (measure ph' (mk_sys jobs (forward x ++ out) (receiving x) (confirmed_upto x)) < measure ph x)%nat.
Proof. intros Hw Ho. unfold measure, sent_of. cbn [forward receiving confirmed_upto]. rewrite length_app. lia. Qed.

Lemma fire_tick x j digest_of answers jobs out : sending x = [j] → tick digest_of answers j = (jobs, out) →
  fire x (Tick digest_of answers) = mk_sys jobs (forward x ++ out) (receiving x) (confirmed_upto x).
Proof. intros Hx Ht. unfold fire, step. rewrite Hx. unfold tick in Ht. by rewrite Ht. Qed.

Lemma quiet_push x jobs out : quiet x → quiet (mk_sys jobs (forward x ++ out) (receiving x) (confirmed_upto x)).
Proof. done. Qed.

(** A tick of a job that is sending. *)
Lemma going_moves digest_of answers k p j x jb jobs out :
  sending x = [jb] → tick digest_of answers jb = (jobs, out) →
  (let '(j2, out2, fin) := read_step compress source answers j in
   jobs = (if fin : bool then [] else [j2]) ∧ out = out2) →
  (∀ n, is_Some (answers n)) → going j k p → quiet x → Forall plain (forward x) →
  at_ k p (drain (forward x) (receiving x)) → no_skip_from k (sent_of x) →
  ∀ ph, (weight (Going k p) ≤ weight ph)%nat → moves ph x (Tick digest_of answers).
Proof.
  intros Hx Ht Hread Ha Hg Hq Hp Hat Hns ph Hw. unfold moves. rewrite (fire_tick _ _ _ _ _ _ Hx Ht).
  pose proof Hg as (Hj & _ & Hsk & e & i & c & He & _ & _ & Hc & Hpc & _).
  pose proof (read_going answers j k p c Hg Hc Ha) as Hr.
  assert (k < length fs)%nat as Hlt by (by eapply lookup_lt_Some).
  destruct (drain_keeps _ (receiving x) Hp) as [_ Hds]. destruct (decide (p = length c)) as [->|Hne].
  - rewrite Hr in Hread. destruct Hread as [-> ->]. exists (Closed (S k)). split.
    + eapply inv_closed; [reflexivity| |done| | | |].
      * split; [by apply sender_next|]. cbn. rewrite Hsk. done.
      * cbn. apply Forall_app. split; [done|]. by repeat constructor.
      * cbn [forward receiving]. rewrite drain_app. eapply block_last; [done..| |done|done|done|done].
        rewrite Hds. apply Hns. lia.
      * intros m Hm. apply Hns. lia.
      * cbn. by rewrite Hsk.
    + apply push_measure; [|cbn; lia]. cbn in Hw |- *. rewrite Hc in Hw. cbn in Hw. lia.
  - destruct Hr as (j' & b & q & Hr & Hb & Hn & Hd & Hq0 & Hpq & Hg'). rewrite Hr in Hread.
    destruct Hread as [-> ->]. exists (Going k (p + q)). split.
    + eapply inv_going; [reflexivity|done|done| | |done].
      * cbn. apply Forall_app. split; [done|]. by repeat constructor.
      * cbn [forward receiving]. rewrite drain_app. by eapply block_more.
    + apply push_measure; [|cbn; lia]. cbn in Hw |- *. rewrite Hc in Hw |- *. cbn in Hw |- *. lia.
Qed.

Lemma tick_moves digest_of answers ph x :
  event_fine (Tick digest_of answers) → inv ph x →
  match ph with
  | Closed _ | Going _ _ => moves ph x (Tick digest_of answers)
  | _ => fire x (Tick digest_of answers) = x
  end.
Proof.
  intros [Hdig Ha] Hi.
  assert (∀ j k, sending x = [j] → asking j k → fire x (Tick digest_of answers) = x) as Hask.
  { intros j k Hx Hj. rewrite (fire_tick _ _ _ _ _ _ Hx (tick_asking _ _ _ _ Hj)), app_nil_r, <- Hx. by destruct x. }
  destruct Hi as [k j x Hx Hj Hq Hp Hat Hns Hsk|k j x q md sz Hx Hj|k j x Hx Hj|k j x sent c Hx Hj
    |k p j x Hx Hj Hq Hp Hat Hns|x Hx Hq Hp Hf]; try (by eapply Hask).
  - destruct (decide (k = length fs)) as [->|Hne].
    + destruct (tick_end digest_of answers j Hj) as (m & Ht & Hm). exists Over.
      rewrite (fire_tick _ _ _ _ _ _ Hx Ht). split; [|apply push_measure; cbn; lia].
      destruct (drain_keeps _ (receiving x) Hp) as [_ Hds].
      apply inv_over; [done|done| |].
      * cbn. apply Forall_app. split; [done|]. destruct Hm as [->|(_ & _ & e & ->)]; by repeat constructor.
      * cbn [forward receiving]. rewrite drain_app. destruct Hm as [->|(Hs & H1 & e & ->)].
        -- by apply done_arrives.
        -- apply error_arrives; [done..|]. rewrite Hds. destruct (Hsk Hs) as [_ H]. by rewrite H1 in H.
    + pose proof (sj_le _ _ (proj1 Hj)) as Hle.
      destruct (lookup_lt_is_Some_2 fs k) as [e He]; [lia|].
      destruct (source_at k e He) as (c & i & Hc & Hn & Hin).
      destruct (decide (detect = true)) as [Hd|Hd%not_true_is_false].
      * destruct (init_closed_asks digest_of j k e i Hd (Hdig j) Hj He Hn) as (j1 & md & sz & Hin1 & Hj1 & Hk1).
        assert (tick digest_of answers j = ([j1], [offer k md sz])) as Ht.
        { by rewrite (tick_eq _ _ _ _ _ _ (proj1 Hj) Hin1 (proj1 Hj1)), (read_asking _ _ _ Hj1). }
        exists (Asking k). rewrite (fire_tick _ _ _ _ _ _ Hx Ht). split.
        -- by eapply inv_offer.
        -- apply push_measure; cbn; lia.
      * destruct (init_closed_goes digest_of j k e c Hd Hj He Hc) as (j1 & Hin1 & Hg).
        destruct (tick digest_of answers j) as [jobs out] eqn:Ht.
        eapply going_moves; [exact Hx|exact Ht| |done|exact Hg|done..|].
        -- rewrite (tick_eq _ _ _ _ _ _ (proj1 Hj) Hin1 (proj1 Hg)) in Ht.
           destruct (read_step compress source answers j1) as [[j2 out2] fin]. by injection Ht as <- <-.
        -- cbn. rewrite (rest_step k c Hc), Hc. cbn. lia.
  - destruct (tick digest_of answers j) as [jobs out] eqn:Ht.
    eapply going_moves; [exact Hx|exact Ht| |done|exact Hj|done..].
    rewrite (tick_eq _ _ _ _ _ _ (proj1 Hj) (init_going _ _ _ _ Hj) (proj1 Hj)) in Ht.
    destruct (read_step compress source answers j) as [[j2 out2] fin]. by injection Ht as <- <-.
  - unfold fire, step. rewrite Hx. cbn. rewrite app_nil_r, <- Hx. by destruct x.
Qed.

Lemma asking_lt j k : asking j k → (k < length fs)%nat.
Proof. intros (_ & _ & _ & _ & e & i & He & _). by eapply lookup_lt_Some. Qed.

(** An answer that was just sent. *)
Lemma answered_inv k j x r' q :
  sending x = [j] → asking j k → quiet x ∨ confirmed_upto x = length (sent_of x) → no_skip_from k (sent_of x) →
  r_sent r' = sent_of x → r_asked r' = [] → answered k r' q →
  inv (Asking k) (mk_sys (sending x) [] q (confirmed_upto x)).
Proof.
  intros Hx Hj Hq Hns Hs Ha (Ha' & c & Hs' & Hc). eapply inv_answer with (sent := sent_of x) (c := c); try done.
  - cbn. congruence.
  - unfold sent_of at 1. cbn. by rewrite Hs', Hs.
  - cbn. by destruct Hq as [[_ ?]|?].
Qed.

Lemma answered_measure k x q (r' : receiver) :
  answered k r' q → r_sent r' = sent_of x → r_asked r' = [] → confirmed_upto x = length (sent_of x) →
  (2 ≤ 3 * length (forward x) + 2 * length (r_asked (receiving x)))%nat →
  (measure (Asking k) (mk_sys (sending x) [] q (confirmed_upto x)) < measure (Asking k) x)%nat.
Proof.
  intros (Ha' & c & Hs' & _) Hs Ha Hup Hle. unfold measure, sent_of in *.
  cbn [forward receiving confirmed_upto length]. rewrite Ha', Ha, Hs', Hs, Hup, length_app. cbn [length]. lia.
Qed.

Definition after_arrival (x : sys) (q : list FileResponse) (r : receiver) : sys :=
  mk_sys (sending x) q r (confirmed_upto x).

Lemma plain_arrives st ph x m q : inv ph x → forward x = m :: q → plain m →
  inv ph (after_arrival x q (respond st m (receiving x))).
Proof.
  intros Hi Hfw Hm. destruct (respond_keeps st m (receiving x) Hm) as [Ha Hs].
  assert (∀ q', drain (m :: q') (receiving x) = drain q' (respond st m (receiving x))) as Hdr.
  { intros q'. by rewrite drain_cons, (respond_plain st). }
  assert (quiet x → quiet (after_arrival x q (respond st m (receiving x)))) as Hquiet.
  { unfold quiet, after_arrival. cbn. by rewrite Ha, Hs. }
  assert (sent_of (after_arrival x q (respond st m (receiving x))) = sent_of x) as Hsent by exact Hs.
  destruct Hi as [k j x Hx Hj Hq Hp Hat Hns Hsk|k j x q1 md sz Hx Hj Hq Hf Hp Hat Hns|k j x Hx Hj Hf|k j x sent c Hx Hj Hf
    |k p j x Hx Hj Hq Hp Hat Hns|x Hx Hq Hp Hfin]; try congruence.
  - rewrite Hfw, Hdr in Hat. rewrite Hfw in Hp. apply Forall_cons in Hp as [_ Hp].
    eapply inv_closed; eauto; by rewrite Hsent.
  - rewrite Hfw in Hf. destruct q1 as [|m1 q1]; injection Hf as -> ->; [done|].
    rewrite Hdr in Hat. apply Forall_cons in Hp as [_ Hp].
    eapply inv_offer; eauto. by rewrite Hsent.
  - rewrite Hfw, Hdr in Hat. rewrite Hfw in Hp. apply Forall_cons in Hp as [_ Hp].
    eapply inv_going; eauto. by rewrite Hsent.
  - rewrite Hfw, Hdr in Hfin. rewrite Hfw in Hp. apply Forall_cons in Hp as [_ Hp]. by apply inv_over; auto.
Qed.

Lemma arrive_moves st ph x m q : event_fine (Arrive st) → inv ph x → forward x = m :: q →
  moves ph x (Arrive st).
Proof.
  intros Hst Hi Hfw. exists ph.
  assert (fire x (Arrive st) = after_arrival x q (respond st m (receiving x))) as ->.
  { unfold fire, step. by rewrite Hfw. }
  assert (plain m → inv ph (after_arrival x q (respond st m (receiving x)))
    ∧ (measure ph (after_arrival x q (respond st m (receiving x))) < measure ph x)%nat) as Hplain.
  { intros Hm. split; [by apply plain_arrives|]. destruct (respond_keeps st m (receiving x) Hm) as [Ha Hs].
    unfold measure, sent_of, after_arrival. cbn [forward receiving confirmed_upto]. rewrite Ha, Hs, Hfw. cbn [length]. lia. }
  destruct Hi as [k j x Hx Hj Hq Hp Hat Hns Hsk|k j x q1 md sz Hx Hj Hq Hf Hp Hat Hns|k j x Hx Hj Hf|k j x sent c Hx Hj Hf
    |k p j x Hx Hj Hq Hp Hat Hns|x Hx Hq Hp Hfin]; try congruence.
  1, 3, 4: apply Hplain; rewrite Hfw in Hp; by apply Forall_cons in Hp as [Hm _].
  rewrite Hfw in Hf. destruct q1 as [|m1 q1].
  2: { injection Hf as -> ->. apply Hplain. by apply Forall_cons in Hp as [Hm _]. }
  injection Hf as -> ->. pose proof Hq as [Hask Hup].
  destruct (digest_arrives st k (receiving x) md sz Hst (asking_lt _ _ Hj) Hat) as [Hr|(Hr & Ha & Hs)].
  - fold (offer k md sz) in Hr. split.
    + eapply answered_inv; [exact Hx|exact Hj|by left|done| |exact Hask|exact Hr]. done.
    + eapply answered_measure; [exact Hr|done..|]. rewrite Hfw. cbn. lia.
  - fold (offer k md sz) in Hr, Ha, Hs. split.
    + assert (sent_of (after_arrival x [] (respond st (offer k md sz) (receiving x))) = sent_of x) as Hsent by exact Hs.
      eapply inv_question; [exact Hx|exact Hj|reflexivity| | |exact Hr|by rewrite Hsent].
      * cbn [after_arrival receiving]. by rewrite Ha, Hask.
      * by rewrite Hsent.
    + unfold measure, sent_of, after_arrival. cbn [forward receiving confirmed_upto]. rewrite Ha, Hs, Hask, Hfw. cbn [length app]. lia.
Qed.

Lemma user_moves b remember ph x i q : inv ph x → r_asked (receiving x) = i :: q →
  moves ph x (UserAnswers b remember).
Proof.
  intros Hi Hasked. exists ph.
  destruct Hi as [k j x Hx Hj Hq Hp Hat Hns Hsk|k j x q1 md sz Hx Hj Hq Hf Hp Hat Hns|k j x Hx Hj Hf Ha Hup Hat Hns|k j x sent c Hx Hj Hf
    |k p j x Hx Hj Hq Hp Hat Hns|x Hx Hq Hp Hfin]; try (destruct Hq; congruence); try congruence.
  set (r := mk_receiver (r_store (receiving x)) (r_jobs (receiving x)) [] (r_sent (receiving x))).
  assert (at_ k 0 r) as Hr by exact Hat.
  pose proof (user_answers k r b remember (asking_lt _ _ Hj) Hr) as Hans.
  assert (fire x (UserAnswers b remember)
    = mk_sys (sending x) [] (on_user os_fine jid (Z.of_nat k) b remember r) (confirmed_upto x)) as ->.
  { unfold fire, step. rewrite Ha, Hf. done. }
  split.
  - eapply answered_inv; [exact Hx|exact Hj|by right|done| | |exact Hans]; done.
  - eapply answered_measure; [exact Hans|done..|]. rewrite Ha. cbn. lia.
Qed.

Lemma confirm_moves ph x c : inv ph x → sent_of x !! confirmed_upto x = Some c → moves ph x ConfirmArrives.
Proof.
  intros Hi Hc. unfold moves.
  assert (confirmed_upto x ≠ length (sent_of x)) as Hlen.
  { apply lookup_lt_Some in Hc. lia. }
  destruct Hi as [k j x Hx Hj Hq Hp Hat Hns Hsk|k j x q1 md sz Hx Hj Hq Hf Hp Hat Hns|k j x Hx Hj Hf Ha Hup Hat Hns|k j x sent c' Hx Hj Hf Ha Hs Hup Hat Hns
    |k p j x Hx Hj Hq Hp Hat Hns|x Hx Hq Hp Hfin]; try (by destruct (Hlen (proj2 Hq))); try (by destruct (Hlen Hup)).
  assert (c = mk_confirm jid (Z.of_nat k) c') as ->.
  { rewrite Hs, Hup in Hc. rewrite list_lookup_middle in Hc by done. by injection Hc as <-. }
  assert (fire x ConfirmArrives = mk_sys [(confirm os_fine source j (Z.of_nat k) c').2] [] (receiving x) (S (confirmed_upto x))) as ->.
  { unfold fire, step. unfold sent_of in Hc. rewrite Hc, Hf, Hx. unfold on_send_confirm. cbn [sc_id sc_file_num sc_union].
    rewrite with_single; [done|]. apply Hj. }
  assert (∀ m, skipped (sent_of x) m ↔ skipped sent m ∨ (Z.of_nat k = Z.of_nat m ∧ c' = Skip true)) as Hsk.
  { intros m. by rewrite Hs, skipped_app. }
  assert (∀ ph', (weight ph' < weight (Asking k))%nat →
    (measure ph' (mk_sys [(confirm os_fine source j (Z.of_nat k) c').2] [] (receiving x) (S (confirmed_upto x))) < measure (Asking k) x)%nat) as Hmeas.
  { intros ph' Hw. unfold measure, sent_of in *. cbn [forward receiving confirmed_upto]. rewrite Ha, Hf. cbn [length]. lia. }
  assert (∀ jj, quiet (mk_sys jj [] (receiving x) (S (confirmed_upto x)))) as Hquiet.
  { intros jj. split; [done|]. cbn. unfold sent_of in Hs. rewrite Hs, Hup, length_app. cbn. lia. }
  destruct Hat as [[-> Hat]|[-> Hat]].
  - destruct (sender_confirm_go j k Hj) as (c & Hcs & Hg). exists (Going k 0). split.
    + eapply inv_going; [reflexivity|exact Hg|done|done|done|]. intros m Hm. change (¬ skipped (sent_of x) m).
      rewrite Hsk. intros [H|[_ ?]]; [by apply (Hns m Hm)|done].
    + apply Hmeas. cbn. rewrite (rest_step k c Hcs), Hcs. cbn. lia.
  - exists (Closed (S k)). split.
    + eapply inv_closed; [reflexivity|by apply sender_confirm_skip|done|done|done| |].
      * intros m Hm. change (¬ skipped (sent_of x) m). rewrite Hsk.
        intros [H|[? _]]; [|lia]. apply (Hns m); [lia|done].
      * intros _. split; [lia|]. change (skipped (sent_of x) (S k - 1)). rewrite Hsk. right. split; [lia|done].
    + pose proof (asking_lt _ _ Hj) as Hlt. apply Hmeas. cbn.
      destruct (lookup_lt_is_Some_2 cs k) as [c Hcs]; [by rewrite <- (Forall2_length _ _ _ Hsrc)|].
      rewrite (rest_step k c Hcs). lia.
Qed.

Lemma fire_inv ph x e : event_fine e → inv ph x → ∃ ph', inv ph' (fire x e).
Proof.
  assert (moves ph x e → ∃ ph', inv ph' (fire x e)) as Hm by (intros (ph' & H & _); eauto).
  intros He Hi. destruct e as [d a|st| |b rem].
  - pose proof (tick_moves d a ph x He Hi) as H. destruct ph; auto; exists (Asking k) || exists Over; by rewrite H.
  - destruct (forward x) as [|m q] eqn:Hf; [|apply Hm; by eapply arrive_moves].
    exists ph. unfold fire, step. by rewrite Hf.
  - destruct (sent_of x !! confirmed_upto x) as [c|] eqn:Hc; [apply Hm; by eapply confirm_moves|].
    exists ph. unfold fire, step. unfold sent_of in Hc. by rewrite Hc.
  - destruct (r_asked (receiving x)) as [|i q] eqn:Ha; [|apply Hm; by eapply user_moves].
    exists ph. unfold fire, step. by rewrite Ha.
Qed.

(** While something is left to do, some step brings the end closer. *)
Lemma inv_progress ph x : inv ph x → complete x ∨ ∃ e, event_fine e ∧ moves ph x e.
Proof.
  intros Hi.
  assert (∀ ph', ph = ph' → match ph' with Closed _ | Going _ _ => True | _ => False end →
    ∃ e, event_fine e ∧ moves ph x e) as Htick.
  { intros ph' <- H. set (e := Tick (λ _, Some (0, 0)) (λ _, Some 0%nat)).
    assert (event_fine e) as He by (split; by eexists). exists e. split; [done|].
    pose proof (tick_moves _ _ _ _ He Hi) as Ht. by destruct ph. }
  assert (∀ m q, forward x = m :: q → ∃ e, event_fine e ∧ moves ph x e) as Harr.
  { intros m q Hf. set (e := Arrive (mk_stat (λ _, true) (λ _, Some (0, 0)))).
    assert (event_fine e) as He by (intros p; split; [done|by eexists]). exists e. split; [done|].
    by eapply arrive_moves. }
  pose proof Hi as Hi0.
  destruct Hi as [k j x Hx Hj Hq Hp Hat Hns Hsk|k j x q1 md sz Hx Hj Hq Hf Hp Hat Hns|k j x Hx Hj Hf Ha Hup Hat Hns|k j x sent c' Hx Hj Hf Ha Hs Hup Hat Hns
    |k p j x Hx Hj Hq Hp Hat Hns|x Hx Hq Hp Hfin].
  - right. by eapply Htick.
  - right. destruct q1; by eapply Harr.
  - right. exists (UserAnswers true false). split; [done|]. by eapply user_moves.
  - right. exists ConfirmArrives. split; [done|]. eapply confirm_moves; [done|].
    rewrite Hs, Hup. by apply list_lookup_middle.
  - right. by eapply Htick.
  - destruct (forward x) as [|m q] eqn:Hf; [by left|]. right. by eapply Harr.
Qed.

Lemma inv_completes ph x : inv ph x → ∃ evs, Forall event_fine evs ∧ complete (foldl fire x evs).
Proof.
  remember (measure ph x) as n eqn:Hn. revert ph x Hn. induction (lt_wf n) as [n _ IH].
  intros ph x -> Hi. destruct (inv_progress ph x Hi) as [Hc|(e & He & ph' & Hi' & Hlt)]; [by exists []|].
  destruct (IH _ Hlt ph' _ eq_refl Hi') as (evs & Hevs & Hc). exists (e :: evs). split; [by constructor|done].
Qed.

Lemma inv_complete ph x : inv ph x → complete x → finished (receiving x).
Proof. intros Hi [Hx Hf]. destruct Hi; try congruence. rewrite Hf in *. done. Qed.

Lemma run_inv evs ph x : Forall event_fine evs → inv ph x → ∃ ph', inv ph' (foldl fire x evs).
Proof.
  revert ph x. induction evs as [|e evs IH]; intros ph x Hevs Hi; [by eexists|].
  apply Forall_cons in Hevs as [He Hevs]. destruct (fire_inv ph x e He Hi) as [ph' Hi']. by eapply IH.
Qed.

Lemma start_inv jr jw : store_ok s0 → closed jr 0 → file_skipped jr = false →
  receiver_job jw → data_stream jw = None → file_num jw = 0 →
  inv (Closed 0) (mk_sys [jr] [] (mk_receiver s0 [jw] [] []) 0).
Proof.
  intros Hok Hcl Hsk Hjw Hs Hn. eapply inv_closed; [reflexivity|done|done|constructor| | |].
  - exists jw. split; [done|]. split; [done|done|apply at_nothing; [done..|]|by intros m _ _ e|lia].
    intros m Hm. lia.
  - intros m _ H. by apply Exists_nil in H.
  - by rewrite Hsk.
Qed.

Lemma delivers jr jw evs : store_ok s0 → closed jr 0 → file_skipped jr = false →
  receiver_job jw → data_stream jw = None → file_num jw = 0 → Forall event_fine evs →
  let x := foldl fire (mk_sys [jr] [] (mk_receiver s0 [jw] [] []) 0) evs in
  (complete x → r_jobs (receiving x) = [] ∧ ∀ m e c, fs !! m = Some e → cs !! m = Some c →
     content (r_store (receiving x)) (final e)
     = if decide (skipped (r_sent (receiving x)) m) then content s0 (final e) else Some c)
  ∧ ∃ evs', Forall event_fine evs' ∧ complete (foldl fire x evs').
Proof.
  intros Hok Hcl Hsk Hjw Hs Hn Hevs x.
  destruct (run_inv evs _ _ Hevs (start_inv jr jw Hok Hcl Hsk Hjw Hs Hn)) as [ph Hi]. split.
  - intros Hc. destruct (inv_complete ph x Hi Hc) as [Hr Hset]. split; [done|].
    intros m e c He Hcm. apply Hset; [|done..]. by eapply lookup_lt_Some.
  - by eapply inv_completes.
Qed.
End delivery.

(** ** Transfers *)
Lemma names_valid files : validate_names files = Ok tt →
  Forall (λ e, validate_file_name_no_traversal false (name e) = Ok tt) files.
Proof.
  induction files as [|e files IH]; simpl; [done|]. case_bool_decide as Hn; [done|].
  destruct (validate_file_name_no_traversal false (name e)) as [[]|] eqn:He; [|done].
  intros H. constructor; [done|auto].
Qed.
Lemma transfer_names_valid files : validate_transfer_file_names files = Ok tt →
  Forall (λ e, validate_file_name_no_traversal false (name e) = Ok tt) files.
Proof.
  unfold validate_transfer_file_names. destruct files as [|e [|]]; [by repeat constructor| |apply names_valid].
  case_bool_decide as H; [|apply names_valid]. intros _. constructor; [|done]. by rewrite H.
Qed.
Lemma first_error_none es : first_error es = None → Forall (λ r, r = Ok tt) es.
Proof. induction es as [|[[]|] es IH]; simpl; [done| |done]. intros H. constructor; auto. Qed.

(** A list the receiver accepted can be written. *)
Lemma set_files_valid j fl db j' : data_source j = FilePath db → set_files os_fine j fl = Ok j' →
  j' = j <| total_size := total fl |> <| files := fl |> ∧
  ∀ k e, fl !! k = Some e → join_validated_path (meta os_fine) db (name e) = Ok (join db (name e)).
Proof.
  intros Hs. unfold set_files. rewrite Hs.
  destruct (validate_transfer_file_names fl) as [[]|] eqn:Hv; [|done].
  destruct (first_error _) eqn:Hf; [done|]. intros [= <-]. split; [done|]. intros k e He.
  apply transfer_names_valid in Hv. apply first_error_none in Hf. rewrite Forall_fmap in Hf.
  pose proof (Forall_lookup_1 _ _ _ _ Hv He) as H1. pose proof (Forall_lookup_1 _ _ _ _ Hf He) as H2.
  unfold join_validated_path. cbn beta in H1, H2. by rewrite H1, H2.
Qed.

(** C7: A download delivers its files, when both systems do what they are asked. Two
    ends run a transfer over queues
    that keep their order: the sender reads in pieces of whatever size the
    system gives, compresses where that is smaller, and waits for each file to
    be agreed on; the receiver writes each file beside its final name, asks the
    user where the file exists, and names it when it is whole. In every
    interleaving of their steps, once the sender has no job left and its queue is
    empty, every file holds the bytes of the source, except those the receiver
    said to skip, which are as they were before; left-over partial downloads
    make no difference. And from every state some continuation gets there: the
    two ends never wait for each other. This is of a job for fewer than 2^31 files that
    begins anew and is not resumed (see [resumed_later_file_loses_its_head]), whose sources open and can be read
    and do not change (see [unreadable_file_ends_transfer]); the receiver's system creates, writes, renames
    and removes what it is asked and has no symbolic links; the paths of different files and of
    their temporaries differ, and decompressing undoes compressing. *)
Theorem transfer_delivers (compress decompress : bytes → bytes) (digest_json : FileDigest → bytes)
    (parse_digest : bytes → option FileDigest) (support_resume detect od : bool)
    (source s0 : store) (jid : Z) (sb db : str) (fs : list FileEntry) (cs : list bytes)
    (jr jw : TransferJob) (evs : list event) :
  (∀ b, decompress (compress b) = b) →
  Z.of_nat (length fs) < 2 ^ 31 →
  Forall2 (λ e c, content source (components (join sb (name e))) = Some c) fs cs →
  NoDup (fs ≫= targets db) → store_ok s0 →
  new_read jid Generic (FilePath sb) (Ok fs) 0 detect = Ok jr →
  set_files os_fine (new_write jid Generic (FilePath db) 0 od) fs = Ok jw →
  Forall event_fine evs →
  let go := run compress decompress digest_json parse_digest support_resume source in
  let x := go (mk_sys [jr] [] (mk_receiver s0 [jw] [] []) 0) evs in
  (complete x →
     r_jobs (receiving x) = [] ∧
     ∀ m e c, fs !! m = Some e → cs !! m = Some c →
       content (r_store (receiving x)) (final db e)
       = if decide (skipped (r_sent (receiving x)) m) then content s0 (final db e) else Some c)
  ∧ ∃ evs', Forall event_fine evs' ∧ complete (go x evs').
Proof.
  intros Hdc Hsmall Hsrc Hnd Hok Hjr Hjw Hevs go x.
  apply (set_files_valid _ _ db) in Hjw as [-> Hval]; [|done]. injection Hjr as <-.
  eapply (delivers compress decompress Hdc digest_json parse_digest support_resume source jid sb db
    detect fs cs Hsmall Hsrc Hval Hnd s0); try done.
  split; [|done]. split; try done. lia.
Qed.

(** Two files, one of them already there, which the user keeps. *)
Definition sample_source : store :=
  let '(s, i) := create empty_store (components (lit "/s/a")) in
  let s := write_at s i 0 (lit_bytes "alpha") in
  let '(s, i) := create s (components (lit "/s/sub/b")) in
  write_at s i 0 (lit_bytes "beta").
Definition sample_target : store :=
  let '(s, i) := create empty_store (components (lit "/d/a")) in
  write_at s i 0 (lit_bytes "mine").
Definition sample_files : list FileEntry := [mk_entry (lit "a") 5 0; mk_entry (lit "sub/b") 4 0].
Definition sample_stat : stat := mk_stat (λ _, true) (λ _, Some (7, 0)).
Definition sample_events : list event :=
  let tick := Tick (λ _, Some (0, 5)) (λ _, Some 3%nat) in
  [tick; Arrive sample_stat; UserAnswers false false; ConfirmArrives; tick; tick; Arrive sample_stat; ConfirmArrives;
   tick; tick; Arrive sample_stat; Arrive sample_stat; tick; tick; Arrive sample_stat].
Definition sample_sys : sys :=
  mk_sys [mk_job 1 Generic (FilePath (lit "/s")) false false 0 sample_files None 9 0 0 true false false false None (mk_digest 0 0)]
    [] (mk_receiver sample_target
          [mk_job 1 Generic (FilePath (lit "/d")) false false 0 sample_files None 9 0 0 true false false false None (mk_digest 0 0)]
          [] []) 0.
Lemma sample_target_ok : store_ok sample_target.
Proof.
  assert (store_ok empty_store) as H0 by (split; simpl; intros *; by rewrite lookup_empty).
  pose proof (create_spec empty_store (components (lit "/d/a")) H0) as Hc. unfold sample_target.
  destruct (create empty_store (components (lit "/d/a"))) as [s i]. destruct Hc as (Ht & Hi & _).
  apply (write_at_spec s _ i 0 (lit_bytes "mine") (proj1 Ht) Hi).
Qed.

Lemma transfer_delivers_witness :
  let x := run (λ b, b) (λ b, b) (λ _, []) (λ _, None) true sample_source sample_sys sample_events in
  complete x
  ∧ content (r_store (receiving x)) (final (lit "/d") (mk_entry (lit "a") 5 0)) = Some (lit_bytes "mine")
  ∧ content (r_store (receiving x)) (final (lit "/d") (mk_entry (lit "sub/b") 4 0)) = Some (lit_bytes "beta").
Proof.
  cbv zeta.
  destruct (transfer_delivers (λ b, b) (λ b, b) (λ _, []) (λ _, None) true true true sample_source sample_target
    1 (lit "/s") (lit "/d") sample_files [lit_bytes "alpha"; lit_bytes "beta"]
    (mk_job 1 Generic (FilePath (lit "/s")) false false 0 sample_files None 9 0 0 true false false false None (mk_digest 0 0))
    (mk_job 1 Generic (FilePath (lit "/d")) false false 0 sample_files None 9 0 0 true false false false None (mk_digest 0 0))
    sample_events) as [H _].
  - done.
  - done.
  - repeat constructor; vm_compute; reflexivity.
  - apply (bool_decide_eq_true (NoDup (sample_files ≫= targets (lit "/d")))). vm_compute. reflexivity.
  - exact sample_target_ok.
  - vm_compute. reflexivity.
  - vm_compute. reflexivity.
  - unfold sample_events. repeat constructor; simpl; eauto.
  - fold sample_sys in H.
    assert (complete (run (λ b, b) (λ b, b) (λ _, []) (λ _, None) true sample_source sample_sys sample_events)) as Hc.
    { split; vm_compute; reflexivity. }
    split; [exact Hc|]. destruct (H Hc) as [_ Hf]. split.
    + rewrite (Hf 0%nat _ _ eq_refl eq_refl). vm_compute. reflexivity.
    + rewrite (Hf 1%nat _ _ eq_refl eq_refl). vm_compute. reflexivity.
Defined.

(** ** Two transfers that go wrong *)

(** With overwrite detection one file that cannot be opened ends the job, which
    is reported as done: the files after it are never sent. *)
Example unreadable_file_ends_transfer :
  let job := mk_job 1 Generic (FilePath (lit "/s")) false false 0
               [mk_entry (lit "gone") 5 0; mk_entry (lit "sub/b") 4 0] None 9 0 0 true false false false None (mk_digest 0 0) in
  handle_read_jobs os_fine (λ b, b) sample_source (λ _, Some (0, 5)) (λ _, Some 3%nat) [job]
  = ([], [RError 1 (lit "open failed") 1; RDone 1 1]).
Proof. vm_compute. reflexivity. Qed.

(** When a resumed transfer reaches a later file that has a partial download
    too, the sender skips what is there and the receiver starts afresh. *)
Example resumed_later_file_loses_its_head :
  let target :=
    let '(s, i) := create empty_store (components (lit "/d/sub/b.download")) in
    let s := write_at s i 0 (lit_bytes "be") in (create s (components (lit "/d/sub/b.digest"))).1 in
  let tick := Tick (λ _, Some (0, 4)) (λ _, Some 3%nat) in
  let x := run (λ b, b) (λ b, b) (λ _, []) (λ _, Some (mk_digest 4 0)) true sample_source
    (mk_sys [mk_job 1 Generic (FilePath (lit "/s")) false false 0 sample_files None 9 0 0 true false false false None (mk_digest 0 0)]
       [] (mk_receiver target
             [mk_job 1 Generic (FilePath (lit "/d")) false true 0 sample_files None 9 0 0 true false false false None (mk_digest 0 0)]
             [] []) 0)
    [tick; Arrive sample_stat; ConfirmArrives; tick; tick; Arrive sample_stat; Arrive sample_stat;
     tick; Arrive sample_stat; ConfirmArrives; tick; tick; tick; Arrive sample_stat; Arrive sample_stat; Arrive sample_stat] in
  complete x ∧ r_sent (receiving x) = [mk_confirm 1 0 (OffsetBlk 0); mk_confirm 1 1 (OffsetBlk 2)]
  ∧ content (r_store (receiving x)) (components (lit "/d/a")) = Some (lit_bytes "alpha")
  ∧ content (r_store (receiving x)) (components (lit "/d/sub/b")) = Some (lit_bytes "ta").
Proof. vm_compute. done. Qed.
