(* ===== verification/Resampler.v ===== *)
(** * Audio resampling

    [src/src/audio_resampler.rs] with the linear backend (the default feature
    [use_dasp]): packets of a fixed size out of a stream of samples at another
    rate. A call that would index out of a slice, which panics, is [None]. *)
From Stdlib Require Import SpecFloat.
From S2P Require Import Prelude F32.
Local Open Scope Z_scope.

Definition fadd : f32 → f32 → f32 := SFadd 24 128.
Definition fsub : f32 → f32 → f32 := SFsub 24 128.

Definition INTERPOLATION_MARGIN_FRAMES : Z := 2.
Definition PENDING_PACKET_CAPACITY : Z := 2.

Record AudioResamplerConfig := mk_config { input_rate : Z; output_rate : Z; config_channels : Z }.
Inductive AudioResamplerError :=
| InvalidConfig (c : AudioResamplerConfig)
| InvalidOutputFrameSize (output_frames : Z)
| IncompleteFrame (samples channels : Z)
| CapacityOverflow.

(** [usize] operations that report their overflow. *)
Definition checked (z : Z) : result AudioResamplerError Z :=
  if z <=? Int.usize_max then Ok z else Err CapacityOverflow.

Definition validate_config (c : AudioResamplerConfig) : result AudioResamplerError Z :=
  if (input_rate c =? 0) || (output_rate c =? 0) || (config_channels c =? 0)
  then Err (InvalidConfig c) else Ok (config_channels c).
Definition validate_input (input : list f32) (channels : Z) : result AudioResamplerError unit :=
  if Z.of_nat (length input) mod channels =? 0 then Ok ()
  else Err (IncompleteFrame (Z.of_nat (length input)) channels).

(** ** The linear backend *)
Record StreamingLinearAudioResampler := mk_linear {
  config : AudioResamplerConfig;
  channels : Z;
  buffered_samples : list f32;
  next_position : Z                (* in output_rate-ths of an input frame *)
}.
#[export] Instance linear_eta : Eta StreamingLinearAudioResampler := λ r,
  mk_linear (config r) (channels r) (buffered_samples r) (next_position r).

Definition linear_new (c : AudioResamplerConfig) : result AudioResamplerError StreamingLinearAudioResampler :=
  channels ← validate_config c; Ok (mk_linear c channels [] 0).

Definition output_capacity (r : StreamingLinearAudioResampler) (input_samples : Z)
    : result AudioResamplerError Z :=
  let input_frames := input_samples / channels r in
  scaled ← checked (input_frames * output_rate (config r));
  let scaled_frames := scaled / input_rate (config r) in
  frames ← checked (scaled_frames + INTERPOLATION_MARGIN_FRAMES);
  checked (frames * channels r).

Definition at_index (l : list f32) (i : Z) : option f32 := l !! Z.to_nat i.

(** One sample between two frames. *)
Definition interpolate (current next weight : f32) : f32 := fadd current (fmul (fsub next current) weight).

(** [Some None] is [false]: there is no frame to write yet. *)
Definition write_next_frame (r : StreamingLinearAudioResampler) : option (option (list f32)) :=
  let rate := output_rate (config r) in
  let frame_count := Z.of_nat (length (buffered_samples r)) / channels r in
  let frame := next_position r / rate in
  let fraction := next_position r mod rate in
  if (frame_count <=? frame) || (negb (fraction =? 0) && (frame_count <=? frame + 1)) then Some None
  else
    let weight := fdiv (f32_of_Z fraction) (f32_of_Z rate) in
    let next_frame := frame + (if fraction =? 0 then 0 else 1) in
    Some <$> mapM (λ channel,
      current ← at_index (buffered_samples r) (frame * channels r + Z.of_nat channel);
      next ← at_index (buffered_samples r) (next_frame * channels r + Z.of_nat channel);
      Some (interpolate current next weight)) (seq 0 (Z.to_nat (channels r))).

(** The loop of [process_into]. *)
Fixpoint write_frames (fuel : nat) (r : StreamingLinearAudioResampler) (output : list f32)
    : option (StreamingLinearAudioResampler * list f32) :=
  match fuel with
  | O => None
  | S fuel =>
      match write_next_frame r with
      | None => None
      | Some None => Some (r, output)
      | Some (Some frame) =>
          write_frames fuel
            (r <| next_position := Int.wrap_u64 (next_position r + input_rate (config r)) |>)
            (output ++ frame)
      end
  end.

Definition discard_consumed_frames (r : StreamingLinearAudioResampler) : StreamingLinearAudioResampler :=
  let rate := output_rate (config r) in
  let available_frames := Z.of_nat (length (buffered_samples r)) / channels r in
  let consumed_frames := Z.min (next_position r / rate) available_frames in
  r <| buffered_samples := drop (Z.to_nat (consumed_frames * channels r)) (buffered_samples r) |>
    <| next_position := next_position r - consumed_frames * rate |>.

Definition process_into (r : StreamingLinearAudioResampler) (input output : list f32)
    : option (result AudioResamplerError (StreamingLinearAudioResampler * list f32)) :=
  match validate_input input (channels r) with
  | Err e => Some (Err e)
  | Ok _ =>
      match output_capacity r (Z.of_nat (length input)) with
      | Err e => Some (Err e)
      | Ok capacity =>
          (* the loop writes within the capacity, so that many tries are enough *)
          '(r, output) ← write_frames (S (Z.to_nat capacity))
                           (r <| buffered_samples ::= λ b, b ++ input |>) output;
          Some (Ok (discard_consumed_frames r, output))
      end
  end.

(** ** Packets of a fixed size *)
Record FixedFrameAudioResampler := mk_fixed {
  resampler : StreamingLinearAudioResampler;
  output_samples : Z;
  pending_samples : list f32
}.

Definition fixed_new (c : AudioResamplerConfig) (output_frames : Z)
    : result AudioResamplerError FixedFrameAudioResampler :=
  if output_frames =? 0 then Err (InvalidOutputFrameSize output_frames)
  else
    channels ← validate_config c;
    output_samples ← checked (output_frames * channels);
    scaled ← checked (output_frames * input_rate c);
    let input_frames := (scaled + output_rate c - 1) / output_rate c in
    pending ← checked (output_samples * PENDING_PACKET_CAPACITY);
    _ ← checked (pending + channels * INTERPOLATION_MARGIN_FRAMES);
    r ← linear_new c;
    reserved ← checked (input_frames + INTERPOLATION_MARGIN_FRAMES);
    _ ← checked (reserved * channels);
    Ok (mk_fixed r output_samples []).

Fixpoint chunks_exact {A} (fuel n : nat) (l : list A) : list (list A) :=
  match fuel with
  | O => []
  | S fuel => if (length l <? n)%nat then [] else take n l :: chunks_exact fuel n (drop n l)
  end.

Definition process_with (f : FixedFrameAudioResampler) (input : list f32)
    : option (result AudioResamplerError (FixedFrameAudioResampler * list (list f32))) :=
  r ← process_into (resampler f) input (pending_samples f);
  match r with
  | Err e => Some (Err e)
  | Ok (resampler, pending) =>
      let complete_samples := Z.of_nat (length pending) / output_samples f * output_samples f in
      let complete := take (Z.to_nat complete_samples) pending in
      Some (Ok (mk_fixed resampler (output_samples f) (drop (Z.to_nat complete_samples) pending),
                chunks_exact (length complete) (Z.to_nat (output_samples f)) complete))
  end.

(** A sequence of inputs; one that is refused changes nothing. *)
Fixpoint process_all (f : FixedFrameAudioResampler) (inputs : list (list f32))
    : option (FixedFrameAudioResampler * list (list f32)) :=
  match inputs with
  | [] => Some (f, [])
  | input :: inputs =>
      r ← process_with f input;
      match r with
      | Err _ => process_all f inputs
      | Ok (f, packets) => '(f, rest) ← process_all f inputs; Some (f, packets ++ rest)
      end
  end.

(** ** The stream, all at once

    Output frame [k] lies at [k * input_rate / output_rate] input frames. *)
Definition sample (l : list f32) (i : Z) : f32 := default S754_nan (at_index l i).
Definition frame_at (c : AudioResamplerConfig) (input : list f32) (k : nat) : list f32 :=
  let position := Z.of_nat k * input_rate c in
  let frame := position / output_rate c in
  let fraction := position mod output_rate c in
  let next_frame := frame + (if fraction =? 0 then 0 else 1) in
  (λ channel, interpolate (sample input (frame * config_channels c + Z.of_nat channel))
                          (sample input (next_frame * config_channels c + Z.of_nat channel))
                          (fdiv (f32_of_Z fraction) (f32_of_Z (output_rate c))))
  <$> seq 0 (Z.to_nat (config_channels c)).
(** The frames that need no input beyond the first [frames] frames. *)
Definition count (c : AudioResamplerConfig) (frames : Z) : nat :=
  if frames <=? 0 then 0 else Z.to_nat ((frames - 1) * output_rate c / input_rate c + 1).
Definition resample (c : AudioResamplerConfig) (input : list f32) : list f32 :=
  concat (frame_at c input <$> seq 0 (count c (Z.of_nat (length input) / config_channels c))).

Definition valid_config (c : AudioResamplerConfig) : Prop :=
  0 < input_rate c < 2 ^ 32 ∧ 0 < output_rate c < 2 ^ 32 ∧ 0 < config_channels c < 2 ^ 16.

Example halving : (* two frames for one, between its neighbours *)
  resample (mk_config 1 2 1) (f32_of_Z <$> [0; 2; 4]) = f32_of_Z <$> [0; 1; 2; 3; 4].
Proof. vm_compute. reflexivity. Qed.

Lemma mapM_all {A B} (f : A → option B) (g : A → B) l :
  (∀ x, x ∈ l → f x = Some (g x)) → mapM f l = Some (g <$> l).
Proof.
  induction l as [|x l IH]; intros H; [done|]. simpl. rewrite H by set_solver. simpl.
  rewrite IH; [done|]. set_solver.
Qed.

Section linear.
Context (c : AudioResamplerConfig) (Hc : valid_config c).
Let ch := config_channels c.
Let inr := input_rate c.
Let out := output_rate c.

Lemma count_spec F k : 0 <= F → ((k < count c F)%nat ↔ 0 < F ∧ Z.of_nat k * inr <= (F - 1) * out).
Proof.
  intros HF. unfold count. fold inr out. destruct Hc as (Hi & Ho & _). fold inr in Hi. fold out in Ho.
  destruct (Z.leb_spec F 0); [split; intros; lia|].
  assert (0 <= (F - 1) * out) by (apply Z.mul_nonneg_nonneg; lia).
  pose proof (Z.div_pos ((F - 1) * out) inr ltac:(lia) ltac:(lia)).
  split.
  - intros Hk. split; [lia|]. assert (Z.of_nat k <= (F - 1) * out / inr) as Hle by lia.
    apply (Z.mul_le_mono_nonneg_r _ _ inr) in Hle; [|lia].
    pose proof (Z.mul_div_le ((F - 1) * out) inr ltac:(lia)) as Hd. rewrite Z.mul_comm in Hd. lia.
  - intros [_ Hk]. assert (Z.of_nat k <= (F - 1) * out / inr); [|lia].
    apply Z.div_le_lower_bound; [lia|]. by rewrite Z.mul_comm.
Qed.

Lemma outputs_mono F F' : 0 <= F <= F' → (count c F ≤ count c F')%nat.
Proof.
  intros HF. destruct Hc as (Hi & Ho & _). fold out in Ho.
  apply Nat.nlt_ge. intros Hlt. apply count_spec in Hlt as [H1 H2]; [|lia].
  assert (count c F' < count c F')%nat as H; [|lia].
  apply count_spec; [lia|]. split; [lia|].
  etransitivity; [exact H2|]. apply Z.mul_le_mono_nonneg_r; lia.
Qed.

(** The frame position [k] falls in. *)
Lemma position_split k : ∃ q m, Z.of_nat k * inr = out * q + m ∧ 0 <= m < out ∧ 0 <= q
  ∧ Z.of_nat k * inr / out = q ∧ (Z.of_nat k * inr) mod out = m.
Proof.
  destruct Hc as (Hi & Ho & _). fold inr in Hi. fold out in Ho.
  exists (Z.of_nat k * inr / out), ((Z.of_nat k * inr) mod out).
  assert (0 <= Z.of_nat k * inr) by (apply Z.mul_nonneg_nonneg; lia).
  split; [apply Z.div_mod; lia|]. split; [apply Z.mod_pos_bound; lia|].
  split; [apply Z.div_pos; lia|]. done.
Qed.

Lemma ready F k q m : 0 <= F → Z.of_nat k * inr = out * q + m → 0 <= m < out → 0 <= q →
  (k < count c F)%nat ↔ q < F ∧ (m ≠ 0 → q + 1 < F).
Proof.
  intros HF Hk Hm Hq0. rewrite count_spec, Hk by done. split.
  - intros [H0 H]. assert (out * q <= out * (F - 1)) as Hq by lia.
    apply Z.mul_le_mono_pos_l in Hq; [|lia]. split; [lia|]. intros Hm0.
    destruct (Z.eq_dec q (F - 1)) as [->|]; lia.
  - intros [H1 H2]. split; [lia|]. destruct (Z.eq_dec m 0) as [->|Hm0].
    + assert (out * q <= out * (F - 1)) by (apply Z.mul_le_mono_nonneg_l; lia). lia.
    + specialize (H2 Hm0). assert (out * (q + 1) <= out * (F - 1)) by (apply Z.mul_le_mono_nonneg_l; lia). lia.
Qed.

(** *** One backend *)
Let frames (l : list f32) : Z := Z.of_nat (length l) / ch.
Definition whole (l : list f32) : Prop := Z.of_nat (length l) mod ch = 0.
#[export] Instance whole_dec l : Decision (whole l).
Proof. unfold whole. apply _. Defined.

Lemma whole_length l : whole l → Z.of_nat (length l) = frames l * ch.
Proof.
  unfold whole, frames. intros H. destruct Hc as (_ & _ & Hch). fold ch in Hch.
  rewrite (Z.div_mod (Z.of_nat (length l)) ch) at 1 by lia. lia.
Qed.
Lemma frames_of l F : Z.of_nat (length l) = F * ch → frames l = F ∧ whole l.
Proof.
  intros H. destruct Hc as (_ & _ & Hch). fold ch in Hch. unfold frames, whole. rewrite H.
  split; [by apply Z.div_mul; lia|by apply Z.mod_mul; lia].
Qed.

(** Of the input [X] the first [D] frames are discarded, and the next frame to
    write is frame [k] of the stream. *)
Record holds (X : list f32) (D : Z) (k : nat) (r : StreamingLinearAudioResampler) : Prop := {
  h_config : config r = c;
  h_channels : channels r = ch;
  h_whole : whole X;
  h_kept : 0 <= D <= frames X;
  h_buffer : buffered_samples r = drop (Z.to_nat (D * ch)) X;
  h_position : next_position r = Z.of_nat k * inr - D * out;
  h_nonneg : 0 <= next_position r
}.

Lemma buffer_frames X D k r : holds X D k r → Z.of_nat (length (buffered_samples r)) / channels r = frames X - D.
Proof.
  intros H. rewrite (h_buffer _ _ _ _ H), (h_channels _ _ _ _ H), length_drop.
  pose proof (whole_length X (h_whole _ _ _ _ H)) as HX. pose proof (h_kept _ _ _ _ H) as HD.
  destruct Hc as (_ & _ & Hch). fold ch in Hch.
  assert (0 <= D * ch) by (apply Z.mul_nonneg_nonneg; lia).
  assert (D * ch <= frames X * ch) by (apply Z.mul_le_mono_nonneg_r; lia).
  rewrite Nat2Z.inj_sub, Z2Nat.id, HX by lia. rewrite <- Z.mul_sub_distr_r. apply Z.div_mul. lia.
Qed.

(** A sample of a kept frame is where the buffer has it. *)
Lemma kept_sample X D k r i channel : holds X D k r → 0 <= i < frames X - D → (channel < Z.to_nat ch)%nat →
  at_index (buffered_samples r) (i * channels r + Z.of_nat channel)
  = Some (sample X ((i + D) * ch + Z.of_nat channel)).
Proof.
  intros H Hi Hchn. destruct Hc as (_ & _ & Hch). fold ch in Hch. pose proof (h_kept _ _ _ _ H) as HD.
  pose proof (whole_length X (h_whole _ _ _ _ H)) as HX.
  rewrite (h_channels _ _ _ _ H). unfold at_index. rewrite (h_buffer _ _ _ _ H), lookup_drop.
  assert (0 <= D * ch) by (apply Z.mul_nonneg_nonneg; lia).
  assert (0 <= i * ch) by (apply Z.mul_nonneg_nonneg; lia).
  assert ((i + D + 1) * ch <= frames X * ch) by (apply Z.mul_le_mono_nonneg_r; lia).
  replace (Z.to_nat (D * ch) + Z.to_nat (i * ch + Z.of_nat channel))%nat
    with (Z.to_nat ((i + D) * ch + Z.of_nat channel)) by lia.
  unfold sample, at_index.
  destruct (lookup_lt_is_Some_2 X (Z.to_nat ((i + D) * ch + Z.of_nat channel))) as [x ->]; [lia|done].
Qed.

Lemma write_spec X D k r : holds X D k r →
  write_next_frame r = Some (if decide (k < count c (frames X))%nat then Some (frame_at c X k) else None).
Proof.
  intros H. unfold write_next_frame. rewrite (buffer_frames _ _ _ _ H).
  rewrite (h_config _ _ _ _ H). fold out. pose proof (h_kept _ _ _ _ H) as HD.
  destruct (position_split k) as (q & m & Hk & Hm & Hq & Hdiv & Hmod).
  destruct Hc as (Hi & Ho & Hch). fold ch in Hch. fold out in Ho.
  assert (next_position r = out * (q - D) + m) as Hpos by (rewrite (h_position _ _ _ _ H), Hk; lia).
  assert (next_position r / out = q - D) as -> by (symmetry; eapply Z.div_unique_pos; [exact Hm|done]).
  assert (next_position r mod out = m) as -> by (symmetry; eapply Z.mod_unique_pos; [exact Hm|exact Hpos]).
  pose proof (h_nonneg _ _ _ _ H) as Hnn.
  assert (0 <= q - D) as HqD.
  { destruct (Z.le_gt_cases 0 (q - D)) as [|Hlt]; [done|]. rewrite Hpos in Hnn.
    assert (out * (q - D) <= out * -1) by (apply Z.mul_le_mono_nonneg_l; lia). lia. }
  pose proof (ready (frames X) k q m ltac:(lia) Hk Hm Hq) as Hready.
  destruct (decide (k < count c (frames X))%nat) as [Hlt|Hge].
  - apply Hready in Hlt as [Hlt Hlt'].
    assert ((frames X - D <=? q - D) || negb (m =? 0) && (frames X - D <=? q - D + 1) = false) as ->.
    { apply orb_false_iff. split; [by apply Z.leb_gt; lia|]. apply andb_false_iff.
      destruct (Z.eqb_spec m 0) as [|Hm0]; [by left|right]. apply Z.leb_gt. specialize (Hlt' Hm0). lia. }
    cbv zeta. erewrite mapM_all; [unfold frame_at; fold inr out; rewrite Hdiv, Hmod, (h_channels _ _ _ _ H); reflexivity|].
    intros i Hin. apply elem_of_seq in Hin. rewrite (h_channels _ _ _ _ H) in Hin.
    assert (0 <= q - D + (if m =? 0 then 0 else 1) < frames X - D) as Hnext.
    { destruct (Z.eqb_spec m 0) as [|Hm0]; [lia|]. specialize (Hlt' Hm0). lia. }
    rewrite (kept_sample X D k r (q - D) i H) by lia. cbn [mbind option_bind].
    rewrite (kept_sample X D k r _ i H Hnext) by lia. cbn [mbind option_bind].
    replace (q - D + D) with q by lia.
    replace (q - D + (if m =? 0 then 0 else 1) + D) with (q + (if m =? 0 then 0 else 1)) by lia. done.
  - assert ((frames X - D <=? q - D) || negb (m =? 0) && (frames X - D <=? q - D + 1) = true) as ->; [|done].
    apply orb_true_iff. destruct (Z.le_gt_cases (frames X) q); [left; apply Z.leb_le; lia|right].
    apply andb_true_iff. destruct (Z.eqb_spec m 0) as [Hm0|Hm0].
    { exfalso. apply Hge, Hready. split; [done|]. by intros []. }
    split; [done|]. apply Z.leb_le. destruct (Z.le_gt_cases (frames X) (q + 1)); [lia|].
    exfalso. apply Hge, Hready. split; [lia|]. intros _. lia.
Qed.

(** The kept frames fit the arithmetic. *)
Lemma loop_spec X D : frames X - D <= 2 ^ 31 → ∀ fuel k r output,
  holds X D k r → (k ≤ count c (frames X))%nat → (count c (frames X) - k < fuel)%nat →
  ∃ r', write_frames fuel r output
    = Some (r', output ++ concat (frame_at c X <$> seq k (count c (frames X) - k)))
  ∧ holds X D (count c (frames X)) r'.
Proof.
  intros Hfit. induction fuel as [|fuel IH]; intros k r output H Hk Hf; [lia|].
  cbn [write_frames]. rewrite (write_spec X D k r H).
  destruct (decide (k < count c (frames X))%nat) as [Hlt|Hge].
  - pose proof Hlt as Hlt0. apply count_spec in Hlt0 as [HF Hpos]; [|pose proof (h_kept _ _ _ _ H); lia].
    destruct Hc as (Hi & Ho & _). fold inr in Hi. fold out in Ho.
    assert (holds X D (S k) (r <| next_position := Int.wrap_u64 (next_position r + input_rate (config r)) |>)) as H'.
    { destruct H as [H1 H2 H3 H4 H5 H6 H7]. split; try done; cbn; rewrite H1; fold inr;
        (rewrite Int.wrap_u64_id; [lia|]); unfold Int.in_u64, Int.u64_max;
        assert ((frames X - D) * out <= 2 ^ 31 * (2 ^ 32 - 1)) by (apply Z.mul_le_mono_nonneg; lia); lia. }
    destruct (IH (S k) _ (output ++ frame_at c X k) H' ltac:(lia) ltac:(lia)) as (r' & -> & Hr').
    exists r'. split; [|done]. do 2 f_equal.
    replace (count c (frames X) - k)%nat with (S (count c (frames X) - S k)) by lia.
    cbn [seq fmap list_fmap concat]. by rewrite <- app_assoc.
  - replace (count c (frames X) - k)%nat with 0%nat by lia. cbn. rewrite app_nil_r.
    exists r. split; [done|]. by replace (count c (frames X)) with k by lia.
Qed.

(** After a call at most one frame is kept: the one the next output starts in. *)
Lemma discard_spec X D r : holds X D (count c (frames X)) r →
  ∃ D', holds X D' (count c (frames X)) (discard_consumed_frames r) ∧ frames X - D' <= 1.
Proof.
  intros H. unfold discard_consumed_frames. cbv zeta. rewrite (buffer_frames _ _ _ _ H), (h_config _ _ _ _ H). fold out.
  set (k := count c (frames X)) in *. pose proof (h_kept _ _ _ _ H) as HD. pose proof (h_nonneg _ _ _ _ H) as Hnn.
  destruct (position_split k) as (q & m & Hk & Hm & Hq & Hdiv & Hmod).
  destruct Hc as (Hi & Ho & Hch). fold ch in Hch. fold out in Ho.
  pose proof (h_position _ _ _ _ H) as Hpos.
  assert (next_position r / out = q - D) as ->.
  { symmetry. eapply Z.div_unique_pos; [exact Hm|]. lia. }
  assert (¬ (k < count c (frames X))%nat) as Hend by (unfold k; lia).
  rewrite (ready (frames X) k q m ltac:(lia) Hk Hm Hq) in Hend.
  assert (0 <= q - D) as HqD.
  { destruct (Z.le_gt_cases 0 (q - D)) as [|Hlt]; [done|].
    assert (out * (q - D) <= out * -1) by (apply Z.mul_le_mono_nonneg_l; lia). lia. }
  set (n := Z.min (q - D) (frames X - D)). assert (0 <= n) as Hn by lia.
  assert (D + n <= frames X) as HDn by lia.
  exists (D + n). split.
  - destruct H as [H1 H2 H3 H4 H5 H6 H7]. split; cbn; try done.
    + lia.
    + rewrite H2, H5, drop_drop. f_equal.
      assert (0 <= D * ch) by (apply Z.mul_nonneg_nonneg; lia).
      assert (0 <= n * ch) by (apply Z.mul_nonneg_nonneg; lia). lia.
    + lia.
    + assert (n * out <= (q - D) * out) by (apply Z.mul_le_mono_nonneg_r; lia). lia.
  - destruct (Z.le_gt_cases (frames X) q); [lia|]. destruct (Z.le_gt_cases (frames X) (q + 1)); [lia|].
    exfalso. apply Hend. split; [lia|]. intros _. lia.
Qed.

(** More input changes no frame that was written. *)
Lemma frame_app X Y k : whole X → (k < count c (frames X))%nat → frame_at c (X ++ Y) k = frame_at c X k.
Proof.
  intros HX Hk. destruct (position_split k) as (q & m & Hkq & Hm & Hq & Hdiv & Hmod).
  assert (0 <= frames X) as HF by (destruct Hc as (_ & _ & Hch); fold ch in Hch; apply Z.div_pos; lia).
  destruct (proj1 (ready (frames X) k q m HF Hkq Hm Hq) Hk) as [Hlt Hlt'].
  unfold frame_at. fold inr out ch. rewrite Hdiv, Hmod. destruct Hc as (_ & _ & Hch). fold ch in Hch.
  pose proof (whole_length X HX) as Hlen.
  assert (∀ i channel, 0 <= i < frames X → (channel < Z.to_nat ch)%nat →
    sample (X ++ Y) (i * ch + Z.of_nat channel) = sample X (i * ch + Z.of_nat channel)) as Hs.
  { intros i channel Hi Hcn. unfold sample, at_index. rewrite lookup_app_l; [done|].
    assert (0 <= i * ch) by (apply Z.mul_nonneg_nonneg; lia).
    assert ((i + 1) * ch <= frames X * ch) by (apply Z.mul_le_mono_nonneg_r; lia). lia. }
  apply list_fmap_ext. intros j channel Hj. apply lookup_seq in Hj as [-> Hj]. cbn.
  rewrite !Hs; [done|..]; try lia. destruct (Z.eqb_spec m 0) as [|Hm0]; [lia|]. specialize (Hlt' Hm0). lia.
Qed.

Lemma resample_app X Y : whole X → frames X <= frames (X ++ Y) →
  resample c (X ++ Y) = resample c X ++ concat (frame_at c (X ++ Y) <$>
    seq (count c (frames X)) (count c (frames (X ++ Y)) - count c (frames X))).
Proof.
  intros HX HF. unfold resample. fold ch (frames X) (frames (X ++ Y)).
  assert (0 <= frames X) as H0 by (destruct Hc as (_ & _ & Hch); fold ch in Hch; apply Z.div_pos; lia).
  pose proof (outputs_mono (frames X) (frames (X ++ Y)) ltac:(lia)) as Hmono.
  replace (count c (frames (X ++ Y))) with (count c (frames X) + (count c (frames (X ++ Y)) - count c (frames X)))%nat at 1 by lia.
  rewrite seq_app, fmap_app, concat_app. f_equal. f_equal.
  apply list_fmap_ext. intros j k Hk. apply lookup_seq in Hk as [-> Hk]. apply frame_app; [done|lia].
Qed.

Lemma count_step F n : 0 <= F → 0 <= n →
  (count c (F + n) - count c F ≤ Z.to_nat (n * out / inr + 1))%nat.
Proof.
  intros HF Hn. destruct Hc as (Hi & Ho & _). fold inr in Hi. fold out in Ho.
  assert (0 <= n * out / inr) as Hd by (apply Z.div_pos; [apply Z.mul_nonneg_nonneg|]; lia).
  apply Nat.nlt_ge. intros Hlt. set (k := (count c F + Z.to_nat (n * out / inr + 1))%nat).
  assert (k < count c (F + n))%nat as Hk by lia. apply count_spec in Hk as [H1 H2]; [|lia].
  assert (¬ (count c F < count c F)%nat) as Hend by lia. rewrite count_spec in Hend by done.
  pose proof (Z.mul_succ_div_gt (n * out) inr ltac:(lia)) as Hgt.
  assert (Z.of_nat k * inr = Z.of_nat (count c F) * inr + (n * out / inr + 1) * inr) as Hkk by (unfold k; lia).
  destruct (Z.eq_dec F 0) as [->|]; [|assert ((F - 1) * out < Z.of_nat (count c F) * inr) by lia; lia].
  assert (0 <= Z.of_nat (count c 0) * inr) by (apply Z.mul_nonneg_nonneg; lia). lia.
Qed.

Lemma checked_inv z y : checked z = Ok y → y = z.
Proof. unfold checked. case_match; by intros [= <-]. Qed.
Lemma validate_inv cc n : validate_config cc = Ok n → n = config_channels cc.
Proof. unfold validate_config. case_match; by intros [= <-]. Qed.
Lemma checked_ok z : z <= Int.usize_max → checked z = Ok z.
Proof. intros H. unfold checked. by destruct (Z.leb_spec z Int.usize_max); [|lia]. Qed.

Lemma capacity_spec X D k r n : holds X D k r → 0 <= n < 2 ^ 31 → n mod ch = 0 →
  ∃ cap, output_capacity r n = Ok cap ∧ (Z.to_nat (n / ch * out / inr + 2) ≤ Z.to_nat cap)%nat.
Proof.
  intros H Hn Hm. unfold output_capacity. rewrite (h_config _ _ _ _ H), (h_channels _ _ _ _ H).
  destruct Hc as (Hi & Ho & Hch). fold inr in Hi. fold out in Ho. fold ch in Hch. fold inr out.
  set (f := n / ch). assert (f * ch = n) as Hf by (unfold f; rewrite (Z.div_mod n ch) at 2 by lia; lia).
  assert (0 <= f) as Hf0 by (apply Z.div_pos; lia).
  assert (f <= n) by (rewrite <- Hf; assert (f * 1 <= f * ch) by (apply Z.mul_le_mono_nonneg_l; lia); lia).
  assert (0 <= f * out) by (apply Z.mul_nonneg_nonneg; lia).
  assert (f * out <= 2 ^ 31 * 2 ^ 32) by (apply Z.mul_le_mono_nonneg; lia).
  rewrite checked_ok by (unfold Int.usize_max, Int.u64_max; lia). cbn [mbind result_bind].
  assert (f * out / inr <= f * out) by (apply Z.div_le_upper_bound; [lia|];
    assert (1 * (f * out) <= inr * (f * out)) by (apply Z.mul_le_mono_nonneg_r; lia); lia).
  assert (0 <= f * out / inr) by (apply Z.div_pos; lia).
  unfold INTERPOLATION_MARGIN_FRAMES.
  rewrite checked_ok by (unfold Int.usize_max, Int.u64_max; lia). cbn [mbind result_bind].
  assert ((f * out / inr + 2) * ch <= f * ch * out + 2 * ch).
  { assert (f * out / inr * ch <= f * out * ch) by (apply Z.mul_le_mono_nonneg_r; lia). lia. }
  assert (f * ch * out <= 2 ^ 31 * 2 ^ 32) by (rewrite Hf; apply Z.mul_le_mono_nonneg; lia).
  rewrite checked_ok by (unfold Int.usize_max, Int.u64_max; lia).
  eexists. split; [done|].
  assert ((f * out / inr + 2) * 1 <= (f * out / inr + 2) * ch) by (apply Z.mul_le_mono_nonneg_l; lia). lia.
Qed.

(** A call in the middle of a stream. *)
Definition streaming (X : list f32) (r : StreamingLinearAudioResampler) : Prop :=
  ∃ D, holds X D (count c (frames X)) r ∧ frames X - D <= 1.

Lemma streaming_new : streaming [] (mk_linear c ch [] 0).
Proof.
  destruct Hc as (_ & _ & Hch). fold ch in Hch.
  assert (frames [] = 0) as H0 by (unfold frames; apply Z.div_0_l; cbn; lia).
  exists 0. rewrite H0. split; [|lia]. split; try done; rewrite ?H0; try (cbn; lia).
Qed.

Lemma whole_app X Y : whole X → whole Y → frames (X ++ Y) = frames X + frames Y ∧ whole (X ++ Y).
Proof. intros HX HY. apply frames_of. rewrite length_app, Nat2Z.inj_add, (whole_length X HX), (whole_length Y HY). lia. Qed.

Lemma process_into_spec X r input output : streaming X r → Z.of_nat (length input) < 2 ^ 31 →
  if decide (whole input) then
    ∃ r', process_into r input output
      = Some (Ok (r', output ++ concat (frame_at c (X ++ input) <$>
                  seq (count c (frames X)) (count c (frames (X ++ input)) - count c (frames X)))))
    ∧ streaming (X ++ input) r'
  else ∃ e, process_into r input output = Some (Err e).
Proof.
  intros (D & H & Hkept) Hlen. unfold process_into, validate_input. rewrite (h_channels _ _ _ _ H).
  destruct Hc as (Hi & Ho & Hch). fold inr in Hi. fold out in Ho. fold ch in Hch.
  destruct (decide (whole input)) as [Hw|Hw]; destruct (Z.eqb_spec (Z.of_nat (length input) mod ch) 0); try done; [|by eexists].
  destruct (capacity_spec X D _ r (Z.of_nat (length input)) H ltac:(lia) Hw) as (cap & -> & Hcap). fold (frames input) in Hcap.
  pose proof (h_kept _ _ _ _ H) as HD. pose proof (whole_app X input (h_whole _ _ _ _ H) Hw) as [Hfr Hww].
  assert (0 <= frames input) as Hfin by (apply Z.div_pos; lia).
  assert (frames input <= Z.of_nat (length input)).
  { rewrite (whole_length input Hw). assert (frames input * 1 <= frames input * ch) by (apply Z.mul_le_mono_nonneg_l; lia). lia. }
  assert (holds (X ++ input) D (count c (frames X)) (r <| buffered_samples ::= λ b, b ++ input |>)) as H1.
  { destruct H as [E1 E2 E3 E4 E5 E6 E7]. split; try done; cbn.
    - lia.
    - rewrite E5, drop_app_le; [done|]. pose proof (whole_length X E3) as HX.
      assert (D * ch <= frames X * ch) by (apply Z.mul_le_mono_nonneg_r; lia). lia. }
  pose proof (count_step (frames X) (frames input) ltac:(lia) Hfin) as Hstep. rewrite <- Hfr in Hstep.
  destruct (loop_spec (X ++ input) D ltac:(lia) (S (Z.to_nat cap)) (count c (frames X)) _ output H1) as (r' & -> & Hr').
  { apply outputs_mono. lia. }
  { assert (0 <= frames input * out / inr) by (apply Z.div_pos; [apply Z.mul_nonneg_nonneg|]; lia). lia. }
  cbn [mbind option_bind]. eexists. split; [done|]. by apply (discard_spec _ D).
Qed.
End linear.

(** ** Packets *)
Lemma chunks_exact_spec {A} n fuel (l : list A) : (0 < n)%nat → (length l ≤ fuel)%nat →
  concat (chunks_exact fuel n l) = take (length l / n * n) l ∧ Forall (λ p, length p = n) (chunks_exact fuel n l).
Proof.
  intros Hn. revert l. induction fuel as [|fuel IH]; intros l Hl.
  { destruct l; [|cbn in Hl; lia]. split; [|done]. by rewrite take_nil. }
  cbn [chunks_exact]. destruct (Nat.ltb_spec (length l) n) as [Hlt|Hge].
  - rewrite Nat.div_small by done. split; done.
  - destruct (IH (drop n l)) as [Hc Hf]; [rewrite length_drop; lia|]. split.
    + cbn [concat]. rewrite Hc, length_drop.
      assert (length l / n = S ((length l - n) / n))%nat as ->.
      { pose proof (Nat.div_add (length l - n) 1 n ltac:(lia)) as E.
        replace (length l - n + 1 * n)%nat with (length l) in E by lia. rewrite E. lia. }
      rewrite Nat.mul_succ_l, (Nat.add_comm _ n), <- take_take_drop. done.
    + constructor; [|done]. rewrite length_take. lia.
Qed.

Section fixed.
Context (c : AudioResamplerConfig) (Hc : valid_config c).

(** So much of the stream has been handed on, in packets. *)
Definition packing (X : list f32) (n : Z) (f : FixedFrameAudioResampler) (done : list f32) : Prop :=
  streaming c X (resampler f) ∧ output_samples f = n
  ∧ done ++ pending_samples f = resample c X ∧ Z.of_nat (length (pending_samples f)) < n.

Lemma process_with_spec X n f sofar input : 0 < n → packing X n f sofar → Z.of_nat (length input) < 2 ^ 31 →
  if decide (whole c input) then
    ∃ f' packets, process_with f input = Some (Ok (f', packets))
      ∧ packing (X ++ input) n f' (sofar ++ concat packets) ∧ Forall (λ p, Z.of_nat (length p) = n) packets
  else ∃ e, process_with f input = Some (Err e).
Proof.
  intros Hn (Hs & Ho & Hp & Hl) Hlen. unfold process_with.
  pose proof (process_into_spec c Hc X (resampler f) input (pending_samples f) Hs Hlen) as H.
  destruct (decide (whole c input)) as [Hw|Hw]; [|destruct H as [e ->]; by eexists].
  destruct H as (r' & -> & Hr'). cbn [mbind option_bind].
  set (pending := pending_samples f ++ _). rewrite Ho. cbv zeta.
  set (m := Z.to_nat n). assert (n = Z.of_nat m) as Hm by lia.
  assert (0 < m)%nat as Hm0 by lia.
  assert (Z.to_nat (Z.of_nat (length pending) / n * n) = length pending / m * m)%nat as Hz.
  { rewrite Hm, <- Nat2Z.inj_div, <- Nat2Z.inj_mul. apply Nat2Z.id. }
  pose proof (Nat.div_mod (length pending) m ltac:(lia)) as Hdm.
  pose proof (Nat.mod_upper_bound (length pending) m ltac:(lia)) as Hub.
  eexists _, _. split; [reflexivity|]. rewrite Hz. clear Hz.
  set (k := (length pending / m)%nat) in *.
  assert (length (take (k * m) pending) = k * m)%nat as Hlt by (rewrite length_take; lia).
  destruct (chunks_exact_spec m (length (take (k * m) pending)) (take (k * m) pending) Hm0 ltac:(lia)) as [Hcc Hcf].
  fold m. split.
  - split; [done|]. split; [done|]. cbn [pending_samples]. split.
    + rewrite Hcc, Hlt, Nat.div_mul by lia. rewrite take_take, Nat.min_id, <- app_assoc, take_drop.
      unfold pending. rewrite app_assoc, Hp. symmetry.
      destruct Hs as (D & Hh & _). apply resample_app; [done|apply Hh|].
      destruct (whole_app c Hc X input) as [-> _]; [apply Hh|done|].
      assert (0 <= Z.of_nat (length input) / config_channels c); [|lia].
      apply Z.div_pos; [lia|]. apply Hc.
    + rewrite length_drop. lia.
  - eapply Forall_impl; [exact Hcf|]. cbn. lia.
Qed.
Lemma fixed_new_packing output_frames f : 0 <= output_frames → fixed_new c output_frames = Ok f →
  packing [] (output_frames * config_channels c) f [] ∧ 0 < output_frames * config_channels c.
Proof.
  intros Hof Hnew. unfold fixed_new in Hnew. destruct (Z.eqb_spec output_frames 0); [done|].
  apply result_bind_ok in Hnew as (ch & Hv & Hnew). apply validate_inv in Hv as ->.
  apply result_bind_ok in Hnew as (? & ->%checked_inv & Hnew).
  apply result_bind_ok in Hnew as (? & _ & Hnew). cbv zeta in Hnew.
  do 2 apply result_bind_ok in Hnew as (? & _ & Hnew).
  apply result_bind_ok in Hnew as (r & Hr & Hnew).
  do 2 apply result_bind_ok in Hnew as (? & _ & Hnew). injection Hnew as <-.
  apply result_bind_ok in Hr as (ch & Hv & Hr). apply validate_inv in Hv as ->. injection Hr as <-.
  assert (0 < output_frames * config_channels c) as Hn by (apply Z.mul_pos_pos; [lia|apply Hc]).
  split; [|done]. split; [by apply streaming_new|]. split; [done|]. split; [|done].
  unfold resample. rewrite Z.div_0_l; [done|]. destruct Hc as (_ & _ & ?). lia.
Qed.
(** No overflow refuses the rates and sizes of a device. *)
Lemma fixed_new_ok output_frames : 0 < output_frames <= 2 ^ 15 → ∃ f, fixed_new c output_frames = Ok f.
Proof.
  intros Hof. destruct Hc as (Hi & Ho & Hch). unfold fixed_new. destruct (Z.eqb_spec output_frames 0); [lia|].
  assert (validate_config c = Ok (config_channels c)) as Hv.
  { unfold validate_config. by rewrite !(proj2 (Z.eqb_neq _ 0)) by lia. }
  assert (output_frames * config_channels c <= 2 ^ 31) by nia.
  assert (output_frames * input_rate c <= 2 ^ 47) by nia.
  assert ((output_frames * input_rate c + output_rate c - 1) / output_rate c <= 2 ^ 47) as Hd.
  { apply Z.div_le_upper_bound; [lia|]. nia. }
  assert (((output_frames * input_rate c + output_rate c - 1) / output_rate c + 2) * config_channels c <= (2 ^ 47 + 2) * 2 ^ 16).
  { apply Z.mul_le_mono_nonneg; [|lia..]. assert (0 <= (output_frames * input_rate c + output_rate c - 1) / output_rate c); [|lia].
    apply Z.div_pos; nia. }
  unfold linear_new. rewrite Hv. cbn [mbind result_bind]. unfold INTERPOLATION_MARGIN_FRAMES, PENDING_PACKET_CAPACITY.
  rewrite !(checked_ok c) by (unfold Int.usize_max, Int.u64_max; lia). cbn [mbind result_bind].
  rewrite !(checked_ok c) by (unfold Int.usize_max, Int.u64_max; lia). cbn [mbind result_bind].
  rewrite !(checked_ok c) by (unfold Int.usize_max, Int.u64_max; lia). by eexists.
Qed.
End fixed.

(** The inputs that are whole frames. *)
Definition accepted (c : AudioResamplerConfig) (inputs : list (list f32)) : list f32 :=
  concat (filter (λ l, whole c l) inputs).

(** Resampling a stream does not depend on how it is cut. Whatever pieces
    the samples of a stream arrive in, the packets handed on and the remainder
    kept make up the linear interpolation of the whole stream at once: output
    frame [k] at [k * input_rate / output_rate] input frames, and as many as the
    input so far determines. Every packet has exactly the size asked for, less
    than one packet is kept back, a piece that is no whole number of frames is
    refused and changes nothing, and no call indexes outside its buffer or
    writes more than the capacity it reserved. *)
Theorem resample_streaming (c : AudioResamplerConfig) (output_frames : Z)
    (f : FixedFrameAudioResampler) (inputs : list (list f32)) :
  valid_config c → 0 <= output_frames → fixed_new c output_frames = Ok f →
  Forall (λ l, Z.of_nat (length l) < 2 ^ 31) inputs →
  ∃ f' packets, process_all f inputs = Some (f', packets)
    ∧ concat packets ++ pending_samples f' = resample c (accepted c inputs)
    ∧ Forall (λ p, Z.of_nat (length p) = output_frames * config_channels c) packets
    ∧ Z.of_nat (length (pending_samples f')) < output_frames * config_channels c.
Proof.
  intros Hc Hof Hnew Hlen. set (n := output_frames * config_channels c).
  destruct (fixed_new_packing c Hc output_frames f Hof Hnew) as [Hf Hn]. fold n in Hf, Hn.
  assert (∀ X f done, packing c X n f done → ∃ f' packets, process_all f inputs = Some (f', packets)
    ∧ packing c (X ++ accepted c inputs) n f' (done ++ concat packets)
    ∧ Forall (λ p, Z.of_nat (length p) = n) packets) as H.
  { clear Hf Hnew f. induction inputs as [|input inputs IH]; intros X f sofar Hf.
    - exists f, []. rewrite !app_nil_r. done.
    - apply Forall_cons in Hlen as [Hl Hlen]. specialize (IH Hlen).
      pose proof (process_with_spec c Hc X n f sofar input Hn Hf Hl) as H. cbn [process_all]. unfold accepted.
      destruct (decide (whole c input)) as [Hw|Hw].
      + destruct H as (f1 & p1 & -> & Hf1 & Hp1). cbn [mbind option_bind].
        destruct (IH _ _ _ Hf1) as (f' & ps & -> & Hf' & Hps). cbn [mbind option_bind].
        exists f', (p1 ++ ps). split; [done|]. rewrite filter_cons_True, concat_app by done. cbn [concat].
        rewrite !app_assoc. split; [done|]. by apply Forall_app.
      + destruct H as [e ->]. cbn [mbind option_bind]. rewrite filter_cons_False by done. by apply IH. }
  destruct (H [] f [] Hf) as (f' & packets & Hrun & (_ & _ & Hcat & Hl) & Hps). eauto 10.
Qed.

Definition sample_config : AudioResamplerConfig := mk_config 2 3 2.
Definition sample_fixed : FixedFrameAudioResampler := mk_fixed (mk_linear sample_config 2 [] 0) 4 [].
Definition sample_inputs : list (list f32) :=
  [f32_of_Z <$> [0; 10]; f32_of_Z <$> [5]; f32_of_Z <$> [3; 13; 6; 16]; []; f32_of_Z <$> [9; 19]].
Lemma resample_streaming_witness :
  ∃ f' packets, process_all sample_fixed sample_inputs = Some (f', packets)
    ∧ concat packets ++ pending_samples f' = resample sample_config (accepted sample_config sample_inputs)
    ∧ packets = [f32_of_Z <$> [0; 10; 2; 12]; f32_of_Z <$> [4; 14; 6; 16]]
    ∧ pending_samples f' = f32_of_Z <$> [8; 18].
Proof.
  destruct (resample_streaming sample_config 2 sample_fixed sample_inputs)
    as (f' & packets & Hrun & Hcat & _ & _).
  - done.
  - done.
  - vm_compute. reflexivity.
  - repeat constructor.
  - exists f', packets. split; [exact Hrun|]. split; [exact Hcat|].
    clear Hcat. vm_compute in Hrun. injection Hrun as <- <-. split; vm_compute; reflexivity.
Defined.
