(* ===== verification/AudioPlayback.v ===== *)
(** * Audio playback

    The queue of samples between the network and the audio device
    ([AudioBuffer] of [src/src/client.rs]) and the device callback that reads
    it ([src/src/client/audio_playback.rs]). The ring buffer is the [ringbuf]
    crate's: an interface with its documented behaviour. *)
From Stdlib Require Import SpecFloat.
From S2P Require Import Prelude F32 Resampler.
Local Open Scope Z_scope.

Class Ring (R : Type) := {
  ring_new : nat → R;
  capacity : R → nat;
  contents : R → list f32;
  push_slice_overwrite : R → list f32 → R;
  skip : R → nat → R;
  pop_slice : R → nat → R
}.
Class RingLaws (R : Type) `{Ring R} : Prop := {
  capacity_new : ∀ n, capacity (ring_new n) = n;
  contents_new : ∀ n, contents (ring_new n) = [];
  capacity_push : ∀ r l, capacity (push_slice_overwrite r l) = capacity r;
  contents_push : ∀ r l, contents (push_slice_overwrite r l)
    = drop (length (contents r) + length l - capacity r) (contents r ++ l);
  capacity_skip : ∀ r n, capacity (skip r n) = capacity r;
  contents_skip : ∀ r n, contents (skip r n) = drop n (contents r);
  capacity_pop : ∀ r n, capacity (pop_slice r n) = capacity r;
  contents_pop : ∀ r n, contents (pop_slice r n) = drop n (contents r)
}.

(** ** The buffer *)
Definition AUDIO_BUFFER_MS : Z := 3000.
Definition LEVELS : nat := 30.
Definition N : Z := 4.

Section buffer.
Context {R : Type} `{Ring R}.

(** The fields in the source's order, and the static [tms] of [try_shrink]. *)
Record AudioBuffer := mk_buffer {
  ring : R;
  rate : Z;
  levels : list Z;
  generation : Z;
  tms : Z
}.
#[export] Instance AudioBuffer_eta : Eta AudioBuffer := λ b,
  mk_buffer (ring b) (rate b) (levels b) (generation b) (tms b).

Definition buffer_default (tms : Z) : AudioBuffer :=
  mk_buffer (ring_new (Z.to_nat (48000 * 2 * AUDIO_BUFFER_MS / 1000))) (48000 * 2) (replicate LEVELS 0) 0 tms.

Definition resize (b : AudioBuffer) (sample_rate channels : Z) : AudioBuffer :=
  let cap := sample_rate * channels * AUDIO_BUFFER_MS / 1000 in
  if negb (cap =? Z.of_nat (capacity (ring b)))
  then b <| ring := ring_new (Z.to_nat cap) |> <| rate := sample_rate * channels |> else b.

Definition signal_discontinuity (b : AudioBuffer) : AudioBuffer :=
  b <| generation := Int.wrap_u64 (generation b + 1) |>.

Definition append_pcm2 (b : AudioBuffer) (buffer : list f32) : AudioBuffer * Z :=
  let cap := capacity (ring b) in
  let having := (length (contents (ring b)) + length buffer)%nat in
  let b := b <| ring := push_slice_overwrite (ring b) buffer |> in
  let b := if (cap <? having)%nat then signal_discontinuity b else b in
  (b, Z.of_nat (length (contents (ring b)))).

(** The pass over the levels: the lowest one that was in use, and the one in
    use most of the time; the others are cleared. *)
Definition level (ls : list Z) (i : nat) : Z := default 0 (ls !! i).
Definition scan_level (s : list Z * nat * nat) (i : nat) : list Z * nat * nat :=
  let '(ls, zero, max) := s in
  let zero := if (level ls i =? 0) && (zero =? i)%nat then S zero else zero in
  if level ls max <? level ls i then (<[max := 0]> ls, zero, i) else (<[i := 0]> ls, zero, max).
Definition scan_levels (ls : list Z) : list Z * nat * nat :=
  foldl scan_level (ls, 0%nat, 0%nat) (seq 0 LEVELS).

(** How many samples to skip, of the buffer capacity [cap]. *)
Definition skip_samples (cap : nat) (zero max : nat) : option nat :=
  let zero := Z.of_nat zero * 2 / 3 in
  let max := Z.of_nat max in
  if max <? 6 then None
  else
    let max := if zero * N <? max then zero * N else max in
    Some (Z.to_nat (Z.land (Z.of_nat cap * max / (30 * N) + 1) (Z.lnot 1))).

(** [None] is a division by zero. *)
Definition try_shrink (b : AudioBuffer) (having dt : Z) : option AudioBuffer :=
  if rate b =? 0 then None
  else
    let i := Z.to_nat (Z.min 29 (having * 10 / rate b)) in
    let b := b <| levels ::= λ ls, <[i := level ls i + 1]> ls |> in
    if tms b =? 0 then Some (b <| tms := dt |>)
    else if dt <? tms b + 12000 then Some b
    else
      let b := b <| tms := dt |> in
      let '(ls, zero, max) := scan_levels (levels b) in
      let b := b <| levels := <[max := 0]> ls |> in
      match skip_samples (capacity (ring b)) zero max with
      | None => Some b
      | Some n =>
          if (n * 3 <? length (contents (ring b)))%nat && (0 <? n)%nat
          then Some (signal_discontinuity (b <| ring ::= λ r, skip r n |>)) else Some b
      end.
End buffer.
Arguments AudioBuffer : clear implicits.

(** ** Bridging gaps *)
Definition UNDERRUN_DECLICK_MS : Z := 5.
Definition MILLISECONDS_PER_SECOND : Z := 1000.
Record AudioPlaybackConfig := mk_playback { sample_rate : Z; playback_channels : nat }.
Inductive AudioPlaybackError :=
| InvalidPlayback (c : AudioPlaybackConfig)
| IncompletePlaybackFrame (samples channels : nat)
| FrameCountOverflow.

Record AudioPlaybackRecovery := mk_recovery {
  frame_channels : nat;
  transition_frames : Z;
  transition_frame : Z;
  had_input : bool;
  transition_start : list f32;
  output_frame : list f32
}.
#[export] Instance AudioPlaybackRecovery_eta : Eta AudioPlaybackRecovery := λ r,
  mk_recovery (frame_channels r) (transition_frames r) (transition_frame r) (had_input r)
    (transition_start r) (output_frame r).

Definition f32_zero : f32 := S754_zero false.
Definition f32_one : f32 := f32_of_Z 1.

Definition recovery_new (c : AudioPlaybackConfig) : result AudioPlaybackError AudioPlaybackRecovery :=
  if (sample_rate c =? 0) || (playback_channels c =? 0)%nat then Err (InvalidPlayback c)
  else if Int.usize_max <? sample_rate c * UNDERRUN_DECLICK_MS then Err FrameCountOverflow
  else
    let frames := sample_rate c * UNDERRUN_DECLICK_MS / MILLISECONDS_PER_SECOND in
    if frames =? 0 then Err (InvalidPlayback c)
    else Ok (mk_recovery (playback_channels c) frames frames false
               (replicate (playback_channels c) f32_zero) (replicate (playback_channels c) f32_zero)).

Definition begin_discontinuity (r : AudioPlaybackRecovery) : AudioPlaybackRecovery :=
  r <| transition_start := output_frame r |> <| transition_frame := 0 |>.
Definition begin_transition (r : AudioPlaybackRecovery) (has_input : bool) : AudioPlaybackRecovery :=
  if Bool.eqb has_input (had_input r) then r else begin_discontinuity r <| had_input := has_input |>.
Definition advance_transition (r : AudioPlaybackRecovery) : AudioPlaybackRecovery * f32 :=
  if transition_frames r <=? transition_frame r then (r, f32_one)
  else
    let r := r <| transition_frame ::= λ n, n + 1 |> in
    (r, fdiv (f32_of_Z (transition_frame r)) (f32_of_Z (transition_frames r))).

Definition mix (weight start target : f32) : f32 :=
  fadd (fmul start (fsub f32_one weight)) (fmul target weight).
Definition process_frame (r : AudioPlaybackRecovery) (input : option (list f32))
    : result AudioPlaybackError AudioPlaybackRecovery :=
  match input with
  | Some frame =>
      if negb (length frame =? frame_channels r)%nat
      then Err (IncompletePlaybackFrame (length frame) (frame_channels r))
      else
        let '(r, weight) := advance_transition (begin_transition r true) in
        Ok (r <| output_frame := zip_with (mix weight) (transition_start r) frame |>)
  | None =>
      let '(r, weight) := advance_transition (begin_transition r false) in
      Ok (r <| output_frame := (λ start, mix weight start f32_zero) <$> transition_start r |>)
  end.

(** ** The device callback *)
Inductive lock := Locked | WouldBlock | Poisoned.

Section writer.
Context {R : Type} `{Ring R}.

Record AudioPlaybackWriter := mk_writer {
  observed_generation : Z;
  buffered_input : nat;            (* the length of the scratch buffer *)
  recovery : AudioPlaybackRecovery;
  ready : bool;
  contentions : Z;
  buffer_failed : bool;
  buffer_poisoned : bool
}.
#[export] Instance AudioPlaybackWriter_eta : Eta AudioPlaybackWriter := λ w,
  mk_writer (observed_generation w) (buffered_input w) (recovery w) (ready w) (contentions w)
    (buffer_failed w) (buffer_poisoned w).

Definition writer_new (c : AudioPlaybackConfig) (b : AudioBuffer R) : result AudioPlaybackError AudioPlaybackWriter :=
  r ← recovery_new c; Ok (mk_writer (generation b) (capacity (ring b)) r false 0 false false).

(** The samples that were read, and whether they follow a discontinuity. *)
Definition read_buffer (w : AudioPlaybackWriter) (b : AudioBuffer R) (l : lock) (requested : nat)
    : AudioPlaybackWriter * AudioBuffer R * list f32 :=
  if buffer_failed w then (w, b, [])
  else match l with
  | WouldBlock => (w <| contentions := Int.wrap_u64 (contentions w + 1) |>, b, [])
  | Poisoned => (w <| buffer_failed := true |> <| ready := false |> <| buffer_poisoned := true |>, b, [])
  | Locked =>
      let channels := frame_channels (recovery w) in
      let samples := (Nat.min (length (contents (ring b))) requested / channels * channels)%nat in
      let out := take samples (contents (ring b)) in
      let b' := b <| ring ::= λ r, pop_slice r samples |> in
      let w := if negb (generation b =? observed_generation w)
               then w <| recovery ::= begin_discontinuity |> <| observed_generation := generation b |>
               else w in
      (w, b', out)
  end.

(** One output frame after the other; the last may be cut short. *)
Fixpoint output_frames (w : AudioPlaybackWriter) (frames : nat) (room : nat) (input : list f32)
    : AudioPlaybackWriter * list f32 :=
  match frames with
  | O => (w, [])
  | S frames =>
      let channels := frame_channels (recovery w) in
      let n := Nat.min channels room in
      let frame := if (length input <? channels)%nat then None else Some (take channels input) in
      let '(w, out) :=
        match process_frame (recovery w) frame with
        | Ok r => (w <| recovery := r |>, take n (output_frame r))
        | Err _ => (w, replicate n f32_zero)
        end in
      let '(w, rest) := output_frames w frames (room - n) (drop channels input) in
      (w, out ++ rest)
  end.
Definition write_output (w : AudioPlaybackWriter) (b : AudioBuffer R) (l : lock) (len : nat)
    : AudioPlaybackWriter * AudioBuffer R * list f32 :=
  let w := w <| ready := negb (buffer_failed w) |> in
  let channels := frame_channels (recovery w) in
  let '(w, b, input) := read_buffer w b l (Nat.min len (buffered_input w)) in
  let '(w, out) := output_frames w ((len + channels - 1) / channels) len input in
  (w, b, out).
End writer.

(** Ring buffers as lists. *)
#[export] Instance list_ring : Ring (nat * list f32) := {
  ring_new n := (n, []);
  capacity := fst;
  contents := snd;
  push_slice_overwrite r l := (r.1, drop (length r.2 + length l - r.1) (r.2 ++ l));
  skip r n := (r.1, drop n r.2);
  pop_slice r n := (r.1, drop n r.2)
}.
#[export] Instance list_ring_laws : RingLaws (nat * list f32).
Proof. by split. Qed.

(** ** Playing a stream *)
Inductive pevent := Push (pcm : list f32) | Shrink (having dt : Z) | Callback (l : lock) (len : nat).

Section play.
Context {R : Type} `{RingLaws R}.

(** What the callback took each time it had the buffer, and whether it was told
    of a gap before it. *)
Definition play_step (x : AudioBuffer R * AudioPlaybackWriter * list (list f32 * bool)) (e : pevent)
    : option (AudioBuffer R * AudioPlaybackWriter * list (list f32 * bool)) :=
  let '(b, w, reads) := x in
  match e with
  | Push pcm => Some ((append_pcm2 b pcm).1, w, reads)
  | Shrink having dt => b ← try_shrink b having dt; Some (b, w, reads)
  | Callback l len =>
      let '(w', b', _) := write_output w b l len in
      let samples := (read_buffer (w <| ready := negb (buffer_failed w) |>) b l (Nat.min len (buffered_input w))).2 in
      Some (b', w', match l with
                    | Locked => if buffer_failed w then reads
                                else reads ++ [(samples, negb (generation b =? observed_generation w))]
                    | _ => reads
                    end)
  end.
Fixpoint play (x : AudioBuffer R * AudioPlaybackWriter * list (list f32 * bool)) (es : list pevent)
    : option (AudioBuffer R * AudioPlaybackWriter * list (list f32 * bool)) :=
  match es with
  | [] => Some x
  | e :: es => x ← play_step x e; play x es
  end.
Definition pushed (es : list pevent) : list f32 :=
  concat (omap (λ e, match e with Push pcm => Some pcm | _ => None end) es).

(** The reads are pieces of the stream, from [start] on: contiguous where no
    gap was signalled, and with something left out where one was. *)
Fixpoint pieces (stream : list f32) (ch : nat) (start : nat) (reads : list (list f32 * bool)) (stop : nat) : Prop :=
  match reads with
  | [] => start = stop
  | (samples, gap) :: reads =>
      ∃ at_, (if gap : bool then (start < at_)%nat else at_ = start)
        ∧ samples = take (length samples) (drop at_ stream) ∧ (at_ + length samples ≤ length stream)%nat
        ∧ (ch | at_)%nat ∧ (ch | length samples)%nat
        ∧ pieces stream ch (at_ + length samples) reads stop
  end.

Lemma pieces_snoc stream ch reads : ∀ start stop at_ samples (gap : bool),
  pieces stream ch start reads stop →
  (if gap then (stop < at_)%nat else at_ = stop) →
  samples = take (length samples) (drop at_ stream) → (at_ + length samples ≤ length stream)%nat →
  (ch | at_)%nat → (ch | length samples)%nat →
  pieces stream ch start (reads ++ [(samples, gap)]) (at_ + length samples).
Proof.
  induction reads as [|[s g] reads IH]; intros start stop at_ samples gap Hp Hg Hs Hl Ha Hd; cbn in *.
  - subst stop. exists at_. auto 10.
  - destruct Hp as (a & H1 & H2 & H3 & H4 & H5 & H6). exists a. split_and!; try done. by eapply IH.
Qed.
Lemma pieces_more stream more ch reads : ∀ start stop,
  pieces stream ch start reads stop → pieces (stream ++ more) ch start reads stop.
Proof.
  induction reads as [|[s g] reads IH]; intros start stop; cbn; [done|].
  intros (a & H1 & H2 & H3 & H4 & H5 & H6). exists a. split_and!; try done; [|rewrite length_app; lia|auto].
  rewrite drop_app_le, take_app_le by (rewrite ?length_drop; lia). done.
Qed.

(** [d] samples of the stream have left the buffer, [stop] is where the last
    read ended, and [n] gaps were signalled, all but those since observed. *)
Record playing (ch : nat) (stream : list f32) (d stop : nat) (n : Z)
    (b : AudioBuffer R) (w : AudioPlaybackWriter) : Prop := {
  p_contents : contents (ring b) = drop d stream;
  p_d : (d ≤ length stream)%nat;
  p_cap : (length (contents (ring b)) ≤ capacity (ring b))%nat;
  p_aligned : (ch | d)%nat ∧ (ch | length stream)%nat ∧ (ch | capacity (ring b))%nat;
  p_rate : 0 < rate b;
  p_levels : length (levels b) = LEVELS;
  p_channels : frame_channels (recovery w) = ch;
  p_gen : generation b = n;
  p_seen : 0 <= observed_generation w <= n;
  p_gap : if decide (observed_generation w = n) then d = stop else (stop < d)%nat
}.

(** Samples leave the front of the buffer, and a gap is signalled. *)
Lemma lose_spec ch stream d stop n b w k r :
  playing ch stream d stop n b w → n + 1 < 2 ^ 64 → (0 < k)%nat → (ch | k)%nat → (d + k ≤ length stream)%nat →
  contents r = drop (d + k) stream → capacity r = capacity (ring b) →
  playing ch stream (d + k) stop (n + 1) (signal_discontinuity (b <| ring := r |>)) w.
Proof.
  intros [P1 P2 P3 (A1 & A2 & A3) P5 P6 P7 P8 P9 P10] Hn Hk Hck Hd Hr Hcap. split; cbn; try done.
  - rewrite Hr, Hcap. pose proof (f_equal length P1) as HL. rewrite length_drop in *. lia.
  - rewrite Hcap. split; [|done]. by apply Nat.divide_add_r.
  - rewrite P8. apply Int.wrap_u64_id. unfold Int.in_u64, Int.u64_max. lia.
  - lia.
  - rewrite decide_False by lia. destruct (decide _); lia.
Qed.

Lemma push_spec ch stream d stop n b w pcm :
  playing ch stream d stop n b w → n + 1 < 2 ^ 64 → (ch | length pcm)%nat →
  ∃ d' n', n' <= n + 1 ∧ playing ch (stream ++ pcm) d' stop n' (append_pcm2 b pcm).1 w.
Proof.
  intros P Hn Hch. pose proof P as [P1 P2 P3 (A1 & A2 & A3) P5 P6 P7 P8 P9 P10].
  set (k := (length (contents (ring b)) + length pcm - capacity (ring b))%nat).
  assert (contents (push_slice_overwrite (ring b) pcm) = drop (d + k) (stream ++ pcm)) as Hc.
  { rewrite contents_push. fold k. by rewrite <- drop_drop, (drop_app_le stream pcm d), <- P1 by done. }
  pose proof (f_equal length P1) as HL. rewrite length_drop in HL.
  assert (d + k ≤ length (stream ++ pcm))%nat as Hd.
  { rewrite length_app. unfold k. lia. }
  unfold append_pcm2. cbn [fst].
  destruct (Nat.ltb_spec (capacity (ring b)) (length (contents (ring b)) + length pcm)) as [Hlt|Hge].
  - exists (d + k)%nat, (n + 1). split; [lia|].
    assert (ch | length (contents (ring b)))%nat as Hcl.
    { rewrite HL. by apply Nat.divide_sub_r. }
    split; cbn; try done.
    + rewrite Hc, length_drop, length_app, capacity_push. unfold k. lia.
    + rewrite capacity_push, length_app. split_and!; [|by apply Nat.divide_add_r|done].
      apply Nat.divide_add_r; [done|]. apply Nat.divide_sub_r; [by apply Nat.divide_add_r|done].
    + rewrite P8. apply Int.wrap_u64_id. unfold Int.in_u64, Int.u64_max. lia.
    + lia.
    + rewrite decide_False by lia. destruct (decide _); unfold k; lia.
  - exists d, n. split; [lia|]. assert (k = 0%nat) as Hk by (unfold k; lia). rewrite Hk, Nat.add_0_r in *.
    split; cbn; try done.
    + rewrite Hc, length_drop, length_app, capacity_push. lia.
    + rewrite capacity_push, length_app. split_and!; [done|by apply Nat.divide_add_r|done].
Qed.

Lemma scan_levels_length ls : length ls = LEVELS → length (scan_levels ls).1.1 = LEVELS.
Proof.
  intros Hl. unfold scan_levels. generalize 0%nat at 1, 0%nat at 1. revert ls Hl.
  induction (seq 0 LEVELS) as [|i idx IH]; intros ls Hl z m; [done|]. cbn [foldl]. unfold scan_level at 2.
  case_match; apply IH; by rewrite length_insert.
Qed.

Lemma skip_even cap zero max k : skip_samples cap zero max = Some k → (2 | k)%nat.
Proof.
  unfold skip_samples. case_match; [done|]. intros [= <-].
  set (z := Z.of_nat cap * _ / _ + 1). assert (Z.land z (Z.lnot 1) = 2 * (z / 2)) as ->.
  { apply Z.bits_inj'. intros i Hi. rewrite Z.land_spec, Z.lnot_spec by done.
    change (z / 2) with (z / 2 ^ 1). rewrite <- Z.shiftr_div_pow2 by lia.
    replace (2 * Z.shiftr z 1) with (Z.shiftl (Z.shiftr z 1) 1) by (rewrite Z.shiftl_mul_pow2 by lia; lia).
    destruct (Z.eq_dec i 0) as [->|Hi0].
    - rewrite Z.shiftl_spec_low by lia. by rewrite andb_false_r.
    - rewrite Z.shiftl_spec_high, Z.shiftr_spec by lia. replace (i - 1 + 1) with i by lia.
      replace (Z.testbit 1 i) with false; [by rewrite andb_true_r|].
      symmetry. apply Z.bits_above_log2; [lia|]. simpl. lia. }
  destruct (Z.le_gt_cases 0 (z / 2)).
  - exists (Z.to_nat (z / 2)). lia.
  - exists 0%nat. lia.
Qed.

Lemma shrink_spec ch stream d stop n b w having dt :
  playing ch stream d stop n b w → n + 1 < 2 ^ 64 → (ch | 2)%nat →
  ∃ b' d' n', try_shrink b having dt = Some b' ∧ n' <= n + 1 ∧ playing ch stream d' stop n' b' w.
Proof.
  destruct b as [rg rt lv gn tm]. intros P Hn Hch. unfold try_shrink. cbn -[scan_levels skip_samples signal_discontinuity Nat.ltb].
  pose proof (p_rate _ _ _ _ _ _ _ P) as Hrate. cbn in Hrate.
  destruct (Z.eqb_spec rt 0); [lia|]. set (i := Z.to_nat _).
  assert (∀ ls t, length ls = LEVELS → playing ch stream d stop n (mk_buffer rg rt ls gn t) w) as Hq.
  { intros ls t Hls. destruct P. by split. }
  assert (length (<[i := level lv i + 1]> lv) = LEVELS) as Hl.
  { rewrite length_insert. apply P. }
  set (ls := <[i := _]> lv) in *.
  destruct (tm =? 0); [eexists _, d, n; split; [reflexivity|]; split; [lia|by apply Hq]|].
  destruct (dt <? tm + 12000); [eexists _, d, n; split; [reflexivity|]; split; [lia|by apply Hq]|].
  pose proof (scan_levels_length ls Hl) as Hsl. destruct (scan_levels ls) as [[ls' zero] max]. cbn in Hsl.
  assert (playing ch stream d stop n (mk_buffer rg rt (<[max := 0]> ls') gn dt) w) as P'.
  { apply Hq. by rewrite length_insert. }
  destruct (skip_samples _ zero max) as [k|] eqn:Hk; [|eexists _, d, n; split; [reflexivity|]; split; [lia|done]].
  destruct (_ && _) eqn:Hc; [|eexists _, d, n; split; [reflexivity|]; split; [lia|done]].
  apply andb_true_iff in Hc as [Hc1 Hc2]. apply Nat.ltb_lt in Hc1, Hc2. apply skip_even in Hk.
  pose proof (p_contents _ _ _ _ _ _ _ P') as Hcont. cbn in Hcont. rewrite Hcont, length_drop in Hc1.
  eexists _, (d + k)%nat, (n + 1). split; [reflexivity|]. split; [lia|].
  apply (lose_spec ch stream d stop n _ w k (skip rg k) P'); [lia|done| |lia| |].
  - by etransitivity.
  - by rewrite contents_skip, Hcont, drop_drop.
  - apply capacity_skip.
Qed.

(** The callback changes nothing in the writer but what it observes. *)
Lemma process_frame_channels r input r' : process_frame r input = Ok r' → frame_channels r' = frame_channels r.
Proof.
  unfold process_frame, advance_transition, begin_transition. intros Hp.
  repeat case_match; simplify_eq; done.
Qed.
Lemma output_frames_keeps (w : AudioPlaybackWriter) frames : ∀ room input,
  let '(w', _) := output_frames w frames room input in
  observed_generation w' = observed_generation w ∧ frame_channels (recovery w') = frame_channels (recovery w).
Proof.
  revert w. induction frames as [|frames IH]; intros w room input; [done|]. cbn [output_frames]. cbv zeta.
  destruct (process_frame _ _) as [r|e] eqn:Hp.
  - specialize (IH (w <| recovery := r |>) (room - Nat.min (frame_channels (recovery w)) room)%nat (drop (frame_channels (recovery w)) input)).
    destruct (output_frames _ _ _ _) as [w' rest]. cbn in IH. by rewrite <- (process_frame_channels _ _ _ Hp).
  - specialize (IH w (room - Nat.min (frame_channels (recovery w)) room)%nat (drop (frame_channels (recovery w)) input)).
    by destruct (output_frames _ _ _ _) as [w' rest].
Qed.

Lemma callback_spec ch stream d stop n b w reads l len :
  (0 < ch)%nat → playing ch stream d stop n b w → pieces stream ch 0 reads stop →
  ∃ b' w' reads' d' stop', play_step (b, w, reads) (Callback l len) = Some (b', w', reads')
    ∧ playing ch stream d' stop' n b' w' ∧ pieces stream ch 0 reads' stop'.
Proof.
  intros Hch P Hp. unfold play_step, write_output. set (w0 := w <| ready := _ |>).
  assert (observed_generation w0 = observed_generation w ∧ frame_channels (recovery w0) = frame_channels (recovery w)
          ∧ buffer_failed w0 = buffer_failed w ∧ buffered_input w0 = buffered_input w) as (E1 & E2 & E3 & E4) by done.
  clearbody w0.
  assert (∃ b' w1 samples d' stop' reads',
    read_buffer w0 b l (Nat.min len (buffered_input w0)) = (w1, b', samples)
    ∧ (match l with
       | Locked => if buffer_failed w then reads
                   else reads ++ [(samples, negb (generation b =? observed_generation w))]
       | _ => reads
       end) = reads'
    ∧ playing ch stream d' stop' n b' w1 ∧ pieces stream ch 0 reads' stop') as (b' & w1 & samples & d' & stop' & reads' & Hr & Hl & P' & Hp').
  { unfold read_buffer. rewrite E3.
    assert (playing ch stream d stop n b w0) as P0 by (destruct P; split; try done; by rewrite ?E1, ?E2).
    destruct (buffer_failed w) eqn:Hf; [eexists _, _, _, d, stop, _; split; [reflexivity|]; split; [by destruct l|done]|].
    destruct l; cycle 1.
    { eexists _, _, _, d, stop, _. split; [reflexivity|]. split; [done|]. split; [destruct P0; by split|done]. }
    { eexists _, _, _, d, stop, _. split; [reflexivity|]. split; [done|]. split; [destruct P0; by split|done]. }
    cbv zeta. rewrite E2, (p_channels _ _ _ _ _ _ _ P). set (m := Nat.min _ _). set (k := (m / ch * ch)%nat).
    assert (k ≤ length (contents (ring b)))%nat as Hk.
    { unfold k. pose proof (Nat.Div0.mul_div_le m ch). lia. }
    assert (ch | k)%nat as Hck by (exists (m / ch)%nat; done).
    destruct P as [P1 P2 P3 (A1 & A2 & A3) P5 P6 P7 P8 P9 P10].
    pose proof (f_equal length P1) as HL. rewrite length_drop in HL.
    assert (length (take k (contents (ring b))) = k) as Hlen by (rewrite length_take; lia).
    set (w2 := if negb _ then _ else w0).
    assert (observed_generation w2 = n ∧ frame_channels (recovery w2) = ch) as [W1 W2].
    { unfold w2. rewrite P8, E1. destruct (Z.eqb_spec n (observed_generation w)); cbn; split; congruence. }
    eexists _, _, _, (d + k)%nat, (d + k)%nat, _. split; [reflexivity|]. split; [reflexivity|]. split.
    - split; cbn; try done.
      + by rewrite contents_pop, P1, drop_drop.
      + lia.
      + rewrite contents_pop, capacity_pop, length_drop. lia.
      + rewrite capacity_pop. split; [by apply Nat.divide_add_r|done].
      + lia.
      + by rewrite decide_True.
    - replace (d + k)%nat with (d + length (take k (contents (ring b))))%nat by lia.
      eapply pieces_snoc; [exact Hp| | | |done|by rewrite Hlen].
      + rewrite P8. destruct (Z.eqb_spec n (observed_generation w)) as [Hn|Hn]; cbn [negb];
          [rewrite decide_True in P10 by done|rewrite decide_False in P10 by congruence]; done.
      + by rewrite Hlen, P1.
      + rewrite Hlen. lia. }
  rewrite <- E4, Hr. cbn [snd]. rewrite Hl. set (frames := ((_ + _ - 1) / _)%nat).
  pose proof (output_frames_keeps w1 frames len samples) as Hk.
  destruct (output_frames w1 frames len samples) as [w' out]. destruct Hk as [K1 K2].
  eexists b', w', reads', d', stop'. split; [reflexivity|]. split; [|done].
  destruct P'. split; try done; by rewrite ?K1, ?K2.
Qed.

(** C36: What is played of a mono or stereo stream is the stream. (With more channels a
    trimming shifts them: [four_channels_shift].) The device callback runs at any moment
    between the arrivals of samples, in whole frames, and the trimming of a buffer that grows too
    long. Whatever the interleaving, every read takes whole frames from where a
    frame of the received stream begins, so left and right never change places;
    reads are in order, and continue exactly where the one before ended unless a
    gap was signalled in between, in which case samples were indeed dropped and
    the callback bridges the gap. Nothing panics. The buffer is new, its capacity in whole frames, the device
    plays as many channels as come, and fewer than 2^64 things happen. *)
Theorem playback_gapless (b : AudioBuffer R) (w : AudioPlaybackWriter) (ch : nat)
    (c : AudioPlaybackConfig) (es : list pevent) :
  ch = 1%nat ∨ ch = 2%nat →
  contents (ring b) = [] → (ch | capacity (ring b))%nat → 0 < rate b → length (levels b) = LEVELS →
  generation b = 0 → playback_channels c = ch → writer_new c b = Ok w →
  Forall (λ e, match e with Push pcm => (ch | length pcm)%nat | _ => True end) es →
  Z.of_nat (length es) < 2 ^ 64 →
  ∃ b' w' reads stop, play (b, w, []) es = Some (b', w', reads)
    ∧ pieces (pushed es) ch 0 reads stop
    ∧ (length (contents (ring b')) ≤ capacity (ring b'))%nat.
Proof.
  intros Hch Hempty Hcap Hrate Hlev Hgen Hcfg Hw Hes Hlen.
  assert (0 < ch)%nat as Hpos by lia.
  assert ((ch | 2)%nat) as Hdiv by (destruct Hch as [-> | ->]; [by exists 2%nat|by exists 1%nat]).
  assert (playing ch [] 0 0 0 b w) as P.
  { apply result_bind_ok in Hw as (r & Hr & [= <-]). unfold recovery_new in Hr.
    repeat (case_match; [done|]). injection Hr as <-. split; cbn; try done.
    - rewrite Hempty. cbn. lia.
    - split_and!; [by exists 0%nat..|done].
    - lia.
    - by rewrite decide_True. }
  assert (∀ es stream d stop n b w reads, 
    Forall (λ e, match e with Push pcm => (ch | length pcm)%nat | _ => True end) es →
    n + Z.of_nat (length es) < 2 ^ 64 → playing ch stream d stop n b w → pieces stream ch 0 reads stop →
    ∃ b' w' reads' d' stop' n', play (b, w, reads) es = Some (b', w', reads')
      ∧ playing ch (stream ++ pushed es) d' stop' n' b' w' ∧ pieces (stream ++ pushed es) ch 0 reads' stop') as Hrun.
  { clear -H0 Hpos Hdiv. induction es as [|e es IH]; intros stream d stop n b w reads Hes Hlen P Hp.
    { unfold pushed. cbn. rewrite app_nil_r. by exists b, w, reads, d, stop, n. }
    apply Forall_cons in Hes as [He Hes]. cbn [length] in Hlen. cbn [play]. destruct e as [pcm|having dt|l len].
    - destruct (push_spec ch stream d stop n b w pcm P ltac:(lia) He) as (d' & n' & Hn' & P').
      destruct (IH _ d' stop n' _ _ reads Hes ltac:(lia) P' (pieces_more _ pcm _ _ _ _ Hp)) as (b' & w' & r' & d2 & s2 & n2 & Hr & P2 & Hp2).
      exists b', w', r', d2, s2, n2. cbn [play_step mbind option_bind]. unfold pushed in *. cbn [omap list_omap concat].
      rewrite app_assoc. auto.
    - destruct (shrink_spec ch stream d stop n b w having dt P ltac:(lia) Hdiv) as (b1 & d' & n' & Hs & Hn' & P').
      destruct (IH _ d' stop n' _ _ reads Hes ltac:(lia) P' Hp) as (b' & w' & r' & d2 & s2 & n2 & Hr & P2 & Hp2).
      exists b', w', r', d2, s2, n2. cbn [play_step]. rewrite Hs. cbn [mbind option_bind]. auto.
    - destruct (callback_spec ch stream d stop n b w reads l len Hpos P Hp) as (b1 & w1 & r1 & d1 & s1 & Hs & P1 & Hp1).
      destruct (IH _ d1 s1 n _ _ _ Hes ltac:(lia) P1 Hp1) as (b' & w' & r' & d2 & s2 & n2 & Hr & P2 & Hp2).
      exists b', w', r', d2, s2, n2. rewrite Hs. cbn [mbind option_bind]. auto. }
  destruct (Hrun es [] 0%nat 0%nat 0 b w [] Hes ltac:(lia) P eq_refl) as (b' & w' & r' & d' & s' & n' & Hr & P' & Hp').
  exists b', w', r', s'. split; [done|]. split; [done|]. apply P'.
Qed.
End play.

(** A callback is late, and the buffer of eight samples overflows. *)
Definition sample_buffer : AudioBuffer (nat * list f32) := mk_buffer (8%nat, []) 2 (replicate LEVELS 0) 0 0.
Definition sample_writer : AudioPlaybackWriter :=
  mk_writer 0 8 (mk_recovery 2 240 240 false [f32_zero; f32_zero] [f32_zero; f32_zero]) false 0 false false.
Definition sample_stream : list pevent :=
  [Push (f32_of_Z <$> [1; 2; 3; 4]); Callback Locked 3; Push (f32_of_Z <$> [5; 6]); Callback WouldBlock 4;
   Shrink 4 100; Push (f32_of_Z <$> [7; 8; 9; 10; 11; 12]); Callback Locked 4].
Lemma playback_gapless_witness :
  ∃ b' w' stop, play (sample_buffer, sample_writer, []) sample_stream
    = Some (b', w', [(f32_of_Z <$> [1; 2], false); (f32_of_Z <$> [5; 6; 7; 8], true)])
  ∧ pieces (pushed sample_stream) 2 0 [(f32_of_Z <$> [1; 2], false); (f32_of_Z <$> [5; 6; 7; 8], true)] stop.
Proof.
  destruct (playback_gapless sample_buffer sample_writer 2 (mk_playback 48000 2) sample_stream)
    as (b' & w' & reads & stop & Hrun & Hp & _).
  - by right.
  - reflexivity.
  - by exists 4%nat.
  - reflexivity.
  - reflexivity.
  - reflexivity.
  - reflexivity.
  - vm_compute. reflexivity.
  - repeat constructor; vm_compute; try exact I; (by exists 1%nat) || (by exists 2%nat) || (by exists 3%nat).
  - reflexivity.
  - exists b', w', stop.
    assert (reads = [(f32_of_Z <$> [1; 2], false); (f32_of_Z <$> [5; 6; 7; 8], true)]) as <-.
    { vm_compute in Hrun. injection Hrun as _ _ <-. vm_compute. reflexivity. }
    split; [exact Hrun|exact Hp].
Defined.

(** Four channels, as a device that takes no fewer may have: trimming at the
    seventh level drops a number of samples that is no whole number of frames,
    and every later frame starts in another channel. (With 44100 Hz the capacity
    is 529200 and 30870 samples are dropped.) *)
Example four_channels_shift : skip_samples (100 * 4 * 3) 3 7 = Some 70%nat ∧ (70 mod 4 = 2)%nat.
Proof. vm_compute. done. Qed.
