(* ===== verification/PlaybackRecovery.v ===== *)
(** * Restarting the output of audio

    What the viewer does when the stream of its audio device fails, does not start
    or is to be replaced: [AudioHandler] of [src/src/client.rs] with
    [src/src/client/audio_playback_recovery.rs] and
    [src/src/client/audio_playback_startup.rs], as compiled for Windows. The buffer
    and the resampler of a handler are the subject of [AudioPlayback] and
    [Resampler]; here a handler has what decides whether there is sound. *)
From S2P Require Import Prelude.
Local Open Scope Z_scope.

(** Milliseconds. *)
Definition RECOVERY_INTERVAL : Z := 1000.
Definition STARTUP_CONFIRMATION_TIMEOUT : Z := 5000.

Record AudioFormat := mk_format { format_rate : Z; format_channels : Z }.
#[export] Instance AudioFormat_eq_dec : EqDecision AudioFormat.
Proof. solve_decision. Defined.

(** ** Handlers

    A decoder is the number of the one created; a stream is the number under which
    the device keeps its queue of errors and whether its callback has run. [errors]
    and [playback_status] are shared with the callbacks of a stream: [None] is a
    fresh one, which no callback has. *)
Record recovery_of (H : Type) := mk_recovery {
  errors : option nat;
  format : option AudioFormat;
  retry_at : option Z;
  restart_not_before : option Z;
  awaiting_callback : bool;
  startup_deadline : option Z;
  pending_output : option H
}.
Arguments mk_recovery {H}.
Arguments errors {H}.
Arguments format {H}.
Arguments retry_at {H}.
Arguments restart_not_before {H}.
Arguments awaiting_callback {H}.
Arguments startup_deadline {H}.
Arguments pending_output {H}.
Inductive AudioHandler := mk_handler {
  audio_decoder : option nat;
  sample_rate : Z * Z;
  audio_stream : option nat;
  channels : Z;
  device_channel : Z;
  playback_status : option nat;
  playback_recovery : recovery_of AudioHandler
}.
Abbreviation PlaybackRecovery := (recovery_of AudioHandler).
#[export] Instance AudioHandler_eta : Eta AudioHandler := λ h,
  mk_handler (audio_decoder h) (sample_rate h) (audio_stream h) (channels h) (device_channel h)
    (playback_status h) (playback_recovery h).
#[export] Instance PlaybackRecovery_eta : Eta PlaybackRecovery := λ r,
  mk_recovery (errors r) (format r) (retry_at r) (restart_not_before r) (awaiting_callback r)
    (startup_deadline r) (pending_output r).
Definition recovery_default : PlaybackRecovery := mk_recovery None None None None false None None.
Definition handler_default : AudioHandler := mk_handler None (0, 0) None 0 0 None recovery_default.

(** What the streams have reported: the errors not read yet, each a warning
    about the priority of a thread ([false]) or a failure ([true]), and whether the
    output callback has run. [decoders] counts the decoders created. *)
Record stream := mk_stream { queue : list bool; ready : bool }.
Record device := mk_device { streams : gmap nat stream; next : nat; decoders : nat }.
#[export] Instance device_eta : Eta device := λ r, mk_device (streams r) (next r) (decoders r).

Definition queue_of (d : device) (q : option nat) : list bool :=
  match q with Some i => match streams d !! i with Some s => queue s | None => [] end | None => [] end.
Definition is_ready (d : device) (st : option nat) : bool :=
  match st with Some i => match streams d !! i with Some s => ready s | None => false end | None => false end.

(** [report_pending] empties the queue. *)
Definition report_pending (r : PlaybackRecovery) (d : device) : device * bool :=
  (match errors r with
   | Some i => d <| streams ::= alter (λ s, mk_stream [] (ready s)) i |>
   | None => d
   end, existsb id (queue_of d (errors r))).

Definition clear_playback_stream (h : AudioHandler) (d : device) : AudioHandler * device :=
  let recovery := playback_recovery h in
  (handler_default <| playback_recovery :=
     recovery_default <| format := format recovery |> <| retry_at := retry_at recovery |>
       <| restart_not_before := restart_not_before recovery |> |>,
   (report_pending recovery d).1).

Definition prepare_playback (f : AudioFormat) (h : AudioHandler) (d : device) : AudioHandler * device :=
  let '(h, d) := clear_playback_stream h d in
  (h <| playback_recovery ::= λ r, r <| format := Some f |> <| retry_at := None |> <| restart_not_before := None |> |>, d).

Definition finish_playback_start (now : Z) (ok : bool) (h : AudioHandler) (d : device) : AudioHandler * device :=
  let at_ := now + RECOVERY_INTERVAL in
  let h := h <| playback_recovery ::= λ r, r <| restart_not_before := Some at_ |> |> in
  if ok
  then (h <| playback_recovery ::= λ r, r <| retry_at := None |> <| awaiting_callback := true |>
              <| startup_deadline := Some (now + STARTUP_CONFIRMATION_TIMEOUT) |> |>, d)
  else let '(h, d) := clear_playback_stream h d in
       (h <| playback_recovery ::= λ r, r <| retry_at := Some at_ |> |>, d).

Definition playback_start_timed_out (now : Z) (h : AudioHandler) (d : device) : AudioHandler * bool :=
  let r := playback_recovery h in
  if negb (awaiting_callback r) || is_ready d (playback_status h)
     || negb (match startup_deadline r with Some due => due <=? now | None => false end)
  then (h, false)
  else (h <| playback_recovery ::= λ r, r <| awaiting_callback := false |> <| startup_deadline := None |> |>, true).

(** [report_pending() || playback_start_timed_out(now)] *)
Definition playback_failed (now : Z) (h : AudioHandler) (d : device) : AudioHandler * device * bool :=
  let '(d, failed) := report_pending (playback_recovery h) d in
  if failed then (h, d, true)
  else let '(h, timed_out) := playback_start_timed_out now h d in (h, d, timed_out).

Definition resolve_pending_playback (now : Z) (h : AudioHandler) (d : device) : AudioHandler * device * option bool :=
  match pending_output (playback_recovery h) with
  | None => (h, d, None)
  | Some candidate =>
      let h := h <| playback_recovery ::= λ r, r <| pending_output := None |> |> in
      let '(candidate, d, candidate_failed) := playback_failed now candidate d in
      let '(h, d, previous_failed) := playback_failed now h d in
      if candidate_failed then
        (h <| playback_recovery ::= λ r, r <| restart_not_before := restart_not_before (playback_recovery candidate) |> |>,
         (report_pending (playback_recovery candidate) d).1, Some previous_failed)
      else if is_ready d (playback_status candidate) || previous_failed then
        (candidate <| audio_decoder := audio_decoder h |>, (report_pending (playback_recovery h) d).1, Some false)
      else (h <| playback_recovery ::= λ r, r <| pending_output := Some candidate |> |>, d, Some false)
  end.

Definition cancel_pending_playback (now : Z) (h : AudioHandler) (d : device) : AudioHandler * device * bool :=
  let '(h, d, failed) := resolve_pending_playback now h d in
  let failed := default false failed in
  match pending_output (playback_recovery h) with
  | Some pending =>
      (h <| playback_recovery ::= λ r, r <| pending_output := None |> |>, (report_pending (playback_recovery pending) d).1, failed)
  | None => (h, d, failed)
  end.

(** ** Opening a stream

    What the system answers while a stream is opened: the rate and the channels of
    the default output, if there is one and it tells; whether the resampler can be
    made and the sample format is known; whether a stream is built and started with
    the channels of the source and with those of the device; what the new
    stream has reported by then; how long it all takes; and whether a decoder can
    be made. *)
Record answer := mk_answer {
  config : option (Z * Z);
  resampler_ok : bool;
  supported : bool;
  built_as_is : bool;
  built : bool;
  early : stream;
  took : Z;
  decoder_ok : bool
}.

Definition build_output_stream (a : answer) (ok : bool) (config_channels : Z) (h : AudioHandler) (d : device)
  : AudioHandler * device * bool :=
  let i := next d in
  let d := d <| streams ::= <[i := early a]> |> <| next := S i |> in
  let h := h <| device_channel := config_channels |> <| playback_recovery ::= λ r, r <| errors := Some i |> |> in
  if ok then (h <| audio_stream := Some i |> <| playback_status := Some i |>, d, true) else (h, d, false).

Definition start_audio (a : answer) (f : AudioFormat) (h : AudioHandler) (d : device) : AudioHandler * device * bool :=
  match config a with
  | None => (h, d, false)
  | Some (rate_, channels_) =>
      let h := h <| sample_rate := (format_rate f, rate_) |> in
      if negb (resampler_ok a) || negb (supported a) then (h, d, false)
      else if format_channels f <? channels_ then
        let '(h, d, ok) := build_output_stream a (built_as_is a) (format_channels f) h d in
        if ok then (h, d, true) else build_output_stream a (built a) channels_ h d
      else build_output_stream a (built a) channels_ h d
  end.

Definition new_decoder (d : device) : device * nat := (d <| decoders ::= S |>, decoders d).

Definition restart_playback (a : answer) (f : AudioFormat) (h : AudioHandler) (d : device) : AudioHandler * device * bool :=
  if negb (decoder_ok a) then (h, d, false)
  else let '(d, decoder) := new_decoder d in
       let '(h, d, ok) := start_audio a f h d in
       if ok then (h <| channels := format_channels f |> <| audio_decoder := Some decoder |>, d, true)
       else (h, d, false).

(** [recover_playback_with]: what failed is closed, to be opened again when that is
    allowed; a callback that came is noticed; and what is due is opened. The last
    component says whether a restart was tried. *)
Definition notice_failure (now : Z) (h : AudioHandler) (d : device) : AudioHandler * device :=
  let '(h, d, resolved) := resolve_pending_playback now h d in
  let '(h, d, failed) := match resolved with
                         | Some failed => (h, d, failed)
                         | None => playback_failed now h d
                         end in
  if failed : bool then
    let '(h, d) := clear_playback_stream h d in
    (h <| playback_recovery ::= λ r, r <| retry_at :=
        Some (match restart_not_before r with Some due => Z.max due now | None => now end) |> |>, d)
  else (h, d).
Definition notice_callback (d : device) (h : AudioHandler) : AudioHandler :=
  if awaiting_callback (playback_recovery h) && is_ready d (playback_status h)
  then h <| playback_recovery ::= λ r, r <| awaiting_callback := false |> <| startup_deadline := None |> |>
  else h.
Definition recover_playback_with (now : Z) (a : answer) (h : AudioHandler) (d : device) : AudioHandler * device * bool :=
  let '(h, d) := notice_failure now h d in
  let h := notice_callback d h in
  if negb (match retry_at (playback_recovery h) with Some due => due <=? now | None => false end) then (h, d, false)
  else match format (playback_recovery h) with
       | None => (h, d, false)
       | Some f =>
           let '(h, d, result) := restart_playback a f h d in
           let '(h, d) := finish_playback_start (now + took a) result h d in (h, d, true)
       end.

Definition finish_playback_replacement (now : Z) (again : answer) (ok : bool) (previous : option AudioHandler)
    (h : AudioHandler) (d : device) : AudioHandler * device * bool :=
  let '(h, d) := finish_playback_start now ok h d in
  match previous with
  | None => (h, d, false)
  | Some previous =>
      let previous := previous <| audio_decoder := audio_decoder h |> in
      let candidate := h <| audio_decoder := None |> in
      let h := previous <| playback_recovery ::= λ r, r <| pending_output := Some candidate |> |> in
      recover_playback_with now again h d
  end.

(** [handle_format]: [a] answers the start for the new format, [again] the restart
    that may follow it. *)
Definition is_supported_audio_channel_count (n : Z) : bool := (1 <=? n) && (n <? 3).
Definition handle_format (now : Z) (f : AudioFormat) (a again : answer) (h : AudioHandler) (d : device)
  : AudioHandler * device * bool :=
  if negb (is_supported_audio_channel_count (format_channels f)) then (h, d, false)
  else if negb (decoder_ok a) then (h, d, false)
  else
    let '(d, decoder) := new_decoder d in
    let '(h, d, playback_failed) := cancel_pending_playback now h d in
    let keep_existing_stream := bool_decide (is_Some (audio_stream h))
      && ((sample_rate h).1 =? format_rate f) && (channels h =? format_channels f) in
    let previous := h in
    let '(h, d) := prepare_playback f handler_default d in
    let h := h <| audio_decoder := Some decoder |> <| channels := format_channels f |> in
    let '(h, d, result) := start_audio a f h d in
    let '(d, keep_existing_stream) :=
      if keep_existing_stream && negb playback_failed
      then let '(d, failed) := report_pending (playback_recovery previous) d in (d, negb failed)
      else (d, false) in
    if negb result && keep_existing_stream
    then (previous <| audio_decoder := audio_decoder h |>, d, false)
    else finish_playback_replacement (now + took a) again result
           (if keep_existing_stream then Some previous else None) h d.

(** [handle_frame] plays, with its decoder, on the stream. *)
Definition plays (h : AudioHandler) (d : device) : option nat :=
  if negb (bool_decide (is_Some (audio_stream h))) || negb (is_ready d (playback_status h)) then None
  else audio_decoder h.

(** ** The audio thread

    [OutputDeviceWatch]: whether the user picked another output device, asked at
    most once a second. [current] is what [get_audio_output_device] returns. *)
Definition INTERVAL : Z := 1000.
Record OutputDeviceWatch := mk_watch { watched : str; checked : Z }.
#[export] Instance OutputDeviceWatch_eta : Eta OutputDeviceWatch := λ r, mk_watch (watched r) (checked r).
Definition changed (now : Z) (current : str) (w : OutputDeviceWatch) : OutputDeviceWatch * bool :=
  if now - checked w <? INTERVAL then (w, false)
  else let w := w <| checked := now |> in
       if bool_decide (current = watched w) then (w, false)
       else (w <| watched := current |>, true).

(** The thread with the device and the time; [restarts] records when each restart
    of a recovery began and ended, the newest first. *)
Record thread := mk_thread {
  handler : AudioHandler;
  dev : device;
  output_watch : OutputDeviceWatch;
  last_format : option AudioFormat;
  clock : Z;
  restarts : list (Z * Z)
}.
#[export] Instance thread_eta : Eta thread := λ r,
  mk_thread (handler r) (dev r) (output_watch r) (last_format r) (clock r) (restarts r).
Definition thread_new (now : Z) (current : str) : thread :=
  mk_thread handler_default (mk_device ∅ 0 0) (mk_watch current now) None now [].

Definition recover (a : answer) (w : thread) : thread :=
  let '(h, d, tried) := recover_playback_with (clock w) a (handler w) (dev w) in
  if tried
  then w <| handler := h |> <| dev := d |> <| clock := clock w + took a |>
         <| restarts ::= cons (clock w, clock w + took a) |>
  else w <| handler := h |> <| dev := d |>.
Definition take_format (f : AudioFormat) (a again : answer) (w : thread) : thread :=
  let '(h, d, tried) := handle_format (clock w) f a again (handler w) (dev w) in
  let started := clock w + took a in
  if tried
  then w <| handler := h |> <| dev := d |> <| clock := started + took again |>
         <| restarts ::= cons (started, started + took again) |>
  else w <| handler := h |> <| dev := d |> <| clock := started |>.

Inductive MediaData := MediaAudioFrame | MediaAudioFormat (f : AudioFormat) | MediaOther.
(** What the thread does with data, [current] being the device picked. *)
Definition handle_media (current : str) (a again : answer) (m : MediaData) (w : thread) : thread :=
  match m with
  | MediaAudioFrame =>
      let '(watch, changed_) := changed (clock w) current (output_watch w) in
      let w := w <| output_watch := watch |> in
      if changed_ then match last_format w with Some f => take_format f a again w | None => w end else w
  | MediaAudioFormat f => take_format f a again (w <| last_format := Some f |>)
  | MediaOther => w
  end.
(** A turn of the loop of [receive_with_recovery]: data that came after [wait], or
    [Timeout], which [recv_timeout] returns after the interval and as much later as the
    thread is late to run. *)
Definition receive_with_recovery (wait : Z) (r : answer) (m : option MediaData) (w : thread) : thread :=
  match m with
  | Some m =>
      let w := w <| clock ::= Z.add wait |> in
      match m with MediaAudioFormat _ => w | _ => recover r w end
  | None => recover r (w <| clock ::= Z.add (RECOVERY_INTERVAL + wait) |>)
  end.

(** What happens: a turn of the thread, a report of a stream, the first callback of a
    stream. *)
Inductive event :=
| Turn (wait : Z) (m : option MediaData) (current : str) (r a again : answer)
| Reported (i : nat) (failure : bool)
| CalledBack (i : nat).
Definition happen (w : thread) (e : event) : thread :=
  match e with
  | Turn wait m current r a again =>
      let w := receive_with_recovery wait r m w in
      match m with Some m => handle_media current a again m w | None => w end
  | Reported i failure => w <| dev ::= λ d, d <| streams ::= alter (λ s, mk_stream (queue s ++ [failure]) (ready s)) i |> |>
  | CalledBack i => w <| dev ::= λ d, d <| streams ::= alter (λ s, mk_stream (queue s) true) i |> |>
  end.
(** Time does not run backwards. *)
Definition timely (e : event) : Prop :=
  match e with
  | Turn wait _ _ r a again => 0 ≤ wait ∧ 0 ≤ took r ∧ 0 ≤ took a ∧ 0 ≤ took again
  | _ => True
  end.
Definition reached : thread → Prop :=
  reachable (λ w, ∃ now current, w = thread_new now current) (λ w w', ∃ e, timely e ∧ w' = happen w e).

(** ** The streams of the device

    A stream is quiet when it has reported no failure that was not read. *)
Definition quiet (d : device) (q : option nat) : Prop := existsb id (queue_of d q) = false.

#[local] Arguments is_ready : simpl never.
#[local] Arguments queue_of : simpl never.

(** A device goes on: streams are opened, stay ready once they are and stay quiet. *)
Record onward (d d' : device) : Prop := {
  onward_next : (next d ≤ next d')%nat;
  onward_ready i : (i < next d)%nat → is_ready d (Some i) = true → is_ready d' (Some i) = true;
  onward_quiet i : (i < next d)%nat → quiet d (Some i) → quiet d' (Some i)
}.
#[export] Instance onward_preorder : PreOrder onward.
Proof.
  split; [split; auto|]. intros d1 d2 d3 [N1 R1 Q1] [N2 R2 Q2].
  split; [lia| |]; intros i Hi H; [apply R2|apply Q2]; auto; lia.
Qed.

Lemma drained_onward d i : onward d (d <| streams ::= alter (λ s, mk_stream [] (ready s)) i |>).
Proof.
  split; cbn; [done| |]; intros j _; unfold is_ready, quiet, queue_of; cbn;
    destruct (decide (j = i)) as [->|]; try rewrite lookup_alter_eq; try rewrite lookup_alter_ne by done; auto;
    by destruct (streams d !! i).
Qed.
Lemma report_pending_spec r d : let '(d', failed) := report_pending r d in
  onward d d' ∧ next d' = next d ∧ decoders d' = decoders d ∧ (failed = false ↔ quiet d (errors r))
  ∧ (∀ st, is_ready d' st = is_ready d st) ∧ quiet d' (errors r).
Proof.
  unfold report_pending. destruct (errors r) as [i|]; [|split_and!; auto; done].
  split_and!; try done; [apply drained_onward| |].
  - intros [j|]; [|done]. unfold is_ready. cbn. destruct (decide (j = i)) as [->|].
    + rewrite lookup_alter_eq. by destruct (streams d !! i).
    + by rewrite lookup_alter_ne.
  - unfold quiet, queue_of. cbn. rewrite lookup_alter_eq. by destruct (streams d !! i).
Qed.
Lemma opened_onward d s : onward d (d <| streams ::= <[next d := s]> |> <| next := S (next d) |>).
Proof.
  split; cbn; [lia| |]; intros j Hj; unfold is_ready, quiet, queue_of; cbn; by rewrite lookup_insert_ne by lia.
Qed.
Lemma decoder_onward d : onward d (new_decoder d).1.
Proof. split; auto. Qed.

(** ** What holds of a handler between the turns

    [last] is when the last restart ended; no other may begin within the
    interval. *)
Definition spaced_from (last : option Z) (t : Z) : Prop :=
  match last with Some e => e + RECOVERY_INTERVAL ≤ t | None => True end.
Definition waiting (t0 : Z) (h : AudioHandler) : Prop :=
  awaiting_callback (playback_recovery h) = true
  ∧ ∃ due, startup_deadline (playback_recovery h) = Some due ∧ due ≤ t0 + STARTUP_CONFIRMATION_TIMEOUT.
(** A stream may only be opened again after the interval. *)
Definition held_back (t0 : Z) (last : option Z) (h : AudioHandler) : Prop :=
  ∃ b, restart_not_before (playback_recovery h) = Some b ∧ b ≤ t0 + RECOVERY_INTERVAL ∧ spaced_from last b.
(** An open stream. *)
Record opened (t0 : Z) (last : option Z) (d : device) (h : AudioHandler) (i : nat) : Prop := {
  opened_stream : audio_stream h = Some i;
  opened_status : playback_status h = Some i;
  opened_errors : errors (playback_recovery h) = Some i;
  opened_known : (i < next d)%nat;
  opened_retry : retry_at (playback_recovery h) = None;
  opened_format : ∃ f, format (playback_recovery h) = Some f ∧ (sample_rate h).1 = format_rate f ∧ channels h = format_channels f;
  opened_held : held_back t0 last h;
  opened_wait : is_ready d (Some i) = true ∨ waiting t0 h
}.
(** A stream that is to replace the one of [h] and has not been heard of. *)
Record candidate (t0 : Z) (last : option Z) (d : device) (h c : AudioHandler) (i : nat) : Prop := {
  candidate_opened : opened t0 last d c i;
  candidate_waiting : waiting t0 c;
  candidate_rate : (sample_rate c).1 = (sample_rate h).1;
  candidate_channels : channels c = channels h;
  candidate_pending : pending_output (playback_recovery c) = None
}.
Definition closed (t0 : Z) (last : option Z) (h : AudioHandler) : Prop :=
  audio_stream h = None ∧ pending_output (playback_recovery h) = None ∧ awaiting_callback (playback_recovery h) = false
  ∧ errors (playback_recovery h) = None
  ∧ (format (playback_recovery h) = None ∧ retry_at (playback_recovery h) = None
     ∨ is_Some (format (playback_recovery h)) ∧ held_back t0 last h
       ∧ ∃ due, retry_at (playback_recovery h) = Some due ∧ due ≤ t0 + RECOVERY_INTERVAL ∧ spaced_from last due).
Definition sounding (t0 : Z) (last : option Z) (d : device) (h : AudioHandler) : Prop :=
  (∃ i, opened t0 last d h i) ∧ is_Some (audio_decoder h)
  ∧ (∀ c, pending_output (playback_recovery h) = Some c → ∃ i, candidate t0 last d h c i).
Definition sound (t0 : Z) (last : option Z) (d : device) (h : AudioHandler) : Prop :=
  closed t0 last h ∨ sounding t0 last d h.

Lemma held_back_later t0 t1 last h : t0 ≤ t1 → held_back t0 last h → held_back t1 last h.
Proof. intros ? (b & ? & ? & ?). exists b. split_and!; [done|lia|done]. Qed.
Lemma waiting_later t0 t1 h : t0 ≤ t1 → waiting t0 h → waiting t1 h.
Proof. intros ? [? (due & ? & ?)]. split; [done|]. exists due. split; [done|lia]. Qed.
Lemma opened_later t0 t1 last d d' h i : t0 ≤ t1 → onward d d' → opened t0 last d h i → opened t1 last d' h i.
Proof.
  intros Ht [N R Q] [? ? ? ? ? ? ? Hw]. split; try done; [lia|by eapply held_back_later|].
  destruct Hw as [Hr|Hw]; [left; auto|right; by eapply waiting_later].
Qed.
Lemma candidate_later t0 t1 last d d' h h' c i : t0 ≤ t1 → onward d d' →
  (sample_rate h').1 = (sample_rate h).1 → channels h' = channels h →
  candidate t0 last d h c i → candidate t1 last d' h' c i.
Proof.
  intros Ht Hd Hr Hc [? ? ? ? ?]. split; try done; [by eapply opened_later|by eapply waiting_later|congruence|congruence].
Qed.
Lemma sounding_later t0 t1 last d d' h : t0 ≤ t1 → onward d d' → sounding t0 last d h → sounding t1 last d' h.
Proof.
  intros Ht Hd ((i & Ho) & Hdec & Hc). split_and!; [exists i; by eapply opened_later|done|].
  intros c Hp. destruct (Hc c Hp) as [j Hj]. exists j. by eapply candidate_later.
Qed.
Lemma sound_later t0 t1 last d d' h : t0 ≤ t1 → onward d d' → sound t0 last d h → sound t1 last d' h.
Proof.
  intros Ht Hd [(? & ? & ? & ? & Hf)|Hs]; [left|right; by eapply sounding_later].
  split_and!; try done. destruct Hf as [?|(? & ? & due & ? & ? & ?)]; [by left|right].
  split_and!; [done|by eapply held_back_later|]. exists due. split_and!; [done|lia|done].
Qed.
(** A handler without a replacement takes another decoder. *)
Lemma sounding_decoder t last d h dec : sounding t last d h → pending_output (playback_recovery h) = None →
  is_Some dec → sounding t last d (h <| audio_decoder := dec |>).
Proof.
  intros ((i & [? ? ? ? ? ? ? ?]) & _ & _) Hp Hdec. split_and!; [by exists i|done|]. cbn. by rewrite Hp.
Qed.
Lemma spaced_later last t t' : t ≤ t' → spaced_from last t → spaced_from last t'.
Proof. destruct last; cbn; [lia|done]. Qed.

(** ** Whether a stream failed *)
Definition alive (t : Z) (d : device) (h : AudioHandler) : Prop :=
  quiet d (audio_stream h)
  ∧ (is_ready d (audio_stream h) = true ∨ ∃ due, startup_deadline (playback_recovery h) = Some due ∧ t < due).
(** The same handler up to whether it waits for a callback. *)
Definition stops_waiting (h h' : AudioHandler) : Prop :=
  h' = h ∨ h' = h <| playback_recovery ::= λ r, r <| awaiting_callback := false |> <| startup_deadline := None |> |>.
(** A device that was only read. *)
Record read_only (d d' : device) : Prop := {
  read_onward : onward d d';
  read_next : next d' = next d;
  read_ready st : is_ready d' st = is_ready d st
}.
#[export] Instance read_only_preorder : PreOrder read_only.
Proof.
  split; [split; done|]. intros d1 d2 d3 [? ? R1] [? ? R2].
  split; [by etrans|congruence|]. intros st. by rewrite R2.
Qed.
Lemma report_read_only r d : read_only d (report_pending r d).1.
Proof.
  pose proof (report_pending_spec r d) as Hr. destruct (report_pending r d) as [d' failed].
  destruct Hr as (? & ? & ? & ? & ? & ?). by split.
Qed.

Lemma playback_failed_spec t0 last t d h i : opened t0 last d h i →
  let '(h', d', failed) := playback_failed t h d in
  read_only d d' ∧ stops_waiting h h'
  ∧ (if failed : bool then ¬ (quiet d (Some i) ∧ is_ready d (Some i) = true) else h' = h ∧ alive t d' h).
Proof.
  intros [Hs Hst He Hi _ _ _ Hw]. unfold playback_failed, playback_start_timed_out.
  pose proof (report_pending_spec (playback_recovery h) d) as Hr.
  destruct (report_pending (playback_recovery h) d) as [d' failed].
  destruct Hr as (Ho & Hn & _ & Hf & Hr & Hq). rewrite He in Hf, Hq. rewrite Hst.
  destruct failed; [split_and!; [by split|by left|intros [Hq' _]; apply Hf in Hq'; done]|].
  destruct (awaiting_callback _) eqn:Haw, (is_ready d' (Some i)) eqn:Hrd; cbn [negb orb].
  - split_and!; [by split|by left|done|split; rewrite Hs; [done|by left]].
  - destruct (startup_deadline _) as [due|] eqn:Hdl; cbn [negb].
    + destruct (Z.leb_spec due t); cbn [negb].
      * split_and!; [by split|by right|]. intros [_ Hrd']. by rewrite Hr, Hrd' in Hrd.
      * split_and!; [by split|by left|done|split; rewrite Hs; [done|by right; exists due]].
    + destruct Hw as [Hw|[_ (due & ? & _)]]; [|congruence]. by rewrite Hr, Hw in Hrd.
  - split_and!; [by split|by left|done|split; rewrite Hs; [done|by left]].
  - destruct Hw as [Hw|[? _]]; [|congruence]. by rewrite Hr, Hw in Hrd.
Qed.

(** ** The end of waiting for a replacement *)
Lemma opened_stops t0 last d d' h i dec p : onward d d' → opened t0 last d h i →
  opened t0 last d' (h <| audio_decoder := dec |> <| playback_recovery ::= λ r, r <| pending_output := p |> |>) i.
Proof.
  intros [N R Q] [? ? ? ? ? ? ? Hw]. split; try done; cbn; [lia|].
  destruct Hw as [Hw|Hw]; [left; auto|by right].
Qed.
Lemma stops_waiting_same h h' : stops_waiting h h' →
  audio_decoder h' = audio_decoder h ∧ audio_stream h' = audio_stream h
  ∧ format (playback_recovery h') = format (playback_recovery h)
  ∧ restart_not_before (playback_recovery h') = restart_not_before (playback_recovery h)
  ∧ errors (playback_recovery h') = errors (playback_recovery h).
Proof. by intros [-> | ->]. Qed.
Lemma held_back_same t0 last h h' :
  restart_not_before (playback_recovery h') = restart_not_before (playback_recovery h) →
  held_back t0 last h → held_back t0 last h'.
Proof. unfold held_back. by intros ->. Qed.
Lemma alive_read t d d' h i : read_only d d' → audio_stream h = Some i → (i < next d)%nat → alive t d h → alive t d' h.
Proof.
  intros [[N R Q] _ Hr] Hs Hi [Hq Hw]. unfold alive. rewrite Hr. split; [|done]. rewrite Hs in *. auto.
Qed.

(** A pass over a pending replacement either finds both streams failed, or leaves
    one that has not; the sound is not interrupted while there is some. *)
Lemma resolve_spec t0 last t d h : sounding t0 last d h →
  let '(h', d', res) := resolve_pending_playback t h d in
  read_only d d' ∧ audio_decoder h' = audio_decoder h ∧
  match res with
  | None => h' = h ∧ d' = d ∧ pending_output (playback_recovery h) = None
  | Some true => is_Some (format (playback_recovery h')) ∧ held_back t0 last h'
      ∧ ¬ (quiet d (audio_stream h) ∧ is_ready d (audio_stream h) = true)
  | Some false => sounding t0 last d' h' ∧ alive t d' h' ∧ (sample_rate h').1 = (sample_rate h).1 ∧ channels h' = channels h
      ∧ (quiet d (audio_stream h) → is_ready d (audio_stream h) = true → is_ready d' (audio_stream h') = true)
  end.
Proof.
  intros ((i & Ho) & Hdec & Hc). unfold resolve_pending_playback.
  destruct (pending_output (playback_recovery h)) as [c|] eqn:Hp; [|by split_and!].
  destruct (Hc c eq_refl) as [j [Hoj Hwj Hrj Hcj Hpj]].
  pose proof (playback_failed_spec t0 last t d c j Hoj) as Hfc. destruct (playback_failed t c d) as [[c' d1] cf].
  destruct Hfc as (Hd1 & Hc' & Hcf).
  pose proof (opened_stops t0 last d d1 h i (audio_decoder h) None (read_onward _ _ Hd1) Ho) as Ho1.
  set (h1 := h <| playback_recovery ::= _ |>). change (opened t0 last d1 h1 i) in Ho1.
  pose proof (playback_failed_spec t0 last t d1 h1 i Ho1) as Hfp. destruct (playback_failed t h1 d1) as [[h2 d2] pf].
  destruct Hfp as (Hd2 & Hh2 & Hpf). pose proof (stops_waiting_same _ _ Hh2) as (Hdec2 & Hs2 & Hf2 & Hb2 & He2).
  pose proof (stops_waiting_same _ _ Hc') as (_ & Hsc & Hfc & Hbc & Hec).
  assert (read_only d d2) as Hd by (by etrans).
  assert (pf = true → ¬ (quiet d (audio_stream h) ∧ is_ready d (audio_stream h) = true)) as Hbad.
  { intros ->. rewrite (opened_stream _ _ _ _ _ Ho). intros [Hq Hr]. apply Hpf. destruct Hd1 as [[_ _ Q] _ R].
    rewrite R. split; [|done]. by apply Q; [apply Ho|]. }
  destruct cf.
  - pose proof (report_read_only (playback_recovery c') d2) as Hd3. set (d3 := (report_pending _ _).1) in *.
    split_and!; [by etrans|done|]. destruct pf.
    + split_and!; [|apply (held_back_same t0 last c); [done|apply Hoj]|auto]. cbn. rewrite Hf2.
      destruct (opened_format _ _ _ _ _ Ho) as (f & Hf & _). cbn. rewrite Hf. by eexists.
    + destruct Hpf as [-> Ha]. split_and!; [|exact (alive_read t d2 d3 h1 i Hd3 (opened_stream _ _ _ _ _ Ho1) ltac:(rewrite (read_next _ _ Hd2); apply Ho1) Ha)|done|done|].
      * split_and!; [|done|by cbn]. exists i. destruct (opened_later t0 t0 last d1 d3 h1 i) as [? ? ? ? ? ? ? ?]; [done|etrans; [apply Hd2|apply Hd3]|done|].
        split; try done. eapply (held_back_same t0 last c); [done|apply Hoj].
      * intros _ Hr. cbn. rewrite (read_ready _ _ Hd3), (read_ready _ _ Hd). done.
  - destruct Hcf as [-> Hac].
    destruct (is_ready d2 (playback_status c) || pf) eqn:Hready.
    + pose proof (report_read_only (playback_recovery h2) d2) as Hd3. set (d3 := (report_pending _ _).1) in *.
      assert (read_only d1 d3) as Hd13 by by etrans.
      assert (read_only d d3) as Hd03 by by etrans.
      split_and!; [done|done|..].
      * split_and!; [|cbn; rewrite Hdec2; exact Hdec|cbn; by rewrite Hpj]. exists j.
        destruct (opened_later t0 t0 last d d3 c j) as [? ? ? ? ? ? ? ?]; [done|apply Hd03|done|]. by split.
      * eapply (alive_read t d1 d3 (c <| audio_decoder := audio_decoder h2 |>) j); [done|apply Hoj| |exact Hac].
        rewrite (read_next _ _ Hd1). apply Hoj.
      * done.
      * done.
      * intros Hq Hr. cbn. destruct pf; [by destruct (Hbad eq_refl)|]. rewrite orb_false_r in Hready.
        rewrite (read_ready _ _ Hd3). by rewrite (opened_stream _ _ _ _ _ Hoj), <- (opened_status _ _ _ _ _ Hoj).
    + apply orb_false_iff in Hready as [_ ->]. destruct Hpf as [-> Ha].
      split_and!; [done|done|..|done|done|].
      * split_and!; [|done|].
        -- exists i. destruct (opened_later t0 t0 last d d2 h i) as [? ? ? ? ? ? ? ?]; [done|apply Hd|done|]. by split.
        -- cbn. intros ? [= <-]. exists j. eapply candidate_later; [done|apply Hd|done|done|by split].
      * exact Ha.
      * intros _ Hr. cbn. by rewrite (read_ready _ _ Hd).
Qed.

(** ** Opening a stream *)
(** Everything the system is asked for is granted. *)
Definition works (a : answer) : Prop :=
  is_Some (config a) ∧ resampler_ok a = true ∧ supported a = true ∧ built a = true ∧ decoder_ok a = true.
(** A stream just opened for a format. *)
Record started (d : device) (f : AudioFormat) (h : AudioHandler) (i : nat) : Prop := {
  started_stream : audio_stream h = Some i;
  started_status : playback_status h = Some i;
  started_errors : errors (playback_recovery h) = Some i;
  started_known : (i < next d)%nat;
  started_rate : (sample_rate h).1 = format_rate f
}.
Lemma build_spec a ok n f h d : (sample_rate h).1 = format_rate f →
  let '(h', d', res) := build_output_stream a ok n h d in
  res = ok ∧ onward d d' ∧ decoders d' = decoders d ∧ audio_decoder h' = audio_decoder h ∧ channels h' = channels h
  ∧ (sample_rate h').1 = format_rate f ∧ (∃ e, playback_recovery h' = (playback_recovery h) <| errors := e |>)
  ∧ (res = true → ∃ i, started d' f h' i ∧ (next d ≤ i)%nat).
Proof.
  intros Hr. unfold build_output_stream. pose proof (opened_onward d (early a)) as Hd.
  destruct ok; (split_and!; [done|exact Hd|done|done|done|done|by eexists|try done]).
  intros _. exists (next d). split; [split; cbn; auto; lia|done].
Qed.
Lemma same_recovery r : ∃ e, r = r <| errors := e |>.
Proof. exists (errors r). by destruct r. Qed.
Lemma start_audio_spec a f h d : let '(h', d', ok) := start_audio a f h d in
  onward d d' ∧ decoders d' = decoders d ∧ audio_decoder h' = audio_decoder h ∧ channels h' = channels h
  ∧ (∃ e, playback_recovery h' = (playback_recovery h) <| errors := e |>)
  ∧ (ok = true → ∃ i, started d' f h' i ∧ (next d ≤ i)%nat) ∧ (works a → ok = true).
Proof.
  unfold start_audio, works. destruct (config a) as [[rate_ channels_]|].
  2:{ split_and!; try done; [apply same_recovery|]. by intros ([? ?] & _). }
  set (h0 := h <| sample_rate := _ |>).
  destruct (resampler_ok a), (supported a); cbn [negb orb].
  2-4: (split_and!; try done; [apply same_recovery|by intros (_ & ? & ? & _)]).
  assert ((sample_rate h0).1 = format_rate f) as Hr0 by done.
  destruct (format_channels f <? channels_).
  - pose proof (build_spec a (built_as_is a) (format_channels f) f h0 d Hr0) as H1.
    destruct (build_output_stream a (built_as_is a) _ h0 d) as [[h1 d1] r1].
    destruct H1 as (-> & Ho1 & Hd1 & Ha1 & Hc1 & Hr1 & (e1 & He1) & Hs1).
    destruct (built_as_is a); [split_and!; try done; by exists e1|].
    pose proof (build_spec a (built a) channels_ f h1 d1 Hr1) as H2.
    destruct (build_output_stream a (built a) _ h1 d1) as [[h2 d2] r2].
    destruct H2 as (-> & Ho2 & Hd2 & Ha2 & Hc2 & Hr2 & (e2 & He2) & Hs2).
    split_and!; [by etrans|congruence|by rewrite Ha2, Ha1|by rewrite Hc2, Hc1|exists e2; by rewrite He2, He1| |by intros (_ & _ & _ & ? & _)].
    intros Hb. destruct (Hs2 Hb) as (i & ? & ?). exists i. split; [done|]. pose proof (onward_next _ _ Ho1). lia.
  - pose proof (build_spec a (built a) channels_ f h0 d Hr0) as H2.
    destruct (build_output_stream a (built a) _ h0 d) as [[h2 d2] r2].
    destruct H2 as (-> & Ho2 & Hd2 & Ha2 & Hc2 & Hr2 & (e2 & He2) & Hs2).
    split_and!; try done; [by exists e2|by intros (_ & _ & _ & ? & _)].
Qed.

Lemma finish_ok t last d f h i : started d f h i → format (playback_recovery h) = Some f → channels h = format_channels f →
  spaced_from last (t + RECOVERY_INTERVAL) → let '(h', d') := finish_playback_start t true h d in
  d' = d ∧ opened t last d h' i ∧ waiting t h' ∧ audio_decoder h' = audio_decoder h
  ∧ pending_output (playback_recovery h') = pending_output (playback_recovery h)
  ∧ sample_rate h' = sample_rate h ∧ channels h' = channels h.
Proof.
  intros [? ? ? ? ?] Hf Hc Hl. cbn. assert (∀ P Q : Prop, Q → (Q → P) → P ∧ Q) as Hand by tauto.
  split; [done|]. apply Hand; [|intros (Hw & _)].
  - split_and!; try done. split; [done|]. eexists. split; [done|lia].
  - split; cbn; auto; [by exists f|]. eexists. split_and!; [done|lia|done].
Qed.
Lemma finish_err t last d h : is_Some (format (playback_recovery h)) → spaced_from last (t + RECOVERY_INTERVAL) →
  let '(h', d') := finish_playback_start t false h d in
  closed t last h' ∧ onward d d' ∧ is_Some (format (playback_recovery h')).
Proof.
  intros Hf Hl. unfold finish_playback_start, clear_playback_stream.
  set (h1 := h <| playback_recovery ::= _ |>). pose proof (report_read_only (playback_recovery h1) d) as [Hd _ _].
  split_and!; [|done|done]. split_and!; try done. right. split_and!; [done|exists (t + RECOVERY_INTERVAL)|exists (t + RECOVERY_INTERVAL)];
    (split_and!; [done|lia|done]).
Qed.

(** ** A pass of the recovery *)
(** No stream, and nothing that was not noticed at [t]. *)
Definition silent (t0 t : Z) (last : option Z) (h : AudioHandler) : Prop :=
  audio_stream h = None ∧ pending_output (playback_recovery h) = None ∧ awaiting_callback (playback_recovery h) = false
  ∧ errors (playback_recovery h) = None
  ∧ (format (playback_recovery h) = None ∧ retry_at (playback_recovery h) = None
     ∨ is_Some (format (playback_recovery h)) ∧ held_back t0 last h
       ∧ ∃ due, retry_at (playback_recovery h) = Some due ∧ due ≤ Z.max (t0 + RECOVERY_INTERVAL) t ∧ spaced_from last due).
(** The sound of [h] goes on in [h'], for the same format and with the same decoder. *)
Definition goes_on (d : device) (h : AudioHandler) (d' : device) (h' : AudioHandler) : Prop :=
  quiet d (audio_stream h) → is_ready d (audio_stream h) = true →
  is_ready d' (audio_stream h') = true ∧ audio_decoder h' = audio_decoder h
  ∧ (sample_rate h').1 = (sample_rate h).1 ∧ channels h' = channels h.

Lemma cleared_silent t0 last t d h : is_Some (format (playback_recovery h)) → held_back t0 last h →
  let '(h', _) := clear_playback_stream h d in
  silent t0 t last (h' <| playback_recovery ::= λ r, r <| retry_at :=
    Some (match restart_not_before r with Some due => Z.max due t | None => t end) |> |>).
Proof.
  intros Hf (b & Hb & Hbt & Hl). cbn. split_and!; [done..|]. right. split_and!; [done|by exists b|].
  rewrite Hb. exists (Z.max b t). split_and!; [done|lia|]. destruct last; cbn in *; [lia|done].
Qed.
Lemma notice_failure_spec t0 last t d h : sound t0 last d h →
  let '(h', d') := notice_failure t h d in
  onward d d' ∧ goes_on d h d' h' ∧ (is_Some (format (playback_recovery h)) → is_Some (format (playback_recovery h')))
  ∧ (sounding t0 last d' h' ∧ alive t d' h' ∨ silent t0 t last h').
Proof.
  unfold notice_failure. intros [(Hs & Hp & Haw & He & Hf)|Hso].
  - unfold resolve_pending_playback. rewrite Hp. unfold playback_failed, report_pending, playback_start_timed_out.
    rewrite He, Haw. cbn. split_and!; [done| |done|right].
    + unfold goes_on. rewrite Hs. done.
    + split_and!; try done. destruct Hf as [?|(? & ? & due & ? & ? & ?)]; [by left|right].
      split_and!; [done|done|]. exists due. split_and!; [done|lia|done].
  - pose proof (resolve_spec t0 last t d h Hso) as Hr. destruct (resolve_pending_playback t h d) as [[h1 d1] [failed|]].
    + destruct Hr as (Hd1 & Hdec & Hr). destruct failed.
      * destruct Hr as (Hf & Hb & Hbad). pose proof (cleared_silent t0 last t d1 h1 Hf Hb) as Hc.
        cbn in Hc |- *. split_and!; [|by intros Hq Hrd; destruct Hbad|done|by right].
        etrans; [apply Hd1|apply (report_read_only (playback_recovery h1) d1)].
      * destruct Hr as (Hso1 & Ha & Hrate & Hch & Hrd). split_and!; [apply Hd1| | |by left].
        -- intros Hq Hrd'. by split_and!; [apply Hrd|..].
        -- intros _. destruct Hso1 as ([i Hi] & _ & _). destruct (opened_format _ _ _ _ _ Hi) as (f & -> & _). by eexists.
    + destruct Hr as (_ & _ & -> & -> & Hp). pose proof Hso as ((i & Hi) & Hdec & _).
      pose proof (playback_failed_spec t0 last t d h i Hi) as Hf. destruct (playback_failed t h d) as [[h1 d1] failed].
      destruct Hf as (Hd1 & Hh1 & Hf). pose proof (stops_waiting_same _ _ Hh1) as (_ & _ & Hf1 & Hb1 & _).
      destruct (opened_format _ _ _ _ _ Hi) as (f & Hff & _). destruct failed.
      * assert (is_Some (format (playback_recovery h1))) as Hsf by (rewrite Hf1, Hff; by eexists).
        pose proof (cleared_silent t0 last t d1 h1 Hsf (held_back_same _ _ _ _ Hb1 (opened_held _ _ _ _ _ Hi))) as Hc.
        cbn in Hc |- *. split_and!; [|by unfold goes_on; rewrite (opened_stream _ _ _ _ _ Hi); intros Hq Hrd; destruct Hf|done|by right].
        etrans; [apply Hd1|apply (report_read_only (playback_recovery h1) d1)].
      * destruct Hf as [-> Ha]. split_and!; [apply Hd1| |done|left].
        -- intros Hq Hrd. split_and!; [by rewrite (read_ready _ _ Hd1)|done..].
        -- split; [|done]. destruct (sound_later t0 t0 last d d1 h) as [(Hn & _)|?]; [done|apply Hd1|by right| |done].
           by rewrite (opened_stream _ _ _ _ _ Hi) in Hn.
Qed.

Lemma notice_callback_spec t0 last t d h : sounding t0 last d h → alive t d h →
  let h' := notice_callback d h in
  sounding t0 last d h' ∧ alive t d h' ∧ goes_on d h d h'
  ∧ format (playback_recovery h') = format (playback_recovery h).
Proof.
  intros Hso Ha. cbv zeta. unfold notice_callback. destruct (_ && _) eqn:Hb; [|by split_and!].
  apply andb_true_iff in Hb as [_ Hr]. destruct Hso as ((i & [? Hst ? ? ? ? ? ?]) & Hdec & Hc).
  assert (is_ready d (Some i) = true) as Hr' by by rewrite <- Hst.
  split_and!; [split_and!; [|done|]|split; [apply Ha|left; cbn; congruence]|done|done].
  - exists i. split; try done. by left.
  - cbn. intros c Hp. destruct (Hc c Hp) as [j Hj]. exists j. by apply (candidate_later t0 t0 last d d h).
Qed.
Lemma notice_callback_silent d h : awaiting_callback (playback_recovery h) = false → notice_callback d h = h.
Proof. unfold notice_callback. by intros ->. Qed.

(** Restarting: a stream for the wanted format, or a time to try again. *)
Lemma restart_spec t1 last a f h d : format (playback_recovery h) = Some f → pending_output (playback_recovery h) = None →
  spaced_from last (t1 + RECOVERY_INTERVAL) →
  let '(h1, d1, ok) := restart_playback a f h d in let '(h', d') := finish_playback_start t1 ok h1 d1 in
  onward d d' ∧ is_Some (format (playback_recovery h')) ∧ sound t1 last d' h'
  ∧ (works a → sounding t1 last d' h' ∧ ∃ i, audio_stream h' = Some i ∧ (next d ≤ i)%nat).
Proof.
  intros Hf Hp Hl. unfold restart_playback. destruct (decoder_ok a) eqn:Hdec; cbn [negb].
  2:{ pose proof (finish_err t1 last d h (mk_is_Some _ _ Hf) Hl) as Hfin. destruct (finish_playback_start t1 false h d) as [h' d'].
      destruct Hfin as (? & ? & ?). split_and!; [done|done|by left|]. intros (_ & _ & _ & _ & ?). congruence. }
  pose proof (decoder_onward d) as Hd0. destruct (new_decoder d) as [d0 dec] eqn:Hnd. cbn in Hd0.
  pose proof (start_audio_spec a f h d0) as Hst. destruct (start_audio a f h d0) as [[h1 d1] ok].
  destruct Hst as (Hd1 & _ & _ & _ & (e & He) & Hok & Hw). destruct ok.
  - destruct (Hok eq_refl) as (i & Hi & Hge). set (h2 := h1 <| channels := _ |> <| audio_decoder := _ |>).
    assert (started d1 f h2 i) as Hi2 by by destruct Hi.
    pose proof (finish_ok t1 last d1 f h2 i Hi2 ltac:(by cbn; rewrite He) eq_refl Hl) as Hfin.
    destruct (finish_playback_start t1 true h2 d1) as [h' d']. destruct Hfin as (-> & Ho & _ & Hdec' & Hp' & _ & _).
    assert (sounding t1 last d1 h') as Hso.
    { split_and!; [by exists i|rewrite Hdec'; by eexists|]. rewrite Hp'. cbn. rewrite He. cbn. by rewrite Hp. }
    assert (next d0 = next d) as Hn by (unfold new_decoder in Hnd; by simplify_eq/=). rewrite Hn in Hge.
    split_and!; [by etrans| |by right|].
    + destruct (opened_format _ _ _ _ _ Ho) as (? & -> & _). by eexists.
    + intros _. split; [done|]. exists i. split; [apply Ho|done].
  - pose proof (finish_err t1 last d1 h1 ltac:(rewrite He; cbn; by eexists) Hl) as Hfin.
    destruct (finish_playback_start t1 false h1 d1) as [h' d']. destruct Hfin as (? & ? & ?).
    split_and!; [by repeat (etrans; [eassumption|])|done|by left|]. intros Hwa. by apply Hw in Hwa.
Qed.

Lemma recover_spec t0 last t a d h : sound t0 last d h → t0 ≤ t → 0 ≤ took a →
  let '(h', d', tried) := recover_playback_with t a h d in
  onward d d' ∧ goes_on d h d' h' ∧ (is_Some (format (playback_recovery h)) → is_Some (format (playback_recovery h')))
  ∧ (if tried : bool then
       is_Some (format (playback_recovery h')) ∧ spaced_from last t ∧ sound (t + took a) (Some (t + took a)) d' h'
       ∧ ¬ (quiet d (audio_stream h) ∧ is_ready d (audio_stream h) = true)
       ∧ (works a → sounding (t + took a) (Some (t + took a)) d' h' ∧ ∃ i, audio_stream h' = Some i ∧ (next d ≤ i)%nat)
     else sounding t0 last d' h' ∧ alive t d' h'
          ∨ closed t0 last h' ∧ (is_Some (format (playback_recovery h')) → t < t0 + RECOVERY_INTERVAL)).
Proof.
  intros Hso Ht0 Htk. unfold recover_playback_with.
  pose proof (notice_failure_spec t0 last t d h Hso) as Hn. destruct (notice_failure t h d) as [h1 d1].
  destruct Hn as (Hd1 & Hg1 & Hf1 & [[Hso1 Ha1]|Hsi]).
  - pose proof (notice_callback_spec t0 last t d1 h1 Hso1 Ha1) as Hc. cbv zeta in *. set (h2 := notice_callback d1 h1) in *.
    destruct Hc as (Hso2 & Ha2 & Hg2 & Hf2). pose proof Hso2 as ((i & Hi) & _). rewrite (opened_retry _ _ _ _ _ Hi). cbn [negb].
    split_and!; [done| |by rewrite Hf2|by left].
    intros Hq Hr. destruct (Hg1 Hq Hr) as (Hr1 & ? & ? & ?). destruct (Hg2 (proj1 Ha1) Hr1) as (? & ? & ? & ?).
    split_and!; congruence.
  - destruct Hsi as (Hs & Hp & Haw & He & Hf). rewrite (notice_callback_silent d1 h1 Haw).
    assert (goes_on d h d1 h1 → ¬ (quiet d (audio_stream h) ∧ is_ready d (audio_stream h) = true)) as Hbad.
    { intros Hg [Hq Hr]. destruct (Hg Hq Hr) as [Hr1 _]. by rewrite Hs in Hr1. }
    specialize (Hbad Hg1). destruct Hf as [[Hf Hre]|([f Hf] & Hb & due & Hre & Hdue & Hl)]; rewrite Hre.
    + cbn [negb]. split_and!; [done|done|done|right]. rewrite Hf.
      split; [split_and!; auto|intros [? ?]; done].
    + destruct (Z.leb_spec due t); cbn [negb].
      * rewrite Hf. pose proof (restart_spec (t + took a) (Some (t + took a)) a f h1 d1 Hf Hp ltac:(cbn; lia)) as Hr.
        destruct (restart_playback a f h1 d1) as [[h2 d2] ok]. destruct (finish_playback_start _ ok h2 d2) as [h3 d3].
        destruct Hr as (Hd3 & Hf3 & Hso3 & Hw). split_and!; [by etrans|by intros Hq Hr; destruct Hbad|done|done| |done|done|].
        -- destruct last; cbn in *; [lia|done].
        -- intros Hwa. destruct (Hw Hwa) as [? (i & ? & ?)]. split; [done|]. exists i. split; [done|].
           pose proof (onward_next _ _ Hd1). lia.
      * split_and!; [done|done|done|right]. split; [|intros; lia]. split_and!; try done. right.
        split_and!; [by eexists|done|]. exists due. split_and!; [done|lia|done].
Qed.

(** ** A new format *)
Lemma cancel_spec t0 last t d h : sound t0 last d h →
  let '(h', d', failed) := cancel_pending_playback t h d in
  onward d d' ∧
  (if failed : bool then ¬ (quiet d (audio_stream h) ∧ is_ready d (audio_stream h) = true)
   else sound t0 last d' h' ∧ pending_output (playback_recovery h') = None ∧ goes_on d h d' h'
     ∧ (quiet d (audio_stream h) → quiet d' (audio_stream h'))).
Proof.
  unfold cancel_pending_playback. intros [Hc|Hso].
  - pose proof Hc as (_ & Hp & _). unfold resolve_pending_playback. rewrite Hp. cbn. rewrite Hp.
    split_and!; [done|by left|done|done|done].
  - pose proof (resolve_spec t0 last t d h Hso) as Hr. destruct (resolve_pending_playback t h d) as [[h1 d1] res].
    destruct Hr as (Hd1 & Hdec & Hr). destruct res as [[|]|]; cbn [default id].
    + destruct Hr as (_ & _ & Hbad). destruct (pending_output _) as [c|]; (split; [|done]).
      * etrans; [apply Hd1|apply (report_read_only (playback_recovery c) d1)].
      * apply Hd1.
    + destruct Hr as (Hso1 & Ha & Hrate & Hch & Hrd). pose proof Hso1 as ((i & Hi) & Hdec1 & _).
      assert (goes_on d h d1 h1) as Hg by (intros Hq Hr; by split_and!; auto).
      destruct (pending_output _) as [c|] eqn:Hp.
      2:{ split_and!; [apply Hd1|by right|done|done|intros _; apply Ha]. }
      pose proof (report_read_only (playback_recovery c) d1) as Hd2. set (d2 := (report_pending _ _).1) in *.
      split_and!; [etrans; [apply Hd1|apply Hd2]| |done| |].
      * right. split_and!; [exists i|done|done]. exact (opened_stops _ _ d1 d2 h1 i (audio_decoder h1) None (read_onward _ _ Hd2) Hi).
      * intros Hq Hr. destruct (Hg Hq Hr) as (? & ? & ? & ?). split_and!; try done. cbn. by rewrite (read_ready _ _ Hd2).
      * intros _. destruct Ha as [Ha _]. cbn. rewrite (opened_stream _ _ _ _ _ Hi) in *.
        destruct Hd2 as [[_ _ Q] _ _]. apply Q; [apply Hi|done].
    + destruct Hr as (-> & -> & Hp). rewrite Hp. split_and!; [done|by right|done|done|done].
Qed.

(** The stream that was opened for a format, beside the one it is to replace. *)
Lemma replacement_spec t last again d f h i previous :
  started d f h i → format (playback_recovery h) = Some f → channels h = format_channels f →
  pending_output (playback_recovery h) = None → is_Some (audio_decoder h) →
  spaced_from last (t + RECOVERY_INTERVAL) → 0 ≤ took again →
  (∀ p, previous = Some p → sounding t last d p ∧ (sample_rate p).1 = format_rate f ∧ channels p = format_channels f) →
  let '(h', d', tried) := finish_playback_replacement t again true previous h d in
  onward d d' ∧ is_Some (format (playback_recovery h'))
  ∧ (if tried : bool then spaced_from last t ∧ sound (t + took again) (Some (t + took again)) d' h' else sound t last d' h')
  ∧ (∀ p, previous = Some p → quiet d (audio_stream p) → is_ready d (audio_stream p) = true →
       tried = false ∧ is_ready d' (audio_stream h') = true ∧ audio_decoder h' = audio_decoder h
       ∧ (sample_rate h').1 = format_rate f ∧ channels h' = format_channels f).
Proof.
  intros Hst Hf Hch Hp Hdec Hl Htk Hprev. unfold finish_playback_replacement.
  pose proof (finish_ok t last d f h i Hst Hf Hch Hl) as Hfin. destruct (finish_playback_start t true h d) as [h1 d1].
  destruct Hfin as (-> & Ho & Hw & Hd1 & Hp1 & Hr1 & Hc1).
  destruct previous as [p|].
  - destruct (Hprev p eq_refl) as (((j & Hj) & _ & _) & Hrate & Hchp). cbv zeta.
    set (c := h1 <| audio_decoder := None |>). set (h2 := (p <| audio_decoder := audio_decoder h1 |>) <| playback_recovery ::= _ |>).
    assert (sounding t last d h2) as Hso2.
    { split_and!; [|by rewrite <- Hd1 in Hdec|].
      - exists j. by apply (opened_stops t last d d p j (audio_decoder h1) (Some c)).
      - cbn. intros ? [= <-]. exists i. split; cbn; [by destruct Ho|done| |by rewrite Hchp, Hc1|by rewrite Hp1].
        by rewrite Hrate, Hr1, (started_rate _ _ _ _ Hst). }
    pose proof (recover_spec t last t again d h2 (or_intror Hso2) (Z.le_refl t) Htk) as Hrec.
    destruct (recover_playback_with t again h2 d) as [[h3 d3] tried]. destruct Hrec as (Hd3 & Hg & Hfmt & Hres).
    split_and!; [done| | |].
    + apply Hfmt. cbn. destruct (opened_format _ _ _ _ _ Hj) as (g & -> & _). by eexists.
    + destruct tried; [by destruct Hres as (_ & ? & ? & _)|]. destruct Hres as [[? _]|[? _]]; [by right|by left].
    + intros ? [= <-] Hq Hr. destruct (Hg Hq Hr) as (Hr3 & Hdec3 & Hrate3 & Hch3). cbn in Hdec3, Hrate3, Hch3.
      split_and!; try congruence. destruct tried; [|done]. by destruct Hres as (_ & _ & _ & Hbad & _); destruct Hbad.
  - split_and!; [done| | |done].
    + destruct (opened_format _ _ _ _ _ Ho) as (g & -> & _). by eexists.
    + right. split_and!; [by exists i|by rewrite Hd1|]. by rewrite Hp1, Hp.
Qed.

(** What is prepared for a format before its stream is opened, and what opening
    leaves of it. *)
Lemma prepare_default f d : prepare_playback f handler_default d
  = (handler_default <| playback_recovery ::= λ r, r <| format := Some f |> |>, d).
Proof. reflexivity. Qed.
(** Whether the stream of before is kept, once it has been looked at again. *)
Lemma keep_spec t last d h f failed : (failed = false → sound t last d h ∧ pending_output (playback_recovery h) = None) →
  let keep := bool_decide (is_Some (audio_stream h)) && ((sample_rate h).1 =? format_rate f) && (channels h =? format_channels f) in
  let '(d', keep) := if keep && negb failed
                     then let '(d', bad) := report_pending (playback_recovery h) d in (d', negb bad)
                     else (d, false) in
  onward d d'
  ∧ (keep = true → sounding t last d' h ∧ (sample_rate h).1 = format_rate f ∧ channels h = format_channels f
       ∧ pending_output (playback_recovery h) = None)
  ∧ (failed = false → is_Some (audio_stream h) → quiet d (audio_stream h) →
     (sample_rate h).1 = format_rate f → channels h = format_channels f → keep = true).
Proof.
  intros Hso. cbv zeta. destruct (bool_decide_reflect (is_Some (audio_stream h))) as [[i Hi]|Hn]; cbn [andb].
  2:{ split_and!; [done|done|]. by intros _ ?. }
  destruct (Z.eqb_spec (sample_rate h).1 (format_rate f)), (Z.eqb_spec (channels h) (format_channels f)); cbn [andb].
  2-4: (split_and!; [done|done|by intros]).
  destruct failed; cbn [negb andb]; [by split_and!|].
  destruct (Hso eq_refl) as [[(Hn & _)|Hsg] Hp]; [congruence|]. pose proof Hsg as ((j & Hj) & Hdec & _).
  pose proof (report_pending_spec (playback_recovery h) d) as Hr. destruct (report_pending (playback_recovery h) d) as [d' bad].
  destruct Hr as (Hd & _ & _ & Hbad & _ & _). rewrite (opened_errors _ _ _ _ _ Hj) in Hbad.
  split_and!; [done| |].
  - intros _. split_and!; [|done..]. split_and!; [exists j|done|by rewrite Hp].
    apply (opened_later t t last d d'); [lia|done|done].
  - rewrite (opened_stream _ _ _ _ _ Hj). intros _ _ Hq _ _. by rewrite (proj2 Hbad Hq).
Qed.

Definition takes (f : AudioFormat) (a : answer) : Prop :=
  is_supported_audio_channel_count (format_channels f) = true ∧ decoder_ok a = true.
(** A stream that was opened for [f] beside a compatible one goes on in its sound. *)
Definition replaces (f : AudioFormat) (d : device) (h : AudioHandler) (d' : device) (h' : AudioHandler) (tried : bool) : Prop :=
  quiet d (audio_stream h) → is_ready d (audio_stream h) = true →
  (sample_rate h).1 = format_rate f → channels h = format_channels f →
  tried = false ∧ is_ready d' (audio_stream h') = true ∧ audio_decoder h' = Some (decoders d)
  ∧ (sample_rate h').1 = format_rate f ∧ channels h' = format_channels f.

(** The sound that was there goes on in the stream that is kept. *)
Lemma kept_sound t last d d0 d1 d3 d4 h h1 f failed keep :
  sound t last d h → onward d d0 → onward d1 d3 → onward d3 d4 →
  (if failed : bool then ¬ (quiet d0 (audio_stream h) ∧ is_ready d0 (audio_stream h) = true)
   else sound t last d1 h1 ∧ pending_output (playback_recovery h1) = None ∧ goes_on d0 h d1 h1
     ∧ (quiet d0 (audio_stream h) → quiet d1 (audio_stream h1))) →
  (failed = false → is_Some (audio_stream h1) → quiet d3 (audio_stream h1) →
     (sample_rate h1).1 = format_rate f → channels h1 = format_channels f → keep = true) →
  quiet d (audio_stream h) → is_ready d (audio_stream h) = true →
  (sample_rate h).1 = format_rate f → channels h = format_channels f →
  keep = true ∧ is_ready d4 (audio_stream h1) = true ∧ quiet d4 (audio_stream h1).
Proof.
  intros Hso Hd0 Hd3 Hd4 Hcan Hkeeps. intros Hq Hr Hrate Hch. destruct Hd0 as [_ R0 Q0].
  assert (∃ n, audio_stream h = Some n ∧ (n < next d)%nat) as (n & Hn & Hlt).
  { destruct Hso as [(Hn & _)|((n & Hn) & _)]; [by rewrite Hn in Hr|]. exists n. split; apply Hn. }
  rewrite Hn in Hq, Hr. apply (Q0 _ Hlt) in Hq as Hq0. apply (R0 _ Hlt) in Hr as Hr0. rewrite <- Hn in Hq0, Hr0.
  destruct failed; [by destruct Hcan|]. destruct Hcan as (Hso1 & Hp1 & Hg & Hq1).
  destruct (Hg Hq0 Hr0) as (Hr1 & _ & Hrate1 & Hch1). specialize (Hq1 Hq0).
  destruct Hso1 as [(Hn1 & _)|((m & Hm) & _)]; [by rewrite Hn1 in Hr1|].
  pose proof (opened_stream _ _ _ _ _ Hm) as Hs1. pose proof (opened_known _ _ _ _ _ Hm) as Hkn. rewrite Hs1 in *.
  destruct (transitivity Hd3 Hd4) as [_ R34 Q34]. destruct Hd3 as [N3 _ Q3].
  split_and!; [|auto|auto]. apply Hkeeps; auto; congruence.
Qed.

Lemma handle_format_spec t last f a again d h : sound t last d h → spaced_from last (t + RECOVERY_INTERVAL) →
  0 ≤ took a → 0 ≤ took again →
  let '(h', d', tried) := handle_format t f a again h d in
  onward d d' ∧ (takes f a → is_Some (format (playback_recovery h')))
  ∧ (is_Some (format (playback_recovery h)) → is_Some (format (playback_recovery h')))
  ∧ (if tried : bool then is_Some (format (playback_recovery h')) ∧ spaced_from last (t + took a) ∧ sound (t + took a + took again) (Some (t + took a + took again)) d' h'
     else sound (t + took a) last d' h')
  ∧ (takes f a → replaces f d h d' h' tried).
Proof.
  intros Hso Hl Hta Htg. unfold handle_format, takes.
  destruct (is_supported_audio_channel_count _); cbn [negb].
  2:{ split_and!; [done|by intros [? _]|done|eapply sound_later; [|done|done]; lia|by intros [? _]]. }
  destruct (decoder_ok a); cbn [negb].
  2:{ split_and!; [done|by intros [_ ?]|done|eapply sound_later; [|done|done]; lia|by intros [_ ?]]. }
  unfold new_decoder. set (d0 := d <| decoders ::= S |>). assert (onward d d0) as Hd0 by apply (decoder_onward d).
  pose proof (cancel_spec t last t d0 h (sound_later _ _ _ _ _ _ (Z.le_refl t) Hd0 Hso)) as Hcan.
  destruct (cancel_pending_playback t h d0) as [[h1 d1] failed]. destruct Hcan as (Hd1 & Hcan).
  rewrite prepare_default. cbv beta zeta iota.
  set (h2 := ((handler_default <| playback_recovery ::= _ |>) <| audio_decoder := _ |>) <| channels := _ |>).
  pose proof (start_audio_spec a f h2 d1) as Hst. destruct (start_audio a f h2 d1) as [[h3 d3] result].
  destruct Hst as (Hd3 & _ & Hdec3 & Hch3 & (e & He3) & Hok & _).
  assert (failed = false → sound t last d3 h1 ∧ pending_output (playback_recovery h1) = None) as Hprev.
  { intros ->. destruct Hcan as (Hso1 & ? & _). split; [|done]. by eapply sound_later; [|exact Hd3|exact Hso1]. }
  pose proof (keep_spec t last d3 h1 f failed Hprev) as Hkeep. cbv zeta in Hkeep.
  destruct (if _ && _ && _ && negb failed then _ else _) as [d4 keep]. destruct Hkeep as (Hd4 & Hk & Hkeeps).
  assert (onward d d4) as Hd by by repeat (etrans; [eassumption|]).
  pose proof (kept_sound t last d d0 d1 d3 d4 h h1 f failed keep Hso Hd0 Hd3 Hd4 Hcan Hkeeps) as Hgo.
  assert (onward d0 d4) as Hd04 by by repeat (etrans; [eassumption|]).
  assert (is_Some (format (playback_recovery h3))) as Hf3 by (rewrite He3; by eexists).
  assert (spaced_from last (t + took a + RECOVERY_INTERVAL)) as Hl' by (eapply spaced_later; [|exact Hl]; lia).
  destruct result.
  - destruct (Hok eq_refl) as (i & Hi & _). rewrite andb_false_l.
    assert (∀ p, (if keep then Some h1 else None) = Some p → sounding (t + took a) last d4 p
      ∧ (sample_rate p).1 = format_rate f ∧ channels p = format_channels f) as Hp.
    { intros p Hp. destruct keep; [|done]. injection Hp as <-. destruct (Hk eq_refl) as (Hs & ? & ? & _).
      split; [|done]. apply (sounding_later t _ last d4 d4); [lia|done|exact Hs]. }
    assert (started d4 f h3 i) as Hi4 by (destruct Hi; pose proof (onward_next _ _ Hd4); split; auto; lia).
    pose proof (replacement_spec (t + took a) last again d4 f h3 i _ Hi4 ltac:(by rewrite He3) Hch3
      ltac:(by rewrite He3) ltac:(rewrite Hdec3; by eexists) Hl' Htg Hp) as Hrep.
    destruct (finish_playback_replacement _ again true _ h3 d4) as [[h5 d5] tried]. destruct Hrep as (Hd5 & Hf5 & Hres & Hgo5).
    split_and!; [by etrans|done|done|by destruct tried|]. intros _ Hq Hr Hrate Hch. destruct (Hgo Hq Hr Hrate Hch) as (-> & Hr4 & Hq4).
    destruct (Hgo5 h1 eq_refl Hq4 Hr4) as (? & ? & -> & ? & ?). by rewrite Hdec3.
  - destruct keep; cbn [negb andb].
    + destruct (Hk eq_refl) as (Hs & Hrate1 & Hch1 & Hp1). pose proof Hs as ((m & Hm) & _).
      assert (is_Some (format (playback_recovery h1))) as Hf1.
      { destruct (opened_format _ _ _ _ _ Hm) as (g & -> & _). by eexists. }
      split_and!; [done|done|done| |].
      * right. apply sounding_decoder; [|done|rewrite Hdec3; by eexists].
        apply (sounding_later t _ last d4 d4); [lia|done|exact Hs].
      * intros _ Hq Hr Hrate Hch. destruct (Hgo Hq Hr Hrate Hch) as (_ & ? & _). by split_and!.
    + unfold finish_playback_replacement.
      pose proof (finish_err (t + took a) last d4 h3 Hf3 Hl') as Hfin. destruct (finish_playback_start _ false h3 d4) as [h5 d5].
      destruct Hfin as (? & ? & ?). split_and!; [by etrans|done|done|by left|].
      intros _ Hq Hr Hrate Hch. by destruct (Hgo Hq Hr Hrate Hch) as (? & _).
Qed.

(** ** Histories of the thread *)
Definition last_end (w : thread) : option Z := snd <$> head (restarts w).
(** No restart begins within the interval after the end of the one before. *)
Fixpoint spaced (l : list (Z * Z)) : Prop :=
  match l with
  | [] => True
  | (began, _) :: l' => spaced_from (snd <$> head l') began ∧ spaced l'
  end.
Record thread_ok (w : thread) : Prop := {
  ok_sound : sound (clock w) (last_end w) (dev w) (handler w);
  ok_spaced : spaced (restarts w);
  ok_past : ∀ e, last_end w = Some e → e ≤ clock w;
  ok_wanted : format (playback_recovery (handler w)) = None → restarts w = []
}.

Lemma sound_grows t last d d' h : next d' = next d → (∀ st, is_ready d st = true → is_ready d' st = true) →
  sound t last d h → sound t last d' h.
Proof.
  intros Hn Hr [?|((i & Ho) & Hdec & Hc)]; [by left|right].
  assert (∀ h i, opened t last d h i → opened t last d' h i) as Hop.
  { intros h' j [? ? ? ? ? ? ? Hw]. split; try done; [congruence|]. destruct Hw; [left; auto|by right]. }
  split_and!; [exists i; auto|done|]. intros c Hp. destruct (Hc c Hp) as [j [? ? ? ? ?]]. exists j. split; auto.
Qed.
Lemma passes_later w t : clock w ≤ t → thread_ok w → thread_ok (w <| clock := t |>).
Proof.
  intros Ht [Hs Hsp Hp Hwn]. split; [by eapply sound_later|done| |done]. intros e He. cbn. specialize (Hp e He). lia.
Qed.
Lemma spaced_next w : thread_ok w → spaced_from (last_end w) (clock w + RECOVERY_INTERVAL).
Proof. intros [_ _ Hp _]. destruct (last_end w); cbn; [|done]. specialize (Hp _ eq_refl). lia. Qed.

Lemma recover_ok a w : 0 ≤ took a → thread_ok w →
  thread_ok (recover a w) ∧ (is_Some (format (playback_recovery (handler w))) → is_Some (format (playback_recovery (handler (recover a w))))).
Proof.
  intros Ht [Hs Hsp Hp Hwn]. unfold recover.
  pose proof (recover_spec (clock w) (last_end w) (clock w) a (dev w) (handler w) Hs (Z.le_refl _) Ht) as Hr.
  destruct (recover_playback_with _ _ _ _) as [[h d] tried]. destruct Hr as (_ & _ & Hf & Hr). destruct tried.
  - destruct Hr as ([f Hf1] & ? & ? & _). split; [split; [done|done| |]|done].
    + cbn. intros e [= <-]. lia.
    + cbn. by rewrite Hf1.
  - split; [|done]. split; [|done|done|].
    + destruct Hr as [[? _]|[? _]]; [by right|by left].
    + cbn. intros Hn. apply Hwn. destruct (format (playback_recovery (handler w))); [|done].
      destruct (Hf ltac:(by eexists)) as [? ?]. congruence.
Qed.
Lemma take_format_ok f a again w : 0 ≤ took a → 0 ≤ took again → thread_ok w →
  thread_ok (take_format f a again w)
  ∧ (takes f a ∨ is_Some (format (playback_recovery (handler w))) → is_Some (format (playback_recovery (handler (take_format f a again w))))).
Proof.
  intros Ht Htg Hok. pose proof (spaced_next w Hok) as Hsp1. destruct Hok as [Hs Hsp Hp Hwn]. unfold take_format.
  pose proof (handle_format_spec (clock w) (last_end w) f a again (dev w) (handler w) Hs Hsp1 Ht Htg) as Hr.
  destruct (handle_format _ _ _ _ _ _) as [[h d] tried]. destruct Hr as (_ & Hf & Hf' & Hr & _).
  destruct tried; cbn; (split; [|intros [?|?]; auto]).
  - destruct Hr as ([g Hg] & ? & ?). split; [done|done| |].
    + cbn. intros e [= <-]. lia.
    + cbn. by rewrite Hg.
  - split; [done|done| |].
    + intros e He. cbn. specialize (Hp e He). lia.
    + cbn. intros Hn. apply Hwn. destruct (format (playback_recovery (handler w))); [|done].
      destruct (Hf' ltac:(by eexists)) as [? ?]. congruence.
Qed.

Lemma altered_ready f i d st : (∀ s, ready s = true → ready (f s) = true) →
  is_ready d st = true → is_ready (d <| streams ::= alter f i |>) st = true.
Proof.
  intros Hf. destruct st as [j|]; [|done]. unfold is_ready. cbn. destruct (decide (j = i)) as [->|].
  - rewrite lookup_alter_eq. destruct (streams d !! i); cbn; auto.
  - by rewrite lookup_alter_ne.
Qed.
Lemma happen_ok w e : timely e → thread_ok w →
  thread_ok (happen w e) ∧ (is_Some (format (playback_recovery (handler w))) → is_Some (format (playback_recovery (handler (happen w e))))).
Proof.
  intros Ht Hok. destruct e as [wait m current r a again|i failure|i]; cbn [happen].
  - destruct Ht as (Hw & Hr & Ha & Hg). unfold receive_with_recovery.
    assert (∀ z, 0 ≤ z → thread_ok (w <| clock ::= Z.add z |>)) as Hpass
      by (intros z Hz; change (w <| clock ::= Z.add z |>) with (w <| clock := z + clock w |>); apply passes_later; [lia|done]).
    assert (∀ z, 0 ≤ z → thread_ok (recover r (w <| clock ::= Z.add z |>))
      ∧ (is_Some (format (playback_recovery (handler w))) → is_Some (format (playback_recovery (handler (recover r (w <| clock ::= Z.add z |>))))))) as Hrec.
    { intros z Hz. apply (recover_ok r _ Hr (Hpass z Hz)). }
    destruct m as [m|]; [|by apply Hrec; unfold RECOVERY_INTERVAL; lia]. specialize (Hpass wait Hw). destruct (Hrec wait Hw) as [Hok2 Hf2]. clear Hrec.
    set (w1 := w <| clock ::= Z.add wait |>) in *.
    destruct m as [|f|]; [| |by split].
    2:{ assert (thread_ok (w1 <| last_format := Some f |>)) as Hok3 by by destruct Hpass.
        destruct (take_format_ok f a again _ Ha Hg Hok3) as [? Hf3]. split; [done|]. intros ?. apply Hf3. by right. }
    cbn [handle_media]. destruct (changed _ _ _) as [watch changed_]. destruct changed_; [|by destruct Hok2; split].
    destruct (last_format _) as [f|]; [|by destruct Hok2; split].
    assert (thread_ok ((recover r w1) <| output_watch := watch |>)) as Hok3 by by destruct Hok2.
    destruct (take_format_ok f a again _ Ha Hg Hok3) as [? Hf3]. split; [done|]. intros ?. apply Hf3. right. by apply Hf2.
  - split; [|done]. destruct Hok as [Hs Hsp Hp ?]. split; [|done..]. eapply sound_grows; [| |exact Hs]; [done|].
    intros st Hst. by apply altered_ready.
  - split; [|done]. destruct Hok as [Hs Hsp Hp ?]. split; [|done..]. eapply sound_grows; [| |exact Hs]; [done|].
    intros st Hst. by apply altered_ready.
Qed.
Lemma reached_ok w : reached w → thread_ok w.
Proof.
  apply reachable_invariant; clear w.
  - intros w (now & current & ->). split; [|done..]. left. split_and!; auto.
  - intros w w' Hok (e & Ht & ->). by apply happen_ok.
Qed.

(** ** Theorems *)
Definition wanted (w : thread) : option AudioFormat := format (playback_recovery (handler w)).

Definition turns (es : list event) : nat :=
  length (omap (λ e, match e with Turn _ _ _ _ _ _ => Some tt | _ => None end) es).
(** No data, and a device that works when it is asked. *)
Definition idle (e : event) : Prop :=
  match e with Turn _ m _ r _ _ => m = None ∧ works r | _ => True end.
(** There is a stream: one that called back and has not failed, or one opened since [w],
    that called back or is waited for. *)
Definition back (w w' : thread) : Prop :=
  ∃ i, audio_stream (handler w') = Some i ∧ is_Some (audio_decoder (handler w'))
  ∧ (is_ready (dev w') (Some i) = true ∧ quiet (dev w') (Some i)
     ∨ (next (dev w) ≤ i)%nat ∧ (is_ready (dev w') (Some i) = true ∨ waiting (clock w') (handler w'))).
(** What [w] has of sound at [t0], and no restart was tried since. *)
Record still (t0 : Z) (last : option Z) (n : nat) (w : thread) : Prop := {
  still_sound : sound t0 last (dev w) (handler w);
  still_later : t0 ≤ clock w;
  still_next : (n ≤ next (dev w))%nat;
  still_wanted : is_Some (wanted w)
}.
Lemma alter_next f i d : next (d <| streams ::= alter f i |>) = next d.
Proof. done. Qed.
Lemma heard_still t0 last n f i w : (∀ s, ready s = true → ready (f s) = true) → still t0 last n w →
  still t0 last n (w <| dev ::= λ d, d <| streams ::= alter f i |> |>).
Proof.
  intros Hf [Hs ? ? ?]. split; [|done..]. eapply sound_grows; [| |exact Hs]; [done|]. intros st Hst. by apply altered_ready.
Qed.
(** A turn without data tries no restart, or sound is back. *)
Lemma idle_turn t0 last w wait current r a again w0 : still t0 last (next (dev w0)) w → works r → 0 ≤ wait → 0 ≤ took r →
  let w' := happen w (Turn wait None current r a again) in
  back w0 w' ∨ still t0 last (next (dev w0)) w' ∧ t0 + RECOVERY_INTERVAL ≤ clock w'
    ∧ clock w + RECOVERY_INTERVAL ≤ clock w' ∧ (t0 + STARTUP_CONFIRMATION_TIMEOUT ≤ clock w' → back w0 w').
Proof.
  intros [Hs Hl Hn Hf] Hwk Hw Htr. cbn [happen receive_with_recovery]. unfold recover.
  pose proof (recover_spec t0 last (RECOVERY_INTERVAL + wait + clock w) r (dev w) (handler w) Hs
    ltac:(unfold RECOVERY_INTERVAL; lia) Htr) as Hrec.
  cbn -[recover_playback_with RECOVERY_INTERVAL STARTUP_CONFIRMATION_TIMEOUT].
  destruct (recover_playback_with _ _ _ _) as [[h d] tried]. destruct Hrec as (Hd & _ & Hf' & Hrec). destruct tried.
  - left. destruct Hrec as (_ & _ & _ & _ & Hwks). destruct (Hwks Hwk) as [((j & Hj) & Hdec & _) (i & Hi & Hge)]. exists i.
    cbn -[RECOVERY_INTERVAL]. split_and!; [done|done|]. assert (i = j) as -> by (rewrite (opened_stream _ _ _ _ _ Hj) in Hi; congruence).
    right. split; [lia|]. destruct (opened_wait _ _ _ _ _ Hj); [by left|right]. eapply waiting_later; [|done]. lia.
  - right. cbn -[RECOVERY_INTERVAL STARTUP_CONFIRMATION_TIMEOUT].
    assert (sound t0 last d h) as Hs' by (destruct Hrec as [[? _]|[? _]]; [by right|by left]).
    split; [split; cbn -[RECOVERY_INTERVAL]; [done|unfold RECOVERY_INTERVAL; lia|pose proof (onward_next _ _ Hd); lia|by apply Hf']|].
    unfold RECOVERY_INTERVAL in *. split; [lia|]. split; [lia|]. intros Hlong.
    destruct Hrec as [[((i & Hi) & Hdec & _) [Hq Hal]]|[_ Hno]]; [|specialize (Hno (Hf' Hf)); lia].
    pose proof (opened_stream _ _ _ _ _ Hi) as Hsi. rewrite Hsi in Hq, Hal. exists i. cbn. split_and!; [done|done|left]. split; [|done].
    destruct Hal as [?|(due & Hdue & Hlt)]; [done|]. destruct (opened_wait _ _ _ _ _ Hi) as [?|[_ (due' & Hdue' & Hle)]]; [done|].
    rewrite Hdue in Hdue'. injection Hdue' as <-. unfold STARTUP_CONFIRMATION_TIMEOUT in *. lia.
Qed.
Lemma idle_turns t0 last w0 es w : still t0 last (next (dev w0)) w → Forall timely es → Forall idle es →
  t0 + STARTUP_CONFIRMATION_TIMEOUT ≤ clock w + RECOVERY_INTERVAL * Z.of_nat (turns es) → (0 < turns es)%nat →
  ∃ es1 es2, es = es1 ++ es2 ∧ back w0 (foldl happen w es1).
Proof.
  revert w. induction es as [|e es IH]; intros w Hst Ht Hi Hlong Hpos; [cbn in Hpos; lia|].
  apply Forall_cons in Ht as [Ht Hts]. apply Forall_cons in Hi as [Hi His].
  assert (∀ w', w' = happen w e → (∃ es1 es2, es = es1 ++ es2 ∧ back w0 (foldl happen w' es1)) →
    ∃ es1 es2, e :: es = es1 ++ es2 ∧ back w0 (foldl happen w es1)) as Hcons.
  { intros w' -> (es1 & es2 & -> & Hb). by exists (e :: es1), es2. }
  destruct e as [wait m current r a again|i failure|i].
  - destruct Hi as [-> Hwk]. destruct Ht as (Hw & Htr & _ & _).
    destruct (idle_turn t0 last w wait current r a again w0 Hst Hwk Hw Htr) as [Hb|(Hst' & _ & Hclk & Hend)]; [by exists [Turn wait None current r a again], es|].
    assert (turns (Turn wait None current r a again :: es) = S (turns es)) as E by done. rewrite E in Hlong.
    destruct (decide (turns es = 0%nat)) as [H0|H0].
    + exists [Turn wait None current r a again], es. split; [done|]. apply Hend. rewrite H0 in Hlong. cbn -[happen RECOVERY_INTERVAL STARTUP_CONFIRMATION_TIMEOUT]. lia.
    + eapply Hcons; [reflexivity|]. apply IH; [done..| |lia]. lia.
  - eapply Hcons; [reflexivity|]. apply IH; [by apply heard_still|done..].
  - eapply Hcons; [reflexivity|]. apply IH; [by apply heard_still|done..].
Qed.

(** C30: Sound comes back. Once a format the viewer can play was taken, it stays wanted, whatever
    the device does. Then five turns in which [receive_audio] times out, a second each, between
    which streams call back and report what they will, suffice: if the device works whenever it is
    opened in them, after one of them there is an open stream with a decoder, either one
    that has called back and reported no failure, or one opened in these very
    turns, that called back or is waited for. *)
Theorem sound_comes_back w : reached w →
  (∀ wait f current r a again, timely (Turn wait (Some (MediaAudioFormat f)) current r a again) → takes f a →
     is_Some (wanted (happen w (Turn wait (Some (MediaAudioFormat f)) current r a again))))
  ∧ (∀ e, timely e → is_Some (wanted w) → is_Some (wanted (happen w e)))
  ∧ (∀ es, is_Some (wanted w) → Forall timely es → Forall idle es → (5 ≤ turns es)%nat →
       ∃ es1 es2, es = es1 ++ es2 ∧ back w (foldl happen w es1)).
Proof.
  intros Hr. pose proof (reached_ok w Hr) as Hok. split_and!.
  - intros wait f current r a again (Hw & _ & Ha & Hg) Htk. cbn [happen receive_with_recovery handle_media].
    assert (thread_ok (w <| clock := wait + clock w |> <| last_format := Some f |>)) as Hok1.
    { destruct (passes_later w (wait + clock w) ltac:(lia) Hok). by split. }
    apply (take_format_ok f a again _ Ha Hg Hok1). by left.
  - intros e Ht. by apply happen_ok.
  - intros es Hf Ht Hi Hn. apply (idle_turns (clock w) (last_end w) w es w); [|done|done| |lia].
    + split; [apply Hok|lia|lia|done].
    + unfold STARTUP_CONFIRMATION_TIMEOUT, RECOVERY_INTERVAL. lia.
Qed.

(** Restarts are held back. In every history each restart of the recovery begins
    at least a second after the end of the one before, whatever fails in between,
    whatever formats come and however long a start takes; and a thread that was never
    told a format tries none. *)
Theorem restarts_spaced w : reached w → spaced (restarts w) ∧ (wanted w = None → restarts w = []).
Proof. intros Hr. destruct (reached_ok w Hr). auto. Qed.

Lemma plays_ready t last d h dec : sound t last d h → plays h d = Some dec →
  is_ready d (audio_stream h) = true ∧ audio_decoder h = Some dec.
Proof.
  intros [(Hs & _)|((i & Hi) & _)]; unfold plays; [by rewrite Hs|].
  rewrite (opened_stream _ _ _ _ _ Hi), (opened_status _ _ _ _ _ Hi). by destruct (is_ready d (Some i)).
Qed.
Lemma ready_plays t last d h : sound t last d h → is_ready d (audio_stream h) = true → plays h d = audio_decoder h.
Proof.
  intros [(Hs & _)|((i & Hi) & _)] Hr; [by rewrite Hs in Hr|]. unfold plays.
  rewrite (opened_status _ _ _ _ _ Hi), <- (opened_stream _ _ _ _ _ Hi), Hr, (opened_stream _ _ _ _ _ Hi). done.
Qed.

(** A stream is replaced without a silence. While the stream that plays has
    reported no failure, a turn of the recovery leaves one that plays with the same
    decoder, and so does a new format of the same rate and channels, with the decoder
    made for it, however the start of its stream goes; no restart is tried. *)
Theorem sound_goes_on w dec : reached w →
  plays (handler w) (dev w) = Some dec → quiet (dev w) (audio_stream (handler w)) →
  (∀ wait current r a again, timely (Turn wait None current r a again) →
     let w' := happen w (Turn wait None current r a again) in
     plays (handler w') (dev w') = Some dec ∧ restarts w' = restarts w)
  ∧ (∀ wait f current r a again, timely (Turn wait (Some (MediaAudioFormat f)) current r a again) → takes f a →
       format_rate f = (sample_rate (handler w)).1 → format_channels f = channels (handler w) →
       let w' := happen w (Turn wait (Some (MediaAudioFormat f)) current r a again) in
       plays (handler w') (dev w') = Some (decoders (dev w)) ∧ restarts w' = restarts w).
Proof.
  intros Hreach Hpl Hq. pose proof (reached_ok w Hreach) as Hok. pose proof (spaced_next w Hok) as Hsp.
  destruct (plays_ready _ _ _ _ _ (ok_sound w Hok) Hpl) as [Hrd Hdec]. split.
  - intros wait current r a again Ht w'. destruct (happen_ok w (Turn wait None current r a again) Ht Hok) as [[Hs' _ _ _] _].
    fold w' in Hs'. destruct Ht as (Hw & Htr & _ & _).
    pose proof (recover_spec (clock w) (last_end w) (RECOVERY_INTERVAL + wait + clock w) r (dev w) (handler w) (ok_sound w Hok)
      ltac:(unfold RECOVERY_INTERVAL; lia) Htr) as Hrec.
    unfold w' in *. cbn [happen receive_with_recovery] in *. unfold recover in *. cbn -[recover_playback_with RECOVERY_INTERVAL] in *.
    destruct (recover_playback_with _ _ _ _) as [[h d] tried]. destruct Hrec as (_ & Hg & _ & Hres).
    destruct (Hg Hq Hrd) as (Hr' & Hd' & _ & _). destruct tried; [by destruct Hres as (_ & _ & _ & Hbad & _); destruct Hbad|].
    split; [|done]. rewrite <- Hdec, <- Hd'. by eapply ready_plays.
  - intros wait f current r a again Ht Htk Hrate Hch w'.
    destruct (happen_ok w (Turn wait (Some (MediaAudioFormat f)) current r a again) Ht Hok) as [[Hs' _ _ _] _].
    fold w' in Hs'. destruct Ht as (Hw & _ & Ha & Hg).
    pose proof (handle_format_spec (wait + clock w) (last_end w) f a again (dev w) (handler w)
      (sound_later (clock w) (wait + clock w) _ _ _ _ ltac:(lia) (reflexivity _) (ok_sound w Hok)) ltac:(eapply (spaced_later _ (clock w + RECOVERY_INTERVAL)); [lia|exact Hsp]) Ha Hg) as Hres.
    unfold w' in *. cbn [happen receive_with_recovery handle_media] in *. unfold take_format in *. cbn -[handle_format] in *.
    destruct (handle_format _ _ _ _ _ _) as [[h d] tried]. destruct Hres as (_ & _ & _ & _ & Hrep).
    destruct (Hrep Htk Hq Hrd (eq_sym Hrate) (eq_sym Hch)) as (-> & Hr' & Hd' & _ & _).
    split; [|done]. rewrite <- Hd'. by eapply ready_plays.
Qed.

(** ** Histories worked out *)
Lemma reached_run now current es : Forall timely es → reached (foldl happen (thread_new now current) es).
Proof.
  intros He. assert (reached (thread_new now current)) as Hr by (apply reach_init; by exists now, current).
  revert Hr. generalize (thread_new now current) as w. induction He as [|e es He _ IH]; intros w Hr; cbn; [done|].
  apply IH. apply reach_step with w; [done|]. by exists e.
Qed.

Definition stereo : AudioFormat := mk_format 48000 2.
Definition no_device : answer := mk_answer None true true true true (mk_stream [] false) 20 true.
Definition good_device : answer := mk_answer (Some (44100, 2)) true true true true (mk_stream [] false) 20 true.
Definition turn (wait : Z) (m : option MediaData) (a : answer) : event := Turn wait m [] a a a.
(** A format comes while there is no device. *)
Definition without_device : list event := [turn 0 (Some (MediaAudioFormat stereo)) no_device].
(** A stream is opened and calls back. *)
Definition with_sound : list event := [turn 0 (Some (MediaAudioFormat stereo)) good_device; CalledBack 0].

Definition time_outs : list event := replicate 5 (turn 0 None good_device).
Lemma sound_comes_back_witness :
  let w := foldl happen (thread_new 0 []) without_device in
  reached w ∧ audio_stream (handler w) = None ∧ ∃ es1 es2, time_outs = es1 ++ es2 ∧ back w (foldl happen w es1).
Proof.
  assert (reached (foldl happen (thread_new 0 []) without_device)) as Hr
    by (apply reached_run; repeat constructor; cbn; lia).
  split_and!; [exact Hr|reflexivity|].
  destruct (sound_comes_back (foldl happen (thread_new 0 []) without_device) Hr) as (_ & _ & H).
  apply H.
  - by eexists.
  - repeat constructor; cbn; lia.
  - apply Forall_replicate. split; [done|]. split_and!; [by eexists|done..].
  - cbn. lia.
Defined.

(** The device is gone for two seconds, and comes back. *)
Definition device_gone : list event :=
  with_sound ++ [Reported 0 true; turn 500 None no_device; turn 0 None no_device; turn 0 None no_device; turn 0 None good_device].
Lemma restarts_spaced_witness :
  let w := foldl happen (thread_new 0 []) device_gone in
  restarts w = [(4580, 4600); (3560, 3580); (2540, 2560); (1520, 1540)] ∧ spaced (restarts w).
Proof.
  split; [vm_compute; reflexivity|].
  exact (proj1 (restarts_spaced (foldl happen (thread_new 0 []) device_gone)
    ltac:(apply reached_run; repeat constructor; cbn; lia))).
Defined.

Lemma sound_goes_on_witness :
  let w := foldl happen (thread_new 0 []) with_sound in
  let w' := happen w (turn 1000 (Some (MediaAudioFormat stereo)) good_device) in
  plays (handler w) (dev w) = Some 0%nat ∧ plays (handler w') (dev w') = Some 1%nat.
Proof.
  split; [vm_compute; reflexivity|].
  destruct (sound_goes_on (foldl happen (thread_new 0 []) with_sound) 0
    ltac:(apply reached_run; repeat constructor; cbn; lia) eq_refl eq_refl) as [_ H].
  destruct (H 1000 stereo [] good_device good_device good_device) as [Hp _].
  - cbn. lia.
  - by split.
  - reflexivity.
  - reflexivity.
  - exact Hp.
Defined.

(** The replacement plays from its first callback on, and the old stream until then. *)
Example replacement_takes_over :
  let w := foldl happen (thread_new 0 []) (with_sound ++ [turn 1000 (Some (MediaAudioFormat stereo)) good_device]) in
  let w' := foldl happen w [CalledBack 1; turn 10 (Some MediaAudioFrame) good_device] in
  (audio_stream (handler w), plays (handler w) (dev w)) = (Some 0%nat, Some 1%nat)
  ∧ (audio_stream (handler w'), plays (handler w') (dev w')) = (Some 1%nat, Some 1%nat).
Proof. by vm_compute. Qed.

(** A stream that does not call back is given up after five seconds. *)
Example start_times_out :
  let w := foldl happen (thread_new 0 []) ([turn 0 (Some (MediaAudioFormat stereo)) good_device; turn 999 None good_device] ++ replicate 3 (turn 0 None good_device)) in
  let w' := happen w (turn 0 None good_device) in
  (audio_stream (handler w), restarts w) = (Some 0%nat, []) ∧ (audio_stream (handler w'), restarts w') = (Some 1%nat, [(6019, 6039)]).
Proof. by vm_compute. Qed.

(** The interval counts from what was started for the stream that is kept: when the
    start for a new format fails and then the kept stream fails too, the
    device is opened again at once. *)
Example failed_replacement_not_held_back :
  let w := foldl happen (thread_new 0 []) (with_sound
    ++ replicate 4 (turn 0 None good_device)
    ++ [turn 900 (Some (MediaAudioFormat stereo)) no_device; Reported 0 true; turn 0 (Some MediaAudioFrame) good_device]) in
  restarts w = [(4940, 4960)].
Proof. by vm_compute. Qed.
