(* ===== verification/AudioCapture.v ===== *)
(** * Sound: the capturing side

    [src/src/server/audio_service.rs] with [audio_capture.rs],
    [audio_capture_error.rs], [audio_capture_queue.rs] and
    [audio_capture_encoder.rs] beside it: from the blocks the device calls back with
    to the packets the service sends. The callback hands packets to the thread that
    encodes them through a pool of buffers ([CapturePcmHandoff]); the two
    interleave freely. *)
From Stdlib Require Import SpecFloat.
From S2P Require Import Prelude F32 Resampler.
Local Open Scope Z_scope.

(** ** Frames and layouts *)
Definition AUDIO_PACKETS_PER_SECOND : Z := 100.
Definition STEREO_CHANNELS : Z := 2.

Record CaptureFrameBuffer := mk_frame_buffer { samples : list f32; filled : nat }.
#[export] Instance frame_buffer_eta : Eta CaptureFrameBuffer := λ r, mk_frame_buffer (samples r) (filled r).
Definition frame_buffer_new (n : nat) : option CaptureFrameBuffer :=
  if bool_decide (n = 0)%nat then None else Some (mk_frame_buffer (replicate n (f32_of_Z 0)) 0).
(** [process]: the frames given to [on_frame], in their order. *)
Fixpoint frame_process (input : list f32) (b : CaptureFrameBuffer) : CaptureFrameBuffer * list (list f32) :=
  match input with
  | [] => (b, [])
  | sample :: input =>
      let b := b <| samples ::= <[filled b := sample]> |> <| filled ::= S |> in
      if bool_decide (filled b = length (samples b)) then
        let b := b <| filled := 0%nat |> in
        let '(b', frames) := frame_process input b in (b', samples b :: frames)
      else frame_process input b
  end.

Definition capture_packet_layout (sample_rate channels : Z) : option (Z * Z) :=
  if (sample_rate <? AUDIO_PACKETS_PER_SECOND) || (channels =? 0) then None
  else
    let frames := sample_rate / AUDIO_PACKETS_PER_SECOND in
    if frames * channels <=? Int.usize_max then Some (frames, frames * channels) else None.
(** The rate of the encoder for a device's, in [play]. *)
Definition encode_rate (sample_rate_0 : Z) : Z :=
  if sample_rate_0 <? 12000 then 8000
  else if sample_rate_0 <? 16000 then 12000
  else if sample_rate_0 <? 24000 then 16000
  else if sample_rate_0 <? 48000 then 24000
  else 48000.
Definition encode_channels (device_channels : Z) : Z := if 1 <? device_channels then 2 else 1.

(** [CaptureErrorHandler]: the flag of a stream. *)
Inductive StreamError := StreamInterrupted | DeviceNotAvailable | BackendSpecific.
Definition handle_error (e : StreamError) (interrupted : bool) : bool :=
  match e with StreamInterrupted | DeviceNotAvailable => true | BackendSpecific => interrupted end.

(** ** The handoff *)
Record CapturePcmLoss := mk_loss { dropped : Z; contention_dropped : Z; oversized : Z; recycle_failures : Z }.
Definition loss_default : CapturePcmLoss := mk_loss 0 0 0 0.
Definition loss_is_empty (l : CapturePcmLoss) : bool := (dropped l =? 0) && (oversized l =? 0) && (recycle_failures l =? 0).
Definition loss_add (a b : CapturePcmLoss) : CapturePcmLoss :=
  mk_loss (dropped a + dropped b) (contention_dropped a + contention_dropped b) (oversized a + oversized b)
    (recycle_failures a + recycle_failures b).
Record CapturePcmStats := mk_stats { loss : CapturePcmLoss; max_queued_packets : Z }.
Definition stats_default : CapturePcmStats := mk_stats loss_default 0.
Definition stats_is_empty (s : CapturePcmStats) : bool := loss_is_empty (loss s) && (max_queued_packets s =? 0).
Definition stats_add (a b : CapturePcmStats) : CapturePcmStats :=
  mk_stats (loss_add (loss a) (loss b)) (Z.max (max_queued_packets a) (max_queued_packets b)).

(** The counters are of 64 bits and are emptied every time a packet is taken; they
    do not wrap. A buffer is its contents; the pool keeps [capacity] of them. *)
Record CapturePcmHandoff := mk_handoff {
  available : list (list f32);
  ready : list (Z * list f32);
  wake_thread : bool;
  h_other_dropped : Z;
  h_contention_dropped : Z;
  h_oversized : Z;
  h_recycle_failures : Z;
  h_max_queued_packets : Z;
  capacity : nat;
  max_samples : Z
}.
#[export] Instance handoff_eta : Eta CapturePcmHandoff := λ r,
  mk_handoff (available r) (ready r) (wake_thread r) (h_other_dropped r) (h_contention_dropped r) (h_oversized r)
    (h_recycle_failures r) (h_max_queued_packets r) (capacity r) (max_samples r).
Definition new_pcm_handoff (cap : nat) (max : Z) : option CapturePcmHandoff :=
  if bool_decide (cap = 0)%nat || (max =? 0) then None
  else Some (mk_handoff (replicate cap []) [] false 0 0 0 0 0 cap max).

Definition take_buffer (h : CapturePcmHandoff) : CapturePcmHandoff * option (list f32) :=
  match last (available h) with
  | Some buffer => (h <| available ::= λ l, take (length l - 1) l |>, Some buffer)
  | None =>
      match ready h with
      | (_, buffer) :: ready' => (h <| ready := ready' |> <| h_other_dropped ::= λ n, n + 1 |>, Some buffer)
      | [] => (h, None)
      end
  end.
(** [submit] up to the call of [wake], which ends every branch of it. [locked]: the
    other thread holds the lock at this moment. No thread panics with it held. *)
Definition submit (sequence : Z) (locked : bool) (input : list f32) (h : CapturePcmHandoff) : CapturePcmHandoff :=
  if max_samples h <? Z.of_nat (length input) then h <| h_oversized ::= λ n, n + 1 |>
  else if locked then h <| h_contention_dropped ::= λ n, n + 1 |>
  else
    let '(h, buffer) := take_buffer h in
    match buffer with
    | Some _ =>
        let h := h <| ready ::= λ l, l ++ [(sequence, input)] |> in
        h <| h_max_queued_packets ::= λ n, Z.max n (Z.of_nat (length (ready h))) |>
    | None => h <| h_other_dropped ::= λ n, n + 1 |>
    end.
Definition pop_packet (h : CapturePcmHandoff) : CapturePcmHandoff * option (Z * list f32) :=
  match ready h with
  | p :: ready' => (h <| ready := ready' |>, Some p)
  | [] => (h, None)
  end.
Definition recycle (buffer : list f32) (h : CapturePcmHandoff) : CapturePcmHandoff :=
  if bool_decide (length (available h) = capacity h) then h <| h_recycle_failures ::= λ n, n + 1 |>
  else h <| available ::= λ l, l ++ [[]] |>.
Definition is_empty (h : CapturePcmHandoff) : bool := bool_decide (ready h = []).
Definition take_loss (h : CapturePcmHandoff) : CapturePcmHandoff * CapturePcmLoss :=
  (h <| h_contention_dropped := 0 |> <| h_other_dropped := 0 |> <| h_oversized := 0 |> <| h_recycle_failures := 0 |>,
   mk_loss (h_other_dropped h + h_contention_dropped h) (h_contention_dropped h) (h_oversized h) (h_recycle_failures h)).
Definition take_stats (h : CapturePcmHandoff) : CapturePcmHandoff * CapturePcmStats :=
  let '(h', l) := take_loss h in (h' <| h_max_queued_packets := 0 |>, mk_stats l (h_max_queued_packets h)).

(** ** Joining what is left of a loss *)
Definition CAPTURE_DECLICK_MS : Z := 5.
Record CaptureEncoderState := mk_encoder_state {
  channels : nat;
  expected_sequence : Z;
  fade_frames : nat;
  last_frame : list f32;
  pending : CapturePcmStats
}.
#[export] Instance encoder_state_eta : Eta CaptureEncoderState := λ r,
  mk_encoder_state (channels r) (expected_sequence r) (fade_frames r) (last_frame r) (pending r).
Definition encoder_state_new (sample_rate : Z) (ch : nat) : CaptureEncoderState :=
  mk_encoder_state ch 0 (Z.to_nat (sample_rate * CAPTURE_DECLICK_MS / 1000)) (replicate 2 (f32_of_Z 0)) stats_default.

(** Between the last frame and one of the packet, [weight] of the latter. *)
Definition crossfade (weight last sample : f32) : f32 := fadd (fmul last (fsub (f32_of_Z 1) weight)) (fmul sample weight).
Definition fade_weight (s : CaptureEncoderState) (index : nat) : f32 :=
  fdiv (f32_of_Z (Z.of_nat index + 1)) (f32_of_Z (Z.of_nat (fade_frames s))).
Fixpoint fade (s : CaptureEncoderState) (fuel index : nat) (packet : list f32) : list f32 :=
  match fuel with
  | O => packet
  | S fuel =>
      if (length packet <? channels s)%nat then packet
      else zip_with (crossfade (fade_weight s index)) (last_frame s) (take (channels s) packet)
           ++ fade s fuel (S index) (drop (channels s) packet)
  end.
(** The last whole frame of a packet. *)
Definition last_whole (ch : nat) (packet : list f32) : option (list f32) :=
  let whole := (length packet / ch * ch)%nat in
  if (whole =? 0)%nat then None else Some (take ch (drop (whole - ch) packet)).
Definition smooth_packet (sequence : Z) (packet : list f32) (s : CaptureEncoderState) : CaptureEncoderState * list f32 :=
  let packet := if negb (sequence =? expected_sequence s) then fade s (fade_frames s) 0 packet else packet in
  let s := s <| expected_sequence := Int.wrap_u64 (sequence + 1) |> in
  (match last_whole (channels s) packet with
   | Some frame => s <| last_frame ::= λ l, frame ++ drop (channels s) l |>
   | None => s
   end, packet).

Arguments smooth_packet : simpl never.
(** [next_packet] without its report: it adds the counts up, then takes a packet. *)
Definition add_stats (h : CapturePcmHandoff) (s : CaptureEncoderState) : CapturePcmHandoff * CaptureEncoderState :=
  let '(h, stats) := take_stats h in (h, s <| pending ::= λ p, stats_add p stats |>).
Definition take_packet (h : CapturePcmHandoff) (s : CaptureEncoderState)
  : CapturePcmHandoff * CaptureEncoderState * option (list f32) :=
  match pop_packet h with
  | (h, None) => (h, s, None)
  | (h, Some (sequence, packet)) => let '(s, packet) := smooth_packet sequence packet s in (h, s, Some packet)
  end.
Definition next_packet (h : CapturePcmHandoff) (s : CaptureEncoderState)
  : CapturePcmHandoff * CaptureEncoderState * option (list f32) :=
  let '(h, s) := add_stats h s in take_packet h s.

(** ** The gate on silence *)
Definition MAX_AUDIO_ZERO_COUNT : Z := 800.
Definition nonzero (x : f32) : bool := negb (SFeqb x (f32_of_Z 0)).
Definition should_encode (data : list f32) (zero_count : Z) : Z * bool :=
  if existsb nonzero data then (0, true)
  else if MAX_AUDIO_ZERO_COUNT <? zero_count then
    (if zero_count =? MAX_AUDIO_ZERO_COUNT + 1 then zero_count + 1 else zero_count, false)
  else (zero_count + 1, true).
(** [send_f32]: what is sent, if anything. [encode] is the encoder's. *)
Definition send_f32 {M} (muted : bool) (encode : list f32 → option M) (data : list f32) (zero_count : Z) : Z * option M :=
  if muted then (zero_count, None)
  else match should_encode data zero_count with
       | (zero_count, false) => (zero_count, None)
       | (zero_count, true) => (zero_count, encode data)
       end.

(** ** The callback of the device *)
Record CaptureFrameProcessorConfig := mk_processor_config {
  p_input_rate : Z; p_output_rate : Z; device_channel : Z; encode_channel : Z }.
Record CaptureFrameProcessor := mk_processor { pconfig : CaptureFrameProcessorConfig; presampler : option FixedFrameAudioResampler }.
#[export] Instance processor_eta : Eta CaptureFrameProcessor := λ r, mk_processor (pconfig r) (presampler r).
Definition processor_new (c : CaptureFrameProcessorConfig) : option CaptureFrameProcessor :=
  match (if p_input_rate c =? p_output_rate c then Some None
         else match fixed_new (mk_config (p_input_rate c) (p_output_rate c) (device_channel c))
                      (p_output_rate c / AUDIO_PACKETS_PER_SECOND) with
              | Ok r => Some (Some r)
              | Err _ => None
              end) with
  | None => None
  | Some r =>
      match capture_packet_layout (p_output_rate c) (encode_channel c) with
      | Some _ => Some (mk_processor c r)
      | None => None
      end
  end.

Section callback.
(** The conversion of a frame to two channels is the [fon] crate's. *)
Context (to_stereo : list f32 → list f32).
Definition rechannel (input : list f32) (ch : Z) : list f32 :=
  let n := Z.to_nat ch in
  let input := if STEREO_CHANNELS <? ch then take (length input / n * n) input else input in
  if (3 <=? ch) && (ch <=? 8) then concat (to_stereo <$> chunks_exact (length input) n input) else input.
(** [CaptureFrameProcessor::process]: the packets it submits. A frame that cannot be
    resampled gives none; [None] is a panic. *)
Definition process (data : list f32) (p : CaptureFrameProcessor) : option (CaptureFrameProcessor * option (list (list f32))) :=
  let send packet := rechannel packet (device_channel (pconfig p)) in
  match presampler p with
  | Some r =>
      match process_with r data with
      | None => None
      | Some (Err _) => Some (p, None)
      | Some (Ok (r, packets)) => Some (p <| presampler := Some r |>, Some (send <$> packets))
      end
  | None => Some (p, Some [send data])
  end.

(** A stream: its frame buffer, processor and flag. *)
Record stream := mk_stream { frame : CaptureFrameBuffer; processor : CaptureFrameProcessor; interrupted : bool }.
#[export] Instance stream_eta : Eta stream := λ r, mk_stream (frame r) (processor r) (interrupted r).
(** [process_frame] around [process]. *)
Definition process_frame (data : list f32) (s : stream) : option (stream * list (list f32)) :=
  if interrupted s then Some (s, [])
  else match process data (processor s) with
       | None => None
       | Some (p, Some packets) => Some (s <| processor := p |>, packets)
       | Some (p, None) => Some (s <| processor := p |> <| interrupted := true |>, [])
       end.
Fixpoint process_frames (frames : list (list f32)) (s : stream) : option (stream * list (list f32)) :=
  match frames with
  | [] => Some (s, [])
  | data :: frames =>
      match process_frame data s with
      | None => None
      | Some (s, packets) =>
          match process_frames frames s with None => None | Some (s, rest) => Some (s, packets ++ rest) end
      end
  end.
(** The callback with a block of converted samples. *)
Definition on_data (block : list f32) (s : stream) : option (stream * list (list f32)) :=
  if interrupted s then Some (s, [])
  else let '(b, frames) := frame_process block (frame s) in process_frames frames (s <| frame := b |>).
Fixpoint on_blocks (blocks : list (list f32)) (s : stream) : option (stream * list (list f32)) :=
  match blocks with
  | [] => Some (s, [])
  | block :: blocks =>
      match on_data block s with
      | None => None
      | Some (s, packets) => match on_blocks blocks s with None => None | Some (s, rest) => Some (s, packets ++ rest) end
      end
  end.
(** [build_input_stream] as [play] calls it for a device of a rate and channels; with
    the bound its handoff is made with. *)
Definition play_stream (sample_rate_0 config_channels : Z) : option (stream * Z) :=
  let sample_rate := encode_rate sample_rate_0 in
  let ch := encode_channels config_channels in
  match capture_packet_layout sample_rate (Z.max config_channels ch), capture_packet_layout sample_rate_0 config_channels with
  | Some (_, max_packet_samples), Some (_, capture_frame_samples) =>
      match frame_buffer_new (Z.to_nat capture_frame_samples),
            processor_new (mk_processor_config sample_rate_0 sample_rate config_channels ch) with
      | Some b, Some p => Some (mk_stream b p false, max_packet_samples)
      | _, _ => None
      end
  | _, _ => None
  end.
End callback.

(** ** Callback and worker together *)
(** The worker of [run_capture_encoder]: before the counts of [next_packet], before its
    packet, with a packet taken, before each half of the test for the end, before its
    wait, in it, and returned. *)
Inductive worker_pc := WCount | WPop | WEncode (packet : list f32) | WStop | WEmpty | WPark | WParked | WDone.
(** Beside the state of the code: what was submitted, with its number; what was taken;
    and what was encoded. *)
Record capture := mk_capture {
  handoff : CapturePcmHandoff;
  sequence : Z;
  waking : bool;
  worker : worker_pc;
  enc : CaptureEncoderState;
  token : bool;
  stop : bool;
  stop_waking : bool;
  submitted : list (Z * list f32);
  taken : list (Z * list f32);
  encoded : list (list f32)
}.
#[export] Instance capture_eta : Eta capture := λ r,
  mk_capture (handoff r) (sequence r) (waking r) (worker r) (enc r) (token r) (stop r) (stop_waking r) (submitted r) (taken r)
    (encoded r).

(** What may happen: the callback submits a packet, finding the lock free or not; it
    wakes the worker; the worker makes a step; its wait times out; the owner drops
    the worker, and wakes it. *)
Inductive event := Submit (locked : bool) (input : list f32) | Wake | Work | Timeout | Stop | StopWake.
(** A step of [run_capture_encoder]: each is one access to what the threads share, so
    that a submission may fall between any two. The canceller of echo is left out. *)
Definition work (s : capture) : capture :=
  match worker s with
  | WCount => let '(h, e) := add_stats (handoff s) (enc s) in s <| handoff := h |> <| enc := e |> <| worker := WPop |>
  | WPop =>
      let taken' := match ready (handoff s) with p :: _ => taken s ++ [p] | [] => taken s end in
      match take_packet (handoff s) (enc s) with
      | (h, e, Some packet) => s <| handoff := h |> <| enc := e |> <| worker := WEncode packet |> <| taken := taken' |>
      | (h, e, None) => s <| handoff := h |> <| enc := e |> <| worker := WStop |> <| taken := taken' |>
      end
  | WEncode packet =>
      s <| encoded ::= λ l, l ++ [packet] |> <| handoff ::= recycle packet |> <| worker := WCount |>
  | WStop => if stop s then s <| worker := WEmpty |> else s <| worker := WPark |>
  | WEmpty =>
      if is_empty (handoff s) then
        let '(h, e) := add_stats (handoff s) (enc s) in s <| handoff := h |> <| enc := e |> <| worker := WDone |>
      else s <| worker := WPark |>
  | WPark => if token s then s <| token := false |> <| worker := WCount |> else s <| worker := WParked |>
  | WParked => if token s then s <| token := false |> <| worker := WCount |> else s
  | WDone => s
  end.
Definition cstep (ev : event) (s : capture) : capture :=
  match ev with
  | Submit locked input =>
      if waking s then s
      else s <| handoff ::= submit (sequence s) locked input |> <| submitted ::= λ l, l ++ [(sequence s, input)] |>
             <| sequence := Int.wrap_u64 (sequence s + 1) |> <| waking := true |>
  | Wake => if waking s then s <| waking := false |> <| token ::= λ t, t || wake_thread (handoff s) |> else s
  | Work => work s
  | Timeout => match worker s with WParked => s <| worker := WCount |> | _ => s end
  | Stop => if stop s then s else s <| stop := true |> <| stop_waking := true |>
  | StopWake => if stop_waking s then s <| stop_waking := false |> <| token := true |> else s
  end.
(** [start_capture_encoder]: the worker runs before it is made known as the one to wake,
    and the sender is handed out after. *)
Definition CAPTURE_PCM_QUEUE_PACKETS : nat := 10.
Definition start_capture_encoder (cap : nat) (max rate : Z) (ch : nat) : option capture :=
  match new_pcm_handoff cap max with
  | None => None
  | Some h => Some (mk_capture (h <| wake_thread := true |>) 0 false WCount (encoder_state_new rate ch) false false false [] [] [])
  end.
Definition crun (evs : list event) (s : capture) : capture := foldl (λ s ev, cstep ev s) s evs.

(** ** No packet is lost uncounted *)
Definition held (s : capture) : nat := match worker s with WEncode _ => 1 | _ => 0 end.
(** All the losses so far, reported or not. *)
Definition lost (s : capture) : Z :=
  h_other_dropped (handoff s) + h_contention_dropped (handoff s) + h_oversized (handoff s)
  + dropped (loss (pending (enc s))) + oversized (loss (pending (enc s))).
Record accounted (cap : nat) (max : Z) (s : capture) : Prop := {
  acc_layout : capacity (handoff s) = cap ∧ max_samples (handoff s) = max ∧ wake_thread (handoff s) = true;
  acc_buffers : (length (available (handoff s)) + length (ready (handoff s)) + held s = cap)%nat;
  acc_order : (taken s ++ ready (handoff s)) `sublist_of` submitted s;
  acc_lost : Z.of_nat (length (submitted s)) = Z.of_nat (length (taken s)) + Z.of_nat (length (ready (handoff s))) + lost s;
  acc_recycled : h_recycle_failures (handoff s) = 0 ∧ recycle_failures (loss (pending (enc s))) = 0;
  acc_peak : h_max_queued_packets (handoff s) ≤ Z.of_nat cap ∧ max_queued_packets (pending (enc s)) ≤ Z.of_nat cap;
  acc_small : Forall (λ p, Z.of_nat (length p.2) ≤ max) (ready (handoff s))
}.

(** What a submission does to the handoff. *)
Lemma submit_cases seq locked input h :
  let h' := submit seq locked input h in
  capacity h' = capacity h ∧ max_samples h' = max_samples h ∧ wake_thread h' = wake_thread h
  ∧ h_recycle_failures h' = h_recycle_failures h
  ∧ (length (available h') + length (ready h') = length (available h) + length (ready h))%nat
  ∧ ((ready h' = ready h ∧ h_max_queued_packets h' = h_max_queued_packets h
      ∧ h_other_dropped h' + h_contention_dropped h' + h_oversized h' = h_other_dropped h + h_contention_dropped h + h_oversized h + 1)
     ∨ (Z.of_nat (length input) ≤ max_samples h
        ∧ h_max_queued_packets h' = Z.max (h_max_queued_packets h) (Z.of_nat (length (ready h')))
        ∧ h_contention_dropped h' = h_contention_dropped h ∧ h_oversized h' = h_oversized h
        ∧ ((ready h' = ready h ++ [(seq, input)] ∧ h_other_dropped h' = h_other_dropped h)
           ∨ ∃ p r, ready h = p :: r ∧ ready h' = r ++ [(seq, input)] ∧ h_other_dropped h' = h_other_dropped h + 1))).
Proof.
  unfold submit. destruct (Z.ltb_spec (max_samples h) (Z.of_nat (length input))).
  { destruct h; cbn. split_and!; try done. left. split_and!; lia || done. }
  destruct locked; [destruct h; cbn; split_and!; try done; left; split_and!; lia || done|].
  unfold take_buffer. destruct (last (available h)) as [buffer|] eqn:Ha.
  - apply last_Some in Ha as [l Ha]. destruct h; cbn in *. subst. split_and!; try done.
    + rewrite length_take, !length_app. cbn. lia.
    + right. split_and!; try done. by left.
  - apply last_None in Ha. destruct (ready h) as [|[q b] r] eqn:Hr; destruct h; cbn in *; subst; split_and!; try done.
    + left. split_and!; lia || done.
    + rewrite length_app. cbn. lia.
    + right. split_and!; try done. right. by exists (q, b), r.
Qed.
Lemma submit_accounted cap max s locked input : accounted cap max s → accounted cap max (cstep (Submit locked input) s).
Proof.
  intros Hs. cbn [cstep]. destruct (waking s); [done|]. destruct Hs as [(Hc & Hm & Hw) Hb Ho Hl Hr Hp Hsm].
  pose proof (submit_cases (sequence s) locked input (handoff s)) as (Ec & Em & Ew & Er & Elen & Hcase).
  split.
  - cbn. by rewrite Ec, Em, Ew.
  - cbn. unfold held in *. cbn. lia.
  - cbn. destruct Hcase as [(-> & _)|(_ & _ & _ & _ & [(-> & _)|(p & r & Heq & -> & _)])].
    + etrans; [exact Ho|]. by apply sublist_inserts_r.
    + rewrite app_assoc. by apply sublist_app.
    + rewrite app_assoc. apply sublist_app; [|done]. etrans; [|exact Ho]. rewrite Heq. apply sublist_app; [done|]. by apply sublist_cons.
  - unfold lost in *. cbn in *. rewrite length_app. cbn [length].
    destruct Hcase as [(-> & _ & Hsum)|(_ & _ & Hcd & Hov & [(-> & Hod)|(p & r & Heq & -> & Hod)])]; [lia|rewrite length_app; cbn; lia|].
    rewrite Heq in Hl. rewrite length_app. cbn in *. lia.
  - cbn. by rewrite Er.
  - cbn. destruct Hcase as [(_ & -> & _)|(_ & -> & _)]; [done|]. lia.
  - cbn. destruct Hcase as [(-> & _)|(Hsz & _ & _ & _ & [(-> & _)|(p & r & Heq & -> & _)])]; [done| |].
    + apply Forall_app. split; [done|]. repeat constructor. cbn. lia.
    + rewrite Heq in Hsm. apply Forall_cons in Hsm as [_ ?]. apply Forall_app. split; [done|]. repeat constructor. cbn. lia.
Qed.

(** Taking the counts; taking a packet. *)
Lemma smooth_pending q p e : pending (smooth_packet q p e).1 = pending e.
Proof. unfold smooth_packet. cbn. by destruct (last_whole _ _). Qed.
Lemma count_accounted cap max s pc :
  accounted cap max s → held s = 0%nat → (match pc with WEncode _ => False | _ => True end) →
  accounted cap max (let '(h, e) := add_stats (handoff s) (enc s) in s <| handoff := h |> <| enc := e |> <| worker := pc |>).
Proof.
  intros [(Hc & Hm & Hw) Hb Ho Hl (Hr1 & Hr2) (Hp1 & Hp2) Hsm] H0 Hpc. unfold lost in Hl. rewrite H0 in Hb.
  unfold add_stats, take_stats. cbn. destruct (pending (enc s)) as [[? ? ? ?] ?] eqn:He. cbn in *.
  split; unfold lost, held; cbn; rewrite ?He; cbn; try done.
  - by destruct pc.
  - lia.
  - lia.
  - lia.
Qed.
Lemma pop_accounted cap max s : worker s = WPop → accounted cap max s → accounted cap max (work s).
Proof.
  intros Hpc [(Hc & Hm & Hw) Hb Ho Hl (Hr1 & Hr2) (Hp1 & Hp2) Hsm]. unfold work. rewrite Hpc.
  unfold held in Hb. rewrite Hpc in Hb. unfold lost in Hl. unfold take_packet, pop_packet.
  destruct (ready (handoff s)) as [|[q p] rest] eqn:Hready.
  - split; unfold lost, held; cbn; rewrite ?Hready; cbn; try done.
  - destruct (smooth_packet q p (enc s)) as [e packet] eqn:Hsp.
    pose proof (smooth_pending q p (enc s)) as Hpe. rewrite Hsp in Hpe. cbn in Hpe.
    split; unfold lost, held; cbn; rewrite ?Hpe; cbn in *; try done.
    + lia.
    + by rewrite <- app_assoc.
    + rewrite length_app. cbn. lia.
    + by apply Forall_cons in Hsm as [_ ?].
Qed.
Lemma recycle_room packet h : (length (available h) < capacity h)%nat → recycle packet h = h <| available ::= λ l, l ++ [[]] |>.
Proof. intros. unfold recycle. by rewrite bool_decide_eq_false_2 by lia. Qed.
Lemma work_accounted cap max s : accounted cap max s → accounted cap max (work s).
Proof.
  intros Hs. destruct (worker s) as [| |packet| | | | |] eqn:Hpc; [| by apply pop_accounted|..]; unfold work; rewrite Hpc.
  - apply count_accounted; [done| |done]. unfold held. by rewrite Hpc.
  - pose proof Hs as [(Hc & Hm & Hw) Hb Ho Hl (Hr1 & Hr2) (Hp1 & Hp2) Hsm]. unfold held in Hb. rewrite Hpc in Hb.
    pose proof (recycle_room packet (handoff s) ltac:(lia)) as Hrec.
    split; unfold lost, held; cbn; rewrite ?Hrec; cbn; try done. rewrite length_app. cbn. lia.
  - destruct Hs as [? Hb ? ? ? ? ?]. unfold held in Hb. rewrite Hpc in Hb. by destruct (stop s); split; unfold held.
  - destruct (is_empty _).
    + apply count_accounted; [done| |done]. unfold held. by rewrite Hpc.
    + destruct Hs as [? Hb ? ? ? ? ?]. unfold held in Hb. rewrite Hpc in Hb. by split; unfold held.
  - destruct Hs as [? Hb ? ? ? ? ?]. unfold held in Hb. rewrite Hpc in Hb. by destruct (token s); split; unfold held.
  - destruct (token s); [|done]. destruct Hs as [? Hb ? ? ? ? ?]. unfold held in Hb. rewrite Hpc in Hb. by split; unfold held.
  - done.
Qed.
Lemma step_accounted cap max s ev : accounted cap max s → accounted cap max (cstep ev s).
Proof.
  intros Hs. destruct ev as [locked input| | | | |]; [by apply submit_accounted| |by apply work_accounted|..]; cbn [cstep]; repeat case_match; try done;
    pose proof Hs as [? Hb ? ? ? ? ?]; split; try done; unfold held in *; cbn; by repeat case_match.
Qed.
Lemma start_accounted cap max rate ch s : start_capture_encoder cap max rate ch = Some s → accounted cap max s.
Proof.
  unfold start_capture_encoder, new_pcm_handoff. destruct (_ || _); [done|]. intros [= <-]. split; cbn; try done.
  - rewrite length_replicate. unfold held. cbn. lia.
  - split; lia.
Qed.
Lemma run_accounted cap max evs s : accounted cap max s → accounted cap max (crun evs s).
Proof. unfold crun. revert s. induction evs as [|ev evs IH]; intros s Hs; [done|]. cbn. by apply IH, step_accounted. Qed.

(** A machine in use: where the encoder writes its packets, two worked runs. *)
Definition tone (n : nat) (z : Z) : list f32 := replicate n (f32_of_Z z).
(** Twelve packets and one too long for a worker that does not run until the end. *)
Definition sample_run : list event :=
  concat ((λ i, [Submit false (tone 2 i); Wake]) <$> [1; 2; 3; 4; 5; 6; 7; 8; 9; 10; 11; 12])
  ++ [Submit false (tone 9 13); Wake; Submit true (tone 2 14)] ++ replicate 40 Work.
Definition sample_capture : option capture := start_capture_encoder CAPTURE_PCM_QUEUE_PACKETS 8 48000 1.

(** C23: every packet the callback of the device submits is accounted for, however it
    interleaves with the thread that encodes, down to the steps of either. Those the
    thread took and those that wait are, in this order, some of those submitted, each
    once and whole; the others are counted as lost, once each. The buffers of the pool
    are all there: [cap] of them wait, are free or are being encoded, none fails to go
    back, and no queue longer than the pool is ever reported. *)
Theorem handoff_accounts cap max rate ch s0 evs
  (Hstart : start_capture_encoder cap max rate ch = Some s0) :
  let s := crun evs s0 in
  (taken s ++ ready (handoff s)) `sublist_of` submitted s
  ∧ Z.of_nat (length (submitted s)) = Z.of_nat (length (taken s)) + Z.of_nat (length (ready (handoff s))) + lost s
  ∧ (length (available (handoff s)) + length (ready (handoff s)) + held s = cap)%nat
  ∧ h_recycle_failures (handoff s) = 0 ∧ recycle_failures (loss (pending (enc s))) = 0
  ∧ max_queued_packets (pending (enc s)) ≤ Z.of_nat cap
  ∧ Forall (λ p, Z.of_nat (length p.2) ≤ max) (ready (handoff s)).
Proof. intros s. by destruct (run_accounted cap max evs s0 (start_accounted _ _ _ _ _ Hstart)) as [_ ? ? ? [? ?] [_ ?] ?]. Qed.
Lemma handoff_accounts_witness :
  ∃ s0, sample_capture = Some s0 ∧
    let s := crun sample_run s0 in
    (taken s ++ ready (handoff s)) `sublist_of` submitted s
    ∧ fst <$> taken s = [2; 3; 4; 5; 6; 7; 8; 9; 10; 11] ∧ length (submitted s) = 14%nat ∧ lost s = 4
    ∧ max_queued_packets (pending (enc s)) = 10.
Proof.
  eexists. split; [vm_compute; reflexivity|].
  pose proof (handoff_accounts CAPTURE_PCM_QUEUE_PACKETS 8 48000 1 _ sample_run eq_refl) as (H & _).
  split; [exact H|]. split_and!; vm_compute; reflexivity.
Defined.

(** ** No packet is slept on *)
Definition resting (pc : worker_pc) : bool := match pc with WStop | WEmpty | WPark | WParked => true | _ => false end.
Definition parking (pc : worker_pc) : bool := match pc with WPark | WParked => true | _ => false end.
(** A worker about to wait has nothing to do that it will not be woken for. *)
Record awake (s : capture) : Prop := {
  aw_known : wake_thread (handoff s) = true;
  aw_ready : resting (worker s) = true → ready (handoff s) ≠ [] → waking s || token s = true;
  aw_stop : parking (worker s) = true → stop s = true → stop_waking s || (token s || waking s) = true
}.
Lemma step_awake s ev : awake s → awake (cstep ev s).
Proof.
  intros [Hk Hr Hs]. destruct ev as [locked input| | | | |]; cbn [cstep].
  - destruct (waking s) eqn:Hw; [split; rewrite ?Hw; done|].
    pose proof (submit_cases (sequence s) locked input (handoff s)) as (_ & _ & Ew & _).
    split; cbn; [by rewrite Ew|done|]. intros _ _. by rewrite !orb_true_r.
  - destruct (waking s) eqn:Hw; [|split; rewrite ?Hw; done]. split; cbn; rewrite ?Hk, ?orb_true_r; done.
  - unfold work. destruct (worker s) as [| |packet| | | | |] eqn:Hpc; rewrite ?Hpc in *.
    + by split.
    + unfold take_packet, pop_packet. destruct (ready (handoff s)) as [|[q p] rest] eqn:Hready; [|destruct (smooth_packet _ _ _)]; by split.
    + split; cbn; [|done|done]. unfold recycle. by case_bool_decide.
    + destruct (stop s) eqn:Hst; split; cbn; try done; [by intros _; apply Hr..|by rewrite Hst].
    + destruct (is_empty (handoff s)) eqn:He; [by split|].
      apply bool_decide_eq_false in He. split; cbn; [done|by intros _; apply Hr|]. intros _ _.
      specialize (Hr eq_refl He). destruct (waking s), (token s); cbn in *; rewrite ?orb_true_r; done.
    + destruct (token s) eqn:Ht; [by split|]. split; cbn; rewrite ?Ht; [done|by intros _; apply Hr|]. intros _. by apply Hs.
    + destruct (token s) eqn:Ht; [by split|]. split; rewrite ?Hpc, ?Ht; done.
    + split; rewrite ?Hpc; done.
  - destruct (worker s) eqn:Hpc; split; rewrite ?Hpc; done.
  - destruct (stop s) eqn:Hst; [split; rewrite ?Hst; done|]. by split; cbn.
  - destruct (stop_waking s) eqn:Hst; [|split; rewrite ?Hst; done]. split; cbn; intros; by rewrite ?orb_true_r.
Qed.
Lemma run_awake cap max rate ch s0 evs : start_capture_encoder cap max rate ch = Some s0 → awake (crun evs s0).
Proof.
  unfold start_capture_encoder, new_pcm_handoff. destruct (_ || _); [done|]. intros [= <-].
  unfold crun. match goal with |- awake (foldl _ ?s _) => assert (awake s) as Hs; [|revert Hs; generalize s] end.
  { split; cbn; try done. }
  induction evs as [|ev evs IH]; intros s Hs; [done|]. cbn. by apply IH, step_awake.
Qed.

(** Steps of the worker alone. *)
Definition works (n : nat) (s : capture) : capture := crun (replicate n Work) s.
Lemma works_S n s : works (S n) s = works n (work s).
Proof. done. Qed.
Lemma works_add n m s : works (n + m) s = works m (works n s).
Proof. unfold works, crun. by rewrite replicate_add, foldl_app. Qed.
(** What steps of the worker that take no packet keep. *)
Definition same (s s' : capture) : Prop :=
  ready (handoff s') = ready (handoff s) ∧ taken s' = taken s ∧ stop s' = stop s.
Definition idle (s : capture) : Prop := ready (handoff s) = [] ∧ held s = 0%nat.
Lemma work_idle s : idle s → idle (work s) ∧ same s (work s).
Proof.
  intros [Hr Hh]. unfold held in Hh. unfold work.
  destruct (worker s) eqn:Hpc; unfold take_packet, pop_packet, add_stats, take_stats; rewrite ?Hr; try done.
  - by destruct (stop s) eqn:?; split; split_and!.
  - destruct (is_empty _); by split; split_and!.
  - by destruct (token s); split; split_and!.
  - destruct (token s); split; split_and!; try done; unfold held; by rewrite ?Hpc.
  - split; split_and!; try done; unfold held; by rewrite Hpc.
Qed.
Lemma works_idle n s : idle s → idle (works n s) ∧ same s (works n s).
Proof.
  revert s. induction n as [|n IH]; intros s Hs; [done|]. rewrite works_S.
  destruct (work_idle s Hs) as [Hi (E1 & E2 & E3)]. destruct (IH _ Hi) as [Hi' (F1 & F2 & F3)].
  split; [done|]. split_and!; congruence.
Qed.
Lemma works_done n s : worker s = WDone → works n s = s.
Proof. intros Hd. induction n as [|n IH]; [done|]. rewrite works_S. unfold work. by rewrite Hd. Qed.

Lemma works_awake n s : awake s → waking s = false → stop_waking s = false →
  awake (works n s) ∧ waking (works n s) = false ∧ stop_waking (works n s) = false.
Proof.
  revert s. induction n as [|n IH]; intros s Ha Hw Hs; [done|]. rewrite works_S. pose proof (step_awake s Work Ha) as Hstep.
  assert (waking (work s) = waking s ∧ stop_waking (work s) = stop_waking s) as [E1 E2].
  { unfold work. by repeat case_match. }
  apply IH; [done|congruence..].
Qed.
(** Steps left before the test for the end. *)
Definition to_drain (s : capture) : option nat :=
  match worker s with
  | WEncode _ => Some (3 * length (ready (handoff s)) + 3)%nat
  | WCount => Some (3 * length (ready (handoff s)) + 2)%nat
  | WPop => Some (3 * length (ready (handoff s)) + 1)%nat
  | _ => None
  end.
Lemma works_drain n s : to_drain s = Some n →
  let s' := works n s in
  worker s' = WStop ∧ ready (handoff s') = [] ∧ taken s' = taken s ++ ready (handoff s) ∧ stop s' = stop s.
Proof.
  revert s. induction n as [|n IH]; intros s Hn; cbv zeta; unfold to_drain in Hn.
  { destruct (worker s); try done; injection Hn; lia. }
  rewrite works_S. assert (taken (work s) ++ ready (handoff (work s)) = taken s ++ ready (handoff s) ∧ stop (work s) = stop s
    ∧ (to_drain (work s) = Some n ∨ (n = 0%nat ∧ worker (work s) = WStop ∧ ready (handoff (work s)) = []))) as (E1 & E2 & E3).
  { unfold work, to_drain. destruct (worker s) eqn:Hpc; try done; injection Hn as Hn.
    - unfold add_stats, take_stats. cbn. split_and!; try done. left. f_equal. lia.
    - unfold take_packet, pop_packet. destruct (ready (handoff s)) as [|[q p] rest] eqn:Hr.
      + cbn in *. rewrite Hr. split_and!; try done. right. split_and!; lia || done.
      + destruct (smooth_packet _ _ _). cbn in *. rewrite <- app_assoc. split_and!; try done. left. f_equal. lia.
    - cbn. unfold recycle. case_bool_decide; cbn; split_and!; try done; left; f_equal; lia. }
  destruct E3 as [E3|(-> & E3 & E4)].
  - destruct (IH _ E3) as (F1 & F2 & F3 & F4). rewrite F3, F4. done.
  - cbn. rewrite E4, app_nil_r in E1. done.
Qed.
(** A worker that rests comes back to the queue. *)
Lemma works_back s : awake s → waking s = false → resting (worker s) = true → ready (handoff s) ≠ [] →
  ∃ k, (k ≤ 3)%nat ∧ worker (works k s) = WCount ∧ same s (works k s).
Proof.
  intros [_ Hr _] Hw Hrest Hne. specialize (Hr Hrest Hne). rewrite Hw in Hr. cbn in Hr.
  assert (is_empty (handoff s) = false) as He by by apply bool_decide_eq_false.
  destruct (worker s) eqn:Hpc; try done;
    [destruct (stop s) eqn:Hst; [exists 3%nat|exists 2%nat]|exists 2%nat|exists 1%nat|exists 1%nat];
    cbn; unfold work; repeat (progress (rewrite ?Hpc, ?Hst, ?He, ?Hr; cbn)); (split; [lia|]); by split_and!.
Qed.
(** One that is to stop and has nothing to do returns. *)
Lemma works_stop s : awake s → waking s = false → stop_waking s = false → stop s = true → idle s → resting (worker s) = true →
  ∃ k, (k ≤ 5)%nat ∧ worker (works k s) = WDone.
Proof.
  intros [_ _ Hs] Hw Hsw Hst [Hr _] Hrest.
  assert (is_empty (handoff s) = true) as He by by apply bool_decide_eq_true.
  assert (∀ s, worker s = WStop → stop s = true → ready (handoff s) = [] → worker (works 2 s) = WDone) as Hend.
  { intros t H1 H2 H3. cbn. unfold work. rewrite H1, H2. cbn. unfold is_empty. by rewrite bool_decide_eq_true_2. }
  assert (∀ s, worker s = WCount → stop s = true → ready (handoff s) = [] → worker (works 4 s) = WDone) as Hend4.
  { intros t H1 H2 H3. change 4%nat with (2 + 2)%nat. rewrite works_add.
    destruct (works_drain 2 t) as (F1 & F2 & _ & F4); [unfold to_drain; by rewrite H1, H3|]. apply Hend; [done|congruence|done]. }
  destruct (worker s) eqn:Hpc; try done.
  - exists 2%nat. split; [lia|]. by apply Hend.
  - exists 1%nat. split; [lia|]. cbn. unfold work. by rewrite Hpc, He.
  - exists 5%nat. split; [lia|]. specialize (Hs eq_refl Hst). rewrite Hw, Hsw in Hs. cbn in Hs. rewrite orb_false_r in Hs.
    rewrite works_S. unfold work. rewrite Hpc, Hs. by apply Hend4.
  - exists 5%nat. split; [lia|]. specialize (Hs eq_refl Hst). rewrite Hw, Hsw in Hs. cbn in Hs. rewrite orb_false_r in Hs.
    rewrite works_S. unfold work. rewrite Hpc, Hs. by apply Hend4.
Qed.
(** C24: no packet is slept on, and a worker told to stop does. Whatever has happened to
    the two threads: if the worker waits and nobody is about to wake it, there is no
    packet to encode. And unless it has returned, when the callback submits nothing
    more (a packet submitted to a full queue would drop the oldest waiting), then as soon as
    the callback and the owner have sent the wake they may owe, every packet that waits is taken within [3] steps of
    the worker each and [12] more, in its order and without the timeout, and by then a
    worker that was told to stop has returned. *)
Theorem packets_reach_encoder cap max rate ch s0 evs
  (Hstart : start_capture_encoder cap max rate ch = Some s0) (Hrun : worker (crun evs s0) ≠ WDone) :
  let s := crun evs s0 in
  (worker s = WParked → token s = false → waking s = false → ready (handoff s) = [])
  ∧ let s' := crun ([Wake; StopWake] ++ replicate (3 * length (ready (handoff s)) + 12) Work) s in
    taken s' = taken s ++ ready (handoff s) ∧ ready (handoff s') = [] ∧ held s' = 0%nat
    ∧ (stop s = true → worker s' = WDone).
Proof.
  intros s. assert (awake s) as Ha by by eapply run_awake. split.
  { intros Hp Ht Hw. destruct (ready (handoff s)) eqn:Hr; [done|]. pose proof (aw_ready _ Ha) as H. rewrite Hp, Hr, Hw, Ht in H. exfalso. by assert (false = true) by by apply H. }
  change (worker s ≠ WDone) in Hrun. clearbody s. intros s'. set (s1 := crun [Wake; StopWake] s).
  assert (awake s1 ∧ waking s1 = false ∧ stop_waking s1 = false ∧ worker s1 = worker s ∧ same s s1) as (Ha1 & Hw & Hsw & Hpc & Hr1 & Ht1 & Hst1).
  { subst s1. split; [change (awake (cstep StopWake (cstep Wake s))); by do 2 apply step_awake|]. unfold same. cbn. destruct (waking s) eqn:Ew; cbn; destruct (stop_waking s) eqn:Es; cbn; by rewrite ?Ew, ?Es. }
  change s' with (works (3 * length (ready (handoff s)) + 12) s1). clear s'. rewrite <- Hr1, <- Ht1, <- Hst1. rewrite <- Hpc in Hrun.
  clearbody s1. clear s Ha Hr1 Ht1 Hst1 Hpc. rename s1 into s.
  assert (∃ k, (k ≤ 3 * length (ready (handoff s)) + 5)%nat ∧
    let s1 := works k s in idle s1 ∧ resting (worker s1) = true ∧ taken s1 = taken s ++ ready (handoff s) ∧ stop s1 = stop s)
    as (k & Hk & Hidle & Hrest & Htk & Hstk).
  { destruct (resting (worker s)) eqn:Hrs.
    - destruct (decide (ready (handoff s) = [])) as [He|Hne].
      + exists 0%nat. split; [lia|]. cbn. rewrite He, app_nil_r. split_and!; try done. split; [done|]. unfold held. by destruct (worker s).
      + destruct (works_back s Ha1 Hw Hrs Hne) as (k & Hk & Hc & Hr & Ht & Hst).
        exists (k + (3 * length (ready (handoff s)) + 2))%nat. split; [lia|]. rewrite works_add.
        destruct (works_drain (3 * length (ready (handoff s)) + 2) (works k s)) as (F1 & F2 & F3 & F4); [unfold to_drain; by rewrite Hc, Hr|].
        cbv zeta. unfold idle, held. rewrite F1, F2, F3, F4, Ht, Hr, Hst. done.
    - assert (∃ n, to_drain s = Some n ∧ (n ≤ 3 * length (ready (handoff s)) + 3)%nat) as (n & Hn & Hle).
      { unfold to_drain. destruct (worker s); try done; eexists; (split; [reflexivity|lia]). }
      exists n. split; [lia|]. destruct (works_drain n s Hn) as (F1 & F2 & F3 & F4). cbv zeta. unfold idle, held. by rewrite F1, F2, F3, F4. }
  assert (awake (works k s) ∧ waking (works k s) = false ∧ stop_waking (works k s) = false) as (Hak & Hwk & Hswk) by by apply works_awake.
  replace (3 * length (ready (handoff s)) + 12)%nat with (k + (3 * length (ready (handoff s)) + 12 - k))%nat by lia.
  rewrite works_add. set (m := (3 * length (ready (handoff s)) + 12 - k)%nat). assert (5 ≤ m)%nat as Hm by (subst m; lia).
  destruct (works_idle m _ Hidle) as [[Hri Hhi] (E1 & E2 & E3)]. split_and!; [congruence|done|done|].
  intros Hst. destruct (works_stop (works k s)) as (j & Hj & Hd); [done..|congruence|done|done|].
  replace m with (j + (m - j))%nat by lia. rewrite works_add. by rewrite (works_done _ _ Hd).
Qed.
Lemma packets_reach_encoder_witness :
  ∃ s0, sample_capture = Some s0 ∧
    let s := crun (replicate 9 Work ++ [Submit false (tone 2 1); Stop; Work]) s0 in
    worker s = WParked ∧ waking s = true ∧ token s = false ∧
    let s' := crun ([Wake; StopWake] ++ replicate 15 Work) s in
    taken s' = [(0, tone 2 1)] ∧ worker s' = WDone.
Proof.
  eexists. split; [vm_compute; reflexivity|].
  pose proof (packets_reach_encoder CAPTURE_PCM_QUEUE_PACKETS 8 48000 1 _
    (replicate 9 Work ++ [Submit false (tone 2 1); Stop; Work]) eq_refl ltac:(vm_compute; discriminate)) as (_ & H1 & _ & _ & H4).
  cbv zeta. split; [vm_compute; reflexivity|]. split; [vm_compute; reflexivity|]. split; [vm_compute; reflexivity|].
  split; [exact H1|apply H4; vm_compute; reflexivity].
Defined.

(** ** Joining: what reaches the encoder *)
Definition well_shaped (s : CaptureEncoderState) : Prop := (0 < channels s ≤ length (last_frame s))%nat.
Section fade.
Context (s : CaptureEncoderState) (Hs : well_shaped s).
Lemma zip_frame_length w (packet : list f32) : (channels s ≤ length packet)%nat →
  length (zip_with (crossfade w) (last_frame s) (take (channels s) packet)) = channels s.
Proof using Hs. intros. unfold well_shaped in Hs. rewrite length_zip_with, length_take. lia. Qed.
Lemma fade_length fuel index packet : length (fade s fuel index packet) = length packet.
Proof using Hs.
  revert index packet. induction fuel as [|fuel IH]; intros index packet; [done|]. cbn [fade].
  destruct (Nat.ltb_spec (length packet) (channels s)); [done|]. rewrite length_app, zip_frame_length, IH, length_drop by done. lia.
Qed.
(** The frames after those faded are the packet's. *)
Lemma fade_rest fuel index packet : drop (fuel * channels s) (fade s fuel index packet) = drop (fuel * channels s) packet.
Proof using Hs.
  revert index packet. induction fuel as [|fuel IH]; intros index packet; [done|]. cbn [fade].
  destruct (Nat.ltb_spec (length packet) (channels s)); [done|]. cbn [Nat.mul].
  rewrite <- drop_drop, (drop_app_length' _ _ (channels s)) by (symmetry; by apply zip_frame_length). by rewrite IH, drop_drop.
Qed.
(** A frame faded is weighed between the last frame and itself. *)
Lemma fade_frame fuel index packet i : (i < fuel)%nat → (S i * channels s ≤ length packet)%nat →
  take (channels s) (drop (i * channels s) (fade s fuel index packet))
  = zip_with (crossfade (fade_weight s (index + i))) (last_frame s) (take (channels s) (drop (i * channels s) packet)).
Proof using Hs.
  revert index packet i. induction fuel as [|fuel IH]; intros index packet i Hi Hl; [lia|]. cbn [fade].
  destruct (Nat.ltb_spec (length packet) (channels s)); [lia|]. destruct i as [|i].
  - rewrite Nat.mul_0_l, !drop_0. rewrite take_app_length' by (symmetry; by apply zip_frame_length). by rewrite Nat.add_0_r.
  - cbn [Nat.mul]. rewrite <- drop_drop, (drop_app_length' _ _ (channels s)) by (symmetry; by apply zip_frame_length).
    rewrite IH by (rewrite ?length_drop; lia). rewrite drop_drop. by replace (S index + i)%nat with (index + S i)%nat by lia.
Qed.
End fade.
(** A packet whose number is the one expected. *)
Lemma smooth_expected q p e : q = expected_sequence e → (smooth_packet q p e).2 = p.
Proof. intros ->. unfold smooth_packet. by rewrite Z.eqb_refl. Qed.
Lemma smooth_next q p e : expected_sequence (smooth_packet q p e).1 = Int.wrap_u64 (q + 1).
Proof. unfold smooth_packet. cbn. by destruct (last_whole _ _). Qed.
Lemma smooth_keeps_pending q p e x : smooth_packet q p (e <| pending := x |>) =
  ((smooth_packet q p e).1 <| pending := x |>, (smooth_packet q p e).2).
Proof.
  assert (∀ n i p, fade (e <| pending := x |>) n i p = fade e n i p) as Hf.
  { intros n. induction n as [|n IH]; intros i k; [done|]. cbn [fade]. rewrite IH. done. }
  unfold smooth_packet. rewrite Hf. cbn. by destruct (last_whole _ _).
Qed.
(** The packets of a run, joined one after the other. *)
Fixpoint smooth_all (packets : list (Z * list f32)) (e : CaptureEncoderState) : CaptureEncoderState * list (list f32) :=
  match packets with
  | [] => (e, [])
  | (q, p) :: packets =>
      let '(e, p) := smooth_packet q p e in let '(e, ps) := smooth_all packets e in (e, p :: ps)
  end.
Lemma smooth_all_app l k e : smooth_all (l ++ k) e =
  ((smooth_all k (smooth_all l e).1).1, (smooth_all l e).2 ++ (smooth_all k (smooth_all l e).1).2).
Proof.
  revert e. induction l as [|[q p] l IH]; intros e; cbn; [by destruct (smooth_all k e)|].
  destruct (smooth_packet q p e) as [e1 p1]. rewrite IH. destruct (smooth_all l e1) as [e2 ps]. done.
Qed.
Lemma smooth_all_length l e : length (smooth_all l e).2 = length l.
Proof.
  revert e. induction l as [|[q p] l IH]; intros e; [done|]. cbn. destruct (smooth_packet q p e) as [e1 p1].
  specialize (IH e1). destruct (smooth_all l e1). cbn in *. by rewrite IH.
Qed.
(** Packets numbered one after the other pass as they are. *)
Definition numbered (from : nat) (packets : list (list f32)) : list (Z * list f32) :=
  imap (λ i p, (Int.wrap_u64 (Z.of_nat (from + i)), p)) packets.
Arguments numbered : simpl never.
Lemma numbered_cons from p packets : numbered from (p :: packets) = (Int.wrap_u64 (Z.of_nat from), p) :: numbered (S from) packets.
Proof.
  unfold numbered. rewrite imap_cons. f_equal; [by rewrite Nat.add_0_r|]. apply imap_ext. intros i x _. cbn. by rewrite Nat.add_succ_r.
Qed.
Lemma numbered_snoc packets p : numbered 0 (packets ++ [p]) = numbered 0 packets ++ [(Int.wrap_u64 (Z.of_nat (length packets)), p)].
Proof. unfold numbered. rewrite imap_app. cbn. by rewrite Nat.add_0_r. Qed.
Lemma wrap_succ n : Int.wrap_u64 (Int.wrap_u64 n + 1) = Int.wrap_u64 (n + 1).
Proof. unfold Int.wrap_u64. by rewrite Zplus_mod_idemp_l. Qed.
Lemma smooth_all_numbered packets from e : expected_sequence e = Int.wrap_u64 (Z.of_nat from) →
  (smooth_all (numbered from packets) e).2 = packets.
Proof.
  revert from e. induction packets as [|p packets IH]; intros from e He; [done|]. rewrite numbered_cons. cbn [smooth_all].
  pose proof (smooth_expected (Int.wrap_u64 (Z.of_nat from)) p e (eq_sym He)) as Hp.
  pose proof (smooth_next (Int.wrap_u64 (Z.of_nat from)) p e) as Hn.
  destruct (smooth_packet _ p e) as [e1 p1]. cbn in Hp, Hn. subst p1. rewrite wrap_succ in Hn.
  assert (expected_sequence e1 = Int.wrap_u64 (Z.of_nat (S from))) as He1 by (rewrite Hn; f_equal; lia).
  pose proof (IH (S from) e1 He1) as H. destruct (smooth_all (numbered (S from) packets) e1). cbn in *. by rewrite H.
Qed.
Lemma sublist_full {A} (l k : list A) : l `sublist_of` k → (length k ≤ length l)%nat → l = k.
Proof.
  induction 1 as [|x l k Hlk IH|x l k Hlk IH]; cbn; intros Hle; [done| |].
  - f_equal. apply IH. lia.
  - apply sublist_length in Hlk. lia.
Qed.
(** What was encoded, with what is being encoded, is what was taken, joined. *)
Definition holding (s : capture) : list (list f32) := match worker s with WEncode p => [p] | _ => [] end.
Record joined (e0 : CaptureEncoderState) (s : capture) : Prop := {
  jn_state : enc s = (smooth_all (taken s) e0).1 <| pending := pending (enc s) |>;
  jn_packets : encoded s ++ holding s = (smooth_all (taken s) e0).2;
  jn_sequence : sequence s = Int.wrap_u64 (Z.of_nat (length (submitted s)));
  jn_numbered : submitted s = numbered 0 (snd <$> submitted s)
}.
Lemma pending_twice e x y : (e <| pending := x |>) <| pending := y |> = e <| pending := y |>.
Proof. done. Qed.
Lemma step_joined e0 s ev : joined e0 s → joined e0 (cstep ev s).
Proof.
  intros [Hst Hp Hsq Hn]. destruct ev as [locked input| | | | |]; cbn [cstep].
  - destruct (waking s); [by split|]. split; cbn; try done.
    + rewrite length_app, Hsq, wrap_succ. cbn. f_equal. lia.
    + rewrite fmap_app. change (snd <$> [(sequence s, input)]) with [input]. rewrite numbered_snoc, length_fmap, <- Hn, Hsq. done.
  - destruct (waking s); by split.
  - unfold work, holding in *. destruct (worker s) as [| |packet| | | | |] eqn:Hpc; cbn in Hp.
    + unfold add_stats, take_stats. split; cbn; try done. by rewrite Hst.
    + unfold take_packet, pop_packet. destruct (ready (handoff s)) as [|[q p] rest] eqn:Hready; [by split|].
      rewrite Hst, smooth_keeps_pending. pose proof (smooth_pending q p (smooth_all (taken s) e0).1) as Hsp.
      rewrite app_nil_r in Hp.
      destruct (smooth_packet q p (smooth_all (taken s) e0).1) as [e1 p1] eqn:Hsm. cbn in Hsp.
      split; cbn; try done; rewrite smooth_all_app; cbn; rewrite Hsm; cbn; [done|by rewrite Hp].
    + split; cbn; try done. by rewrite app_nil_r.
    + by destruct (stop s); split.
    + unfold add_stats, take_stats. destruct (is_empty _); split; cbn; try done. by rewrite Hst.
    + by destruct (token s); split.
    + destruct (token s); split; unfold holding; cbn; rewrite ?Hpc; done.
    + split; unfold holding; cbn; rewrite ?Hpc; done.
  - destruct (worker s) eqn:Hpc; split; cbn; try done; unfold holding in *; cbn; rewrite ?Hpc in *; done.
  - destruct (stop s); by split.
  - destruct (stop_waking s); by split.
Qed.
Lemma run_joined cap max rate ch s0 evs : start_capture_encoder cap max rate ch = Some s0 →
  joined (encoder_state_new rate ch) (crun evs s0).
Proof.
  unfold start_capture_encoder, new_pcm_handoff. destruct (_ || _); [done|]. intros [= <-].
  unfold crun. match goal with |- joined ?e (foldl _ ?s _) => assert (joined e s) as Hs; [by split|revert Hs; generalize s] end.
  induction evs as [|ev evs IH]; intros s Hs; [done|]. cbn. by apply IH, step_joined.
Qed.

(** what is encoded is what the device gave, joined where some of it was lost. The
    packets encoded and being encoded are those taken, one for one in their order, each
    joined to the one before where numbers are missing between the two; and while no
    packet has been lost they are, with those that wait, exactly the packets the
    callback submitted, sample by sample. *)
Theorem encoded_is_submitted cap max rate ch s0 evs
  (Hstart : start_capture_encoder cap max rate ch = Some s0) :
  let s := crun evs s0 in
  encoded s ++ holding s = (smooth_all (taken s) (encoder_state_new rate ch)).2
  ∧ (lost s = 0 → encoded s ++ holding s ++ (snd <$> ready (handoff s)) = snd <$> submitted s).
Proof.
  intros s. assert (joined (encoder_state_new rate ch) s) as [Hst Hp Hsq Hn] by by eapply run_joined.
  destruct (run_accounted cap max evs s0 (start_accounted _ _ _ _ _ Hstart)) as [_ _ Ho Hl _ _ _]. fold s in Ho, Hl.
  split; [done|]. intros H0.
  assert (taken s ++ ready (handoff s) = submitted s) as Heq.
  { apply sublist_full; [done|]. rewrite length_app. lia. }
  pose proof (smooth_all_numbered (snd <$> submitted s) 0 (encoder_state_new rate ch) eq_refl) as Hall.
  rewrite <- Hn, <- Heq, smooth_all_app in Hall. cbn [snd] in Hall. rewrite fmap_app in Hall.
  rewrite <- Heq, fmap_app, app_assoc, Hp. f_equal.
  by destruct (app_inj_1 _ _ _ _ (eq_trans (smooth_all_length _ _) (eq_sym (length_fmap _ _))) Hall).
Qed.
Lemma encoded_is_submitted_witness :
  ∃ s0, sample_capture = Some s0 ∧
    let s := crun ((concat ((λ i, [Submit false (tone 2 i); Wake; Work; Work; Work]) <$> [1; 2; 3])) ++ [Submit false (tone 2 4)]) s0 in
    lost s = 0 ∧ encoded s ++ holding s ++ (snd <$> ready (handoff s)) = tone 2 <$> [1; 2; 3; 4].
Proof.
  eexists. split; [vm_compute; reflexivity|].
  pose proof (encoded_is_submitted CAPTURE_PCM_QUEUE_PACKETS 8 48000 1 _
    (concat ((λ i, [Submit false (tone 2 i); Wake; Work; Work; Work]) <$> [1; 2; 3]) ++ [Submit false (tone 2 4)]) eq_refl) as (_ & H).
  cbv zeta. split; [vm_compute; reflexivity|]. etrans; [apply H|]; vm_compute; reflexivity.
Defined.

Lemma last_whole_length ch packet f : last_whole ch packet = Some f → length f = ch.
Proof.
  unfold last_whole. destruct (Nat.eqb_spec (length packet / ch * ch) 0) as [|Hne]; [done|]. intros [= <-].
  rewrite length_take, length_drop. pose proof (Nat.Div0.mul_div_le (length packet) ch) as Hd.
  destruct (length packet / ch)%nat; nia.
Qed.

(** a loss is joined within one packet. A packet with the number expected passes as
    it is. Otherwise it keeps its length, the frames from [fade_frames] on are its own,
    and of those before the [i]-th is weighed [(i + 1) / fade_frames] against the last
    frame of the packet before. The last whole frame is kept for the next, and the
    number after is the one expected. *)
Theorem smoothing_joins q packet e (Hshape : well_shaped e) :
  let '(e', packet') := smooth_packet q packet e in
  (q = expected_sequence e → packet' = packet)
  ∧ length packet' = length packet
  ∧ drop (fade_frames e * channels e) packet' = drop (fade_frames e * channels e) packet
  ∧ (q ≠ expected_sequence e → ∀ i, (i < fade_frames e)%nat → (S i * channels e ≤ length packet)%nat →
     take (channels e) (drop (i * channels e) packet')
     = zip_with (crossfade (fdiv (f32_of_Z (Z.of_nat i + 1)) (f32_of_Z (Z.of_nat (fade_frames e))))) (last_frame e)
         (take (channels e) (drop (i * channels e) packet)))
  ∧ expected_sequence e' = Int.wrap_u64 (q + 1) ∧ well_shaped e'
  ∧ take (channels e) (last_frame e') = default (take (channels e) (last_frame e)) (last_whole (channels e) packet').
Proof.
  pose proof (smooth_expected q packet e) as Hexp. pose proof (smooth_next q packet e) as Hnext.
  destruct (smooth_packet q packet e) as [e' packet'] eqn:Hsm. cbn in Hexp, Hnext. unfold smooth_packet in Hsm.
  injection Hsm as He Hpacket. rewrite Hpacket in He. cbn in He.
  split; [done|]. destruct (Z.eqb_spec q (expected_sequence e)) as [Heq|Hne]; cbn in Hpacket.
  all: assert (length packet' = length packet) as Hlen by (subst packet'; rewrite ?fade_length; done).
  all: split; [done|]; split; [subst packet'; rewrite ?fade_rest; done|]; split;
    [try done; intros _ i Hi Hl; subst packet'; rewrite (fade_frame e Hshape) by done; done|].
  all: split; [done|].
  all: assert (∀ f, last_whole (channels e) packet' = Some f → length f = channels e) as Hwhole by apply last_whole_length.
  all: unfold well_shaped in *; destruct (last_whole (channels e) packet') as [f|] eqn:Hf; subst e'; cbn; [|done];
    pose proof (Hwhole f eq_refl) as Hfl; rewrite length_app, length_drop, take_app_le, take_ge by lia; split; [lia|done].
Qed.
Definition tone_gap : CaptureEncoderState := mk_encoder_state 1 5 2 (f32_of_Z <$> [8; 0]) stats_default.
Lemma smoothing_joins_witness :
  let packet := f32_of_Z <$> [0; 0; 6; 2] in
  let '(e', packet') := smooth_packet 9 packet tone_gap in
  packet' = f32_of_Z <$> [4; 0; 6; 2] ∧ last_frame e' = f32_of_Z <$> [2; 0] ∧ expected_sequence e' = 10
  ∧ drop 2 packet' = drop 2 packet.
Proof.
  pose proof (smoothing_joins 9 (f32_of_Z <$> [0; 0; 6; 2]) tone_gap ltac:(unfold well_shaped; cbn; lia)) as H. cbv zeta.
  destruct (smooth_packet 9 (f32_of_Z <$> [0; 0; 6; 2]) tone_gap) as [e' packet'] eqn:E.
  assert (∀ a b, smooth_packet 9 (f32_of_Z <$> [0; 0; 6; 2]) tone_gap = (a, b) →
    b = f32_of_Z <$> [4; 0; 6; 2] ∧ last_frame a = f32_of_Z <$> [2; 0]) as Hv by (intros a b [= <- <-]; split; vm_compute; reflexivity).
  destruct (Hv _ _ E) as [H1 H2]. destruct H as (_ & _ & H3 & _ & H4 & _). repeat split; [exact H1|exact H2|exact H4|exact H3].
Defined.

(** ** The gate on silence *)
Definition silent (p : list f32) : bool := negb (existsb nonzero p).
(** How many of the last packets were silent. *)
Definition quiet (l : list (list f32)) : nat := foldl (λ n p, if silent p then S n else 0)%nat 0%nat l.
Definition last_n {A} (n : nat) (l : list A) : list A := drop (length l - n) l.
Lemma quiet_snoc l p : quiet (l ++ [p]) = if silent p then S (quiet l) else 0%nat.
Proof. unfold quiet. by rewrite foldl_app. Qed.
Lemma quiet_spec n l : (n ≤ quiet l)%nat ↔ (n ≤ length l)%nat ∧ Forall silent (last_n n l).
Proof.
  revert n. induction l as [|p l IH] using rev_ind; intros n.
  { cbn. unfold last_n. split; [intros; split; [lia|by rewrite drop_nil]|intros [? _]; lia]. }
  rewrite quiet_snoc, length_app. cbn [length]. unfold last_n. rewrite length_app. cbn [length].
  destruct n as [|n].
  { rewrite Nat.sub_0_r, drop_ge by (rewrite length_app; cbn; lia). split; [intros; split; [lia|done]|intros; lia]. }
  replace (length l + 1 - S n)%nat with (length l - n)%nat by lia.
  rewrite drop_app_le, Forall_app, Forall_singleton by lia. destruct (silent p).
  - rewrite <- Nat.succ_le_mono, IH. unfold last_n. split; [intros [? ?]; split_and!; [lia|done|done]|intros (? & ? & _); split; [lia|done]].
  - split; [lia|]. by intros (_ & _ & []).
Qed.
(** The count of silent packets after those of a stream that are not muted. *)
Definition count_after (history : list (bool * list f32)) : Z :=
  foldl (λ z '(muted, p), (send_f32 muted (@Some (list f32)) p z).1) 0 history.
Definition heard (history : list (bool * list f32)) : list (list f32) := snd <$> filter (λ mp, mp.1 = false) history.
Lemma should_encode_quiet l p n : n = Z.of_nat (Nat.min (quiet l) 802) →
  should_encode p n = (Z.of_nat (Nat.min (quiet (l ++ [p])) 802), negb (802 <=? quiet (l ++ [p]))%nat).
Proof.
  intros ->. rewrite quiet_snoc. unfold should_encode, silent, MAX_AUDIO_ZERO_COUNT. destruct (existsb nonzero p); [done|]. cbn [negb].
  destruct (Z.ltb_spec 800 (Z.of_nat (Nat.min (quiet l) 802))).
  - rewrite (proj2 (Nat.leb_le 802 (S (quiet l)))) by lia. f_equal. destruct (Z.eqb_spec (Z.of_nat (Nat.min (quiet l) 802)) (800 + 1)); lia.
  - rewrite (proj2 (Nat.leb_gt 802 (S (quiet l)))) by lia. f_equal. lia.
Qed.
Lemma count_after_quiet history : count_after history = Z.of_nat (Nat.min (quiet (heard history)) 802).
Proof.
  induction history as [|[muted p] history IH] using rev_ind; [done|]. unfold count_after, heard. rewrite foldl_app, filter_app, fmap_app.
  cbn [foldl]. fold (count_after history). fold (heard history). unfold send_f32. destruct muted.
  - rewrite filter_cons_False by done. cbn. rewrite app_nil_r. exact IH.
  - rewrite filter_cons_True by done. cbn. rewrite (should_encode_quiet (heard history) p) by exact IH.
    by destruct (negb _).
Qed.

(** the gate keeps back silence that lasts, and nothing else. Whatever was encoded
    before, the packet at hand goes to the encoder unless capture is muted or it and the
    [801] unmuted packets before it, at least eight seconds of sound, are all zeros. Of
    a silence so the first [801] packets are sent, and the first packet that is not
    silent again is. What is muted counts neither way. *)
Theorem zero_gate {M} (encode : list f32 → option M) history muted p :
  (send_f32 muted encode p (count_after history)).2 =
  (if muted || bool_decide (802 ≤ length (heard history ++ [p]))%nat && forallb silent (last_n 802 (heard history ++ [p]))
   then None else encode p).
Proof.
  unfold send_f32. destruct muted; [done|]. cbn [orb]. rewrite (should_encode_quiet (heard history) p _ (count_after_quiet history)).
  pose proof (quiet_spec 802 (heard history ++ [p])) as Hq. rewrite <- forallb_True in Hq.
  destruct (Nat.leb_spec 802 (quiet (heard history ++ [p]))) as [Hle|Hgt]; cbn [negb snd].
  - apply Hq in Hle as [H1 H2]. rewrite bool_decide_eq_true_2 by done. by rewrite (Is_true_true_1 _ H2).
  - case_bool_decide; [|done]. destruct (forallb silent _); [|done]. exfalso. assert (802 ≤ quiet (heard history ++ [p]))%nat; [|lia].
    by apply Hq.
Qed.

(** ** From the device to the packets *)
(** A buffer of [n] samples with [kept] in it. *)
Definition buffering (n : nat) (b : CaptureFrameBuffer) (kept : list f32) : Prop :=
  length (samples b) = n ∧ (filled b < n)%nat ∧ kept = take (filled b) (samples b).
Lemma frame_process_spec n input b kept : buffering n b kept →
  let '(b', frames) := frame_process input b in
  ∃ kept', buffering n b' kept' ∧ concat frames ++ kept' = kept ++ input ∧ Forall (λ f, length f = n) frames.
Proof.
  revert b kept. induction input as [|x input IH]; intros b kept (Hn & Hf & Hk); cbn [frame_process].
  { exists kept. rewrite app_nil_r. split; [by split_and!|done]. }
  set (b1 := (b <| samples ::= _ |>) <| filled ::= S |>).
  assert (length (samples b1) = n) as Hn1 by (cbn; by rewrite length_insert).
  assert (take (filled b1) (samples b1) = kept ++ [x]) as Hk1.
  { cbn. rewrite (take_S_r _ _ x) by (rewrite list_lookup_insert_eq; [done|lia]). by rewrite take_insert_ge, Hk. }
  case_bool_decide as Hfull.
  - assert (samples b1 = kept ++ [x]) as Hall by (rewrite <- Hk1; symmetry; apply take_ge; lia).
    specialize (IH (b1 <| filled := 0%nat |>) []). destruct (frame_process input (b1 <| filled := 0%nat |>)) as [b' frames].
    destruct IH as (kept' & Hb & Hc & Hall'); [split_and!; [done|cbn; lia|done]|].
    exists kept'. split; [done|]. split; [|by constructor].
    change (samples (b1 <| filled := 0%nat |>)) with (samples b1). rewrite Hall. cbn [concat]. rewrite <- !app_assoc, Hc. done.
  - specialize (IH b1 (kept ++ [x])). destruct (frame_process input b1) as [b' frames].
    destruct IH as (kept' & Hb & Hc & Hall'); [split_and!; [done|cbn in *; lia|by rewrite Hk1]|].
    exists kept'. split; [done|]. split; [|done]. rewrite Hc, <- app_assoc. done.
Qed.

(** A device of a rate and a number of channels. *)
Section stream_facts.
Context (to_stereo : list f32 → list f32) (Hstereo : ∀ f, length (to_stereo f) = 2%nat).
Context (rate0 cc : Z) (Hrate : 100 ≤ rate0 < 2 ^ 32) (Hcc : 1 ≤ cc < 2 ^ 16) (Hframe : rate0 / 100 * cc < 2 ^ 31).
Let c := mk_config rate0 (encode_rate rate0) cc.
Let n := Z.to_nat (rate0 / 100 * cc).
Let send := λ p, rechannel to_stereo p cc.
Definition converted (input : list f32) : list f32 :=
  if rate0 =? encode_rate rate0 then input else resample (mk_config rate0 (encode_rate rate0) cc) input.
Definition packet_samples : Z := encode_rate rate0 / 100 * cc.
(** The processor has been given these frames, and has sent so much of them. *)
Definition processing (frames raw : list f32) (p : CaptureFrameProcessor) : Prop :=
  pconfig p = mk_processor_config rate0 (encode_rate rate0) cc (encode_channels cc)
  ∧ match presampler p with
    | None => rate0 = encode_rate rate0 ∧ raw = frames
    | Some f => rate0 ≠ encode_rate rate0 ∧ packing c frames packet_samples f raw
    end.
Lemma encode_rate_range : 8000 ≤ encode_rate rate0 ≤ 48000.
Proof. unfold encode_rate. repeat case_match; lia. Qed.
Lemma capture_config_valid : valid_config c.
Proof using Hrate Hcc. pose proof encode_rate_range. subst c. unfold valid_config. cbn [input_rate output_rate config_channels]. lia. Qed.
Lemma packet_samples_range : 0 < packet_samples.
Proof using Hrate Hcc.
  pose proof encode_rate_range. unfold packet_samples. assert (80 ≤ encode_rate rate0 / 100) by (apply Z.div_le_lower_bound; lia). nia.
Qed.
Lemma frame_samples_range : 0 < rate0 / 100 * cc.
Proof using Hrate Hcc. assert (1 ≤ rate0 / 100) by (apply Z.div_le_lower_bound; lia). nia. Qed.
Lemma chunks_fit {A} (f : list A → list f32) k l fuel : (0 < k)%nat → (∀ x, length (f x) = 2%nat) →
  (k * length (concat (f <$> chunks_exact fuel k l)) ≤ 2 * length l)%nat.
Proof.
  intros Hk Hf. revert l. induction fuel as [|fuel IH]; intros l; cbn [chunks_exact fmap list_fmap concat]; [cbn; lia|].
  destruct (Nat.ltb_spec (length l) k); cbn [fmap list_fmap concat]; [cbn; lia|]. rewrite length_app, Hf.
  specialize (IH (drop k l)). rewrite length_drop in IH. lia.
Qed.
(** What is sent is no longer than what comes out of the resampler. *)
Lemma rechannel_fits p : (length (rechannel to_stereo p cc) ≤ length p)%nat.
Proof using Hstereo Hcc Hrate Hframe.
  unfold rechannel. set (q := if STEREO_CHANNELS <? cc then _ else p).
  assert (length q ≤ length p)%nat by (subst q; case_match; rewrite ?length_take; lia).
  destruct ((3 <=? cc) && (cc <=? 8)) eqn:Hr; [|done]. apply andb_true_iff in Hr as [H3 _]. apply Z.leb_le in H3.
  pose proof (chunks_fit to_stereo (Z.to_nat cc) q (length q) ltac:(lia) Hstereo) as H1. nia.
Qed.
Lemma process_sends data p frames raw : length data = n → processing frames raw p →
  ∃ p' sent, process to_stereo data p = Some (p', Some (send <$> sent)) ∧ processing (frames ++ data) (raw ++ concat sent) p'
  ∧ Forall (λ q, Z.of_nat (length q) = packet_samples) sent.
Proof using Hrate Hcc Hframe.
  intros Hd [Hp Hr]. pose proof frame_samples_range. unfold process. rewrite Hp. cbn [device_channel].
  assert (Z.of_nat (length data) = rate0 / 100 * cc) as Hlen by (unfold n in Hd; lia).
  destruct (presampler p) as [f|] eqn:Hpr.
  - destruct Hr as [Hne Hf].
    pose proof (process_with_spec c capture_config_valid frames packet_samples f raw data packet_samples_range Hf ltac:(lia)) as H1.
    rewrite decide_True in H1 by (unfold whole; change (config_channels c) with cc; rewrite Hlen; apply Z.mod_mul; lia).
    destruct H1 as (f' & sent & -> & Hf' & Hsz). eexists _, sent. split; [reflexivity|]. split; [|done]. by split.
  - destruct Hr as [He ->]. exists p, [data]. split; [reflexivity|]. cbn [concat]. rewrite app_nil_r. split.
    + split; [done|]. by rewrite Hpr.
    + repeat constructor. unfold packet_samples. rewrite <- He. done.
Qed.
Lemma frames_send fs s frames raw : Forall (λ f, length f = n) fs → interrupted s = false → processing frames raw (processor s) →
  ∃ s' sent, process_frames to_stereo fs s = Some (s', send <$> sent) ∧ frame s' = frame s ∧ interrupted s' = false
  ∧ processing (frames ++ concat fs) (raw ++ concat sent) (processor s')
  ∧ Forall (λ q, Z.of_nat (length q) = packet_samples) sent.
Proof using Hrate Hcc Hframe.
  intros Hfs. revert s frames raw. induction Hfs as [|data fs Hd Hfs IH]; intros s frames raw Hi Hp; cbn [process_frames].
  { exists s, []. cbn [concat]. rewrite !app_nil_r. by split_and!. }
  unfold process_frame. rewrite Hi. destruct (process_sends data (processor s) frames raw Hd Hp) as (p' & sent & -> & Hp' & Hs1).
  specialize (IH (s <| processor := p' |>)). destruct (IH (frames ++ data) (raw ++ concat sent) Hi Hp') as (s' & sent' & -> & Hf & Hi' & Hp'' & Hs2).
  exists s', (sent ++ sent'). rewrite fmap_app, concat_app, !app_assoc. cbn [concat]. rewrite app_assoc.
  split_and!; [done..|]. by apply Forall_app.
Qed.
Lemma blocks_send blocks s kept frames raw : interrupted s = false → buffering n (frame s) kept → processing frames raw (processor s) →
  ∃ s' sent kept' fs, on_blocks to_stereo blocks s = Some (s', send <$> sent) ∧ interrupted s' = false ∧ buffering n (frame s') kept'
  ∧ concat fs ++ kept' = kept ++ concat blocks ∧ Forall (λ f, length f = n) fs
  ∧ processing (frames ++ concat fs) (raw ++ concat sent) (processor s')
  ∧ Forall (λ q, Z.of_nat (length q) = packet_samples) sent.
Proof using Hrate Hcc Hframe.
  revert s kept frames raw. induction blocks as [|block blocks IH]; intros s kept frames raw Hi Hb Hp; cbn [on_blocks].
  { exists s, [], kept, []. cbn [concat]. rewrite !app_nil_r. by split_and!. }
  unfold on_data. rewrite Hi. pose proof (frame_process_spec n block (frame s) kept Hb) as Hfp.
  destruct (frame_process block (frame s)) as [b fs]. destruct Hfp as (kept1 & Hb1 & Hc1 & Hfs1).
  pose proof (frames_send fs (s <| frame := b |>)) as Hfr. destruct (Hfr frames raw Hfs1 Hi Hp) as (s1 & sent1 & -> & Ef & Hi1 & Hp1 & Hs1).
  assert (buffering n (frame s1) kept1) as Hb1' by by rewrite Ef.
  destruct (IH s1 kept1 (frames ++ concat fs) (raw ++ concat sent1) Hi1 Hb1' Hp1) as (s' & sent & kept' & fs' & -> & Hi' & Hb' & Hc' & Hfs' & Hp' & Hs').
  exists s', (sent1 ++ sent), kept', (fs ++ fs'). rewrite fmap_app, !concat_app, !app_assoc. cbn [concat].
  split_and!; try done; [|by apply Forall_app..].
  by rewrite <- app_assoc, Hc', !app_assoc, Hc1.
Qed.
End stream_facts.

(** what is sent does not depend on how the device cuts its sound, and always fits.
    For every device of at least [100] frames a second whose frames of ten milliseconds
    have fewer than [2^31] samples, capture starts; then whatever blocks its callback is
    given, none of its arithmetic overflows, no index is out of range, the stream is
    never marked as failed, and the packets it submits are the whole frames so far,
    resampled if the encoder has another rate and joined into two channels if there are
    three to eight, cut into packets of ten milliseconds, less than one of which is kept
    back. Every packet is within the bound its handoff has, so none is ever refused as
    too long. A device with fewer frames a second is refused. *)
Theorem capture_stream_total to_stereo rate0 cc (Hstereo : ∀ f, length (to_stereo f) = 2%nat)
  (Hrate : 0 ≤ rate0 < 2 ^ 32) (Hcc : 1 ≤ cc < 2 ^ 16) (Hframe : rate0 / 100 * cc < 2 ^ 31) :
  match play_stream rate0 cc with
  | None => rate0 < 100
  | Some (s0, max) =>
      100 ≤ rate0 ∧ 0 < max ∧ ∀ blocks, ∃ s' raw kept rest,
      on_blocks to_stereo blocks s0 = Some (s', (λ p, rechannel to_stereo p cc) <$> raw) ∧ interrupted s' = false
      ∧ Forall (λ p, Z.of_nat (length p) = max) raw
      ∧ Forall (λ p, Z.of_nat (length p) ≤ max) ((λ p, rechannel to_stereo p cc) <$> raw)
      ∧ Z.of_nat (length kept) < rate0 / 100 * cc ∧ Z.of_nat (length rest) < max
      ∧ ∃ frames, frames ++ kept = concat blocks ∧ Z.of_nat (length frames) mod (rate0 / 100 * cc) = 0
        ∧ concat raw ++ rest = converted rate0 cc frames
  end.
Proof.
  unfold play_stream. pose proof (encode_rate_range rate0) as Her.
  assert (1 ≤ encode_channels cc ≤ 2 ∧ Z.max cc (encode_channels cc) = cc) as [Hec ->].
  { unfold encode_channels. destruct (Z.ltb_spec 1 cc); lia. }
  assert (∀ r k, 100 ≤ r < 2 ^ 32 → 1 ≤ k < 2 ^ 16 → capture_packet_layout r k = Some (r / 100, r / 100 * k)) as Hlay.
  { intros r k Hr Hk. unfold capture_packet_layout, AUDIO_PACKETS_PER_SECOND.
    rewrite (proj2 (Z.ltb_ge r 100)), (proj2 (Z.eqb_neq k 0)) by lia. cbn [orb].
    assert (r / 100 ≤ 2 ^ 32) by (apply Z.div_le_upper_bound; lia). assert (0 ≤ r / 100) by (apply Z.div_pos; lia).
    rewrite (proj2 (Z.leb_le _ _)); [done|]. unfold Int.usize_max, Int.u64_max. nia. }
  rewrite (Hlay (encode_rate rate0) cc) by lia.
  destruct (Z.ltb_spec rate0 100) as [Hlow|Hhigh].
  { unfold capture_packet_layout. unfold AUDIO_PACKETS_PER_SECOND. by rewrite (proj2 (Z.ltb_lt rate0 100)). }
  assert (100 ≤ rate0 < 2 ^ 32) as Hr by lia. clear Hrate. rewrite (Hlay rate0 cc) by lia.
  pose proof (frame_samples_range rate0 cc Hr Hcc) as Hfs. pose proof (packet_samples_range rate0 cc Hr Hcc) as Hps.
  unfold frame_buffer_new. rewrite bool_decide_eq_false_2 by lia.
  assert (∃ p, processor_new (mk_processor_config rate0 (encode_rate rate0) cc (encode_channels cc)) = Some p
    ∧ processing rate0 cc [] [] p) as (p & -> & Hp).
  { unfold processor_new. cbn [p_input_rate p_output_rate device_channel encode_channel]. rewrite (Hlay (encode_rate rate0) (encode_channels cc)) by lia.
    destruct (Z.eqb_spec rate0 (encode_rate rate0)) as [He|Hne]; [by eexists|].
    pose proof (capture_config_valid rate0 cc Hr Hcc) as Hvc.
    assert (80 ≤ encode_rate rate0 / 100 ≤ 480) as Hof by (split; [apply Z.div_le_lower_bound; lia|apply Z.div_le_upper_bound; lia]).
    destruct (fixed_new_ok _ Hvc (encode_rate rate0 / 100)) as [f Hf]; [lia|]. unfold AUDIO_PACKETS_PER_SECOND. rewrite Hf.
    destruct (fixed_new_packing _ Hvc (encode_rate rate0 / 100) f ltac:(lia) Hf) as [Hpk _]. eexists. split; [reflexivity|]. split; [done|]. split; [done|]. exact Hpk. }
  fold (packet_samples rate0 cc). split; [done|]. split; [done|]. intros blocks.
  set (b0 := mk_frame_buffer _ _). assert (buffering (Z.to_nat (rate0 / 100 * cc)) b0 []) as Hb0.
  { subst b0. split_and!; [by cbn; rewrite length_replicate|cbn; lia|done]. }
  destruct (blocks_send to_stereo rate0 cc Hr Hcc Hframe blocks (mk_stream b0 p false) [] [] [] eq_refl Hb0 Hp)
    as (s' & raw & kept & fs & Hrun & Hi & (Hb1 & Hb2 & Hb3) & Hc & Hfs' & [_ Hpr] & Hsz).
  cbn [app] in Hc, Hpr.
  assert (∃ rest, concat raw ++ rest = converted rate0 cc (concat fs) ∧ Z.of_nat (length rest) < packet_samples rate0 cc)
    as (rest & Hrest & Hrl).
  { unfold converted. destruct (presampler (processor s')) as [f|].
    - destruct Hpr as [Hne (_ & _ & H1 & H2)]. exists (pending_samples f). by rewrite (proj2 (Z.eqb_neq _ _) Hne).
    - destruct Hpr as [He ->]. exists []. rewrite app_nil_r, (proj2 (Z.eqb_eq _ _) He). done. }
  exists s', raw, kept, rest. split; [exact Hrun|]. split; [done|]. split; [done|]. split_and!.
  - apply Forall_fmap. eapply Forall_impl; [exact Hsz|]. intros q Hq. cbn in *.
    pose proof (rechannel_fits to_stereo Hstereo rate0 cc Hr Hcc Hframe q). lia.
  - rewrite Hb3, length_take. lia.
  - done.
  - exists (concat fs). split; [done|]. split; [|done].
    assert (Z.of_nat (length (concat fs)) = Z.of_nat (length fs) * (rate0 / 100 * cc)) as ->; [|apply Z.mod_mul; lia].
    clear -Hfs' Hfs. induction Hfs' as [|f fs Hf _ IH]; [done|]. cbn [concat]. rewrite length_app. cbn [length]. lia.
Qed.
(** Five channels at half the rate of the encoder, kept with the first two. *)
Definition first_two (f : list f32) : list f32 := [nth 0 f (f32_of_Z 0); nth 1 f (f32_of_Z 0)].
Lemma capture_stream_total_witness :
  ∃ s0, play_stream 6000 5 = Some (s0, 400) ∧
    let blocks := [tone 7 1; tone 600 2] in
    ∃ s' raw, on_blocks first_two blocks s0 = Some (s', (λ p, rechannel first_two p 5) <$> raw)
      ∧ interrupted s' = false ∧ Forall (λ p, Z.of_nat (length p) ≤ 400) ((λ p, rechannel first_two p 5) <$> raw).
Proof.
  pose proof (capture_stream_total first_two 6000 5 (λ _, eq_refl) ltac:(lia) ltac:(lia) ltac:(vm_compute; reflexivity)) as H.
  destruct (play_stream 6000 5) as [[s0 max]|] eqn:E; [|lia].
  assert (max = 400) as -> by (assert (option_map snd (play_stream 6000 5) = Some 400) as E2 by (vm_compute; reflexivity); rewrite E in E2; by injection E2).
  destruct H as (_ & _ & H). exists s0. split; [reflexivity|]. destruct (H [tone 7 1; tone 600 2]) as (s' & raw & kept & rest & H1 & H2 & _ & H3 & _).
  exists s', raw. cbv zeta. split; [exact H1|]. split; [exact H2|exact H3].
Defined.
