(* ===== verification/Services.v ===== *)
(** * Services and their subscribers

    [src/src/server/service.rs]: the video, audio, cursor and clipboard services
    send to the connections that subscribed to them, new subscribers of some
    after a snapshot; their loops; and the subscriber of the cursor service
    ([MouseCursorSub] of [src/src/server/input_service.rs]). *)
From S2P Require Import Prelude.
Local Open Scope Z_scope.

(** ** Subscribers *)
Inductive message :=
| VideoFrame (n : N)
| SwitchDisplay (n : N)
| CursorData (id : Z) (data : bytes)
| CursorId (id : Z)
| OtherMessage (n : N).
#[export] Instance message_eq_dec : EqDecision message.
Proof. solve_decision. Defined.

(** A handle of a connection: [tx] and [tx_video] say which of its two channels
    it has. *)
Record ConnInner := mk_conn { conn_id : Z; tx : bool; tx_video : bool }.
(** What reaches the connection: the channel (video or not) and the message. *)
Abbreviation delivery := (bool * message)%type (only parsing).

Definition conn_send (c : ConnInner) (m : message) : list delivery :=
  let tx_by_video := match m with VideoFrame _ | SwitchDisplay _ => true | _ => false end in
  if (if tx_by_video then tx_video c else tx c) then [(tx_by_video, m)] else [].

(** [Subscriber + From<ConnInner>] *)
Class Subscriber (T : Type) := {
  sub_id : T → Z;
  sub_send : T → message → T * list delivery;
  sub_from : ConnInner → T
}.
Class SubscriberLaws (T : Type) `{Subscriber T} : Prop := {
  sub_id_send : ∀ s m, sub_id (sub_send s m).1 = sub_id s;
  sub_id_from : ∀ c, sub_id (sub_from c) = conn_id c
}.

#[export] Instance conn_subscriber : Subscriber ConnInner :=
  {| sub_id := conn_id; sub_send c m := (c, conn_send c m); sub_from c := c |}.
#[export] Instance conn_subscriber_laws : SubscriberLaws ConnInner.
Proof. by split. Qed.

Record MouseCursorSub := mk_cursor { inner : ConnInner; cached : gmap Z message }.
Definition cursor_send (s : MouseCursorSub) (m : message) : MouseCursorSub * list delivery :=
  match m with
  | CursorData id _ =>
      match cached s !! id with
      | Some m' => (s, conn_send (inner s) m')
      | None => (mk_cursor (inner s) (<[id := CursorId id]> (cached s)), conn_send (inner s) m)
      end
  | _ => (s, conn_send (inner s) m)
  end.
#[export] Instance cursor_subscriber : Subscriber MouseCursorSub :=
  {| sub_id s := conn_id (inner s); sub_send := cursor_send; sub_from c := mk_cursor c ∅ |}.
#[export] Instance cursor_subscriber_laws : SubscriberLaws MouseCursorSub.
Proof. split; [|done]. intros s m. destruct m; simpl; try done. by case_match. Qed.

(** ** The service *)
Section service.
Context {T : Type} `{Subscriber T}.

Record ServiceInner := mk_service {
  name : str;
  subscribes : gmap Z T;
  new_subscribes : gmap Z T;
  active : bool;
  need_snapshot : bool;
  options : gmap str str
}.
#[export] Instance ServiceInner_eta : Eta ServiceInner := λ s,
  mk_service (name s) (subscribes s) (new_subscribes s) (active s) (need_snapshot s) (options s).

Definition service_new (name : str) (need_snapshot : bool) : ServiceInner :=
  mk_service name ∅ ∅ true need_snapshot ∅.

(** A message to the subscribers [to] admits: the map after it, and what each
    connection gets. Each gets it once, so the order does not matter. *)
Definition broadcast (to : Z → T → bool) (m : message) (subs : gmap Z T) : gmap Z T :=
  map_imap (λ id s, Some (if to id s then (sub_send s m).1 else s)) subs.
Definition delivered (to : Z → T → bool) (m : message) (subs : gmap Z T) (id : Z) : list delivery :=
  match subs !! id with
  | Some s => if to id s then (sub_send s m).2 else []
  | None => []
  end.

Definition has_subscribes (s : ServiceInner) : bool :=
  bool_decide (subscribes s ≠ ∅) || bool_decide (new_subscribes s ≠ ∅).
Definition is_subed (s : ServiceInner) (id : Z) : bool :=
  bool_decide (is_Some (subscribes s !! id)) || bool_decide (is_Some (new_subscribes s !! id)).
Definition on_subscribe (s : ServiceInner) (sub : ConnInner) : ServiceInner :=
  if bool_decide (is_Some (subscribes s !! conn_id sub)) then s
  else if need_snapshot s then s <| new_subscribes ::= <[conn_id sub := sub_from sub]> |>
  else s <| subscribes ::= <[conn_id sub := sub_from sub]> |>.
Definition on_unsubscribe (s : ServiceInner) (id : Z) : ServiceInner :=
  match subscribes s !! id with
  | Some _ => s <| subscribes ::= delete id |>
  | None => s <| new_subscribes ::= delete id |>
  end.
Definition join (s : ServiceInner) : ServiceInner := s <| active := false |>.
Definition ok (s : ServiceInner) : bool := active s && has_subscribes s.
Definition get_option (s : ServiceInner) (opt : str) : option str := options s !! opt.
Definition set_option (s : ServiceInner) (opt val : str) : ServiceInner :=
  s <| options ::= <[opt := val]> |>.
Definition SERVICE_OPTION_VALUE_TRUE : str := lit "1".
Definition SERVICE_OPTION_VALUE_FALSE : str := lit "0".
Definition is_option_true (s : ServiceInner) (opt : str) : bool :=
  bool_decide (get_option s opt = Some SERVICE_OPTION_VALUE_TRUE).
Definition set_option_bool (s : ServiceInner) (opt : str) (val : bool) : ServiceInner :=
  set_option s opt (if val then SERVICE_OPTION_VALUE_TRUE else SERVICE_OPTION_VALUE_FALSE).

Definition swap_new_subscribes (s : ServiceInner) : ServiceInner :=
  s <| subscribes := map_fold (λ _ t m, <[sub_id t := t]> m) (subscribes s) (new_subscribes s) |>
    <| new_subscribes := ∅ |>.

(** What other threads and the loop do to a service, in the order of its lock.
    [SwapSend] and [SwapDrop] are what the callback of [snapshot] does: it sends
    to the new subscribers, and when it returns, failed or not, they become
    subscribers. *)
Inductive sop :=
| OnSubscribe (c : ConnInner)
| OnUnsubscribe (id : Z)
| Send (m : message)                 (* [send], [send_shared], [send_video_frame] *)
| SendTo (m : message) (id : Z)
| SendToOthers (m : message) (id : Z)
| SendWithout (m : message) (sub : Z)
| SwapSend (m : message)
| SwapDrop
| SetOption (opt val : str)
| Join.

Definition sstep (s : ServiceInner) (op : sop) : ServiceInner * (Z → list delivery) :=
  let to f m := (s <| subscribes := broadcast f m (subscribes s) |>, delivered f m (subscribes s)) in
  match op with
  | OnSubscribe c => (on_subscribe s c, λ _, [])
  | OnUnsubscribe id => (on_unsubscribe s id, λ _, [])
  | Send m => to (λ _ _, true) m
  | SendTo m id => to (λ k _, k =? id) m
  | SendToOthers m id => to (λ k _, negb (k =? id)) m
  | SendWithout m sub => to (λ _ t, negb (sub =? sub_id t)) m
  | SwapSend m => (s <| new_subscribes := broadcast (λ _ _, true) m (new_subscribes s) |>,
                   delivered (λ _ _, true) m (new_subscribes s))
  | SwapDrop => (swap_new_subscribes s, λ _, [])
  | SetOption opt val => (set_option s opt val, λ _, [])
  | Join => (join s, λ _, [])
  end.
(** What one connection is sent over a run. *)
Fixpoint srun (s : ServiceInner) (ops : list sop) (id : Z) : ServiceInner * list delivery :=
  match ops with
  | [] => (s, [])
  | op :: ops =>
      let '(s, out) := sstep s op in
      let '(s, rest) := srun s ops id in (s, out id ++ rest)
  end.

(** The call of [snapshot] with a callback that sends [ms]. *)
Definition snapshot (s : ServiceInner) (ms : list message) : list sop :=
  if bool_decide (new_subscribes s = ∅) then [] else (SwapSend <$> ms) ++ [SwapDrop].

(** The ids [send_video_frame] returns. *)
Definition send_video_frame (s : ServiceInner) : gset Z := map_to_set (λ _ t, sub_id t) (subscribes s).

(** ** The contract: one connection on its own *)
Inductive phase := Out | Waiting (s : T) | In (s : T).
Definition spec_step (need_snapshot : bool) (id : Z) (p : phase) (op : sop) : phase * list delivery :=
  let send (wanted : bool) m :=
    match p with
    | In s => if wanted then (In (sub_send s m).1, (sub_send s m).2) else (p, [])
    | _ => (p, [])
    end in
  match op with
  | OnSubscribe c =>
      if conn_id c =? id then
        match p with
        | In _ => (p, [])
        | _ => (if need_snapshot then Waiting (sub_from c) else In (sub_from c), [])
        end
      else (p, [])
  | OnUnsubscribe i => (if i =? id then Out else p, [])
  | Send m => send true m
  | SendTo m i => send (i =? id) m
  | SendToOthers m i | SendWithout m i => send (negb (i =? id)) m
  | SwapSend m =>
      match p with
      | Waiting s => (Waiting (sub_send s m).1, (sub_send s m).2)
      | _ => (p, [])
      end
  | SwapDrop => (match p with Waiting s => In s | _ => p end, [])
  | SetOption _ _ | Join => (p, [])
  end.
Fixpoint spec_run (need_snapshot : bool) (id : Z) (p : phase) (ops : list sop) : phase * list delivery :=
  match ops with
  | [] => (p, [])
  | op :: ops =>
      let '(p, out) := spec_step need_snapshot id p op in
      let '(p, rest) := spec_run need_snapshot id p ops in (p, out ++ rest)
  end.
Definition phase_of (s : ServiceInner) (id : Z) : phase :=
  match subscribes s !! id with
  | Some t => In t
  | None => match new_subscribes s !! id with Some t => Waiting t | None => Out end
  end.
End service.
Arguments ServiceInner : clear implicits.
Arguments phase : clear implicits.

(** ** The loops *)
Definition HIBERNATE_TIMEOUT : Z := 30.
Definition MAX_ERROR_TIMEOUT : Z := 1000.

(** [run]: the time to sleep after an error of a callback that took [elapsed]
    milliseconds. *)
Definition next_error_timeout (error_timeout elapsed : Z) : Z :=
  let t := if MAX_ERROR_TIMEOUT <? elapsed then HIBERNATE_TIMEOUT else error_timeout * 2 in
  if MAX_ERROR_TIMEOUT <? t then MAX_ERROR_TIMEOUT else t.

(** One turn of the loop of [run] ([Some elapsed]: the callback failed) and of
    [repeat]: what is done, in order. *)
Inductive loop_action := Init | Reset | Call | Sleep (ms : Z) | Exit.
Definition run_turn (error_timeout : Z) (active has_subs : bool) (failed : option Z) : Z * list loop_action :=
  if negb active then (error_timeout, [Exit])
  else if has_subs then
    match failed with
    | Some elapsed =>
        let t := next_error_timeout error_timeout elapsed in
        (t, [Call; Sleep t; Sleep HIBERNATE_TIMEOUT])
    | None => (error_timeout, [Call; Sleep HIBERNATE_TIMEOUT])
    end
  else (error_timeout, [Sleep HIBERNATE_TIMEOUT]).
Definition repeat_turn (interval : Z) (may_reset active has_subs failed : bool) (elapsed : Z)
    : bool * list loop_action :=
  if negb active then (may_reset, [Exit])
  else
    let '(may_reset, acts) :=
      if has_subs then
        (true, (if may_reset then [] else [Init]) ++ [Call]
               ++ (if failed then [Sleep MAX_ERROR_TIMEOUT] else []))
      else if may_reset then (false, [Reset]) else (may_reset, []) in
    (may_reset, acts ++ (if elapsed <? interval then [Sleep (interval - elapsed)] else [])).

(** ** The service implements the contract *)
Section service_facts.
Context {T : Type} `{SubscriberLaws T}.
Implicit Types (s : ServiceInner T) (m : message) (id : Z).

Definition keyed (subs : gmap Z T) : Prop := ∀ id t, subs !! id = Some t → sub_id t = id.
Record service_wf (need : bool) s : Prop := {
  wf_subs : keyed (subscribes s);
  wf_new : keyed (new_subscribes s);
  wf_disjoint : subscribes s ##ₘ new_subscribes s;
  wf_need : need_snapshot s = need;
  wf_no_new : need = false → new_subscribes s = ∅
}.

Lemma keyed_insert subs id t : keyed subs → sub_id t = id → keyed (<[id := t]> subs).
Proof. intros Hk Ht i u [[<- <-]|[_ Hu]]%lookup_insert_Some; [done|by apply Hk]. Qed.
Lemma keyed_delete subs id : keyed subs → keyed (delete id subs).
Proof. intros Hk i u [_ Hu]%lookup_delete_Some. by apply Hk. Qed.
Lemma keyed_union a b : keyed a → keyed b → keyed (a ∪ b).
Proof. intros Ha Hb i u [?|[_ ?]]%lookup_union_Some_raw; [by apply Ha|by apply Hb]. Qed.
Lemma lookup_broadcast to m subs id :
  broadcast to m subs !! id = (λ t, if to id t then (sub_send t m).1 else t) <$> subs !! id.
Proof. unfold broadcast. rewrite map_lookup_imap. by destruct (subs !! id). Qed.
Lemma keyed_broadcast to m subs : keyed subs → keyed (broadcast to m subs).
Proof.
  intros Hk i u. rewrite lookup_broadcast. intros (t & Ht & ->)%fmap_Some.
  case_match; [rewrite sub_id_send|]; by apply Hk.
Qed.
Lemma broadcast_disjoint_l to m (a b : gmap Z T) : a ##ₘ b → broadcast to m a ##ₘ b.
Proof.
  rewrite !map_disjoint_spec. intros Hd i x y. rewrite lookup_broadcast.
  intros (t & Ht & ->)%fmap_Some. by apply (Hd i t y).
Qed.
Lemma broadcast_disjoint_r to m (a b : gmap Z T) : a ##ₘ b → a ##ₘ broadcast to m b.
Proof. intros Hd. symmetry. by apply broadcast_disjoint_l. Qed.
Lemma broadcast_empty to m : broadcast to m (∅ : gmap Z T) = ∅.
Proof. by apply map_eq; intros i; rewrite lookup_broadcast, lookup_empty. Qed.
Lemma swap_union (a b : gmap Z T) :
  keyed b → map_fold (λ _ t acc, <[sub_id t := t]> acc) a b = b ∪ a.
Proof.
  induction b as [|i t b Hi Hf IH] using map_first_key_ind; intros Hk.
  - by rewrite map_fold_empty, (left_id_L ∅ (∪)).
  - rewrite map_fold_insert_first_key by done.
    rewrite (Hk i t (lookup_insert_eq _ _ _)), IH, insert_union_l; [done|].
    intros j u Hj. apply Hk. rewrite lookup_insert_ne; [done|congruence].
Qed.
Lemma lookup_left_of_disjoint (a b : gmap Z T) id t :
  a ##ₘ b → a !! id = Some t → b !! id = None.
Proof. intros Hd Ha. by eapply map_disjoint_Some_l. Qed.

#[local] Hint Resolve keyed_insert keyed_delete keyed_union keyed_broadcast
  broadcast_disjoint_l broadcast_disjoint_r map_disjoint_delete_l map_disjoint_delete_r
  map_disjoint_empty_r sub_id_from : core.

Lemma sstep_wf need s op : service_wf need s → service_wf need (sstep s op).1.
Proof.
  intros [Hs Hn Hd Hw Hf]. destruct s as [n su nu ac ne o]; cbn in *; subst ne.
  destruct op as [c|i|m|m i|m i|m i|m| |op v|]; cbn.
  all: try by split; cbn; auto.
  - unfold on_subscribe; cbn. case_bool_decide as Hin; [by split|].
    rewrite <-eq_None_not_Some in Hin.
    destruct need; split; cbn; auto; try done.
    + by apply map_disjoint_insert_r_2.
    + rewrite Hf by done. apply map_disjoint_empty_r.
  - unfold on_unsubscribe; cbn. destruct (su !! i) eqn:Hi; split; cbn; auto.
    + by apply map_disjoint_delete_l.
    + by apply map_disjoint_delete_r.
    + intros ->. by rewrite Hf, delete_empty by done.
  - split; cbn; auto. intros ->. by rewrite Hf, broadcast_empty by done.
  - unfold swap_new_subscribes; cbn. rewrite swap_union by done.
    split; cbn; auto; [by intros ??|apply map_disjoint_empty_r].
Qed.

(** One operation does to each connection what the contract says. *)
Lemma sstep_phase need s op id : service_wf need s →
  spec_step need id (phase_of s id) op = (phase_of (sstep s op).1 id, (sstep s op).2 id).
Proof.
  intros [Hs Hn Hd Hw Hf]. destruct s as [n su nu ac ne o]; cbn in *; subst ne.
  pose proof (λ t, lookup_left_of_disjoint su nu id t Hd) as Hdis.
  destruct op as [c|i|m|m i|m i|m i|m| |op v|]; unfold phase_of; cbn.
  all: rewrite ?lookup_broadcast; unfold delivered; cbn.
  3-6: destruct (su !! id) as [t|] eqn:Hid; cbn; [|by destruct (nu !! id)].
  - unfold on_subscribe; cbn. case_bool_decide as Hin; cbn.
    + destruct (Z.eqb_spec (conn_id c) id) as [<-|]; [|done]. by destruct Hin as [t ->].
    + rewrite <-eq_None_not_Some in Hin.
      destruct (Z.eqb_spec (conn_id c) id) as [<-|Hne]; destruct need; cbn;
        rewrite ?Hin, ?lookup_insert_eq, ?lookup_insert_ne by done; try done;
        by destruct (nu !! conn_id c).
  - unfold on_unsubscribe; cbn.
    destruct (su !! i) as [t|] eqn:Hi; destruct (Z.eqb_spec i id) as [->|Hne]; cbn;
      rewrite ?Hi, ?lookup_delete_eq, ?(Hdis t), ?lookup_delete_ne by done; done.
  - done.
  - by rewrite Z.eqb_sym; case_match.
  - by rewrite Z.eqb_sym; case_match.
  - rewrite (Hs id t Hid). by rewrite Z.eqb_sym; case_match.
  - destruct (su !! id) as [t|] eqn:Hid; cbn; [by rewrite (Hdis t)|]. by destruct (nu !! id).
  - unfold swap_new_subscribes; cbn. rewrite swap_union, lookup_union by done.
    destruct (su !! id) as [t|] eqn:Hid; [by rewrite (Hdis t)|].
    by destruct (nu !! id).
  - done.
  - done.
Qed.
Lemma srun_phase need s ops id : service_wf need s →
  service_wf need (srun s ops id).1 ∧
  spec_run need id (phase_of s id) ops = (phase_of (srun s ops id).1 id, (srun s ops id).2).
Proof.
  revert s. induction ops as [|op ops IH]; intros s Hwf; cbn; [done|].
  rewrite (sstep_phase _ s op id Hwf).
  destruct (sstep s op) as [s' out] eqn:Hst; cbn.
  destruct (IH s') as [Hwf' Heq]; [by eapply (sstep_wf _ s op) in Hwf; rewrite Hst in Hwf|].
  rewrite Heq. by destruct (srun s' ops id).
Qed.
End service_facts.

(** C37: whatever other threads and the loop of a service do to it, and in any
    order, each connection sees the service of the contract: it joins once,
    waits for a snapshot when the service has one, is sent from then on every
    message that goes to it, in order, until it leaves; nothing done for
    another connection changes what it is sent, and [is_subed] says whether it
    is in or waits. *)
Theorem services_refine {T} `{SubscriberLaws T} (name : str) (need_snapshot : bool)
    (ops : list sop) (id : Z) :
  let '(s, out) := srun (service_new name need_snapshot) ops id in
  spec_run need_snapshot id Out ops = (phase_of s id, out) ∧
  is_subed s id = match phase_of s id with Out => false | _ => true end.
Proof.
  assert (Hwf : service_wf need_snapshot (service_new (T := T) name need_snapshot))
    by (split; cbn; try done; apply map_disjoint_empty_l).
  destruct (srun_phase _ _ ops id Hwf) as [Hwf' Heq].
  destruct (srun _ ops id) as [s out]; cbn in *. split; [exact Heq|].
  unfold is_subed, phase_of. by destruct (subscribes s !! id), (new_subscribes s !! id).
Qed.
(** Connection 1 of the cursor service sees the snapshot, then what is sent, the
    second time by its id; connection 2 comes after the snapshot and waits. *)
Definition cursor_ops : list sop :=
  [Send (CursorData 7 []); OnSubscribe (mk_conn 1 true true); Send (CursorData 8 []);
   SwapSend (CursorData 8 []); SwapDrop; OnSubscribe (mk_conn 2 true true);
   Send (CursorData 9 []); Send (CursorData 8 []); OnUnsubscribe 1; Send (CursorData 9 [])].
Lemma services_refine_witness :
  let '(s, out) := srun (T := MouseCursorSub) (service_new (lit "mouse_cursor") true) cursor_ops 1 in
  (spec_run true 1 Out cursor_ops = (phase_of s 1, out) ∧
   is_subed s 1 = match phase_of s 1 with Out => false | _ => true end) ∧
  out.*2 = [CursorData 8 []; CursorData 9 []; CursorId 8] ∧ is_subed s 1 = false ∧ is_subed s 2 = true.
Proof.
  split; [apply (services_refine (T := MouseCursorSub) (lit "mouse_cursor") true cursor_ops 1)|].
  split_and!; vm_compute; reflexivity.
Defined.

(** A connection that subscribes while the callback of [snapshot] runs, after
    it sent, becomes a subscriber without the snapshot. *)
Example snapshot_race :
  let c := mk_conn 2 true true in
  spec_run (T := ConnInner) true 2 Out
    [SwapSend (CursorData 7 []); OnSubscribe c; SwapDrop] = (In c, []).
Proof. reflexivity. Qed.

(** ** The loops *)
Lemma next_error_timeout_bounds t e :
  HIBERNATE_TIMEOUT ≤ t ≤ MAX_ERROR_TIMEOUT →
  HIBERNATE_TIMEOUT ≤ next_error_timeout t e ≤ MAX_ERROR_TIMEOUT.
Proof. unfold next_error_timeout, HIBERNATE_TIMEOUT, MAX_ERROR_TIMEOUT. repeat case_match; lia. Qed.
Lemma next_error_timeout_quick t e :
  e ≤ MAX_ERROR_TIMEOUT → next_error_timeout t e = Z.min MAX_ERROR_TIMEOUT (t * 2).
Proof.
  unfold next_error_timeout, HIBERNATE_TIMEOUT, MAX_ERROR_TIMEOUT. intros.
  repeat case_match; lia.
Qed.

(** A run of the loop of [run]: each turn's look at the service and result. *)
Record turn := mk_turn { t_active : bool; t_subs : bool; t_failed : option Z }.
Fixpoint run_loop (error_timeout : Z) (ts : list turn) : Z * list loop_action :=
  match ts with
  | [] => (error_timeout, [])
  | t :: ts =>
      let '(e, acts) := run_turn error_timeout (t_active t) (t_subs t) (t_failed t) in
      if t_active t then let '(e', rest) := run_loop e ts in (e', acts ++ rest) else (e, acts)
  end.
(** ... and of the loop of [repeat]; here a turn also has the time it took. *)
Fixpoint repeat_loop (interval : Z) (may_reset : bool) (ts : list (turn * Z)) : bool * list loop_action :=
  match ts with
  | [] => (may_reset, [])
  | (t, elapsed) :: ts =>
      let '(m, acts) := repeat_turn interval may_reset (t_active t) (t_subs t)
                          (bool_decide (is_Some (t_failed t))) elapsed in
      if t_active t then let '(m', rest) := repeat_loop interval m ts in (m', acts ++ rest) else (m, acts)
  end.

(** Quick errors one after the other. *)
Lemma run_loop_quick t ts :
  HIBERNATE_TIMEOUT ≤ t ≤ MAX_ERROR_TIMEOUT →
  Forall (λ u, t_active u ∧ t_subs u ∧ ∃ e, t_failed u = Some e ∧ e ≤ MAX_ERROR_TIMEOUT) ts →
  (run_loop t ts).1 = Z.min MAX_ERROR_TIMEOUT (t * 2 ^ Z.of_nat (length ts)).
Proof.
  revert t. induction ts as [|u ts IH]; intros t Ht Hts.
  - cbn. unfold MAX_ERROR_TIMEOUT in *. lia.
  - apply Forall_cons in Hts as [(Ha & Hs & e & He & Hle) Hts].
    pose proof (next_error_timeout_bounds t e Ht) as Hb.
    cbn [run_loop]. unfold run_turn. apply Is_true_true in Ha, Hs. rewrite Ha, Hs, He. cbn.
    specialize (IH _ Hb Hts). destruct (run_loop _ ts) as [e' rest]; cbn in *.
    rewrite IH, next_error_timeout_quick, Nat2Z.inj_succ, Z.pow_succ_r by lia.
    pose proof (Z.pow_pos_nonneg 2 (Z.of_nat (length ts))).
    unfold MAX_ERROR_TIMEOUT, HIBERNATE_TIMEOUT in *. nia.
Qed.
Lemma run_loop_sleeps t ts :
  HIBERNATE_TIMEOUT ≤ t ≤ MAX_ERROR_TIMEOUT →
  HIBERNATE_TIMEOUT ≤ (run_loop t ts).1 ≤ MAX_ERROR_TIMEOUT ∧
  ∀ ms, Sleep ms ∈ (run_loop t ts).2 → HIBERNATE_TIMEOUT ≤ ms ≤ MAX_ERROR_TIMEOUT.
Proof.
  revert t. induction ts as [|u ts IH]; intros t Ht; cbn [run_loop]; [split; [done|by intros ? ?%elem_of_nil]|].
  unfold run_turn. destruct (t_active u); cbn.
  2: { split; [done|]. intros ms [[=]|[]%elem_of_nil]%elem_of_cons. }
  destruct (t_subs u), (t_failed u) as [e|]; cbn.
  all: pose proof (next_error_timeout_bounds t) as Hb.
  1: specialize (Hb e Ht); destruct (IH _ Hb) as [H1 H2].
  2-4: destruct (IH _ Ht) as [H1 H2].
  all: destruct (run_loop _ ts) as [e' rest]; cbn in *; split; [done|]; intros ms;
    rewrite !elem_of_cons; intros Hin; destruct_or? Hin; simplify_eq; auto.
  all: unfold HIBERNATE_TIMEOUT, MAX_ERROR_TIMEOUT; lia.
Qed.

(** The loop of [run] never spins and never stalls: each of its sleeps is
    between 30 ms and a second long, whatever fails and however long it took;
    after k errors in a row that came within a second each, the next wait is
    the smaller of a second and 30 ms doubled k times. *)
Theorem run_backoff (ts quick : list turn) :
  Forall (λ u, t_active u ∧ t_subs u ∧ ∃ e, t_failed u = Some e ∧ e ≤ MAX_ERROR_TIMEOUT) quick →
  (∀ ms, Sleep ms ∈ (run_loop HIBERNATE_TIMEOUT ts).2 → HIBERNATE_TIMEOUT ≤ ms ≤ MAX_ERROR_TIMEOUT) ∧
  (run_loop HIBERNATE_TIMEOUT quick).1 =
    Z.min MAX_ERROR_TIMEOUT (HIBERNATE_TIMEOUT * 2 ^ Z.of_nat (length quick)).
Proof.
  intros Hq. split; [|by apply run_loop_quick]. by apply run_loop_sleeps.
Qed.
Lemma run_backoff_witness :
  let ts := [mk_turn true true (Some 5); mk_turn true true None; mk_turn true true (Some 2000);
             mk_turn true false None; mk_turn false true None] in
  let quick := replicate 6 (mk_turn true true (Some 1)) in
  (∀ ms, Sleep ms ∈ (run_loop HIBERNATE_TIMEOUT ts).2 → HIBERNATE_TIMEOUT ≤ ms ≤ MAX_ERROR_TIMEOUT) ∧
  (run_loop HIBERNATE_TIMEOUT quick).1 = 1000.
Proof.
  intros ts quick. apply (run_backoff ts quick).
  apply Forall_replicate. split_and!; [done|done|]. exists 1. split; [done|]. vm_compute. discriminate.
Defined.

(** [Init], [Reset] and [Call] in an order that makes sense: a state that is
    initialised before the first call and after each reset. *)
Fixpoint brackets (opened : bool) (acts : list loop_action) : option bool :=
  match acts with
  | [] => Some opened
  | Init :: acts => if opened then None else brackets true acts
  | Reset :: acts => if opened then brackets false acts else None
  | Call :: acts => if opened then brackets true acts else None
  | (Sleep _ | Exit) :: acts => brackets opened acts
  end.
Lemma brackets_app o acts acts' : brackets o (acts ++ acts') = brackets o acts ≫= λ o', brackets o' acts'.
Proof. revert o. induction acts as [|[]]; intros o; cbn; try done; by destruct o. Qed.
Lemma repeat_loop_brackets interval may_reset ts :
  brackets may_reset (repeat_loop interval may_reset ts).2 = Some (repeat_loop interval may_reset ts).1.
Proof.
  revert may_reset. induction ts as [|[t el] ts IH]; intros m; cbn [repeat_loop]; [done|].
  unfold repeat_turn.
  destruct (t_active t), (t_subs t), m, (bool_decide (is_Some (t_failed t))), (el <? interval); cbn; try done.
  all: match goal with |- context [repeat_loop ?i ?m ?l] =>
    specialize (IH m); destruct (repeat_loop i m l) as [m' rest] end; cbn in *; done.
Qed.
