(* ===== verification/CursorService.v ===== *)
(** * The cursor service and the pointers its clients show

    [StateCursor], [run_cursor] and [new_cursor] of
    [src/src/server/input_service.rs] in the build without DRM, inside the loop
    of [repeat]; and what the viewer does with what it receives
    ([setCursorData] and [setCursorId] of [src/src/ui/remote.tis]). *)
From S2P Require Import Prelude Services.
Local Open Scope Z_scope.

Record StateCursor := mk_state {
  hcursor : Z;
  cursor_data : message;
  cached_cursor_data : gmap Z message
}.
(** An empty [Message]. *)
Definition StateCursor_default : StateCursor := mk_state 0 (OtherMessage 0) ∅.
Definition StateCursor_reset (st : StateCursor) : StateCursor := StateCursor_default.

(** Where the thread of the service is: the top of the loop of [repeat], about to
    reset the state, about to call [run_cursor]; in it, about to send a new cursor,
    to look for new subscribers, to send to them, and to make them subscribers. Each takes
    the lock of the service once. *)
Inductive place := CTop | CReset | CCall | CSend (m : message) | CSnapshot | CSwapSend | CSwapDrop | CExit.

(** [run_cursor] up to its first lock: [crate::get_cursor()] is [got], [None] an error,
    [Some None] no cursor. [data] is what [get_cursor_data] answers when it is asked, an
    error or the image, filed under the handle it was asked for. *)
Definition run_cursor (st : StateCursor) (got : option (option Z)) (data : option bytes) : StateCursor * place :=
  match got with
  | None => (st, CTop)
  | Some None => (st, CSnapshot)
  | Some (Some h) =>
      if h =? hcursor st then (st, CSnapshot)
      else
        match cached_cursor_data st !! h with
        | Some cached => (mk_state h (cursor_data st) (cached_cursor_data st), CSend cached)
        | None =>
            match data with
            | None => (st, CTop)
            | Some colors =>
                let msg := CursorData h colors in
                (mk_state h (cursor_data st) (<[h := msg]> (cached_cursor_data st)), CSend msg)
            end
        end
  end.

(** ** A viewer *)
Record screen := mk_screen { cursors : gmap Z bytes; cur : option (Z * bytes) }.
Definition show (s : screen) (m : message) : screen :=
  match m with
  | CursorData id d => mk_screen (<[id := d]> (cursors s)) (Some (id, d))
  | CursorId id =>
      match cursors s !! id with
      | Some d => mk_screen (cursors s) (Some (id, d))
      | None => s
      end
  | _ => s
  end.

(** ** The service, its loop and its viewers *)
Record world := mk_world {
  svc : ServiceInner MouseCursorSub;
  st : StateCursor;
  may_reset : bool;
  pc : place;
  screens : Z → screen
}.
#[global] Instance world_eta : Eta world := λ w, mk_world (svc w) (st w) (may_reset w) (pc w) (screens w).
Definition new_cursor : world :=
  mk_world (service_new (lit "mouse_cursor") true) StateCursor_default false CTop
    (λ _, mk_screen ∅ None).

Definition perform (w : world) (op : sop) : world :=
  mk_world (sstep (svc w) op).1 (st w) (may_reset w) (pc w)
    (λ id, foldl show (screens w id) ((sstep (svc w) op).2 id).*2).
(** A step of the thread. *)
Definition loop_step (got : option (option Z)) (data : option bytes) (w : world) : world :=
  match pc w with
  | CTop =>
      if active (svc w) then
        if has_subscribes (svc w) then w <| may_reset := true |> <| pc := CCall |>
        else if may_reset w then w <| pc := CReset |> else w
      else w <| pc := CExit |>
  | CReset => w <| st ::= StateCursor_reset |> <| may_reset := false |> <| pc := CTop |>
  | CCall => let '(s, p) := run_cursor (st w) got data in w <| st := s |> <| pc := p |>
  | CSend m =>
      let w := perform w (Send m) in
      w <| st ::= λ s, mk_state (hcursor s) m (cached_cursor_data s) |> <| pc := CSnapshot |>
  | CSnapshot => w <| pc := if bool_decide (new_subscribes (svc w) = ∅) then CTop else CSwapSend |>
  | CSwapSend => (perform w (SwapSend (cursor_data (st w)))) <| pc := CSwapDrop |>
  | CSwapDrop => (perform w SwapDrop) <| pc := CTop |>
  | CExit => w
  end.

(** A connection subscribes or unsubscribes, or the thread takes a step. *)
Inductive event := Subscribe (c : ConnInner) | Unsubscribe (id : Z) | Go (got : option (option Z)) (data : option bytes).
Definition wstep (w : world) (e : event) : world :=
  match e with
  | Subscribe c => perform w (OnSubscribe c)
  | Unsubscribe id => perform w (OnUnsubscribe id)
  | Go got data => loop_step got data w
  end.
Definition wrun : world → list event → world := foldl wstep.

Definition current (s : StateCursor) : option (Z * bytes) :=
  match cursor_data s with CursorData i d => Some (i, d) | _ => None end.
(** The connections that subscribed after the cursor was sent to the new subscribers and
    before they were made subscribers, and that no new cursor has been sent since. *)
Definition late_step (wl : world * gset Z) (e : event) : world * gset Z :=
  (wstep wl.1 e,
   match e, pc wl.1 with
   | Subscribe c, CSwapDrop => {[conn_id c]} ∪ wl.2
   | Unsubscribe id, _ => wl.2 ∖ {[id]}
   | Go _ _, CSend _ => ∅
   | _, _ => wl.2
   end).
Definition late (es : list event) : gset Z := (foldl late_step (new_cursor, ∅) es).2.

(** ** The invariant *)
(** What the service thinks a viewer has cached, it has. *)
Definition sub_ok (s : StateCursor) (scr : screen) (t : MouseCursorSub) : Prop :=
  ∀ i m, cached t !! i = Some m →
    m = CursorId i ∧
    ∃ d, cached_cursor_data s !! i = Some (CursorData i d) ∧ cursors scr !! i = Some d.
Definition shows (s : StateCursor) (scr : screen) (is_late : Prop) (t : MouseCursorSub) : Prop :=
  tx (inner t) = true → sub_ok s scr t ∧ (current s ≠ None → cur scr = current s ∨ is_late).
Definition phase_ok (s : StateCursor) (p : place) (scr : screen) (is_late : Prop) (ph : phase MouseCursorSub) : Prop :=
  match ph with
  | Out => True
  | Waiting t => match p with CSwapDrop => shows s scr is_late t | _ => cached t = ∅ end
  | In t => p ≠ CReset ∧ shows s scr is_late t
  end.
Record state_ok (s : StateCursor) (p : place) : Prop := {
  st_cached : ∀ i m, cached_cursor_data s !! i = Some m → ∃ d, m = CursorData i d;
  st_data : cursor_data s = OtherMessage 0
    ∨ ∃ i d, cursor_data s = CursorData i d ∧ cached_cursor_data s !! i = Some (cursor_data s);
  st_cursor : match p with
    | CSend m => ∃ d, m = CursorData (hcursor s) d ∧ cached_cursor_data s !! hcursor s = Some m
    | _ => (cursor_data s = OtherMessage 0 ∧ hcursor s = 0) ∨ ∃ d, cursor_data s = CursorData (hcursor s) d
    end
}.
Record world_ok (w : world) (l : gset Z) : Prop := {
  ok_svc : service_wf true (svc w);
  ok_active : active (svc w) = true ∧ pc w ≠ CExit;
  ok_st : state_ok (st w) (pc w);
  ok_phase : ∀ id, phase_ok (st w) (pc w) (screens w id) (id ∈ l) (phase_of (svc w) id)
}.

Lemma sub_ok_send s scr t h d : tx (inner t) = true →
  sub_ok s scr t → cached_cursor_data s !! h = Some (CursorData h d) →
  let '(t', out) := sub_send t (CursorData h d) in
  let scr' := foldl show scr out.*2 in
  tx (inner t') = true ∧ sub_ok s scr' t' ∧ cur scr' = Some (h, d).
Proof.
  intros Htx Hok Hh. cbn. unfold conn_send.
  destruct (cached t !! h) as [m|] eqn:Hc.
  - destruct (Hok h m Hc) as (-> & d' & Hd' & Hs). rewrite Hh in Hd'; simplify_eq.
    cbn. rewrite Htx; cbn. rewrite Hs. split_and!; [done| |done].
    intros i m Hi. destruct (Hok i m Hi) as (-> & e & He & Hse). eauto.
  - cbn. rewrite Htx; cbn. split_and!; [done| |done].
    intros i m Hi. cbn in Hi. apply lookup_insert_Some in Hi as [[<- <-]|[Hne Hi]]; cbn.
    + split; [done|]. exists d. by rewrite lookup_insert_eq.
    + destruct (Hok i m Hi) as (-> & e & He & Hse). split; [done|].
      exists e. by rewrite lookup_insert_ne.
Qed.

Lemma tx_send t m : tx (inner (sub_send t m).1) = tx (inner t).
Proof. destruct m; cbn; try done. by case_match. Qed.
Lemma sub_ok_grow s s' scr t :
  cached_cursor_data s ⊆ cached_cursor_data s' → sub_ok s scr t → sub_ok s' scr t.
Proof.
  intros Hs Hok i m Hi. destruct (Hok i m Hi) as (-> & d & Hd & ?).
  split; [done|]. exists d. split; [by eapply lookup_weaken|done].
Qed.


Lemma no_cache_ok s scr t : cached t = ∅ → sub_ok s scr t.
Proof. intros Hc i m. rewrite Hc. intros []%lookup_empty_Some. Qed.
Lemma perform_phase w op id : service_wf true (svc w) →
  service_wf true (svc (perform w op)) ∧
  let '(p, out) := spec_step true id (phase_of (svc w) id) op in
  phase_of (svc (perform w op)) id = p ∧ screens (perform w op) id = foldl show (screens w id) out.*2.
Proof. intros Hwf. split; [by apply sstep_wf|]. by rewrite (sstep_phase true). Qed.
Lemma sstep_active (s : ServiceInner MouseCursorSub) op : op ≠ Join → active (sstep s op).1 = active s.
Proof. intros Hop. destruct op; cbn; try done; unfold on_subscribe, on_unsubscribe; by repeat case_match. Qed.
Lemma no_subscribes (sv : ServiceInner MouseCursorSub) id :
  has_subscribes sv = false → phase_of sv id = Out.
Proof.
  unfold has_subscribes, phase_of. intros [H1 H2]%orb_false_iff.
  apply bool_decide_eq_false, dec_stable in H1, H2. by rewrite H1, H2.
Qed.

(** ** Every step keeps it *)
Lemma perform_ok w l l' op s p : world_ok w l → op ≠ Join → p ≠ CExit → state_ok s p →
  (∀ id, phase_ok (st w) (pc w) (screens w id) (id ∈ l) (phase_of (svc w) id) →
    let '(ph, out) := spec_step true id (phase_of (svc w) id) op in
    phase_ok s p (foldl show (screens w id) out.*2) (id ∈ l') ph) →
  world_ok ((perform w op) <| st := s |> <| pc := p |>) l'.
Proof.
  intros [Hwf [Ha _] Hst Hph] Hop Hp Hs Hall. split; cbn [svc st pc screens perform].
  - by apply (perform_phase w op 0 Hwf).
  - split; [|done]. by rewrite <- Ha, <- (sstep_active (svc w) op).
  - exact Hs.
  - intros id. specialize (Hall id (Hph id)). destruct (perform_phase w op id Hwf) as [_ Heq].
    destruct (spec_step true id (phase_of (svc w) id) op) as [ph out]. destruct Heq as [Hp' Hscr].
    change (phase_ok s p (screens (perform w op) id) (id ∈ l') (phase_of (svc (perform w op)) id)). by rewrite Hp', Hscr.
Qed.
Lemma subscribe_ok w l c : world_ok w l →
  world_ok (perform w (OnSubscribe c)) (match pc w with CSwapDrop => {[conn_id c]} ∪ l | _ => l end).
Proof.
  intros Hw. set (l' := match pc w with CSwapDrop => {[conn_id c]} ∪ l | _ => l end).
  assert (∀ id, id ∈ l → id ∈ l') as Hl by (intros; subst l'; destruct (pc w); set_solver).
  apply (perform_ok w l l' (OnSubscribe c) (st w) (pc w)); [done|done|apply Hw|apply Hw|]. intros id Hp. cbn.
  assert (∀ scr t, shows (st w) scr (id ∈ l) t → shows (st w) scr (id ∈ l') t) as Hsh.
  { intros scr t Ht Htx. destruct (Ht Htx) as [? Hc]. split; [done|]. intros Hcu. destruct (Hc Hcu); auto. }
  assert (phase_ok (st w) (pc w) (screens w id) (id ∈ l') (phase_of (svc w) id)) as Hsame.
  { destruct (phase_of (svc w) id) as [|t|t]; cbn in Hp |- *; [done|destruct (pc w); auto|split; [by apply Hp|by apply Hsh, Hp]]. }
  destruct (Z.eqb_spec (conn_id c) id) as [<-|]; [|exact Hsame].
  assert (phase_ok (st w) (pc w) (screens w (conn_id c)) (conn_id c ∈ l') (Waiting (mk_cursor c ∅))) as Hnew.
  { cbn. subst l'. destruct (pc w); try done. intros _. split; [by apply no_cache_ok|]. intros _. right. set_solver. }
  by destruct (phase_of (svc w) (conn_id c)).
Qed.
Lemma unsubscribe_ok w l i : world_ok w l → world_ok (perform w (OnUnsubscribe i)) (l ∖ {[i]}).
Proof.
  intros Hw. apply (perform_ok w l _ (OnUnsubscribe i) (st w) (pc w)); [done|done|apply Hw|apply Hw|]. intros id Hp. cbn.
  destruct (Z.eqb_spec i id) as [->|Hne]; [done|].
  assert (∀ scr t, shows (st w) scr (id ∈ l) t → shows (st w) scr (id ∈ l ∖ {[i]}) t) as Hsh.
  { intros scr t Ht Htx. destruct (Ht Htx) as [? Hc]. split; [done|]. intros Hcu. destruct (Hc Hcu); [auto|right; set_solver]. }
  destruct (phase_of (svc w) id) as [|t|t]; cbn in Hp |- *; [done|destruct (pc w); auto|split; [by apply Hp|by apply Hsh, Hp]].
Qed.
(** A new cursor reaches those who are in, and does no harm to those who wait. *)
Lemma cursor_send_ok w l m : world_ok w l → pc w = CSend m →
  world_ok ((perform w (Send m)) <| st ::= λ s, mk_state (hcursor s) m (cached_cursor_data s) |> <| pc := CSnapshot |>) ∅.
Proof.
  intros Hw Hpc. destruct (ok_st w l Hw) as [Hall Hd Hc]. rewrite Hpc in Hc. destruct Hc as (d & -> & Hk).
  apply (perform_ok w l ∅ _ (mk_state (hcursor (st w)) (CursorData (hcursor (st w)) d) (cached_cursor_data (st w))) CSnapshot); [done..| |].
  { split; cbn; [done|right; by exists (hcursor (st w)), d|right; by exists d]. }
  intros id Hp. destruct (phase_of (svc w) id) as [|t|t]; cbn -[sub_send]; [done|by rewrite Hpc in Hp|].
  split; [done|]. intros Htx. rewrite tx_send in Htx. destruct Hp as [_ Hp]. destruct (Hp Htx) as [Hok _].
  pose proof (sub_ok_send (st w) (screens w id) t _ d Htx Hok Hk) as Hsend.
  destruct (sub_send t _) as [t' out]. cbn in *. destruct Hsend as (_ & ? & Hcur). split; [done|]. intros _. by left.
Qed.
(** Those who wait are sent the cursor, and then made subscribers. *)
Lemma swap_send_ok w l : world_ok w l → pc w = CSwapSend →
  world_ok ((perform w (SwapSend (cursor_data (st w)))) <| pc := CSwapDrop |>) l.
Proof.
  intros Hw Hpc. pose proof (ok_st w l Hw) as Hst. rewrite Hpc in Hst. destruct Hst as [Hall Hd Hc].
  apply (perform_ok w l l _ (st w) CSwapDrop); [done..| |]; [by split|].
  intros id Hp. rewrite Hpc in Hp. destruct (phase_of (svc w) id) as [|t|t]; cbn -[sub_send] in *; [done| |split; [done|apply Hp]].
  intros Htx. rewrite tx_send in Htx. destruct Hd as [Hd|(i & d & Hd & Hk)]; rewrite Hd in *.
  - unfold current. rewrite Hd. cbn. unfold conn_send. cbn. rewrite Htx. cbn. split; [by apply no_cache_ok|done].
  - pose proof (sub_ok_send (st w) (screens w id) t i d Htx (no_cache_ok _ _ t Hp) Hk) as Hsend.
    destruct (sub_send t _) as [t' out]. cbn in *. destruct Hsend as (_ & ? & Hcur). split; [done|]. intros _.
    left. unfold current. by rewrite Hd.
Qed.
Lemma swap_drop_ok w l : world_ok w l → pc w = CSwapDrop → world_ok ((perform w SwapDrop) <| pc := CTop |>) l.
Proof.
  intros Hw Hpc. pose proof (ok_st w l Hw) as Hst. rewrite Hpc in Hst. destruct Hst as [Hall Hd Hc].
  apply (perform_ok w l l _ (st w) CTop); [done..| |]; [by split|].
  intros id Hp. rewrite Hpc in Hp. destruct (phase_of (svc w) id) as [|t|t]; cbn in *; [done|by split|split; [done|apply Hp]].
Qed.
(** A step that does not touch the service. *)
Lemma quiet_ok w l s b p : world_ok w l → pc w ≠ CSwapDrop → p ≠ CSwapDrop → p ≠ CExit → state_ok s p →
  (∀ id scr t, phase_of (svc w) id = In t → shows (st w) scr (id ∈ l) t → p ≠ CReset ∧ shows s scr (id ∈ l) t) →
  world_ok (mk_world (svc w) s b p (screens w)) l.
Proof.
  intros [Hwf [Ha _] Hst Hph] H1 H2 Hx Hs Hin. split; cbn; [done|done|done|]. intros id. specialize (Hph id).
  destruct (phase_of (svc w) id) as [|t|t] eqn:Ht; cbn in *; [done|by destruct (pc w), p|]. by apply Hin, Hph.
Qed.
Lemma run_cursor_ok s got data s' p : state_ok s CCall → run_cursor s got data = (s', p) →
  state_ok s' p ∧ cursor_data s' = cursor_data s ∧ cached_cursor_data s ⊆ cached_cursor_data s' ∧ (p = CTop ∨ p = CSnapshot ∨ ∃ m, p = CSend m).
Proof.
  intros Hs. unfold run_cursor. pose proof Hs as [Hall Hd Hc].
  assert (∀ q, q = CTop ∨ q = CSnapshot → state_ok s q ∧ cursor_data s = cursor_data s
    ∧ cached_cursor_data s ⊆ cached_cursor_data s ∧ (q = CTop ∨ q = CSnapshot ∨ ∃ m, q = CSend m)) as Hq.
  { intros q Hor. split; [destruct Hor as [-> | ->]; by split|]. destruct Hor; auto. }
  destruct got as [[h|]|]; [|intros [= <- <-]; apply Hq; auto..]. destruct (h =? hcursor s); [intros [= <- <-]; apply Hq; auto|].
  destruct (cached_cursor_data s !! h) as [m|] eqn:Hm.
  - destruct (Hall h m Hm) as [d ->]. intros [= <- <-]. split; [|split; [done|split; [done|by eauto]]]. split; cbn; [done|done|by exists d].
  - destruct data as [d|]; intros [= <- <-]; [|apply Hq; auto]. split; [|split; [done|split; [by apply insert_subseteq|by eauto]]]. split; cbn.
    + intros i m [[<- <-]|[_ Hi]]%lookup_insert_Some; eauto.
    + destruct Hd as [?|(i & e & Hd & Hk)]; [by left|right]. exists i, e. split; [done|]. rewrite lookup_insert_ne; [done|congruence].
    + exists d. by rewrite lookup_insert_eq.
Qed.
Lemma loop_ok w l got data : world_ok w l →
  world_ok (loop_step got data w) (match pc w with CSend _ => ∅ | _ => l end).
Proof.
  intros Hw. pose proof (ok_st w l Hw) as Hst. unfold loop_step. destruct (pc w) as [| | |m| | | |] eqn:Hpc.
  - rewrite (proj1 (ok_active w l Hw)). destruct (has_subscribes (svc w)) eqn:Hsub; [|destruct (may_reset w); [|done]];
      (apply (quiet_ok w l); [done|by rewrite Hpc|done|done|destruct Hst; by split|]).
    + intros id scr t _ H. by split.
    + intros id scr t Ht. by rewrite no_subscribes in Ht.
  - apply (quiet_ok w l); [done|by rewrite Hpc|done|done| |].
    + split; cbn; [intros i m []%lookup_empty_Some|by left|by left].
    + intros id scr t Ht. pose proof (ok_phase w l Hw id) as Hp. rewrite Ht, Hpc in Hp. by destruct Hp.
  - destruct (run_cursor (st w) got data) as [s p] eqn:Hrun.
    destruct (run_cursor_ok _ _ _ _ _ Hst Hrun) as (Hs & Hcd & Hsub & Hp).
    apply (quiet_ok w l s (may_reset w) p); [done|by rewrite Hpc|by destruct Hp as [->|[->|[? ->]]]|by destruct Hp as [->|[->|[? ->]]]|done|].
    intros id scr t _ Hsh. split; [by destruct Hp as [->|[->|[? ->]]]|]. intros Htx. destruct (Hsh Htx) as [Hok Hc].
    split; [by eapply sub_ok_grow|]. unfold current in *. by rewrite Hcd.
  - by apply (cursor_send_ok w l).
  - case_bool_decide; (apply (quiet_ok w l); [done|by rewrite Hpc|done|done|destruct Hst; by split|]); intros; by split.
  - by apply swap_send_ok.
  - by apply swap_drop_ok.
  - by destruct (ok_active w l Hw).
Qed.
Lemma late_ok wl e : world_ok wl.1 wl.2 → world_ok (late_step wl e).1 (late_step wl e).2.
Proof.
  destruct wl as [w l]. cbn [fst snd]. intros Hw. destruct e as [c|i|got data]; [by apply subscribe_ok|by apply unsubscribe_ok|by apply loop_ok].
Qed.
Lemma late_run es : foldl late_step (new_cursor, ∅) es = (wrun new_cursor es, late es).
Proof.
  unfold late. induction es as [|e es IH] using rev_ind; [done|]. unfold wrun in *. rewrite !foldl_app. cbn [foldl]. rewrite IH. done.
Qed.
Lemma wrun_ok es : world_ok (wrun new_cursor es) (late es).
Proof.
  change (world_ok (wrun new_cursor es, late es).1 (wrun new_cursor es, late es).2). rewrite <- late_run.
  induction es as [|e es IH] using rev_ind.
  - split; [by split|done|split; [|by left|by left]|done]. intros i m H. by destruct (lookup_empty_Some (M := gmap Z) _ _ H).
  - rewrite foldl_app. by apply late_ok.
Qed.

(** ** The images come from the system *)
(** The system gave [d] for [h]. *)
Definition given (es : list event) (h : Z) (d : bytes) : Prop := Go (Some (Some h)) (Some d) ∈ es.
Lemma wrun_images es h d : cached_cursor_data (st (wrun new_cursor es)) !! h = Some (CursorData h d) → given es h d.
Proof.
  revert h d. induction es as [|e es IH] using rev_ind; intros h d.
  { intros H. by destruct (lookup_empty_Some (M := gmap Z) _ _ H). }
  unfold wrun in *. rewrite foldl_app. cbn [foldl]. set (w := foldl wstep _ es) in *. clearbody w.
  assert (cached_cursor_data (st w) !! h = Some (CursorData h d) → given (es ++ [e]) h d) as Hweak.
  { intros Hd. apply elem_of_app. left. by apply IH. }
  destruct e as [c|i|got data]; [done..|]. cbn [wstep]. unfold loop_step.
  destruct (pc w); cbn; try done.
  - destruct (active (svc w)); [|done]. destruct (has_subscribes (svc w)); [done|]. by destruct (may_reset w).
  - unfold run_cursor. destruct got as [[g|]|]; [|done..]. destruct (g =? hcursor (st w)); [done|].
    destruct (cached_cursor_data (st w) !! g); [done|]. destruct data as [d0|]; [|done]. cbn.
    intros [[<- [= <-]]|[_ Hi]]%lookup_insert_Some; [|by auto]. apply elem_of_app. right. by apply list_elem_of_singleton.
Qed.

(** ** A cursor found reaches those who have subscribed *)
Section found.
Context (h id : Z) (Hh : h ≠ 0).
(** The connection is left alone, and every call finds the cursor [h]. *)
Definition finds (e : event) : Prop :=
  match e with
  | Subscribe c => conn_id c ≠ id
  | Unsubscribe i => i ≠ id
  | Go got data => got = Some (Some h) ∧ is_Some data
  end.
Definition is_in (p : phase MouseCursorSub) : bool := match p with In _ => true | _ => false end.
(** How many steps until the connection is in and the loop holds [h]. *)
Definition rank_of (found : bool) (p : place) (inside : bool) : nat :=
  if found then
    match p with
    | CSend _ => if inside then 1 else 4
    | _ => if inside then 0 else
        match p with CSnapshot => 3 | CSwapSend => 2 | CSwapDrop => 1 | CTop => 5 | CCall => 4 | _ => 7 end
    end
  else match p with CSend _ => 10 | CSnapshot => 9 | CSwapSend => 8 | CSwapDrop => 7 | CReset => 7 | CTop => 6 | CCall => 5 | CExit => 0 end.
Definition rank (w : world) : nat := rank_of (hcursor (st w) =? h) (pc w) (is_in (phase_of (svc w) id)).
Definition here (w : world) : Prop := phase_of (svc w) id ≠ Out.

Lemma other_rank w op : service_wf true (svc w) → here w →
  (match op with OnSubscribe c => conn_id c ≠ id | OnUnsubscribe i => i ≠ id | _ => False end) →
  here (perform w op) ∧ rank (perform w op) = rank w.
Proof.
  intros Hwf Hw Hop. unfold here, rank. destruct (perform_phase w op id Hwf) as [_ Heq].
  destruct op as [c|i| | | | | | | |]; try done; cbn [spec_step] in Heq; rewrite (proj2 (Z.eqb_neq _ _) Hop) in Heq;
    destruct Heq as [-> _]; by split.
Qed.
Lemma here_subscribed w : here w → has_subscribes (svc w) = true.
Proof. intros Hw. destruct (has_subscribes (svc w)) eqn:E; [done|]. by destruct Hw; apply no_subscribes. Qed.
Lemma not_waiting (sv : ServiceInner MouseCursorSub) t : new_subscribes sv = ∅ → phase_of sv id ≠ Waiting t.
Proof. intros Hn. unfold phase_of. rewrite Hn. by destruct (subscribes sv !! id). Qed.
Lemma go_rank w l data : world_ok w l → here w → is_Some data →
  let w' := loop_step (Some (Some h)) data w in here w' ∧ (rank w' ≤ rank w - 1)%nat.
Proof.
  intros Hw Hhere [d0 ->]. unfold loop_step. pose proof (ok_svc w l Hw) as Hwf. pose proof (ok_phase w l Hw id) as Hp.
  destruct (ok_active w l Hw) as [Ha Hx]. unfold here in *.
  assert (∀ op, (match op with Send _ | SwapSend _ | SwapDrop => True | _ => False end) →
    let ph := phase_of (svc (perform w op)) id in
    ph ≠ Out ∧ is_in ph = match op with SwapDrop => true | _ => is_in (phase_of (svc w) id) end) as Hperf.
  { intros op Hop. destruct (perform_phase w op id Hwf) as [_ Heq]. cbv zeta.
    destruct op as [c|i|m|m i|m i|m i|m| |op v|]; try done; destruct (phase_of (svc w) id) as [|t|t]; try done; cbn -[sub_send perform] in Heq; by destruct Heq as [-> _]. }
  unfold rank. destruct (pc w) as [| | |m| | | |] eqn:Hpc; cbv zeta; [| | | | | | |done].
  - rewrite Ha, here_subscribed by done. split; [done|]. cbn. destruct (_ =? h), (is_in _); cbn; lia.
  - split; [done|].
    change (rank_of (0 =? h)%Z CTop (is_in (phase_of (svc w) id)) ≤ rank_of (hcursor (st w) =? h)%Z CReset (is_in (phase_of (svc w) id)) - 1)%nat.
    rewrite (proj2 (Z.eqb_neq 0 h)) by congruence. cbn.
    destruct (_ =? h); cbn; [|lia]. destruct (phase_of (svc w) id); [done|cbn; lia|by destruct Hp].
  - unfold run_cursor. destruct (Z.eqb_spec h (hcursor (st w))) as [->|Hne].
    + cbn. split; [done|]. rewrite Z.eqb_refl. destruct (is_in _); cbn; lia.
    + rewrite (proj2 (Z.eqb_neq (hcursor (st w)) h)) by congruence.
      destruct (cached_cursor_data (st w) !! h); cbn; (split; [done|]); rewrite Z.eqb_refl; destruct (is_in _); cbn; lia.
  - destruct (Hperf (Send m) I) as [H1 H2]. split; [exact H1|].
    change (rank_of (hcursor (st w) =? h)%Z CSnapshot (is_in (phase_of (svc (perform w (Send m))) id))
      ≤ rank_of (hcursor (st w) =? h)%Z (CSend m) (is_in (phase_of (svc w) id)) - 1)%nat.
    rewrite H2. destruct (_ =? h), (is_in _); cbn; lia.
  - split; [done|]. cbn. case_bool_decide as Hn; [|destruct (_ =? h), (is_in _); cbn; lia].
    destruct (phase_of (svc w) id) as [|t|t] eqn:Ht; [done|by apply not_waiting in Ht|]. cbn. destruct (_ =? h); cbn; lia.
  - destruct (Hperf (SwapSend (cursor_data (st w))) I) as [H1 H2]. split; [exact H1|].
    change (rank_of (hcursor (st w) =? h)%Z CSwapDrop (is_in (phase_of (svc (perform w (SwapSend (cursor_data (st w))))) id))
      ≤ rank_of (hcursor (st w) =? h)%Z CSwapSend (is_in (phase_of (svc w) id)) - 1)%nat.
    rewrite H2. destruct (_ =? h), (is_in _); cbn; lia.
  - destruct (Hperf SwapDrop I) as [H1 H2]. split; [exact H1|].
    change (rank_of (hcursor (st w) =? h)%Z CTop (is_in (phase_of (svc (perform w SwapDrop)) id))
      ≤ rank_of (hcursor (st w) =? h)%Z CSwapDrop (is_in (phase_of (svc w) id)) - 1)%nat.
    rewrite H2. destruct (_ =? h), (is_in _); cbn; lia.
Qed.
Definition steps_of (es : list event) : nat := length (omap (λ e, match e with Go _ _ => Some tt | _ => None end) es).
Lemma run_rank es es' : here (wrun new_cursor es) → Forall finds es' →
  let w' := wrun new_cursor (es ++ es') in here w' ∧ (rank w' ≤ rank (wrun new_cursor es) - steps_of es')%nat.
Proof.
  intros Hw. induction es' as [|e es' IH] using rev_ind; intros He; cbv zeta.
  { rewrite app_nil_r. split; [done|cbn; lia]. }
  apply Forall_app in He as [He [Hf _]%Forall_cons]. destruct (IH He) as [Hhere Hr].
  rewrite (assoc_L (++)). assert (wrun new_cursor ((es ++ es') ++ [e]) = wstep (wrun new_cursor (es ++ es')) e) as ->
    by (unfold wrun; by rewrite foldl_app).
  pose proof (wrun_ok (es ++ es')) as Hok. set (w := wrun new_cursor (es ++ es')) in *. clearbody w.
  assert (steps_of (es' ++ [e]) = steps_of es' + steps_of [e])%nat as -> by (unfold steps_of; by rewrite omap_app, length_app).
  destruct e as [c|i|got data]; cbn [wstep].
  - destruct (other_rank w (OnSubscribe c) (ok_svc w _ Hok) Hhere Hf) as [? ->]. split; [done|cbn; lia].
  - destruct (other_rank w (OnUnsubscribe i) (ok_svc w _ Hok) Hhere Hf) as [? ->]. split; [done|cbn; lia].
  - destruct Hf as [-> Hd]. destruct (go_rank w _ data Hok Hhere Hd) as [? ?]. split; [done|cbn; lia].
Qed.
Lemma rank_0 w l : world_ok w l → here w → rank w = 0%nat →
  ∃ t d, phase_of (svc w) id = In t ∧ current (st w) = Some (h, d) ∧ cached_cursor_data (st w) !! h = Some (CursorData h d).
Proof.
  intros Hw Hhere. pose proof (ok_st w l Hw) as [_ Hd Hc]. destruct (ok_active w l Hw) as [_ Hx]. unfold rank, here in *.
  destruct (Z.eqb_spec (hcursor (st w)) h) as [Hcur|]; [|by destruct (pc w)].
  destruct (phase_of (svc w) id) as [|t|t]; [done|by destruct (pc w)|]. intros Hr. exists t.
  assert ((cursor_data (st w) = OtherMessage 0 ∧ hcursor (st w) = 0) ∨ ∃ d, cursor_data (st w) = CursorData (hcursor (st w)) d) as Hc'
    by (by destruct (pc w)).
  destruct Hc' as [[_ H0]|[d Hdat]]; [congruence|]. exists d. unfold current. rewrite Hdat, Hcur in *. split_and!; [done..|].
  destruct Hd as [[=]|(i & e & [= <- <-] & Hk)]. by rewrite Hk.
Qed.
End found.

(** C31: the pointer of a viewer is the pointer of the machine. Connections subscribe and
    leave between any two locks the thread of the service takes. A viewer that is in shows
    the cursor last sent, unless it is [late]: it subscribed after the cursor was sent to the
    new subscribers and before they were made subscribers, and no new cursor was sent since. And when a
    connection has subscribed and stays, and every call from then on finds the cursor [h] and can read it, then after
    ten steps of the thread, whoever else comes and goes in between, it is in, and its viewer shows an
    image that the system gave for [h], unless it is late. *)
Theorem cursor_follows (es es' : list event) (h id : Z) :
  let w := wrun new_cursor es in
  let w' := wrun new_cursor (es ++ es') in
  (∀ id t, phase_of (svc w) id = In t → tx (inner t) = true → current (st w) ≠ None →
     cur (screens w id) = current (st w) ∨ id ∈ late es) ∧
  (h ≠ 0 → is_subed (svc w) id = true → Forall (finds h id) es' → (10 ≤ steps_of es')%nat →
     ∃ t d, phase_of (svc w') id = In t ∧ given (es ++ es') h d ∧
       (tx (inner t) = true → cur (screens w' id) = Some (h, d) ∨ id ∈ late (es ++ es'))).
Proof.
  cbv zeta. assert (∀ es id t, phase_of (svc (wrun new_cursor es)) id = In t → tx (inner t) = true → current (st (wrun new_cursor es)) ≠ None →
     cur (screens (wrun new_cursor es) id) = current (st (wrun new_cursor es)) ∨ id ∈ late es) as Hin.
  { intros es0 i t Ht Htx Hc. pose proof (ok_phase _ _ (wrun_ok es0) i) as Hp. rewrite Ht in Hp. by apply Hp. }
  split; [apply Hin|]. intros Hh Hsub Hf Hn.
  assert (here id (wrun new_cursor es)) as Hhere.
  { unfold here, is_subed, phase_of in *. by destruct (subscribes _ !! id), (new_subscribes _ !! id). }
  destruct (run_rank h id Hh es es' Hhere Hf) as [Hhere' Hr].
  assert (rank h id (wrun new_cursor es) ≤ 10)%nat by (unfold rank, rank_of; repeat case_match; lia).
  destruct (rank_0 h id Hh _ _ (wrun_ok (es ++ es')) Hhere' ltac:(lia)) as (t & d & Ht & Hc & Hk).
  exists t, d. split; [done|]. split; [by apply wrun_images|]. intros Htx. rewrite <- Hc. apply (Hin _ id t Ht Htx). by rewrite Hc.
Qed.

(** A viewer that sees two cursors, one of which the system could not read at first; another comes
    while the cursor is being sent to a third. *)
Definition sees (h : Z) (d : bytes) (n : nat) : list event := replicate n (Go (Some (Some h)) (Some d)).
Definition seen_before : list event :=
  [Subscribe (mk_conn 1 true true)] ++ sees 7 [Byte.x01] 8 ++ replicate 2 (Go (Some (Some 8)) None) ++ sees 8 [Byte.x02] 4
  ++ [Subscribe (mk_conn 2 true true)] ++ sees 8 [Byte.x02] 4.
Definition seen_after : list event :=
  sees 7 [Byte.x03] 5 ++ [Subscribe (mk_conn 3 true true); Unsubscribe 1] ++ sees 7 [Byte.x04] 5.
Lemma cursor_follows_witness :
  let w := wrun new_cursor seen_before in
  let w' := wrun new_cursor (seen_before ++ seen_after) in
  ((∀ id t, phase_of (svc w) id = In t → tx (inner t) = true → current (st w) ≠ None →
      cur (screens w id) = current (st w) ∨ id ∈ late seen_before) ∧
   ∃ t d, phase_of (svc w') 2 = In t ∧ given (seen_before ++ seen_after) 7 d ∧
     (tx (inner t) = true → cur (screens w' 2) = Some (7, d) ∨ 2 ∈ late (seen_before ++ seen_after))) ∧
  cur (screens w 1) = Some (8, [Byte.x02]) ∧ cur (screens w' 2) = Some (7, [Byte.x01]) ∧ late (seen_before ++ seen_after) = ∅.
Proof.
  intros w w'. split; [|split_and!; vm_compute; reflexivity].
  destruct (cursor_follows seen_before seen_after 7 2) as [H1 H2]. split; [exact H1|]. apply H2.
  - done.
  - vm_compute. reflexivity.
  - unfold seen_after, sees. rewrite !Forall_app, !Forall_cons, Forall_nil. split_and!; try apply Forall_replicate; cbn; first [done | split; [done|by eexists]].
  - vm_compute. lia.
Defined.
(** A viewer that comes between the two locks of a snapshot gets no cursor until it changes. *)
Example comes_too_late :
  let es := [Subscribe (mk_conn 1 true true)] ++ sees 7 [] 5 ++ [Subscribe (mk_conn 2 true true)] ++ sees 7 [] 50 in
  is_subed (svc (wrun new_cursor es)) 2 = true ∧ cur (screens (wrun new_cursor es) 2) = None ∧ 2 ∈ late es.
Proof. split_and!; vm_compute; reflexivity. Qed.
