(* ===== verification/VideoService.v ===== *)
(** * The loop of a display

    [run] of [src/src/server/video_service.rs], as on Linux: it captures a display,
    encodes what it captured, sends it to the subscribers of the service of the
    display and waits until they have fetched it. Every subscriber shares the encoder,
    so one that comes makes the loop start again with a new one. Capturing and
    encoding are answers of the environment. *)
From S2P Require Import Prelude Services.
Local Open Scope Z_scope.

(** ** State *)
Definition OPTION_REFRESH : str := lit "refresh".
Definition TIMEOUT_MILLIS : Z := 3000.
Definition repeat_encode_max : Z := 10.
Definition max_fail_times : Z := 3.

(** What the loop asks of an encoder. *)
Record Encoder := mk_encoder { latency_free : bool; is_hardware : bool }.
(** Where the loop is: out of [run]; at the head of its [while]; in [handle_one_frame]
    before [snapshot], in its callback and at the end of it ([failing]: the callback
    failed), before encoding and before sending; before [set_send]; waiting. *)
Inductive vpc := VIdle | VTurn | VSnapshot | VCallback | VSwap (failing : bool) | VEncode | VSend | VSetSend (conn_ids : gset Z) | VWait.
(** Beside the state of the code: for every frame encoded whether it is its encoder's
    first, whether the encoder at hand has encoded none, what every connection was
    sent, and who has not fetched what was sent. *)
Record video := mk_video {
  sp : ServiceInner ConnInner;
  pc : vpc;
  encoder : option Encoder;
  first_frame : bool;
  encode_fail_counter : Z;
  repeat_encode_counter : Z;
  yuv : bool;
  send_conn_ids : gset Z;
  fetched_conn_ids : gset Z;
  display_conn_ids : option (gset Z);
  notifier : list Z;
  frames : list bool;
  fresh : bool;
  inbox : Z → list delivery;
  owed : list Z
}.
#[export] Instance video_eta : Eta video := λ r,
  mk_video (sp r) (pc r) (encoder r) (first_frame r) (encode_fail_counter r) (repeat_encode_counter r) (yuv r) (send_conn_ids r)
    (fetched_conn_ids r) (display_conn_ids r) (notifier r) (frames r) (fresh r) (inbox r) (owed r).
Definition video_new (name : str) : video :=
  mk_video (service_new name true) VIdle None true 0 0 false ∅ ∅ None [] [] true (λ _, []) [].

(** An operation on the service, and what it sends. *)
Definition serve (op : sop) (s : video) : video :=
  let '(sp', out) := sstep (sp s) op in s <| sp := sp' |> <| inbox ::= λ i id, i id ++ out id |>.
Arguments serve : simpl never.
Definition serves (ops : list sop) (s : video) : video := foldl (λ s op, serve op s) s ops.

(** ** The loop *)
(** [run] returns: what it had is dropped ([Raii]). *)
Definition leave (s : video) : video :=
  s <| pc := VIdle |> <| encoder := None |> <| display_conn_ids := None |> <| fresh := true |>.
(** [try_broadcast_display_changed]: every caller then leaves if the display changed. *)
Definition broadcast_changed (changed : option N) (s : video) : video :=
  match changed with
  | Some n =>
      let s := serve (Send (SwitchDisplay n)) s in
      serves (snapshot (sp s) [SwitchDisplay n]) s
  | None => s
  end.
(** [check_privacy_mode_changed]: the others are told if it is now on ([by]). *)
Definition privacy_changed (by_conn : option Z) (changed : option N) (s : video) : video :=
  let s := match by_conn with Some id => serve (SendToOthers (OtherMessage 0) id) s | None => s end in
  leave (broadcast_changed changed s).

Inductive captured :=
| Invalid | Unconvertible | Pixels | Texture | ScreenshotSwitch | WouldBlock | CaptureError (changed : option N).
Inductive encode_result := Encoded | EncodeError (need_switch : bool).
(** What the environment answers: at [VIdle] whether a capturer and an encoder can be
    made; at [VTurn] whether a setting changed before or after the option to refresh is
    looked at, whether privacy mode or the display changed, and what was captured; at
    [VEncode] what the encoder says; at [VWait] that a wait returned, that the time is
    over, or that privacy mode changed. *)
Inductive answer :=
| Setup (e : option Encoder)
| Turn (early late : bool) (privacy : option (option Z)) (changed : option N) (c : captured)
| Go
| Encode (r : encode_result)
| Await
| TimedOut
| PrivacyChanged (by_conn : option Z) (changed : option N).

Definition start (e : Encoder) (s : video) : video :=
  let sp' := if is_option_true (sp s) OPTION_REFRESH then set_option_bool (sp s) OPTION_REFRESH false else sp s in
  s <| sp := sp' |> <| pc := VTurn |> <| encoder := Some e |> <| first_frame := true |> <| encode_fail_counter := 0 |>
    <| repeat_encode_counter := 0 |> <| yuv := false |> <| send_conn_ids := ∅ |> <| fetched_conn_ids := ∅ |> <| fresh := true |>.
Definition wait (s : video) : video := s <| pc := VWait |> <| fetched_conn_ids := ∅ |>.
Definition on_captured (c : captured) (e : Encoder) (s : video) : video :=
  match c with
  | Invalid => wait (s <| repeat_encode_counter := 0 |>)
  | Unconvertible | ScreenshotSwitch => leave s
  | Pixels => s <| repeat_encode_counter := 0 |> <| yuv := true |> <| pc := VSnapshot |>
  | Texture => s <| repeat_encode_counter := 0 |> <| pc := VSnapshot |>
  | WouldBlock =>
      if negb (latency_free e) && yuv s && (repeat_encode_counter s <? repeat_encode_max)
      then s <| repeat_encode_counter ::= λ n, n + 1 |> <| pc := VSnapshot |> else wait s
  | CaptureError changed => leave (broadcast_changed changed s)
  end.
Definition loop_turn (early late : bool) (privacy : option (option Z)) (changed : option N) (c : captured) (e : Encoder) (s : video) : video :=
  if negb (ok (sp s)) then leave s
  else if early then leave s
  else if is_option_true (sp s) OPTION_REFRESH then leave (broadcast_changed changed s)
  else if late then leave s
  else match privacy with
  | Some by_conn => privacy_changed by_conn changed s
  | None =>
      match changed with
      | Some _ => leave (broadcast_changed changed s)
      | None => on_captured c e (s <| send_conn_ids := ∅ |>)
      end
  end.
(** The rest of [handle_one_frame]. *)
Definition encode_failed (need_switch : bool) (e : Encoder) (s : video) : video :=
  let first := first_frame s in
  let s := s <| first_frame := false |> <| encode_fail_counter ::= λ n, n + 1 |> in
  let many := (first && latency_free e) || (max_fail_times <=? encode_fail_counter s) in
  let s := if many then s <| encode_fail_counter := 0 |> else s in
  if many && is_hardware e then leave s
  else if need_switch then leave s
  else s <| pc := VSetSend ∅ |>.
Definition send_frame (s : video) : video :=
  let conn_ids := send_video_frame (sp s) in
  let s := serve (Send (VideoFrame (N.of_nat (length (frames s))))) s in
  s <| frames ::= λ l, l ++ [fresh s] |> <| fresh := false |> <| owed ::= λ l, l ++ elements conn_ids |> <| pc := VSetSend conn_ids |>.
Definition set_send (conn_ids : gset Z) (s : video) : video :=
  if bool_decide (conn_ids = ∅) then s else s <| send_conn_ids := conn_ids |> <| display_conn_ids := Some conn_ids |>.
(** A turn of the wait: [try_wait_next] and the test after it. *)
Definition try_wait_next (s : video) : video :=
  if bool_decide (send_conn_ids s = ∅) then s
  else s <| fetched_conn_ids ::= λ f, f ∪ list_to_set (notifier s) |> <| notifier := [] |>.
Definition end_wait (s : video) : video := s <| display_conn_ids := None |> <| pc := VTurn |>.
Definition loop_step (a : answer) (s : video) : video :=
  match pc s, encoder s, a with
  | VIdle, _, Setup (Some e) => if active (sp s) && has_subscribes (sp s) then start e s else s
  | VTurn, Some e, Turn early late privacy changed c => loop_turn early late privacy changed c e s
  | VSnapshot, _, Go => s <| pc := if bool_decide (new_subscribes (sp s) = ∅) then VEncode else VCallback |>
  | VCallback, _, Go => s <| pc := VSwap (bool_decide (subscribes (sp s) ≠ ∅)) |>
  | VSwap failing, _, Go =>
      let s := serve SwapDrop s in if failing then leave s else s <| pc := VEncode |>
  | VEncode, Some e, Encode Encoded => s <| first_frame := false |> <| encode_fail_counter := 0 |> <| pc := VSend |>
  | VEncode, Some e, Encode (EncodeError need_switch) => encode_failed need_switch e s
  | VSend, _, Go => send_frame s
  | VSetSend conn_ids, _, Go => wait (set_send conn_ids s)
  | VWait, _, Await =>
      let s := try_wait_next s in
      if (size (send_conn_ids s) <=? size (fetched_conn_ids s))%nat then end_wait s else s
  | VWait, _, TimedOut => end_wait s
  | VWait, _, PrivacyChanged by_conn changed => privacy_changed by_conn changed s
  | _, _, _ => s
  end.

(** ** Other threads *)
Inductive event :=
| Sub (c : ConnInner)
| Unsub (id : Z)
| SetOpt (opt val : str)
| Stop
| Fetched (id : Z)                 (* [notify_video_frame_fetched] *)
| FetchedByConn (id : Z)           (* [notify_video_frame_fetched_by_conn_id] *)
| Loop (a : answer).
Fixpoint drop_one (id : Z) (l : list Z) : list Z :=
  match l with [] => [] | i :: l => if i =? id then l else i :: drop_one id l end.
Definition notify (id : Z) (s : video) : video := s <| notifier ::= λ l, l ++ [id] |> <| owed ::= drop_one id |>.
Definition vstep (ev : event) (s : video) : video :=
  match ev with
  | Sub c => serve (OnSubscribe c) s
  | Unsub id => serve (OnUnsubscribe id) s
  | SetOpt opt val => serve (SetOption opt val) s
  | Stop => serve Join s
  | Fetched id => notify id s
  | FetchedByConn id =>
      match display_conn_ids s with Some ids => if bool_decide (id ∈ ids) then notify id s else s | None => s end
  | Loop a => loop_step a s
  end.
Definition vrun (evs : list event) (s : video) : video := foldl (λ s ev, vstep ev s) s evs.

(** ** What a viewer can decode *)
Definition frame_no (d : delivery) : option nat := match d.2 with VideoFrame n => Some (N.to_nat n) | _ => None end.
Definition received (s : video) (id : Z) : list nat := omap frame_no (inbox s id).
(** A frame can be decoded if it is its encoder's first, or the one before it is the
    last the viewer was sent. *)
Definition decodable (frames : list bool) (l : list nat) : Prop :=
  ∀ i n, l !! i = Some n → frames !! n = Some true ∨ ∃ j, i = S j ∧ ∃ m, l !! j = Some m ∧ n = S m.
(** Along a run. *)
Fixpoint along (P : video → event → bool) (s : video) (evs : list event) : bool :=
  match evs with [] => true | ev :: evs => P s ev && along P (vstep ev s) evs end.
(** The callback of [snapshot] finds a viewer, or the encoder is new. *)
Definition calm (s : video) (ev : event) : bool :=
  match pc s, ev with
  | VCallback, Loop Go => bool_decide (subscribes (sp s) ≠ ∅) || fresh s
  | _, _ => true
  end.

(** *** Operations on the service *)
Definition frameless (op : sop) : Prop :=
  match op with Send (VideoFrame _) | SendTo (VideoFrame _) _ | SendToOthers (VideoFrame _) _ | SendWithout (VideoFrame _) _
    | SwapSend (VideoFrame _) => False | _ => True end.
Definition shows (s : video) (id : Z) : Prop := ∃ c, phase_of (sp s) id = In c ∧ tx_video c = true.
Lemma conn_send_frameless c m : (match m with VideoFrame _ => False | _ => True end) → omap frame_no (conn_send c m) = [].
Proof. unfold conn_send. destruct m; intros H; try done; case_match; done. Qed.
Lemma spec_frameless op id p : frameless op → omap frame_no (spec_step (T := ConnInner) true id p op).2 = [].
Proof.
  destruct op as [c|i|m|m i|m i|m i|m| |op v|]; intros Hf; cbn; try done; [repeat case_match; done|..];
    destruct p as [|t|t]; cbn; try done; try (case_match; cbn; try done); destruct m; try done; by apply conn_send_frameless.
Qed.
Lemma serve_wf op s : service_wf true (sp s) → service_wf true (sp (serve op s)).
Proof. intros Hw. unfold serve. pose proof (sstep_wf true (sp s) op Hw). by destruct (sstep (sp s) op). Qed.
Lemma serve_phase op s id : service_wf true (sp s) →
  phase_of (sp (serve op s)) id = (spec_step true id (phase_of (sp s) id) op).1
  ∧ inbox (serve op s) id = inbox s id ++ (spec_step true id (phase_of (sp s) id) op).2.
Proof.
  intros Hw. pose proof (sstep_phase true (sp s) op id Hw) as H. unfold serve. destruct (sstep (sp s) op) as [sp' out]. cbn in *.
  by rewrite H.
Qed.
Lemma serve_received op s id : service_wf true (sp s) → frameless op → received (serve op s) id = received s id.
Proof. intros Hw Hf. unfold received. destruct (serve_phase op s id Hw) as [_ ->]. by rewrite omap_app, spec_frameless, app_nil_r. Qed.
Lemma serve_rest op s : pc (serve op s) = pc s ∧ frames (serve op s) = frames s ∧ fresh (serve op s) = fresh s
  ∧ encoder (serve op s) = encoder s ∧ owed (serve op s) = owed s ∧ notifier (serve op s) = notifier s
  ∧ send_conn_ids (serve op s) = send_conn_ids s ∧ fetched_conn_ids (serve op s) = fetched_conn_ids s
  ∧ display_conn_ids (serve op s) = display_conn_ids s.
Proof. unfold serve. by destruct (sstep (sp s) op). Qed.

(** *** Every viewer can decode *)
Record base (s : video) : Prop := {
  bs_wf : service_wf true (sp s);
  bs_ok : ∀ id, decodable (frames s) (received s id)
}.
Record decodes (s : video) : Prop := {
  dc_base : base s;
  dc_fresh : pc s = VIdle ∨ pc s = VSwap false → fresh s = true;
  dc_last : ∀ id, shows s id → fresh s = true ∨ ∃ n, last (received s id) = Some n ∧ length (frames s) = S n
}.
Lemma serve_base op s : base s → frameless op → base (serve op s).
Proof.
  intros [Hw Hd] Hf. split; [by apply serve_wf|]. intros id. rewrite serve_received by done.
  destruct (serve_rest op s) as (_ & -> & _). apply Hd.
Qed.
Lemma serves_base ops s : base s → Forall frameless ops → base (serves ops s).
Proof. unfold serves. intros Hb Hf. revert s Hb. induction Hf as [|op ops Hop _ IH]; intros s Hb; [done|]. cbn. by apply IH, serve_base. Qed.
Lemma broadcast_base changed s : base s → base (broadcast_changed changed s).
Proof.
  intros Hb. destruct changed as [n|]; [|done]. cbn. apply serves_base; [by apply serve_base|].
  unfold snapshot. case_bool_decide; [done|]. repeat constructor.
Qed.
Lemma leave_decodes s : base s → decodes (leave s).
Proof. intros [Hw Hd]. split; [by split|done|]. intros. by left. Qed.
Lemma privacy_decodes by_conn changed s : base s → decodes (privacy_changed by_conn changed s).
Proof. intros Hb. apply leave_decodes, broadcast_base. destruct by_conn; [by apply serve_base|done]. Qed.
(** Only the end of a snapshot brings a viewer in. *)
Lemma spec_shows op id p c : (spec_step (T := ConnInner) true id p op).1 = In c → op = SwapDrop ∨ p = In c.
Proof. destruct op, p; cbn; repeat case_match; cbn; intros; simplify_eq; auto. Qed.
Lemma serve_decodes op s : decodes s → frameless op → (op = SwapDrop → fresh s = true) → decodes (serve op s).
Proof.
  intros [Hb Hf Hl] Hop Hsw. destruct (serve_rest op s) as (Epc & Efr & Efs & _). split; [by apply serve_base| |].
  - by rewrite Epc, Efs.
  - intros id (c & Hc & Ht). rewrite Efs, Efr, serve_received by (done || apply Hb).
    rewrite (proj1 (serve_phase op s id (bs_wf _ Hb))) in Hc. apply spec_shows in Hc as [->|Hc]; [left; by apply Hsw|].
    apply Hl. by exists c.
Qed.
(** Changes that touch neither service nor frames. *)
Lemma keep_decodes s s' : decodes s → sp s' = sp s → frames s' = frames s → inbox s' = inbox s → (fresh s = true → fresh s' = true) →
  (pc s' = VIdle ∨ pc s' = VSwap false → fresh s' = true) → decodes s'.
Proof.
  intros [[Hw Hd] Hf Hl] E1 E2 E3 Hfr Hpc. assert (∀ id, received s' id = received s id) as Er by (intros id; unfold received; by rewrite E3).
  split; [split; [by rewrite E1|]|done|]; intros id; rewrite Er, E2; [done|]. unfold shows. rewrite E1. intros Hs.
  destruct (Hl id Hs) as [?|?]; [left; by apply Hfr|by right].
Qed.
Lemma frame_received s id : service_wf true (sp s) →
  let s' := serve (Send (VideoFrame (N.of_nat (length (frames s))))) s in
  (shows s id ∧ received s' id = received s id ++ [length (frames s)]) ∨ (¬ shows s id ∧ received s' id = received s id).
Proof.
  intros Hw. destruct (serve_phase (Send (VideoFrame (N.of_nat (length (frames s))))) s id Hw) as [_ Hin].
  cbv zeta. unfold received. rewrite Hin, omap_app. unfold shows.
  destruct (phase_of (sp s) id) as [|c|c] eqn:Hph; cbn; [right; rewrite app_nil_r; split; [by intros (? & ? & _)|done]..|].
  unfold conn_send. destruct (tx_video c) eqn:Ht; cbn.
  - left. split; [by exists c|]. unfold frame_no. cbn. by rewrite Nat2N.id.
  - right. rewrite app_nil_r. split; [|done]. intros (c' & [= <-] & Ht'). congruence.
Qed.
Lemma send_frame_decodes s : decodes s → pc s = VSend → decodes (send_frame s).
Proof.
  intros [[Hw Hd] Hf Hl] Hpc. unfold send_frame. set (op := Send (VideoFrame (N.of_nat (length (frames s))))).
  pose proof (λ id, frame_received s id Hw) as Hrec. cbv zeta in Hrec. fold op in Hrec.
  destruct (serve_rest op s) as (_ & Efr & Efs & _).
  split; [split|by intros [?|?]|].
  - cbn. by apply serve_wf.
  - intros id i n. cbn [frames]. change (received (_ <| pc := _ |>) id) with (received (serve op s) id).
    change (frames (_ <| pc := _ |>)) with (frames (serve op s) ++ [fresh (serve op s)]).
    rewrite Efr, Efs. intros Hi. assert (∀ i n, received s id !! i = Some n →
      (frames s ++ [fresh s]) !! n = Some true ∨ ∃ j, i = S j ∧ ∃ m, received s id !! j = Some m ∧ n = S m) as Hold.
    { intros i' n' Hi'. destruct (Hd id i' n' Hi') as [?|?]; [left; by apply lookup_app_l_Some|by right]. }
    destruct (Hrec id) as [[Hs Er]|[_ Er]]; rewrite Er in *; [|by apply Hold].
    apply lookup_app_Some in Hi as [Hi|[Hge Hi]].
    + destruct (Hold i n Hi) as [?|(j & -> & m & Hj & ->)]; [by left|]. right. exists j. split; [done|]. exists m. split; [by apply lookup_app_l_Some|done].
    + apply list_lookup_singleton_Some in Hi as [Hi <-]. destruct (Hl id Hs) as [Hfr|(m & Hm & Hlen)].
      * left. rewrite lookup_app_r by lia. by rewrite Nat.sub_diag, Hfr.
      * right. rewrite last_lookup in Hm. assert (i = length (received s id)) as -> by lia.
        destruct (received s id) as [|x l]; [done|]. exists (length l). split; [done|]. exists m. split; [|done].
        apply lookup_app_l_Some. exact Hm.
  - intros id (c & Hc & Ht). change (received (_ <| pc := _ |>) id) with (received (serve op s) id).
    change (frames (_ <| pc := _ |>)) with (frames (serve op s) ++ [fresh (serve op s)]). rewrite length_app, Efr. cbn [length].
    cbn in Hc. destruct (serve_phase op s id Hw) as [Hph _]. unfold shows in Hrec.
    assert (phase_of (sp s) id = In c) as Hc'.
    { change (phase_of (sp (serve op s)) id = In c) in Hc. rewrite Hph in Hc. by apply spec_shows in Hc as [?|?]. }
    right. exists (length (frames s)). split; [|lia]. destruct (Hrec id) as [[_ ->]|[Hn _]]; [by rewrite last_snoc|]. destruct Hn. by exists c.
Qed.
Lemma start_decodes e s : decodes s → decodes (start e s).
Proof.
  intros [[Hw Hd] Hf Hl]. unfold start.
  assert (∀ (b : bool) opt v id, phase_of (if b then set_option_bool (sp s) opt v else sp s) id = phase_of (sp s) id) as Hph by (by intros [] ???).
  split; [split|by intros [?|?]|by left]; [|exact Hd].
  destruct Hw as [H1 H2 H3 H4 H5]. destruct (is_option_true (sp s) OPTION_REFRESH); by split.
Qed.
Lemma captured_decodes c e s : decodes s → decodes (on_captured c e s).
Proof.
  intros Hd. destruct c; cbn; try (apply leave_decodes, Hd); try (by eapply keep_decodes; [exact Hd|try done..]; intros [?|?]).
  - destruct (_ && _); by eapply keep_decodes; [exact Hd|try done..]; intros [?|?].
  - apply leave_decodes, broadcast_base, Hd.
Qed.
Lemma loop_decodes a s : decodes s → calm s (Loop a) = true → decodes (loop_step a s).
Proof.
  intros Hd Hcalm. pose proof (dc_base _ Hd) as Hb. unfold loop_step. destruct (pc s) as [| | | |failing| | |ids|] eqn:Hpc.
  - destruct a as [[e|]| | | | | |]; try done. destruct (_ && _); [by apply start_decodes|done].
  - destruct (encoder s) as [e|]; [|done]. destruct a as [|early late privacy changed c| | | | |]; try done. unfold loop_turn.
    repeat (case_match; [by first [apply leave_decodes | apply privacy_decodes]; try apply broadcast_base|]).
    destruct privacy; [by apply privacy_decodes|]. destruct changed; [by apply leave_decodes, broadcast_base|].
    apply captured_decodes. by eapply keep_decodes; [exact Hd|try done..]; apply Hd.
  - destruct a; try done. by eapply keep_decodes; [exact Hd|try done..]; case_bool_decide; intros [?|?].
  - destruct a; try done. eapply keep_decodes; [exact Hd|done..|]. cbn. intros [?|[= Hsub]]; [done|].
    unfold calm in Hcalm. by rewrite Hpc, Hsub in Hcalm.
  - destruct a; try done. assert (base (serve SwapDrop s)) by by apply serve_base.
    destruct failing; [by apply leave_decodes|]. pose proof (dc_fresh _ Hd (or_intror Hpc)) as Hfr.
    destruct (serve_rest SwapDrop s) as (_ & _ & Hfr' & _). assert (decodes (serve SwapDrop s)) as Hd' by by apply serve_decodes.
    by eapply keep_decodes; [exact Hd'|try done..]; intros [?|?].
  - destruct (encoder s) as [e|]; [|done]. destruct a as [| | |[|need_switch]| | |]; try done.
    + by eapply keep_decodes; [exact Hd|try done..]; intros [?|?].
    + assert (∀ s', sp s' = sp s → frames s' = frames s → inbox s' = inbox s → base s') as Hb'.
      { intros s' E1 E2 E3. destruct Hb as [Hw Hdd]. split; [by rewrite E1|]. intros id. unfold received. rewrite E2, E3. apply Hdd. }
      unfold encode_failed. repeat case_match; try (apply leave_decodes, Hb'; done); by eapply keep_decodes; [exact Hd|try done..]; intros [?|?].
  - destruct a; try done. by apply send_frame_decodes.
  - destruct a; try done. unfold set_send. by case_bool_decide; eapply keep_decodes; [exact Hd|try done..]; intros [?|?].
  - destruct a as [| | | | | |by_conn changed]; try done.
    + unfold try_wait_next. case_bool_decide; case_match; try done; eapply keep_decodes; try exact Hd; try done; cbn; rewrite ?Hpc; by intros [?|?].
    + by eapply keep_decodes; [exact Hd|try done..]; intros [?|?].
    + by apply privacy_decodes.
Qed.
Lemma step_decodes ev s : decodes s → calm s ev = true → decodes (vstep ev s).
Proof.
  intros Hd Hcalm. destruct ev as [c|id|opt val| |id|id|a]; cbn [vstep]; [by apply serve_decodes..| | |by apply loop_decodes].
  - by eapply keep_decodes; [exact Hd|try done..]; apply Hd.
  - repeat case_match; try done. by eapply keep_decodes; [exact Hd|try done..]; apply Hd.
Qed.
Lemma run_decodes evs s : decodes s → along calm s evs = true → decodes (vrun evs s).
Proof. revert s. induction evs as [|ev evs IH]; intros s Hd Ha; [done|]. apply andb_true_iff in Ha as [Hc Ha]. apply IH; [by apply step_decodes|done]. Qed.
Lemma new_decodes name : decodes (video_new name).
Proof.
  split; [split|done|].
  - by split.
  - by intros id i n.
  - intros id. by left.
Qed.

(** C3: every viewer can decode what it is sent. Whatever viewers come and go, in every
    interleaving with the loop of the display down to its steps, and whatever is
    captured, fails, changes or times out, each frame a viewer is sent is the first of
    its encoder or follows the frame the viewer was sent before: viewers share the
    encoder, and one that comes makes the loop begin with a new one. This is of the
    histories that are [calm]: when the callback of a snapshot looks for viewers that
    were there before, it finds one, or the encoder has not encoded a frame. In the others the loop takes
    the new viewer in without a new encoder, and the viewer is first sent a frame from
    the middle of a stream: [begins_in_the_middle]. *)
Theorem viewers_decode name evs (Hcalm : along calm (video_new name) evs = true) id :
  let s := vrun evs (video_new name) in decodable (frames s) (received s id).
Proof. apply run_decodes; [apply new_decodes|done]. Qed.
Definition software : Encoder := mk_encoder true false.
(** A whole turn that sends a frame, without anything else happening. *)
Definition a_frame : list event := Loop <$> [Turn false false None None Pixels; Go; Encode Encoded; Go; Go].
Definition viewer (id : Z) : ConnInner := mk_conn id true true.
Definition two_viewers : list event :=
  [Sub (viewer 1); Loop (Setup (Some software)); Loop (Turn false false None None Pixels); Loop Go; Loop Go; Loop Go;
   Loop (Encode Encoded); Loop Go; Loop Go; Fetched 1; Loop Await]
  ++ a_frame ++ [Sub (viewer 2); Fetched 1; Loop Await]
  ++ (Loop <$> [Turn false false None None Pixels; Go; Go; Go; Setup (Some software)])
  ++ a_frame ++ [Fetched 1; Fetched 2; Loop Await] ++ a_frame.
Lemma viewers_decode_witness :
  along calm (video_new (lit "monitor0")) two_viewers = true ∧
  let s := vrun two_viewers (video_new (lit "monitor0")) in
  frames s = [true; false; true; false] ∧ received s 1 = [0; 1; 2; 3]%nat ∧ received s 2 = [2; 3]%nat
  ∧ decodable (frames s) (received s 2).
Proof.
  assert (along calm (video_new (lit "monitor0")) two_viewers = true) as H by (vm_compute; reflexivity).
  split; [exact H|]. cbv zeta. split; [vm_compute; reflexivity|]. split; [vm_compute; reflexivity|]. split; [vm_compute; reflexivity|].
  exact (viewers_decode (lit "monitor0") two_viewers H 2).
Defined.
(** Without it: the only viewer leaves and another comes between two turns. The loop
    goes on, and the second viewer begins in the middle of the stream. *)
Example begins_in_the_middle :
  let s := vrun ([Sub (viewer 1); Loop (Setup (Some software)); Loop (Turn false false None None Pixels); Loop Go; Loop Go; Loop Go;
      Loop (Encode Encoded); Loop Go; Loop Go; Fetched 1; Loop Await; Unsub 1; Sub (viewer 2)]
    ++ (Loop <$> [Turn false false None None Pixels; Go; Go; Go; Encode Encoded; Go])) (video_new (lit "monitor0")) in
  frames s = [true; false] ∧ received s 2 = [1%nat].
Proof. split; vm_compute; reflexivity. Qed.

(** *** One frame at a time *)
(** A viewer tells of a frame once, and not before the loop knows whom it sent it to;
    no wait is given up. *)
Definition prompt (s : video) (ev : event) : bool :=
  match ev, pc s with
  | Fetched id, _ => bool_decide (id ∈ owed s)
  | FetchedByConn id, VWait => bool_decide (id ∈ owed s)
  | FetchedByConn id, _ => false
  | Loop TimedOut, VWait | Loop (PrivacyChanged _ _), VWait => false
  | _, _ => true
  end.
Record paced (s : video) : Prop := {
  pd_sent : match pc s with
    | VSetSend ids => owed s ++ notifier s ≡ₚ elements ids
    | VWait => owed s ++ notifier s ++ elements (fetched_conn_ids s) ≡ₚ elements (send_conn_ids s)
    | _ => owed s = [] ∧ notifier s = []
    end;
  pd_none : match pc s with VIdle | VTurn | VWait => True | _ => send_conn_ids s = ∅ end
}.
Lemma drop_one_perm id l : id ∈ l → l ≡ₚ id :: drop_one id l.
Proof.
  induction l as [|i l IH]; intros Hin; [by apply elem_of_nil in Hin|]. cbn. destruct (Z.eqb_spec i id) as [->|Hne]; [done|].
  apply elem_of_cons in Hin as [?|Hin]; [congruence|]. rewrite (IH Hin) at 1. apply Permutation_swap.
Qed.
(** Changes that touch nothing of this. *)
Lemma keep_paced s s' : paced s → pc s' = pc s → owed s' = owed s → notifier s' = notifier s → fetched_conn_ids s' = fetched_conn_ids s →
  send_conn_ids s' = send_conn_ids s → paced s'.
Proof. intros [H1 H2] E1 E2 E3 E4 E5. split; rewrite E1, ?E2, ?E3, ?E4, ?E5; done. Qed.
Lemma serve_paced op s : paced s → paced (serve op s).
Proof. intros Hp. destruct (serve_rest op s) as (E1 & _ & _ & _ & E2 & E3 & E4 & E5 & _). by eapply keep_paced. Qed.
Lemma serves_paced ops s : paced s → paced (serves ops s).
Proof. unfold serves. revert s. induction ops as [|op ops IH]; intros s Hp; [done|]. cbn. by apply IH, serve_paced. Qed.
Definition settled (s : video) : Prop := owed s = [] ∧ notifier s = [].
Lemma settled_serve op s : settled s → settled (serve op s).
Proof. destruct (serve_rest op s) as (_ & _ & _ & _ & E2 & E3 & _). unfold settled. by rewrite E2, E3. Qed.
Lemma settled_broadcast changed s : settled s → settled (broadcast_changed changed s).
Proof.
  intros Hs. destruct changed as [n|]; [|done]. unfold broadcast_changed, serves. set (s1 := serve _ s). assert (settled s1) as H1 by by apply settled_serve.
  clearbody s1. generalize (snapshot (sp s1) [SwitchDisplay n]) as ops. intros ops. revert s1 H1.
  induction ops as [|op ops IH]; intros s1 H1; [done|]. cbn. by apply IH, settled_serve.
Qed.
Lemma settled_leave s : settled s → paced (leave s).
Proof. by split. Qed.
Lemma settled_privacy by_conn changed s : settled s → paced (privacy_changed by_conn changed s).
Proof. intros Hs. apply settled_leave, settled_broadcast. destruct by_conn; [by apply settled_serve|done]. Qed.
Lemma settled_wait s : settled s → send_conn_ids s = ∅ → paced (wait s).
Proof. intros [E1 E2] E3. split; cbn; [|done]. by rewrite E1, E2, E3, elements_empty. Qed.
Lemma captured_paced c e s : settled s → send_conn_ids s = ∅ → paced (on_captured c e s).
Proof.
  intros Hs Hn. destruct c; cbn; try (by apply settled_leave); try (by split); [by apply settled_wait| |by apply settled_leave, settled_broadcast].
  destruct (_ && _); [by split|by apply settled_wait].
Qed.
Lemma encode_failed_paced need_switch e s : settled s → send_conn_ids s = ∅ → paced (encode_failed need_switch e s).
Proof. intros [E1 E2] E3. unfold encode_failed. repeat case_match; split; cbn; try done; by rewrite E1, E2, elements_empty. Qed.
Lemma try_wait_paced s : paced s → pc s = VWait → paced (try_wait_next s).
Proof.
  intros [H1 H2] Hpc. unfold try_wait_next. case_bool_decide as He; [by split|]. split; cbn; rewrite Hpc in *; [|done].
  etrans; [|exact H1]. apply Permutation_app_head. rewrite (Permutation_app_comm (notifier s)).
  assert (NoDup (elements (fetched_conn_ids s) ++ notifier s)) as Hnd.
  { assert (NoDup (elements (send_conn_ids s))) as Hn by apply NoDup_elements. rewrite <- H1, Permutation_app_comm in Hn.
    apply NoDup_app in Hn as (Hn & _ & _). by rewrite Permutation_app_comm. }
  apply NoDup_Permutation; [apply NoDup_elements|done|]. intros x. rewrite elem_of_elements, elem_of_union, elem_of_list_to_set, elem_of_app, elem_of_elements. done.
Qed.
Lemma paced_size s : paced s → pc s = VWait →
  (size (send_conn_ids (try_wait_next s)) <=? size (fetched_conn_ids (try_wait_next s)))%nat = true ↔ owed s = [].
Proof.
  intros Hp Hpc. assert (owed (try_wait_next s) = owed s ∧ pc (try_wait_next s) = VWait ∧ (notifier (try_wait_next s) = [] ∨ send_conn_ids s = ∅)) as (Eo & Epc & En).
  { unfold try_wait_next. case_bool_decide; cbn; rewrite ?Hpc; auto. }
  pose proof (try_wait_paced s Hp Hpc) as [H1 _]. rewrite Epc in H1. apply Permutation_length in H1. rewrite !length_app in H1.
  rewrite Nat.leb_le. unfold size, set_size. cbn. rewrite Eo in H1. destruct En as [En|En].
  - rewrite En in H1. cbn in H1. destruct (owed s); cbn in *; split; intros; lia || done.
  - assert (send_conn_ids (try_wait_next s) = ∅) as E0 by (unfold try_wait_next; case_bool_decide; done).
    rewrite E0, elements_empty in *. cbn in *. destruct (owed s); cbn in *; split; intros; lia || done.
Qed.
Lemma send_frame_paced s : settled s → send_conn_ids s = ∅ → paced (send_frame s).
Proof.
  intros [E1 E2] E3. unfold send_frame. destruct (serve_rest (Send (VideoFrame (N.of_nat (length (frames s))))) s) as (_ & _ & _ & _ & Eo & En & Es & _).
  split; cbn; [|by rewrite Es]. by rewrite Eo, En, E1, E2, app_nil_r.
Qed.
Lemma loop_paced a s : paced s → prompt s (Loop a) = true → paced (loop_step a s).
Proof.
  intros Hp Hpr. pose proof Hp as [H1 H2]. unfold loop_step. destruct (pc s) as [| | | |failing| | |ids|] eqn:Hpc.
  - destruct a as [[e|]| | | | | |]; try done. destruct (_ && _); [by split|done].
  - destruct (encoder s) as [e|]; [|done]. destruct a as [|early late privacy changed c| | | | |]; try done. unfold loop_turn.
    repeat (case_match; [by first [apply settled_leave | apply settled_privacy]; try apply settled_broadcast|]).
    destruct privacy; [by apply settled_privacy|]. destruct changed; [by apply settled_leave, settled_broadcast|]. by apply captured_paced.
  - destruct a; try done. by case_bool_decide; split.
  - destruct a; try done.
  - destruct a; try done. destruct (serve_rest SwapDrop s) as (E1 & _ & _ & _ & E2 & E3 & E4 & _).
    destruct failing; [by apply settled_leave, settled_serve|]. split; cbn; [by apply settled_serve|by rewrite E4].
  - destruct (encoder s) as [e|]; [|done]. destruct a as [| | |[|need_switch]| | |]; try done. by apply encode_failed_paced.
  - destruct a; try done. by apply send_frame_paced.
  - destruct a; try done. unfold set_send. case_bool_decide as He; split; cbn; try done; rewrite elements_empty, app_nil_r; [by rewrite H2, H1, He|done].
  - destruct a as [| | | | | |by_conn changed]; try done; [|by unfold prompt in Hpr; rewrite Hpc in Hpr..].
    pose proof (paced_size s Hp Hpc) as Hsz. pose proof (try_wait_paced s Hp Hpc) as Hp'. destruct (_ <=? _)%nat; [|done].
    destruct Hsz as [Hsz _]. specialize (Hsz eq_refl). split; [|done]. cbn. split; [unfold try_wait_next; by case_bool_decide|].
    unfold try_wait_next. case_bool_decide as He; [|done]. rewrite Hsz, He, elements_empty in H1. cbn in H1.
    symmetry in H1. by apply Permutation_nil, app_nil in H1 as [? _].
Qed.
Lemma notify_paced id s : paced s → id ∈ owed s → paced (notify id s).
Proof.
  intros [H1 H2] Hin. pose proof (drop_one_perm id (owed s) Hin) as Hd. split; cbn; [|done].
  assert (∀ k, drop_one id (owed s) ++ (notifier s ++ [id]) ++ k ≡ₚ owed s ++ notifier s ++ k) as Hk.
  { intros k. etrans; [|apply Permutation_app_tail; symmetry; exact Hd]. rewrite <- app_assoc. cbn. rewrite !app_assoc. symmetry. apply Permutation_middle. }
  destruct (pc s); try (by rewrite (proj1 H1) in Hin; apply elem_of_nil in Hin).
  - specialize (Hk []). rewrite !app_nil_r in Hk. by rewrite Hk.
  - by rewrite Hk.
Qed.
Lemma step_paced ev s : paced s → prompt s ev = true → paced (vstep ev s).
Proof.
  intros Hp Hpr. destruct ev as [c|id|opt val| |id|id|a]; cbn [vstep]; [by apply serve_paced..| | |by apply loop_paced].
  - apply notify_paced; [done|]. by apply bool_decide_eq_true in Hpr.
  - unfold prompt in Hpr. destruct (pc s) eqn:Hpc; try done. apply bool_decide_eq_true in Hpr. repeat case_match; try done. by apply notify_paced.
Qed.
Lemma run_paced evs s : paced s → along prompt s evs = true → paced (vrun evs s).
Proof.
  revert s. induction evs as [|ev evs IH]; intros s Hp Ha; [done|]. apply andb_true_iff in Ha as [Hc Ha]. apply IH; [by apply step_paced|done].
Qed.

(** C22: no viewer ever has more than one frame under way, and the loop goes on as soon
    as nobody has. This is of the histories that are [prompt]: no wait is given up, by its time-out or for privacy, and
    a viewer tells only of a frame it was sent, once each, when the loop already
    waits (an answer names the viewer, not the frame: [late_answer_counts]). In every
    interleaving of the loop with viewers that come, go and answer so: nobody owes more
    than one frame; at the head of the loop, and whenever it is out of [run], nobody owes any; and a turn of
    the wait ends it exactly when nobody owes any. *)
Theorem one_frame_under_way name evs (Hprompt : along prompt (video_new name) evs = true) :
  let s := vrun evs (video_new name) in
  NoDup (owed s)
  ∧ (pc s = VTurn ∨ pc s = VIdle → owed s = [])
  ∧ (pc s = VWait → (pc (vstep (Loop Await) s) = VTurn ↔ owed s = [])).
Proof.
  intros s. assert (paced s) as Hp by (by apply run_paced; [split|]). clearbody s. pose proof Hp as [H1 _]. split_and!.
  - assert (∀ l k (X : gset Z), l ++ k ≡ₚ elements X → NoDup l) as Hnd.
    { intros l k X Hl. assert (NoDup (elements X)) as Hx by apply NoDup_elements. rewrite <- Hl in Hx. by apply NoDup_app in Hx as [? _]. }
    destruct (pc s); try (rewrite (proj1 H1); constructor); by eapply Hnd.
  - intros [Hpc|Hpc]; rewrite Hpc in H1; apply H1.
  - intros Hpc. rewrite <- (paced_size s Hp Hpc). cbn [vstep]. unfold loop_step. rewrite Hpc.
    assert (pc (try_wait_next s) = VWait) as Epc by (unfold try_wait_next; by case_bool_decide).
    destruct (_ <=? _)%nat; [done|]. rewrite Epc. split; done.
Qed.
Lemma one_frame_under_way_witness :
  along prompt (video_new (lit "monitor0")) two_viewers = true ∧
  let s := vrun two_viewers (video_new (lit "monitor0")) in
  pc s = VWait ∧ owed s = [2; 1] ∧ NoDup (owed s) ∧ pc (vstep (Loop Await) s) = VWait
  ∧ (pc (vstep (Loop Await) s) = VTurn ↔ owed s = []).
Proof.
  assert (along prompt (video_new (lit "monitor0")) two_viewers = true) as H by (vm_compute; reflexivity).
  destruct (one_frame_under_way (lit "monitor0") two_viewers H) as (H1 & _ & H2). split; [exact H|]. cbv zeta.
  split; [vm_compute; reflexivity|]. split; [vm_compute; reflexivity|]. split; [exact H1|]. split; [vm_compute; reflexivity|].
  apply H2. vm_compute. reflexivity.
Defined.
(** Once a wait was given up, what a viewer tells late counts for the next frame: here
    viewer 1 has fetched one frame of two, and the loop goes on to the third. *)
Example late_answer_counts :
  let s := vrun ([Sub (viewer 1); Loop (Setup (Some software)); Loop (Turn false false None None Pixels); Loop Go; Loop Go; Loop Go;
      Loop (Encode Encoded); Loop Go; Loop Go; Loop TimedOut; Fetched 1] ++ a_frame ++ [Loop Await]) (video_new (lit "monitor0")) in
  received s 1 = [0; 1]%nat ∧ owed s = [1] ∧ pc s = VTurn.
Proof. split_and!; vm_compute; reflexivity. Qed.

(** *** A viewer that comes *)
Lemma serves_wf ops s : service_wf true (sp s) → service_wf true (sp (serves ops s)).
Proof. unfold serves. revert s. induction ops as [|op ops IH]; intros s Hw; [done|]. cbn. by apply IH, serve_wf. Qed.
Lemma broadcast_wf changed s : service_wf true (sp s) → service_wf true (sp (broadcast_changed changed s)).
Proof. intros Hw. destruct changed; [|done]. by apply serves_wf, serve_wf. Qed.
Lemma privacy_wf by_conn changed s : service_wf true (sp s) → service_wf true (sp (privacy_changed by_conn changed s)).
Proof. intros Hw. apply broadcast_wf. destruct by_conn; [by apply serve_wf|done]. Qed.
Lemma captured_wf c e s : service_wf true (sp s) → service_wf true (sp (on_captured c e s)).
Proof. intros Hw. destruct c; cbn; try done; [by case_match|by apply broadcast_wf]. Qed.
Lemma loop_wf a s : service_wf true (sp s) → service_wf true (sp (loop_step a s)).
Proof.
  intros Hw. unfold loop_step. destruct (pc s) as [| | | |failing| | |ids|].
  - destruct a as [[e|]| | | | | |]; try done. case_match; [|done]. destruct Hw. unfold start. cbn. by case_match; split.
  - destruct (encoder s) as [e|]; [|done]. destruct a as [|early late privacy changed c| | | | |]; try done. unfold loop_turn.
    destruct (negb _); [exact Hw|]. destruct early; [exact Hw|]. destruct (is_option_true _ _); [by apply (broadcast_wf changed s)|].
    destruct late; [exact Hw|]. destruct privacy; [by apply privacy_wf|]. destruct changed as [n|]; [by apply (broadcast_wf (Some n) s)|].
    by apply captured_wf.
  - by destruct a.
  - by destruct a.
  - destruct a; try done. by destruct failing; apply (serve_wf SwapDrop).
  - destruct (encoder s) as [e|]; [|done]. destruct a as [| | |[|need_switch]| | |]; try done. unfold encode_failed. by repeat case_match.
  - destruct a; try done. by apply (serve_wf (Send _)).
  - destruct a; try done. unfold set_send. by case_match.
  - destruct a; try done; [|by apply privacy_wf]. unfold try_wait_next. by repeat case_match.
Qed.
Lemma run_wf evs name : service_wf true (sp (vrun evs (video_new name))).
Proof.
  assert (∀ s, service_wf true (sp s) → service_wf true (sp (vrun evs s))) as H; [|apply H, (bs_wf _ (dc_base _ (new_decodes name)))].
  induction evs as [|ev evs IH]; intros s Hw; [done|]. apply IH. destruct ev; cbn [vstep]; try (by apply serve_wf); [done| |by apply loop_wf].
  by repeat case_match.
Qed.
Lemma refresh_cleared (sp0 : ServiceInner ConnInner) :
  is_option_true (if is_option_true sp0 OPTION_REFRESH then set_option_bool sp0 OPTION_REFRESH false else sp0) OPTION_REFRESH = false.
Proof.
  destruct (is_option_true sp0 OPTION_REFRESH) eqn:Hr; [|done]. unfold is_option_true, get_option, set_option_bool, set_option. cbn.
  by rewrite lookup_insert_eq.
Qed.
Lemma swap_in s id c : service_wf true (sp s) → phase_of (sp s) id = Waiting c ∨ phase_of (sp s) id = In c →
  phase_of (sp (serve SwapDrop s)) id = In c ∧ received (serve SwapDrop s) id = received s id.
Proof.
  intros Hw Hph. split; [|by apply serve_received]. rewrite (proj1 (serve_phase SwapDrop s id Hw)). by destruct Hph as [-> | ->].
Qed.
(** Steps that only move the loop. *)
Definition carried (s s' : video) : Prop :=
  sp s' = sp s ∧ encoder s' = encoder s ∧ frames s' = frames s ∧ fresh s' = fresh s ∧ inbox s' = inbox s.
Lemma turn_pixels s e : pc s = VTurn → encoder s = Some e → ok (sp s) = true → is_option_true (sp s) OPTION_REFRESH = false →
  let s' := loop_step (Turn false false None None Pixels) s in pc s' = VSnapshot ∧ carried s s'.
Proof. intros E1 E2 E3 E4. unfold loop_step. rewrite E1, E2. unfold loop_turn. by rewrite E3, E4. Qed.
Lemma snapshot_none s : pc s = VSnapshot → new_subscribes (sp s) = ∅ → pc (loop_step Go s) = VEncode ∧ carried s (loop_step Go s).
Proof. intros E1 E2. unfold loop_step. rewrite E1, bool_decide_eq_true_2 by done. done. Qed.
Lemma encode_ok s e : pc s = VEncode → encoder s = Some e → pc (loop_step (Encode Encoded) s) = VSend ∧ carried s (loop_step (Encode Encoded) s).
Proof. intros E1 E2. unfold loop_step. by rewrite E1, E2. Qed.
Lemma start_new s e : service_wf true (sp s) → pc s = VIdle → active (sp s) = true → has_subscribes (sp s) = true →
  let s' := loop_step (Setup (Some e)) s in
  pc s' = VTurn ∧ encoder s' = Some e ∧ ok (sp s') = true ∧ is_option_true (sp s') OPTION_REFRESH = false ∧ fresh s' = true
  ∧ frames s' = frames s ∧ inbox s' = inbox s ∧ service_wf true (sp s') ∧ new_subscribes (sp s') = new_subscribes (sp s)
  ∧ ∀ i, phase_of (sp s') i = phase_of (sp s) i.
Proof.
  intros [H1 H2 H3 H4 H5] E1 E2 E3. unfold loop_step. rewrite E1, E2, E3. cbn [andb]. unfold start.
  split_and!; try done; cbn; [|by apply refresh_cleared| |by case_match|by intros i; case_match].
  - unfold ok. case_match; cbn; by rewrite E2.
  - case_match; by split.
Qed.
(** From a new encoder to its first frame. *)
Definition first_turn (e : Encoder) : list event := Loop <$> [Setup (Some e); Turn false false None None Pixels; Go; Encode Encoded; Go].
Lemma first_turn_sends s e : service_wf true (sp s) → pc s = VIdle → active (sp s) = true → has_subscribes (sp s) = true → new_subscribes (sp s) = ∅ →
  let s' := vrun (first_turn e) s in
  frames s' = frames s ++ [true] ∧ ∀ i, shows s i → received s' i = received s i ++ [length (frames s)].
Proof.
  intros Hw E1 E2 E3 E4. unfold first_turn. cbn [fmap list_fmap vrun foldl vstep].
  destruct (start_new s e Hw E1 E2 E3) as (A1 & A2 & A3 & A4 & A5 & A6 & A7 & A8 & A9 & A10).
  set (s1 := loop_step (Setup (Some e)) s) in *. clearbody s1.
  destruct (turn_pixels s1 e A1 A2 A3 A4) as (B1 & B2 & B3 & B4 & B5 & B6). set (s2 := loop_step _ s1) in *. clearbody s2.
  destruct (snapshot_none s2 B1) as (C1 & C2 & C3 & C4 & C5 & C6); [congruence|]. set (s3 := loop_step Go s2) in *. clearbody s3.
  destruct (encode_ok s3 e C1) as (D1 & D2 & D3 & D4 & D5 & D6); [congruence|]. set (s4 := loop_step _ s3) in *. clearbody s4.
  unfold loop_step. rewrite D1. unfold send_frame. split.
  - change (frames (serve (Send (VideoFrame (N.of_nat (length (frames s4))))) s4) ++ [fresh (serve (Send (VideoFrame (N.of_nat (length (frames s4))))) s4)]
      = frames s ++ [true]).
    destruct (serve_rest (Send (VideoFrame (N.of_nat (length (frames s4))))) s4) as (_ & -> & -> & _). f_equal; [congruence|]. f_equal. congruence.
  - intros i (c & Hc & Ht). assert (sp s4 = sp s1) as Esp by congruence. assert (received s4 i = received s i) as Er by (unfold received; congruence).
    assert (frames s4 = frames s) as Ef by congruence.
    assert (service_wf true (sp s4)) as Hw4 by (by rewrite Esp).
    destruct (frame_received s4 i Hw4) as [[_ Hr]|[Hn _]].
    + change (received (serve (Send (VideoFrame (N.of_nat (length (frames s4))))) s4) i = received s i ++ [length (frames s)]).
      cbv zeta in Hr. by rewrite Hr, Er, Ef.
    + destruct Hn. exists c. split; [|done]. by rewrite Esp, A10.
Qed.
(** The snapshot that finds viewers. *)
Lemma snapshot_leaves s : service_wf true (sp s) → pc s = VSnapshot → new_subscribes (sp s) ≠ ∅ → subscribes (sp s) ≠ ∅ →
  let s' := vrun (Loop <$> [Go; Go; Go]) s in s' = leave (serve SwapDrop (s <| pc := VSwap true |>)).
Proof.
  intros Hw E1 E2 E3. cbn [fmap list_fmap vrun foldl vstep]. unfold loop_step at 3. rewrite E1, bool_decide_eq_false_2 by done.
  unfold loop_step at 2. cbn [pc upd]. unfold loop_step. cbn. by rewrite bool_decide_eq_true_2.
Qed.

(** C38: a viewer that joins others is shown the display at once. Whatever has happened, if
    the loop, serving at least one subscribed viewer, is about to send a frame when another
    waits, and goes on from there undisturbed, then it first begins again with a new
    encoder, and the first frame of that one goes to the viewer that came and to all
    there were. If none is subscribed any more when the other comes, the encoder goes
    on: [begins_in_the_middle]. *)
Theorem new_viewer_starts name evs id c e
  (Hsnap : pc (vrun evs (video_new name)) = VSnapshot) (Hnew : phase_of (sp (vrun evs (video_new name))) id = Waiting c)
  (Hvideo : tx_video c = true) (Hothers : subscribes (sp (vrun evs (video_new name))) ≠ ∅)
  (Hactive : active (sp (vrun evs (video_new name))) = true) :
  let s := vrun evs (video_new name) in
  let s' := vrun ((Loop <$> [Go; Go; Go]) ++ first_turn e) s in
  frames s' = frames s ++ [true] ∧ received s' id = received s id ++ [length (frames s)]
  ∧ ∀ i, shows s i → received s' i = received s i ++ [length (frames s)].
Proof.
  intros s. assert (service_wf true (sp s)) as Hw by apply run_wf. fold s in Hsnap, Hnew, Hothers, Hactive. clearbody s.
  intros s'. assert (new_subscribes (sp s) ≠ ∅) as Hne.
  { intros E. unfold phase_of in Hnew. rewrite E, lookup_empty in Hnew. by destruct (subscribes (sp s) !! id). }
  set (s0 := s <| pc := VSwap true |>). assert (service_wf true (sp s0)) as Hw0 by done.
  set (s1 := leave (serve SwapDrop s0)).
  assert (s' = vrun (first_turn e) s1) as ->.
  { subst s'. unfold vrun. rewrite foldl_app. pose proof (snapshot_leaves s Hw Hsnap Hne Hothers) as H. unfold vrun in H. cbv zeta in H. by rewrite H. }
  assert (∀ i, received s1 i = received s i) as Er by (intros i; exact (serve_received SwapDrop s0 i Hw0 I)).
  assert (∀ i, shows s i ∨ i = id → shows s1 i) as Hsh.
  { intros i [(c' & Hc' & Ht')| ->]; [exists c'|exists c]; (split; [|done]); [exact (proj1 (swap_in s0 i c' Hw0 (or_intror Hc')))|
      exact (proj1 (swap_in s0 id c Hw0 (or_introl Hnew)))]. }
  assert (active (sp s1) = true ∧ new_subscribes (sp s1) = ∅ ∧ has_subscribes (sp s1) = true ∧ frames s1 = frames s) as (E1 & E2 & E3 & E4).
  { split_and!; try done. unfold has_subscribes. apply orb_true_iff. left. apply bool_decide_eq_true. intros Hsub.
    destruct (Hsh id (or_intror eq_refl)) as (c' & Hc' & _). unfold phase_of in Hc'. by rewrite Hsub, lookup_empty in Hc'. }
  destruct (first_turn_sends s1 e (serve_wf SwapDrop s0 Hw0) eq_refl E1 E3 E2) as [H1 H2]. rewrite E4 in *.
  split; [done|]. split; [|intros i Hi]; rewrite H2, Er by (apply Hsh; auto); done.
Qed.
Lemma new_viewer_starts_witness :
  let evs := [Sub (viewer 1); Loop (Setup (Some software)); Loop (Turn false false None None Pixels); Loop Go; Loop Go; Loop Go;
      Loop (Encode Encoded); Loop Go; Loop Go; Fetched 1; Loop Await; Sub (viewer 2); Loop (Turn false false None None Pixels)] in
  let s := vrun evs (video_new (lit "monitor0")) in
  let s' := vrun ((Loop <$> [Go; Go; Go]) ++ first_turn software) s in
  received s 2 = [] ∧ received s 1 = [0%nat] ∧ frames s' = [true; true] ∧ received s' 2 = [1%nat].
Proof.
  set (evs := [Sub (viewer 1); Loop (Setup (Some software)); Loop (Turn false false None None Pixels); Loop Go; Loop Go; Loop Go;
      Loop (Encode Encoded); Loop Go; Loop Go; Fetched 1; Loop Await; Sub (viewer 2); Loop (Turn false false None None Pixels)]).
  destruct (new_viewer_starts (lit "monitor0") evs 2 (viewer 2) software) as (H1 & H2 & _); try (vm_compute; reflexivity).
  { assert (bool_decide (subscribes (sp (vrun evs (video_new (lit "monitor0")))) ≠ ∅) = true) as H by (vm_compute; reflexivity).
    by apply bool_decide_eq_true in H. }
  cbv zeta. split; [vm_compute; reflexivity|]. split; [vm_compute; reflexivity|]. split.
  - etrans; [exact H1|]. vm_compute. reflexivity.
  - etrans; [exact H2|]. vm_compute. reflexivity.
Defined.
