(* ===== verification/CodecNegotiation.v ===== *)
(** * Which codec to send

    [Encoder::update] and [Encoder::set_fallback] of
    [src/libs/scrap/src/common/codec.rs], and the choice of an encoder for a display in
    [src/src/server/video_service.rs]: every viewer says what it can decode and what it
    prefers, and all of them are sent one codec. What hardware offers is an argument. *)
From S2P Require Import Prelude.
Local Open Scope Z_scope.

(** ** Messages *)
Inductive CodecFormat := VP8 | VP9 | AV1 | H264 | H265 | Unknown.
#[export] Instance CodecFormat_eq_dec : EqDecision CodecFormat.
Proof. solve_decision. Defined.
Inductive PreferCodec := PreferAuto | PreferVP9 | PreferH264 | PreferH265 | PreferVP8 | PreferAV1.
Definition prefer_value (p : PreferCodec) : Z :=
  match p with PreferAuto => 0 | PreferVP9 => 1 | PreferH264 => 2 | PreferH265 => 3 | PreferVP8 => 4 | PreferAV1 => 5 end.
(** [enum_value_or(PreferCodec::Auto)] of a number received. *)
Definition prefer_of (z : Z) : PreferCodec :=
  if z =? 1 then PreferVP9 else if z =? 2 then PreferH264 else if z =? 3 then PreferH265
  else if z =? 4 then PreferVP8 else if z =? 5 then PreferAV1 else PreferAuto.
Record CodecAbility := mk_ability { i444_vp9 : bool; i444_av1 : bool }.
Record SupportedDecoding := mk_decoding {
  ability_vp9 : Z; ability_h264 : Z; ability_h265 : Z; prefer : Z; ability_vp8 : Z; ability_av1 : Z; i444 : CodecAbility; prefer_chroma : Z }.
Definition decoding_default : SupportedDecoding := mk_decoding 0 0 0 0 0 0 (mk_ability false false) 0.
Definition CHROMA_I444 : Z := 1.
Record SupportedEncoding := mk_encoding { enc_h264 : bool; enc_h265 : bool; enc_vp8 : bool; enc_av1 : bool }.

(** What this side can encode, and its settings. *)
Record host := mk_host {
  disable_av1 : bool;
  av1_test : str;
  total_memory : Z;
  vram_available : CodecFormat → bool;          (* with the option that enables it *)
  hwcodec_get : CodecFormat → option str        (* the name of an encoder, likewise *)
}.

(** ** Negotiation *)
Record codec_state := mk_state {
  decodings : gmap Z SupportedDecoding;
  format : CodecFormat;
  usable : option SupportedEncoding
}.
#[export] Instance codec_state_eta : Eta codec_state := λ r, mk_state (decodings r) (format r) (usable r).
Definition codec_new : codec_state := mk_state ∅ VP9 None.
Inductive EncodingUpdate := Update (id : Z) (d : SupportedDecoding) | Remove (id : Z) | NewOnlyVP9 (id : Z) | CheckOnly.

Definition record_update (u : EncodingUpdate) (m : gmap Z SupportedDecoding) : gmap Z SupportedDecoding :=
  match u with
  | Update id d => <[id := d]> m
  | Remove id => delete id m
  | NewOnlyVP9 id => <[id := mk_decoding 1 0 0 0 0 0 (mk_ability false false) 0]> m
  | CheckOnly => m
  end.
(** [count_pref]: the preferences with their counts, in the order they first come. *)
Fixpoint add_count (p : Z) (counts : list (Z * nat)) : list (Z * nat) :=
  match counts with
  | [] => [(p, 1%nat)]
  | (q, n) :: counts => if p =? q then (q, S n) :: counts else (q, n) :: add_count p counts
  end.
Definition count_prefs (prefs : list Z) : list (Z * nat) := foldl (λ c p, add_count p c) [] prefs.
Definition max_count (counts : list (Z * nat)) : nat := foldr (λ c, Nat.max c.2) 0%nat counts.
Definition most_frequent (prefs : list Z) : Z :=
  let counts := count_prefs prefs in
  match list_find (λ c, c.2 = max_count counts) counts with Some (_, (p, _)) => p | None => prefer_value PreferAuto end.

Section update.
(** The order a hash map of decodings is iterated in. *)
Context (order : gmap Z SupportedDecoding → list (Z * SupportedDecoding)).
Definition all_support (ability : SupportedDecoding → Z) (ds : list (Z * SupportedDecoding)) : bool :=
  negb (bool_decide (ds = [])) && forallb (λ d, 0 <? ability d.2) ds.
Definition usable_prefer (vp8 av1 h264 h265 : bool) (d : SupportedDecoding) : bool :=
  (prefer d =? prefer_value PreferVP9) || (prefer d =? prefer_value PreferVP8) && vp8
  || (prefer d =? prefer_value PreferAV1) && av1 || (prefer d =? prefer_value PreferH264) && h264
  || (prefer d =? prefer_value PreferH265) && h265.
Definition auto_codec (h : host) (vp8 av1 h264 h265 : bool) : CodecFormat :=
  let c := if av1 && negb (bool_decide (av1_test h = lit "N")) then AV1 else VP9 in
  let c := if h264 then H264 else c in
  let c := if h265 then H265 else c in
  if bool_decide (c = VP9) || bool_decide (c = AV1) then
    if vp8 && (total_memory h <=? 4 * 1024 * 1024 * 1024) then VP8 else c
  else c.
Definition h26x_encoding (h : host) (f : CodecFormat) (all_support : bool) : bool :=
  all_support && (vram_available h f || bool_decide (is_Some (hwcodec_get h f))).
Definition usables (h : host) (ds : list (Z * SupportedDecoding)) : SupportedEncoding :=
  mk_encoding (h26x_encoding h H264 (all_support ability_h264 ds)) (h26x_encoding h H265 (all_support ability_h265 ds))
    (all_support ability_vp8 ds) (all_support ability_av1 ds && negb (disable_av1 h)).
Definition choose (h : host) (ds : list (Z * SupportedDecoding)) : SupportedEncoding * CodecFormat :=
  let e := usables h ds in
  let preferences := (λ d, prefer d.2) <$> filter (λ d, usable_prefer (enc_vp8 e) (enc_av1 e) (enc_h264 e) (enc_h265 e) d.2) ds in
  let auto := auto_codec h (enc_vp8 e) (enc_av1 e) (enc_h264 e) (enc_h265 e) in
  (e, match prefer_of (most_frequent preferences) with
      | PreferVP8 => VP8
      | PreferVP9 => VP9
      | PreferAV1 => AV1
      | PreferH264 => if enc_h264 e then H264 else auto
      | PreferH265 => if enc_h265 e then H265 else auto
      | PreferAuto => auto
      end).
Definition update (h : host) (u : EncodingUpdate) (s : codec_state) : codec_state :=
  let m := record_update u (decodings s) in
  let '(e, f) := choose h (order m) in mk_state m f (Some e).
End update.

(** ** The encoder of a display *)
Inductive EncoderCfg := CfgVPX (vp8 : bool) | CfgAOM | CfgHWRAM (name : str) | CfgVRAM (data_format : CodecFormat).
(** What the hardware offers to a display, when its configuration is made. *)
Record display_host := mk_display_host {
  vram_get : CodecFormat → option CodecFormat;
  hwram_get : CodecFormat → option str
}.
Definition get_encoder_config (d : display_host) (negotiated_codec : CodecFormat) : EncoderCfg :=
  match negotiated_codec with
  | H264 | H265 =>
      match vram_get d negotiated_codec with
      | Some feature => CfgVRAM feature
      | None => match hwram_get d negotiated_codec with Some name => CfgHWRAM name | None => CfgVPX false end
      end
  | VP8 => CfgVPX true
  | VP9 => CfgVPX false
  | AV1 => CfgAOM
  | Unknown => CfgVPX false
  end.
Fixpoint infix (needle s : str) : bool :=
  bool_decide (needle `prefix_of` s) || match s with [] => false | _ :: s => infix needle s end.
Section fallback.
(** [str::to_lowercase]. *)
Context (to_lowercase : str → str).
Definition hw_format (name : str) : CodecFormat :=
  let name := to_lowercase name in
  if infix (lit "vp8") name then VP8 else if infix (lit "vp9") name then VP9
  else if infix (lit "av1") name then AV1 else if infix (lit "h264") name then H264 else H265.
(** The format of a configuration; [None]: [set_fallback] returns early. *)
Definition cfg_format (c : EncoderCfg) : option CodecFormat :=
  match c with
  | CfgVPX vp8 => Some (if vp8 then VP8 else VP9)
  | CfgAOM => Some AV1
  | CfgHWRAM name => Some (hw_format name)
  | CfgVRAM f => match f with H264 => Some H264 | H265 => Some H265 | _ => None end
  end.
Definition set_fallback (c : EncoderCfg) (s : codec_state) : codec_state :=
  match cfg_format c with Some f => s <| format := f |> | None => s end.
(** The two halves of [setup_encoder], each under a lock of its own, with nothing
    in between. *)
Definition undisturbed_setup (d : display_host) (s : codec_state) : codec_state * EncoderCfg :=
  let c := get_encoder_config d (format s) in (set_fallback c s, c).
End fallback.
Definition use_i444 (c : EncoderCfg) (s : codec_state) : bool :=
  let ds := map_to_list (decodings s) in
  let prefer_i444 := forallb (λ d, prefer_chroma d.2 =? CHROMA_I444) ds in
  let i444_useable :=
    match c with
    | CfgVPX true | CfgHWRAM _ | CfgVRAM _ => false
    | CfgVPX false => forallb (λ d, i444_vp9 (i444 d.2)) ds
    | CfgAOM => forallb (λ d, i444_av1 (i444 d.2)) ds
    end in
  prefer_i444 && i444_useable && negb (bool_decide (ds = [])).
(** An encoder that cannot be made: [run] and [Encoder::new] fall back to VP9. *)
Definition encoder_failed (s : codec_state) : codec_state := s <| format := VP9 |>.

Arguments undisturbed_setup : simpl never.

(** ** What is chosen *)
Definition can_decode (d : SupportedDecoding) (f : CodecFormat) : bool :=
  match f with
  | VP8 => 0 <? ability_vp8 d | VP9 => 0 <? ability_vp9 d | AV1 => 0 <? ability_av1 d
  | H264 => 0 <? ability_h264 d | H265 => 0 <? ability_h265 d | Unknown => false
  end.
Definition can_encode (h : host) (f : CodecFormat) : bool :=
  match f with
  | VP8 | VP9 => true
  | AV1 => negb (disable_av1 h)
  | H264 | H265 => vram_available h f || bool_decide (is_Some (hwcodec_get h f))
  | Unknown => false
  end.

(** *** Counting preferences *)
Definition votes (p : Z) (prefs : list Z) : nat := length (filter (λ q, q = p) prefs).
Fixpoint tally (p : Z) (counts : list (Z * nat)) : nat :=
  match counts with [] => 0 | (q, n) :: counts => if p =? q then n else tally p counts end.
Lemma tally_add p q counts : tally p (add_count q counts) = (tally p counts + if (p =? q)%Z then 1 else 0)%nat.
Proof.
  induction counts as [|[r n] counts IH]; cbn.
  - by destruct (p =? q).
  - destruct (Z.eqb_spec q r) as [->|Hqr]; cbn; rewrite ?IH; destruct (Z.eqb_spec p r) as [->|Hpr]; rewrite ?(proj2 (Z.eqb_neq r q)) by congruence; lia.
Qed.
Lemma keys_add q counts p : p ∈ (add_count q counts).*1 ↔ p = q ∨ p ∈ counts.*1.
Proof.
  induction counts as [|[r n] counts IH]; cbn; [set_solver|]. destruct (Z.eqb_spec q r) as [->|Hqr]; cbn; set_solver.
Qed.
Lemma keys_nodup_add q counts : NoDup counts.*1 → NoDup (add_count q counts).*1.
Proof.
  induction counts as [|[r n] counts IH]; cbn; intros Hn; [repeat constructor; set_solver|].
  apply NoDup_cons in Hn as [Hr Hn]. destruct (Z.eqb_spec q r) as [->|Hqr]; cbn; apply NoDup_cons; [done|].
  split; [|by apply IH]. rewrite keys_add. naive_solver.
Qed.
Lemma count_prefs_spec prefs :
  NoDup (count_prefs prefs).*1 ∧ (∀ p, p ∈ (count_prefs prefs).*1 ↔ p ∈ prefs) ∧ ∀ p, tally p (count_prefs prefs) = votes p prefs.
Proof.
  unfold count_prefs, votes. induction prefs as [|q prefs (IH1 & IH2 & IH3)] using rev_ind; [split_and!; [constructor|set_solver|done]|].
  rewrite foldl_app. cbn. split_and!.
  - by apply keys_nodup_add.
  - intros p. rewrite keys_add, IH2. set_solver.
  - intros p. rewrite tally_add, IH3, filter_app, length_app. destruct (Z.eqb_spec p q) as [->|Hne].
    + by rewrite filter_cons_True.
    + by rewrite filter_cons_False.
Qed.
Lemma tally_in counts p n : NoDup counts.*1 → (p, n) ∈ counts → tally p counts = n.
Proof.
  induction counts as [|[r k] counts IH]; cbn; intros Hn Hin; [by apply elem_of_nil in Hin|]. apply NoDup_cons in Hn as [Hr Hn].
  apply elem_of_cons in Hin as [[= -> ->]|Hin]; [by rewrite Z.eqb_refl|].
  destruct (Z.eqb_spec p r) as [->|]; [|by apply IH]. destruct Hr. apply list_elem_of_fmap. by exists (r, n).
Qed.
Lemma tally_max counts p : (tally p counts ≤ max_count counts)%nat.
Proof.
  induction counts as [|[r k] counts IH]; [done|]. cbn [tally]. change (max_count ((r, k) :: counts)) with (Nat.max k (max_count counts)).
  destruct (p =? r); lia.
Qed.
Lemma max_in counts : counts ≠ [] → ∃ p, (p, max_count counts) ∈ counts.
Proof.
  induction counts as [|[r k] counts IH]; [done|]. intros _. change (max_count ((r, k) :: counts)) with (Nat.max k (max_count counts)).
  destruct counts as [|c counts]; [exists r; cbn; rewrite Nat.max_0_r; set_solver|].
  destruct (IH ltac:(done)) as [p Hp]. destruct (Nat.max_spec k (max_count (c :: counts))) as [[_ ->]|[_ ->]]; [exists p|exists r]; set_solver.
Qed.
(** The most frequent preference has the most votes. *)
Lemma most_frequent_wins prefs :
  prefs ≠ [] → most_frequent prefs ∈ prefs ∧ ∀ q, (votes q prefs ≤ votes (most_frequent prefs) prefs)%nat.
Proof.
  intros Hne. destruct (count_prefs_spec prefs) as (Hnd & Hk & Hv). unfold most_frequent.
  assert (count_prefs prefs ≠ []) as Hc.
  { intros E. destruct prefs as [|p prefs]; [done|]. assert (p ∈ (count_prefs (p :: prefs)).*1) as Hp by (apply Hk; set_solver).
    rewrite E in Hp. by apply elem_of_nil in Hp. }
  destruct (max_in _ Hc) as [p Hp]. destruct (list_find _ _) as [[i [r n]]|] eqn:Hf.
  - apply list_find_Some in Hf as (Hi & Hn & _). cbn in Hn. apply list_elem_of_lookup_2 in Hi.
    split; [apply Hk, list_elem_of_fmap; by exists (r, n)|]. intros q. rewrite <- !Hv, (tally_in _ r n Hnd Hi), Hn. apply tally_max.
  - eapply list_find_None in Hf. rewrite Forall_forall in Hf. by destruct (Hf _ Hp).
Qed.
Lemma most_frequent_none : most_frequent [] = prefer_value PreferAuto.
Proof. done. Qed.

(** *** One codec for all *)
Lemma all_support_spec ability ds d : all_support ability ds = true → d ∈ ds → 0 < ability d.2.
Proof.
  unfold all_support. intros [_ H]%andb_true_iff Hin. rewrite forallb_forall in H. apply Z.ltb_lt, H. by apply list_elem_of_In.
Qed.
Lemma h26x_spec h f b : h26x_encoding h f b = true → b = true ∧ (vram_available h f || bool_decide (is_Some (hwcodec_get h f))) = true.
Proof. unfold h26x_encoding. by intros [-> ->]%andb_true_iff. Qed.
Definition suits (h : host) (ds : list (Z * SupportedDecoding)) (f : CodecFormat) : Prop :=
  can_encode h f = true ∧ ∀ d, d ∈ ds → f ≠ VP9 → can_decode d.2 f = true.
Lemma usables_suit h ds : let e := usables h ds in
  (enc_vp8 e = true → suits h ds VP8) ∧ (enc_av1 e = true → suits h ds AV1)
  ∧ (enc_h264 e = true → suits h ds H264) ∧ (enc_h265 e = true → suits h ds H265).
Proof.
  cbn [usables enc_vp8 enc_av1 enc_h264 enc_h265].
  assert (∀ ability f, all_support ability ds = true → can_encode h f = true → (∀ d, can_decode d f = (0 <? ability d)) → suits h ds f) as Hs.
  { intros ability f Ha He Hd. split; [done|]. intros d Hin _. rewrite Hd. apply Z.ltb_lt. by eapply all_support_spec. }
  split_and!.
  - intros H. by eapply Hs.
  - intros [H1 H2]%andb_true_iff. by eapply Hs.
  - intros [H1 H2]%h26x_spec. by eapply Hs.
  - intros [H1 H2]%h26x_spec. by eapply Hs.
Qed.
Lemma auto_suits h ds : let e := usables h ds in suits h ds (auto_codec h (enc_vp8 e) (enc_av1 e) (enc_h264 e) (enc_h265 e)).
Proof.
  destruct (usables_suit h ds) as (H1 & H2 & H3 & H4). cbv zeta. set (e := usables h ds) in *. clearbody e.
  assert (suits h ds VP9) as H9 by by split. unfold auto_codec.
  destruct (enc_h265 e); cbn; [by apply H4|]. destruct (enc_h264 e); cbn; [by apply H3|].
  destruct (enc_av1 e && _) eqn:Ha; cbn; [apply andb_true_iff in Ha as [Ha _]|];
    (destruct (enc_vp8 e && _) eqn:Hv; [apply andb_true_iff in Hv as [Hv _]; by apply H1|]); auto.
Qed.
Lemma prefer_of_value p : prefer_of (prefer_value p) = p.
Proof. by destruct p. Qed.
Lemma choose_suits h ds : suits h ds (choose h ds).2.
Proof.
  destruct (usables_suit h ds) as (H1 & H2 & H3 & H4). pose proof (auto_suits h ds) as Hauto. unfold choose. cbv zeta in *.
  set (e := usables h ds) in *. cbn [snd]. set (prefs := _ <$> _). assert (suits h ds VP9) as H9 by by split.
  destruct (decide (prefs = [])) as [->|Hne]; [exact Hauto|]. destruct (most_frequent_wins prefs Hne) as [Hin _].
  apply list_elem_of_fmap in Hin as (d & -> & [Hu _]%list_elem_of_filter).
  unfold usable_prefer in Hu. rewrite !orb_True, !andb_True in Hu.
  repeat destruct Hu as [Hu|Hu]; try destruct Hu as [Hu Hb]; apply Is_true_true_1, Z.eqb_eq in Hu; rewrite Hu, prefer_of_value;
    try (apply Is_true_true_1 in Hb; rewrite ?Hb); auto.
Qed.

(** ** Runs *)
Section run.
Context (order : gmap Z SupportedDecoding → list (Z * SupportedDecoding)) (order_perm : ∀ m, order m ≡ₚ map_to_list m).
Context (to_lowercase : str → str).
(** Connections that log in, change their options and close; a display [i] that reads the
    codec for its configuration ([get_encoder_config]) and writes that of the
    configuration back ([Encoder::set_fallback]), two locks of [setup_encoder] with
    anything in between; an encoder that cannot be made. *)
Inductive cop := OpUpdate (h : host) (u : EncodingUpdate) | OpRead (i : Z) (d : display_host) | OpFallback (i : Z) | OpFailed.
Record codec_world := mk_world { codec : codec_state; configs : gmap Z EncoderCfg }.
Definition cop_step (w : codec_world) (op : cop) : codec_world :=
  match op with
  | OpUpdate h u => mk_world (update order h u (codec w)) (configs w)
  | OpRead i d => mk_world (codec w) (<[i := get_encoder_config d (format (codec w))]> (configs w))
  | OpFallback i =>
      match configs w !! i with
      | Some c => mk_world (set_fallback to_lowercase c (codec w)) (delete i (configs w))
      | None => w
      end
  | OpFailed => mk_world (encoder_failed (codec w)) (configs w)
  end.
Definition codec_run (ops : list cop) : codec_world := foldl cop_step (mk_world codec_new ∅) ops.
(** Hardware that is what it says. *)
Definition faithful (d : display_host) : Prop :=
  ∀ f, f = H264 ∨ f = H265 →
  (∀ g, vram_get d f = Some g → g = f) ∧ (∀ name, hwram_get d f = Some name → hw_format to_lowercase name = f).
(** Every viewer decodes VP9, and displays are faithful. *)
Definition expected (op : cop) : Prop :=
  match op with OpUpdate _ (Update _ d) => 0 < ability_vp9 d | OpRead _ d => faithful d | _ => True end.

Lemma config_format d f : faithful d → f ≠ Unknown →
  ∃ g, cfg_format to_lowercase (get_encoder_config d f) = Some g ∧ (g = f ∨ g = VP9)
    ∧ (g = f ∨ f = H264 ∨ f = H265).
Proof.
  intros Hd Hf. destruct f; try done; cbn; try (by eexists; split; [reflexivity|]; auto).
  - destruct (Hd H264 (or_introl eq_refl)) as [H1 H2]. destruct (vram_get d H264) as [g|].
    { rewrite (H1 g eq_refl). by eexists; split; [reflexivity|]; auto. }
    destruct (hwram_get d H264) as [name|]; cbn; [rewrite (H2 name eq_refl)|]; by eexists; split; [reflexivity|]; auto.
  - destruct (Hd H265 (or_intror eq_refl)) as [H1 H2]. destruct (vram_get d H265) as [g|].
    { rewrite (H1 g eq_refl). by eexists; split; [reflexivity|]; auto. }
    destruct (hwram_get d H265) as [name|]; cbn; [rewrite (H2 name eq_refl)|]; by eexists; split; [reflexivity|]; auto.
Qed.
Lemma can_encode_known h f : can_encode h f = true → f ≠ Unknown.
Proof. by destruct f. Qed.
Definition all_vp9 (m : gmap Z SupportedDecoding) : Prop := ∀ id d, m !! id = Some d → 0 < ability_vp9 d.
Lemma record_vp9 h u m : all_vp9 m → expected (OpUpdate h u) → all_vp9 (record_update u m).
Proof.
  intros Hv Hu id d. destruct u as [i d'|i|i|]; cbn; [intros [[<- <-]|[_ ?]]%lookup_insert_Some; eauto|intros [_ ?]%lookup_delete_Some; eauto| |eauto].
  intros [[<- <-]|[_ ?]]%lookup_insert_Some; [done|eauto].
Qed.
(** An update chooses what every viewer decodes. *)
Lemma update_agreed h u s : all_vp9 (decodings s) → expected (OpUpdate h u) →
  let s' := update order h u s in all_vp9 (decodings s') ∧ format s' ≠ Unknown
  ∧ ∀ id d, decodings s' !! id = Some d → can_decode d (format s') = true.
Proof using order_perm.
  intros Hv Hu. pose proof (record_vp9 h u _ Hv Hu) as Hm. unfold update. set (m := record_update u (decodings s)) in *.
  pose proof (choose_suits h (order m)) as [He Hs]. destruct (choose h (order m)) as [e f]. cbn in *.
  split; [exact Hm|]. split; [by eapply can_encode_known|]. intros id d Hd. destruct (decide (f = VP9)) as [->|Hne]; [by apply Z.ltb_lt, (Hm id)|].
  apply (Hs (id, d)); [|done]. rewrite order_perm. by apply elem_of_map_to_list.
Qed.

(** The viewer whose record an update replaces. *)
Definition updated (u : EncodingUpdate) : option Z := match u with Update id _ | NewOnlyVP9 id => Some id | _ => None end.
(** A viewer told what it decodes after a display had read the codec, and before that
    display wrote it back. *)
Definition told_since (ops : list cop) (i id : Z) : Prop :=
  ∃ o1 d o2 h u o3, ops = o1 ++ OpRead i d :: o2 ++ OpUpdate h u :: o3 ∧ updated u = Some id.
Definition overtaken (ops : list cop) (id : Z) : Prop :=
  ∃ ops1 i ops2, told_since ops1 i id ∧ ops = ops1 ++ OpFallback i :: ops2.
Lemma told_since_more ops ops' i id : told_since ops i id → told_since (ops ++ ops') i id.
Proof.
  intros (o1 & d & o2 & h & u & o3 & -> & Hu). exists o1, d, o2, h, u, (o3 ++ ops'). split; [|done]. by rewrite <- !app_assoc; cbn; rewrite <- !app_assoc.
Qed.
Lemma overtaken_more ops ops' id : overtaken ops id → overtaken (ops ++ ops') id.
Proof. intros (ops1 & i & ops2 & Ht & ->). exists ops1, i, (ops2 ++ ops'). split; [done|]. by rewrite <- app_assoc. Qed.
(** A configuration read was decoded by every viewer, but for those told of since. *)
Definition config_ok (ops : list cop) (m : gmap Z SupportedDecoding) (i : Z) (c : EncoderCfg) : Prop :=
  (∃ o1 d o2, ops = o1 ++ OpRead i d :: o2)
  ∧ ∃ g, cfg_format to_lowercase c = Some g ∧ g ≠ Unknown
    ∧ ∀ id d, m !! id = Some d → can_decode d g = true ∨ told_since ops i id ∨ overtaken ops id.
Lemma config_ok_more ops ops' m i c : config_ok ops m i c → config_ok (ops ++ ops') m i c.
Proof.
  intros [(o1 & d & o2 & ->) (g & Hg & Hk & Hd)]. split; [exists o1, d, (o2 ++ ops'); by rewrite <- app_assoc|].
  exists g. do 2 (split; [done|]). intros id x Hx.
  destruct (Hd id x Hx) as [?|[?|?]]; [by left|right; left; by apply told_since_more|right; right; by apply overtaken_more].
Qed.
Record agreed (ops : list cop) (w : codec_world) : Prop := {
  ag_vp9 : all_vp9 (decodings (codec w));
  ag_known : format (codec w) ≠ Unknown;
  ag_format : ∀ id d, decodings (codec w) !! id = Some d → can_decode d (format (codec w)) = true ∨ overtaken ops id;
  ag_read : ∀ i c, configs w !! i = Some c → config_ok ops (decodings (codec w)) i c
}.
Lemma update_record h u s : decodings (update order h u s) = record_update u (decodings s).
Proof. unfold update. by destruct (choose h _). Qed.
Lemma record_update_ne u m id : updated u ≠ Some id → ∀ d, record_update u m !! id = Some d → m !! id = Some d.
Proof.
  intros Hu d. destruct u as [j d'|j|j|]; cbn in *; [rewrite lookup_insert_ne by congruence; done|by intros [_ ?]%lookup_delete_Some|
    rewrite lookup_insert_ne by congruence; done|done].
Qed.
Lemma step_agreed ops w op : agreed ops w → expected op → agreed (ops ++ [op]) (cop_step w op).
Proof using order_perm.
  intros [Hv Hk Hf Hr] He.
  assert (∀ id d, decodings (codec w) !! id = Some d → can_decode d (format (codec w)) = true ∨ overtaken (ops ++ [op]) id) as Hf'.
  { intros id d Hd. destruct (Hf id d Hd); [by left|right; by apply overtaken_more]. }
  assert (∀ i c, configs w !! i = Some c → config_ok (ops ++ [op]) (decodings (codec w)) i c) as Hr' by (intros; by apply config_ok_more, Hr).
  destruct op as [h u|i d|i|]; cbn [cop_step].
  - destruct (update_agreed h u (codec w) Hv He) as (Hv' & Hk' & Hall). split; [done|done|by left; eauto|].
    intros i c Hc. destruct (Hr' i c Hc) as [Hread (g & Hg & Hgk & Hd)]. split; [done|].
    exists g. do 2 (split; [done|]). intros id x Hx. cbn [codec] in Hx. rewrite update_record in Hx. destruct (decide (updated u = Some id)) as [E|E].
    + right. left. destruct (Hr i c Hc) as [(o1 & d & o2 & ->) _]. exists o1, d, o2, h, u, []. split; [|done]. by rewrite <- app_assoc.
    + apply (Hd id x), (record_update_ne u); done.
  - split; cbn; [done..|]. intros j c [[<- <-]|[Hj Hc]]%lookup_insert_Some; [|by apply Hr'].
    split; [by exists ops, d, []|]. destruct (config_format d (format (codec w)) He Hk) as (g & Hg & Hor & _).
    exists g. split; [done|]. split; [by destruct Hor as [-> | ->]|]. intros id x Hx.
    destruct Hor as [-> | ->]; [|left; by apply Z.ltb_lt, (Hv id)]. destruct (Hf' id x Hx); [by left|right; by right].
  - destruct (configs w !! i) as [c|] eqn:Hc; [|by split].
    destruct (Hr i c Hc) as [_ (g & Hg & Hgk & Hd)]. unfold set_fallback. rewrite Hg. split; cbn; [done|done| |].
    + intros id x Hx. destruct (Hd id x Hx) as [?|[Ht|?]]; [by left|right; by exists ops, i, []|right; by apply overtaken_more].
    + intros j c' [_ Hc']%lookup_delete_Some. by apply Hr'.
  - split; cbn; [done..| |done]. intros id d Hd. left. by apply Z.ltb_lt, (Hv id).
Qed.
Lemma run_agreed ops : Forall expected ops → agreed ops (codec_run ops).
Proof using order_perm.
  induction ops as [|op ops IH] using rev_ind; intros He.
  - split; [intros id d H|done|intros id d H|intros i c H];
      by destruct (lookup_empty_Some (M := gmap Z) _ _ H).
  - apply Forall_app in He as [He [Hop _]%Forall_cons]. unfold codec_run. rewrite foldl_app. cbn [foldl]. apply step_agreed; [by apply IH|done].
Qed.

(** C11: the codec in use is one that every viewer can decode. Viewers log in, with or
    without telling what they decode, change their options and close; displays read the
    codec, write it back and fail to make their encoders, in any interleaving and in
    whatever order a map is iterated. As long as every viewer that tells decodes VP9, to
    which everything falls back, and hardware is of the codec it is listed under: every
    viewer decodes the codec in use, unless it told what it decodes between the two halves
    of a setup, which then wrote back what it had read before; and after any update every
    viewer does. *)
Theorem negotiated_decodable ops (Hops : Forall expected ops) :
  (∀ id d, decodings (codec (codec_run ops)) !! id = Some d → can_decode d (format (codec (codec_run ops))) = true ∨ overtaken ops id)
  ∧ ∀ h u, expected (OpUpdate h u) → let s := codec (cop_step (codec_run ops) (OpUpdate h u)) in
      ∀ id d, decodings s !! id = Some d → can_decode d (format s) = true.
Proof using order_perm.
  destruct (run_agreed ops Hops) as [Hv _ Hf _]. split; [exact Hf|]. intros h u Hu. by apply update_agreed.
Qed.

(** *** Several displays *)
Definition setups (s : codec_state) (ds : list display_host) : codec_state :=
  foldl (λ s d, (undisturbed_setup to_lowercase d s).1) s ds.
Lemma setups_cons d ds s : setups s (d :: ds) = setups (undisturbed_setup to_lowercase d s).1 ds.
Proof. done. Qed.
Definition h26x (f : CodecFormat) : Prop := f = H264 ∨ f = H265.
(** A display whose encoder has the codec negotiated. *)
Definition at_rest (d : display_host) (s : codec_state) : Prop :=
  (undisturbed_setup to_lowercase d s).1 = s ∧ cfg_format to_lowercase (undisturbed_setup to_lowercase d s).2 = Some (format s).
Lemma setup_result d s : faithful d → format s ≠ Unknown →
  ((undisturbed_setup to_lowercase d s).1 = s ∧ at_rest d s) ∨ (h26x (format s) ∧ format (undisturbed_setup to_lowercase d s).1 = VP9).
Proof.
  intros Hd Hk. destruct (config_format d (format s) Hd Hk) as (g & Hg & Hor & Hh). unfold at_rest, undisturbed_setup, set_fallback. cbn. rewrite Hg.
  destruct (decide (g = format s)) as [->|Hne].
  - left. split; [by destruct s|]. split; [by destruct s|done].
  - right. destruct Hh as [?|Hh]; [done|]. split; [exact Hh|]. cbn. by destruct Hor.
Qed.
Lemma soft_at_rest d s : faithful d → format s = VP9 → at_rest d s.
Proof. intros Hd Hf. destruct (setup_result d s Hd) as [[_ ?]|[[H|H] _]]; [congruence|done|congruence..]. Qed.
Lemma setups_vp9 ds s : Forall faithful ds → format s = VP9 → setups s ds = s.
Proof.
  intros Hds. revert s. induction Hds as [|d ds Hd _ IH]; intros s Hf; [done|]. rewrite setups_cons. destruct (soft_at_rest d s Hd Hf) as [-> _]. by apply IH.
Qed.

(** displays agree on the codec. Whatever each display's hardware offers, once every
    display has set up its encoder, undisturbed by the others, no setup changes the codec any more, and every
    display that sets up again gets an encoder of that very codec: the displays do not
    make each other start again without end. *)
Theorem displays_agree s ds (Hds : Forall faithful ds) (Hk : format s ≠ Unknown) :
  ∀ d, d ∈ ds → at_rest d (setups s ds).
Proof.
  revert s Hk. induction Hds as [|d ds Hd Hds IH]; intros s Hk d' Hin; [by apply elem_of_nil in Hin|]. rewrite setups_cons.
  destruct (setup_result d s Hd Hk) as [[-> Hrest]|[_ H9]].
  - apply elem_of_cons in Hin as [->|Hin]; [|by apply IH].
    assert (setups s ds = s ∨ format (setups s ds) = VP9) as [->|H9]; [|exact Hrest|by apply soft_at_rest].
    clear IH Hrest. induction Hds as [|d' ds Hd' Hds IH]; [by left|]. rewrite setups_cons. destruct (setup_result d' s Hd' Hk) as [[-> _]|[_ H9]]; [exact IH|].
    right. by rewrite setups_vp9.
  - rewrite setups_vp9 by done. apply soft_at_rest; [|done]. rewrite Forall_forall in Hds. apply elem_of_cons in Hin as [->|Hin]; [done|by apply Hds].
Qed.

(** the choice follows the majority. After any update, the viewers' preferences
    that all of them can decode and this side can encode are counted; if there is any,
    a preference that no other has more votes than is taken as it is, otherwise the
    codec is the best usable one. Whichever it is, this side can encode it. *)
Theorem choice_follows_majority h u s :
  let m := record_update u (decodings s) in
  let s' := update order h u s in
  let e := usables h (order m) in
  let votes_of p := length (filter (λ d, prefer d.2 = p ∧ usable_prefer (enc_vp8 e) (enc_av1 e) (enc_h264 e) (enc_h265 e) d.2 = true) (order m)) in
  usable s' = Some e ∧ decodings s' = m ∧ can_encode h (format s') = true ∧
  ((∀ p, votes_of p = 0%nat) ∧ format s' = auto_codec h (enc_vp8 e) (enc_av1 e) (enc_h264 e) (enc_h265 e)
   ∨ ∃ p f, (p, f) ∈ [(1, VP9); (2, H264); (3, H265); (4, VP8); (5, AV1)]
     ∧ format s' = f ∧ (0 < votes_of p)%nat ∧ ∀ q, (votes_of q ≤ votes_of p)%nat).
Proof.
  intros m s' e votes_of. subst s'. unfold update. fold m. pose proof (choose_suits h (order m)) as [Hce _].
  destruct (choose h (order m)) as [e' f] eqn:Hc. cbn [snd] in Hce. cbn [usable decodings format].
  assert (e' = e) as -> by (exact (eq_sym (f_equal fst Hc))).
  split; [done|]. split; [done|]. split; [done|].
  set (good := λ d, usable_prefer (enc_vp8 e) (enc_av1 e) (enc_h264 e) (enc_h265 e) (d : Z * SupportedDecoding).2) in *.
  set (prefs := (λ d, prefer d.2) <$> filter good (order m)).
  set (auto := auto_codec h _ _ _ _).
  assert (match prefer_of (most_frequent prefs) with
    | PreferVP8 => VP8 | PreferVP9 => VP9 | PreferAV1 => AV1
    | PreferH264 => if enc_h264 e then H264 else auto
    | PreferH265 => if enc_h265 e then H265 else auto
    | PreferAuto => auto end = f) as Hf by exact (f_equal snd Hc).
  clear Hc. clearbody e auto.
  assert (∀ p, votes_of p = votes p prefs) as Hvotes.
  { intros p. subst votes_of prefs. unfold votes. cbv beta. generalize (order m) as l. induction l as [|d l IH]; [done|].
    rewrite !filter_cons. fold (good d). destruct (good d) eqn:Hg.
    - rewrite (decide_True (P := Is_true true)) by done. cbn [fmap list_fmap]. rewrite filter_cons.
      destruct (decide (prefer d.2 = p)); [rewrite decide_True by done|rewrite decide_False by naive_solver]; cbn; by rewrite IH.
    - rewrite (decide_False (P := Is_true false)) by (by intros []). rewrite decide_False by naive_solver. exact IH. }
  destruct (decide (prefs = [])) as [Hnil|Hne].
  - left. split; [intros p; by rewrite Hvotes, Hnil|]. rewrite Hnil in Hf. by rewrite <- Hf.
  - right. destruct (most_frequent_wins prefs Hne) as [Hin Hmax].
    assert (∃ d, most_frequent prefs = prefer d.2 ∧ good d = true) as (d & Ed & Hg).
    { apply list_elem_of_fmap in Hin as (d & -> & [Hg _]%list_elem_of_filter). exists d. by apply Is_true_true_1 in Hg. }
    exists (most_frequent prefs), f.
    assert (0 < votes (most_frequent prefs) prefs)%nat as Hpos.
    { unfold votes. destruct (filter _ prefs) as [|x l] eqn:E; [|cbn; lia]. exfalso.
      assert (most_frequent prefs ∈ filter (λ q, q = most_frequent prefs) prefs) as H by by apply list_elem_of_filter.
      rewrite E in H. by apply elem_of_nil in H. }
    split; [|split; [done|]; split; [by rewrite Hvotes|intros q; rewrite !Hvotes; apply Hmax]].
    rewrite Ed in *. clear Hin Hmax Hpos Ed. unfold good, usable_prefer in Hg. rewrite <- Hf.
    rewrite !orb_true_iff, !andb_true_iff in Hg.
    destruct Hg as [[[[Hg|[Hg Hb]]|[Hg Hb]]|[Hg Hb]]|[Hg Hb]]; apply Z.eqb_eq in Hg; rewrite Hg, ?prefer_of_value, ?Hb; cbn; set_solver.
Qed.
End run.

(** *** Examples *)
Definition decodes_all : SupportedDecoding := mk_decoding 1 1 1 2 1 1 (mk_ability true true) 0.
Definition decodes_vpx (p : PreferCodec) : SupportedDecoding := mk_decoding 1 0 0 (prefer_value p) 1 0 (mk_ability false false) 0.
Definition big_host : host := mk_host false [] (2 ^ 34) (λ _, false) (λ f, if bool_decide (f = H264) then Some (lit "h264_nvenc") else None).
Definition hw_display : display_host := mk_display_host (λ _, None) (λ f, if bool_decide (f = H264) then Some (lit "h264_nvenc") else None).
Definition plain_display : display_host := mk_display_host (λ _, None) (λ _, None).
Lemma hw_faithful : faithful id hw_display.
Proof. intros f [-> | ->]; (split; [done|]); intros name; cbn; [|done]. intros [= <-]. vm_compute. reflexivity. Qed.
Lemma plain_faithful : faithful id plain_display.
Proof. by intros f _. Qed.
Definition some_ops : list cop :=
  [OpUpdate big_host (Update 1 decodes_all); OpRead 0 hw_display; OpRead 1 plain_display; OpFallback 0; OpFallback 1;
   OpUpdate big_host (Update 2 (decodes_vpx PreferVP8))].
Lemma some_ops_expected : Forall (expected id) some_ops.
Proof.
  apply Forall_cons; split; [done|]. apply Forall_cons; split; [exact hw_faithful|]. apply Forall_cons; split; [exact plain_faithful|].
  by repeat (apply Forall_cons; split; [done|]).
Qed.
Lemma negotiated_decodable_witness :
  let s := codec (codec_run map_to_list id some_ops) in
  decodings s !! 2 = Some (decodes_vpx PreferVP8) ∧ format s = VP8
  ∧ (can_decode (decodes_vpx PreferVP8) (format s) = true ∨ overtaken some_ops 2).
Proof.
  assert (decodings (codec (codec_run map_to_list id some_ops)) !! 2 = Some (decodes_vpx PreferVP8)) as Hd by (vm_compute; reflexivity).
  split; [exact Hd|]. split; [vm_compute; reflexivity|].
  exact (proj1 (negotiated_decodable map_to_list (λ _, Permutation_refl _) id some_ops some_ops_expected) 2 _ Hd).
Defined.
(** Two viewers prefer VP8, one H.264 that the second does not decode. *)
Lemma choice_follows_majority_witness :
  let s := codec (codec_run map_to_list id [OpUpdate big_host (Update 1 decodes_all); OpUpdate big_host (Update 2 (decodes_vpx PreferVP8))]) in
  let s' := update map_to_list big_host (Update 3 (decodes_vpx PreferVP8)) s in
  format s' = VP8 ∧ can_encode big_host (format s') = true.
Proof.
  cbv zeta. split; [vm_compute; reflexivity|].
  destruct (choice_follows_majority map_to_list (λ _, Permutation_refl _) big_host (Update 3 (decodes_vpx PreferVP8))
    (codec (codec_run map_to_list id [OpUpdate big_host (Update 1 decodes_all); OpUpdate big_host (Update 2 (decodes_vpx PreferVP8))])))
    as (_ & _ & H & _).
  exact H.
Defined.
Lemma displays_agree_witness :
  let s := codec (codec_run map_to_list id [OpUpdate big_host (Update 1 decodes_all)]) in
  let s' := setups id s [hw_display; plain_display] in
  format s = H264 ∧ format s' = VP9 ∧ at_rest id hw_display s'.
Proof.
  split; [vm_compute; reflexivity|]. split; [vm_compute; reflexivity|].
  apply (displays_agree id); [apply Forall_cons; split; [exact hw_faithful|apply Forall_singleton; exact plain_faithful]|vm_compute; discriminate|apply list_elem_of_here].
Defined.
(** A viewer that does not decode VP9 is sent it nevertheless. *)
Example vp9_is_assumed :
  let d := mk_decoding 0 0 0 0 1 0 (mk_ability false false) 0 in
  let s := codec (codec_run map_to_list id [OpUpdate big_host (Update 1 d)]) in format s = VP9 ∧ can_decode d (format s) = false.
Proof. split; vm_compute; reflexivity. Qed.
(** A viewer that logs in between the two halves of a setup: the codec chosen for it is
    overwritten by the one the display found before, which it does not decode. *)
Example setup_overwrites :
  let w := codec_run map_to_list id [OpUpdate big_host (Update 1 decodes_all); OpRead 0 hw_display; OpUpdate big_host (Update 2 (decodes_vpx PreferAuto))] in
  let w' := cop_step map_to_list id w (OpFallback 0) in
  format (codec w) = VP9 ∧ format (codec w') = H264 ∧ can_decode (decodes_vpx PreferAuto) (format (codec w')) = false.
Proof. split_and!; vm_compute; reflexivity. Qed.
