(* ===== verification/VideoReceive.v ===== *)
(** * The video of a viewer

    What the controlling side does with the frames it receives: the part of the loop of
    a session ([Remote] of [src/src/client/io_loop.rs]) that queues them and controls
    their rate, and the thread per display that decodes them ([start_video_thread] and
    [VideoHandler] of [src/src/client.rs]). Key frames go through the channel of the
    thread; the others through a bounded queue, with a token in the channel for each, so
    that a queue that overflows, or is given up when a new picture was asked for, loses
    only frames that cannot be shown. Arrival is one step: what the thread may do between
    the push and the token that follows it commutes with the token. The thread is a machine with a step per access to
    what it shares. What a codec's library answers is an argument. *)
From S2P Require Import Prelude VideoService CodecNegotiation.
Local Open Scope Z_scope.

(** ** Messages *)
Definition VIDEO_QUEUE_SIZE : nat := 120.
Definition MAX_DECODE_FAIL_COUNTER : Z := 3.
Record EncodedVideoFrame := mk_encoded { data : bytes; key : bool }.
Inductive frame_union :=
| Vp8s (frames : list EncodedVideoFrame) | Vp9s (frames : list EncodedVideoFrame) | Av1s (frames : list EncodedVideoFrame)
| H264s (frames : list EncodedVideoFrame) | H265s (frames : list EncodedVideoFrame) | RGB | YUV.
(** [display] is an [i32]. *)
Record VideoFrame := mk_frame { union : option frame_union; display : Z }.
Definition union_format (u : frame_union) : CodecFormat :=
  match u with Vp8s _ => VP8 | Vp9s _ => VP9 | Av1s _ => AV1 | H264s _ => H264 | H265s _ => H265 | _ => Unknown end.
Definition frame_format (vf : VideoFrame) : CodecFormat :=
  match union vf with Some u => union_format u | None => Unknown end.
Definition contains_key_frame (vf : VideoFrame) : bool :=
  match union vf with
  | Some (Vp8s f | Vp9s f | Av1s f | H264s f | H265s f) => existsb key f
  | _ => false
  end.
(** [vf.display as usize]: the key of its thread. *)
Definition display_of (vf : VideoFrame) : Z := Int.wrap_u64 (display vf).
(** A frame with the number it arrived under, of its display. *)
Record frame := mk_numbered { number : nat; vf : VideoFrame }.
Definition is_key (f : frame) : bool := contains_key_frame (vf f).

Inductive MediaData := MVideoQueue | MVideoFrame (f : frame) | MReset | MRecordScreen (start : bool).
(** What a session sends its loop, and what the loop sends the peer. *)
Inductive peer_message :=
| RefreshVideo | RefreshVideoDisplay (display : Z) | CustomFps (fps : Z) | SupportedDecodings (d : SupportedDecoding) | ClientRecordStatus (start : bool).
Inductive Data := Message (m : peer_message) | ResetDecoder (display : option Z) | DRecordScreen (start : bool).

(** ** Decoding *)
(** A decoder has the library's decoder of its format, or none ([valid]). *)
Record Decoder := mk_decoder { d_format : CodecFormat; valid : bool }.
Definition decoder_new (creates : CodecFormat → bool) (f : CodecFormat) : Decoder :=
  mk_decoder f (match f with Unknown => false | _ => creates f end).
(** The answer to a frame: [Ok] whether there is a picture, or an error. *)
Inductive decode_result := DecodeOk (picture : bool) | DecodeErr.
Definition handle_video_frame (lib : decode_result) (u : frame_union) (d : Decoder) : decode_result :=
  match union_format u with
  | Unknown => DecodeErr
  | f => if bool_decide (f = d_format d) && valid d then lib else DecodeErr
  end.

Record VideoHandler := mk_handler { decoder : Decoder; fail_counter : Z; vh_first_frame : bool; record : bool }.
#[export] Instance handler_eta : Eta VideoHandler := λ r, mk_handler (decoder r) (fail_counter r) (vh_first_frame r) (record r).
Definition handler_new (creates : CodecFormat → bool) (f : CodecFormat) : VideoHandler :=
  mk_handler (decoder_new creates f) 0 true false.
Definition handler_reset (creates : CodecFormat → bool) (f : option CodecFormat) (h : VideoHandler) : VideoHandler :=
  h <| decoder := decoder_new creates (default (d_format (decoder h)) f) |> <| fail_counter := 0 |> <| vh_first_frame := true |>.
Definition count_failure (h : VideoHandler) : VideoHandler :=
  if fail_counter h <? Int.usize_max then
    if vh_first_frame h && (fail_counter h <? MAX_DECODE_FAIL_COUNTER) then h <| fail_counter := MAX_DECODE_FAIL_COUNTER |>
    else h <| fail_counter ::= Z.succ |>
  else h.
Definition handle_frame (creates : CodecFormat → bool) (lib : decode_result) (v : VideoFrame) (h : VideoHandler) : VideoHandler * decode_result :=
  let f := frame_format v in
  let h := if bool_decide (f = d_format (decoder h)) then h else handler_reset creates (Some f) h in
  match union v with
  | Some u =>
      let res := handle_video_frame lib u (decoder h) in
      let h := match res with DecodeOk true => h <| fail_counter := 0 |> | _ => count_failure h end in
      (h <| vh_first_frame := false |>, res)
  | None => (h, DecodeOk false)
  end.
Definition record_screen (start : bool) (h : VideoHandler) : VideoHandler := h <| record := start |>.

(** [fps_calculate], with durations in nanoseconds. *)
Record Speed := mk_speed { skip_beginning : Z; count : Z; duration : Z }.
Definition fps_calculate (format_changed : bool) (elapsed : Z) (w : Speed) (fps : option Z) : Speed * option Z :=
  let w := if format_changed then mk_speed 0 0 0 else w in
  if skip_beginning w <? 3 then (mk_speed (skip_beginning w + 1) (count w) (duration w), fps)
  else
    let dur := duration w + elapsed in
    let n := count w + 1 in
    let ms := dur / 1000000 in
    let fps := if (n mod 10 =? 0) && (0 <? ms) then Some (n * 1000 / ms) else fps in
    (if 30 <=? n then mk_speed (skip_beginning w) 0 0 else mk_speed (skip_beginning w) n dur, fps).

(** ** The thread of a display *)
(** Where it is: at [recv]; before it clears [discard_queue] for a key frame; before the
    pop a token asks for; before it reads [discard_queue] for what it popped; before
    decoding; before the check of the decoder. *)
Inductive dpc := DRecv | DClear (f : frame) | DPop | DCheck (f : frame) | DDecode (f : frame) | DMark.
Record FpsControl := mk_control { refresh_times : Z; last_refresh_instant : option Z; idle_counter : Z; inactive_counter : Z }.
#[export] Instance control_eta : Eta FpsControl := λ r,
  mk_control (refresh_times r) (last_refresh_instant r) (idle_counter r) (inactive_counter r).
(** Beside the state of the code: how many frames arrived, and those given to the
    decoder. *)
Record VideoThread := mk_thread {
  video_queue : list frame;
  channel : list MediaData;
  decode_fps : option Z;
  frame_count : Z;
  discard_queue : bool;
  fps_control : FpsControl;
  dpc_of : dpc;
  video_handler : option VideoHandler;
  speed : Speed;
  arrived : nat;
  given : list frame
}.
#[export] Instance thread_eta : Eta VideoThread := λ r,
  mk_thread (video_queue r) (channel r) (decode_fps r) (frame_count r) (discard_queue r) (fps_control r) (dpc_of r)
    (video_handler r) (speed r) (arrived r) (given r).
Definition video_thread_new : VideoThread :=
  mk_thread [] [] None 0 false (mk_control 0 None 0 0) DRecv None (mk_speed 0 0 0) 0 [].
Definition send_media (m : MediaData) (t : VideoThread) : VideoThread := t <| channel ::= λ c, c ++ [m] |>.

(** [ArrayQueue::force_push]: the queue, and whether it lost its oldest. *)
Definition force_push (f : frame) (q : list frame) : list frame * bool :=
  if (VIDEO_QUEUE_SIZE <=? length q)%nat then (tail q ++ [f], true) else (q ++ [f], false).
(** The arrival of a frame, up to the refresh a loss asks for. *)
Definition arrive (v : VideoFrame) (t : VideoThread) : VideoThread * bool :=
  let f := mk_numbered (arrived t) v in
  let t := t <| arrived ::= S |> in
  if contains_key_frame v then (send_media (MVideoFrame f) t, false)
  else
    let '(q, lost) := force_push f (video_queue t) in
    let t := t <| video_queue := q |> in
    (if lost then t else send_media MVideoQueue t, lost).

(** What the environment answers a step: which decoders can be made, what the library
    says of the frame, how long that took, and what else this side decodes. *)
Record decode_host := mk_decode_host { dh_prefer : Z; dh_prefer_chroma : Z; dh_disable_av1 : bool; dh_h264 : bool; dh_h265 : bool }.
Record answer := mk_answer { creates : CodecFormat → bool; lib : decode_result; took : Z; hosts : decode_host }.
Definition unmark (d : SupportedDecoding) (f : CodecFormat) : SupportedDecoding :=
  let '(mk_decoding vp9 h264 h265 p vp8 av1 i c) := d in
  match f with
  | VP8 => mk_decoding vp9 h264 h265 p 0 av1 i c
  | VP9 => mk_decoding 0 h264 h265 p vp8 av1 i c
  | AV1 => mk_decoding vp9 h264 h265 p vp8 0 i c
  | H264 => mk_decoding vp9 0 h265 p vp8 av1 i c
  | H265 => mk_decoding vp9 h264 0 p vp8 av1 i c
  | Unknown => d
  end.
Definition supported_decodings (h : decode_host) (mark_unsupported : list CodecFormat) : SupportedDecoding :=
  foldl unmark
    (mk_decoding 1 (Z.b2z (dh_h264 h)) (Z.b2z (dh_h265 h)) (dh_prefer h) 1 (if dh_disable_av1 h then 0 else 1) (mk_ability true true) (dh_prefer_chroma h))
    mark_unsupported.

(** What the threads share with the loop of the session ([LoginConfigHandler]). *)
Record Login := mk_login {
  mark_unsupported : list CodecFormat;
  custom_fps : option Z;
  last_auto_fps : option Z;
  record_state : bool;
  record_permission : bool
}.
#[export] Instance login_eta : Eta Login := λ r,
  mk_login (mark_unsupported r) (custom_fps r) (last_auto_fps r) (record_state r) (record_permission r).

Section session.
(** Whether the peer refreshes a single display; the setting to record by itself. *)
Context (multi auto_record : bool).
Definition refresh_video (d : Z) : Data := Message (if multi then RefreshVideoDisplay (Int.wrap_i32 d) else RefreshVideo).

Definition decode (a : answer) (f : frame) (lc : Login) (t : VideoThread) : VideoThread * list Data :=
  let v := vf f in
  let h := match video_handler t with
           | Some h => h
           | None =>
               let h := handler_new (creates a) (frame_format v) in
               if record_state lc && record_permission lc then record_screen true h else h
           end in
  let format_changed := negb (bool_decide (d_format (decoder h) = frame_format v)) in
  let '(h, res) := handle_frame (creates a) (lib a) v h in
  let t := t <| video_handler := Some h |> <| given ::= λ l, l ++ [f] |> <| dpc_of := DMark |> in
  match res with
  | DecodeOk true =>
      let '(w, fps) := fps_calculate format_changed (took a) (speed t) (decode_fps t) in
      (t <| frame_count ::= Z.succ |> <| speed := w |> <| decode_fps := fps |>, [])
  | DecodeErr => (t, [refresh_video (display_of v)])
  | DecodeOk false => (t, [])
  end.
(** The check for invalid decoders: a format that cannot be decoded is marked, once. *)
Definition check_decoder (a : answer) (lc : Login) (t : VideoThread) : VideoThread * list Data * Login :=
  let t' := t <| dpc_of := DRecv |> in
  match video_handler t with
  | Some h =>
      let f := d_format (decoder h) in
      if (negb (valid (decoder h)) || (MAX_DECODE_FAIL_COUNTER <=? fail_counter h)) && negb (bool_decide (f ∈ mark_unsupported lc)) then
        let lc := lc <| mark_unsupported ::= λ l, l ++ [f] |> in
        (t', [Message (SupportedDecodings (supported_decodings (hosts a) (mark_unsupported lc)))], lc)
      else (t', [], lc)
  | None => (t', [], lc)
  end.
(** A step of the thread. *)
Definition decoder_step (a : answer) (lc : Login) (t : VideoThread) : VideoThread * list Data * Login :=
  match dpc_of t with
  | DRecv =>
      match channel t with
      | [] => (t, [], lc)
      | m :: c =>
          let t := t <| channel := c |> in
          (match m with
           | MVideoFrame f => t <| dpc_of := DClear f |>
           | MVideoQueue => t <| dpc_of := DPop |>
           | MReset => t <| video_handler ::= fmap (handler_reset (creates a) None) |>
           | MRecordScreen start => t <| video_handler ::= fmap (record_screen start) |>
           end, [], lc)
      end
  | DClear f => (t <| discard_queue := false |> <| dpc_of := DDecode f |>, [], lc)
  | DPop =>
      match video_queue t with
      | [] => (t <| dpc_of := DRecv |>, [], lc)
      | f :: q => (t <| video_queue := q |> <| dpc_of := DCheck f |>, [], lc)
      end
  | DCheck f => (t <| dpc_of := if discard_queue t then DRecv else DDecode f |>, [], lc)
  | DDecode f => let '(t, out) := decode a f lc t in (t, out, lc)
  | DMark => check_decoder a lc t
  end.

(** ** The session *)
Record Remote := mk_remote {
  video_threads : gmap Z VideoThread;
  sender : list Data;                 (* what the loop has still to handle *)
  to_peer : list peer_message;
  login : Login;
  last_record_state : bool;
  video_format : CodecFormat
}.
#[global] Instance remote_eta : Eta Remote := λ r,
  mk_remote (video_threads r) (sender r) (to_peer r) (login r) (last_record_state r) (video_format r).
(** [Remote::new] with what the configuration of a session keeps across connections. *)
Definition remote_new (lc : Login) : Remote := mk_remote ∅ [] [] lc false Unknown.
Definition login_new : Login := mk_login [] None None false true.

Definition post (l : list Data) (s : Remote) : Remote := s <| sender ::= λ q, q ++ l |>.
Definition update_record_state (s : Remote) : Remote :=
  let permission := record_permission (login s) in
  let state := record_state (login s) && permission in
  let s := s <| login ::= λ lc, lc <| record_state := state |> |> in
  let start := state && permission in
  if bool_decide (last_record_state s = start) then s
  else
    let s := s <| last_record_state := start |> <| video_threads ::= fmap (send_media (MRecordScreen start)) |> in
    post [Message (ClientRecordStatus start)] s.
Definition new_video_thread (d : Z) (s : Remote) : Remote :=
  let s := s <| video_threads ::= insert d video_thread_new |> in
  if bool_decide (size (video_threads s) = 1%nat) then
    update_record_state (s <| login ::= λ lc, lc <| record_state := auto_record |> |>)
  else s.
(** The handler of [message::Union::VideoFrame]. *)
Definition on_video_frame (v : VideoFrame) (s : Remote) : Remote :=
  let s := s <| video_format := frame_format v |> in
  let d := display_of v in
  let s := if bool_decide (is_Some (video_threads s !! d)) then s else new_video_thread d s in
  match video_threads s !! d with
  | Some t =>
      let '(t, lost) := arrive v t in
      let s := s <| video_threads ::= insert d t |> in
      if lost then post [refresh_video d] s else s
  | None => s
  end.
(** [handle_msg_from_ui]. *)
Definition set_discard (t : VideoThread) : VideoThread := t <| discard_queue := true |>.
Definition ui_message (p : peer_message) (s : Remote) : Remote :=
  let s := match p with
           | RefreshVideo => s <| video_threads ::= fmap set_discard |>
           | RefreshVideoDisplay d => s <| video_threads ::= alter set_discard (Int.wrap_u64 d) |>
           | _ => s
           end in
  s <| to_peer ::= λ l, l ++ [p] |>.
Definition ui_reset_decoder (display : option Z) (s : Remote) : Remote :=
  match display with
  | Some d => s <| video_threads ::= alter (send_media MReset) d |>
  | None => s <| video_threads ::= fmap (send_media MReset) |>
  end.
Definition ui_record_screen (start : bool) (s : Remote) : Remote :=
  update_record_state (s <| login ::= λ lc, lc <| record_state := start |> |>).
Definition handle_msg_from_ui (m : Data) (s : Remote) : Remote :=
  match m with
  | Message p => ui_message p s
  | ResetDecoder display => ui_reset_decoder display s
  | DRecordScreen start => ui_record_screen start s
  end.

(** *** The control of the rate *)
Definition inactive_threshold : Z := 15.
Definition real_fps (elapsed : Z) (t : VideoThread) : Z :=
  Int.wrap_i32 (Int.wrap_i32 (frame_count t) * 1000) `quot` Int.wrap_i32 elapsed.
Definition count_inactive (elapsed : Z) (t : VideoThread) : VideoThread :=
  let active := negb (real_fps elapsed t =? 0) in
  t <| frame_count := 0 |> <| fps_control ::= λ c, c <| inactive_counter ::= λ n, if active then 0 else n + 1 |> |>.
Definition chosen_fps (custom : option Z) : Z :=
  let f := default 30 custom in if (f <? 5) || (120 <? f) then 30 else f.
Definition queue_len (t : VideoThread) : Z := Z.of_nat (length (video_queue t)).
Definition opt_min (a b : option Z) : option Z :=
  match a, b with Some x, Some y => Some (Z.min x y) | _, _ => None end.
Definition max_queue_len (ts : list VideoThread) : Z := foldr (λ t, Z.max (queue_len t)) 0 ts.
(** The least of the active threads, of which one that has none yet is the least. *)
Definition min_decode_fps (ts : list VideoThread) : option Z :=
  match filter (λ t, inactive_counter (fps_control t) < inactive_threshold) ts with
  | [] => None
  | t :: ts => foldl (λ m t, opt_min m (decode_fps t)) (decode_fps t) ts
  end.
Definition limited_fps (direct : bool) (min_fps custom : Z) : Z :=
  Z.min (if direct then min_fps * 9 / 10 else min_fps * 4 / 5) custom.
(** [fps_trending] of a thread: whether the rate should rise, and its counters. *)
Definition fps_trending (limited custom : Z) (last : option Z) (t : VideoThread) : VideoThread * option bool :=
  match decode_fps t with
  | None => (t, None)
  | Some fps =>
      let len := queue_len t in
      let last := default custom last in
      if inactive_threshold <? inactive_counter (fps_control t) then (t, None)
      else if (1 <? len) && (limited <? last) || (Z.max 1 (fps / 2) <? len) then
        (t <| fps_control ::= λ c, c <| idle_counter := 0 |> |>, Some false)
      else if len <=? 1 then
        let t := t <| fps_control ::= λ c, c <| idle_counter ::= Z.succ |> |> in
        (t, if (3 <? idle_counter (fps_control t)) && (last + 3 <=? limited) then Some true else None)
      else (t <| fps_control ::= λ c, c <| idle_counter := 0 |> |>, None)
  end.
Definition auto_fps (should_decrease : bool) (limited max_len : Z) : Z :=
  Z.max 1 (if should_decrease && (limited <? max_len) then limited / 2 else limited).
Definition needs_refresh (min_fps now : Z) (t : VideoThread) : bool :=
  let c := fps_control t in
  (refresh_times c <? 20) && (Z.min min_fps (Z.of_nat VIDEO_QUEUE_SIZE / 2) <? queue_len t)
  && ((refresh_times c =? 0) || match last_refresh_instant c with Some i => 10 <? (now - i) / 1000 | None => false end).
Definition refreshed (min_fps now : Z) (t : VideoThread) : VideoThread :=
  if needs_refresh min_fps now t then
    t <| fps_control ::= λ c, c <| refresh_times ::= Z.succ |> <| last_refresh_instant := Some now |> |>
  else t.
(** [fps_control], at a time in milliseconds; [order]: that in which the map of threads
    is iterated. *)
Definition threads_of (s : Remote) : list VideoThread := (map_to_list (video_threads s)).*2.
Definition fps_tick (direct : bool) (elapsed now : Z) (order : list Z) (s : Remote) : Remote :=
  let s := s <| video_threads ::= fmap (count_inactive elapsed) |> in
  let custom := chosen_fps (custom_fps (login s)) in
  let max_len := max_queue_len (threads_of s) in
  match min_decode_fps (threads_of s) with
  | None => s
  | Some min_fps =>
      let limited := limited_fps direct min_fps custom in
      let last := last_auto_fps (login s) in
      let trending := fps_trending limited custom last in
      let trendings := (λ t, (trending t).2) <$> threads_of s in
      let s := s <| video_threads ::= fmap (λ t, (trending t).1) |> in
      let should_decrease := bool_decide (Some false ∈ trendings) in
      let should_increase := negb should_decrease && bool_decide (Some true ∈ trendings) in
      let fps := auto_fps should_decrease limited max_len in
      let s := if (bool_decide (last = None) || should_decrease || should_increase) && negb (bool_decide (Some fps = last))
               then post [Message (CustomFps fps)] (s <| login ::= λ lc, lc <| last_auto_fps := Some fps |> |>) else s in
      let asked := filter (λ d, option_map (needs_refresh min_fps now) (video_threads s !! d) = Some true) order in
      post (refresh_video <$> asked) (s <| video_threads ::= fmap (refreshed min_fps now) |>)
  end.

(** *** Events *)
Inductive revent :=
| FromPeer (v : VideoFrame)
| PeerSwitchDisplay (d : Z)
| PeerRecording (enabled : bool)
| FromUi
| User (m : Data)
| UserCustomFps (fps : Z)
| Decode (d : Z) (a : answer)
| Tick (direct : bool) (elapsed now : Z) (order : list Z).
Definition set_custom_fps (fps : Z) (s : Remote) : Remote :=
  post [Message (CustomFps fps)] (s <| login ::= λ lc, lc <| custom_fps := Some (Int.wrap_u64 fps) |> |>).
Definition rstep (ev : revent) (s : Remote) : Remote :=
  match ev with
  | FromPeer v => on_video_frame v s
  | PeerSwitchDisplay d => s <| video_threads ::= alter (send_media MReset) (Int.wrap_u64 d) |>
  | PeerRecording enabled => update_record_state (s <| login ::= λ lc, lc <| record_permission := enabled |> |>)
  | FromUi => match sender s with [] => s | m :: q => handle_msg_from_ui m (s <| sender := q |>) end
  | User m => post [m] s
  | UserCustomFps fps => set_custom_fps fps s
  | Decode d a =>
      match video_threads s !! d with
      | Some t =>
          let '(t, out, lc) := decoder_step a (login s) t in
          post out (s <| video_threads ::= insert d t |> <| login := lc |>)
      | None => s
      end
  | Tick direct elapsed now order => if elapsed <? 1000 then s else fps_tick direct elapsed now order s
  end.
Definition rrun (evs : list revent) (s : Remote) : Remote := foldl (λ s ev, rstep ev s) s evs.
Definition thread (s : Remote) (d : Z) : VideoThread := default video_thread_new (video_threads s !! d).

(** ** The order of frames *)
(** What is decoded of frames worked through in order: key frames, and the others unless
    frames are being discarded, which a key frame ends. *)
Record view := mk_view { todo : list frame; discards : bool; taken : list frame }.
Inductive vop := VArrive (f : frame) | VDiscard | VTake.
Definition view_step (v : view) (op : vop) : view :=
  match op with
  | VArrive f => mk_view (todo v ++ [f]) (discards v) (taken v)
  | VDiscard => mk_view (todo v) true (taken v)
  | VTake =>
      match todo v with
      | [] => v
      | f :: l => if is_key f then mk_view l false (taken v ++ [f])
                  else mk_view l (discards v) (if discards v then taken v else taken v ++ [f])
      end
  end.
Definition view_new : view := mk_view [] false [].

(** *** The view of a thread *)
(** The frames a channel stands for, a token for the oldest of the queue. *)
Fixpoint resolve (c : list MediaData) (q : list frame) : list frame :=
  match c with
  | [] => []
  | MVideoFrame f :: c => f :: resolve c q
  | MVideoQueue :: c => match q with f :: q => f :: resolve c q | [] => resolve c [] end
  | _ :: c => resolve c q
  end.
Definition in_hand (t : VideoThread) : list MediaData := match dpc_of t with DPop => [MVideoQueue] | _ => [] end.
Definition undecided (t : VideoThread) : list frame := match dpc_of t with DClear f | DCheck f => [f] | _ => [] end.
Definition decided (t : VideoThread) : list frame := match dpc_of t with DDecode f => [f] | _ => [] end.
Definition view_of (t : VideoThread) : view :=
  mk_view (undecided t ++ resolve (in_hand t ++ channel t) (video_queue t)) (discard_queue t) (given t ++ decided t).

Definition is_token (m : MediaData) : bool := match m with MVideoQueue => true | _ => false end.
Definition tokens (c : list MediaData) : nat := length (filter is_token c).
Definition key_message (m : MediaData) : Prop := match m with MVideoFrame f => is_key f = true | _ => True end.
Definition message_frame (m : MediaData) : option frame := match m with MVideoFrame f => Some f | _ => None end.
Definition frames_in (t : VideoThread) : list frame :=
  undecided t ++ decided t ++ given t ++ video_queue t ++ omap message_frame (channel t).
(** A token for every frame in the queue; the channel carries key frames, the queue
    others. *)
Record thread_ok (t : VideoThread) : Prop := {
  ok_tokens : tokens (in_hand t ++ channel t) = length (video_queue t);
  ok_bound : (length (video_queue t) ≤ VIDEO_QUEUE_SIZE)%nat;
  ok_keys : Forall key_message (channel t);
  ok_rest : Forall (λ f, is_key f = false) (video_queue t);
  ok_hand : match dpc_of t with DClear f => is_key f = true | DCheck f => is_key f = false | _ => True end;
  ok_numbers : Forall (λ f, number f < arrived t)%nat (frames_in t)
}.

Lemma tokens_app c c' : tokens (c ++ c') = (tokens c + tokens c')%nat.
Proof. unfold tokens. by rewrite filter_app, length_app. Qed.
Lemma tokens_cons m c : tokens (m :: c) = (Nat.b2n (is_token m) + tokens c)%nat.
Proof. unfold tokens. by destruct m. Qed.
Arguments tokens : simpl never.
Lemma resolve_app c c' q : resolve (c ++ c') q = resolve c q ++ resolve c' (drop (tokens c) q).
Proof.
  revert q. induction c as [|m c IH]; intros q; [done|]. rewrite tokens_cons.
  destruct m; cbn; try (by rewrite IH). destruct q as [|f q]; cbn; rewrite IH; by rewrite ?drop_nil.
Qed.
Lemma resolve_more c q q' : (tokens c ≤ length q)%nat → resolve c (q ++ q') = resolve c q.
Proof.
  revert q. induction c as [|m c IH]; intros q; [done|]. rewrite tokens_cons. destruct m; cbn; intros Hl; try (by rewrite IH).
  destruct q as [|f q]; cbn in *; [lia|]. rewrite IH; [done|lia].
Qed.
Lemma resolve_in c q f : f ∈ resolve c q → f ∈ q ∨ f ∈ omap message_frame c.
Proof.
  revert q. induction c as [|m c IH]; intros q; cbn; [by intros ?%elem_of_nil|].
  destruct m as [|g| |]; cbn; try apply IH; [|set_solver].
  destruct q as [|g q]; [apply IH|]. intros [->|[Hf|Hf]%IH]%elem_of_cons; [left; left|left; by right|by right].
Qed.
Lemma view_numbers t n : Forall (λ f, number f < n)%nat (frames_in t) →
  Forall (λ f, number f < n)%nat (todo (view_of t)) ∧ Forall (λ f, number f < n)%nat (taken (view_of t)).
Proof.
  rewrite !Forall_forall. intros H. split; intros f; cbn.
  - intros [Hf|Hf]%elem_of_app; [apply H, elem_of_app; by left|]. apply H. unfold frames_in. rewrite !elem_of_app.
    apply resolve_in in Hf as [Hf|Hf]; [auto|]. unfold in_hand in Hf. destruct (dpc_of t); cbn in Hf; auto.
  - intros [Hf|Hf]%elem_of_app; apply H; unfold frames_in; rewrite !elem_of_app; auto.
Qed.
(** Bookkeeping that frames do not depend on. *)
Definition core (t : VideoThread) := (video_queue t, channel t, discard_queue t, dpc_of t, arrived t, given t).
Lemma core_view t t' : core t = core t' → view_of t = view_of t' ∧ (thread_ok t → thread_ok t').
Proof.
  destruct t, t'. unfold core. cbn. intros [= -> -> -> -> -> ->]. split; [done|]. by intros [].
Qed.
Lemma send_ok m t : (match m with MReset | MRecordScreen _ => True | _ => False end) → thread_ok t →
  view_of (send_media m t) = view_of t ∧ thread_ok (send_media m t).
Proof.
  intros Hm [Ht Hb Hk Hr Hh Hn]. split.
  { unfold view_of, undecided, decided, in_hand, send_media. cbn.
    rewrite (app_assoc _ (channel t)), resolve_app. destruct m; cbn; rewrite ?app_nil_r; done. }
  split; try done.
  - unfold in_hand, send_media in *. cbn. rewrite app_assoc, tokens_app, Ht. destruct m; rewrite ?Nat.add_0_r; done.
  - cbn. apply Forall_app. split; [done|]. constructor; [by destruct m|constructor].
  - unfold frames_in in *. cbn. rewrite omap_app. destruct m; cbn; rewrite ?app_nil_r; done.
Qed.
Lemma discard_ok t : view_of (set_discard t) = view_step (view_of t) VDiscard ∧ (thread_ok t → thread_ok (set_discard t)).
Proof. split; [done|]. by intros []. Qed.

(** An arrival: a key frame, a frame that finds room, one that does not. *)
Lemma arrive_cases v t (f := mk_numbered (arrived t) v) (t' := t <| arrived ::= S |>) :
  (contains_key_frame v = true ∧ arrive v t = (send_media (MVideoFrame f) t', false))
  ∨ (contains_key_frame v = false ∧ (length (video_queue t) < VIDEO_QUEUE_SIZE)%nat
     ∧ arrive v t = (send_media MVideoQueue (t' <| video_queue ::= λ q, q ++ [f] |>), false))
  ∨ (contains_key_frame v = false ∧ (VIDEO_QUEUE_SIZE ≤ length (video_queue t))%nat
     ∧ arrive v t = (t' <| video_queue ::= λ q, tail q ++ [f] |>, true)).
Proof.
  unfold arrive, force_push. destruct (contains_key_frame v); [by left|right].
  change (video_queue (t <| arrived ::= S |>)) with (video_queue t).
  destruct (Nat.leb_spec VIDEO_QUEUE_SIZE (length (video_queue t))) as [H|H]; [right|left]; (split; [done|]); by split.
Qed.
Lemma arrive_lost v t : (arrive v t).2 = negb (contains_key_frame v) && (VIDEO_QUEUE_SIZE <=? length (video_queue t))%nat.
Proof.
  destruct (arrive_cases v t) as [[-> ->]|[(-> & Hl & ->)|(-> & Hl & ->)]]; [done| |]; symmetry; [by apply Nat.leb_gt|by apply Nat.leb_le].
Qed.
(** An arrival joins what is left to do, unless the queue loses a frame. *)
Lemma arrive_view v t : thread_ok t → (arrive v t).2 = false →
  view_of (arrive v t).1 = view_step (view_of t) (VArrive (mk_numbered (arrived t) v)).
Proof.
  intros [Ht Hb Hk Hr Hh Hn].
  destruct (arrive_cases v t) as [[_ ->]|[(_ & _ & ->)|(_ & _ & ->)]]; [| |done]; intros _; unfold view_step, view_of; cbn; f_equal;
    rewrite <- !app_assoc; f_equal; change (in_hand _) with (in_hand t); rewrite (app_assoc _ (channel t)), resolve_app; [done|].
  by rewrite Ht, drop_app_length, resolve_more by (by rewrite Ht).
Qed.
Lemma arrive_frames v t f : f ∈ frames_in (arrive v t).1 → f ∈ frames_in t ∨ f = mk_numbered (arrived t) v.
Proof.
  destruct (arrive_cases v t) as [[_ ->]|[(_ & _ & ->)|(_ & _ & ->)]]; unfold frames_in, undecided, decided; cbn;
    rewrite ?omap_app, ?elem_of_app; cbn; rewrite ?elem_of_nil, ?list_elem_of_singleton; [tauto..|].
  assert (f ∈ tail (video_queue t) → f ∈ video_queue t) by (destruct (video_queue t); cbn; [done|by right]). tauto.
Qed.
(** A loss leaves as many tokens as frames, though tokens now stand for later ones. *)
Lemma arrive_ok v t : thread_ok t → thread_ok (arrive v t).1.
Proof.
  intros [Ht Hb Hk Hr Hh Hn].
  assert (Forall (λ f, number f < arrived (arrive v t).1)%nat (frames_in (arrive v t).1)) as Hn'.
  { apply Forall_forall. intros f Hf%arrive_frames.
    assert (arrived (arrive v t).1 = S (arrived t)) as -> by by destruct (arrive_cases v t) as [[_ ->]|[(_ & _ & ->)|(_ & _ & ->)]].
    destruct Hf as [Hf| ->]; [|cbn; lia]. rewrite Forall_forall in Hn. specialize (Hn f Hf). lia. }
  destruct (arrive_cases v t) as [[Hkey E]|[(Hkey & Hroom & E)|(Hkey & Hfull & E)]]; rewrite E in *; split; try done; cbn.
  - change (in_hand _) with (in_hand t). by rewrite app_assoc, tokens_app, Ht, Nat.add_0_r.
  - apply Forall_app. split; [done|]. by repeat constructor.
  - change (in_hand _) with (in_hand t). by rewrite app_assoc, tokens_app, Ht, length_app.
  - rewrite length_app. cbn. lia.
  - apply Forall_app. split; [done|]. by repeat constructor.
  - apply Forall_app. split; [done|]. by repeat constructor.
  - change (in_hand _) with (in_hand t). rewrite Ht, length_app. destruct (video_queue t); cbn in *; [unfold VIDEO_QUEUE_SIZE in Hfull|]; lia.
  - rewrite length_app. destruct (video_queue t); cbn in *; [unfold VIDEO_QUEUE_SIZE in Hfull|]; lia.
  - apply Forall_app. split; [by destruct Hr|by repeat constructor].
Qed.
Lemma decode_core a f lc t :
  core (decode a f lc t).1 = core (t <| given ::= λ l, l ++ [f] |> <| dpc_of := DMark |>).
Proof.
  unfold decode. destruct (handle_frame _ _ _ _) as [h res]. destruct res as [[]|]; [|done..].
  by destruct (fps_calculate _ _ _ _).
Qed.
Lemma check_core a lc t : core (check_decoder a lc t).1.1 = core (t <| dpc_of := DRecv |>).
Proof. unfold check_decoder. destruct (video_handler t); [|done]. by destruct (_ && _). Qed.
Lemma Forall_sub {A} (P : A → Prop) l l' : Forall P l → (∀ x, x ∈ l' → x ∈ l) → Forall P l'.
Proof. rewrite !Forall_forall. auto. Qed.
Ltac same_frames H := eapply Forall_sub; [exact H|]; intros ?; cbn; repeat first [rewrite elem_of_app | rewrite elem_of_cons | rewrite elem_of_nil]; tauto.
Definition decides (t : VideoThread) : bool := match dpc_of t with DClear _ | DCheck _ => true | _ => false end.
(** A step of the thread works one frame through, or none. *)
Lemma decoder_view a lc t (t' := (decoder_step a lc t).1.1) : thread_ok t →
  view_of t' = (if decides t then view_step (view_of t) VTake else view_of t) ∧ thread_ok t' ∧ arrived t' = arrived t.
Proof.
  intros Hok. pose proof Hok as [Ht Hb Hk Hr Hh Hn]. subst t'. unfold decoder_step, decides, view_of, frames_in, undecided, decided, in_hand in *.
  destruct (dpc_of t) as [|f| |f|f|] eqn:Hpc; cbn in *.
  - destruct (channel t) as [|m c] eqn:Hc; cbn; [rewrite ?Hpc, ?Hc; by split|].
    inversion Hk; subst. rewrite tokens_cons in Ht.
    destruct m; cbn in *; (split; [by rewrite ?Hpc|split; [|done]]); split; unfold frames_in, undecided, decided, in_hand; cbn;
      rewrite ?Hpc, ?tokens_cons; try done; cbn.
    same_frames Hn.
  - rewrite Hh, app_nil_r. split; [done|]. split; [|done]. split; unfold frames_in, undecided, decided, in_hand; cbn; done.
  - destruct (video_queue t) as [|f q] eqn:Hq; [done|]. cbn in *. inversion Hr; subst. rewrite tokens_cons in Ht.
    split; [done|split; [|done]]. split; unfold frames_in, undecided, decided, in_hand; cbn in *; try done; try lia.
    same_frames Hn.
  - rewrite Hh, app_nil_r. destruct (discard_queue t); cbn; rewrite ?app_nil_r; (split; [done|split; [|done]]); split; unfold frames_in, undecided, decided, in_hand; cbn; try done.
    by inversion Hn.
  - destruct (decode a f lc t) as [t1 out] eqn:Hd. pose proof (decode_core a f lc t) as Hc. rewrite Hd in Hc. cbn in *.
    symmetry in Hc. pose proof (core_view _ _ Hc) as [Hv Hok1]. cbn in *. split; [|split].
    + transitivity (view_of t1); [done|]. rewrite <- Hv. unfold view_of, undecided, decided, in_hand. cbn. by rewrite app_nil_r.
    + apply Hok1. split; unfold frames_in, undecided, decided, in_hand; cbn; try done.
      same_frames Hn.
    + by inversion Hc.
  - pose proof (check_core a lc t) as Hc. symmetry in Hc. pose proof (core_view _ _ Hc) as [Hv Hok1]. cbn in *. split; [|split].
    + transitivity (view_of (check_decoder a lc t).1.1); [done|]. by rewrite <- Hv.
    + apply Hok1. split; unfold frames_in, undecided, decided, in_hand; cbn; try done.
    + by inversion Hc.
Qed.

(** *** The view of a display *)
(** A step that leaves the frames of a thread alone. *)
Definition same (t t' : VideoThread) : Prop := thread_ok t → view_of t' = view_of t ∧ thread_ok t' ∧ arrived t' = arrived t ∧ video_queue t' = video_queue t.
Lemma same_refl t : same t t.
Proof. by intros. Qed.
Lemma same_trans t1 t2 t3 : same t1 t2 → same t2 t3 → same t1 t3.
Proof. intros H1 H2 Hok. destruct (H1 Hok) as (<- & Hok2 & <- & <-). by apply H2. Qed.
Lemma same_core t t' : core t' = core t → same t t'.
Proof. intros H Hok. symmetry in H. destruct (core_view _ _ H) as [-> Hok']. split; [done|]. split; [auto|]. by inversion H. Qed.
Lemma same_send m t : (match m with MReset | MRecordScreen _ => True | _ => False end) → same t (send_media m t).
Proof. intros Hm Hok. by destruct (send_ok m t Hm Hok). Qed.
Lemma thread_fmap g s d : (∀ t, same t (g t)) → same (thread s d) (thread (s <| video_threads ::= fmap g |>) d).
Proof. intros Hg. unfold thread. cbn. rewrite lookup_fmap. by destruct (video_threads s !! d); cbn. Qed.
Lemma thread_alter g d' s d : (∀ t, same t (g t)) → same (thread s d) (thread (s <| video_threads ::= alter g d' |>) d).
Proof.
  intros Hg. unfold thread. cbn. destruct (decide (d' = d)) as [->|Hd]; [|by rewrite lookup_alter_ne].
  rewrite lookup_alter_eq. by destruct (video_threads s !! d); cbn.
Qed.
Lemma record_same s d : same (thread s d) (thread (update_record_state s) d).
Proof.
  unfold update_record_state. cbn. case_bool_decide; [by apply same_refl|].
  match goal with |- context [MRecordScreen ?b] => apply (thread_fmap (send_media (MRecordScreen b)) s) end. intros t. by apply same_send.
Qed.
Lemma new_same d' s d : video_threads s !! d' = None → same (thread s d) (thread (new_video_thread d' s) d).
Proof.
  intros Hnone. assert (∀ x, thread (s <| video_threads ::= insert d' video_thread_new |>) x = thread s x) as E.
  { intros x. unfold thread. cbn. destruct (decide (d' = x)) as [->|]; [by rewrite lookup_insert_eq, Hnone|by rewrite lookup_insert_ne]. }
  unfold new_video_thread. cbn. case_bool_decide; rewrite <- E; [|apply same_refl].
  set (s2 := s <| video_threads ::= insert d' video_thread_new |> <| login ::= λ lc, lc <| record_state := auto_record |> |>).
  change (same (thread s2 d) (thread (update_record_state s2) d)). apply record_same.
Qed.
Lemma tick_same direct elapsed now order s d : same (thread s d) (thread (fps_tick direct elapsed now order s) d).
Proof.
  unfold fps_tick. set (s1 := s <| video_threads ::= fmap (count_inactive elapsed) |>).
  assert (same (thread s d) (thread s1 d)) as H1 by (apply thread_fmap; intros t; by apply same_core).
  destruct (min_decode_fps _) as [m|]; [|done]. eapply same_trans; [exact H1|].
  set (lim := limited_fps _ _ _). set (cus := chosen_fps _). set (las := last_auto_fps _).
  set (s2 := s1 <| video_threads ::= fmap (λ t, (fps_trending lim cus las t).1) |>).
  assert (same (thread s1 d) (thread s2 d)) as H2.
  { apply thread_fmap. intros t. apply same_core. unfold fps_trending. destruct (decode_fps t); [|done]. by repeat case_match. }
  eapply same_trans; [exact H2|]. cbv zeta. match goal with |- context [if ?b then post ?l ?s' else s2] => set (s3 := if b then post l s' else s2) end.
  assert (thread s3 d = thread s2 d) as <- by (subst s3; by case_match).
  apply (thread_fmap (refreshed m now) s3). intros t. apply same_core. unfold refreshed. by case_match.
Qed.

(** What an event does to the frames of a display, and whether it loses one. *)
Definition ops_of (d : Z) (s : Remote) (ev : revent) : list vop :=
  match ev with
  | FromPeer v => if display_of v =? d then [VArrive (mk_numbered (arrived (thread s d)) v)] else []
  | FromUi =>
      if bool_decide (is_Some (video_threads s !! d)) then
        match sender s with
        | Message RefreshVideo :: _ => [VDiscard]
        | Message (RefreshVideoDisplay x) :: _ => if Int.wrap_u64 x =? d then [VDiscard] else []
        | _ => []
        end
      else []
  | Decode x _ => if (x =? d) && bool_decide (is_Some (video_threads s !! d)) && decides (thread s d) then [VTake] else []
  | _ => []
  end.
Definition loses (d : Z) (s : Remote) (ev : revent) : bool :=
  match ev with FromPeer v => (display_of v =? d) && (arrive v (thread s d)).2 | _ => false end.
Definition new_arrivals (d : Z) (ev : revent) : nat :=
  match ev with FromPeer v => if display_of v =? d then 1 else 0 | _ => 0 end.
(** The frames of a thread move as the operations say. *)
Definition moves (ops : list vop) (n : nat) (lossless : Prop) (t t' : VideoThread) : Prop := thread_ok t →
  thread_ok t' ∧ arrived t' = (n + arrived t)%nat ∧ (lossless → view_of t' = foldl view_step (view_of t) ops).
Lemma same_moves P t t' : same t t' → moves [] 0 P t t'.
Proof. intros H Hok. by destruct (H Hok) as (? & ? & ? & ?). Qed.

Lemma frame_moves v s d (ev := FromPeer v) :
  moves (ops_of d s ev) (new_arrivals d ev) (loses d s ev = false) (thread s d) (thread (on_video_frame v s) d).
Proof.
  set (s1 := s <| video_format := frame_format v |>). set (x := display_of v).
  set (s2 := if bool_decide (is_Some (video_threads s1 !! x)) then s1 else new_video_thread x s1).
  assert (same (thread s d) (thread s2 d)) as Hs2.
  { subst s2. case_bool_decide as Hx; [apply same_refl|]. apply (new_same x s1), eq_None_not_Some, Hx. }
  assert (is_Some (video_threads s2 !! x)) as [t Ht].
  { subst s2. case_bool_decide; [done|]. unfold new_video_thread. cbn. case_bool_decide; cbn; [|by rewrite lookup_insert_eq].
    unfold update_record_state. cbn. case_bool_decide; cbn; [by rewrite lookup_insert_eq|]. by rewrite lookup_fmap, lookup_insert_eq. }
  unfold on_video_frame. fold s1 x s2. rewrite Ht. unfold ev, ops_of, new_arrivals, loses. fold x.
  destruct (arrive v t) as [t' lost] eqn:Ha.
  assert (thread s2 x = t) as Htx by (unfold thread; by rewrite Ht).
  match goal with |- moves _ _ _ _ (thread ?s3 d) => assert (thread s3 d = if x =? d then t' else thread s2 d) as -> end.
  { destruct lost; unfold thread; cbn; (destruct (Z.eqb_spec x d) as [->|]; [by rewrite lookup_insert_eq|by rewrite lookup_insert_ne]). }
  destruct (Z.eqb_spec x d) as [->|Hd]; [|by apply same_moves]. cbn. intros Hok. destruct (Hs2 Hok) as (Hv & Hok2 & Hn & Hq). rewrite Htx in *.
  replace t' with (arrive v t).1 by (by rewrite Ha). split; [by apply arrive_ok|]. split.
  - rewrite <- Hn. by destruct (arrive_cases v t) as [[_ ->]|[(_ & _ & ->)|(_ & _ & ->)]].
  - rewrite <- Hv, <- Hn. intros Hl. apply arrive_view; [done|]. by rewrite arrive_lost, Hq, <- arrive_lost.
Qed.
(** Every event is a few operations on the view of a display. *)
Lemma step_moves ev s d :
  moves (ops_of d s ev) (new_arrivals d ev) (loses d s ev = false) (thread s d) (thread (rstep ev s) d).
Proof.
  destruct ev as [v|x|e| |m|fps|x a|direct elapsed now order].
  - apply frame_moves.
  - apply same_moves, (thread_alter (send_media MReset)). intros t. by apply same_send.
  - apply same_moves. set (s1 := s <| login ::= λ lc, lc <| record_permission := e |> |>). apply (record_same s1 d).
  - unfold ops_of, loses, new_arrivals, rstep. destruct (sender s) as [|m q]; [destruct (bool_decide _); by apply same_moves, same_refl|].
    set (s1 := s <| sender := q |>). change (thread s d) with (thread s1 d). change (video_threads s !! d) with (video_threads s1 !! d). clearbody s1.
    assert (∀ ops, (∀ t, video_threads s1 !! d = Some t → ops = [VDiscard]) → (video_threads s1 !! d = None → ops = []) →
      ∀ s', video_threads s' !! d = set_discard <$> video_threads s1 !! d → moves ops 0 (false = false) (thread s1 d) (thread s' d)) as Hdisc.
    { intros ops H1 H2 s' Hs'. unfold thread. rewrite Hs'. destruct (video_threads s1 !! d) as [t|]; cbn.
      - rewrite (H1 t eq_refl). intros Hok. destruct (discard_ok t) as [Hv Hok']. split; [auto|]. by split.
      - rewrite (H2 eq_refl). by apply same_moves, same_refl. }
    assert (∀ ops, ops = [] → ∀ s', same (thread s1 d) (thread s' d) → moves ops 0 (false = false) (thread s1 d) (thread s' d)) as Hsame.
    { intros ? ->. intros. by apply same_moves. }
    destruct m as [[|x|f|dec|st]|[x|]|st]; cbn.
    + apply Hdisc; [intros t ->; by rewrite bool_decide_true|intros ->; case_bool_decide as Hex; [by destruct Hex|done]|]. cbn. by rewrite lookup_fmap.
    + destruct (Z.eqb_spec (Int.wrap_u64 x) d) as [<-|Hx].
      * apply Hdisc; [intros t ->; by rewrite bool_decide_true|intros ->; case_bool_decide as Hex; [by destruct Hex|done]|]. cbn. by rewrite lookup_alter_eq.
      * apply Hsame; [by case_bool_decide|]. unfold thread. cbn. rewrite lookup_alter_ne by done. apply same_refl.
    + apply Hsame; [by case_bool_decide|]. apply same_refl.
    + apply Hsame; [by case_bool_decide|]. apply same_refl.
    + apply Hsame; [by case_bool_decide|]. apply same_refl.
    + apply Hsame; [by case_bool_decide|]. apply (thread_alter (send_media MReset) x s1 d). intros t. by apply same_send.
    + apply Hsame; [by case_bool_decide|]. apply (thread_fmap (send_media MReset) s1 d). intros t. by apply same_send.
    + apply Hsame; [by case_bool_decide|]. set (s2 := s1 <| login ::= λ lc, lc <| record_state := st |> |>). apply (record_same s2 d).
  - apply same_moves, same_refl.
  - apply same_moves, same_refl.
  - cbn. destruct (video_threads s !! x) as [t|] eqn:Ht.
    2:{ destruct (Z.eqb_spec x d) as [->|]; [rewrite Ht|]; by apply same_moves, same_refl. }
    pose proof (decoder_view a (login s) t) as Hdv. destruct (decoder_step a (login s) t) as [[t' out] lc]. cbn [fst snd] in Hdv.
    assert (∀ s', video_threads s' = <[x := t']> (video_threads s) → thread s' d = if x =? d then t' else thread s d) as Hth.
    { intros s' E. unfold thread. rewrite E. destruct (Z.eqb_spec x d) as [->|]; [by rewrite lookup_insert_eq|by rewrite lookup_insert_ne]. }
    match goal with |- moves _ _ _ _ (thread ?s' d) => rewrite (Hth s' eq_refl) end. destruct (Z.eqb_spec x d) as [->|]; [|by apply same_moves, same_refl].
    unfold thread. rewrite Ht. cbn. intros Hok. destruct (Hdv Hok) as (Hv & Hok' & Hn). split; [done|]. split; [done|]. intros _. rewrite Hv. by destruct (decides t).
  - cbn. destruct (elapsed <? 1000); [by apply same_moves, same_refl|]. apply same_moves, tick_same.
Qed.

(** *** Runs *)
Fixpoint lossless (d : Z) (s : Remote) (evs : list revent) : bool :=
  match evs with [] => true | ev :: evs => negb (loses d s ev) && lossless d (rstep ev s) evs end.
Fixpoint trace (d : Z) (s : Remote) (evs : list revent) : list vop :=
  match evs with [] => [] | ev :: evs => ops_of d s ev ++ trace d (rstep ev s) evs end.
(** The frames that arrive for a display. *)
Definition frames_of (d : Z) (evs : list revent) : list VideoFrame :=
  omap (λ ev, match ev with FromPeer v => if display_of v =? d then Some v else None | _ => None end) evs.
Definition arrival (op : vop) : option frame := match op with VArrive f => Some f | _ => None end.

Lemma new_thread_ok : thread_ok video_thread_new.
Proof. split; cbn; try done; try constructor. unfold VIDEO_QUEUE_SIZE. lia. Qed.
Lemma run_ok d evs s : thread_ok (thread s d) → thread_ok (thread (rrun evs s) d).
Proof. revert s. induction evs as [|ev evs IH]; intros s Hs; [done|]. cbn. by apply IH, step_moves. Qed.
Lemma start_ok d lc evs : thread_ok (thread (rrun evs (remote_new lc)) d).
Proof. apply run_ok. unfold thread. cbn. rewrite lookup_empty. apply new_thread_ok. Qed.
Lemma run_view d evs s : thread_ok (thread s d) → lossless d s evs = true →
  view_of (thread (rrun evs s) d) = foldl view_step (view_of (thread s d)) (trace d s evs).
Proof.
  revert s. induction evs as [|ev evs IH]; intros s Hs; [done|]. cbn [lossless trace]. intros [Hl Hr]%andb_true_iff.
  destruct (step_moves ev s d Hs) as (Hok & _ & Hv). change (rrun (ev :: evs) s) with (rrun evs (rstep ev s)). rewrite IH by done. rewrite foldl_app, Hv by (by apply negb_true_iff). done.
Qed.
Lemma ops_arrivals d s ev : omap arrival (ops_of d s ev) = match frames_of d [ev] with [] => [] | v :: _ => [mk_numbered (arrived (thread s d)) v] end.
Proof.
  destruct ev as [v|x|e| |m|fps|x a|direct elapsed now order]; cbn; try done.
  - by destruct (display_of v =? d).
  - destruct (bool_decide _); [|done]. destruct (sender s) as [|[[]|[]|] ?]; try done. by destruct (_ =? d).
  - by destruct (_ && _).
Qed.
Lemma trace_arrivals d evs s : thread_ok (thread s d) →
  omap arrival (trace d s evs) = imap (λ i, mk_numbered (i + arrived (thread s d))) (frames_of d evs).
Proof.
  revert s. induction evs as [|ev evs IH]; intros s Hs; [done|]. cbn [trace]. destruct (step_moves ev s d Hs) as (Hok & Hn & _).
  rewrite omap_app, ops_arrivals, IH, Hn by done.
  assert (frames_of d (ev :: evs) = frames_of d [ev] ++ frames_of d evs) as ->.
  { change (ev :: evs) with ([ev] ++ evs). unfold frames_of. by rewrite omap_app. }
  assert (new_arrivals d ev = length (frames_of d [ev])) as ->.
  { destruct ev; try done. cbn. by destruct (display_of v =? d). }
  assert (frames_of d [ev] = [] ∨ ∃ v, frames_of d [ev] = [v]) as [->|[v ->]]; [|done|].
  { destruct ev; cbn; auto. destruct (display_of v =? d); eauto. }
  cbn. f_equal. apply imap_ext. intros. cbn. f_equal. lia.
Qed.

(** C19: frames are worked through in order. While the queue of a display loses none, its
    thread, with its channel of tokens and key frames, its queue and the flag that is set
    and read between its steps, does with the frames of its display what decoding them
    one by one would do. Those steps are [trace]: a frame arrives when the peer sends it,
    and the frames arrive in the order sent; discarding begins when the loop handles a refresh of the display or of
    all, and at no other time; a frame is taken at the step of the thread that decides about it. Of the frames taken key
    frames are decoded and end discarding, the others are decoded unless they are being discarded. *)
Theorem receive_refines d lc evs (ops := trace d (remote_new lc) evs) (Hl : lossless d (remote_new lc) evs = true) :
  omap arrival ops = imap mk_numbered (frames_of d evs)
  ∧ view_of (thread (rrun evs (remote_new lc)) d) = foldl view_step view_new ops.
Proof.
  pose proof (start_ok d lc []) as Hok. split; unfold ops.
  - rewrite trace_arrivals by done. unfold thread. cbn. rewrite lookup_empty. apply imap_ext. intros. cbn. f_equal. lia.
  - rewrite run_view by done. unfold thread. cbn. by rewrite lookup_empty.
Qed.

(** *** Frames follow the one before *)
Definition follows_last (k : nat) (l : list frame) : Prop :=
  ∀ l1 f l2, l = l1 ++ f :: l2 → (k < number f)%nat → is_key f = false → ∃ l0 g, l1 = l0 ++ [g] ∧ number f = S (number g).
Lemma follows_snoc k l f : follows_last k l →
  ((k < number f)%nat → is_key f = false → ∃ l0 g, l = l0 ++ [g] ∧ number f = S (number g)) → follows_last k (l ++ [f]).
Proof.
  intros Hl Hf l1 g l2 E Hk Hg. destruct l2 as [|h l2 _] using rev_ind.
  - apply app_inj_tail in E as [<- <-]. auto.
  - rewrite app_comm_cons, app_assoc in E. apply app_inj_tail in E as [E _]. by apply (Hl l1 g l2).
Qed.
(** From the arrival of the key frame [k] on: either it has still to be worked through,
    or what follows does, after all before it, unless it is discarded. *)
Record in_step (k a : nat) (v : view) : Prop := {
  is_follows : follows_last k (taken v);
  is_phase :
    (∃ pre f post, todo v = pre ++ f :: post ∧ number f = k ∧ is_key f = true ∧ number <$> post = seq (S k) (a - S k)
      ∧ Forall (λ g, number g < k)%nat pre ∧ Forall (λ g, number g < k)%nat (taken v))
    ∨ (∃ m, (k < m)%nat ∧ (m ≤ a)%nat ∧ number <$> todo v = seq m (a - m)
      ∧ (discards v = true ∨ ∃ l g, taken v = l ++ [g] ∧ S (number g) = m))
}.
Lemma below_follows k l : Forall (λ g, number g ≤ k)%nat l → follows_last k l.
Proof. intros H l1 f l2 -> Hk _. apply Forall_app in H as [_ H]. inversion H; subst. lia. Qed.
Lemma seq_end m a : (m ≤ a)%nat → seq m (S a - m) = seq m (a - m) ++ [a].
Proof. intros H. replace (S a - m)%nat with (a - m + 1)%nat by lia. rewrite seq_app. cbn. do 2 f_equal. lia. Qed.
Lemma arrive_in_step k a v f : in_step k a v → (k < a)%nat → number f = a → in_step k (S a) (view_step v (VArrive f)).
Proof.
  intros [Hf Hp] Hka Hn. split; [done|]. cbn. destruct Hp as [(pre & g & post & Ht & Hg & Hk & Hpost & Hpre & Htk)|(m & Hkm & Hma & Ht & Hd)].
  - left. exists pre, g, (post ++ [f]). rewrite Ht, <- app_assoc. do 3 (split; [done|]). split; [|done].
    pose proof (seq_end (S k) a ltac:(lia)) as E. cbn in E. rewrite fmap_app, Hpost. cbn. by rewrite E, Hn.
  - right. exists m. do 2 (split; [lia|]). split; [|done].
    rewrite fmap_app, Ht, seq_end by lia. cbn. by rewrite Hn.
Qed.
Lemma take_in_step k a v : in_step k a v → (k < a)%nat → in_step k a (view_step v VTake).
Proof.
  intros [Hf Hp] Hka. destruct v as [todo dis tak]. cbn in *. destruct Hp as [(pre & g & post & -> & Hg & Hk & Hpost & Hpre & Htk)|(m & Hkm & Hma & Ht & Hd)].
  - destruct pre as [|h pre]; cbn.
    + rewrite Hk. split; cbn.
      * apply follows_snoc; [done|]. lia.
      * right. exists (S k). do 2 (split; [lia|]). split; [done|]. right. exists tak, g. by rewrite Hg.
    + inversion Hpre as [|? ? Hh Hpre']; subst.
      assert (Forall (λ f, number f < number g)%nat (tak ++ [h])) as Hth by (apply Forall_app; split; [done|by repeat constructor]).
      assert (in_step (number g) a (mk_view (pre ++ g :: post) dis tak)) as Hskip by (split; [done|left; exists pre, g, post; done]).
      destruct (is_key h), dis; try done; (split; cbn; [apply below_follows; eapply Forall_impl; [exact Hth|cbn; lia]|left; exists pre, g, post; done]).
  - destruct todo as [|f todo]; [split; [done|]; right; by exists m|]. destruct (a - m)%nat as [|n] eqn:Ham; [done|]. cbn in Ht.
    injection Ht as Hm Ht. replace n with (a - S m)%nat in Ht by lia.
    assert (∀ dis', is_key f = true ∨ (∃ l g, tak = l ++ [g] ∧ S (number g) = m) → in_step k a (mk_view todo dis' (tak ++ [f]))) as Htake.
    { intros dis' Hor. split; cbn.
      - apply follows_snoc; [done|]. intros _ Hnk. destruct Hor as [?|(l & g & -> & Hg)]; [congruence|]. exists l, g. by rewrite Hm.
      - right. exists (S m). do 2 (split; [lia|]). split; [done|]. right. exists tak, f. by rewrite Hm. }
    destruct (is_key f) eqn:Hkey; [by apply Htake; left|]. destruct dis; [|apply Htake; right; by destruct Hd].
    split; [done|]. cbn. right. exists (S m). do 2 (split; [lia|]). split; [done|]. by left.
Qed.
Lemma discard_in_step k a v : in_step k a v → in_step k a (view_step v VDiscard).
Proof.
  intros [Hf [Hp|(m & Hkm & Hma & Ht & _)]]; (split; [done|]); [by left|]. right. exists m. by repeat (split; [done|]); left.
Qed.
Lemma step_in_step k ev s d : thread_ok (thread s d) → loses d s ev = false → (k < arrived (thread s d))%nat →
  in_step k (arrived (thread s d)) (view_of (thread s d)) →
  in_step k (arrived (thread (rstep ev s) d)) (view_of (thread (rstep ev s) d)) ∧ (k < arrived (thread (rstep ev s) d))%nat.
Proof.
  intros Hok Hl Hk Hin. destruct (step_moves ev s d Hok) as (_ & Hn & Hv). rewrite (Hv Hl), Hn. split; [|lia]. clear Hv Hn Hl.
  destruct ev as [v|x|e| |m|fps|x a|direct elapsed now order]; try done; unfold ops_of, new_arrivals.
  - destruct (display_of v =? d); [|done]. by apply arrive_in_step.
  - destruct (bool_decide _); [|done]. destruct (sender s) as [|[[]|[]|] ?]; try done; [by apply discard_in_step|].
    destruct (_ =? d); [by apply discard_in_step|done].
  - destruct (_ && _); [by apply take_in_step|done].
Qed.
Lemma run_in_step k d evs s : thread_ok (thread s d) → lossless d s evs = true → (k < arrived (thread s d))%nat →
  in_step k (arrived (thread s d)) (view_of (thread s d)) → follows_last k (taken (view_of (thread (rrun evs s) d))).
Proof.
  revert s. induction evs as [|ev evs IH]; intros s Hok Hl Hk Hin; [apply Hin|]. cbn [lossless] in Hl. apply andb_true_iff in Hl as [Hl Hr].
  apply negb_true_iff in Hl. destruct (step_in_step k ev s d Hok Hl Hk Hin) as [Hin' Hk']. apply (IH (rstep ev s)); try done. by apply step_moves.
Qed.
(** A key frame arrives: all else the thread holds came before. *)
Lemma key_in_step d s v : thread_ok (thread s d) → display_of v = d → contains_key_frame v = true →
  let k := arrived (thread s d) in let t := thread (rstep (FromPeer v) s) d in in_step k (arrived t) (view_of t) ∧ (k < arrived t)%nat.
Proof.
  intros Hok Hd Hkey. cbv zeta. set (k := arrived (thread s d)).
  assert (loses d s (FromPeer v) = false) as Hl by (cbn [loses]; by rewrite Hd, Z.eqb_refl, arrive_lost, Hkey).
  destruct (step_moves (FromPeer v) s d Hok) as (_ & Hn & Hv). rewrite (Hv Hl), Hn. unfold ops_of, new_arrivals. rewrite Hd, Z.eqb_refl.
  destruct Hok as [_ _ _ _ _ Hnum]. apply view_numbers in Hnum as [Ht Htk]. split; [|cbn; lia]. split.
  - apply below_follows. eapply Forall_impl; [exact Htk|]. cbn. fold k. lia.
  - left. exists (todo (view_of (thread s d))), (mk_numbered k v), []. cbn. by rewrite Nat.sub_diag.
Qed.
Lemma given_follows k t : follows_last k (taken (view_of t)) → follows_last k (given t).
Proof. intros H l1 f l2 E. apply (H l1 f (l2 ++ decided t)). cbn. rewrite E. by rewrite <- app_assoc. Qed.
Lemma key_run d s v evs : thread_ok (thread s d) → display_of v = d → contains_key_frame v = true → lossless d (rstep (FromPeer v) s) evs = true →
  follows_last (arrived (thread s d)) (given (thread (rrun (FromPeer v :: evs) s) d)).
Proof.
  intros Hok Hd Hkey Hl. apply given_follows. destruct (key_in_step d s v Hok Hd Hkey) as [Hin Hk].
  apply (run_in_step _ d evs (rstep (FromPeer v) s)); try done. by apply step_moves.
Qed.

(** discarding makes no gaps, and a key frame heals. From the arrival of a key frame
    on, as long as the queue loses no more frames and whatever it lost before, every frame
    given to the decoder is a key frame or follows the one given before it: refreshes asked
    for at any moment, which have frames discarded, resets, and any interleaving of the
    loop of the session and of the thread keep it so. *)
Theorem decoder_in_step d lc evs v evs' (s := rrun evs (remote_new lc)) (Hd : display_of v = d) (Hkey : contains_key_frame v = true)
  (Hl : lossless d (rstep (FromPeer v) s) evs' = true) l1 f l2 (Hg : given (thread (rrun (FromPeer v :: evs') s) d) = l1 ++ f :: l2)
  (Hf : (arrived (thread s d) < number f)%nat) : is_key f = true ∨ ∃ l0 g, l1 = l0 ++ [g] ∧ number f = S (number g).
Proof.
  destruct (is_key f) eqn:Hk; [by left|right]. eapply key_run; [apply start_ok|done..].
Qed.

(** *** Both ends *)
Lemma view_in f ops v : f ∈ todo (foldl view_step v ops) ++ taken (foldl view_step v ops) → f ∈ todo v ++ taken v ∨ f ∈ omap arrival ops.
Proof.
  revert v. induction ops as [|op ops IH]; intros v; cbn; [by left|]. intros [H|H]%IH; [|right; destruct op; cbn; [by right|done|done]].
  rewrite elem_of_app in H |- *. destruct op as [g| |]; cbn in *; [|by left|left].
  - rewrite elem_of_app, list_elem_of_singleton in H. rewrite elem_of_cons. tauto.
  - destruct v as [[|g l] dis tk]; cbn in *; [done|]. rewrite elem_of_cons. destruct (is_key g), dis; cbn in H;
      rewrite ?elem_of_app, ?list_elem_of_singleton in H; tauto.
Qed.
Lemma given_in d lc evs f : lossless d (remote_new lc) evs = true → f ∈ given (thread (rrun evs (remote_new lc)) d) →
  frames_of d evs !! number f = Some (vf f).
Proof.
  intros Hl Hf. pose proof (start_ok d lc []) as Hok. pose proof (run_view d evs _ Hok Hl) as Hv. cbn [rrun foldl] in Hv.
  destruct (view_in f (trace d (remote_new lc) evs) (view_of (thread (remote_new lc) d))) as [H|H].
  - rewrite <- Hv. cbn. rewrite !elem_of_app. auto.
  - unfold thread in H. cbn in H. rewrite lookup_empty in H. by apply elem_of_nil in H.
  - rewrite trace_arrivals in H by done. apply elem_of_lookup_imap in H as (i & v & -> & Hi). unfold thread. cbn. rewrite lookup_empty. cbn. by rewrite Nat.add_0_r.
Qed.
Lemma first_arrival d evs v l : frames_of d evs = v :: l →
  ∃ evs1 evs2, evs = evs1 ++ FromPeer v :: evs2 ∧ frames_of d evs1 = [] ∧ display_of v = d.
Proof.
  induction evs as [|ev evs IH]; [done|]. intros H.
  assert (frames_of d [ev] = [] ∧ frames_of d evs = v :: l ∨ ev = FromPeer v ∧ display_of v = d) as [[H1 H2]|[-> Hd]].
  { destruct ev; cbn in H |- *; try (by left). destruct (Z.eqb_spec (display_of v0) d); [right; by inversion H; subst|by left]. }
  - destruct (IH H2) as (evs1 & evs2 & -> & He & Hd). exists (ev :: evs1), evs2. split; [done|]. split; [|done].
    change (ev :: evs1) with ([ev] ++ evs1). unfold frames_of in *. by rewrite omap_app, H1, He.
  - by exists [], evs.
Qed.
Lemma run_arrived d evs s : thread_ok (thread s d) → frames_of d evs = [] → arrived (thread (rrun evs s) d) = arrived (thread s d).
Proof.
  revert s. induction evs as [|ev evs IH]; intros s Hok H; [done|]. destruct (step_moves ev s d Hok) as (Hok' & Hn & _).
  change (ev :: evs) with ([ev] ++ evs) in H. unfold frames_of in H. rewrite omap_app in H. apply app_nil in H as [H1 H2].
  change (rrun (ev :: evs) s) with (rrun evs (rstep ev s)). rewrite IH by done. rewrite Hn. destruct ev; try done. cbn in H1 |- *. by destruct (_ =? d).
Qed.
Lemma lossless_app d evs evs' s : lossless d s (evs ++ evs') = true → lossless d (rrun evs s) evs' = true.
Proof. revert s. induction evs as [|ev evs IH]; intros s; [done|]. cbn [lossless app]. intros [_ H]%andb_true_iff. by apply (IH (rstep ev s)). Qed.

(** C4: what is sent can be decoded, and is what is decoded. A display sends a viewer
    frames such that each is the first of its encoder or follows the one before
    ([VideoService.viewers_decode]); the first of an encoder is a key frame. Then every
    frame given to the decoder of the display is one that was sent, and is a key frame or
    is the one encoded right after the one given before it. *)
Theorem pictures_decode d lc evs frames l (picture : nat → VideoFrame) (Hsent : decodable frames l) (Harrive : frames_of d evs = picture <$> l)
  (Hfirst : ∀ n, frames !! n = Some true → contains_key_frame (picture n) = true) (Hl : lossless d (remote_new lc) evs = true)
  l1 f l2 (Hg : given (thread (rrun evs (remote_new lc)) d) = l1 ++ f :: l2) :
  ∃ n, l !! number f = Some n ∧ vf f = picture n
  ∧ (is_key f = true ∨ ∃ l0 g m, l1 = l0 ++ [g] ∧ l !! number g = Some m ∧ n = S m).
Proof.
  assert (∀ g, g ∈ l1 ++ f :: l2 → ∃ n, l !! number g = Some n ∧ vf g = picture n) as Hin.
  { intros g Hgin. rewrite <- Hg in Hgin. apply given_in in Hgin; [|done]. rewrite Harrive in Hgin.
    apply list_lookup_fmap_Some in Hgin as (n & -> & Hn). by exists n. }
  destruct (Hin f) as (n & Hn & Hvf); [set_solver|]. exists n. do 2 (split; [done|]). destruct (is_key f) eqn:Hkey; [by left|right].
  assert (frames !! n ≠ Some true) as Hnf by (intros Hfr%Hfirst; unfold is_key in Hkey; congruence).
  destruct (Hsent _ _ Hn) as [|(j & Hj & m & Hm & ->)]; [done|].
  destruct (frames_of d evs) as [|v vs] eqn:Hvs; [by destruct l|]. destruct (first_arrival _ _ _ _ Hvs) as (evs1 & evs2 & -> & He1 & Hdv).
  pose proof (lossless_app _ _ _ _ Hl) as Hl2. cbn [lossless] in Hl2. apply andb_true_iff in Hl2 as [_ Hl2].
  assert (contains_key_frame v = true) as Hkv.
  { destruct l as [|n0 l]; [done|]. injection Harrive as -> _. destruct (Hsent 0%nat n0 eq_refl) as [H0|(? & ? & _)]; [by apply Hfirst|done]. }
  assert (arrived (thread (rrun evs1 (remote_new lc)) d) = 0%nat) as Ha.
  { rewrite run_arrived by (apply (start_ok d lc []) || done). unfold thread. cbn. by rewrite lookup_empty. }
  pose proof (key_run d (rrun evs1 (remote_new lc)) v evs2 (start_ok d lc evs1) Hdv Hkv Hl2) as Hfol. rewrite Ha in Hfol.
  unfold rrun in Hg, Hfol. rewrite foldl_app in Hg. destruct (Hfol l1 f l2 Hg ltac:(lia) Hkey) as (l0 & g & -> & Hng). exists l0, g, m.
  split; [done|]. split; [|done]. by replace (number g) with j by lia.
Qed.

(** ** The thread catches up *)
(** What working frames through gives the decoder. *)
Fixpoint worked (discard : bool) (l : list frame) : list frame :=
  match l with
  | [] => []
  | f :: l => if is_key f then f :: worked false l else if discard then worked true l else f :: worked false l
  end.
Definition outcome (v : view) : list frame := taken v ++ worked (discards v) (todo v).
Lemma take_outcome v : outcome (view_step v VTake) = outcome v.
Proof.
  destruct v as [[|f l] dis tak]; [done|]. unfold outcome. cbn. destruct (is_key f); cbn; [by rewrite <- app_assoc|].
  destruct dis; cbn; [done|]. by rewrite <- app_assoc.
Qed.
(** The steps a thread has still to make. *)
Definition steps_left (t : VideoThread) : nat :=
  5 * length (channel t) + match dpc_of t with DRecv => 0 | DMark => 1 | DDecode _ => 2 | DClear _ | DCheck _ => 3 | DPop => 4 end.
Lemma core_steps t t' : core t = core t' → steps_left t = steps_left t'.
Proof. unfold core, steps_left. by intros [= _ -> _ -> _ _]. Qed.
Lemma decoder_steps a lc t : (steps_left (decoder_step a lc t).1.1 ≤ pred (steps_left t))%nat.
Proof.
  unfold decoder_step. destruct (dpc_of t) as [|f| |f|f|] eqn:Hpc.
  - destruct (channel t) as [|m c] eqn:Hc; [unfold steps_left; cbn; rewrite Hpc, Hc; done|].
    unfold steps_left. rewrite Hpc, Hc. destruct m; cbn; rewrite ?Hpc; lia.
  - unfold steps_left. cbn. rewrite Hpc. lia.
  - unfold steps_left. rewrite Hpc. destruct (video_queue t); cbn; lia.
  - unfold steps_left. rewrite Hpc. cbn. destruct (discard_queue t); lia.
  - pose proof (core_steps _ _ (decode_core a f lc t)) as E. destruct (decode a f lc t) as [t1 out]. cbn [fst] in *. rewrite E.
    unfold steps_left. rewrite Hpc. cbn. lia.
  - rewrite (core_steps _ _ (check_core a lc t)). unfold steps_left. rewrite Hpc. cbn. lia.
Qed.
Lemma decode_event d a s :
  ∃ lc, thread (rstep (Decode d a) s) d = (decoder_step a lc (thread s d)).1.1.
Proof.
  unfold thread. cbn. destruct (video_threads s !! d) as [t|] eqn:Ht; [|exists (login s); by rewrite Ht].
  exists (login s). cbn. destruct (decoder_step a (login s) t) as [[t' out] lc]. cbn. by rewrite lookup_insert_eq.
Qed.
Lemma catch_up d answers s : thread_ok (thread s d) → (steps_left (thread s d) ≤ length answers)%nat →
  let t := thread (rrun (Decode d <$> answers) s) d in steps_left t = 0%nat ∧ outcome (view_of t) = outcome (view_of (thread s d)).
Proof.
  revert s. induction answers as [|a answers IH]; intros s Hok Hl; [cbn in *; by split; [lia|]|].
  cbn [fmap list_fmap]. change (rrun (Decode d a :: ?l) s) with (rrun l (rstep (Decode d a) s)).
  destruct (decode_event d a s) as [lc E]. destruct (decoder_view a lc _ Hok) as (Hv & Hok' & _). pose proof (decoder_steps a lc (thread s d)) as Hst.
  rewrite <- E in Hv, Hok', Hst. cbn [length] in Hl. destruct (IH _ Hok' ltac:(lia)) as [H1 H2]. split; [done|]. rewrite H2, Hv. destruct (decides _); [apply take_outcome|done].
Qed.

(** C20: the thread of a display catches up, and rests. Whatever has arrived, was lost,
    asked for and interleaved, five steps for every message in its channel and four more
    leave the thread waiting with nothing in the channel or the queue; and the decoder
    was then given, beyond what it was given before, what the frames left amount to: key
    frames, and the others unless a refresh has them discarded. *)
Theorem decoder_catches_up d lc evs answers (t := thread (rrun evs (remote_new lc)) d) (Hn : (5 * length (channel t) + 4 ≤ length answers)%nat) :
  let t' := thread (rrun (Decode d <$> answers) (rrun evs (remote_new lc))) d in
  dpc_of t' = DRecv ∧ channel t' = [] ∧ video_queue t' = []
  ∧ given t' = given t ++ decided t ++ worked (discard_queue t) (todo (view_of t)).
Proof.
  pose proof (start_ok d lc evs) as Hok. assert (steps_left t ≤ length answers)%nat as Hst by (unfold steps_left; destruct (dpc_of t); lia).
  destruct (catch_up d answers _ Hok Hst) as [H0 Ho]. cbv zeta. set (t' := thread (rrun (Decode d <$> answers) _) d) in *.
  assert (thread_ok t') as [Ht' _ _ _ _ _] by by apply run_ok.
  assert (dpc_of t' = DRecv ∧ channel t' = []) as [Hpc Hc].
  { unfold steps_left in H0. destruct (dpc_of t'), (channel t'); cbn in H0; try lia. done. }
  unfold outcome, view_of, in_hand, undecided, decided in *. rewrite Hpc, Hc in *. cbn in *. do 2 (split; [done|]). split; [by destruct (video_queue t')|].
  rewrite !app_nil_r in Ho. rewrite Ho. by rewrite <- app_assoc.
Qed.

(** *** A loss asks for a new picture *)
Definition refresh_message (d : Z) : peer_message := if multi then RefreshVideoDisplay (Int.wrap_i32 d) else RefreshVideo.
Definition asked_for (d : Z) (s : Remote) : Prop :=
  refresh_message d ∈ to_peer s ∧ ∃ t, video_threads s !! d = Some t ∧ discard_queue t = true.
Lemma recording_keeps s : to_peer (update_record_state s) = to_peer s ∧ (∃ l, sender (update_record_state s) = sender s ++ l)
  ∧ ∀ d, option_map discard_queue (video_threads (update_record_state s) !! d) = option_map discard_queue (video_threads s !! d).
Proof.
  unfold update_record_state. cbn. case_bool_decide; cbn; (split; [done|split; [eauto|]]); [by exists []; rewrite app_nil_r|done|].
  intros d. rewrite lookup_fmap. by destruct (video_threads s !! d).
Qed.
(** The loop handles its messages in order, and what it does leaves a refresh asked. *)
Lemma ui_order s m q : sender s = m :: q → ∃ l, sender (rstep FromUi s) = q ++ l.
Proof.
  intros Hs. cbn. rewrite Hs. set (s1 := s <| sender := q |>). destruct m as [[]|[]|st]; cbn; try (by exists []; rewrite app_nil_r).
  unfold ui_record_screen. match goal with |- context [update_record_state ?x] => set (s2 := x) end. destruct (recording_keeps s2) as (_ & [l Hl] & _). by exists l.
Qed.
Lemma ui_asked s d : asked_for d s → asked_for d (rstep FromUi s).
Proof.
  intros (Hm & t & Ht & Hd). unfold rstep. destruct (sender s) as [|m q]; [by split; [|exists t]|].
  set (s1 := s <| sender := q |>). unfold asked_for. assert (video_threads s1 !! d = Some t) as Ht1 by done. assert (to_peer s1 = to_peer s) as E by done.
  clearbody s1. destruct m as [[|x|f|dec|st]|[x|]|st]; cbn; rewrite ?E; try (split; [set_solver|by exists t]).
  - split; [set_solver|]. rewrite lookup_fmap, Ht1. cbn. by eexists.
  - split; [set_solver|]. destruct (decide (Int.wrap_u64 x = d)) as [->|]; [rewrite lookup_alter_eq, Ht1|rewrite lookup_alter_ne by done]; cbn; by eexists.
  - split; [set_solver|]. destruct (decide (x = d)) as [->|]; [rewrite lookup_alter_eq, Ht1|rewrite lookup_alter_ne by done]; cbn; by eexists.
  - split; [set_solver|]. rewrite lookup_fmap, Ht1. cbn. by eexists.
  - unfold ui_record_screen. match goal with |- context [update_record_state ?x] => set (s2 := x) end. destruct (recording_keeps s2) as (-> & _ & Hk). split; [change (to_peer s2) with (to_peer s1); by rewrite E|]. specialize (Hk d).
    change (video_threads s2 !! d) with (video_threads s1 !! d) in Hk. rewrite Ht1 in Hk. destruct (video_threads (update_record_state s2) !! d) as [t'|]; [|done].
    exists t'. split; [done|]. by injection Hk as ->.
Qed.
Lemma ui_thread s d : is_Some (video_threads s !! d) → is_Some (video_threads (rstep FromUi s) !! d).
Proof.
  intros Ht. unfold rstep. destruct (sender s) as [|m q]; [done|]. set (s1 := s <| sender := q |>). assert (is_Some (video_threads s1 !! d)) as Ht1 by done.
  clearbody s1. destruct m as [[|x|f|dec|st]|[x|]|st]; cbn; rewrite ?lookup_fmap, ?fmap_is_Some; try done.
  - destruct (decide (Int.wrap_u64 x = d)) as [->|]; [by rewrite lookup_alter_eq, fmap_is_Some|by rewrite lookup_alter_ne].
  - destruct (decide (x = d)) as [->|]; [by rewrite lookup_alter_eq, fmap_is_Some|by rewrite lookup_alter_ne].
  - unfold ui_record_screen. match goal with |- context [update_record_state ?x] => set (s2 := x) end. destruct (recording_keeps s2) as (_ & _ & Hk). specialize (Hk d).
    change (video_threads s2 !! d) with (video_threads s1 !! d) in Hk. destruct Ht1 as [t Ht1]. rewrite Ht1 in Hk. by destruct (video_threads (update_record_state s2) !! d).
Qed.
Lemma ui_reaches d l1 s l2 : Int.wrap_u64 (Int.wrap_i32 d) = d → is_Some (video_threads s !! d) → sender s = l1 ++ refresh_video d :: l2 →
  asked_for d (rrun (replicate (S (length l1)) FromUi) s).
Proof.
  intros Hd. revert s l2. induction l1 as [|m l1 IH]; intros s l2 Ht Hs; cbn [length replicate].
  - cbn. rewrite Hs. unfold asked_for. destruct Ht as [t Ht]. unfold refresh_video, refresh_message. cbn. destruct multi; cbn; (split; [set_solver|]).
    + rewrite Hd, lookup_alter_eq, Ht. cbn. by eexists.
    + rewrite lookup_fmap, Ht. cbn. by eexists.
  - destruct (ui_order s _ _ Hs) as [l Hl]. change (rrun (FromUi :: ?evs) s) with (rrun evs (rstep FromUi s)).
    apply (IH (rstep FromUi s) (l2 ++ l)); [by apply ui_thread|]. by rewrite Hl, <- app_assoc.
Qed.
Lemma wrap_display z : Int.in_i32 z → Int.wrap_u64 (Int.wrap_i32 (Int.wrap_u64 z)) = Int.wrap_u64 z.
Proof.
  intros Hz. assert (Int.wrap_i32 (Int.wrap_u64 z) = z) as ->; [|done]. pose proof Hz as Hr. unfold Int.in_i32, Int.i32_min, Int.i32_max in Hr.
  assert (Int.wrap_u64 z = z ∨ Int.wrap_u64 z = z + 2 ^ 32 * 2 ^ 32) as [->| ->]; [|by apply Int.wrap_i32_id|].
  - unfold Int.wrap_u64. destruct (Z.lt_decidable z 0); [right|left; rewrite Z.mod_small; lia].
    rewrite <- (Z.mod_add z 1), Z.mod_small; lia.
  - rewrite <- (Int.wrap_i32_id z Hz) at 2. unfold Int.wrap_i32. f_equal. rewrite <- (Z.mod_add (z + 2 ^ 31) (2 ^ 32)) by lia. f_equal. lia.
Qed.
(** no loss goes unnoticed. When the queue of a display loses a frame, the loop has a
    refresh of the display among its messages; once it has handled those, the peer was
    asked for a new picture and what is still queued is being discarded. *)
Theorem loss_refreshes v s (d := display_of v) (Hd : Int.in_i32 (display v)) (Hl : loses d s (FromPeer v) = true) :
  ∃ n, asked_for d (rrun (replicate n FromUi) (rstep (FromPeer v) s)).
Proof.
  unfold loses in Hl. fold d in Hl. rewrite Z.eqb_refl in Hl. cbn [andb] in Hl. unfold thread in Hl.
  destruct (video_threads s !! d) as [t|] eqn:Ht; [|by rewrite arrive_lost, andb_comm in Hl]. cbn [default id] in Hl.
  exists (S (length (sender s))). apply (ui_reaches d (sender s) _ []); [by apply wrap_display|..];
    unfold rstep, on_video_frame; fold d; set (s1 := s <| video_format := _ |>);
    assert (video_threads s1 !! d = Some t) as Ht1 by done; rewrite bool_decide_true by (by exists t); rewrite Ht1;
    destruct (arrive v t) as [t' lost]; cbn in Hl; subst lost; cbn; [by rewrite lookup_insert_eq|done].
Qed.

(** ** The rate asked for *)
Lemma opt_min_some a b m : opt_min a b = Some m → ∃ x y, a = Some x ∧ b = Some y ∧ m = Z.min x y.
Proof. destruct a as [x|], b as [y|]; try done. intros [= <-]. by exists x, y. Qed.
Lemma fold_min_le ts a m : foldl (λ m t, opt_min m (decode_fps t)) a ts = Some m →
  (∃ p, a = Some p ∧ m ≤ p) ∧ ∀ t, t ∈ ts → ∃ p, decode_fps t = Some p ∧ m ≤ p.
Proof.
  revert a. induction ts as [|t ts IH]; intros a; cbn; [intros ->; split; [by exists m|by intros ? ?%elem_of_nil]|].
  intros H. destruct (IH _ H) as [(p & Hp & Hm) Hts]. apply opt_min_some in Hp as (x & y & -> & Hy & ->).
  split; [exists x; split; [done|lia]|]. intros u [->|Hu]%elem_of_cons; [|auto]. exists y. split; [done|lia].
Qed.
Lemma min_decode_le ts m t : min_decode_fps ts = Some m → t ∈ ts → inactive_counter (fps_control t) < inactive_threshold →
  ∃ p, decode_fps t = Some p ∧ m ≤ p.
Proof.
  unfold min_decode_fps. intros Hm Ht Ha.
  assert (t ∈ filter (λ t, inactive_counter (fps_control t) < inactive_threshold) ts) as Hf by by apply list_elem_of_filter.
  destruct (filter _ ts) as [|u us]; [done|]. apply fold_min_le in Hm as [Hu Hus]. apply elem_of_cons in Hf as [->|Hf]; auto.
Qed.
Lemma chosen_range custom : 5 <= chosen_fps custom <= 120.
Proof. unfold chosen_fps. destruct (Z.ltb_spec (default 30 custom) 5), (Z.ltb_spec 120 (default 30 custom)); cbn; lia. Qed.
Lemma auto_range down limited len custom : limited ≤ custom → 5 ≤ custom → 1 ≤ auto_fps down limited len ≤ custom ∧ (auto_fps down limited len = 1 ∨ auto_fps down limited len ≤ limited).
Proof. intros. unfold auto_fps. assert (2 * (limited / 2) ≤ limited) by (apply Z.mul_div_le; lia). destruct (_ && _); lia. Qed.
Lemma limited_range direct m custom p : m ≤ p → limited_fps direct m custom ≤ custom ∧ (1 < limited_fps direct m custom → 10 * limited_fps direct m custom ≤ 9 * p).
Proof. intros. unfold limited_fps. pose proof (Z.mul_div_le (m * 9) 10). pose proof (Z.mul_div_le (m * 4) 5). destruct direct; lia. Qed.
Lemma asked_in f (l : list Z) : ¬ Message (CustomFps f) ∈ refresh_video <$> l.
Proof. intros (d & H & _)%list_elem_of_fmap. unfold refresh_video in H. by destruct multi. Qed.

(** C21: the rate the viewer asks for is one it can decode. A rate that is asked for at a
    tick is at least one and at most what the user chose (of 5 to 120), it is remembered,
    and every display that is active has measured its decoding, at most nine tenths of
    which are asked for. *)
Theorem fps_asked_bounded direct elapsed now order s f (s' := rstep (Tick direct elapsed now order) s)
  (Hf : Message (CustomFps f) ∈ drop (length (sender s)) (sender s')) :
  1 ≤ f ≤ chosen_fps (custom_fps (login s)) ∧ chosen_fps (custom_fps (login s)) ≤ 120 ∧ last_auto_fps (login s') = Some f
  ∧ ∀ d t, video_threads s !! d = Some t → inactive_counter (fps_control (count_inactive elapsed t)) < inactive_threshold →
    ∃ p, decode_fps t = Some p ∧ (f = 1 ∨ 10 * f ≤ 9 * p).
Proof.
  pose proof (chosen_range (custom_fps (login s))) as Hc. subst s'. revert Hf. cbn [rstep].
  destruct (elapsed <? 1000); [by rewrite drop_all; intros ?%elem_of_nil|]. unfold fps_tick. set (s1 := s <| video_threads ::= fmap (count_inactive elapsed) |>).
  destruct (min_decode_fps (threads_of s1)) as [m|] eqn:Hm; [|by rewrite drop_all; intros ?%elem_of_nil].
  cbv zeta. change (login s1) with (login s). set (lim := limited_fps direct m _). set (fps := auto_fps _ lim _).
  match goal with |- context [if ?b then post ?l ?u else ?w] => destruct b; [|cbn; rewrite drop_app_length; by intros ?%asked_in] end.
  cbn. rewrite <- app_assoc, drop_app_length. intros [Hf|?%asked_in]%elem_of_app; [|done]. apply list_elem_of_singleton in Hf as [= ->].
  destruct (limited_range direct m (chosen_fps (custom_fps (login s))) m ltac:(lia)) as [Hlim _]. fold lim in Hlim.
  match type of fps with _ => match eval unfold fps in fps with auto_fps ?b _ ?len => pose proof (auto_range b lim len _ Hlim ltac:(lia)) as [Hr Hor] end end.
  fold fps in Hr, Hor. do 2 (split; [lia|]). split; [done|]. intros d t Ht Ha.
  destruct (min_decode_le _ m (count_inactive elapsed t) Hm) as (p & Hp & Hmp); [|done|].
  { unfold threads_of. apply list_elem_of_fmap. exists (d, count_inactive elapsed t). split; [done|]. apply elem_of_map_to_list. cbn. by rewrite lookup_fmap, Ht. }
  exists p. split; [done|]. destruct (limited_range direct m (chosen_fps (custom_fps (login s))) p Hmp) as [_ Hl]. fold lim in Hl. lia.
Qed.
End session.

(** ** A codec that cannot be decoded *)
Lemma unmark_keeps d f g : can_decode d f = false → can_decode (unmark d g) f = false.
Proof. destruct d. by destruct f, g; cbn. Qed.
Lemma unmark_self d f : can_decode (unmark d f) f = false.
Proof. destruct d. by destruct f. Qed.
Lemma marked_undecodable h marks f : f ∈ marks → can_decode (supported_decodings h marks) f = false.
Proof.
  unfold supported_decodings. generalize (mk_decoding 1 (Z.b2z (dh_h264 h)) (Z.b2z (dh_h265 h)) (dh_prefer h) 1 (if dh_disable_av1 h then 0 else 1) (mk_ability true true) (dh_prefer_chroma h)).
  assert (∀ l d, can_decode d f = false → can_decode (foldl unmark d l) f = false) as Hk.
  { induction l as [|g l IH]; intros d Hd; cbn; [done|]. by apply IH, unmark_keeps. }
  induction marks as [|g marks IH]; intros d; [by intros ?%elem_of_nil|]. intros [->|Hf]%elem_of_cons; cbn; [apply Hk, unmark_self|by apply IH].
Qed.

Arguments supported_decodings : simpl never.
(** a codec that this side fails to decode is left. A decoder that could not be made,
    or failed three times in a row or on its first frame, has its format marked and the
    peer told what is still decoded; a peer that has recorded it, whatever else its
    viewers and displays do, does not encode in that format, unless it recorded it between
    the two halves of the setup of an encoder. *)
Theorem failing_codec_left a lc t h (Hpc : dpc_of t = DMark) (Hh : video_handler t = Some h)
  (Hfail : valid (decoder h) = false ∨ MAX_DECODE_FAIL_COUNTER ≤ fail_counter h) (f := d_format (decoder h)) (Hnew : f ∉ mark_unsupported lc) :
  ∃ d, (decoder_step true a lc t).1.2 = [Message (SupportedDecodings d)] ∧ f ∈ mark_unsupported (decoder_step true a lc t).2
  ∧ ∀ order to_lowercase ops id, (∀ m, order m ≡ₚ map_to_list m) → Forall (expected to_lowercase) ops →
      decodings (codec (codec_run order to_lowercase ops)) !! id = Some d → format (codec (codec_run order to_lowercase ops)) ≠ f ∨ overtaken ops id.
Proof.
  unfold decoder_step. rewrite Hpc. unfold check_decoder. rewrite Hh. fold f.
  assert (negb (valid (decoder h)) || (MAX_DECODE_FAIL_COUNTER <=? fail_counter h) = true) as ->.
  { destruct Hfail as [-> | Hc]; [done|]. apply orb_true_iff. right. by apply Z.leb_le. }
  rewrite bool_decide_false by done. cbn. eexists. split; [reflexivity|]. split; [set_solver|].
  intros order to_lowercase ops id Ho Hops Hd. destruct (ag_format _ _ _ (run_agreed order Ho to_lowercase ops Hops) _ _ Hd) as [Hc|]; [left; intros Heq|by right].
  rewrite Heq, marked_undecodable in Hc by set_solver. done.
Qed.

(** ** Examples *)
Definition vp9 (k : bool) : VideoFrame := mk_frame (Some (Vp9s [mk_encoded [] k])) 0.
Definition all_made : answer := mk_answer (λ _, true) (DecodeOk true) 33000000 (mk_decode_host 0 0 false false false).
Definition fails : answer := mk_answer (λ _, true) DecodeErr 1000000 (mk_decode_host 0 0 false false false).
Definition works (n : nat) : list revent := replicate n (Decode 0 all_made).
Definition numbers_given (s : Remote) : list nat := number <$> given (thread s 0).
Definition run0 (evs : list revent) : Remote := rrun true false evs (remote_new login_new).
(** A picture of which all frames follow the first, and a session in which they arrive
    while it is asked to be refreshed. *)
Definition picture (n : nat) : VideoFrame := vp9 (Nat.eqb n 0).
Definition numbered (n : nat) : frame := mk_numbered n (picture n).
Definition three : list revent :=
  [FromPeer (picture 0); FromPeer (picture 1); User (Message RefreshVideo)] ++ works 9 ++ [FromPeer (picture 2)] ++ works 5 ++ [FromUi].
Lemma receive_refines_witness : let ops := trace true false 0 (remote_new login_new) three in
  ops = [VArrive (numbered 0); VArrive (numbered 1); VTake; VTake; VArrive (numbered 2); VTake; VDiscard]
  ∧ omap arrival ops = [numbered 0; numbered 1; numbered 2]
  ∧ view_of (thread (run0 three) 0) = foldl view_step view_new ops.
Proof. split; [vm_compute; reflexivity|]. apply (receive_refines true false 0 login_new three). vm_compute. reflexivity. Defined.
Lemma pictures_decode_witness : ∃ n, [0; 1; 2]%nat !! 1%nat = Some n ∧ picture 1 = picture n
  ∧ (is_key (numbered 1) = true ∨ ∃ l0 g m, [numbered 0] = l0 ++ [g] ∧ [0; 1; 2]%nat !! number g = Some m ∧ n = S m).
Proof.
  refine (pictures_decode true false 0 login_new three [true; false; false] [0; 1; 2]%nat picture _ _ _ _ [numbered 0] (numbered 1) [numbered 2] _).
  - intros [|[|[|i]]] n; cbn; intros [= <-]; [by left|right; by eexists _; split; [reflexivity|]; eexists _; split; [reflexivity|]..].
  - vm_compute. reflexivity.
  - intros [|[|[|n]]]; cbn; intros [=]. reflexivity.
  - vm_compute. reflexivity.
  - vm_compute. reflexivity.
Defined.
(** A queue that overflowed, a key frame, and two frames after it. *)
Definition full : list revent := [FromPeer (vp9 true)] ++ works 4 ++ (FromPeer <$> replicate 121 (vp9 false)).
Definition after_key : list revent := [FromUi] ++ works 9 ++ [FromPeer (vp9 false)] ++ works 610 ++ [FromPeer (vp9 false)] ++ works 5.
Definition healed : list frame := [mk_numbered 0 (vp9 true); mk_numbered 122 (vp9 true); mk_numbered 123 (vp9 false)].
Lemma decoder_in_step_witness : is_key (mk_numbered 124 (vp9 false)) = true ∨ ∃ l0 g, healed = l0 ++ [g] ∧ 124%nat = S (number g).
Proof.
  refine (decoder_in_step true false 0 login_new full (vp9 true) after_key _ _ _ healed (mk_numbered 124 (vp9 false)) [] _ _).
  - reflexivity.
  - reflexivity.
  - vm_compute. reflexivity.
  - vm_compute. reflexivity.
  - apply Nat.ltb_lt. vm_compute. reflexivity.
Defined.
Lemma decoder_catches_up_witness :
  given (thread (rrun true false (Decode 0 <$> replicate 700 all_made) (run0 (full ++ [FromPeer (vp9 true); FromUi]))) 0)
  = [mk_numbered 0 (vp9 true); mk_numbered 122 (vp9 true)].
Proof.
  refine (eq_trans (proj2 (proj2 (proj2 (decoder_catches_up true false 0 login_new (full ++ [FromPeer (vp9 true); FromUi]) (replicate 700 all_made) _)))) _).
  - apply Nat.leb_le. vm_compute. reflexivity.
  - vm_compute. reflexivity.
Defined.
Lemma loss_refreshes_witness : ∃ n, asked_for true (display_of (vp9 false))
  (rrun true false (replicate n FromUi) (rstep true false (FromPeer (vp9 false)) (run0 full))).
Proof.
  apply (loss_refreshes true false (vp9 false) (run0 full)).
  - vm_compute. split; discriminate.
  - vm_compute. reflexivity.
Defined.
(** A thread that measured thirty frames a second. *)
Definition measured : list revent := concat (replicate 13 ([FromPeer (vp9 true)] ++ works 4)).
Lemma fps_asked_bounded_witness : ∃ p, decode_fps (thread (run0 measured) 0) = Some p ∧ (27 = 1 ∨ 10 * 27 ≤ 9 * p).
Proof.
  destruct (fps_asked_bounded true false true 1000 5000 [0] (run0 measured) 27) as (_ & _ & _ & H).
  - apply list_elem_of_lookup. exists 0%nat. vm_compute. reflexivity.
  - apply (H 0 (thread (run0 measured) 0)); vm_compute; reflexivity.
Defined.
Definition failing_handler : VideoHandler := mk_handler (mk_decoder AV1 true) 3 false false.
Definition failing : VideoThread := video_thread_new <| dpc_of := DMark |> <| video_handler := Some failing_handler |>.
Lemma failing_codec_left_witness : ∃ d, (decoder_step true fails login_new failing).1.2 = [Message (SupportedDecodings d)]
  ∧ (format (codec (codec_run map_to_list id [OpUpdate big_host (Update 7 d)])) ≠ AV1 ∨ overtaken [OpUpdate big_host (Update 7 d)] 7).
Proof.
  destruct (failing_codec_left fails login_new failing failing_handler eq_refl eq_refl) as (d & Hd & _ & H).
  - right. vm_compute. discriminate.
  - by intros ?%elem_of_nil.
  - exists d. split; [exact Hd|]. vm_compute in Hd. injection Hd as <-. apply (H _ _ _ 7); [intros m; reflexivity|by repeat constructor|vm_compute; reflexivity].
Defined.

(** A queue that overflows while a key frame is in the channel shifts the frames its
    tokens stand for: two frames that arrived after the key frame, 122 and 123, take
    tokens before it. They are discarded, for the loss had a refresh asked, but the key
    frame, which came before it, ends the discarding, and 124 is decoded without them. *)
Example stale_key_frame :
  let s := run0 ([FromPeer (vp9 true)] ++ works 4 ++ (FromPeer <$> (replicate 120 (vp9 false) ++ [vp9 true; vp9 false; vp9 false]))
    ++ [FromUi; FromUi] ++ works 400 ++ [FromPeer (vp9 false)] ++ works 5) in
  to_peer s = [RefreshVideoDisplay 0; RefreshVideoDisplay 0] ∧ numbers_given s = [0; 121; 124]%nat.
Proof. vm_compute. by split. Qed.
(** A decoder is reset ([use_texture_render_changed]), and a frame of the stream in
    progress reaches the new one before the refresh that follows is handled: it cannot be
    decoded, and as it is the first of its decoder its format, VP9, is marked for the rest
    of the session: a peer that has every viewer decode VP9 is told this one does not. *)
Example reset_marks_codec :
  let s := run0 ([FromPeer (vp9 true)] ++ works 4 ++ [User (ResetDecoder None); User (Message RefreshVideo); FromUi; FromPeer (vp9 false)]
    ++ replicate 7 (Decode 0 fails)) in
  mark_unsupported (login s) = [VP9]
  ∧ last (sender s) = Some (Message (SupportedDecodings (mk_decoding 0 0 0 0 1 1 (mk_ability true true) 0))).
Proof. vm_compute. by split. Qed.
(** The rate the user chooses replaces the one asked for, which is still remembered as
    the last: decoding thirty frames a second, with twenty waiting, this side asks for
    27 once, and says nothing after the user has asked for 60. *)
Example chosen_rate_stays :
  let s := run0 (measured ++ [Tick true 1000 5000 [0]; FromUi; UserCustomFps 60; FromUi] ++ (FromPeer <$> replicate 20 (vp9 false))
    ++ [Tick true 1000 6000 [0]; FromUi]) in
  decode_fps (thread s 0) = Some 30 ∧ queue_len (thread s 0) = 20 ∧ to_peer s = [CustomFps 27; CustomFps 60].
Proof. vm_compute. by split. Qed.
