(* ===== verification/ServerTable.v ===== *)
(** * The server: its services and its connections

    [src/src/server.rs], [Server]: the table of services, one per display or
    camera and the fixed ones, and who is subscribed to which. What the table
    needs of a service is the class [Service], the trait of
    [src/src/server/service.rs]; [AnyService], its [Box<dyn Service>], meets it
    with the definitions of [Services]. *)
From S2P Require Import Prelude Services.
Local Open Scope Z_scope.

(** ** The trait [Service] *)
Class Service (S : Type) := {
  svc_name : S → str;
  svc_on_subscribe : S → ConnInner → S;
  svc_on_unsubscribe : S → Z → S;
  svc_is_subed : S → Z → bool;
  svc_join : S → S;
  svc_set_option : S → str → str → S;
  svc_get_option : S → str → option str
}.
(** [svc_ok]: what holds of every service made and used through the trait. *)
Class ServiceLaws (S : Type) `{Service S} := {
  svc_ok : S → Prop;
  svc_ok_subscribe s c : svc_ok s → svc_ok (svc_on_subscribe s c);
  svc_ok_unsubscribe s i : svc_ok s → svc_ok (svc_on_unsubscribe s i);
  svc_ok_set_option s o v : svc_ok s → svc_ok (svc_set_option s o v);
  svc_name_subscribe s c : svc_name (svc_on_subscribe s c) = svc_name s;
  svc_name_unsubscribe s i : svc_name (svc_on_unsubscribe s i) = svc_name s;
  svc_subed_subscribe s c id : svc_ok s →
    svc_is_subed (svc_on_subscribe s c) id = (conn_id c =? id) || svc_is_subed s id;
  svc_subed_unsubscribe s i id : svc_ok s →
    svc_is_subed (svc_on_unsubscribe s i) id = negb (i =? id) && svc_is_subed s id;
  svc_subed_set_option s o v id : svc_is_subed (svc_set_option s o v) id = svc_is_subed s id
}.

Section any.
Context {T : Type} `{SubscriberLaws T}.
#[local] Instance inner_service : Service (ServiceInner T) := {|
  svc_name := name; svc_on_subscribe := on_subscribe; svc_on_unsubscribe := on_unsubscribe;
  svc_is_subed := is_subed; svc_join := join; svc_set_option := set_option; svc_get_option := get_option
|}.
Lemma is_subed_phase (s : ServiceInner T) id :
  is_subed s id = match phase_of s id with Out => false | _ => true end.
Proof.
  unfold is_subed, phase_of. by destruct (subscribes s !! id), (new_subscribes s !! id).
Qed.
#[local] Instance inner_service_laws : ServiceLaws (ServiceInner T).
Proof.
  refine {| svc_ok s := service_wf (need_snapshot s) s |}; cbn; try done.
  - intros s c Hs. apply (sstep_wf _ s (OnSubscribe c)) in Hs as Hs'. cbn in Hs'.
    by rewrite (wf_need _ _ Hs').
  - intros s i Hs. apply (sstep_wf _ s (OnUnsubscribe i)) in Hs as Hs'. cbn in Hs'.
    by rewrite (wf_need _ _ Hs').
  - intros s o v Hs. by apply (sstep_wf _ s (SetOption o v)).
  - intros s c. unfold on_subscribe. by repeat case_match.
  - intros s i. unfold on_unsubscribe. by repeat case_match.
  - intros s c id Hs. rewrite !is_subed_phase.
    pose proof (sstep_phase _ s (OnSubscribe c) id Hs) as Heq. cbn in Heq.
    apply (f_equal fst) in Heq. cbn in Heq. rewrite <-Heq.
    by destruct (conn_id c =? id), (phase_of s id), (need_snapshot s).
  - intros s i id Hs. rewrite !is_subed_phase.
    pose proof (sstep_phase _ s (OnUnsubscribe i) id Hs) as Heq. cbn in Heq.
    apply (f_equal fst) in Heq. cbn in Heq. rewrite <-Heq. by destruct (i =? id).
Defined.
End any.

(** [Box<dyn Service>]: the services the server makes. *)
Inductive AnyService := Generic (s : ServiceInner ConnInner) | Cursor (s : ServiceInner MouseCursorSub).
Definition over {A} (f : ∀ T, Subscriber T → ServiceInner T → A) (s : AnyService) : A :=
  match s with Generic s => f _ conn_subscriber s | Cursor s => f _ cursor_subscriber s end.
Definition within (f : ∀ T, Subscriber T → ServiceInner T → ServiceInner T) (s : AnyService) : AnyService :=
  match s with
  | Generic s => Generic (f _ conn_subscriber s)
  | Cursor s => Cursor (f _ cursor_subscriber s)
  end.
#[export] Instance any_service : Service AnyService := {|
  svc_name := over (λ T _, name);
  svc_on_subscribe s c := within (λ T _ s, on_subscribe s c) s;
  svc_on_unsubscribe s i := within (λ T _ s, on_unsubscribe s i) s;
  svc_is_subed s id := over (λ T _ s, is_subed s id) s;
  svc_join := within (λ T _, join);
  svc_set_option s o v := within (λ T _ s, set_option s o v) s;
  svc_get_option s o := over (λ T _ s, get_option s o) s
|}.
#[export] Instance any_service_laws : ServiceLaws AnyService.
Proof.
  refine {| svc_ok s := match s with
                        | Generic s => svc_ok (ServiceLaws := inner_service_laws) s
                        | Cursor s => svc_ok (ServiceLaws := inner_service_laws) s
                        end |}; intros [s|s]; intros.
  all: first [ by apply (svc_ok_subscribe (ServiceLaws := inner_service_laws))
             | by apply (svc_ok_unsubscribe (ServiceLaws := inner_service_laws))
             | by apply (svc_ok_set_option (ServiceLaws := inner_service_laws))
             | by apply (svc_name_subscribe (ServiceLaws := inner_service_laws))
             | by apply (svc_name_unsubscribe (ServiceLaws := inner_service_laws))
             | by apply (svc_subed_subscribe (ServiceLaws := inner_service_laws))
             | by apply (svc_subed_unsubscribe (ServiceLaws := inner_service_laws))
             | by apply (svc_subed_set_option (ServiceLaws := inner_service_laws)) ].
Defined.

(** ** Video services *)
Inductive VideoSource := Monitor | Camera.
Definition service_name_prefix (s : VideoSource) : str :=
  match s with Monitor => lit "monitor" | Camera => lit "camera" end.
Definition get_service_name (source : VideoSource) (idx : Z) : str :=
  service_name_prefix source ++ fmt_Z idx.
(** [video_service::new], of a kind of service the server can make. *)
Class VideoServices (S : Type) := video_new : VideoSource → Z → S.
Class VideoServicesLaws (S : Type) `{ServiceLaws S, !VideoServices S} : Prop := {
  video_new_ok source idx : svc_ok (video_new source idx);
  video_new_name source idx : svc_name (video_new source idx) = get_service_name source idx;
  video_new_subed source idx id : svc_is_subed (video_new source idx) id = false
}.
#[export] Instance any_video_services : VideoServices AnyService := λ source idx,
  Generic (service_new (get_service_name source idx) true).
#[export] Instance any_video_services_laws : VideoServicesLaws AnyService.
Proof. by split. Qed.

Lemma get_service_name_inj s s' i i' :
  get_service_name s i = get_service_name s' i' → s = s' ∧ i = i'.
Proof.
  unfold get_service_name. destruct s, s'; intros Heq; try done.
  all: split; [done|]; apply fmt_Z_inj; by apply app_inv_head in Heq.
Qed.

Definition PRIMARY_CAMERA_IDX : Z := 0.
Definition is_video_service_name (name : str) : bool :=
  starts_with name (service_name_prefix Monitor) || starts_with name (service_name_prefix Camera).
Lemma is_video_service_name_of s i : is_video_service_name (get_service_name s i) = true.
Proof.
  unfold is_video_service_name. apply orb_true_iff. unfold get_service_name.
  destruct s; [left|right]; apply starts_with_spec; by eexists.
Qed.

(** ** The server *)
Section server.
Context {S : Type} `{VideoServicesLaws S}.

Record Server := mk_server {
  connections : gmap Z ConnInner;
  services : gmap str S;
  id_count : Z
}.
#[export] Instance Server_eta : Eta Server := λ s,
  mk_server (connections s) (services s) (id_count s).

Definition contains (s : Server) (name : str) : bool := bool_decide (is_Some (services s !! name)).
Definition add_service (s : Server) (service : S) : Server :=
  s <| services ::= <[svc_name service := service]> |>.
Definition try_add_service (s : Server) (source : VideoSource) (idx : Z) : Server :=
  if contains s (get_service_name source idx) then s else add_service s (video_new source idx).
Definition try_add_primary_camera_service (primary_camera_exists : bool) (s : Server) : Server :=
  if primary_camera_exists then try_add_service s Camera PRIMARY_CAMERA_IDX else s.
Definition try_add_monitor_service (s : Server) (display_idx : Z) : Server :=
  try_add_service s Monitor display_idx.

Definition add_camera_connection (primary_camera_exists : bool) (s : Server) (conn : ConnInner) : Server :=
  let s :=
    if primary_camera_exists
    then s <| services ::= alter (λ v, svc_on_subscribe v conn) (get_service_name Camera PRIMARY_CAMERA_IDX) |>
    else s in
  s <| connections ::= <[conn_id conn := conn]> |>.
Definition add_monitor_connection (s : Server) (conn : ConnInner) (noperms : list str)
    (display_idx : Z) : Server :=
  let monitor_service_name := get_service_name Monitor display_idx in
  let visit v :=
    let name := svc_name v in
    if is_video_service_name name && negb (bool_decide (name = monitor_service_name)) then v
    else if bool_decide (name ∈ noperms) then v
    else svc_on_subscribe v conn in
  s <| services ::= fmap visit |> <| connections ::= <[conn_id conn := conn]> |>.
Definition remove_connection (s : Server) (conn : ConnInner) : Server :=
  s <| services ::= fmap (λ v, svc_on_unsubscribe v (conn_id conn)) |>
    <| connections ::= delete (conn_id conn) |>.
(** What each connection is sent. *)
Definition stop_service : message := OtherMessage 0.
Definition close_connections (s : Server) (id : Z) : list delivery :=
  match connections s !! id with Some c => conn_send c stop_service | None => [] end.

Definition subscribe (s : Server) (name : str) (conn : ConnInner) (sub : bool) : Server :=
  match services s !! name with
  | Some v =>
      if eqb (svc_is_subed v (conn_id conn)) sub then s
      else s <| services ::= <[name := if sub then svc_on_subscribe v conn
                                       else svc_on_unsubscribe v (conn_id conn)]> |>
  | None => s
  end.
Definition get_new_id (s : Server) : Server * Z :=
  let s := s <| id_count ::= λ n, Int.wrap_i32 (n + 1) |> in (s, id_count s).
Definition set_video_service_opt (s : Server) (display : option (VideoSource * Z)) (opt value : str) : Server :=
  let visit k v :=
    match display with
    | Some (source, display) =>
        if negb (bool_decide (k = get_service_name source display)) then v
        else if is_video_service_name k then svc_set_option v opt value else v
    | None => if is_video_service_name k then svc_set_option v opt value else v
    end in
  s <| services ::= map_imap (λ k v, Some (visit k v)) |>.

Definition is_subed_to (s : Server) (name : str) (id : Z) : bool :=
  match services s !! name with Some v => svc_is_subed v id | None => false end.
Definition get_subbed_displays_count (s : Server) (id : Z) : nat :=
  length (filter (λ k, is_video_service_name k ∧ is_subed_to s k id) (elements (dom (services s)))).
Definition capture_displays (s : Server) (conn : ConnInner) (source : VideoSource)
    (displays : list Z) (include exclude : bool) : Server :=
  let displays := get_service_name source <$> displays in
  let keys := elements (dom (services s)) in
  foldl (λ s name,
    if is_video_service_name name then
      if bool_decide (name ∈ displays) then if include then subscribe s name conn true else s
      else if exclude then subscribe s name conn false else s
    else s) s keys.
(** [Drop] *)
Definition drop_server (s : Server) : Server := s <| services ::= fmap svc_join |>.

(** ** What is subscribed to what *)
Definition server_ok (s : Server) : Prop :=
  ∀ name v, services s !! name = Some v → svc_name v = name ∧ svc_ok v.

Lemma server_ok_insert s name v : server_ok s → svc_name v = name → svc_ok v →
  server_ok (s <| services ::= <[name := v]> |>).
Proof.
  intros Hs Hn Hv n u Hu. cbn in Hu.
  apply lookup_insert_Some in Hu as [[<- <-]|[_ Hu]]; [done|by apply Hs].
Qed.

Lemma try_add_service_spec s source idx : server_ok s →
  let s' := try_add_service s source idx in
  server_ok s' ∧ connections s' = connections s ∧
  (∀ name, is_Some (services s' !! name) ↔
     name = get_service_name source idx ∨ is_Some (services s !! name)) ∧
  ∀ name id, is_subed_to s' name id = is_subed_to s name id.
Proof.
  intros Hs. unfold try_add_service, contains. case_bool_decide as Hin; cbn.
  { split_and!; try done. intros name. split; [by right|by intros [->|]]. }
  unfold add_service. rewrite video_new_name. split_and!; [|done| |].
  - apply server_ok_insert; [done|apply video_new_name|apply video_new_ok].
  - intros name. cbn. rewrite lookup_insert_is_Some'. naive_solver.
  - intros name id. unfold is_subed_to; cbn.
    destruct (decide (get_service_name source idx = name)) as [<-|].
    + rewrite lookup_insert_eq, video_new_subed.
      apply eq_None_not_Some in Hin. by rewrite Hin.
    + by rewrite lookup_insert_ne.
Qed.

Lemma subscribed_or_not v conn (sub : bool) : svc_ok v →
  let v' := if sub then svc_on_subscribe v conn else svc_on_unsubscribe v (conn_id conn) in
  svc_name v' = svc_name v ∧ svc_ok v' ∧
  ∀ id, svc_is_subed v' id = if id =? conn_id conn then sub else svc_is_subed v id.
Proof.
  intros Hok. destruct sub; split_and!;
    auto using svc_name_subscribe, svc_name_unsubscribe, svc_ok_subscribe, svc_ok_unsubscribe.
  all: intros id; rewrite ?svc_subed_subscribe, ?svc_subed_unsubscribe by done.
  all: rewrite Z.eqb_sym; by destruct (id =? conn_id conn).
Qed.
Lemma subscribe_spec s name conn sub : server_ok s →
  let s' := subscribe s name conn sub in
  server_ok s' ∧ connections s' = connections s ∧ dom (services s') = dom (services s) ∧
  (∀ n id, n ≠ name ∨ id ≠ conn_id conn → is_subed_to s' n id = is_subed_to s n id) ∧
  is_subed_to s' name (conn_id conn) = contains s name && sub.
Proof.
  intros Hs s'. unfold s', subscribe, contains, is_subed_to. clear s'.
  destruct (services s !! name) as [v|] eqn:Hv; [|by rewrite Hv].
  rewrite bool_decide_true by done. cbn. destruct (Hs name v Hv) as [Hname Hok].
  destruct (eqb (svc_is_subed v (conn_id conn)) sub) eqn:Heq.
  { apply eqb_prop in Heq. rewrite Hv. split_and!; done. }
  assert (name ∈ dom (services s)) as Hdom by (apply elem_of_dom; by exists v).
  destruct (subscribed_or_not v conn sub Hok) as (Hn & Ho & Hsub). rewrite Hname in Hn.
  split_and!; [by apply server_ok_insert|done| | |].
  - cbn. rewrite dom_insert_L. set_solver.
  - intros n id Hne. cbn. destruct (decide (name = n)) as [<-|].
    + rewrite lookup_insert_eq, Hsub, Hv.
      by rewrite (proj2 (Z.eqb_neq _ _)) by naive_solver.
    + by rewrite lookup_insert_ne.
  - cbn. by rewrite lookup_insert_eq, Hsub, Z.eqb_refl.
Qed.

(** [capture_displays]: what it leaves a service at, for the connection it is
    called for. *)
Definition captured (displays : list str) (include exclude : bool) (name : str) (before : bool) : bool :=
  if is_video_service_name name then
    if bool_decide (name ∈ displays) then include || before else negb exclude && before
  else before.
Definition capture_one (conn : ConnInner) (displays : list str) (include exclude : bool)
    (s : Server) (name : str) : Server :=
  if is_video_service_name name then
    if bool_decide (name ∈ displays) then if include then subscribe s name conn true else s
    else if exclude then subscribe s name conn false else s
  else s.

Lemma is_subed_to_contains s name id : is_subed_to s name id = true → contains s name = true.
Proof. unfold is_subed_to, contains. by destruct (services s !! name). Qed.
Lemma contains_dom s name : contains s name = bool_decide (name ∈ dom (services s)).
Proof. unfold contains. apply bool_decide_ext. symmetry. apply elem_of_dom. Qed.

Lemma capture_one_spec s conn displays include exclude name : server_ok s → contains s name = true →
  let s' := capture_one conn displays include exclude s name in
  server_ok s' ∧ connections s' = connections s ∧ dom (services s') = dom (services s) ∧
  (∀ n id, n ≠ name ∨ id ≠ conn_id conn → is_subed_to s' n id = is_subed_to s n id) ∧
  is_subed_to s' name (conn_id conn) =
    captured displays include exclude name (is_subed_to s name (conn_id conn)).
Proof.
  intros Hs Hc. unfold capture_one, captured.
  destruct (is_video_service_name name); [|done].
  pose proof (λ b, subscribe_spec s name conn b Hs) as Hsub. cbv zeta in Hsub. rewrite Hc in Hsub.
  case_bool_decide; [destruct include|destruct exclude]; try done; apply Hsub.
Qed.

Lemma capture_fold conn names include exclude ks s :
  NoDup ks → (∀ k, k ∈ ks → contains s k = true) → server_ok s →
  let s' := foldl (capture_one conn names include exclude) s ks in
  server_ok s' ∧ connections s' = connections s ∧ dom (services s') = dom (services s) ∧
  (∀ n id, id ≠ conn_id conn → is_subed_to s' n id = is_subed_to s n id) ∧
  ∀ n, is_subed_to s' n (conn_id conn) =
    if bool_decide (n ∈ ks) then captured names include exclude n (is_subed_to s n (conn_id conn))
    else is_subed_to s n (conn_id conn).
Proof.
  revert s. induction ks as [|k ks IH]; intros s Hnd Hks Hok; cbn; [done|].
  apply NoDup_cons in Hnd as [Hk Hnd].
  destruct (capture_one_spec s conn names include exclude k Hok) as (Hok1 & Hc1 & Hd1 & Ho1 & Hk1);
    [by apply Hks; left|]. cbv zeta in *.
  destruct (IH (capture_one conn names include exclude s k) Hnd) as (Hok2 & Hc2 & Hd2 & Ho2 & Hk2);
    [|done|].
  { intros k' Hk'. rewrite contains_dom, Hd1, <-contains_dom. apply Hks. by right. }
  split_and!; [done|by rewrite Hc2|by rewrite Hd2| |].
  - intros n id Hid. rewrite Ho2 by done. apply Ho1. by right.
  - intros n. rewrite Hk2. destruct (decide (n = k)) as [->|Hne].
    + rewrite bool_decide_false by done. rewrite bool_decide_true by by left. done.
    + rewrite Ho1 by by left. apply (f_equal (λ b : bool, if b then _ else _)).
      apply bool_decide_ext. set_solver.
Qed.

Lemma capture_displays_spec s conn source displays include exclude : server_ok s →
  let s' := capture_displays s conn source displays include exclude in
  server_ok s' ∧ connections s' = connections s ∧ dom (services s') = dom (services s) ∧
  (∀ n id, id ≠ conn_id conn → is_subed_to s' n id = is_subed_to s n id) ∧
  ∀ n, is_subed_to s' n (conn_id conn) =
    contains s n && captured (get_service_name source <$> displays) include exclude n
                      (is_subed_to s n (conn_id conn)).
Proof.
  intros Hs. unfold capture_displays.
  set (names := get_service_name source <$> displays). fold (capture_one conn names include exclude).
  destruct (capture_fold conn names include exclude (elements (dom (services s))) s) as (R1 & R2 & R3 & R4 & R5);
    [apply NoDup_elements| |done|].
  { intros k Hk. rewrite contains_dom. apply bool_decide_eq_true. by apply elem_of_elements in Hk. }
  split_and!; [done..|]. intros n. rewrite R5, contains_dom.
  destruct (decide (n ∈ dom (services s))) as [Hin|Hin].
  - by rewrite !bool_decide_true by (try rewrite elem_of_elements; done).
  - rewrite !bool_decide_false by (try rewrite elem_of_elements; done). cbn.
    apply not_true_is_false. intros Ht%is_subed_to_contains.
    rewrite contains_dom in Ht. by apply bool_decide_eq_true in Ht.
Qed.

Lemma lookup_fmap_services (f : S → S) s name id :
  is_subed_to (s <| services ::= fmap f |>) name id =
  match services s !! name with Some v => svc_is_subed (f v) id | None => false end.
Proof. unfold is_subed_to; cbn. rewrite lookup_fmap. by destruct (services s !! name). Qed.
Lemma server_ok_fmap (f : S → S) s :
  (∀ v, svc_ok v → svc_ok (f v)) → (∀ v, svc_name (f v) = svc_name v) →
  server_ok s → server_ok (s <| services ::= fmap f |>).
Proof.
  intros Hf Hn Hs n u Hu. cbn in Hu. rewrite lookup_fmap in Hu.
  apply fmap_Some in Hu as (v & Hv & ->). destruct (Hs n v Hv). rewrite Hn. auto.
Qed.

Lemma add_monitor_connection_spec s conn noperms idx : server_ok s →
  let s' := add_monitor_connection s conn noperms idx in
  server_ok s' ∧ (∀ name, contains s' name = contains s name) ∧
  ∀ name id, is_subed_to s' name id =
    is_subed_to s name id ||
    contains s name && (conn_id conn =? id) && negb (bool_decide (name ∈ noperms)) &&
      (negb (is_video_service_name name) || bool_decide (name = get_service_name Monitor idx)).
Proof.
  intros Hs. unfold add_monitor_connection. set (visit := λ v : S, _).
  assert (server_ok (s <| services ::= fmap visit |>)) as Hok.
  { apply server_ok_fmap; [| |done]; intros v; unfold visit; repeat case_match;
      auto using svc_ok_subscribe, svc_name_subscribe. }
  split_and!; [exact Hok| |].
  - intros name. unfold contains; cbn. rewrite lookup_fmap. apply bool_decide_ext, fmap_is_Some.
  - intros name id. etrans; [apply (lookup_fmap_services visit)|].
    unfold is_subed_to, contains. destruct (services s !! name) as [v|] eqn:Hv; [|done].
    destruct (Hs name v Hv) as [Hn Ho]. unfold visit. rewrite Hn.
    rewrite (bool_decide_true (is_Some (Some v))) by done.
    destruct (is_video_service_name name), (bool_decide (name = _)), (bool_decide (name ∈ noperms)); cbn;
      rewrite ?svc_subed_subscribe by done; destruct (conn_id conn =? id), (svc_is_subed v id); done.
Qed.
Lemma add_camera_connection_spec exists_ s conn : server_ok s →
  let s' := add_camera_connection exists_ s conn in
  server_ok s' ∧ (∀ name, contains s' name = contains s name) ∧
  ∀ name id, is_subed_to s' name id =
    is_subed_to s name id ||
    exists_ && contains s name && (conn_id conn =? id) &&
      bool_decide (name = get_service_name Camera PRIMARY_CAMERA_IDX).
Proof.
  intros Hs. unfold add_camera_connection. generalize (get_service_name Camera PRIMARY_CAMERA_IDX). intros cam.
  assert (∀ n v, services s !! n = Some v → svc_name v = n ∧ svc_ok v) as Hs' by exact Hs.
  destruct exists_; [|split_and!; [exact Hs|done|]; intros; by rewrite orb_false_r].
  split_and!; cbn.
  - intros n u Hu. cbn in Hu. apply lookup_alter_Some in Hu as [(<- & v & Hv & ->)|[_ Hu]]; [|by apply Hs].
    destruct (Hs' _ _ Hv). rewrite svc_name_subscribe. auto using svc_ok_subscribe.
  - intros n. unfold contains; cbn. apply bool_decide_ext. apply lookup_alter_is_Some.
  - intros n id. unfold is_subed_to, contains; cbn. destruct (decide (cam = n)) as [<-|Hne].
    + rewrite lookup_alter_eq. destruct (services s !! cam) as [v|] eqn:Hv; cbn; [|done].
      rewrite svc_subed_subscribe by (by eapply Hs').
      rewrite !bool_decide_true by done. by destruct (conn_id conn =? id), (svc_is_subed v id).
    + rewrite lookup_alter_ne by done. rewrite (bool_decide_false (n = cam)) by done.
      by rewrite andb_false_r, orb_false_r.
Qed.
Lemma remove_connection_spec s conn : server_ok s →
  let s' := remove_connection s conn in
  server_ok s' ∧ (∀ name, contains s' name = contains s name) ∧
  ∀ name id, is_subed_to s' name id = negb (conn_id conn =? id) && is_subed_to s name id.
Proof.
  intros Hs. unfold remove_connection. set (visit := λ v : S, _).
  assert (server_ok (s <| services ::= fmap visit |>)) as Hok.
  { apply server_ok_fmap; [| |done]; intros v; unfold visit;
      auto using svc_ok_unsubscribe, svc_name_unsubscribe. }
  split_and!; [exact Hok| |].
  - intros name. unfold contains; cbn. rewrite lookup_fmap. apply bool_decide_ext, fmap_is_Some.
  - intros name id. etrans; [apply (lookup_fmap_services visit)|].
    unfold is_subed_to. destruct (services s !! name) as [v|] eqn:Hv; [|by rewrite andb_false_r].
    destruct (Hs name v Hv) as [Hn Ho]. unfold visit. by rewrite svc_subed_unsubscribe.
Qed.

(** A server in which nobody is subscribed to anything. *)
Definition fresh (s : Server) : Prop := server_ok s ∧ ∀ name id, is_subed_to s name id = false.
Lemma fresh_empty n : fresh (mk_server ∅ ∅ n).
Proof. split; [by intros ? ?|done]. Qed.
Lemma fresh_add_service s v : svc_ok v → (∀ id, svc_is_subed v id = false) → fresh s → fresh (add_service s v).
Proof.
  intros Hv Hsub [Hs Hf]. split; [by apply server_ok_insert|].
  intros name id. unfold is_subed_to, add_service; cbn.
  destruct (decide (svc_name v = name)) as [<-|Hne].
  - by rewrite lookup_insert_eq.
  - rewrite lookup_insert_ne by done. apply Hf.
Qed.
End server.
Arguments Server : clear implicits.

(** ** The server as it starts: [new], on the desktop builds

    Without the printer of Windows. [rand] is a random [i32]. *)
Definition server_new (capture_cursor_embedded x11 : bool) (rand : Z) : Server AnyService :=
  let generic n snap := Generic (service_new (lit n) snap) in
  let server := mk_server ∅ ∅ (Z.rem rand 1000 + 1000) in
  let server := add_service server (generic "audio" true) in
  let server := add_service server (generic "display" true) in
  let server := add_service server (generic "clipboard" false) in
  let server := add_service server (generic "file-clipboard" false) in
  if capture_cursor_embedded then server
  else
    let server := add_service server (Cursor (service_new (lit "mouse_cursor") true)) in
    let server := add_service server (generic "mouse_pos" false) in
    if x11 then add_service server (generic "window_focus" false) else server.
Lemma service_new_ok {T} `{SubscriberLaws T} n snap :
  service_wf snap (service_new (T := T) n snap).
Proof. split; cbn; try done; apply map_disjoint_empty_l. Qed.
Lemma server_new_fresh emb x11 rand : fresh (server_new emb x11 rand).
Proof.
  unfold server_new. repeat case_match; repeat apply fresh_add_service; try done; apply fresh_empty.
Qed.
