(* ===== verification/Subscriptions.v ===== *)
(** * What a session is subscribed to

    The part of [src/src/server/connection.rs] that decides which services of
    the server a connection receives: permissions changed in the connection
    manager, the options of the viewer, its choice of displays, voice calls,
    login and close; on the desktop builds, with file copy and paste. *)
From S2P Require Import Prelude Services ServerTable LoginFlow SessionScope.
Local Open Scope Z_scope.

(** Names of services ([NAME_CURSOR], [audio_service::NAME], ...). *)
Definition NAME_CURSOR : str := lit "mouse_cursor".
Definition NAME_POS : str := lit "mouse_pos".
Definition NAME_WINDOW_FOCUS : str := lit "window_focus".
Definition CLIPBOARD_NAME : str := lit "clipboard".
Definition FILE_CLIPBOARD_NAME : str := lit "file-clipboard".
Definition AUDIO_NAME : str := lit "audio".

(** The fields of [Connection] that matter here. [kind] stands for
    [file_transfer], [view_camera], [terminal] and the forward of a port, as
    [LoginFlow.conn_type] reads them; [authed_conn_id] has that type once
    [authorized]. *)
Record Connection := mk_connection {
  inner : ConnInner;
  kind : AuthConnType;
  authorized : bool;
  keyboard : bool; clipboard : bool; audio : bool; file : bool; restart : bool;
  recording : bool; block_input : bool; privacy_mode : bool;
  disable_audio : bool; enable_file_transfer : bool; disable_clipboard : bool; disable_keyboard : bool;
  lock_after_session_end : bool;
  show_remote_cursor : bool; follow_remote_cursor : bool; follow_remote_window : bool;
  show_my_cursor : bool; terminal_persistent : bool;
  multi_ui_session : bool;
  voice_call_requested : bool;         (* [voice_call_request_timestamp.is_some()] *)
  voice_calling : bool;
  services_subed : bool;
  display_idx : Z
}.
#[export] Instance Connection_eta : Eta Connection := λ c,
  mk_connection (inner c) (kind c) (authorized c) (keyboard c) (clipboard c) (audio c) (file c)
    (restart c) (recording c) (block_input c) (privacy_mode c) (disable_audio c)
    (enable_file_transfer c) (disable_clipboard c) (disable_keyboard c) (lock_after_session_end c)
    (show_remote_cursor c) (follow_remote_cursor c) (follow_remote_window c) (show_my_cursor c)
    (terminal_persistent c) (multi_ui_session c) (voice_call_requested c) (voice_calling c)
    (services_subed c) (display_idx c).
(** [Connection::start]; [permit] is [Self::permission]. *)
Definition new_connection (inner : ConnInner) (kind : AuthConnType) (permit : str → bool) : Connection :=
  mk_connection inner kind false (permit (lit "enable-keyboard")) (permit (lit "enable-clipboard"))
    (permit (lit "enable-audio")) (permit (lit "enable-file-transfer")) (permit (lit "enable-remote-restart")) (permit (lit "enable-record-session"))
    (permit (lit "enable-block-input")) (permit (lit "enable-privacy-mode"))
    false false false false false false false false false false false false false false 0.

(** What a handler does besides. *)
Inductive effect :=
| SendPermission (name : str) (enabled : bool)
| RevertInCm (name : str) (enabled : bool)    (* [SwitchPermission] back to the manager *)
| UserImageQuality (q : Z) | UserCustomFps (fps : Z) | UpdateDecoding (d : str)
| EmptyFileClipboard
| TurnOnPrivacy | TurnOffPrivacy
| BlockOn | BlockOff | BlockInputError (on : bool)
| SetTerminalPersistent (b : bool)
| RegisterWhiteboard | UnregisterWhiteboard | CursorNotSupported
| SendVoiceCallResponse (accepted : bool) | StartVoiceCall | CloseVoiceCall | VoiceCallIncoming
| ChangeResolution | DisplayChanged.

Section subscriptions.
Context {S : Type} `{VideoServicesLaws S}.
(** [cfg(windows)], and the built-in options [one-way-clipboard-redirection] and
    [one-way-file-transfer]. *)
Context (windows one_way_clipboard one_way_file : bool).

Record session := mk_session { conn : Connection; srv : Server S; out : list effect }.
#[export] Instance session_eta : Eta session := λ x, mk_session (conn x) (srv x) (out x).

Definition is_remote (c : Connection) : bool := bool_decide (kind c = Remote).
Definition view_camera (c : Connection) : bool := bool_decide (kind c = ViewCameraConn).
Definition authed_conn_type (c : Connection) : option AuthConnType :=
  if authorized c then Some (kind c) else None.
Definition is_authed_view_camera_conn (c : Connection) : bool :=
  bool_decide (authed_conn_type c = Some ViewCameraConn).
Definition peer_keyboard_enabled (c : Connection) : bool := keyboard c && negb (disable_keyboard c).
Definition clipboard_enabled (c : Connection) : bool := clipboard c && negb (disable_clipboard c).
Definition can_sub_clipboard_service (c : Connection) : bool :=
  clipboard_enabled c && peer_keyboard_enabled c && negb one_way_clipboard.
Definition audio_enabled (c : Connection) : bool := audio c && negb (disable_audio c).
Definition file_transfer_enabled (c : Connection) : bool := file c && enable_file_transfer c.
Definition can_sub_file_clipboard_service (c : Connection) : bool :=
  clipboard_enabled c && file_transfer_enabled c && negb one_way_file.
Definition video_source (c : Connection) : VideoSource := if view_camera c then Camera else Monitor.

Definition emit (e : effect) (x : session) : session := x <| out ::= λ o, o ++ [e] |>.
Definition set_conn (f : Connection → Connection) (x : session) : session := x <| conn ::= f |>.
(** [s.write().unwrap().subscribe(name, self.inner.clone(), want)] *)
Definition sub (name : str) (want : Connection → bool) (x : session) : session :=
  x <| srv ::= λ s, subscribe s name (inner (conn x)) (want (conn x)) |>.
Definition when (b : bool) (f : session → session) (x : session) : session := if b then f x else x.

(** ** Permissions changed in the connection manager: [ipc::Data::SwitchPermission]

    [privacy_off]: when the connection is the one in privacy mode, whether it
    could be turned off. *)
Definition sub_audio (x : session) : session :=
  if is_authed_view_camera_conn (conn x) then
    when (voice_calling (conn x) || negb (audio_enabled (conn x))) (sub AUDIO_NAME audio_enabled) x
  else sub AUDIO_NAME audio_enabled x.
Definition switch_permission (name : str) (enabled : bool) (privacy_off : option bool) (x : session) : session :=
  let tell := emit (SendPermission name enabled) in
  if bool_decide (name = lit "keyboard") then
    let x := tell (set_conn (λ c, c <| keyboard := enabled |>) x) in
    let x := sub CLIPBOARD_NAME can_sub_clipboard_service x in
    let x := sub FILE_CLIPBOARD_NAME can_sub_file_clipboard_service x in
    sub NAME_CURSOR (λ c, enabled || show_remote_cursor c) x
  else if bool_decide (name = lit "clipboard") then
    let x := tell (set_conn (λ c, c <| clipboard := enabled |>) x) in
    sub CLIPBOARD_NAME can_sub_clipboard_service x
  else if bool_decide (name = lit "audio") then
    let x := tell (set_conn (λ c, c <| audio := enabled |>) x) in
    when (authorized (conn x)) sub_audio x
  else if bool_decide (name = lit "file") then
    let x := tell (set_conn (λ c, c <| file := enabled |>) x) in
    let x := when (negb enabled) (emit EmptyFileClipboard) x in
    sub FILE_CLIPBOARD_NAME can_sub_file_clipboard_service x
  else if bool_decide (name = lit "restart") then tell (set_conn (λ c, c <| restart := enabled |>) x)
  else if bool_decide (name = lit "recording") then tell (set_conn (λ c, c <| recording := enabled |>) x)
  else if bool_decide (name = lit "block_input") then tell (set_conn (λ c, c <| block_input := enabled |>) x)
  else if bool_decide (name = lit "privacy_mode") then
    match (if enabled then None else privacy_off) with
    | Some false => emit (RevertInCm name (privacy_mode (conn x))) (emit TurnOffPrivacy x)
    | off =>
        let x := when (bool_decide (off = Some true)) (emit TurnOffPrivacy) x in
        tell (set_conn (λ c, c <| privacy_mode := enabled |>) x)
    end
  else x.

(** ** [update_options]

    [q.enum_value()] that is set, [Yes] or [No]. [old_peer]: the viewer is older
    than 1.2.4; [no_my_cursor]: showing the viewer's cursor is not supported. *)
Definition set_option_of (q : Z) (f : bool → session → session) : session → session :=
  when (bool_option_known q && negb (q =? 0)) (f (q =? 2)).
Definition image_quality_of (o : OptionMessage) : Z :=
  if image_quality o =? 0
  then if 0 <? custom_image_quality o then custom_image_quality o else -1
  else image_quality o.
Definition options_video (o : OptionMessage) (x : session) : session :=
  let x := when (image_quality_known (image_quality o) && (0 <? image_quality_of o))
             (emit (UserImageQuality (image_quality_of o))) x in
  let x := when (0 <? custom_fps o) (emit (UserCustomFps (custom_fps o))) x in
  match supported_decoding o with Some d => emit (UpdateDecoding d) x | None => x end.
Definition options_services (o : OptionMessage) (x : session) : session :=
  let x := set_option_of (SessionScope.lock_after_session_end o)
             (λ b, set_conn (λ c, c <| lock_after_session_end := b |>)) x in
  let x := set_option_of (SessionScope.show_remote_cursor o) (λ b x,
             let x := set_conn (λ c, c <| show_remote_cursor := b |>) x in
             let x := sub NAME_CURSOR (λ c, peer_keyboard_enabled c || show_remote_cursor c) x in
             sub NAME_POS show_remote_cursor x) x in
  let x := set_option_of (SessionScope.follow_remote_cursor o)
             (λ b, set_conn (λ c, c <| follow_remote_cursor := b |>)) x in
  let x := set_option_of (SessionScope.follow_remote_window o) (λ b x,
             let x := set_conn (λ c, c <| follow_remote_window := b |>) x in
             sub NAME_WINDOW_FOCUS follow_remote_window x) x in
  let x := set_option_of (SessionScope.disable_audio o) (λ b x,
             sub_audio (set_conn (λ c, c <| disable_audio := b |>) x)) x in
  let x := set_option_of (SessionScope.enable_file_transfer o) (λ b x,
             let x := set_conn (λ c, c <| enable_file_transfer := b |>) x in
             let x := when (negb b) (emit EmptyFileClipboard) x in
             sub FILE_CLIPBOARD_NAME can_sub_file_clipboard_service x) x in
  let x := set_option_of (SessionScope.disable_clipboard o) (λ b x,
             let x := set_conn (λ c, c <| disable_clipboard := b |>) x in
             sub CLIPBOARD_NAME can_sub_clipboard_service x) x in
  set_option_of (SessionScope.disable_keyboard o) (λ b x,
    let x := set_conn (λ c, c <| disable_keyboard := b |>) x in
    let x := sub CLIPBOARD_NAME can_sub_clipboard_service x in
    let x := sub FILE_CLIPBOARD_NAME can_sub_file_clipboard_service x in
    sub NAME_CURSOR (λ c, peer_keyboard_enabled c || show_remote_cursor c) x) x.
Definition options_rest (old_peer no_my_cursor : bool) (o : OptionMessage) (x : session) : session :=
  let x := when (old_peer && keyboard (conn x))
             (set_option_of (SessionScope.privacy_mode o) (λ b, emit (if b then TurnOnPrivacy else TurnOffPrivacy))) x in
  let x := if keyboard (conn x) && block_input (conn x)
           then set_option_of (SessionScope.block_input o) (λ b, emit (if b then BlockOn else BlockOff)) x
           else set_option_of (SessionScope.block_input o) (λ b, when (tx (inner (conn x))) (emit (BlockInputError b))) x in
  let x := set_option_of (SessionScope.terminal_persistent o) (λ b x,
             emit (SetTerminalPersistent b) (set_conn (λ c, c <| terminal_persistent := b |>) x)) x in
  set_option_of (SessionScope.show_my_cursor o) (λ b x,
    let x := set_conn (λ c, c <| show_my_cursor := b |>) x in
    if b then emit (if no_my_cursor then CursorNotSupported else RegisterWhiteboard) x
    else when (negb no_my_cursor) (emit UnregisterWhiteboard) x) x.
Definition update_options (old_peer no_my_cursor : bool) (o : OptionMessage) (x : session) : session :=
  options_rest old_peer no_my_cursor o (options_services o (options_video o x)).

(** ** Login *)
Definition try_sub_camera_displays (primary_camera_exists : bool) (x : session) : session :=
  let x := x <| srv ::= try_add_primary_camera_service primary_camera_exists |> in
  x <| srv ::= λ s, add_camera_connection primary_camera_exists s (inner (conn x)) |>.
Definition noperms (c : Connection) : list str :=
  (if negb (peer_keyboard_enabled c) && negb (show_remote_cursor c) then [NAME_CURSOR] else [])
  ++ (if negb (show_remote_cursor c) then [NAME_POS] else [])
  ++ (if negb (follow_remote_window c) then [NAME_WINDOW_FOCUS] else [])
  ++ (if negb (can_sub_clipboard_service c) then [CLIPBOARD_NAME] else [])
  ++ (if negb (can_sub_file_clipboard_service c) then [FILE_CLIPBOARD_NAME] else [])
  ++ (if negb (audio_enabled c) then [AUDIO_NAME] else []).
Definition try_sub_monitor_services (x : session) : session :=
  if is_remote (conn x) && negb (services_subed (conn x)) then
    let x := set_conn (λ c, c <| services_subed := true |>) x in
    let x := x <| srv ::= λ s, try_add_monitor_service s (display_idx (conn x)) |> in
    x <| srv ::= λ s, add_monitor_connection s (inner (conn x)) (noperms (conn x)) (display_idx (conn x)) |>
  else x.
(** The end of a login, [send_logon_response]: [primary] is the primary display
    when the displays could be read, [wait] whether the viewer first has to choose
    a session of Windows ([wait_session_id_confirm]). *)
Definition login_display (primary : option Z) (x : session) : session :=
  match primary with
  | Some i => when (is_remote (conn x)) (set_conn (λ c, c <| display_idx := i |>)) x
  | None => x
  end.
Definition update_scoped_login_options (old_peer no_my_cursor : bool) (options_in_login : option OptionMessage)
    (x : session) : session :=
  match options_in_login with
  | Some o => match (scoped_login_option (kind (conn x)) o).1 with
              | Some o => update_options old_peer no_my_cursor o x
              | None => x
              end
  | None => x
  end.
Definition login_services (primary_camera_exists wait displays : bool) (x : session) : session :=
  match kind (conn x) with
  | FileTransferConn | TerminalConn => set_conn (λ c, c <| keyboard := false |>) x
  | ViewCameraConn =>
      let x := when (negb wait) (try_sub_camera_displays primary_camera_exists) x in
      emit (SendPermission (lit "keyboard") false) (set_conn (λ c, c <| keyboard := false |>) x)
  | PortForwardConn => x
  | Remote => when (displays && negb wait) try_sub_monitor_services x
  end.
Definition finish_login (old_peer no_my_cursor primary_camera_exists wait : bool) (primary : option Z)
    (options_in_login : option OptionMessage) (x : session) : session :=
  let x := set_conn (λ c, c <| authorized := true |>) x in
  let x := login_display primary x in
  let x := update_scoped_login_options old_peer no_my_cursor options_in_login x in
  login_services primary_camera_exists wait (bool_decide (is_Some primary)) x.
(** [Misc::SelectedSid], when the session is the current one. *)
Definition selected_sid (primary_camera_exists : bool) (x : session) : session :=
  match kind (conn x) with
  | FileTransferConn => x
  | ViewCameraConn => try_sub_camera_displays primary_camera_exists x
  | TerminalConn => x
  | _ => try_sub_monitor_services x
  end.

(** ** Displays *)
Definition add_missing (source : VideoSource) (s : Server S) (displays : list Z) : Server S :=
  foldl (λ s d, try_add_service s source d) s displays.
(** The last lines of [capture_displays], once the server is [s]. *)
Definition capture_end (s : Server S) (x : session) : session :=
  let x := x <| srv := s |> in
  let count := get_subbed_displays_count s (conn_id (inner (conn x))) in
  let x := set_conn (λ c, c <| multi_ui_session := bool_decide (1 < Z.of_nat count) |>) x in
  when (follow_remote_window (conn x)) (sub NAME_WINDOW_FOCUS (λ c, negb (multi_ui_session c))) x.
(** [count]: how many displays or cameras there are, [video_source_count]. *)
Definition capture_displays (count : Z) (add sub_ set : list Z) (x : session) : session :=
  let source := video_source (conn x) in
  let valid := filter (λ d, d < count) in
  if (negb (bool_decide (add = [])) && bool_decide (valid add = []))
     || (bool_decide (add = []) && negb (bool_decide (sub_ = [])) && bool_decide (valid sub_ = []))
     || (bool_decide (add = []) && bool_decide (sub_ = []) && negb (bool_decide (set = []))
         && bool_decide (valid set = []))
  then x
  else
    let me := inner (conn x) in
    let s := add_missing source (add_missing source (srv x) (valid add)) (valid set) in
    let s :=
      if negb (bool_decide (add = [])) then ServerTable.capture_displays s me source (valid add) true false
      else if negb (bool_decide (sub_ = [])) then ServerTable.capture_displays s me source (valid sub_) false true
      else ServerTable.capture_displays s me source (valid set) true true in
    capture_end s x.
Definition switch_display_to (count : Z) (multi_ui_peer : bool) (idx : Z) (x : session) : session * bool :=
  if count <=? idx then (x, false)
  else
    let source := video_source (conn x) in
    let old_service_name := get_service_name source (display_idx (conn x)) in
    let x := x <| srv ::= λ s, try_add_service s source idx |> in
    let x := when (negb multi_ui_peer) (sub old_service_name (λ _, false)) x in
    let x := sub (get_service_name source idx) (λ _, true) x in
    (set_conn (λ c, c <| display_idx := idx |>) x, true).
(** [resize]: the message has a width and a height. *)
Definition handle_switch_display (count : Z) (multi_ui_peer : bool) (idx : Z) (resize : bool)
    (x : session) : session :=
  if display_idx (conn x) =? idx then x
  else
    let '(x, switched) := switch_display_to count multi_ui_peer idx x in
    if switched
    then emit DisplayChanged (when (negb (view_camera (conn x)) && resize) (emit ChangeResolution) x)
    else x.

(** ** Voice calls *)
Definition voice_call_request (x : session) : session :=
  emit VoiceCallIncoming (set_conn (λ c, c <| voice_call_requested := true |>) x).
Definition handle_voice_call (accepted : bool) (x : session) : session :=
  if voice_call_requested (conn x) then
    let x := set_conn (λ c, c <| voice_call_requested := false |>) x in
    let x := emit (if accepted then StartVoiceCall else CloseVoiceCall) x in
    let x := emit (SendVoiceCallResponse accepted) x in
    let x := set_conn (λ c, c <| voice_calling := accepted |>) x in
    when (is_authed_view_camera_conn (conn x)) (sub AUDIO_NAME (λ c, audio_enabled c && accepted)) x
  else x.
Definition close_voice_call (x : session) : session :=
  let x := emit CloseVoiceCall x in
  let x := set_conn (λ c, c <| voice_calling := false |>) x in
  when (is_authed_view_camera_conn (conn x)) (sub AUDIO_NAME (λ _, false)) x.

(** ** A session *)
Inductive event :=
| SwitchPermission (name : str) (enabled : bool) (privacy_off : option bool)
| Login (old_peer no_my_cursor primary_camera_exists wait : bool) (primary : option Z)
        (options_in_login : option OptionMessage)
| SelectedSid_ (primary_camera_exists : bool)
| Option_ (old_peer no_my_cursor : bool) (o : OptionMessage)
| CaptureDisplays_ (count : Z) (add sub_ set : list Z)
| SwitchDisplay_ (count : Z) (multi_ui_peer : bool) (idx : Z) (resize : bool)
| VoiceCallRequest_ (is_connect : bool)
| VoiceCallAnswer (accepted : bool)
| CloseVoiceCall_.
(** What the viewer sends counts once it is authorized, within its scope. *)
Definition from_viewer (m : MessageUnion) (f : session → session) (x : session) : session :=
  let violation := authorized_scope_violation windows (authed_conn_type (conn x)) (Some m) in
  when (authorized (conn x) && bool_decide (violation = None)) f x.
Definition step (x : session) (e : event) : session :=
  match e with
  | SwitchPermission name enabled privacy_off => switch_permission name enabled privacy_off x
  | Login old cur cam wait primary o =>
      when (negb (authorized (conn x))) (finish_login old cur cam wait primary o) x
  | SelectedSid_ cam => from_viewer (Misc (Some SelectedSid)) (selected_sid cam) x
  | Option_ old cur o =>
      from_viewer (Misc (Some (MOption o))) (λ x,
        if bool_decide (authed_conn_type (conn x) = Some Remote) then update_options old cur o x
        else match scoped_update_option_message (authed_conn_type (conn x)) o with
             | Some o => update_options old cur o x
             | None => x
             end) x
  | CaptureDisplays_ count add sub_ set =>
      from_viewer (Misc (Some CaptureDisplays)) (capture_displays count add sub_ set) x
  | SwitchDisplay_ count multi idx resize =>
      from_viewer (Misc (Some SwitchDisplay)) (handle_switch_display count multi idx resize) x
  | VoiceCallRequest_ c =>
      from_viewer VoiceCallRequest (if c then voice_call_request else close_voice_call) x
  | VoiceCallAnswer accepted => handle_voice_call accepted x
  | CloseVoiceCall_ => close_voice_call x
  end.
Definition run : session → list event → session := foldl step.
(** The end of the connection's loop. *)
Definition close (x : session) : session := x <| srv ::= λ s, remove_connection s (inner (conn x)) |>.

(** ** What every handler keeps: the other connections *)
Implicit Types (x : session) (c : Connection) (s : Server S).
Definition subed x (n : str) : bool := is_subed_to (srv x) n (conn_id (inner (conn x))).
(** From [x0] on. *)
Record good x0 x : Prop := {
  good_srv : server_ok (srv x);
  good_me : inner (conn x) = inner (conn x0) ∧ kind (conn x) = kind (conn x0);
  good_names : ∀ n, is_video_service_name n = false → contains (srv x) n = contains (srv x0) n;
  good_others : ∀ n id, id ≠ conn_id (inner (conn x0)) → is_subed_to (srv x) n id = is_subed_to (srv x0) n id
}.
Definition keeps_me (f : Connection → Connection) : Prop :=
  ∀ c, inner (f c) = inner c ∧ kind (f c) = kind c.

Lemma good_refl x : server_ok (srv x) → good x x.
Proof. by split. Qed.
Lemma good_trans x0 x y : good x0 x → good x y → good x0 y.
Proof.
  intros [G1 G2 G3 G4] [G1' G2' G3' G4']. destruct G2 as [Hi Hk], G2' as [Hi' Hk']. split.
  - done.
  - by rewrite Hi', Hk'.
  - intros n Hn. by rewrite G3', G3.
  - intros n id Hid. rewrite G4', G4 by congruence. done.
Qed.
Lemma good_sub x0 x n w : good x0 x → good x0 (sub n w x).
Proof.
  intros Hx. eapply good_trans; [done|]. destruct Hx as [Hs _ _ _].
  destruct (subscribe_spec (srv x) n (inner (conn x)) (w (conn x)) Hs) as (G1 & G2 & G3 & G4 & G5).
  split; cbn; [done|done| |].
  - intros m _. by rewrite !contains_dom, G3.
  - intros m id Hid. apply G4. by right.
Qed.
Lemma good_emit x0 x e : good x0 x → good x0 (emit e x).
Proof. intros []; by split. Qed.
Lemma good_set_conn x0 x f : keeps_me f → good x0 x → good x0 (set_conn f x).
Proof.
  intros Hf [G1 [G2 G2'] G3 G4]. split; [done| |done|done].
  destruct (Hf (conn x)). cbn. split; congruence.
Qed.
Lemma good_when x0 x b f :
  (∀ y, good x0 y → good x0 (f y)) → good x0 x → good x0 (when b f x).
Proof. destruct b; cbn; auto. Qed.
Lemma good_set_option x0 x q f :
  (∀ b y, good x0 y → good x0 (f b y)) → good x0 x → good x0 (set_option_of q f x).
Proof. unfold set_option_of. destruct (bool_option_known q && _); cbn; auto. Qed.
(** A change of the server that touches nobody else and adds only video services. *)
Lemma good_update x0 x g :
  (server_ok (srv x) → server_ok (g (srv x)) ∧
     (∀ n, is_video_service_name n = false → contains (g (srv x)) n = contains (srv x) n) ∧
     ∀ n id, id ≠ conn_id (inner (conn x)) → is_subed_to (g (srv x)) n id = is_subed_to (srv x) n id) →
  good x0 x → good x0 (x <| srv ::= g |>).
Proof.
  intros Hg Hx. eapply good_trans; [done|]. destruct Hx as [Hs _ _ _].
  destruct (Hg Hs) as (G1 & G2 & G3). by split.
Qed.
Lemma try_add_service_names s source idx n : server_ok s → is_video_service_name n = false →
  contains (try_add_service s source idx) n = contains s n.
Proof.
  intros Hs Hn. destruct (try_add_service_spec s source idx Hs) as (_ & _ & Hdom & _).
  unfold contains. apply bool_decide_ext. rewrite Hdom. split; [|by right].
  intros [->|?]; [|done]. by rewrite is_video_service_name_of in Hn.
Qed.
Lemma good_try_add x0 x source idx :
  good x0 x → good x0 (x <| srv ::= λ s, try_add_service s source idx |>).
Proof.
  apply good_update. intros Hs. destruct (try_add_service_spec _ source idx Hs) as (G1 & _ & _ & G4).
  split_and!; [done| |auto]. intros n Hn. by apply try_add_service_names.
Qed.
Lemma good_add_monitor x0 x perms idx : good x0 x →
  good x0 (x <| srv ::= λ s, add_monitor_connection s (inner (conn x)) (perms x) (idx x) |>).
Proof.
  apply good_update. intros Hs.
  destruct (add_monitor_connection_spec (srv x) (inner (conn x)) (perms x) (idx x) Hs) as (G1 & G2 & G3).
  split_and!; [done|done|]. intros n id Hid. rewrite G3.
  rewrite (proj2 (Z.eqb_neq (conn_id (inner (conn x))) id)) by done.
  by rewrite andb_false_r, orb_false_r.
Qed.
Lemma good_add_camera x0 x cam : good x0 x →
  good x0 (x <| srv ::= λ s, add_camera_connection cam s (inner (conn x)) |>).
Proof.
  apply good_update. intros Hs.
  destruct (add_camera_connection_spec cam (srv x) (inner (conn x)) Hs) as (G1 & G2 & G3).
  split_and!; [done|done|]. intros n id Hid. rewrite G3.
  rewrite (proj2 (Z.eqb_neq (conn_id (inner (conn x))) id)) by done.
  by rewrite andb_false_r, orb_false_r.
Qed.
Lemma keeps_me_field f : (∀ c, inner (f c) = inner c) → (∀ c, kind (f c) = kind c) → keeps_me f.
Proof. by split. Qed.
(** Every handler is made of these: *)
Ltac good_handler := repeat first
  [ assumption
  | apply good_sub | apply good_emit | apply good_set_conn; [by apply keeps_me_field|]
  | apply good_try_add | apply good_when; [intros ??|] | apply good_set_option; [intros ???|]
  | case_match; simplify_eq ].

Lemma good_switch_permission x0 x n b p : good x0 x → good x0 (switch_permission n b p x).
Proof. intros Hx. unfold switch_permission, sub_audio. good_handler. Qed.
Lemma good_update_options x0 x old cur o : good x0 x → good x0 (update_options old cur o x).
Proof.
  intros Hx. unfold update_options, options_rest, options_services, options_video, sub_audio. good_handler.
Qed.

Lemma add_missing_spec source s ds : server_ok s →
  let s' := add_missing source s ds in
  server_ok s' ∧ (∀ n id, is_subed_to s' n id = is_subed_to s n id) ∧
  (∀ n, is_video_service_name n = false → contains s' n = contains s n) ∧
  ∀ n, contains s' n = contains s n || bool_decide (n ∈ get_service_name source <$> ds).
Proof.
  unfold add_missing. revert s. induction ds as [|d ds IH]; intros s Hs; cbn.
  - split_and!; try done. intros n. by rewrite bool_decide_false, orb_false_r by apply not_elem_of_nil.
  - destruct (try_add_service_spec s source d Hs) as (G1 & _ & G3 & G4).
    pose proof (λ n, try_add_service_names s source d n Hs) as G5.
    destruct (IH _ G1) as (K1 & K2 & K3 & K4). split_and!; [done| | |].
    + intros n id. by rewrite K2, G4.
    + intros n Hn. by rewrite K3, G5.
    + intros n. rewrite K4. unfold contains. apply eq_bool_prop_intro.
      rewrite !orb_True, !bool_decide_spec, G3, elem_of_cons. tauto.
Qed.
Lemma capture_displays_names s me source ds inc exc n : server_ok s →
  contains (ServerTable.capture_displays s me source ds inc exc) n = contains s n.
Proof.
  intros Hs. destruct (capture_displays_spec s me source ds inc exc Hs) as (_ & _ & G & _).
  by rewrite !contains_dom, G.
Qed.
(** The server of [capture_displays], on a choice of the request. *)
Lemma good_capture_srv x0 x source ds ds' ds2 inc exc : good x0 x →
  good x0 (x <| srv := ServerTable.capture_displays
                         (add_missing source (add_missing source (srv x) ds) ds')
                         (inner (conn x)) source ds2 inc exc |>).
Proof.
  apply (good_update x0 x (λ _, _)). intros Hs.
  destruct (add_missing_spec source (srv x) ds Hs) as (G1 & G2 & G3 & _).
  destruct (add_missing_spec source _ ds' G1) as (K1 & K2 & K3 & _).
  pose proof (λ n, capture_displays_names _ (inner (conn x)) source ds2 inc exc n K1) as Hn.
  destruct (capture_displays_spec _ (inner (conn x)) source ds2 inc exc K1) as (L1 & _ & _ & L4 & _).
  split_and!; [done| |].
  - intros n Hv. by rewrite Hn, K3, G3.
  - intros n id Hid. by rewrite L4, K2, G2.
Qed.
Lemma good_capture x0 x count add sub_ set : good x0 x → good x0 (capture_displays count add sub_ set x).
Proof.
  intros Hx. unfold capture_displays. case_match; [done|]. unfold capture_end.
  apply good_when; [intros; by apply good_sub|].
  apply good_set_conn; [by apply keeps_me_field|].
  repeat case_match; by apply good_capture_srv.
Qed.
Lemma good_switch_display x0 x count multi idx resize :
  good x0 x → good x0 (handle_switch_display count multi idx resize x).
Proof.
  intros Hx. unfold handle_switch_display, switch_display_to. good_handler.
Qed.
Lemma good_sub_monitor x0 x : good x0 x → good x0 (try_sub_monitor_services x).
Proof.
  intros Hx. unfold try_sub_monitor_services. case_match; [|done].
  apply (good_add_monitor x0 _ (λ x, noperms (conn x)) (λ x, display_idx (conn x))).
  apply good_try_add. apply good_set_conn; [by apply keeps_me_field|done].
Qed.
Lemma good_sub_camera x0 x cam : good x0 x → good x0 (try_sub_camera_displays cam x).
Proof.
  intros Hx. unfold try_sub_camera_displays. apply good_add_camera.
  destruct cam; [by apply good_try_add|by destruct Hx].
Qed.
Lemma good_login x0 x old cur cam wait primary o :
  good x0 x → good x0 (finish_login old cur cam wait primary o x).
Proof.
  intros Hx. unfold finish_login, login_services, update_scoped_login_options, login_display.
  repeat first
    [ assumption | apply good_update_options | apply good_sub_monitor | apply good_sub_camera
    | apply good_emit | apply good_set_conn; [by apply keeps_me_field|]
    | apply good_when; [intros ??|] | case_match ].
Qed.
Lemma good_step x0 x e : good x0 x → good x0 (step x e).
Proof.
  intros Hx. destruct e; cbn [step]; unfold from_viewer.
  all: repeat first
    [ assumption | apply good_switch_permission | apply good_login | apply good_update_options
    | apply good_capture | apply good_switch_display | apply good_sub_monitor | apply good_sub_camera
    | apply good_sub | apply good_emit | apply good_set_conn; [by apply keeps_me_field|]
    | apply good_when; [intros ??|]
    | progress unfold selected_sid, voice_call_request, close_voice_call, handle_voice_call | case_match ].
Qed.
Lemma good_run x es : server_ok (srv x) → good x (run x es).
Proof.
  intros Hs. unfold run. assert (good x x) as Hx by by apply good_refl.
  revert Hx. generalize x at 2 4 as y. induction es as [|e es IH]; intros y Hy; cbn; [done|].
  by apply IH, good_step.
Qed.

(** what a connection does to the server concerns nobody else: whatever the
    manager, the viewer and the login make it do, the subscriptions of every other
    connection stay as they were, and no service but those of displays and
    cameras is added; and when the connection ends, it is subscribed to nothing. *)
Theorem subscriptions_isolated x es :
  server_ok (srv x) →
  let x' := run x es in
  (∀ n id, id ≠ conn_id (inner (conn x)) → is_subed_to (srv x') n id = is_subed_to (srv x) n id) ∧
  (∀ n, is_video_service_name n = false → contains (srv x') n = contains (srv x) n) ∧
  ∀ n id, is_subed_to (srv (close x')) n id =
          negb (conn_id (inner (conn x)) =? id) && is_subed_to (srv x) n id.
Proof.
  intros Hs. cbv zeta. destruct (good_run x es Hs) as [G1 [G2 _] G3 G4].
  generalize dependent (run x es). intros x' G1 G2 G3 G4.
  split_and!; [done|done|]. intros n id.
  destruct (remove_connection_spec (srv x') (inner (conn x')) G1) as (_ & _ & G). cbn.
  rewrite G, G2. destruct (Z.eqb_spec (conn_id (inner (conn x))) id); [done|]. cbn. by apply G4.
Qed.

(** ** What a remote session may receive *)
Definition permitted (n : str) c : bool :=
  if bool_decide (n = CLIPBOARD_NAME) then can_sub_clipboard_service c
  else if bool_decide (n = FILE_CLIPBOARD_NAME) then file_transfer_enabled c && negb one_way_file
  else if bool_decide (n = AUDIO_NAME) then audio_enabled c
  else if bool_decide (n = NAME_CURSOR) then keyboard c || show_remote_cursor c
  else if bool_decide (n = NAME_POS) then show_remote_cursor c
  else if bool_decide (n = NAME_WINDOW_FOCUS) then follow_remote_window c
  else true.
(** The services it receives whenever it may. *)
Definition exact (n : str) : bool :=
  bool_decide (n = CLIPBOARD_NAME) || bool_decide (n = AUDIO_NAME) || bool_decide (n = NAME_POS).

Record remote_inv x : Prop := {
  ri_srv : server_ok (srv x);
  ri_kind : kind (conn x) = Remote;
  ri_permitted : ∀ n, subed x n = true → permitted n (conn x) = true;
  ri_exact : services_subed (conn x) = true → ∀ n, exact n = true →
    contains (srv x) n = true → permitted n (conn x) = true → subed x n = true;
  ri_unauthorized : authorized (conn x) = false →
    subed x AUDIO_NAME = false ∧ services_subed (conn x) = false
}.

(** Subscriptions asked for one after the other. *)
Abbreviation updates := (list (str * (Connection → bool))).
Fixpoint subs (ups : updates) (x : session) : session :=
  match ups with [] => x | (n, w) :: ups => subs ups (sub n w x) end.
Fixpoint wanted (ups : updates) (n : str) : option (Connection → bool) :=
  match ups with
  | [] => None
  | (m, w) :: ups =>
      match wanted ups n with
      | Some w => Some w
      | None => if bool_decide (n = m) then Some w else None
      end
  end.
Lemma subed_sub n w x m : server_ok (srv x) →
  server_ok (srv (sub n w x)) ∧ (∀ k, contains (srv (sub n w x)) k = contains (srv x) k) ∧
  subed (sub n w x) m = if bool_decide (m = n) then contains (srv x) n && w (conn x) else subed x m.
Proof.
  intros Hs. destruct (subscribe_spec (srv x) n (inner (conn x)) (w (conn x)) Hs) as (G1 & _ & G3 & G4 & G5).
  split_and!; [done|intros k; cbn; by rewrite !contains_dom, G3|].
  unfold subed. case_bool_decide as Hm; [by subst|]. cbn. apply G4. by left.
Qed.
Lemma subed_subs ups x n : server_ok (srv x) →
  server_ok (srv (subs ups x)) ∧ conn (subs ups x) = conn x ∧
  (∀ k, contains (srv (subs ups x)) k = contains (srv x) k) ∧
  subed (subs ups x) n = match wanted ups n with
                         | Some w => contains (srv x) n && w (conn x)
                         | None => subed x n
                         end.
Proof.
  revert x. induction ups as [|[m w] ups IH]; intros x Hs; cbn; [done|].
  destruct (subed_sub m w x n Hs) as (G1 & G2 & G3).
  destruct (IH _ G1) as (K1 & K2 & K3 & K4). split_and!; [done|done| |].
  - intros k. by rewrite K3, G2.
  - rewrite K4, G2, G3. destruct (wanted ups n); [done|]. by case_bool_decide; subst.
Qed.
(** Changing fields keeps the invariant when every service whose permission they
    decide is asked for again. *)
Lemma remote_inv_refresh f ups x :
  keeps_me f → (∀ c, services_subed (f c) = services_subed c ∧ authorized (f c) = authorized c) →
  (authorized (conn x) = true ∨ wanted ups AUDIO_NAME = None) →
  (∀ n, match wanted ups n with
        | Some w => (w (f (conn x)) = true → permitted n (f (conn x)) = true) ∧
                    (exact n = true → permitted n (f (conn x)) = true → w (f (conn x)) = true)
        | None => permitted n (f (conn x)) = permitted n (conn x)
        end) →
  remote_inv x → remote_inv (subs ups (set_conn f x)).
Proof.
  intros Hf Hsv Hau Hups [Hs Hk Hp He Hu]. destruct (Hf (conn x)) as [Hi Hk'].
  destruct (Hsv (conn x)) as [Hsv1 Hsv2].
  assert (server_ok (srv (set_conn f x))) as Hs' by done.
  assert (∀ n, subed (set_conn f x) n = subed x n) as Hsame by (intros n; unfold subed; cbn; by rewrite Hi).
  split.
  - by apply (subed_subs ups _ []).
  - destruct (subed_subs ups _ [] Hs') as (_ & -> & _). cbn. by rewrite Hk'.
  - intros n. destruct (subed_subs ups _ n Hs') as (_ & -> & _ & ->). specialize (Hups n). cbn.
    destruct (wanted ups n) as [w|]; [rewrite andb_true_iff; intros [_ ?]; by apply Hups|].
    rewrite Hsame, Hups. apply Hp.
  - intros Hss n Hx. destruct (subed_subs ups _ n Hs') as (_ & Hc & Hn & ->). specialize (Hups n).
    rewrite Hc in *. rewrite Hn. cbn in *. rewrite Hsv1 in Hss. intros Hcn Hpn.
    destruct (wanted ups n) as [w|]; [rewrite Hcn; cbn; by apply Hups|].
    rewrite Hsame. apply He; [done..|]. by rewrite <-Hups.
  - destruct (subed_subs ups _ AUDIO_NAME Hs') as (_ & -> & _ & ->).
    change (conn (set_conn f x)) with (f (conn x)). rewrite Hsv1, Hsv2.
    intros Hun. destruct Hau as [Hau|Hau]; [congruence|]. rewrite Hau, Hsame. by apply Hu.
Qed.
Lemma remote_inv_emit e x : remote_inv x → remote_inv (emit e x).
Proof. intros []. by split. Qed.
Lemma when_ind (P : session → Prop) b f x : (∀ y, P y → P (f y)) → P x → P (when b f x).
Proof. destruct b; cbn; auto. Qed.
Lemma set_option_ind (P : session → Prop) q f x :
  (∀ b y, P y → P (f b y)) → P x → P (set_option_of q f x).
Proof. unfold set_option_of. destruct (_ && _); cbn; auto. Qed.
Ltac permitted_names := repeat match goal with
  | |- context [permitted CLIPBOARD_NAME ?c] =>
      change (permitted CLIPBOARD_NAME c) with (can_sub_clipboard_service c)
  | |- context [permitted FILE_CLIPBOARD_NAME ?c] =>
      change (permitted FILE_CLIPBOARD_NAME c) with (file_transfer_enabled c && negb one_way_file)
  | |- context [permitted AUDIO_NAME ?c] => change (permitted AUDIO_NAME c) with (audio_enabled c)
  | |- context [permitted NAME_CURSOR ?c] =>
      change (permitted NAME_CURSOR c) with (keyboard c || show_remote_cursor c)
  | |- context [permitted NAME_POS ?c] => change (permitted NAME_POS c) with (show_remote_cursor c)
  | |- context [permitted NAME_WINDOW_FOCUS ?c] =>
      change (permitted NAME_WINDOW_FOCUS c) with (follow_remote_window c)
  end.
(** The condition of [remote_inv_refresh], by cases on the service. *)
Ltac permission := let k := fresh "k" in intros k; cbn [wanted];
  repeat (match goal with |- context [if bool_decide (k = ?m) then _ else _] =>
            destruct (bool_decide_reflect (k = m)) end;
    [ subst k; cbv beta iota; permitted_names;
      unfold can_sub_clipboard_service, can_sub_file_clipboard_service, file_transfer_enabled,
        clipboard_enabled, peer_keyboard_enabled, audio_enabled; cbn -[exact];
      split; [|let He := fresh in intros He; first [vm_compute in He; discriminate He|clear He]];
      rewrite ?orb_true_iff, ?andb_true_iff, ?orb_true_iff, ?negb_true_iff; tauto
    | ]);
  unfold permitted;
  repeat match goal with H : ¬ (k = _) |- _ => rewrite !(bool_decide_false _ H); clear H end;
  reflexivity.
Ltac refreshed f ups y :=
  apply (remote_inv_refresh f ups y);
    [by apply keeps_me_field|done|first [by right|by left]|permission|].
(** Fields that decide no permission. *)
Lemma remote_inv_set_conn f x : keeps_me f →
  (∀ c, services_subed (f c) = services_subed c ∧ authorized (f c) = authorized c) →
  (∀ n c, permitted n (f c) = permitted n c) → remote_inv x → remote_inv (set_conn f x).
Proof.
  intros Hf Hs Hp. apply (remote_inv_refresh f []); [done|done|by right|]. intros n. apply Hp.
Qed.
Ltac unrelated := apply remote_inv_set_conn; [by apply keeps_me_field|done|done|].

Lemma sub_audio_remote x : kind (conn x) = Remote → sub_audio x = sub AUDIO_NAME audio_enabled x.
Proof.
  intros Hk. unfold sub_audio, is_authed_view_camera_conn, authed_conn_type. rewrite Hk.
  by destruct (authorized (conn x)).
Qed.
Lemma remote_inv_switch_audio b y : remote_inv y →
  remote_inv (when (authorized (conn y)) sub_audio (set_conn (λ c, c <| audio := b |>) y)).
Proof.
  intros Hy. destruct (authorized (conn y)) eqn:Ha; cbn [when].
  - rewrite sub_audio_remote by apply Hy.
    refreshed (λ c, c <| audio := b |>) [(AUDIO_NAME, audio_enabled)] y. done.
  - destruct Hy as [Hs Hk Hp He Hu]. destruct (Hu Ha) as [Hna Hns]. split; [done|done| | |done].
    + intros n Hn. change (subed y n = true) in Hn.
      destruct (decide (n = AUDIO_NAME)) as [->|Hne]; [by rewrite Hna in Hn|].
      rewrite <-(Hp n Hn). unfold permitted. rewrite !(bool_decide_false _ Hne). reflexivity.
    + change (services_subed (conn y) = true → ∀ n, exact n = true → contains (srv y) n = true →
        permitted n ((λ c, c <| audio := b |>) (conn y)) = true → subed y n = true).
      by rewrite Hns.
Qed.
Lemma remote_inv_switch_permission n b p x : remote_inv x → remote_inv (switch_permission n b p x).
Proof.
  intros Hx. unfold switch_permission.
  assert (∀ e, remote_inv (emit e x)) as Hx' by (intros; by apply remote_inv_emit).
  set (y := emit (SendPermission n b) x).
  repeat lazymatch goal with |- remote_inv (if ?c then _ else _) => destruct c end.
  - refreshed (λ c, c <| keyboard := b |>)
      [(CLIPBOARD_NAME, can_sub_clipboard_service); (FILE_CLIPBOARD_NAME, can_sub_file_clipboard_service);
       (NAME_CURSOR, λ c, b || show_remote_cursor c)] y. apply Hx'.
  - refreshed (λ c, c <| clipboard := b |>) [(CLIPBOARD_NAME, can_sub_clipboard_service)] y. apply Hx'.
  - apply (remote_inv_switch_audio b y), Hx'.
  - destruct b.
    + refreshed (λ c, c <| file := true |>) [(FILE_CLIPBOARD_NAME, can_sub_file_clipboard_service)] y.
      apply Hx'.
    + refreshed (λ c, c <| file := false |>) [(FILE_CLIPBOARD_NAME, can_sub_file_clipboard_service)]
        (emit EmptyFileClipboard y). apply remote_inv_emit, Hx'.
  - apply remote_inv_emit. by unrelated.
  - apply remote_inv_emit. by unrelated.
  - apply remote_inv_emit. by unrelated.
  - repeat case_match; simplify_eq;
      repeat first [assumption | apply remote_inv_emit | apply (when_ind remote_inv); [intros ??|] | unrelated].
  - done.
Qed.
(** ... and [authorized]. *)
Definition remote_auth x : Prop := remote_inv x ∧ authorized (conn x) = true.
Lemma remote_auth_emit e x : remote_auth x → remote_auth (emit e x).
Proof. intros [Hx ?]. split; [by apply remote_inv_emit|done]. Qed.
Lemma remote_auth_emit_when (b : bool) e x : remote_auth x → remote_auth (when b (emit e) x).
Proof. apply (when_ind remote_auth). intros y. apply remote_auth_emit. Qed.
Lemma remote_auth_file b x : remote_auth x →
  remote_auth (sub FILE_CLIPBOARD_NAME can_sub_file_clipboard_service
    (when (negb b) (emit EmptyFileClipboard) (set_conn (λ c, c <| enable_file_transfer := b |>) x))).
Proof.
  intros [Hx Ha]. split; [|by destruct b].
  destruct b; cbn [negb when].
  - refreshed (λ c, c <| enable_file_transfer := true |>)
      [(FILE_CLIPBOARD_NAME, can_sub_file_clipboard_service)] x. done.
  - refreshed (λ c, c <| enable_file_transfer := false |>)
      [(FILE_CLIPBOARD_NAME, can_sub_file_clipboard_service)] (emit EmptyFileClipboard x).
    by apply remote_inv_emit.
Qed.
Lemma remote_auth_audio b x : remote_auth x →
  remote_auth (sub_audio (set_conn (λ c, c <| disable_audio := b |>) x)).
Proof.
  intros [Hx Ha]. rewrite sub_audio_remote by apply Hx. split; [|done].
  refreshed (λ c, c <| disable_audio := b |>) [(AUDIO_NAME, audio_enabled)] x. done.
Qed.
Lemma remote_auth_rest old cur o x : remote_auth x → remote_auth (options_rest old cur o x).
Proof.
  intros Hx. unfold options_rest.
  apply (set_option_ind remote_auth).
  { intros b y [Hy Ha]. destruct b; [apply remote_auth_emit|apply remote_auth_emit_when];
      (split; [|done]); by unrelated. }
  apply (set_option_ind remote_auth).
  { intros b y [Hy Ha]. apply remote_auth_emit. split; [|done]. by unrelated. }
  case_match; (apply (set_option_ind remote_auth);
    [intros b y; first [apply remote_auth_emit | apply remote_auth_emit_when]|]).
  all: apply (when_ind remote_auth); [|done]; intros y; apply (set_option_ind remote_auth);
    intros b y'; apply remote_auth_emit.
Qed.
Lemma remote_auth_services o x : remote_auth x → remote_auth (options_services o x).
Proof.
  intros Hx. unfold options_services.
  repeat (apply (set_option_ind remote_auth); [intros b y Hy|]); [..|done].
  3: by apply remote_auth_file.
  3: by apply remote_auth_audio.
  all: destruct Hy as [Hy Ha]; (split; [|done]).
  - refreshed (λ c, c <| disable_keyboard := b |>)
      [(CLIPBOARD_NAME, can_sub_clipboard_service); (FILE_CLIPBOARD_NAME, can_sub_file_clipboard_service);
       (NAME_CURSOR, λ c, peer_keyboard_enabled c || show_remote_cursor c)] y. done.
  - refreshed (λ c, c <| disable_clipboard := b |>) [(CLIPBOARD_NAME, can_sub_clipboard_service)] y. done.
  - refreshed (λ c, c <| follow_remote_window := b |>) [(NAME_WINDOW_FOCUS, follow_remote_window)] y. done.
  - by unrelated.
  - refreshed (λ c, c <| show_remote_cursor := b |>)
      [(NAME_CURSOR, λ c, peer_keyboard_enabled c || show_remote_cursor c);
       (NAME_POS, show_remote_cursor)] y. done.
  - by unrelated.
Qed.
Lemma remote_auth_update_options old cur o x : remote_auth x → remote_auth (update_options old cur o x).
Proof.
  intros Hx. apply remote_auth_rest, remote_auth_services. unfold options_video.
  case_match; [apply remote_auth_emit|]; do 2 apply remote_auth_emit_when; done.
Qed.

(** Services of displays and cameras are not concerned. *)
Lemma video_permitted n c : is_video_service_name n = true → permitted n c = true ∧ exact n = false.
Proof.
  intros Hn. unfold permitted, exact.
  by repeat match goal with |- context [bool_decide (n = ?m)] =>
    destruct (bool_decide_reflect (n = m)) as [->|_]; [discriminate Hn|] end.
Qed.
Lemma remote_inv_server g x :
  server_ok (g (srv x)) →
  (∀ n, is_video_service_name n = false → contains (g (srv x)) n = contains (srv x) n ∧
     is_subed_to (g (srv x)) n (conn_id (inner (conn x))) = subed x n) →
  remote_inv x → remote_inv (x <| srv ::= g |>).
Proof.
  intros Hg Hsame [Hs Hk Hp He Hu]. split; [done|done| | |].
  - intros n Hn. destruct (is_video_service_name n) eqn:Hv; [by apply video_permitted|].
    apply (Hp n). by rewrite <-(proj2 (Hsame n Hv)).
  - intros Hss n Hx Hc Hpn. destruct (is_video_service_name n) eqn:Hv.
    { by rewrite (proj2 (video_permitted n (conn x) Hv)) in Hx. }
    destruct (Hsame n Hv) as [Hcn Hsn]. etrans; [exact Hsn|].
    apply He; [done|done| |done]. by rewrite <-Hcn.
  - intros Ha. destruct (Hu Ha) as [Hau Hss]. split; [|done].
    etrans; [apply (Hsame AUDIO_NAME eq_refl)|done].
Qed.
Lemma remote_inv_sub_video n w x : is_video_service_name n = true → remote_inv x → remote_inv (sub n w x).
Proof.
  intros Hn Hx. apply (remote_inv_server (λ s, subscribe s n (inner (conn x)) (w (conn x)))); [| |done].
  - by apply (subed_sub n w x n), Hx.
  - intros m Hm. destruct (subed_sub n w x m (ri_srv _ Hx)) as (_ & G2 & G3).
    split; [apply G2|]. etrans; [exact G3|]. rewrite bool_decide_false; [done|congruence].
Qed.
Lemma remote_inv_try_add source idx x :
  remote_inv x → remote_inv (x <| srv ::= λ s, try_add_service s source idx |>).
Proof.
  intros Hx. destruct (try_add_service_spec (srv x) source idx (ri_srv _ Hx)) as (G1 & _ & _ & G4).
  apply (remote_inv_server (λ s, try_add_service s source idx)); [done| |done].
  intros n Hn. split; [by apply try_add_service_names; [apply Hx|]|apply G4].
Qed.

Lemma elem_of_noperms n c : n ∈ noperms c ↔
  n = NAME_CURSOR ∧ peer_keyboard_enabled c || show_remote_cursor c = false ∨
  n = NAME_POS ∧ show_remote_cursor c = false ∨
  n = NAME_WINDOW_FOCUS ∧ follow_remote_window c = false ∨
  n = CLIPBOARD_NAME ∧ can_sub_clipboard_service c = false ∨
  n = FILE_CLIPBOARD_NAME ∧ can_sub_file_clipboard_service c = false ∨
  n = AUDIO_NAME ∧ audio_enabled c = false.
Proof.
  assert (∀ b m, n ∈ (if negb b then [m] else []) ↔ n = m ∧ b = false) as Hif.
  { intros [] m; cbn; rewrite ?list_elem_of_singleton, ?elem_of_nil; intuition congruence. }
  unfold noperms. rewrite <-negb_orb, !elem_of_app, !Hif. tauto.
Qed.
(** What is not in [noperms] is permitted; what is permitted and [exact] is not in it. *)
Lemma noperms_permitted n c : n ∉ noperms c → permitted n c = true.
Proof.
  rewrite elem_of_noperms. intros Hn. unfold permitted.
  repeat match goal with |- context [bool_decide (n = ?m)] =>
    destruct (bool_decide_reflect (n = m)) end; try done; apply not_false_is_true; intros Hf; apply Hn.
  - by do 3 right; left; subst.
  - do 4 right; left; subst. unfold can_sub_file_clipboard_service.
    by rewrite <-andb_assoc, Hf, andb_false_r.
  - by do 5 right; subst.
  - left; subst. unfold peer_keyboard_enabled. by apply orb_false_iff in Hf as [-> ->].
  - by right; left; subst.
  - by do 2 right; left; subst.
Qed.
Lemma permitted_noperms n c : exact n = true → permitted n c = true → n ∉ noperms c.
Proof.
  unfold exact. rewrite !orb_true_iff, !bool_decide_eq_true, elem_of_noperms.
  intros [[->| ->]| ->] Hp Hn;
    [ change (can_sub_clipboard_service c = true) in Hp | change (audio_enabled c = true) in Hp
    | change (show_remote_cursor c = true) in Hp ];
    destruct_or! Hn; destruct Hn as [Heq Hf]; (congruence || (vm_compute in Heq; discriminate Heq)).
Qed.

Lemma remote_inv_sub_monitor x :
  remote_auth x → remote_inv (try_sub_monitor_services x).
Proof.
  intros [Hx Ha]. unfold try_sub_monitor_services.
  destruct (is_remote (conn x) && negb (services_subed (conn x))); [|done].
  set (y := _ <| srv ::= λ s, try_add_monitor_service _ _ |>).
  assert (server_ok (srv y) ∧ conn y = (conn x) <| services_subed := true |> ∧
          (∀ n, subed y n = subed x n)) as (Hs & Hc & Hsub).
  { destruct (try_add_service_spec (srv x) Monitor (display_idx (conn x)) (ri_srv _ Hx)) as (G1 & _ & _ & G4).
    split_and!; [exact G1|done|]. intros n. apply G4. }
  clearbody y.
  destruct (add_monitor_connection_spec (srv y) (inner (conn y)) (noperms (conn y)) (display_idx (conn y)) Hs)
    as (G1 & G2 & G3).
  destruct Hx as [_ Hk Hp He Hu].
  assert (∀ n, permitted n (conn y) = permitted n (conn x)) as Hpy by (intros n; by rewrite Hc).
  assert (kind (conn y) = Remote ∧ services_subed (conn y) = true ∧ authorized (conn y) = true)
    as (Hky & Hsy & Hay) by (by rewrite Hc).
  split; [exact G1|exact Hky| | |].
  - intros n Hn. etrans; [apply Hpy|]. unfold subed in Hn. cbn in Hn. rewrite G3 in Hn.
    apply orb_true_iff in Hn as [Hn|Hn].
    + apply Hp. by rewrite <-Hsub.
    + apply andb_true_iff in Hn as [Hn _]. apply andb_true_iff in Hn as [_ Hn].
      apply negb_true_iff, bool_decide_eq_false, noperms_permitted in Hn. by rewrite <-Hpy.
  - intros _ n Hx Hcn Hpn. unfold subed. cbn. rewrite G3. cbn in Hcn. rewrite G2 in Hcn.
    apply orb_true_iff. right. rewrite Hcn, Z.eqb_refl.
    rewrite bool_decide_false by (apply permitted_noperms; done).
    destruct (is_video_service_name n) eqn:Hv; [|done].
    by rewrite (proj2 (video_permitted n (conn x) Hv)) in Hx.
  - cbn. by rewrite Hay.
Qed.
Lemma remote_inv_login old cur cam wait primary o x : authorized (conn x) = false →
  remote_inv x → remote_inv (finish_login old cur cam wait primary o x).
Proof.
  intros Ha Hx. unfold finish_login.
  assert (remote_auth (set_conn (λ c, c <| authorized := true |>) x)) as H1x.
  { destruct Hx as [Hs Hk Hp He Hu]. split; [|done]. by split. }
  assert (remote_auth (login_display primary (set_conn (λ c, c <| authorized := true |>) x))) as H2x.
  { unfold login_display. destruct primary as [i|]; [|done].
    apply (when_ind remote_auth); [|done]. intros y [Hy ?]. split; [|done]. by unrelated. }
  assert (∀ y, remote_auth y → remote_auth (update_scoped_login_options old cur o y)) as H3x.
  { intros y Hy. unfold update_scoped_login_options. destruct o as [o|]; [|done].
    rewrite (ri_kind _ (proj1 Hy)). by apply remote_auth_update_options. }
  assert (∀ y d, remote_auth y → remote_inv (login_services cam wait d y)) as Hend.
  { intros y d Hy. unfold login_services. rewrite (ri_kind _ (proj1 Hy)).
    destruct (d && negb wait); [by apply remote_inv_sub_monitor|apply Hy]. }
  apply Hend, H3x, H2x.
Qed.
Lemma capture_srv_subed x source ds ds' ds2 inc exc n :
  server_ok (srv x) → is_video_service_name n = false →
  is_subed_to (ServerTable.capture_displays
                 (add_missing source (add_missing source (srv x) ds) ds')
                 (inner (conn x)) source ds2 inc exc) n (conn_id (inner (conn x))) = subed x n.
Proof.
  intros Hs Hn.
  destruct (add_missing_spec source (srv x) ds Hs) as (G1 & G2 & G3 & _).
  destruct (add_missing_spec source _ ds' G1) as (K1 & K2 & K3 & _).
  destruct (capture_displays_spec _ (inner (conn x)) source ds2 inc exc K1) as (_ & _ & _ & _ & L5).
  rewrite L5. unfold captured. rewrite Hn, K2, G2, K3, G3 by done.
  destruct (contains (srv x) n) eqn:Hc; [done|].
  unfold subed. destruct (is_subed_to (srv x) n _) eqn:Hsub; [|done].
  apply is_subed_to_contains in Hsub. congruence.
Qed.
Lemma remote_inv_capture_srv source ds ds' ds2 inc exc x : remote_inv x →
  remote_inv (x <| srv := ServerTable.capture_displays
                           (add_missing source (add_missing source (srv x) ds) ds')
                           (inner (conn x)) source ds2 inc exc |>).
Proof.
  intros Hx. pose proof (ri_srv _ Hx) as Hs.
  destruct (good_capture_srv x x source ds ds' ds2 inc exc (good_refl x Hs)) as [G1 _ G3 _].
  apply (remote_inv_server (λ _, _)); [exact G1| |done].
  intros n Hn. split; [by apply G3|by apply capture_srv_subed].
Qed.
Lemma remote_inv_capture_end s x : remote_inv (x <| srv := s |>) → remote_inv (capture_end s x).
Proof.
  intros Hy. pose (y := x <| srv := s |>).
  pose (g := λ c, c <| multi_ui_session :=
    bool_decide (1 < Z.of_nat (get_subbed_displays_count s (conn_id (inner (conn y))))) |>).
  change (remote_inv (when (follow_remote_window (conn (set_conn g y)))
    (sub NAME_WINDOW_FOCUS (λ c, negb (multi_ui_session c))) (set_conn g y))).
  assert (remote_inv (set_conn g y)) as Hg by by unrelated.
  destruct (follow_remote_window (conn (set_conn g y))) eqn:Hf; [|done].
  apply (remote_inv_refresh g [(NAME_WINDOW_FOCUS, λ c, negb (multi_ui_session c))] y);
    [by apply keeps_me_field|done|by right| |done].
  intros n. cbn [wanted]. destruct (bool_decide_reflect (n = NAME_WINDOW_FOCUS)) as [->|Hn];
    [split; intros He; [exact Hf|]|].
  - vm_compute in He. discriminate He.
  - unfold permitted. rewrite !(bool_decide_false _ Hn). done.
Qed.
Lemma remote_inv_capture count add sub_ set x : remote_inv x → remote_inv (capture_displays count add sub_ set x).
Proof.
  intros Hx. unfold capture_displays. case_match; [done|].
  apply remote_inv_capture_end. repeat case_match; by apply remote_inv_capture_srv.
Qed.
Lemma remote_inv_switch_display count multi idx resize x :
  remote_inv x → remote_inv (handle_switch_display count multi idx resize x).
Proof.
  intros Hx. unfold handle_switch_display, switch_display_to.
  destruct (_ =? idx); [done|]. destruct (count <=? idx); [done|].
  apply remote_inv_emit, (when_ind remote_inv); [intros y; apply remote_inv_emit|].
  unrelated. apply remote_inv_sub_video; [apply is_video_service_name_of|].
  apply (when_ind remote_inv).
  - intros y. apply remote_inv_sub_video, is_video_service_name_of.
  - by apply remote_inv_try_add.
Qed.
Lemma remote_not_camera x : remote_inv x → is_authed_view_camera_conn (conn x) = false.
Proof.
  intros Hx. unfold is_authed_view_camera_conn, authed_conn_type. rewrite (ri_kind _ Hx).
  by destruct (authorized (conn x)).
Qed.
Lemma remote_inv_voice accepted x : remote_inv x → remote_inv (handle_voice_call accepted x).
Proof.
  intros Hx. unfold handle_voice_call. destruct (voice_call_requested (conn x)); [|done].
  match goal with |- remote_inv (when _ _ ?y) => assert (remote_inv y) as Hy end.
  { unrelated. do 2 apply remote_inv_emit. by unrelated. }
  by rewrite (remote_not_camera _ Hy).
Qed.
Lemma remote_inv_close_voice x : remote_inv x → remote_inv (close_voice_call x).
Proof.
  intros Hx. unfold close_voice_call.
  match goal with |- remote_inv (when _ _ ?y) => assert (remote_inv y) as Hy end.
  { unrelated. by apply remote_inv_emit. }
  by rewrite (remote_not_camera _ Hy).
Qed.
Lemma remote_inv_from_viewer m f x :
  (∀ y, remote_auth y → remote_inv (f y)) → remote_inv x → remote_inv (from_viewer m f x).
Proof.
  intros Hf Hx. unfold from_viewer. destruct (authorized (conn x)) eqn:Ha; [|done].
  destruct (bool_decide _); [|done]. by apply Hf.
Qed.
Lemma remote_inv_step x e : remote_inv x → remote_inv (step x e).
Proof.
  intros Hx. destruct e; cbn [step].
  - by apply remote_inv_switch_permission.
  - destruct (authorized (conn x)) eqn:Ha; [done|]. by apply remote_inv_login.
  - apply remote_inv_from_viewer; [|done]. intros y Hy. unfold selected_sid.
    rewrite (ri_kind _ (proj1 Hy)). by apply remote_inv_sub_monitor.
  - apply remote_inv_from_viewer; [|done]. intros y Hy. unfold authed_conn_type.
    rewrite (proj2 Hy), (ri_kind _ (proj1 Hy)). by apply remote_auth_update_options.
  - apply remote_inv_from_viewer; [|done]. intros y [Hy _]. by apply remote_inv_capture.
  - apply remote_inv_from_viewer; [|done]. intros y [Hy _]. by apply remote_inv_switch_display.
  - apply remote_inv_from_viewer; [|done]. intros y [Hy _].
    case_match; [|by apply remote_inv_close_voice]. apply remote_inv_emit. by unrelated.
  - by apply remote_inv_voice.
  - by apply remote_inv_close_voice.
Qed.

(** A connection as it starts, on a server that knows nothing of it. *)
Definition start (me : ConnInner) (k : AuthConnType) (permit : str → bool) s : session :=
  mk_session (new_connection me k permit) s [].
Definition unknown (me : ConnInner) s : Prop := server_ok s ∧ ∀ n, is_subed_to s n (conn_id me) = false.

(** C2: what a remote session is subscribed to is bounded by its permissions.
    Whatever the manager allows and forbids, whatever options the viewer sends
    before, at and after the login, whatever displays it takes and however calls
    go: it is subscribed to the clipboard only while clipboard and keyboard are allowed,
    neither is disabled and the clipboard is not one way, authorized or not
    ([pending_connection_gets_clipboard]); to the clipboard of files only while file
    transfer is enabled and files are not one way, whatever was since said of the clipboard ([file_clipboard_stays]); to audio
    only once it is authorized and while audio is enabled; to the cursor only while the
    keyboard is allowed, used by the viewer or not ([view_only_gets_cursor]), or the
    cursor is to be shown; to the cursor's place and the focused window only while it
    asked for them. And once its services are set up, it is subscribed to clipboard,
    audio and the cursor's place, where the host has the service, exactly while the
    named condition holds. The connection is one the service table does not know yet. *)
Theorem subscriptions_permitted me permit s es :
  unknown me s →
  let x := run (start me Remote permit s) es in
  let c := conn x in
  (subed x CLIPBOARD_NAME = true → can_sub_clipboard_service c = true) ∧
  (subed x FILE_CLIPBOARD_NAME = true → file_transfer_enabled c = true ∧ one_way_file = false) ∧
  (subed x AUDIO_NAME = true → authorized c = true ∧ audio_enabled c = true) ∧
  (subed x NAME_CURSOR = true → keyboard c || show_remote_cursor c = true) ∧
  (subed x NAME_POS = true → show_remote_cursor c = true) ∧
  (subed x NAME_WINDOW_FOCUS = true → follow_remote_window c = true) ∧
  (services_subed c = true → ∀ n want,
     (n, want) ∈ [(CLIPBOARD_NAME, can_sub_clipboard_service c); (AUDIO_NAME, audio_enabled c);
                  (NAME_POS, show_remote_cursor c)] →
     contains s n = true → subed x n = want).
Proof.
  intros [Hs Hnone] x c.
  assert (remote_inv x) as [_ _ Hp He Hu].
  { subst x c. unfold run. assert (remote_inv (start me Remote permit s)) as Hx.
    { split; [done|done| |done|intros _; by split; [apply Hnone|]]. intros n Hn.
      pose proof (Hnone n). unfold subed in Hn. cbn in Hn. congruence. }
    revert Hx. generalize (start me Remote permit s). induction es as [|e es IH]; intros y Hy; cbn; [done|].
    by apply IH, remote_inv_step. }
  pose proof (good_names _ _ (good_run (start me Remote permit s) es Hs)) as Hnames.
  change (srv (start me Remote permit s)) with s in Hnames.
  fold x in Hnames. subst c. clearbody x. split_and!.
  - apply Hp.
  - intros Hf%Hp. change (file_transfer_enabled (conn x) && negb one_way_file = true) in Hf.
    by apply andb_true_iff in Hf as [? ?%negb_true_iff].
  - intros Ha. split; [|by apply Hp in Ha]. apply not_false_is_true. intros Hna%Hu.
    destruct Hna as [Hna _]. congruence.
  - apply Hp.
  - apply Hp.
  - apply Hp.
  - intros Hss n want Hin Hc. rewrite !elem_of_cons, elem_of_nil in Hin.
    assert (exact n = true ∧ permitted n (conn x) = want ∧ is_video_service_name n = false) as (Hx & <- & Hv)
      by (destruct_or! Hin; try done; injection Hin as -> ->; split_and!; reflexivity).
    rewrite <-(Hnames n Hv) in Hc. specialize (He Hss n Hx Hc). specialize (Hp n).
    by apply Bool.eq_true_iff_eq.
Qed.

(** ** What a camera session hears *)
Record camera_inv x : Prop := {
  ci_srv : server_ok (srv x);
  ci_kind : kind (conn x) = ViewCameraConn;
  ci_audio : subed x AUDIO_NAME =
    contains (srv x) AUDIO_NAME && audio_enabled (conn x) && voice_calling (conn x);
  ci_unauthorized : authorized (conn x) = false →
    voice_calling (conn x) = false ∧ voice_call_requested (conn x) = false
}.
(** Changes that have nothing to do with audio. *)
Definition keeps_audio (f : Connection → Connection) : Prop := ∀ c,
  inner (f c) = inner c ∧ kind (f c) = kind c ∧ audio_enabled (f c) = audio_enabled c ∧
  voice_calling (f c) = voice_calling c ∧ voice_call_requested (f c) = voice_call_requested c ∧
  (authorized (f c) = false → authorized c = false).
Lemma camera_inv_set_conn f x : keeps_audio f → camera_inv x → camera_inv (set_conn f x).
Proof.
  intros Hf [Hs Hk Ha Hu]. destruct (Hf (conn x)) as (F1 & F2 & F3 & F4 & F5 & F6). split; cbn -[lit].
  - done.
  - by rewrite F2.
  - unfold subed in *. cbn -[lit]. by rewrite F1, F3, F4.
  - rewrite F4, F5. auto.
Qed.
Lemma camera_inv_server g x :
  server_ok (g (srv x)) → contains (g (srv x)) AUDIO_NAME = contains (srv x) AUDIO_NAME →
  is_subed_to (g (srv x)) AUDIO_NAME (conn_id (inner (conn x))) = subed x AUDIO_NAME →
  camera_inv x → camera_inv (x <| srv ::= g |>).
Proof.
  intros Hg Hc Hsub [Hs Hk Ha Hu]. split; [done|done| |done].
  etrans; [exact Hsub|]. rewrite Ha, <-Hc. reflexivity.
Qed.
Lemma camera_inv_emit e x : camera_inv x → camera_inv (emit e x).
Proof. intros []. by split. Qed.
Lemma camera_inv_sub n w x : n ≠ AUDIO_NAME → camera_inv x → camera_inv (sub n w x).
Proof.
  intros Hn Hx. destruct (subed_sub n w x AUDIO_NAME (ci_srv _ Hx)) as (G1 & G2 & G3).
  apply (camera_inv_server (λ s, subscribe s n (inner (conn x)) (w (conn x)))); [exact G1|apply G2| |done].
  rewrite bool_decide_false in G3; [exact G3|congruence].
Qed.
Lemma camera_inv_audio w x : server_ok (srv x) → kind (conn x) = ViewCameraConn →
  authorized (conn x) = true → w (conn x) = audio_enabled (conn x) && voice_calling (conn x) →
  camera_inv (sub AUDIO_NAME w x).
Proof.
  intros Hs Hk Ha Hw. destruct (subed_sub AUDIO_NAME w x AUDIO_NAME Hs) as (G1 & G2 & G3). split.
  - exact G1.
  - exact Hk.
  - rewrite bool_decide_true in G3 by done. rewrite G2, G3, Hw. apply andb_assoc.
  - change (authorized (conn x) = false → voice_calling (conn x) = false ∧ voice_call_requested (conn x) = false).
    by rewrite Ha.
Qed.
(** Audio allowed or forbidden, by the manager or the viewer. *)
Lemma camera_inv_sub_audio f x : authorized (conn x) = true →
  (∀ c, inner (f c) = inner c ∧ kind (f c) = kind c ∧ authorized (f c) = authorized c ∧
        voice_calling (f c) = voice_calling c ∧ voice_call_requested (f c) = voice_call_requested c) →
  camera_inv x → camera_inv (sub_audio (set_conn f x)).
Proof.
  intros Hau Hf [Hs Hk Ha Hu]. destruct (Hf (conn x)) as (F1 & F2 & F3 & F4 & F5).
  set (y := set_conn f x). unfold sub_audio.
  assert (kind (conn y) = ViewCameraConn ∧ authorized (conn y) = true) as [Hk' Hau']
    by (subst y; cbn; by rewrite F2, F3).
  unfold is_authed_view_camera_conn, authed_conn_type. rewrite Hk', Hau', bool_decide_true by done.
  destruct (voice_calling (conn y) || negb (audio_enabled (conn y))) eqn:Hcall; cbn [when].
  - apply camera_inv_audio; [done..|].
    by destruct (voice_calling (conn y)), (audio_enabled (conn y)).
  - apply orb_false_iff in Hcall as [Hc _]. split; [done|done| |by rewrite Hau'].
    rewrite Hc, andb_false_r. unfold subed. cbn -[lit]. rewrite F1. etrans; [exact Ha|].
    cbn in Hc. rewrite F4 in Hc. by rewrite Hc, andb_false_r.
Qed.
Lemma video_not_audio source idx : get_service_name source idx ≠ AUDIO_NAME.
Proof. intros Heq. pose proof (is_video_service_name_of source idx) as Hv. by rewrite Heq in Hv. Qed.
Lemma camera_inv_try_add source idx x :
  camera_inv x → camera_inv (x <| srv ::= λ s, try_add_service s source idx |>).
Proof.
  intros Hx. destruct (try_add_service_spec (srv x) source idx (ci_srv _ Hx)) as (G1 & _ & _ & G4).
  apply (camera_inv_server (λ s, try_add_service s source idx)); [done| |apply G4|done].
  apply try_add_service_names; [apply Hx|done].
Qed.
Lemma camera_inv_add_camera cam x : camera_inv x →
  camera_inv (x <| srv ::= λ s, add_camera_connection cam s (inner (conn x)) |>).
Proof.
  intros Hx.
  destruct (add_camera_connection_spec cam (srv x) (inner (conn x)) (ci_srv _ Hx)) as (G1 & G2 & G3).
  apply (camera_inv_server (λ s, add_camera_connection cam s (inner (conn x)))); [exact G1|apply G2| |done].
  rewrite G3, (bool_decide_false (AUDIO_NAME = _)), andb_false_r, orb_false_r; [done|].
  intros Heq. by eapply video_not_audio.
Qed.
Lemma camera_inv_sub_camera cam x : camera_inv x → camera_inv (try_sub_camera_displays cam x).
Proof.
  intros Hx. unfold try_sub_camera_displays. apply camera_inv_add_camera.
  destruct cam; [by apply camera_inv_try_add|by destruct Hx].
Qed.
(** The steps of a handler that are not about audio. *)
Ltac camera_steps := repeat first
  [ assumption
  | apply camera_inv_emit
  | apply camera_inv_set_conn; [intros ?; by split_and!|]
  | apply camera_inv_sub; [first [apply video_not_audio | done]|]
  | apply camera_inv_try_add
  | apply (when_ind camera_inv); [intros ??|]
  | apply (set_option_ind camera_inv); [intros ???|] ].

Lemma conn_sub_audio x : conn (sub_audio x) = conn x.
Proof.
  unfold sub_audio. destruct (is_authed_view_camera_conn _); [|done].
  by destruct (voice_calling (conn x) || negb (audio_enabled (conn x))).
Qed.
Lemma camera_inv_switch_audio b y : camera_inv y →
  camera_inv (when (authorized (conn y)) sub_audio (set_conn (λ c, c <| audio := b |>) y)).
Proof.
  intros Hy. destruct (authorized (conn y)) eqn:Ha; cbn [when]; [by apply camera_inv_sub_audio|].
  destruct Hy as [Hs Hk Hau Hu]. destruct (Hu Ha) as [Hv Hr]. split; [done|done| |done].
  change (subed y AUDIO_NAME = contains (srv y) AUDIO_NAME && audio_enabled ((conn y) <| audio := b |>)
          && voice_calling (conn y)).
  by rewrite Hau, Hv, !andb_false_r.
Qed.
Lemma camera_inv_switch_permission n b p x : camera_inv x → camera_inv (switch_permission n b p x).
Proof.
  intros Hx. unfold switch_permission.
  repeat lazymatch goal with |- camera_inv (if ?c then _ else _) => destruct c end.
  1, 2, 4, 5, 6, 7, 9: camera_steps.
  - apply (camera_inv_switch_audio b (emit (SendPermission n b) x)). by apply camera_inv_emit.
  - repeat case_match; camera_steps.
Qed.
Lemma camera_inv_update_options old cur o x : authorized (conn x) = true →
  camera_inv x → camera_inv (update_options old cur o x).
Proof.
  intros Ha Hx. unfold update_options.
  assert (∀ z, camera_inv z → camera_inv (options_rest old cur o z)) as Hrest.
  { intros z Hz. unfold options_rest. camera_steps; repeat case_match; camera_steps. }
  apply Hrest. clear Hrest.
  set (P := λ z, camera_inv z ∧ authorized (conn z) = true).
  assert (∀ e z, P z → P (emit e z)) as Hemit.
  { intros e z [??]. split; [by apply camera_inv_emit|done]. }
  assert (P (options_video o x)) as Hvid.
  { unfold options_video. destruct (supported_decoding o); [apply Hemit|];
      do 2 (apply (when_ind P); [intros y; apply Hemit|]); by split. }
  enough (P (options_services o (options_video o x))) as [? _] by done. unfold options_services.
  repeat (apply (set_option_ind P); [intros b y [Hy Hay]|]); [..|done].
  all: split; [|first [done|by rewrite conn_sub_audio|by destruct b]].
  4: by apply camera_inv_sub_audio.
  all: camera_steps.
Qed.
Lemma camera_inv_capture count add sub_ set x : camera_inv x → camera_inv (capture_displays count add sub_ set x).
Proof.
  intros Hx. unfold capture_displays. case_match; [done|]. unfold capture_end.
  assert (∀ source ds ds' ds2 inc exc, camera_inv (x <| srv := ServerTable.capture_displays
            (add_missing source (add_missing source (srv x) ds) ds') (inner (conn x)) source ds2 inc exc |>)) as Hcap.
  { intros. pose proof (ci_srv _ Hx) as Hs.
    destruct (good_capture_srv x x source ds ds' ds2 inc exc (good_refl x Hs)) as [G1 _ G3 _].
    apply (camera_inv_server (λ _, _)); [exact G1|by apply G3|by apply capture_srv_subed|done]. }
  camera_steps. repeat case_match; apply Hcap.
Qed.
Lemma camera_inv_voice accepted x : camera_inv x → camera_inv (handle_voice_call accepted x).
Proof.
  intros Hx. unfold handle_voice_call. destruct (voice_call_requested (conn x)) eqn:Hr; [|done].
  assert (authorized (conn x) = true) as Ha.
  { apply not_false_is_true. intros [_ ?]%(ci_unauthorized _ Hx). congruence. }
  match goal with |- camera_inv (when _ _ ?y) => set (z := y) end.
  assert (is_authed_view_camera_conn (conn z) = true) as ->.
  { unfold z, is_authed_view_camera_conn, authed_conn_type. cbn. by rewrite Ha, (ci_kind _ Hx). }
  apply camera_inv_audio; [apply Hx|apply Hx|exact Ha|done].
Qed.
Lemma camera_inv_close_voice x : camera_inv x → camera_inv (close_voice_call x).
Proof.
  intros Hx. unfold close_voice_call.
  match goal with |- camera_inv (when _ _ ?y) => set (z := y) end.
  unfold is_authed_view_camera_conn, authed_conn_type.
  change (authorized (conn z)) with (authorized (conn x)). change (kind (conn z)) with (kind (conn x)).
  destruct (authorized (conn x)) eqn:Ha; rewrite ?(ci_kind _ Hx); cbn [when].
  - apply camera_inv_audio; [apply Hx|apply Hx|exact Ha|]. by rewrite andb_false_r.
  - destruct Hx as [Hs Hk Hau Hu]. destruct (Hu Ha) as [Hv Hr]. split; [done|done| |done].
    etrans; [exact Hau|]. by rewrite Hv, !andb_false_r.
Qed.
Lemma camera_inv_from_viewer m f x :
  (∀ y, camera_inv y → authorized (conn y) = true → camera_inv (f y)) →
  camera_inv x → camera_inv (from_viewer m f x).
Proof.
  intros Hf Hx. unfold from_viewer. destruct (authorized (conn x)) eqn:Ha; [|done].
  destruct (bool_decide _); [|done]. by apply Hf.
Qed.
Lemma camera_inv_login old cur cam wait primary o x :
  camera_inv x → camera_inv (finish_login old cur cam wait primary o x).
Proof.
  intros Hx. unfold finish_login.
  assert (∀ y, camera_inv y → camera_inv (login_services cam wait (bool_decide (is_Some primary)) y)) as Hend.
  { intros y Hy. unfold login_services. rewrite (ci_kind _ Hy). camera_steps. by apply camera_inv_sub_camera. }
  apply Hend. unfold login_display, is_remote. set (z := set_conn _ x).
  assert (camera_inv z) as Hz by (unfold z; camera_steps).
  replace (match primary with Some _ => _ | None => z end) with z.
  2: { destruct primary; [|done]. by rewrite (ci_kind _ Hz). }
  unfold update_scoped_login_options. destruct o as [o|]; [|done]. case_match; [|done].
  by apply camera_inv_update_options.
Qed.
Lemma camera_inv_step x e : camera_inv x → camera_inv (step x e).
Proof.
  intros Hx. destruct e; cbn [step]; try (apply camera_inv_from_viewer; [intros y Hy Ha|done]).
  - by apply camera_inv_switch_permission.
  - apply (when_ind camera_inv); [|done]. intros y. apply camera_inv_login.
  - unfold selected_sid. rewrite (ci_kind _ Hy). by apply camera_inv_sub_camera.
  - repeat case_match; by try apply camera_inv_update_options.
  - by apply camera_inv_capture.
  - unfold handle_switch_display, switch_display_to.
    destruct (_ =? idx); [done|]. destruct (count <=? idx); [done|]. camera_steps.
  - case_match; [|by apply camera_inv_close_voice].
    apply camera_inv_emit. destruct Hy as [G1 G2 G3 G4]. split; [done|done|done|].
    cbn. by rewrite Ha.
  - by apply camera_inv_voice.
  - by apply camera_inv_close_voice.
Qed.

(** who views a camera hears the machine only in a call: whatever the manager
    and the viewer do, and in any order, a camera session is subscribed to audio
    exactly while audio is allowed and not disabled and the last voice call it
    asked for was accepted and is not over. *)
Theorem camera_audio_in_call me permit s es :
  unknown me s →
  let x := run (start me ViewCameraConn permit s) es in
  subed x AUDIO_NAME = contains s AUDIO_NAME && audio_enabled (conn x) && voice_calling (conn x).
Proof.
  intros [Hs Hnone] x.
  pose proof (good_names _ _ (good_run (start me ViewCameraConn permit s) es Hs) AUDIO_NAME eq_refl) as Hn.
  change (srv (start me ViewCameraConn permit s)) with s in Hn. rewrite <-Hn.
  apply ci_audio. subst x. clear Hn. unfold run.
  assert (camera_inv (start me ViewCameraConn permit s)) as Hx.
  { split; [done|done| |done]. cbn -[lit]. rewrite andb_false_r. apply Hnone. }
  revert Hx. generalize (start me ViewCameraConn permit s).
  induction es as [|e es IH]; intros y Hy; cbn; [done|]. by apply IH, camera_inv_step.
Qed.

(** ** The displays of a session *)
Lemma elem_of_service_names source d (ds : list Z) : get_service_name source d ∈ get_service_name source <$> ds ↔ d ∈ ds.
Proof.
  rewrite list_elem_of_fmap. split; [|by eauto]. by intros (e & [_ ->]%get_service_name_inj & He).
Qed.
Lemma not_elem_of_service_names source source' d (ds : list Z) : source ≠ source' →
  get_service_name source d ∉ get_service_name source' <$> ds.
Proof. rewrite list_elem_of_fmap. intros Hne (e & [Hs _]%get_service_name_inj & _). done. Qed.
(** One choice of the request. *)
Lemma capture_srv_displays x source ds ds' ds2 (inc exc : bool) d :
  server_ok (srv x) → (inc = true → ds2 ⊆ ds ++ ds') →
  let s' := ServerTable.capture_displays (add_missing source (add_missing source (srv x) ds) ds')
              (inner (conn x)) source ds2 inc exc in
  let after src := is_subed_to s' (get_service_name src d) (conn_id (inner (conn x))) in
  after source = (if bool_decide (d ∈ ds2) then inc || subed x (get_service_name source d)
                  else negb exc && subed x (get_service_name source d)) ∧
  ∀ other, other ≠ source → after other = negb exc && subed x (get_service_name other d).
Proof.
  intros Hs Hinc. cbv zeta.
  destruct (add_missing_spec source (srv x) ds Hs) as (G1 & G2 & _ & G4).
  destruct (add_missing_spec source _ ds' G1) as (K1 & K2 & _ & K4).
  destruct (capture_displays_spec _ (inner (conn x)) source ds2 inc exc K1) as (_ & _ & _ & _ & L5).
  assert (∀ n b, subed x n = true ∨ b = false →
    contains (add_missing source (add_missing source (srv x) ds) ds') n && b = b) as Hcon.
  { intros n b [Hb| ->]; [|apply andb_false_r]. apply is_subed_to_contains in Hb. by rewrite K4, G4, Hb. }
  split.
  - rewrite L5. unfold captured. rewrite is_video_service_name_of, K2, G2.
    fold (subed x (get_service_name source d)). rewrite (bool_decide_ext _ _ (elem_of_service_names source d ds2)).
    destruct (bool_decide_reflect (d ∈ ds2)) as [Hd|Hd].
    + destruct inc; cbn [orb]; [|by apply Hcon; destruct (subed x _); auto].
      rewrite K4, G4. apply Hinc in Hd; [|done]. apply elem_of_app in Hd.
      rewrite !(bool_decide_ext _ _ (elem_of_service_names source d _)).
      destruct Hd as [Hd|Hd]; rewrite (bool_decide_true _ Hd); by rewrite ?orb_true_r.
    + apply Hcon. destruct exc, (subed x _); auto.
  - intros other Hne. rewrite L5. unfold captured. rewrite is_video_service_name_of, K2, G2.
    rewrite bool_decide_false by by apply not_elem_of_service_names.
    fold (subed x (get_service_name other d)). apply Hcon. destruct exc, (subed x _); auto.
Qed.
Lemma subbed_displays_count_spec s id :
  bool_decide (1 < Z.of_nat (get_subbed_displays_count s id)) = true ↔
  ∃ n m, n ≠ m ∧ is_video_service_name n = true ∧ is_video_service_name m = true ∧
         is_subed_to s n id = true ∧ is_subed_to s m id = true.
Proof.
  unfold get_subbed_displays_count. set (P := λ k, is_video_service_name k ∧ is_subed_to s k id).
  assert (∀ k, k ∈ filter P (elements (dom (services s))) ↔
            is_video_service_name k = true ∧ is_subed_to s k id = true) as Hin.
  { intros k. rewrite list_elem_of_filter, elem_of_elements. unfold P. rewrite !Is_true_true.
    split; [tauto|]. intros [Hv Hs]. split; [done|]. apply is_subed_to_contains in Hs.
    rewrite contains_dom in Hs. by apply bool_decide_eq_true in Hs. }
  assert (NoDup (filter P (elements (dom (services s))))) as Hnd by apply NoDup_filter, NoDup_elements.
  rewrite bool_decide_eq_true.
  destruct (filter P _) as [|n [|m l]] eqn:Hf; cbn [length].
  - split; [lia|]. intros (n & m & _ & Hn & _ & Hsn & _). by pose proof (proj2 (Hin n) (conj Hn Hsn)) as []%elem_of_nil.
  - split; [lia|]. intros (k & m & Hne & Hk & Hm & Hsk & Hsm).
    pose proof (proj2 (Hin k) (conj Hk Hsk)) as ->%list_elem_of_singleton.
    by pose proof (proj2 (Hin m) (conj Hm Hsm)) as ->%list_elem_of_singleton.
  - split; [|lia]. intros _. exists n, m.
    destruct (proj1 (Hin n)) as [? ?]; [by left|]. destruct (proj1 (Hin m)) as [? ?]; [by right; left|].
    split_and!; try done. intros ->. apply NoDup_cons in Hnd as [Hnd _]. apply Hnd. by left.
Qed.

(** Requests that are ignored. *)
Lemma capture_ignored (valid : list Z → list Z) (add sub_ set : list Z) : valid [] = [] →
  ((negb (bool_decide (add = [])) && bool_decide (valid add = []))
   || (bool_decide (add = []) && negb (bool_decide (sub_ = [])) && bool_decide (valid sub_ = []))
   || (bool_decide (add = []) && bool_decide (sub_ = []) && negb (bool_decide (set = []))
       && bool_decide (valid set = []))) =
  (let asked := match add, sub_ with [], [] => set | [], _ => sub_ | _, _ => add end in
   bool_decide (asked ≠ [] ∧ valid asked = [])).
Proof.
  intros Hnil. assert (∀ l, bool_decide (l ≠ [] ∧ valid l = []) =
                        negb (bool_decide (l = [])) && bool_decide (valid l = [])) as Hbd.
  { intros l. by rewrite bool_decide_and, bool_decide_not. }
  destruct add as [|a add].
  - destruct sub_ as [|b sub_]; cbv zeta; rewrite Hbd; [|by rewrite orb_false_r].
    done.
  - cbv zeta. rewrite Hbd. by rewrite !orb_false_r.
Qed.
Lemma capture_end_spec s x : server_ok s →
  let x' := capture_end s x in
  (∀ n, is_video_service_name n = true → subed x' n = is_subed_to s n (conn_id (inner (conn x)))) ∧
  (multi_ui_session (conn x') = true ↔
     ∃ n m, n ≠ m ∧ is_video_service_name n = true ∧ is_video_service_name m = true ∧
            subed x' n = true ∧ subed x' m = true).
Proof.
  intros Hs x'. set (me := conn_id (inner (conn x))).
  assert (∀ n, is_video_service_name n = true → subed x' n = is_subed_to s n me) as Hsub.
  { intros n Hn. unfold x', capture_end.
    match goal with |- subed (when _ _ ?y) n = _ => set (z := y) end.
    assert (subed z n = is_subed_to s n me ∧ server_ok (srv z)) as [<- Hz] by done.
    destruct (follow_remote_window (conn z)); [|done]. cbn [when].
    destruct (subed_sub NAME_WINDOW_FOCUS (λ c, negb (multi_ui_session c)) z n Hz) as (_ & _ & ->).
    rewrite bool_decide_false; [done|]. intros ->. discriminate Hn. }
  split; [done|].
  assert (multi_ui_session (conn x') = bool_decide (1 < Z.of_nat (get_subbed_displays_count s me))) as ->.
  { unfold x', capture_end. match goal with |- context [when ?b _ _] => by destruct b end. }
  rewrite subbed_displays_count_spec. split; intros (n & m & Hne & Hn & Hm & Hsn & Hsm);
    exists n, m; rewrite ?Hsub in * by done; done.
Qed.
(** C32: a viewer gets the displays it asks for. A request whose chosen list names
    no display that exists changes nothing; otherwise the session is then
    subscribed: after [add], to what it had and the displays that exist of
    the list; after [sub], to those of the list it had; after [set], to exactly those
    of the list that exist - however many were asked for, and whether or not anyone
    watched them before - and in the last two cases to nothing of the other source.
    It counts as a session of several displays exactly when it is subscribed to two. *)
Theorem capture_displays_exact x count add sub_ set d :
  server_ok (srv x) →
  let valid := filter (λ d, d < count) in
  let x' := capture_displays count add sub_ set x in
  let asked := match add, sub_ with [], [] => set | [], _ => sub_ | _, _ => add end in
  let source := video_source (conn x) in
  let before := subed x (get_service_name source d) in
  if bool_decide (asked ≠ [] ∧ valid asked = []) then x' = x
  else
    subed x' (get_service_name source d) =
      (let wanted := bool_decide (d ∈ asked ∧ d < count) in
       match add, sub_ with [], [] => wanted | [], _ => wanted && before | _, _ => wanted || before end) ∧
    (∀ other, other ≠ source → subed x' (get_service_name other d) =
       match add with [] => false | _ => subed x (get_service_name other d) end) ∧
    (multi_ui_session (conn x') = true ↔
       ∃ n m, n ≠ m ∧ is_video_service_name n = true ∧ is_video_service_name m = true ∧
              subed x' n = true ∧ subed x' m = true).
Proof.
  intros Hs. cbv zeta. set (source := video_source (conn x)).
  pose proof (λ ds ds' ds2 inc exc, capture_srv_displays x source ds ds' ds2 inc exc d Hs) as Hcap.
  assert (∀ ds ds' ds2 inc exc, server_ok (ServerTable.capture_displays
    (add_missing source (add_missing source (srv x) ds) ds') (inner (conn x)) source ds2 inc exc)) as Hok.
  { intros. by destruct (good_capture_srv x x source ds ds' ds2 inc exc (good_refl x Hs)). }
  assert (∀ l : list Z, bool_decide (d ∈ filter (λ d, d < count) l) = bool_decide (d ∈ l ∧ d < count)) as Hv.
  { intros l. apply bool_decide_ext. rewrite list_elem_of_filter. tauto. }
  unfold capture_displays. cbv zeta. rewrite (capture_ignored (filter (λ d, d < count)) add sub_ set eq_refl).
  cbv zeta. destruct (bool_decide _); [done|]. fold source.
  destruct add as [|a add]; [destruct sub_ as [|b sub_]|]; cbn [negb bool_decide];
    match goal with |- context [capture_end ?s' x] => set (s := s');
      destruct (capture_end_spec s x) as [Hsub Hmulti]; [apply Hok|] end.
  - destruct (Hcap (filter (λ d, d < count) []) (filter (λ d, d < count) set)
      (filter (λ d, d < count) set) true true) as [H1d H2d]; [by intros _|].
    split_and!; [|intros other Hne|done]; rewrite Hsub by apply is_video_service_name_of.
    + rewrite <-Hv. etrans; [exact H1d|]. by repeat case_bool_decide.
    + by apply H2d.
  - destruct (Hcap (filter (λ d, d < count) []) (filter (λ d, d < count) set)
      (filter (λ d, d < count) (b :: sub_)) false true) as [H1d H2d]; [done|].
    split_and!; [|intros other Hne|done]; rewrite Hsub by apply is_video_service_name_of.
    + rewrite <-Hv. etrans; [exact H1d|]. by repeat case_bool_decide.
    + by apply H2d.
  - destruct (Hcap (filter (λ d, d < count) (a :: add)) (filter (λ d, d < count) set)
      (filter (λ d, d < count) (a :: add)) true false) as [H1d H2d]; [intros _ e He; apply elem_of_app; by left|].
    split_and!; [|intros other Hne|done]; rewrite Hsub by apply is_video_service_name_of.
    + rewrite <-Hv. etrans; [exact H1d|]. by repeat case_bool_decide.
    + by apply H2d.
Qed.
End subscriptions.

(** ** Concrete sessions *)
Definition some_server : Server AnyService := server_new false true 7.
Definition viewer : ConnInner := mk_conn 5 true true.
Lemma some_server_unknown : unknown viewer some_server.
Proof.
  destruct (server_new_fresh false true 7) as [Hs Hf]. split; [exact Hs|]. intros n. apply Hf.
Qed.
Definition allow_all : str → bool := λ _, true.
(** The viewer logs in and shows the remote cursor; the manager forbids the
    keyboard. *)
Definition some_session : list event :=
  [Login false false true false (Some 0) None;
   Option_ false false (new_option <| SessionScope.show_remote_cursor := 2 |>);
   SwitchPermission (lit "keyboard") false None;
   CaptureDisplays_ 2 [] [] [0; 1; 9]].

Lemma subscriptions_isolated_witness :
  let x := start viewer Remote allow_all some_server in
  let x' := run false false false x some_session in
  ((∀ n id, id ≠ conn_id (inner (conn x)) → is_subed_to (srv x') n id = is_subed_to (srv x) n id) ∧
   (∀ n, is_video_service_name n = false → contains (srv x') n = contains (srv x) n) ∧
   ∀ n id, is_subed_to (srv (close x')) n id =
           negb (conn_id (inner (conn x)) =? id) && is_subed_to (srv x) n id) ∧
  is_subed_to (srv x') (lit "audio") 5 = true ∧ is_subed_to (srv (close x')) (lit "audio") 5 = false.
Proof.
  intros x x'. split; [|split; vm_compute; reflexivity].
  exact (subscriptions_isolated false false false x some_session (proj1 some_server_unknown)).
Defined.
Lemma subscriptions_permitted_witness :
  let x := run false false false (start viewer Remote allow_all some_server) some_session in
  let c := conn x in
  ((subed x CLIPBOARD_NAME = true → can_sub_clipboard_service false c = true) ∧
   (subed x FILE_CLIPBOARD_NAME = true → file_transfer_enabled c = true ∧ false = false) ∧
   (subed x AUDIO_NAME = true → authorized c = true ∧ audio_enabled c = true) ∧
   (subed x NAME_CURSOR = true → keyboard c || show_remote_cursor c = true) ∧
   (subed x NAME_POS = true → show_remote_cursor c = true) ∧
   (subed x NAME_WINDOW_FOCUS = true → follow_remote_window c = true) ∧
   (services_subed c = true → ∀ n want,
      (n, want) ∈ [(CLIPBOARD_NAME, can_sub_clipboard_service false c); (AUDIO_NAME, audio_enabled c);
                   (NAME_POS, show_remote_cursor c)] →
      contains some_server n = true → subed x n = want)) ∧
  subed x <$> [CLIPBOARD_NAME; FILE_CLIPBOARD_NAME; AUDIO_NAME; NAME_CURSOR; NAME_POS; NAME_WINDOW_FOCUS]
    = [false; false; true; true; true; false].
Proof.
  intros x c. split; [|vm_compute; reflexivity].
  exact (subscriptions_permitted false false false viewer allow_all some_server some_session some_server_unknown).
Defined.
(** A call is accepted, then audio is disabled by the viewer, then enabled. *)
Definition camera_session : list event :=
  [Login false false true false None None; VoiceCallRequest_ true; VoiceCallAnswer true;
   Option_ false false (new_option <| SessionScope.disable_audio := 2 |>);
   Option_ false false (new_option <| SessionScope.disable_audio := 1 |>)].
Lemma camera_audio_in_call_witness :
  let x n := run false false false (start viewer ViewCameraConn allow_all some_server) (take n camera_session) in
  subed (x 5%nat) AUDIO_NAME = contains some_server AUDIO_NAME && audio_enabled (conn (x 5%nat))
                            && voice_calling (conn (x 5%nat)) ∧
  (λ n, subed (x n) AUDIO_NAME) <$> [1; 2; 3; 4; 5]%nat = [false; false; true; false; true].
Proof.
  intros x. split; [|vm_compute; reflexivity].
  apply (camera_audio_in_call false false false viewer allow_all some_server _ some_server_unknown).
Defined.
Lemma capture_displays_exact_witness :
  let x := run false false false (start viewer Remote allow_all some_server) (take 3 some_session) in
  let exact_at count add sub_ set d :=
    let valid := filter (λ d, d < count) in
    let x' := capture_displays count add sub_ set x in
    let asked := match add, sub_ with [], [] => set | [], _ => sub_ | _, _ => add end in
    let source := video_source (conn x) in
    let before := subed x (get_service_name source d) in
    if bool_decide (asked ≠ [] ∧ valid asked = []) then x' = x
    else
      subed x' (get_service_name source d) =
        (let wanted := bool_decide (d ∈ asked ∧ d < count) in
         match add, sub_ with [], [] => wanted | [], _ => wanted && before | _, _ => wanted || before end) ∧
      (∀ other, other ≠ source → subed x' (get_service_name other d) =
         match add with [] => false | _ => subed x (get_service_name other d) end) ∧
      (multi_ui_session (conn x') = true ↔
         ∃ n m, n ≠ m ∧ is_video_service_name n = true ∧ is_video_service_name m = true ∧
                subed x' n = true ∧ subed x' m = true) in
  (exact_at 2 [] [] [0; 1; 9] 1 ∧ exact_at 2 [9] [] [] 1) ∧
  let x' := capture_displays 2 [] [] [0; 1; 9] x in
  multi_ui_session (conn x') = true ∧
  (λ d, subed x' (get_service_name Monitor d)) <$> [0; 1; 9] = [true; true; false].
Proof.
  intros x exact_at. split; [|split; vm_compute; reflexivity].
  assert (server_ok (srv x)) as Hs
    by apply (good_run false false false (start viewer Remote allow_all some_server)), some_server_unknown.
  clearbody x. unfold exact_at. split.
  - exact (capture_displays_exact x 2 [] [] [0; 1; 9] 1 Hs).
  - exact (capture_displays_exact x 2 [9] [] [] 1 Hs).
Defined.

(** A connection that still waits for the user to accept it is subscribed to the
    clipboard - and to the cursor - when the user switches a permission on: only the
    audio permission looks at [authorized]. *)
Example pending_connection_gets_clipboard :
  let x := run false false false (start viewer Remote (λ n, negb (bool_decide (n = lit "enable-clipboard"))) some_server)
             [SwitchPermission (lit "clipboard") true None] in
  authorized (conn x) = false ∧ subed x CLIPBOARD_NAME = true.
Proof. vm_compute. done. Qed.
(** Taking away the clipboard leaves the clipboard of files. *)
Example file_clipboard_stays :
  let x := run false false false (start viewer Remote allow_all some_server)
             [Login false false true false (Some 0) (Some (new_option <| SessionScope.enable_file_transfer := 2 |>));
              SwitchPermission (lit "clipboard") false None] in
  can_sub_file_clipboard_service false (conn x) = false ∧ subed x FILE_CLIPBOARD_NAME = true.
Proof. vm_compute. done. Qed.
(** A viewer that only views is sent the cursor again once the manager allows the
    keyboard anew. *)
Example view_only_gets_cursor :
  let x := run false false false (start viewer Remote allow_all some_server)
             [Login false false true false (Some 0) (Some (new_option <| SessionScope.disable_keyboard := 2 |>));
              SwitchPermission (lit "keyboard") true None] in
  peer_keyboard_enabled (conn x) || show_remote_cursor (conn x) = false ∧ subed x NAME_CURSOR = true.
Proof. vm_compute. done. Qed.
