(* ===== verification/KeyText.v ===== *)
(** * Text with keys

    [src/libs/enigo/src/dsl.rs]: the little language ["Hello {+CTRL}c{-CTRL}"]
    for text and modifier keys to simulate, [tokenize] and [eval]. *)
From S2P Require Import Prelude.
Local Open Scope N_scope.

Inductive ParseError := UnknownTag (tag : str) | UnexpectedOpen | UnmatchedOpen | UnmatchedClose.
(** The keys of [libs/enigo/src/lib.rs] that a text can name, and its characters. *)
Inductive Key := Shift | Control | Meta | Alt | Layout (c : char).
Inductive Token := Sequence (s : str) | Unicode (s : str) | KeyUp (k : Key) | KeyDown (k : Key).
#[export] Instance Key_eq_dec : EqDecision Key.
Proof. solve_decision. Defined.
#[export] Instance Token_eq_dec : EqDecision Token.
Proof. solve_decision. Defined.

Definition open : char := 123.
Definition close : char := 125.

Definition flush (tokens : list Token) (buffer : str) (unicode : bool) : list Token :=
  if bool_decide (buffer = []) then tokens
  else tokens ++ [if unicode then Unicode buffer else Sequence buffer].

(** What a tag stands for: a mode, or a token. *)
Definition tag_names : list (str * (bool + Token)) :=
  [(lit "+UNICODE", inl true); (lit "-UNICODE", inl false);
   (lit "+SHIFT", inr (KeyDown Shift)); (lit "-SHIFT", inr (KeyUp Shift));
   (lit "+CTRL", inr (KeyDown Control)); (lit "-CTRL", inr (KeyUp Control));
   (lit "+META", inr (KeyDown Meta)); (lit "-META", inr (KeyUp Meta));
   (lit "+ALT", inr (KeyDown Alt)); (lit "-ALT", inr (KeyUp Alt))].
Definition tag_meaning (tag : str) : option (bool + Token) :=
  (λ e, e.2.2) <$> list_find (λ e, e.1 = tag) tag_names.

(** The loops of [tokenize]: outside of a tag ([None]), and inside, after the
    characters [t] ([Some t]), the first of which is taken as it is. *)
Fixpoint tokenize_from (tag : option str) (unicode : bool) (tokens : list Token) (buffer : str)
    (input : str) : ParseError + list Token :=
  match tag, input with
  | None, [] => inr (flush tokens buffer unicode)
  | None, c :: input =>
      if c =? open then
        match input with
        | [] => inl UnmatchedOpen
        | c :: input =>
            if c =? open then tokenize_from None unicode tokens (buffer ++ [open]) input
            else tokenize_from (Some [c]) unicode (flush tokens buffer unicode) [] input
        end
      else if c =? close then
        match input with
        | c :: input =>
            if c =? close then tokenize_from None unicode tokens (buffer ++ [close]) input
            else inl UnmatchedClose
        | [] => inl UnmatchedClose
        end
      else tokenize_from None unicode tokens (buffer ++ [c]) input
  | Some _, [] => inl UnmatchedOpen
  | Some t, c :: input =>
      let tag_ends :=
        match tag_meaning t with
        | Some (inl unicode) => tokenize_from None unicode tokens buffer input
        | Some (inr token) => tokenize_from None unicode (tokens ++ [token]) buffer input
        | None => inl (UnknownTag t)
        end in
      if c =? open then
        match input with
        | c :: input => if c =? open then tokenize_from (Some (t ++ [open])) unicode tokens buffer input
                        else inl UnexpectedOpen
        | [] => inl UnexpectedOpen
        end
      else if c =? close then
        match input with
        | c :: input => if c =? close then tokenize_from (Some (t ++ [close])) unicode tokens buffer input
                        else tag_ends
        | [] => tag_ends
        end
      else tokenize_from (Some (t ++ [c])) unicode tokens buffer input
  end.
Definition tokenize (input : str) : ParseError + list Token := tokenize_from None false [] [] input.

(** What is simulated. *)
Inductive action := KeyClick (k : Key) | KeySequence (s : str) | PressUp (k : Key) | PressDown (k : Key).
Definition eval_token (t : Token) : list action :=
  match t with
  | Sequence buffer => (λ key, KeyClick (Layout key)) <$> buffer
  | Unicode buffer => [KeySequence buffer]
  | KeyUp key => [PressUp key]
  | KeyDown key => [PressDown key]
  end.
Definition eval (input : str) : ParseError + list action :=
  match tokenize input with inl e => inl e | inr tokens => inr (tokens ≫= eval_token) end.

(** The tests of the source. *)
Example success : tokenize (lit "{{Hello World!}} {+CTRL}hi{-CTRL}") =
  inr [Sequence (lit "{Hello World!} "); KeyDown Control; Sequence (lit "hi"); KeyUp Control].
Proof. reflexivity. Qed.
Example unexpected_open : tokenize (lit "{hello{}world}") = inl UnexpectedOpen.
Proof. reflexivity. Qed.
Example unmatched_open : tokenize (lit "{this is going to fail") = inl UnmatchedOpen.
Proof. reflexivity. Qed.
Example unmatched_close : tokenize (lit "{+CTRL}{{this}} is going to fail}") = inl UnmatchedClose.
Proof. reflexivity. Qed.
(** A brace that closes a tag and a text that starts with an escaped [}] cannot
    stand side by side: the two closing braces after the tag's end belong to the tag. *)
Example close_after_tag : tokenize (lit "{+SHIFT}}}") = inl (UnknownTag (lit "+SHIFT}")).
Proof. reflexivity. Qed.

(** ** Writing tokens *)
Definition escape_char (c : char) : str := if (c =? open) || (c =? close) then [c; c] else [c].
Definition escape (s : str) : str := s ≫= escape_char.
Definition print_tag (name : str) : str := [open] ++ name ++ [close].
Definition key_name (k : Key) : str :=
  match k with
  | Shift => lit "SHIFT" | Control => lit "CTRL" | Meta => lit "META" | Alt => lit "ALT" | Layout _ => []
  end.
Definition print_token (t : Token) : str :=
  match t with
  | Sequence s => escape s
  | Unicode s => print_tag (lit "+UNICODE") ++ escape s ++ print_tag (lit "-UNICODE")
  | KeyUp k => print_tag (lit "-" ++ key_name k)
  | KeyDown k => print_tag (lit "+" ++ key_name k)
  end.
Definition print (ts : list Token) : str := ts ≫= print_token.

(** Tokens there is a text for; [after_tag] and [after_text]: what stands before. *)
Definition starts_closed (s : str) : bool := match s with c :: _ => c =? close | [] => false end.
Definition key_ok (k : Key) : bool := match k with Layout _ => false | _ => true end.
Inductive before := Nothing | AfterText | AfterTag.
Fixpoint writable (b : before) (ts : list Token) : bool :=
  match ts with
  | [] => true
  | Sequence s :: ts =>
      negb (bool_decide (s = []))
      && (match b with Nothing => true | AfterText => false | AfterTag => negb (starts_closed s) end)
      && writable AfterText ts
  | Unicode s :: ts => negb (bool_decide (s = [])) && negb (starts_closed s) && writable AfterTag ts
  | KeyUp k :: ts | KeyDown k :: ts => key_ok k && writable AfterTag ts
  end.

(** ** Reading back *)
Lemma escape_cons c s : escape (c :: s) = escape_char c ++ escape s.
Proof. reflexivity. Qed.
Lemma read_char c u toks buf rest :
  tokenize_from None u toks buf (escape_char c ++ rest) = tokenize_from None u toks (buf ++ [c]) rest.
Proof.
  unfold escape_char.
  destruct (N.eqb_spec c open) as [->|Ho]; [done|].
  destruct (N.eqb_spec c close) as [->|Hc]; [done|].
  cbn [orb app tokenize_from].
  by rewrite (proj2 (N.eqb_neq c open) Ho), (proj2 (N.eqb_neq c close) Hc).
Qed.
Lemma read_escape s u toks buf rest :
  tokenize_from None u toks buf (escape s ++ rest) = tokenize_from None u toks (buf ++ s) rest.
Proof.
  revert buf. induction s as [|c s IH]; intros buf; [by rewrite app_nil_r|].
  rewrite escape_cons, <-(assoc_L (++)), read_char, IH. by rewrite <-(assoc_L (++)).
Qed.
Definition brace_free (s : str) : Prop := Forall (λ c, c ≠ open ∧ c ≠ close) s.
Lemma read_in_tag name t u toks buf rest : brace_free name →
  tokenize_from (Some t) u toks buf (name ++ rest) = tokenize_from (Some (t ++ name)) u toks buf rest.
Proof.
  intros Hn. revert t. induction Hn as [|c name [Ho Hc] _ IH]; intros t; [by rewrite app_nil_r|].
  cbn [app tokenize_from].
  rewrite (proj2 (N.eqb_neq c open) Ho), (proj2 (N.eqb_neq c close) Hc), IH.
  by rewrite <-(assoc_L (++)).
Qed.
Definition mode_after (m : bool + Token) (u : bool) : bool := match m with inl u => u | inr _ => u end.
Definition tokens_after (m : bool + Token) (toks : list Token) : list Token :=
  match m with inl _ => toks | inr t => toks ++ [t] end.
Lemma read_tag name m u toks buf rest : name ≠ [] → brace_free name → tag_meaning name = Some m →
  starts_closed rest = false →
  tokenize_from None u toks buf (print_tag name ++ rest) =
    tokenize_from None (mode_after m u) (tokens_after m (flush toks buf u)) [] rest.
Proof.
  intros Hne Hf Hm Hr. destruct name as [|c name]; [done|]. apply Forall_cons in Hf as [[Ho Hc] Hf].
  unfold print_tag. rewrite <-!(assoc_L (++)). cbn [app].
  cbn [tokenize_from]. rewrite N.eqb_refl, (proj2 (N.eqb_neq c open) Ho), read_in_tag by done.
  cbn [app tokenize_from]. change (close =? open) with false. rewrite N.eqb_refl. cbn [app] in Hm |- *.
  rewrite Hm. destruct rest as [|r rest]; [by destruct m|]. cbn in Hr. rewrite Hr. by destruct m.
Qed.

(** Where the reader stands after [ts]. *)
Fixpoint stands (b : before) (ts : list Token) : before :=
  match ts with
  | [] => b
  | Sequence _ :: ts => stands AfterText ts
  | _ :: ts => stands AfterTag ts
  end.
Lemma starts_closed_escape s rest : s ≠ [] → starts_closed (escape s ++ rest) = starts_closed s.
Proof.
  destruct s as [|c s]; [done|]. intros _. rewrite escape_cons. unfold escape_char.
  by destruct ((c =? open) || (c =? close)).
Qed.
Lemma starts_closed_print ts rest :
  writable AfterTag ts = true → (stands AfterTag ts = AfterTag → starts_closed rest = false) →
  starts_closed (print ts ++ rest) = false.
Proof.
  intros Hw Hr. destruct ts as [|[s|s|k|k] ts]; cbn [print mbind list_bind]; [by apply Hr|..]; [|done..].
  cbn in Hw. apply andb_true_iff in Hw as [[Hs Hc]%andb_true_iff _].
  apply negb_true_iff, bool_decide_eq_false in Hs. apply negb_true_iff in Hc.
  cbn [print_token]. by rewrite <-(assoc_L (++)), starts_closed_escape.
Qed.
Lemma flush_nil toks u : flush toks [] u = toks.
Proof. reflexivity. Qed.
Lemma flush_some toks s u : s ≠ [] → flush toks s u = toks ++ [if u then Unicode s else Sequence s].
Proof. intros Hs. unfold flush. by rewrite bool_decide_false. Qed.
(** The tags of the keys. *)
Lemma key_tag_ok (sign : string) k : sign = "+"%string ∨ sign = "-"%string → key_ok k = true →
  let name := lit sign ++ key_name k in
  name ≠ [] ∧ brace_free name ∧
  tag_meaning name = Some (inr (if bool_decide (sign = "+"%string) then KeyDown k else KeyUp k)).
Proof.
  intros [->| ->]; destruct k; try done; intros _; cbn; (split_and!; [done| |done]);
    repeat (constructor; [by split|]); constructor.
Qed.
Lemma print_cons t ts : print (t :: ts) = print_token t ++ print ts.
Proof. reflexivity. Qed.

Lemma read_print ts b toks buf rest :
  writable b ts = true → (b ≠ AfterText → buf = []) →
  (stands b ts = AfterTag → starts_closed rest = false) →
  ∃ toks' buf',
    tokenize_from None false toks buf (print ts ++ rest) = tokenize_from None false toks' buf' rest ∧
    flush toks' buf' false = flush toks buf false ++ ts.
Proof.
  revert b toks buf. induction ts as [|t ts IH]; intros b toks buf Hw Hb Hr.
  { exists toks, buf. by rewrite app_nil_r. }
  rewrite print_cons, <-(assoc_L (++)). destruct t as [s|s|k|k]; cbn [print_token].
  - cbn in Hw. apply andb_true_iff in Hw as [[Hs Hc]%andb_true_iff Hw].
    apply negb_true_iff, bool_decide_eq_false in Hs.
    assert (buf = []) as -> by (apply Hb; by intros ->).
    rewrite read_escape. cbn [app]. destruct (IH AfterText toks s Hw) as (toks' & buf' & -> & Hf); [done|done|].
    exists toks', buf'. by rewrite Hf, flush_some, flush_nil, <-(assoc_L (++)).
  - cbn in Hw. apply andb_true_iff in Hw as [[Hs Hc]%andb_true_iff Hw].
    apply negb_true_iff, bool_decide_eq_false in Hs. apply negb_true_iff in Hc.
    rewrite <-!(assoc_L (++)).
    rewrite (read_tag (lit "+UNICODE") (inl true)); [|done| |done|by rewrite starts_closed_escape].
    2: { repeat (constructor; [by split|]); constructor. }
    rewrite read_escape.
    rewrite (read_tag (lit "-UNICODE") (inl false)); [|done| |done|by apply starts_closed_print].
    2: { repeat (constructor; [by split|]); constructor. }
    cbn [mode_after tokens_after app]. rewrite (flush_some _ s true) by done.
    destruct (IH AfterTag (flush toks buf false ++ [Unicode s]) [] Hw) as (toks' & buf' & -> & Hf); [done|done|].
    exists toks', buf'. by rewrite Hf, flush_nil, <-(assoc_L (++)).
  - cbn in Hw. apply andb_true_iff in Hw as [Hk Hw].
    destruct (key_tag_ok "-" k (or_intror eq_refl) Hk) as (Hne & Hbf & Hm).
    rewrite (read_tag _ _ _ _ _ _ Hne Hbf Hm) by by apply starts_closed_print.
    cbn [mode_after tokens_after].
    destruct (IH AfterTag (flush toks buf false ++ [KeyUp k]) [] Hw) as (toks' & buf' & Heq & Hf); [done|done|].
    exists toks', buf'. split; [exact Heq|]. by rewrite Hf, flush_nil, <-(assoc_L (++)).
  - cbn in Hw. apply andb_true_iff in Hw as [Hk Hw].
    destruct (key_tag_ok "+" k (or_introl eq_refl) Hk) as (Hne & Hbf & Hm).
    rewrite (read_tag _ _ _ _ _ _ Hne Hbf Hm) by by apply starts_closed_print.
    cbn [mode_after tokens_after].
    destruct (IH AfterTag (flush toks buf false ++ [KeyDown k]) [] Hw) as (toks' & buf' & Heq & Hf); [done|done|].
    exists toks', buf'. split; [exact Heq|]. by rewrite Hf, flush_nil, <-(assoc_L (++)).
Qed.

(** every sequence of texts and modifier keys can be written and is read back:
    the tokens of the written form are the tokens - for texts that are not empty,
    with no two plain texts side by side, and where no text that follows a tag
    begins with a closing brace, which the language cannot express. *)
Theorem tokenize_print ts : writable Nothing ts = true → tokenize (print ts) = inr ts.
Proof.
  intros Hw. destruct (read_print ts Nothing [] [] [] Hw) as (toks & buf & Heq & Hf); [done|done|].
  unfold tokenize. rewrite app_nil_r in Heq. rewrite Heq. cbn [tokenize_from]. by rewrite Hf.
Qed.
Lemma tokenize_print_witness :
  let ts := [Sequence (lit "a{}"); KeyDown Control; Sequence (lit "c"); KeyUp Control;
             Unicode (lit "x}"); KeyDown Alt] in
  tokenize (print ts) = inr ts ∧ print ts = lit "a{{}}{+CTRL}c{-CTRL}{+UNICODE}x}}{-UNICODE}{+ALT}".
Proof. intros ts. split; [apply (tokenize_print ts); reflexivity|reflexivity]. Defined.

(** ** Faults

    What is wrong with a text, written as a grammar. A tag is an opening brace, a
    character that is none, and characters with their braces doubled, up to a closing
    brace that is not doubled; [tag c s rest] is a tag begun with the name [c :: s] and
    what follows. A fault is a tag that does not end, a single opening brace in a tag,
    a tag of unknown name, or a single closing brace, after characters and tags that
    have none. A closing brace right after the end of a tag doubles that end, so
    belongs to the tag. *)
Definition tag (c : char) (s rest : str) : str := open :: c :: escape s ++ rest.
Inductive fault : str → ParseError → Prop :=
| fault_alone : fault [open] UnmatchedOpen
| fault_unended c s : c ≠ open → fault (tag c s []) UnmatchedOpen
| fault_opened c s rest : c ≠ open → head rest ≠ Some open → fault (tag c s (open :: rest)) UnexpectedOpen
| fault_unknown c s rest : c ≠ open → tag_meaning (c :: s) = None → starts_closed rest = false →
    fault (tag c s (close :: rest)) (UnknownTag (c :: s))
| fault_close rest : starts_closed rest = false → fault (close :: rest) UnmatchedClose
| fault_after_char c rest e : fault rest e → fault (escape_char c ++ rest) e
| fault_after_tag c s rest e : c ≠ open → is_Some (tag_meaning (c :: s)) → starts_closed rest = false →
    fault rest e → fault (tag c s (close :: rest)) e.

Lemma escape_snoc s c : escape (s ++ [c]) = escape s ++ escape_char c.
Proof. unfold escape. rewrite bind_app. cbn. by rewrite app_nil_r. Qed.
Lemma read_in_tag_char t c u toks buf rest :
  tokenize_from (Some t) u toks buf (escape_char c ++ rest) = tokenize_from (Some (t ++ [c])) u toks buf rest.
Proof.
  unfold escape_char. destruct (N.eqb_spec c open) as [->|Ho]; [done|]. destruct (N.eqb_spec c close) as [->|Hc]; [done|].
  cbn [orb app tokenize_from]. by rewrite (proj2 (N.eqb_neq c open) Ho), (proj2 (N.eqb_neq c close) Hc).
Qed.
Lemma read_begun c s u toks buf rest : c ≠ open →
  tokenize_from None u toks buf (tag c s rest) = tokenize_from (Some (c :: s)) u (flush toks buf u) [] rest.
Proof.
  intros Hc. unfold tag. cbn [tokenize_from]. rewrite N.eqb_refl, (proj2 (N.eqb_neq c open) Hc).
  change (c :: s) with ([c] ++ s). generalize (flush toks buf u) as toks'. intros toks'. generalize [c] as t. clear.
  induction s as [|d s IH]; intros t; [by rewrite app_nil_r|].
  rewrite escape_cons, <-(assoc_L (++)), read_in_tag_char, IH. by rewrite <-(assoc_L (++)).
Qed.
Lemma read_end t u toks buf rest : starts_closed rest = false →
  tokenize_from (Some t) u toks buf (close :: rest) =
  match tag_meaning t with
  | Some m => tokenize_from None (mode_after m u) (tokens_after m toks) buf rest
  | None => inl (UnknownTag t)
  end.
Proof.
  intros Hr. cbn [tokenize_from]. change (close =? open) with false. rewrite N.eqb_refl.
  destruct rest as [|c rest]; cbn in Hr; rewrite ?Hr; by destruct (tag_meaning t) as [[|]|].
Qed.
Lemma read_opened t u toks buf rest : head rest ≠ Some open →
  tokenize_from (Some t) u toks buf (open :: rest) = inl UnexpectedOpen.
Proof.
  intros Hr. cbn [tokenize_from]. rewrite N.eqb_refl. destruct rest as [|c rest]; [done|]. cbn in Hr.
  by rewrite (proj2 (N.eqb_neq c open)) by congruence.
Qed.
Lemma fault_fails s e : fault s e → ∀ u toks buf, tokenize_from None u toks buf s = inl e.
Proof.
  induction 1 as [|c s Hc|c s rest Hc Hr|c s rest Hc Hm Hr|rest Hr|c rest e _ IH|c s rest e Hc [m Hm] Hr _ IH]; intros u toks buf.
  - done.
  - by rewrite read_begun.
  - by rewrite read_begun, read_opened.
  - by rewrite read_begun, read_end, Hm.
  - cbn [tokenize_from]. change (close =? open) with false. rewrite N.eqb_refl.
    destruct rest as [|c rest]; [done|]. cbn in Hr. by rewrite Hr.
  - by rewrite read_char.
  - by rewrite read_begun, read_end, Hm.
Qed.
(** A text without its fault is read. *)
Lemma fails_fault n : ∀ input, (length input ≤ n)%nat →
  (∀ u toks buf e, tokenize_from None u toks buf input = inl e → fault input e)
  ∧ ∀ c t u toks buf e, c ≠ open → tokenize_from (Some (c :: t)) u toks buf input = inl e → fault (tag c t input) e.
Proof.
  induction n as [|n IH]; intros [|d input] Hn; cbn in Hn; try lia; (split; [intros u toks buf e|intros c t u toks buf e Hc]).
  all: try by intros [= <-]; by apply fault_unended.
  all: try done.
  - destruct (IH input ltac:(lia)) as [IHn _]. cbn [tokenize_from]. destruct (N.eqb_spec d open) as [->|Ho].
    + destruct input as [|c input]; [intros [= <-]; apply fault_alone|]. cbn in Hn.
      destruct (N.eqb_spec c open) as [->|Hc]; intros He.
      * apply (fault_after_char open). by eapply (IH input ltac:(lia)).
      * by eapply (proj2 (IH input ltac:(lia)) c []).
    + destruct (N.eqb_spec d close) as [->|Hd].
      * destruct input as [|c input]; [intros [= <-]; by apply fault_close|]. cbn in Hn.
        destruct (c =? close) eqn:Hc; intros He; [|injection He as <-; by apply fault_close].
        apply N.eqb_eq in Hc as ->. apply (fault_after_char close). by eapply (IH input ltac:(lia)).
      * intros He. apply IHn in He. apply (fault_after_char d) in He. unfold escape_char in He.
        by rewrite (proj2 (N.eqb_neq d open) Ho), (proj2 (N.eqb_neq d close) Hd) in He.
  - assert (∀ b rest, (length rest ≤ n)%nat → tokenize_from (Some ((c :: t) ++ [b])) u toks buf rest = inl e →
      fault (tag c t (escape_char b ++ rest)) e) as Hmore.
    { intros b rest Hl He. apply (proj2 (IH rest Hl) c (t ++ [b])) in He; [|done]. unfold tag in *.
      by rewrite escape_snoc, <-(assoc_L (++)) in He. }
    destruct (N.eqb_spec d open) as [->|Ho].
    + destruct (decide (head input = Some open)) as [Hi|Hi].
      * destruct input as [|x input]; [done|]. cbn in Hi, Hn. injection Hi as ->. apply (Hmore open). lia.
      * rewrite read_opened by done. intros [= <-]. by apply fault_opened.
    + destruct (N.eqb_spec d close) as [->|Hd].
      * destruct (starts_closed input) eqn:Hi.
        -- destruct input as [|x input]; [done|]. cbn in Hi, Hn. apply N.eqb_eq in Hi as ->. apply (Hmore close). lia.
        -- rewrite read_end by done. destruct (tag_meaning (c :: t)) eqn:Hm; intros He.
           ++ apply fault_after_tag; [done|by rewrite Hm|done|]. eapply (IH input); [lia|exact He].
           ++ injection He as <-. by apply fault_unknown.
      * intros He. specialize (Hmore d input ltac:(lia)). rewrite <-read_in_tag_char in Hmore.
        assert (escape_char d = [d]) as Hd1.
        { unfold escape_char. by rewrite (proj2 (N.eqb_neq d open) Ho), (proj2 (N.eqb_neq d close) Hd). }
        rewrite Hd1 in Hmore. by apply Hmore.
Qed.

(** C40: an error presses nothing, and says what is wrong. [eval] fails exactly on the
    texts that have a fault, with the error of the first: a tag that does not end, a
    single opening brace in a tag, a tag of unknown name, with that name, or a single
    closing brace. It then simulates no key, not even those before the fault. A
    closing brace right after the end of a tag doubles it, so that the fault is one of
    the tag: what the braces mean is what [fault] says, whatever stands before and
    after. *)
Theorem eval_error input e : eval input = inl e ↔ fault input e.
Proof.
  transitivity (tokenize input = inl e).
  - unfold eval. by destruct (tokenize input); split; intros [= ->].
  - split; [|intros Hf; by apply fault_fails]. by apply (fails_fault (length input)).
Qed.
(** What the grammar says of the tests of the source, and of a brace after a tag. *)
Example fault_examples :
  fault (lit "{hello{}world}") UnexpectedOpen ∧ fault (lit "{+CTRL}a{CTRL}x") (UnknownTag (lit "CTRL"))
  ∧ fault (lit "{+SHIFT}}") UnmatchedOpen ∧ fault (lit "a}b") UnmatchedClose.
Proof.
  split_and!.
  - by apply (fault_opened 104 (lit "ello")).
  - apply (fault_after_tag 43 (lit "CTRL")); [done|by eexists|done|]. apply (fault_after_char 97).
    by apply (fault_unknown 67 (lit "TRL")).
  - by apply (fault_unended 43 (lit "SHIFT}")).
  - apply (fault_after_char 97). by apply fault_close.
Qed.
