(* ===== verification/RemoteInput.v ===== *)
(** * The keys and buttons a viewer presses

    Keyboard and mouse of a session on X11: the handler of a key message in [conn], the
    thread that carries input out ([handle_input]), [src/src/server/input_service.rs]
    with its record of held keys, and the X11 half of [src/libs/enigo/src/linux/nix_impl.rs].
    The libraries below ([tfc], [libxdo], [rdev]) are the class [X11], and what is relied on
    of them the class [X11Laws]. *)
From S2P Require Import Prelude.
From stdpp Require Import gmap.
Local Open Scope Z_scope.

(** ** Keys *)
(** [enigo::Key], as far as [KEY_MAP] and characters need it. *)
Inductive Key :=
| KAlt | KBackspace | KCapsLock | KControl | KDelete | KDownArrow | KEnd | KEscape | KF1 | KF10 | KF11 | KF12 | KF2 | KF3
| KF4 | KF5 | KF6 | KF7 | KF8 | KF9 | KHome | KLeftArrow | KMeta | KOption | KPageDown | KPageUp | KReturn | KRightArrow
| KShift | KSpace | KTab | KUpArrow | KNumpad0 | KNumpad1 | KNumpad2 | KNumpad3 | KNumpad4 | KNumpad5 | KNumpad6 | KNumpad7
| KNumpad8 | KNumpad9 | KCancel | KClear | KPause | KKana | KHangul | KJunja | KFinal | KHanja | KKanji | KConvert | KSelect
| KPrint | KExecute | KSnapshot | KInsert | KHelp | KSleep | KSeparator | KScroll | KNumLock | KRWin | KApps | KMultiply
| KAdd | KSubtract | KDecimal | KDivide | KEquals | KNumpadEnter | KRightAlt | KRightControl | KRightShift
| KLayout (c : char).
(** By the values of [ControlKey]. *)
Definition KEY_MAP : gmap Z Key := list_to_map
  [(1, KAlt); (2, KBackspace); (3, KCapsLock); (4, KControl); (5, KDelete); (6, KDownArrow); (7, KEnd); (8, KEscape); (9, KF1);
   (10, KF10); (11, KF11); (12, KF12); (13, KF2); (14, KF3); (15, KF4); (16, KF5); (17, KF6); (18, KF7); (19, KF8); (20, KF9);
   (21, KHome); (22, KLeftArrow); (23, KMeta); (24, KOption); (25, KPageDown); (26, KPageUp); (27, KReturn); (28, KRightArrow);
   (29, KShift); (30, KSpace); (31, KTab); (32, KUpArrow); (33, KNumpad0); (34, KNumpad1); (35, KNumpad2); (36, KNumpad3);
   (37, KNumpad4); (38, KNumpad5); (39, KNumpad6); (40, KNumpad7); (41, KNumpad8); (42, KNumpad9); (43, KCancel); (44, KClear);
   (45, KAlt); (46, KPause); (47, KKana); (48, KHangul); (49, KJunja); (50, KFinal); (51, KHanja); (52, KKanji); (53, KConvert);
   (54, KSelect); (55, KPrint); (56, KExecute); (57, KSnapshot); (58, KInsert); (59, KHelp); (60, KSleep); (61, KSeparator);
   (62, KScroll); (63, KNumLock); (64, KRWin); (65, KApps); (66, KMultiply); (67, KAdd); (68, KSubtract); (69, KDecimal);
   (70, KDivide); (71, KEquals); (72, KNumpadEnter); (75, KRightAlt); (74, KRightControl); (73, KRightShift)].
Definition ck_Alt : Z := 1.
Definition ck_CapsLock : Z := 3.
Definition ck_Control : Z := 4.
Definition ck_Meta : Z := 23.
Definition ck_Shift : Z := 29.
Definition ck_NumLock : Z := 63.
Definition ck_RWin : Z := 64.
Definition ck_RShift : Z := 73.
Definition ck_RControl : Z := 74.
Definition ck_RAlt : Z := 75.
Definition ck_CtrlAltDel : Z := 100.
Definition ck_LockScreen : Z := 101.
Definition modifier_values : list Z := [ck_Alt; ck_Shift; ck_Control; ck_Meta; ck_RAlt; ck_RShift; ck_RControl; ck_RWin].
Definition control_key_value_to_key (value : Z) : option Key := KEY_MAP !! value.
(** [char::from_u32]. *)
Definition char_from_u32 (v : Z) : option char :=
  if (0 <=? v) && (v <? 55296) || (57344 <=? v) && (v <=? 1114111) then Some (Z.to_N v) else None.
Definition char_value_to_key (value : Z) : Key := KLayout (default 0%N (char_from_u32 value)).

(** [rdev::Key], as far as the program tells keys apart. *)
Inductive RdevKey :=
| ShiftLeft | ShiftRight | ControlLeft | ControlRight | MetaLeft | MetaRight | RAlt | AltGr | RTab | RReturn
| Kp0 | Kp1 | Kp2 | Kp3 | Kp4 | Kp5 | Kp6 | Kp7 | Kp8 | Kp9 | KpMinus | KpMultiply | KpDivide | KpPlus | KpDecimal
| RawKey (code : Z)
| OtherKey (n : Z).
#[export] Instance RdevKey_eq : EqDecision RdevKey.
Proof. solve_decision. Defined.
(** [keyboard::is_modifier]. *)
Definition is_modifier_key (k : RdevKey) : bool :=
  bool_decide (k ∈ [ShiftLeft; ShiftRight; ControlLeft; ControlRight; MetaLeft; MetaRight; RAlt; AltGr]).
Definition is_numpad_rdev_key (k : RdevKey) : bool :=
  bool_decide (k ∈ [Kp0; Kp1; Kp2; Kp3; Kp4; Kp5; Kp6; Kp7; Kp8; Kp9; KpMinus; KpMultiply; KpDivide; KpPlus; KpDecimal]).
Definition skip_led_sync_rdev_key (k : RdevKey) : bool :=
  bool_decide (k ∈ [ControlLeft; ControlRight; MetaLeft; MetaRight; ShiftLeft; ShiftRight; RAlt; AltGr; RTab; RReturn]).

(** ** Messages *)
Inductive KeyUnion := ControlKey (v : Z) | Chr (v : Z) | Unicode (v : Z) | Seq (s : str) | Win2winHotkey (v : Z).
(** Enumerations arrive as numbers; 0 is the mode [Legacy], 1 [Map], 2 [Translate]. *)
Record KeyEvent := mk_key_event { down : bool; press : bool; event_union : option KeyUnion; modifiers : list Z; mode : Z }.
#[export] Instance key_event_eta : Eta KeyEvent := λ r, mk_key_event (down r) (press r) (event_union r) (modifiers r) (mode r).
Inductive KeyboardMode := Legacy | Map | Translate | Auto.
Definition mode_value (m : Z) : option KeyboardMode :=
  match m with 0 => Some Legacy | 1 => Some Map | 2 => Some Translate | 3 => Some Auto | _ => None end.
Definition is_legacy_mode (e : KeyEvent) : bool :=
  match default Legacy (mode_value (mode e)) with Legacy => true | _ => false end.
(** [KeyEvent::chr] gives 0 for other events. *)
Definition chr_of (e : KeyEvent) : Z := match event_union e with Some (Chr v) => v | _ => 0 end.
(** [crate::is_modifier]. *)
Definition is_modifier_event (e : KeyEvent) : bool :=
  match event_union e with Some (ControlKey v) => bool_decide (v ∈ modifier_values) | _ => false end.
Definition get_control_key_value (e : KeyEvent) : Z := match event_union e with Some (ControlKey v) => v | _ => -1 end.
Definition is_modifier_enabled (e : KeyEvent) (v : Z) : bool := bool_decide (v ∈ modifiers e).
Definition skip_led_sync_control_key (v : Z) : bool :=
  bool_decide (v ∈ [ck_Control; ck_RControl; ck_Meta; ck_Shift; ck_RShift; ck_Alt; ck_RAlt; 31; 26]).
Definition is_numpad_control_key (v : Z) : bool := bool_decide (v ∈ [33; 34; 35; 36; 37; 38; 39; 40; 41; 42; 72]).
Definition is_function_key (v : Z) : bool := (v =? ck_CtrlAltDel) || (v =? ck_LockScreen).

Record MouseEvent := mk_mouse_event { mask : Z; mx : Z; my : Z; mouse_modifiers : list Z }.
Inductive MouseButton := LeftButton | MiddleButton | RightButton | BackButton | ForwardButton.

(** ** The libraries *)
Inductive mouse_op :=
| MoveTo (x y : Z) | MoveRelative (x y : Z) | ButtonDown (b : MouseButton) | ButtonUp (b : MouseButton) | ScrollX (n : Z) | ScrollY (n : Z).
(** [D] is the display. [tfc_down], [tfc_up] and [tfc_click] stand for the functions on
    keys and on characters, and answer whether they succeeded; [xdo_state] is the mask of
    the modifiers; [rdev_simulate true] presses. *)
Class X11 (D : Type) := {
  has_tfc : bool;
  tfc_down : Key → D → D * bool;
  tfc_up : Key → D → D * bool;
  tfc_click : Key → D → D * bool;
  xdo_down : Key → D → D;
  xdo_up : Key → D → D;
  xdo_text : str → D → D;
  xdo_state : D → Z;
  xdo_mouse : mouse_op → D → D;
  rdev_simulate : bool → RdevKey → D → D;
  linux_key_from_code : Z → RdevKey;
  get_cursor_pos : D → option (Z * Z)
}.

(** What is recorded as held: a code pressed through [rdev], or a key of [enigo] by a number. *)
Inductive KeysDown := RdevKeyDown (code : Z) | EnigoKey (k : Z).
#[export] Instance KeysDown_eq : EqDecision KeysDown.
Proof. solve_decision. Defined.
#[export] Instance KeysDown_countable : Countable KeysDown.
Proof.
  refine (inj_countable' (λ k, match k with RdevKeyDown c => inl c | EnigoKey c => inr c end)
    (λ k, match k with inl c => RdevKeyDown c | inr c => EnigoKey c end) _); by intros [].
Defined.

(** When each key was pressed, in milliseconds. *)
Abbreviation held_record := (gmap KeysDown Z).

Section ops.
Context {D : Type} `{X : X11 D}.
Implicit Types (d : D) (k : Key).

(** ** [Enigo] on X11 *)
(** Whether [convert_to_tfc_key] has a key, or the key is a character. *)
Definition tfc_knows k : bool :=
  match k with
  | KOption | KCancel | KKana | KHangul | KJunja | KFinal | KHanja | KKanji | KConvert | KSelect | KExecute | KHelp | KSleep
  | KSeparator => false
  | _ => true
  end.
Definition tfc_key_click k d : D * bool := if has_tfc && tfc_knows k then tfc_click k d else (d, false).
Definition tfc_key_down_or_up k (down up : bool) d : D * bool :=
  if has_tfc && tfc_knows k then
    match (if down then tfc_down k d else (d, true)) with
    | (d, true) => if up then tfc_up k d else (d, true)
    | (d, false) => (d, false)
    end
  else (d, false).
(** The name of a key ([keysequence]) holds no zero, so [xdo.key_down] returns [Ok]. *)
Definition key_down k d : D * bool :=
  match tfc_key_down_or_up k true false d with (d, true) => (d, true) | (d, false) => (xdo_down k d, true) end.
Definition key_up k d : D :=
  match tfc_key_down_or_up k false true d with (d, true) => d | (d, false) => xdo_up k d end.
Definition key_click k d : D :=
  match tfc_key_click k d with (d, true) => d | (d, false) => key_up k (key_down k d).1 end.
Definition get_key_state k d : bool :=
  match k with
  | KShift => Z.testbit (xdo_state d) 0
  | KCapsLock => Z.testbit (xdo_state d) 1
  | KControl => Z.testbit (xdo_state d) 2
  | KAlt => Z.testbit (xdo_state d) 3
  | KNumLock => Z.testbit (xdo_state d) 4
  | KMeta => Z.testbit (xdo_state d) 6
  | _ => false
  end.

(** ** Modifiers *)
Definition get_modifier_state k d : bool :=
  let x := get_key_state k d in
  match k with
  | KShift => x || get_key_state KRightShift d
  | KControl => x || get_key_state KRightControl d
  | KAlt => x || get_key_state KRightAlt d
  | KMeta => x || get_key_state KRWin d
  | KRightShift => x || get_key_state KShift d
  | KRightControl => x || get_key_state KControl d
  | KRightAlt => x || get_key_state KAlt d
  | KRWin => x || get_key_state KMeta d
  | _ => x
  end.
Definition fix_modifier (mods : list Z) (key0 : Z) (key1 : Key) d : D :=
  if get_modifier_state key1 d && negb (bool_decide (key0 ∈ mods)) then key_up key1 d else d.
(** The event's key that is spared, the modifier asked for, the key released. *)
Definition fix_table : list (Z * Z * Key) :=
  [(ck_Shift, ck_Shift, KShift); (ck_RShift, ck_Shift, KRightShift); (ck_Alt, ck_Alt, KAlt); (ck_RAlt, ck_Alt, KRightAlt);
   (ck_Control, ck_Control, KControl); (ck_RControl, ck_Control, KRightControl); (ck_Meta, ck_Meta, KMeta);
   (ck_RWin, ck_Meta, KRWin)].
Definition fix_modifiers (mods : list Z) (ck : Z) d : D :=
  foldl (λ d '(spared, key0, key1), if ck =? spared then d else fix_modifier mods key0 key1 d) d fix_table.
Definition release_keys (to_release : list Key) d : D := foldl (λ d k, key_up k d) d to_release.
Definition is_hotkey_modifier_pressed d : bool :=
  get_modifier_state KControl d || get_modifier_state KRightControl d || get_modifier_state KAlt d
  || get_modifier_state KRightAlt d || get_modifier_state KMeta d || get_modifier_state KRWin d.
Definition release_shift_for_char_input d : D :=
  if is_hotkey_modifier_pressed d then d
  else
    let d := if get_modifier_state KShift d then rdev_simulate false ShiftLeft d else d in
    if get_modifier_state KRightShift d then rdev_simulate false ShiftRight d else d.

(** ** The record of held keys *)
Definition KEY_CHAR_START : Z := 9999.
Definition record_key_to_key (record_key : Z) : option Key :=
  if record_key <? KEY_CHAR_START then control_key_value_to_key record_key
  else Some (char_value_to_key (Int.wrap_u32 (record_key - KEY_CHAR_START))).
Definition record_pressed_key (record_key : KeysDown) (down : bool) (now : Z) (kd : held_record) : held_record :=
  if down then <[record_key := now]> kd else delete record_key kd.
Definition release_record_key (record_key : KeysDown) d : D :=
  match record_key with
  | RdevKeyDown code => rdev_simulate false (RawKey code) d
  | EnigoKey key => match record_key_to_key key with Some k => key_up k d | None => d end
  end.
Definition KEY_DOWN_TIMEOUT : Z := 360000.
(** The keys [fix_key_down_timeout] releases. *)
Definition timed_out (force : bool) (now : Z) (kd : held_record) : list KeysDown :=
  (filter (λ kt, force = true ∨ KEY_DOWN_TIMEOUT <= now - kt.2) (map_to_list kd)).*1.
(** It asks the record of [rdev] keys, by the value of the control key. *)
Definition is_altgr_pressed (kd : held_record) : bool := bool_decide (is_Some (kd !! RdevKeyDown ck_RAlt)).
Definition press_modifiers (mods : list Z) (kd : held_record) d : D * list Key :=
  foldl (λ '(d, to_release) ck,
    match control_key_value_to_key ck with
    | Some k =>
        if get_modifier_state k d then (d, to_release)
        else if (match k with KAlt => true | _ => false end) && is_altgr_pressed kd then (d, to_release)
        else ((key_down k d).1, to_release ++ [k])
    | None => (d, to_release)
    end) (d, []) mods.
Definition sync_modifiers (e : KeyEvent) (kd : held_record) d : D * list Key :=
  if down e then press_modifiers (modifiers e) kd (fix_modifiers (modifiers e) (get_control_key_value e) d) else (d, []).

(** ** Events of keys *)
(** What the handlers share: the display, the record and whether the process is exiting. *)
Record input := mk_input { dev : D; keys_down : held_record; exiting : bool }.
#[global] Instance input_eta : Eta input := λ r, mk_input (dev r) (keys_down r) (exiting r).

Definition process_control_key (v : Z) (down : bool) d : D :=
  match control_key_value_to_key v with
  | Some k => if down then (key_down k d).1 else key_up k d
  | None => d
  end.
Definition need_to_uppercase d : bool := get_modifier_state KShift d || get_modifier_state KCapsLock d.
(** [str::to_uppercase]. *)
Context (to_uppercase : str → str).
Definition process_chr (v : Z) (down : bool) d : D :=
  let key := char_value_to_key v in
  if down then
    match key_down key d with
    | (d, true) => d
    | (d, false) =>
        match char_from_u32 v with
        | Some c => xdo_text (if need_to_uppercase d then to_uppercase [c] else [c]) d
        | None => d
        end
    end
  else key_up key d.
Definition process_unicode (v : Z) d : D := match char_from_u32 v with Some c => xdo_text [c] d | None => d end.
(** [legacy_keyboard_mode], which holds the lock of [Enigo] throughout. *)
Definition legacy_keyboard_mode (e : KeyEvent) (now : Z) (s : input) : input :=
  let '(d, to_release) := sync_modifiers e (keys_down s) (dev s) in
  match event_union e with
  | Some (ControlKey v) =>
      if is_function_key v then s <| dev := d |>
      else
        let s := s <| keys_down ::= record_pressed_key (EnigoKey (Int.wrap_u64 v)) (down e) now |> in
        s <| dev := release_keys to_release (process_control_key v (down e) d) |>
  | Some (Chr v) =>
      let d := release_shift_for_char_input d in
      let s := s <| keys_down ::= record_pressed_key (EnigoKey (v + KEY_CHAR_START)) (down e) now |> in
      s <| dev := release_keys to_release (process_chr v (down e) d) |>
  | Some (Unicode v) => s <| dev := release_keys to_release (process_unicode v (release_shift_for_char_input d)) |>
  | Some (Seq text) => s <| dev := release_keys to_release (xdo_text text d) |>
  | _ => s <| dev := release_keys to_release d |>
  end.
(** [translate_keyboard_mode] of a text. *)
Definition translate_seq (text : str) d : D :=
  foldl (λ d c, key_click (KLayout c) d) (release_shift_for_char_input d) text.

(** [LockModesHandler]: what was changed, and undoing it. *)
Definition lock_modes_new (e : KeyEvent) (is_numpad_key : bool) d : D * (bool * bool) :=
  let caps_lock_changed := negb (eqb (is_modifier_enabled e ck_CapsLock) (get_key_state KCapsLock d)) in
  let d := if caps_lock_changed then key_click KCapsLock d else d in
  let num_lock_changed := is_numpad_key && negb (eqb (get_key_state KNumLock d) (is_modifier_enabled e ck_NumLock)) in
  let d := if num_lock_changed then key_click KNumLock d else d in
  (d, (caps_lock_changed, num_lock_changed)).
Definition lock_modes_drop (changed : bool * bool) d : D :=
  let d := if changed.1 then key_click KCapsLock d else d in
  if changed.2 then key_click KNumLock d else d.
(** Whether [handle_key_] makes one, and for a key of the number pad. *)
Definition lock_modes_for (e : KeyEvent) : option bool :=
  match event_union e with
  | Some (Unicode _) | Some (Seq _) => Some false
  | Some (ControlKey v) => if skip_led_sync_control_key v then None else Some (is_numpad_control_key v)
  | Some (Chr code) =>
      if is_legacy_mode e then Some false
      else let key := linux_key_from_code code in if skip_led_sync_rdev_key key then None else Some (is_numpad_rdev_key key)
  | _ => None
  end.

(** A step of a thread: each takes a lock once. [MHandle] is [handle_key_] up to its
    [match] on the mode, and [MUnlock] the end of its [LockModesHandler]; [MRecord] and
    [MSimulate] are the halves of [sim_rdev_rawkey_position]; [MRelease] is
    [release_record_key]. *)
Inductive micro :=
| MHandle (e : KeyEvent)
| MLegacy (e : KeyEvent)
| MRecord (k : KeysDown) (down : bool)
| MSimulate (down : bool) (code : Z)
| MSeq (text : str)
| MUnlock (changed : bool * bool)
| MRelease (k : KeysDown).
Definition sim_rdev_rawkey_position (code : Z) (down : bool) : list micro :=
  [MRecord (RdevKeyDown code) down; MSimulate down code].
Definition handle_body (e : KeyEvent) : list micro :=
  match mode_value (mode e) with
  | Some Map => sim_rdev_rawkey_position (chr_of e) (down e)
  | Some Translate =>
      match event_union e with
      | Some (Seq text) => [MSeq text]
      | Some (Chr v) => sim_rdev_rawkey_position v (down e)
      | _ => []
      end
  | _ => [MLegacy e]
  end.
(** A step, with what it makes the thread do next. *)
Definition exec (m : micro) (now : Z) (s : input) : input * list micro :=
  match m with
  | MHandle e =>
      if exiting s then (s, [])
      else
        match lock_modes_for e with
        | Some is_numpad_key =>
            let '(d, changed) := lock_modes_new e is_numpad_key (dev s) in
            (s <| dev := d |>, handle_body e ++ [MUnlock changed])
        | None => (s, handle_body e)
        end
  | MLegacy e => (legacy_keyboard_mode e now s, [])
  | MRecord k down => (s <| keys_down ::= record_pressed_key k down now |>, [])
  | MSimulate down code => (s <| dev ::= rdev_simulate down (RawKey code) |>, [])
  | MSeq text => (s <| dev ::= translate_seq text |>, [])
  | MUnlock changed => (s <| dev ::= lock_modes_drop changed |>, [])
  | MRelease k => (s <| dev ::= release_record_key k |>, [])
  end.
(** [handle_key_] with nothing in between. *)
Definition handle_key_ (e : KeyEvent) (now : Z) (s : input) : input :=
  let '(s, next) := exec (MHandle e) now s in foldl (λ s m, (exec m now s).1) s next.

(** ** The connection *)
Record conn_input := mk_conn_input {
  keyboard : bool; disable_keyboard : bool; view_camera : bool; pressed_modifiers : list RdevKey }.
#[global] Instance conn_input_eta : Eta conn_input := λ r,
  mk_conn_input (keyboard r) (disable_keyboard r) (view_camera r) (pressed_modifiers r).
Definition peer_keyboard_enabled (c : conn_input) : bool := keyboard c && negb (disable_keyboard c).
(** The modifier an event of the modes [Map] and [Translate] is about. *)
Definition event_modifier (e : KeyEvent) : option RdevKey :=
  let key :=
    match mode_value (mode e) with
    | Some Map => Some (linux_key_from_code (chr_of e))
    | Some Translate =>
        match event_union e with Some (Chr code) => Some (linux_key_from_code (Z.land code 65535)) | _ => None end
    | _ => None
    end in
  match key with Some k => if is_modifier_key k then Some k else None | None => None end.
(** As on Linux, where a key that goes down is pressed and released. *)
Definition is_press (e : KeyEvent) : bool :=
  (press e || down e) && negb (is_modifier_event e || bool_decide (is_Some (event_modifier e))).
(** What the connection sends to its input thread: an event, and whether to press and
    release. *)
Definition on_key_event (e : KeyEvent) (c : conn_input) : conn_input * option (KeyEvent * bool) :=
  if view_camera c then (c, None)
  else if peer_keyboard_enabled c then
    let c :=
      match event_modifier e with
      | Some key =>
          c <| pressed_modifiers ::= λ l, if is_press e then key :: filter (λ k : RdevKey, k ≠ key) l else filter (λ k : RdevKey, k ≠ key) l |>
      | None => c
      end in
    (c, Some (e, is_press e && match event_union e with Some (Unicode _) | Some (Seq _) => false | _ => true end))
  else (c, None).
(** [release_pressed_modifiers], when a connection is dropped. *)
Definition release_pressed_modifiers (c : conn_input) d : conn_input * D :=
  (c <| pressed_modifiers := [] |>, foldl (λ d (k : RdevKey), rdev_simulate false k d) d (pressed_modifiers c)).
(** [MessageInput::Key] in [handle_input]. *)
Definition input_key (msg : KeyEvent * bool) : list micro :=
  let e := msg.1 <| press := false |> in
  if msg.2 then [MHandle (e <| down := true |>); MHandle (e <| down := false |>)] else [MHandle e].

(** ** The mouse *)
Definition MOUSE_TYPE_MASK : Z := 7.
Definition MAX_RELATIVE_MOUSE_DELTA : Z := 10000.
Definition mouse_button (buttons : Z) : option MouseButton :=
  match buttons with
  | 1 => Some LeftButton | 2 => Some RightButton | 4 => Some MiddleButton | 8 => Some BackButton | 16 => Some ForwardButton
  | _ => None
  end.
(** [LATEST_PEER_INPUT_CURSOR] without its time, and [RELATIVE_MOUSE_CONNS]. *)
Record pointer := mk_pointer { latest : option (Z * (Z * Z)); relative_conns : gset Z }.
#[global] Instance pointer_eta : Eta pointer := λ r, mk_pointer (latest r) (relative_conns r).
Definition set_relative_mouse_active (conn : Z) (active : bool) (p : pointer) : pointer :=
  p <| relative_conns ::= λ s, if active then {[conn]} ∪ s else s ∖ {[conn]} |>.
Definition press_mouse_modifiers (mods : list Z) d : D * list Key :=
  foldl (λ '(d, to_release) ck,
    match control_key_value_to_key ck with
    | Some k =>
        if (match k with KCapsLock | KNumLock => true | _ => false end) || get_modifier_state k d then (d, to_release)
        else ((key_down k d).1, to_release ++ [k])
    | None => (d, to_release)
    end) (d, []) mods.
(** [handle_mouse_simulation_]; a mask is an [i32], so its shift keeps the sign. *)
Definition handle_mouse_simulation_ (e : MouseEvent) (conn : Z) (exiting : bool) (p : pointer) d : pointer * D :=
  if exiting then (p, d)
  else
    let buttons := Z.shiftr (mask e) 3 in
    let evt_type := Z.land (mask e) MOUSE_TYPE_MASK in
    let '(d, to_release) :=
      if evt_type =? 1 then press_mouse_modifiers (mouse_modifiers e) (fix_modifiers (mouse_modifiers e) 0 d) else (d, []) in
    let '(p, d) :=
      match evt_type with
      | 0 => ((set_relative_mouse_active conn false p) <| latest := Some (conn, (mx e, my e)) |>, xdo_mouse (MoveTo (mx e) (my e)) d)
      | 5 =>
          let delta := Int.clamp (- MAX_RELATIVE_MOUSE_DELTA) MAX_RELATIVE_MOUSE_DELTA in
          let d := xdo_mouse (MoveRelative (delta (mx e)) (delta (my e))) d in
          let p := set_relative_mouse_active conn true p in
          (match get_cursor_pos d with Some pos => p <| latest := Some (conn, pos) |> | None => p end, d)
      | 1 => (p, match mouse_button buttons with Some b => xdo_mouse (ButtonDown b) d | None => d end)
      | 2 => (p, match mouse_button buttons with Some b => xdo_mouse (ButtonUp b) d | None => d end)
      | 3 | 4 =>
          let x := Int.wrap_i32 (- mx e) in
          let y := Int.wrap_i32 (- my e) in
          let d := if negb (y =? 0) then xdo_mouse (ScrollY y) d else d in
          (p, if negb (x =? 0) then xdo_mouse (ScrollX x) d else d)
      | _ => (p, d)
      end in
    (p, release_keys to_release d).

(** ** Threads together *)
(** Connections' input threads and the threads that release forgotten keys, each with
    the steps it has still to make. *)
Record world := mk_world { inp : input; threads : gmap Z (list micro) }.
#[global] Instance world_eta : Eta world := λ r, mk_world (inp r) (threads r).
Inductive event :=
| Message (conn : Z) (c : conn_input) (e : KeyEvent)   (* a connection handles a message *)
| Fix (thread : Z) (force : bool) (now : Z)            (* [fix_key_down_timeout] looks at the record *)
| Run (thread : Z) (now : Z)                           (* a step of a thread *)
| Exit.
Definition add_steps (t : Z) (ms : list micro) (w : world) : world :=
  w <| threads ::= λ ts, <[t := default [] (ts !! t) ++ ms]> ts |>.
Definition fix_steps (ks : list KeysDown) : list micro := flat_map (λ k : KeysDown, [MRecord k false; MRelease k]) ks.
Definition wstep (ev : event) (w : world) : world :=
  match ev with
  | Message conn c e => match (on_key_event e c).2 with Some msg => add_steps conn (input_key msg) w | None => w end
  | Fix t force now => add_steps t (fix_steps (timed_out force now (keys_down (inp w)))) w
  | Run t now =>
      match threads w !! t with
      | Some (m :: rest) => let '(s, next) := exec m now (inp w) in mk_world s (<[t := next ++ rest]> (threads w))
      | _ => w
      end
  | Exit => w <| inp ::= λ s, s <| exiting := true |> |>
  end.
Definition wrun (evs : list event) (w : world) : world := foldl (λ w ev, wstep ev w) w evs.
End ops.

#[local] Arguments lock_modes_new : simpl never.
#[local] Arguments lock_modes_drop : simpl never.
#[local] Arguments legacy_keyboard_mode : simpl never.
#[local] Arguments translate_seq : simpl never.
#[local] Arguments record_pressed_key : simpl never.
#[local] Arguments get_key_state : simpl never.

(** ** What is relied on *)
(** A modifier has a left key and a right one, and one bit in the mask. *)
Inductive kind := KindShift | KindControl | KindAlt | KindMeta.
#[export] Instance kind_eq : EqDecision kind.
Proof. solve_decision. Defined.
Definition left_key (m : kind) : Key :=
  match m with KindShift => KShift | KindControl => KControl | KindAlt => KAlt | KindMeta => KMeta end.
Definition right_key (m : kind) : Key :=
  match m with KindShift => KRightShift | KindControl => KRightControl | KindAlt => KRightAlt | KindMeta => KRWin end.
Definition kind_bit (m : kind) : Z := match m with KindShift => 0 | KindControl => 2 | KindAlt => 3 | KindMeta => 6 end.
Inductive lock := CapsLock | NumLock.
Definition lock_key (l : lock) : Key := match l with CapsLock => KCapsLock | NumLock => KNumLock end.
Definition lock_bit (l : lock) : Z := match l with CapsLock => 1 | NumLock => 4 end.
Definition is_layout (k : Key) : bool := match k with KLayout _ => true | _ => false end.
Definition valid_code (c : Z) : bool := (8 <=? c) && (c <=? 255).

(** [held] are the codes of the keys that are down, [codes] those of a key of [enigo]. A
    library presses the codes of a key or fails and presses none; texts and clicks leave
    nothing down; [rdev] refuses codes X11 has not. The mask has a bit set while a key of
    the modifier is down, whose codes no other named key has. A lock changes when its key
    goes down. *)
Class X11Laws (D : Type) `{X11 D} := {
  held : D → gset Z;
  codes : Key → gset Z;
  led (l : lock) (d : D) : bool := Z.testbit (xdo_state d) (lock_bit l);
  kind_codes (m : kind) : gset Z := codes (left_key m) ∪ codes (right_key m);
  tfc_down_held k d : held (tfc_down k d).1 = if (tfc_down k d).2 then held d ∪ codes k else held d;
  tfc_up_held k d : held (tfc_up k d).1 = if (tfc_up k d).2 then held d ∖ codes k else held d;
  tfc_click_held k d : held (tfc_click k d).1 ⊆ held d;
  xdo_down_held k d : held (xdo_down k d) = held d ∪ codes k;
  xdo_up_held k d : held (xdo_up k d) = held d ∖ codes k;
  xdo_text_held t d : held (xdo_text t d) ⊆ held d;
  xdo_mouse_held o d : held (xdo_mouse o d) = held d;
  rdev_press_held c d : held (rdev_simulate true (RawKey c) d) = if valid_code c then held d ∪ {[c]} else held d;
  rdev_release_held k d : held (rdev_simulate false k d) ⊆ held d;
  rdev_release_raw c d : valid_code c = true → c ∉ held (rdev_simulate false (RawKey c) d);
  mask_kind m d : Z.testbit (xdo_state d) (kind_bit m) = bool_decide (held d ∩ kind_codes m ≠ ∅);
  kind_left m : codes (left_key m) ≠ ∅;
  kind_right m : codes (right_key m) ≠ ∅;
  kind_own m k : is_layout k = false → k ≠ left_key m → k ≠ right_key m → codes k ## kind_codes m;
  tfc_down_led l k d : k ≠ lock_key l ∨ (tfc_down k d).2 = false → led l (tfc_down k d).1 = led l d;
  tfc_down_lock l d : (tfc_down (lock_key l) d).2 = true → codes (lock_key l) ## held d →
    led l (tfc_down (lock_key l) d).1 = negb (led l d);
  tfc_up_led l k d : led l (tfc_up k d).1 = led l d;
  tfc_click_led l k d : k ≠ lock_key l ∨ (tfc_click k d).2 = false → led l (tfc_click k d).1 = led l d;
  tfc_click_lock l d : (tfc_click (lock_key l) d).2 = true → led l (tfc_click (lock_key l) d).1 = negb (led l d);
  xdo_down_led l k d : k ≠ lock_key l → led l (xdo_down k d) = led l d;
  xdo_down_lock l d : codes (lock_key l) ## held d → led l (xdo_down (lock_key l) d) = negb (led l d);
  xdo_up_led l k d : led l (xdo_up k d) = led l d;
  xdo_text_led l t d : led l (xdo_text t d) = led l d;
  xdo_mouse_led l o d : led l (xdo_mouse o d) = led l d;
  rdev_press_led l c d : c ∉ codes (lock_key l) → led l (rdev_simulate true (RawKey c) d) = led l d;
  rdev_press_invalid l c d : valid_code c = false → led l (rdev_simulate true (RawKey c) d) = led l d;
  rdev_release_led l k d : led l (rdev_simulate false k d) = led l d
}.

Section laws.
Context {D : Type} `{X : X11 D} {XL : X11Laws D} (to_uppercase : str → str).
Implicit Types (d : D) (k : Key) (s : @input D) (w : @world D).

(** *** [Enigo] *)
Lemma key_down_held k d : held (key_down k d).1 = held d ∪ codes k.
Proof.
  unfold key_down, tfc_key_down_or_up. destruct (has_tfc && tfc_knows k); [|apply xdo_down_held].
  pose proof (tfc_down_held k d) as H. destruct (tfc_down k d) as [d1 []]; cbn in *; [done|]. by rewrite xdo_down_held, H.
Qed.
Lemma key_down_ok k d : (key_down k d).2 = true.
Proof. unfold key_down. by destruct (tfc_key_down_or_up k true false d) as [? []]. Qed.
Lemma key_up_held k d : held (key_up k d) = held d ∖ codes k.
Proof.
  unfold key_up, tfc_key_down_or_up. destruct (has_tfc && tfc_knows k); [|apply xdo_up_held].
  pose proof (tfc_up_held k d) as H. destruct (tfc_up k d) as [d1 []]; cbn in *; [done|]. by rewrite xdo_up_held, H.
Qed.
Lemma key_click_held k d : held (key_click k d) ⊆ held d.
Proof.
  unfold key_click, tfc_key_click. destruct (has_tfc && tfc_knows k).
  - pose proof (tfc_click_held k d) as H. destruct (tfc_click k d) as [d1 []]; cbn in *; [done|].
    rewrite key_up_held, key_down_held. set_solver.
  - rewrite key_up_held, key_down_held. set_solver.
Qed.
Lemma key_down_led l k d : k ≠ lock_key l → led l (key_down k d).1 = led l d.
Proof.
  intros Hk. unfold key_down, tfc_key_down_or_up. destruct (has_tfc && tfc_knows k); [|by apply xdo_down_led].
  pose proof (tfc_down_led l k d (or_introl Hk)) as H. destruct (tfc_down k d) as [d1 []]; cbn in *; [done|].
  by rewrite xdo_down_led.
Qed.
Lemma key_up_led l k d : led l (key_up k d) = led l d.
Proof.
  unfold key_up, tfc_key_down_or_up. destruct (has_tfc && tfc_knows k); [|by apply xdo_up_led].
  pose proof (tfc_up_led l k d) as H. destruct (tfc_up k d) as [d1 []]; cbn in *; [done|]. by rewrite xdo_up_led.
Qed.
Lemma key_down_lock l d : codes (lock_key l) ## held d → led l (key_down (lock_key l) d).1 = negb (led l d).
Proof.
  intros Hd. unfold key_down, tfc_key_down_or_up. destruct (has_tfc && tfc_knows (lock_key l)); [|by apply xdo_down_lock].
  pose proof (tfc_down_lock l d) as H1. pose proof (tfc_down_led l (lock_key l) d) as H2.
  pose proof (tfc_down_held (lock_key l) d) as H3. destruct (tfc_down (lock_key l) d) as [d1 []]; cbn in *; [by apply H1|].
  rewrite xdo_down_lock by (by rewrite H3). by rewrite H2 by auto.
Qed.
Lemma key_click_led l k d : k ≠ lock_key l → led l (key_click k d) = led l d.
Proof.
  intros Hk. unfold key_click, tfc_key_click. destruct (has_tfc && tfc_knows k); [|by rewrite key_up_led, key_down_led].
  pose proof (tfc_click_led l k d (or_introl Hk)) as H. destruct (tfc_click k d) as [d1 []]; cbn in *; [done|].
  by rewrite key_up_led, key_down_led.
Qed.
Lemma key_click_lock l d : codes (lock_key l) ## held d → led l (key_click (lock_key l) d) = negb (led l d).
Proof.
  intros Hd. unfold key_click, tfc_key_click.
  destruct (has_tfc && tfc_knows (lock_key l)); [|by rewrite key_up_led, key_down_lock].
  pose proof (tfc_click_lock l d) as H1. pose proof (tfc_click_led l (lock_key l) d) as H2.
  pose proof (tfc_click_held (lock_key l) d) as H3. destruct (tfc_click (lock_key l) d) as [d1 []]; cbn in *; [by apply H1|].
  rewrite key_up_led, key_down_lock by set_solver. by rewrite H2 by auto.
Qed.

(** *** What handlers press *)
Definition all_codes (ks : list Key) : gset Z := ⋃ (codes <$> ks).
Lemma release_keys_held ks d : held (release_keys ks d) = held d ∖ all_codes ks.
Proof.
  revert d. induction ks as [|k ks IH]; intros d; cbn; [set_solver|]. unfold release_keys in *. cbn. rewrite IH, key_up_held.
  unfold all_codes. cbn. set_solver.
Qed.
Lemma release_keys_led l ks d : led l (release_keys ks d) = led l d.
Proof. revert d. induction ks as [|k ks IH]; intros d; [done|]. unfold release_keys in *. cbn. by rewrite IH, key_up_led. Qed.
Lemma fix_modifier_held mods key0 key1 d : held (fix_modifier mods key0 key1 d) ⊆ held d.
Proof. unfold fix_modifier. case_match; [rewrite key_up_held; set_solver|done]. Qed.
Lemma fix_modifiers_held mods ck d : held (fix_modifiers mods ck d) ⊆ held d.
Proof.
  unfold fix_modifiers. generalize fix_table as l. intros l. revert d. induction l as [|[[sp k0] k1] l IH]; intros d; [done|]. cbn.
  etrans; [apply IH|]. destruct (ck =? sp); [done|apply fix_modifier_held].
Qed.
Lemma fix_modifiers_led l mods ck d : led l (fix_modifiers mods ck d) = led l d.
Proof.
  unfold fix_modifiers. generalize fix_table as t. intros t. revert d. induction t as [|[[sp k0] k1] t IH]; intros d; [done|]. cbn.
  rewrite IH. destruct (ck =? sp); [done|]. unfold fix_modifier. case_match; [by rewrite key_up_led|done].
Qed.
(** A loop over modifiers that presses some keys and notes them. *)
Lemma press_fold_held (P : Z → D → list Key → D * list Key) mods d rel :
  (∀ ck d rel, P ck d rel = (d, rel) ∨ ∃ k, P ck d rel = ((key_down k d).1, rel ++ [k])) →
  let r := foldl (λ '(d, rel) ck, P ck d rel) (d, rel) mods in held r.1 ∖ all_codes r.2 ⊆ held d ∖ all_codes rel.
Proof.
  intros HP. revert d rel. induction mods as [|ck mods IH]; intros d rel; [done|]. cbn. 
  destruct (HP ck d rel) as [E|[k E]]; rewrite E; [apply IH|]. etrans; [apply IH|]. rewrite key_down_held. unfold all_codes.
  rewrite fmap_app, union_list_app. cbn. set_solver.
Qed.
Lemma press_modifiers_step kd ck d rel :
  let P := λ ck d rel,
    match control_key_value_to_key ck with
    | Some k =>
        if get_modifier_state k d then (d, rel)
        else if (match k with KAlt => true | _ => false end) && is_altgr_pressed kd then (d, rel)
        else ((key_down k d).1, rel ++ [k])
    | None => (d, rel)
    end in P ck d rel = (d, rel) ∨ ∃ k, P ck d rel = ((key_down k d).1, rel ++ [k]).
Proof.
  cbv zeta beta. destruct (control_key_value_to_key ck) as [k|]; [|by left]. destruct (get_modifier_state k d); [by left|].
  destruct (_ && _); [by left|]. right. by exists k.
Qed.
Lemma sync_modifiers_held e kd d :
  let r := sync_modifiers e kd d in held r.1 ∖ all_codes r.2 ⊆ held d.
Proof.
  unfold sync_modifiers. destruct (down e); [|cbn; set_solver]. cbv zeta.
  pose proof (press_fold_held _ (modifiers e) (fix_modifiers (modifiers e) (get_control_key_value e) d) [] (press_modifiers_step kd)) as H.
  cbv zeta in H. fold (press_modifiers (modifiers e) kd (fix_modifiers (modifiers e) (get_control_key_value e) d)) in H.
  etrans; [exact H|]. etrans; [|apply fix_modifiers_held]. by intros c [Hc _]%elem_of_difference.
Qed.
Lemma release_shift_held d : held (release_shift_for_char_input d) ⊆ held d.
Proof.
  unfold release_shift_for_char_input. destruct (is_hotkey_modifier_pressed d); [done|]. cbv zeta.
  destruct (get_modifier_state KShift d); [pose proof (rdev_release_held ShiftLeft d)|]; case_match; try done.
  - pose proof (rdev_release_held ShiftRight (rdev_simulate false ShiftLeft d)). set_solver.
  - apply rdev_release_held.
Qed.
Lemma release_shift_led l d : led l (release_shift_for_char_input d) = led l d.
Proof.
  unfold release_shift_for_char_input. destruct (is_hotkey_modifier_pressed d); [done|]. cbv zeta.
  destruct (get_modifier_state KShift d); case_match; by rewrite ?rdev_release_led.
Qed.
(** The codes of an event's own key in the mode [Legacy]. *)
Definition event_codes (e : KeyEvent) : gset Z :=
  match event_union e with
  | Some (ControlKey v) => match control_key_value_to_key v with Some k => codes k | None => ∅ end
  | Some (Chr v) => codes (char_value_to_key v)
  | _ => ∅
  end.
(** The numbers an event may carry, and no modifiers with a function key. *)
Definition sane (e : KeyEvent) : Prop :=
  match event_union e with
  | Some (ControlKey v) => 0 <= v < KEY_CHAR_START ∧ (is_function_key v = true → modifiers e = [])
  | Some (Chr v) => 0 <= v <= Int.u32_max
  | _ => True
  end.
Lemma process_chr_held v b d :
  held (process_chr to_uppercase v b d) = if b then held d ∪ codes (char_value_to_key v) else held d ∖ codes (char_value_to_key v).
Proof.
  unfold process_chr. destruct b; [|apply key_up_held]. pose proof (key_down_held (char_value_to_key v) d) as H.
  pose proof (key_down_ok (char_value_to_key v) d) as Hok. destruct (key_down _ d) as [d1 b1]; cbn in *. by subst b1.
Qed.
Lemma legacy_held e now s : sane e →
  let s' := legacy_keyboard_mode to_uppercase e now s in
  held (dev s') ⊆ (if down e then held (dev s) ∪ event_codes e else held (dev s) ∖ event_codes e).
Proof.
  intros Hs. unfold legacy_keyboard_mode. pose proof (sync_modifiers_held e (keys_down s) (dev s)) as Hd.
  destruct (sync_modifiers e (keys_down s) (dev s)) as [d rel] eqn:Hsync. cbn in Hd. unfold sane, event_codes in *.
  assert (down e = false → rel = []) as Hrel.
  { intros Hdn. unfold sync_modifiers in Hsync. rewrite Hdn in Hsync. by injection Hsync. }
  destruct (event_union e) as [[v|v|v|text|v]|]; cbn.
  - destruct Hs as [_ Hfun]. destruct (is_function_key v) eqn:Hf; cbn.
    + specialize (Hfun eq_refl). unfold sync_modifiers in Hsync. rewrite Hfun in Hsync.
      assert (rel = []) as -> by (destruct (down e); injection Hsync; auto). unfold all_codes in Hd. cbn in Hd.
      assert (control_key_value_to_key v = None) as ->.
      { unfold is_function_key in Hf. apply orb_true_iff in Hf as [->%Z.eqb_eq| ->%Z.eqb_eq]; vm_compute; done. }
      destruct (down e); set_solver.
    + rewrite release_keys_held. unfold process_control_key. destruct (control_key_value_to_key v) as [k|].
      * destruct (down e); [rewrite key_down_held|rewrite key_up_held, (Hrel eq_refl)]; [set_solver|].
        rewrite (Hrel eq_refl) in Hd. unfold all_codes in *. cbn in *. set_solver.
      * destruct (down e); set_solver.
  - pose proof (release_shift_held d). rewrite release_keys_held, process_chr_held. destruct (down e); [set_solver|].
    rewrite (Hrel eq_refl) in *. unfold all_codes in *. cbn in *. set_solver.
  - pose proof (release_shift_held d). rewrite release_keys_held. unfold process_unicode.
    destruct (char_from_u32 v) as [c|]; [pose proof (xdo_text_held [c] (release_shift_for_char_input d))|]; destruct (down e); set_solver.
  - rewrite release_keys_held. pose proof (xdo_text_held text d). destruct (down e); set_solver.
  - rewrite release_keys_held. destruct (down e); set_solver.
  - rewrite release_keys_held. destruct (down e); set_solver.
Qed.

(** *** Steps of threads *)
Definition record_codes (k : KeysDown) : gset Z :=
  match k with
  | RdevKeyDown c => if valid_code c then {[c]} else ∅
  | EnigoKey v => match record_key_to_key v with Some k => codes k | None => ∅ end
  end.
(** The codes a step presses and releases; those of an event are of the steps it is made
    of. *)
Definition simple_presses (m : micro) : gset Z :=
  match m with
  | MLegacy e => if down e then event_codes e else ∅
  | MSimulate true c => record_codes (RdevKeyDown c)
  | _ => ∅
  end.
Definition simple_releases (m : micro) : gset Z :=
  match m with
  | MLegacy e => if down e then ∅ else event_codes e
  | MSimulate false c => record_codes (RdevKeyDown c)
  | MRelease k => record_codes k
  | _ => ∅
  end.
Definition steps_of (m : micro) : list micro := match m with MHandle e => handle_body e | _ => [m] end.
Definition presses (c : Z) (m : micro) : Prop := Exists (λ m, c ∈ simple_presses m) (steps_of m).
Definition releases (c : Z) (m : micro) : Prop := Exists (λ m, c ∈ simple_releases m) (steps_of m).
Definition pending (c : Z) (p : list micro) : Prop := Exists (releases c) p.
Definition sane_step (m : micro) : Prop := match m with MHandle e | MLegacy e => sane e | _ => True end.

Lemma lock_modes_new_held e b d : held (lock_modes_new e b d).1 ⊆ held d.
Proof.
  unfold lock_modes_new. cbv zeta. cbn [fst]. repeat case_match; rewrite ?key_click_held; done.
Qed.
Lemma lock_modes_drop_held ch d : held (lock_modes_drop ch d) ⊆ held d.
Proof. unfold lock_modes_drop. repeat case_match; rewrite ?key_click_held; done. Qed.
Lemma translate_seq_held text d : held (translate_seq text d) ⊆ held d.
Proof.
  unfold translate_seq. etrans; [|apply release_shift_held]. generalize (release_shift_for_char_input d) as d1.
  induction text as [|c text IH]; intros d1; [done|]. cbn. etrans; [apply IH|]. apply key_click_held.
Qed.
Lemma rdev_release_raw_held c d : held (rdev_simulate false (RawKey c) d) ⊆ held d ∖ record_codes (RdevKeyDown c).
Proof.
  intros x Hx. apply elem_of_difference. split; [by apply (rdev_release_held (RawKey c))|]. cbn.
  destruct (valid_code c) eqn:Hc; [|set_solver]. intros ->%elem_of_singleton. by apply (rdev_release_raw c d Hc).
Qed.
Lemma release_record_key_held (k : KeysDown) d : held (release_record_key k d) ⊆ held d ∖ record_codes k.
Proof.
  destruct k as [c|v]; [apply rdev_release_raw_held|]. cbn. destruct (record_key_to_key v) as [k|]; [by rewrite key_up_held|set_solver].
Qed.
Lemma exec_held m now s : sane_step m →
  let s' := (exec to_uppercase m now s).1 in
  ∀ c, c ∈ held (dev s') → c ∈ simple_presses m ∨ c ∈ held (dev s) ∧ c ∉ simple_releases m.
Proof.
  intros Hs s' c. subst s'. destruct m as [e|e|k b|[] code|text|ch|k]; cbn.
  - destruct (exiting s); [set_solver|]. destruct (lock_modes_for e) as [b|]; cbn; [|set_solver].
    pose proof (lock_modes_new_held e b (dev s)). destruct (lock_modes_new e b (dev s)) as [d ch]; cbn in *. set_solver.
  - pose proof (legacy_held e now s Hs) as H. cbv zeta in H. destruct (down e); set_solver.
  - set_solver.
  - rewrite rdev_press_held. destruct (valid_code code); set_solver.
  - pose proof (rdev_release_raw_held code (dev s)) as H. cbn in H. set_solver.
  - pose proof (translate_seq_held text (dev s)). set_solver.
  - pose proof (lock_modes_drop_held ch (dev s)). set_solver.
  - pose proof (release_record_key_held k (dev s)) as H. set_solver.
Qed.
Lemma handle_body_simple e m : m ∈ handle_body e → steps_of m = [m].
Proof. unfold handle_body, sim_rdev_rawkey_position. intros H. repeat case_match; set_solver. Qed.
(** What a step leaves to do releases what the step would have. *)
Lemma exec_pending m now s rest c : exiting s = false →
  pending c (m :: rest) → c ∉ simple_releases m → pending c ((exec to_uppercase m now s).2 ++ rest).
Proof.
  intros Hx Hp Hm. unfold pending in *. apply Exists_app. apply Exists_cons in Hp as [Hp|Hp]; [|by right]. left.
  destruct m as [e|e|k b|b code|text|ch|k];
    [|apply Exists_cons in Hp as [Hp|Hp]; [by destruct Hm|by apply Exists_nil in Hp]..].
  assert (∀ l, Exists (releases c) (handle_body e ++ l)) as H.
  { intros l. apply Exists_app. left. unfold releases in Hp. cbn [steps_of] in Hp. rewrite Exists_exists in *.
    destruct Hp as (m & Hin & Hc). exists m. split; [done|]. unfold releases. rewrite (handle_body_simple e m Hin).
    by apply Exists_cons; left. }
  cbn [exec]. rewrite Hx. destruct (lock_modes_for e) as [b|]; [destruct (lock_modes_new e b (dev s)) as [d ch]; by apply H|].
  rewrite <- (app_nil_r (handle_body e)). by apply H.
Qed.
Lemma exec_exiting m now s : exiting (exec to_uppercase m now s).1 = exiting s.
Proof.
  destruct m as [e|e|k b|b code|text|ch|k]; try done; cbn.
  - destruct (exiting s) eqn:Hx; [done|]. destruct (lock_modes_for e) as [b|]; cbn; [|done]. by destruct (lock_modes_new e b (dev s)).
  - unfold legacy_keyboard_mode. destruct (sync_modifiers e (keys_down s) (dev s)) as [d rel].
    destruct (event_union e) as [[v|v|v|text|v]|]; try done. by destruct (is_function_key v).
Qed.

(** *** Nothing stays down but modifiers *)
Definition modifier_code (c : Z) : Prop := (∃ m, c ∈ kind_codes m) ∨ is_modifier_key (linux_key_from_code c) = true.
Fixpoint prog_ok (p : list micro) : Prop :=
  match p with
  | [] => True
  | m :: rest => sane_step m ∧ (∀ c, presses c m → modifier_code c ∨ pending c rest) ∧ prog_ok rest
  end.
Lemma prog_ok_steps l rest :
  (∀ m, m ∈ l → sane_step m ∧ ∀ c, presses c m → modifier_code c ∨ pending c rest) → prog_ok rest → prog_ok (l ++ rest).
Proof.
  intros Hl Hr. induction l as [|m l IH]; [done|]. cbn. destruct (Hl m) as [H1 H2]; [set_solver|].
  split; [done|]. split; [|apply IH; intros m' Hm'; apply Hl; set_solver].
  intros c [Hc|Hc]%H2; [by left|right]. apply Exists_app. by right.
Qed.
Lemma prog_ok_app l rest : prog_ok l → prog_ok rest → prog_ok (l ++ rest).
Proof.
  induction l as [|m l IH]; [done|]. intros (H1 & H2 & H3) Hr. cbn. split; [done|]. split; [|by apply IH].
  intros c [Hc|Hc]%H2; [by left|right]. apply Exists_app. by left.
Qed.
Lemma handle_body_sane e m : sane e → m ∈ handle_body e → sane_step m.
Proof. unfold handle_body, sim_rdev_rawkey_position. intros Hs H. repeat case_match; set_solver. Qed.
Lemma exec_prog_ok m now s rest : prog_ok (m :: rest) → prog_ok ((exec to_uppercase m now s).2 ++ rest).
Proof.
  intros (H1 & H2 & H3). destruct m as [e|e|k b|b code|text|ch|k]; [|exact H3..].
  cbn [exec]. destruct (exiting s); [done|].
  assert (∀ l, (∀ m, m ∈ l → simple_presses m = ∅ ∧ sane_step m ∧ steps_of m = [m]) → prog_ok (handle_body e ++ l ++ rest)) as H.
  { intros l Hl. rewrite app_assoc. apply prog_ok_steps; [|done]. intros m [Hm|Hm]%elem_of_app.
    - split; [by apply (handle_body_sane e)|]. intros c Hc. apply H2. unfold presses in *. cbn [steps_of].
      rewrite (handle_body_simple e m Hm) in Hc. apply Exists_cons in Hc as [Hc|Hc]; [|by apply Exists_nil in Hc].
      apply Exists_exists. by exists m.
    - destruct (Hl m Hm) as (E & Hs & Es). split; [done|]. intros c Hc. unfold presses in Hc. rewrite Es in Hc.
      apply Exists_cons in Hc as [Hc|Hc]; [|by apply Exists_nil in Hc]. rewrite E in Hc. by apply elem_of_empty in Hc. }
  destruct (lock_modes_for e) as [b|].
  - destruct (lock_modes_new e b (dev s)) as [d ch]. cbn [snd]. rewrite <- app_assoc. apply H. by intros m ->%list_elem_of_singleton.
  - cbn [snd]. apply (H []). by intros m ?%elem_of_nil.
Qed.
(** The codes of an event, in its mode. *)
Definition handle_codes (e : KeyEvent) : gset Z :=
  match mode_value (mode e) with
  | Some Map => record_codes (RdevKeyDown (chr_of e))
  | Some Translate => match event_union e with Some (Chr v) => record_codes (RdevKeyDown v) | _ => ∅ end
  | _ => event_codes e
  end.
Lemma presses_handle e c : presses c (MHandle e) ↔ down e = true ∧ c ∈ handle_codes e.
Proof.
  unfold presses, handle_codes. cbn [steps_of]. unfold handle_body, sim_rdev_rawkey_position.
  destruct (mode_value (mode e)) as [[]|]; [| |destruct (event_union e) as [[]|]|..]; rewrite ?Exists_cons, ?Exists_nil;
    cbn [simple_presses]; destruct (down e); rewrite ?elem_of_empty; intuition done.
Qed.
Lemma releases_handle e c : releases c (MHandle e) ↔ down e = false ∧ c ∈ handle_codes e.
Proof.
  unfold releases, handle_codes. cbn [steps_of]. unfold handle_body, sim_rdev_rawkey_position.
  destruct (mode_value (mode e)) as [[]|]; [| |destruct (event_union e) as [[]|]|..]; rewrite ?Exists_cons, ?Exists_nil;
    cbn [simple_releases]; destruct (down e); rewrite ?elem_of_empty; intuition done.
Qed.
Lemma modifier_value_key v : v ∈ modifier_values →
  ∃ m, control_key_value_to_key v = Some (left_key m) ∨ control_key_value_to_key v = Some (right_key m).
Proof.
  intros Hv. repeat (apply elem_of_cons in Hv as [->|Hv]);
    [exists KindAlt; left|exists KindShift; left|exists KindControl; left|exists KindMeta; left
    |exists KindAlt; right|exists KindShift; right|exists KindControl; right|exists KindMeta; right|by apply elem_of_nil in Hv];
    vm_compute; reflexivity.
Qed.
Lemma modifier_value_codes v c : v ∈ modifier_values →
  c ∈ (match control_key_value_to_key v with Some k => codes k | None => ∅ end : gset Z) → modifier_code c.
Proof.
  intros Hv Hc. left. destruct (modifier_value_key v Hv) as [m [E|E]]; rewrite E in Hc; exists m; unfold kind_codes; apply elem_of_union; auto.
Qed.
Lemma record_codes_rdev v c : c ∈ record_codes (RdevKeyDown v) → v = c ∧ Z.land c 65535 = c.
Proof.
  cbn. destruct (valid_code v) eqn:E; [intros ->%elem_of_singleton|intros []%elem_of_empty]. split; [done|].
  unfold valid_code in E. change 65535 with (Z.ones 16). rewrite Z.land_ones by lia. apply Z.mod_small. lia.
Qed.
(** A key that a connection sends down without a press is a modifier. *)
Lemma down_is_modifier e c : down e = true →
  is_press e = false ∨ match event_union e with Some (Unicode _) | Some (Seq _) => True | _ => False end →
  c ∈ handle_codes e → modifier_code c.
Proof.
  intros Hd Hp Hc. unfold is_press in Hp. rewrite Hd, orb_true_r in Hp. cbn [andb] in Hp. rewrite negb_false_iff, orb_true_iff in Hp.
  assert (c ∈ event_codes e → is_modifier_event e = true ∨ match event_union e with Some (Unicode _) | Some (Seq _) => True | _ => False end →
    modifier_code c) as Hleg.
  { unfold event_codes, is_modifier_event. destruct (event_union e) as [[v|v|v|t|v]|]; intros Hc' [H|H]; try done;
      [|by apply elem_of_empty in Hc'..].
    apply bool_decide_eq_true in H. by apply (modifier_value_codes v). }
  unfold event_modifier, handle_codes, chr_of, is_modifier_event in *.
  destruct (mode_value (mode e)) as [[]|];
    [apply Hleg; [done|]; destruct Hp as [[H|H]|H]; [by left|by apply bool_decide_eq_true in H as [? ?]|by right]
    | | |apply Hleg; [done|]; destruct Hp as [[H|H]|H]; [by left|by apply bool_decide_eq_true in H as [? ?]|by right]..].
  - destruct (event_union e) as [[v|v|v|t|v]|]; try (change (c ∈ (∅ : gset Z)) in Hc; by apply elem_of_empty in Hc).
    apply record_codes_rdev in Hc as [-> _]. destruct Hp as [[Hp|Hp]|[]]; [done|]. right.
    destruct (is_modifier_key _); [done|]. by apply bool_decide_eq_true in Hp as [? ?].
  - destruct (event_union e) as [[v|v|v|t|v]|]; try (by apply elem_of_empty in Hc).
    apply record_codes_rdev in Hc as [-> Hland]. rewrite Hland in Hp. destruct Hp as [[Hp|Hp]|[]]; [done|]. right.
    destruct (is_modifier_key _); [done|]. by apply bool_decide_eq_true in Hp as [? ?].
Qed.
Lemma message_prog_ok e c msg : sane e → (on_key_event e c).2 = Some msg → prog_ok (input_key msg).
Proof.
  intros Hs Hm. unfold on_key_event in Hm. destruct (view_camera c); [done|]. destruct (peer_keyboard_enabled c); [|done].
  injection Hm as <-. unfold input_key. cbn [fst snd].
  set (e0 := e <| press := false |>).
  destruct (is_press e && _) eqn:Hp.
  - split; [exact Hs|]. split; [|split; [exact Hs|split; [|done]]].
    + intros x [_ Hx]%presses_handle. right. apply Exists_cons. left. by apply releases_handle.
    + intros x [Hd _]%presses_handle. done.
  - split; [exact Hs|]. split; [|done]. intros x [Hd Hx]%presses_handle. left. apply (down_is_modifier e); [exact Hd| |exact Hx].
    apply andb_false_iff in Hp as [Hp|Hp]; [by left|right]. by destruct (event_union e) as [[]|].
Qed.
Lemma fix_steps_ok ks : prog_ok (fix_steps ks).
Proof.
  rewrite <- (app_nil_r (fix_steps ks)). apply prog_ok_steps; [|done]. intros m Hm. unfold fix_steps in Hm.
  apply list_elem_of_In, in_flat_map in Hm as (k & _ & [<-|[<-|[]]]); (split; [done|]); intros c [Hc|Hc]%Exists_cons;
    by (apply elem_of_empty in Hc || apply Exists_nil in Hc).
Qed.

Record safe (d0 : D) w : Prop := {
  safe_progs t p : threads w !! t = Some p → prog_ok p;
  safe_held c : exiting (inp w) = false → c ∈ held (dev (inp w)) →
    c ∈ held d0 ∨ modifier_code c ∨ ∃ t p, threads w !! t = Some p ∧ pending c p
}.
Definition sane_event (ev : event) : Prop := match ev with Message _ _ e => sane e | _ => True end.
Lemma add_steps_lookup t p w t' q :
  threads (add_steps t p w) !! t' = Some q ↔ t = t' ∧ q = default [] (threads w !! t) ++ p ∨ t ≠ t' ∧ threads w !! t' = Some q.
Proof. unfold add_steps. cbn. rewrite lookup_insert_Some. naive_solver. Qed.
Lemma safe_add d0 t p w : prog_ok p → safe d0 w → safe d0 (add_steps t p w).
Proof.
  intros Hp [H1 H2]. split.
  - intros t' q [[<- ->]|[_ Hq]]%add_steps_lookup; [|by eapply H1]. apply prog_ok_app; [|done].
    destruct (threads w !! t) as [q|] eqn:Hq; [by apply (H1 t)|done].
  - intros c Hx [Hc|[Hc|(t' & q & Hq & Hpend)]]%H2; [by left|by right; left| |done]. right. right. exists t'.
    destruct (decide (t = t')) as [<-|Hne].
    + exists (q ++ p). split; [apply add_steps_lookup; rewrite Hq; by left|]. apply Exists_app. by left.
    + exists q. split; [apply add_steps_lookup; by right|done].
Qed.
Lemma safe_step d0 ev w : sane_event ev → safe d0 w → safe d0 (wstep to_uppercase ev w).
Proof.
  intros Hev Hw. destruct ev as [t c e|t force now|t now|]; cbn.
  - destruct ((on_key_event e c).2) as [msg|] eqn:Hm; [|done]. apply safe_add; [by apply (message_prog_ok e c)|done].
  - apply safe_add; [apply fix_steps_ok|done].
  - destruct (threads w !! t) as [[|m rest]|] eqn:Ht; [done| |done]. destruct Hw as [H1 H2].
    pose proof (H1 t _ Ht) as Hok. pose proof (exec_prog_ok m now (inp w) rest Hok) as Hnew.
    pose proof (exec_held m now (inp w) (proj1 Hok)) as Hheld. pose proof (exec_exiting m now (inp w)) as Hexit.
    pose proof (λ c, exec_pending m now (inp w) rest c) as Hpend.
    destruct (exec to_uppercase m now (inp w)) as [s' next]. cbn in *. split; cbn.
    + intros t' q [[<- <-]|[_ Hq]]%lookup_insert_Some; [done|by eapply H1].
    + intros c Hx [Hc|[Hc Hnr]]%Hheld.
      * destruct Hok as (_ & Hpr & _). destruct m as [e|e|k b|b code|text|ch|k]; try (by apply elem_of_empty in Hc).
        all: destruct (Hpr c) as [|Hr]; [apply Exists_cons; by left|by right; left|].
        all: right; right; exists t, (next ++ rest); (split; [apply lookup_insert_Some; by left|]); apply Exists_app; by right.
      * rewrite Hexit in Hx. destruct (H2 c Hx Hc) as [|[|(t' & q & Hq & Hpq)]]; [by left|by right; left|]. right. right.
        destruct (decide (t = t')) as [<-|Hne].
        -- rewrite Ht in Hq. injection Hq as <-. exists t, (next ++ rest). split; [apply lookup_insert_Some; by left|by apply Hpend].
        -- exists t', q. split; [apply lookup_insert_Some; by right|done].
  - destruct Hw as [H1 H2]. split; cbn; [done|]. intros c ?. done.
Qed.

End laws.

(** *** What is down is recorded *)
Section records.
Context {D : Type} `{X : X11 D} {XL : X11Laws D} (to_uppercase : str → str).
Implicit Types (k : KeysDown) (s : @input D) (w : @world D).
Definition recorded_in (s : @input D) (c : Z) : Prop := ∃ k, is_Some (keys_down s !! k) ∧ c ∈ record_codes k.
Definition event_record (e : KeyEvent) : option KeysDown :=
  match event_union e with
  | Some (ControlKey v) => if is_function_key v then None else Some (EnigoKey (Int.wrap_u64 v))
  | Some (Chr v) => Some (EnigoKey (v + KEY_CHAR_START))
  | _ => None
  end.
Lemma event_record_codes e : sane e →
  match event_record e with Some k => record_codes k = event_codes e | None => event_codes e = ∅ end.
Proof.
  unfold sane, event_record, event_codes. destruct (event_union e) as [[v|v|v|t|v]|]; try done.
  - intros [Hv _]. destruct (is_function_key v) eqn:Hf.
    + unfold is_function_key in Hf. apply orb_true_iff in Hf as [->%Z.eqb_eq| ->%Z.eqb_eq]; vm_compute; reflexivity.
    + cbn [record_codes]. unfold record_key_to_key. rewrite Int.wrap_u64_id by (unfold KEY_CHAR_START in Hv; int_unfold; lia).
      by rewrite (proj2 (Z.ltb_lt _ _) (proj2 Hv)).
  - intros Hv. cbn [record_codes]. unfold record_key_to_key. rewrite (proj2 (Z.ltb_ge _ _)) by lia.
    replace (v + KEY_CHAR_START - KEY_CHAR_START) with v by lia. by rewrite Int.wrap_u32_id.
Qed.
Lemma legacy_keys_down e now s :
  keys_down (legacy_keyboard_mode to_uppercase e now s) =
  match event_record e with Some k => record_pressed_key k (down e) now (keys_down s) | None => keys_down s end.
Proof.
  unfold legacy_keyboard_mode, event_record. destruct (sync_modifiers e (keys_down s) (dev s)) as [d rel].
  destruct (event_union e) as [[v|v|v|t|v]|]; try done. by destruct (is_function_key v).
Qed.
Lemma record_keeps k k' b now (kd : held_record) :
  is_Some (kd !! k) → is_Some (record_pressed_key k' b now kd !! k) ∨ k' = k ∧ b = false.
Proof.
  unfold record_pressed_key. intros Hk. destruct (decide (k' = k)) as [->|Hne].
  - destruct b; [left; by rewrite lookup_insert_eq|by right].
  - left. destruct b; [by rewrite lookup_insert_ne|by rewrite lookup_delete_ne].
Qed.
Lemma exec_keys m now s k : is_Some (keys_down s !! k) →
  is_Some (keys_down (exec to_uppercase m now s).1 !! k) ∨ m = MRecord k false
  ∨ ∃ e, m = MLegacy e ∧ down e = false ∧ event_record e = Some k.
Proof.
  intros Hk. destruct m as [e|e|k' b|b code|text|ch|k']; cbn [exec]; try (left; done).
  - left. destruct (exiting s); [done|]. destruct (lock_modes_for e) as [b|]; [|done]. by destruct (lock_modes_new e b (dev s)).
  - cbn [fst]. rewrite legacy_keys_down. destruct (event_record e) as [k'|] eqn:He; [|by left].
    destruct (record_keeps k k' (down e) now (keys_down s) Hk) as [|[-> Hd]]; [by left|]. right. right. by exists e.
  - cbn. destruct (record_keeps k k' b now (keys_down s) Hk) as [|[-> ->]]; [by left|right; by left].
Qed.
Lemma legacy_records e now s c : sane e → down e = true → c ∈ event_codes e →
  recorded_in (legacy_keyboard_mode to_uppercase e now s) c.
Proof.
  intros Hs Hd Hc. pose proof (event_record_codes e Hs) as He. unfold recorded_in. rewrite legacy_keys_down, Hd.
  destruct (event_record e) as [k|]; [|rewrite He in Hc; by apply elem_of_empty in Hc].
  exists k. rewrite He. split; [|done]. unfold record_pressed_key. rewrite lookup_insert_eq. by eexists.
Qed.

(** A press through [rdev] follows its record; and what is taken from the record is
    released afterwards. *)
Definition announced (p : list micro) : Prop :=
  ∀ i c, p !! S i = Some (MSimulate true c) → p !! i = Some (MRecord (RdevKeyDown c) true).
Definition headless (p : list micro) : Prop := ∀ c, p !! 0%nat ≠ Some (MSimulate true c).
Fixpoint erase_ok (p : list micro) : Prop :=
  match p with
  | [] => True
  | m :: rest => (∀ k, m = MRecord k false → ∀ c, c ∈ record_codes k → pending c rest) ∧ erase_ok rest
  end.
Lemma announced_tail m p : announced (m :: p) → announced p.
Proof. intros H i c Hi. apply (H (S i) c Hi). Qed.
Lemma announced_app l r : announced l → announced r → headless r → announced (l ++ r).
Proof.
  intros Hl Hr Hh i c Hi. destruct (decide (S i < length l)%nat) as [Hlt|Hge].
  - rewrite lookup_app_l in * by lia. by apply Hl.
  - rewrite lookup_app_r in Hi by lia. destruct (S i - length l)%nat as [|j] eqn:E; [by apply Hh in Hi|].
    rewrite lookup_app_r by lia. replace (i - length l)%nat with j by lia. by apply Hr.
Qed.
Lemma erase_ok_app l r : erase_ok l → erase_ok r → erase_ok (l ++ r).
Proof.
  induction l as [|m l IH]; [done|]. intros [H1 H2] Hr. split; [|by apply IH]. intros k E c Hc. apply Exists_app. left. by eapply H1.
Qed.
Lemma announced_short m : announced [m].
Proof. by intros [|i] c Hi. Qed.
Lemma handle_body_records e : announced (handle_body e) ∧ headless (handle_body e) ∧ erase_ok (handle_body e).
Proof.
  assert (∀ code b, announced (sim_rdev_rawkey_position code b) ∧ headless (sim_rdev_rawkey_position code b)
    ∧ erase_ok (sim_rdev_rawkey_position code b)) as H.
  { intros code b. split_and!; [intros [|[|i]] c; cbn; [by intros [= -> ->]|done..]|by intros c|].
    unfold sim_rdev_rawkey_position. split; [|split; [by intros k [=]|done]]. intros k [= <- ->] c Hc. apply Exists_cons. left.
    apply Exists_cons. by left. }
  assert (∀ m, match m with MSimulate _ _ | MRecord _ _ => False | _ => True end → announced [m] ∧ headless [m] ∧ erase_ok [m]) as H1.
  { intros m Hm. split_and!; [apply announced_short|by destruct m; intros c|]. split; [|done]. intros k ->. done. }
  unfold handle_body. destruct (mode_value (mode e)) as [[]|]; [by apply H1|apply H| |by apply H1..].
  destruct (event_union e) as [[v|v|v|t|v]|]; [|apply H| |by apply H1|..];
    (split_and!; [by intros i c|by intros c|exact I]).
Qed.
Lemma input_key_records msg : announced (input_key msg) ∧ headless (input_key msg) ∧ erase_ok (input_key msg).
Proof.
  unfold input_key. destruct msg.2; (split_and!; [by intros [|[|i]] c|by intros c|by repeat split]).
Qed.
Lemma fix_steps_records ks : announced (fix_steps ks) ∧ headless (fix_steps ks) ∧ erase_ok (fix_steps ks).
Proof.
  assert (∀ i c, fix_steps ks !! i ≠ Some (MSimulate true c)) as H.
  { intros i c Hi%list_elem_of_lookup_2. unfold fix_steps in Hi. apply list_elem_of_In, in_flat_map in Hi as (k & _ & [|[|[]]]); done. }
  split_and!; [intros i c Hi; by apply H in Hi|intros c; apply H|]. induction ks as [|k ks IH]; [done|].
  change (fix_steps (k :: ks)) with ([MRecord k false; MRelease k] ++ fix_steps ks). apply erase_ok_app; [|apply IH].
  - split; [|split; [by intros ? [=]|done]]. intros k' [= ->] c Hc. apply Exists_cons. left. apply Exists_cons. by left.
  - intros i c Hi. apply (H (2 + i)%nat c). exact Hi.
Qed.

(** Nobody takes a key from the record that a thread is about to press. *)
Definition about_to_press (c : Z) (p : list micro) : bool := match p with MSimulate true c' :: _ => c' =? c | _ => false end.
Definition calm w (ev : event) : bool :=
  match ev with
  | Run t _ =>
      match threads w !! t with
      | Some (MRecord (RdevKeyDown c) false :: _) => forallb (λ tp, negb (about_to_press c tp.2)) (map_to_list (threads w))
      | _ => true
      end
  | _ => true
  end.
Fixpoint calm_run w (evs : list event) : bool :=
  match evs with [] => true | ev :: evs => calm w ev && calm_run (wstep to_uppercase ev w) evs end.
Record recorded (d0 : D) w : Prop := {
  rec_progs t p : threads w !! t = Some p → announced p ∧ erase_ok p ∧ prog_ok p;
  rec_head t p c : threads w !! t = Some (MSimulate true c :: p) → is_Some (keys_down (inp w) !! RdevKeyDown c);
  rec_held c : exiting (inp w) = false → c ∈ held (dev (inp w)) →
    c ∈ held d0 ∨ recorded_in (inp w) c ∨ ∃ t p, threads w !! t = Some p ∧ pending c p
}.
Lemma recorded_add d0 t l w : announced l ∧ headless l ∧ erase_ok l → prog_ok l → recorded d0 w → recorded d0 (add_steps t l w).
Proof.
  intros (Ha & Hh & He) Hp [H1 H2 H3]. split.
  - intros t' q [[<- ->]|[_ Hq]]%add_steps_lookup; [|by eapply H1]. destruct (threads w !! t) as [q|] eqn:Hq; [|done].
    destruct (H1 t q Hq) as (? & ? & ?). split_and!; [by apply announced_app|by apply erase_ok_app|by apply prog_ok_app].
  - intros t' q c [[<- E]|[_ Hq]]%add_steps_lookup; [|by eapply H2]. destruct (threads w !! t) as [[|m q']|] eqn:Hq; cbn in E.
    + by destruct (Hh c); rewrite <- E.
    + injection E as <- _. by eapply H2.
    + by destruct (Hh c); rewrite <- E.
  - intros c Hx Hc. destruct (H3 c Hx Hc) as [|[|(t' & q & Hq & Hpend)]]; [by left|by right; left|]. right. right. exists t'.
    destruct (decide (t = t')) as [<-|Hne].
    + exists (q ++ l). split; [apply add_steps_lookup; rewrite Hq; by left|]. apply Exists_app. by left.
    + exists q. split; [apply add_steps_lookup; by right|done].
Qed.
Lemma exec_records m now s rest : announced (m :: rest) → erase_ok (m :: rest) →
  let p := (exec to_uppercase m now s).2 ++ rest in
  announced p ∧ erase_ok p ∧ ∀ c, p !! 0%nat = Some (MSimulate true c) → m = MRecord (RdevKeyDown c) true.
Proof.
  intros Ha [_ He]. pose proof (announced_tail _ _ Ha) as Hr. cbv zeta.
  assert (∀ c, rest !! 0%nat = Some (MSimulate true c) → m = MRecord (RdevKeyDown c) true) as Hhead.
  { intros c Hc. specialize (Ha 0%nat c Hc). by injection Ha. }
  destruct m as [e|e|k b|b code|text|ch|k]; [|by split_and!..]. cbn [exec].
  assert (headless rest) as Hhl by (intros c Hc; by apply Hhead in Hc).
  assert (∀ l, announced l → erase_ok l → headless l → announced (handle_body e ++ l) ∧ erase_ok (handle_body e ++ l)
    ∧ ∀ c, (handle_body e ++ l) !! 0%nat = Some (MSimulate true c) → MHandle e = MRecord (RdevKeyDown c) true) as H.
  { intros l Hl1 Hl2 Hl3. destruct (handle_body_records e) as (B1 & B2 & B3).
    split_and!; [by apply announced_app|by apply erase_ok_app|]. intros c Hc. exfalso.
    destruct (handle_body e) as [|m' l']; [by apply (Hl3 c)|by apply (B2 c)]. }
  destruct (exiting s); [by split_and!|].
  destruct (lock_modes_for e) as [b|]; [|by apply H].
  destruct (lock_modes_new e b (dev s)) as [d ch]. cbn [snd]. rewrite <- app_assoc. apply H; [|by split|by intros c].
  apply announced_app; [apply announced_short|done..].
Qed.
Lemma calm_others w t now c p : calm w (Run t now) = true → threads w !! t = Some (MRecord (RdevKeyDown c) false :: p) →
  ∀ t' q, threads w !! t' ≠ Some (MSimulate true c :: q).
Proof.
  cbn. intros Hc Ht t' q Hq. rewrite Ht, forallb_forall in Hc. specialize (Hc (t', MSimulate true c :: q)). cbn in Hc.
  rewrite Z.eqb_refl in Hc. discriminate Hc. apply list_elem_of_In. by apply elem_of_map_to_list.
Qed.
(** A code that was recorded still is, or is released now or later. *)
Lemma recorded_kept m now s rest c : prog_ok (m :: rest) → erase_ok (m :: rest) → recorded_in s c → c ∉ simple_releases m →
  recorded_in (exec to_uppercase m now s).1 c ∨ pending c rest.
Proof.
  intros Hok [He _] (k & Hk & Hc) Hr. destruct (exec_keys m now s k Hk) as [H|[E|(e & -> & Hd & Hev)]].
  - left. by exists k.
  - right. by apply (He k).
  - exfalso. apply Hr. cbn. rewrite Hd. destruct Hok as [Hs _]. pose proof (event_record_codes e Hs) as Hcodes. rewrite Hev in Hcodes.
    by rewrite <- Hcodes.
Qed.
Lemma recorded_run d0 t now w : calm w (Run t now) = true → recorded d0 w → recorded d0 (wstep to_uppercase (Run t now) w).
Proof.
  intros Hcalm Hw. pose proof (calm_others w t now) as Hothers. cbn. destruct (threads w !! t) as [[|m rest]|] eqn:Ht; [done| |done].
  destruct Hw as [H1 H2 H3]. destruct (H1 t _ Ht) as (Ha & He & Hok).
  destruct (exec_records m now (inp w) rest Ha He) as (Ha' & He' & Hhead).
  pose proof (exec_prog_ok to_uppercase m now (inp w) rest Hok) as Hok'.
  pose proof (exec_held to_uppercase m now (inp w) (proj1 Hok)) as Hheld. pose proof (exec_exiting to_uppercase m now (inp w)) as Hexit.
  pose proof (λ c, exec_pending to_uppercase m now (inp w) rest c) as Hpend.
  pose proof (λ c, recorded_kept m now (inp w) rest c Hok He) as Hkept.
  pose proof (λ k, exec_keys m now (inp w) k) as Hkeys.
  assert (∀ c, c ∈ simple_presses m → recorded_in (exec to_uppercase m now (inp w)).1 c) as Hpress.
  { intros c Hc. destruct m as [e|e|k b|[] code|text|ch|k]; try (by apply elem_of_empty in Hc).
    - cbn in Hc. destruct (down e) eqn:Hd; [|by apply elem_of_empty in Hc]. by apply legacy_records; [apply Hok|..].
    - exists (RdevKeyDown code). split; [|done]. cbn. by apply (H2 t rest). }
  assert (∀ c, m = MRecord (RdevKeyDown c) true → is_Some (keys_down (exec to_uppercase m now (inp w)).1 !! RdevKeyDown c)) as Hrec.
  { intros c ->. cbn. unfold record_pressed_key. rewrite lookup_insert_eq. by eexists. }
  destruct (exec to_uppercase m now (inp w)) as [s' next]. cbn in *. split; cbn.
  - intros t' q [[<- <-]|[_ Hq]]%lookup_insert_Some; [done|by eapply H1].
  - intros t' q c [[<- E]|[Hne Hq]]%lookup_insert_Some.
    + apply Hrec, Hhead. by rewrite E.
    + destruct (Hkeys (RdevKeyDown c) (H2 t' q c Hq)) as [|[->|(e & -> & _ & Hev)]]; [done| |].
      * by destruct (Hothers c rest Hcalm eq_refl t' q).
      * unfold event_record in Hev. destruct (event_union e) as [[v|v|v|x|v]|]; try done. by destruct (is_function_key v).
  - intros c Hx [Hc|[Hc Hnr]]%Hheld; [right; left; by apply Hpress|]. rewrite Hexit in Hx.
    destruct (H3 c Hx Hc) as [|[Hr|(t' & q & Hq & Hpq)]]; [by left| |].
    + destruct (Hkept c Hr Hnr) as [|Hp]; [by right; left|]. right. right. exists t, (next ++ rest).
      split; [apply lookup_insert_Some; by left|]. apply Exists_app. by right.
    + right. right. destruct (decide (t = t')) as [<-|Hne].
      * rewrite Ht in Hq. injection Hq as <-. exists t, (next ++ rest). split; [apply lookup_insert_Some; by left|by apply Hpend].
      * exists t', q. split; [apply lookup_insert_Some; by right|done].
Qed.
Lemma recorded_step d0 ev w : sane_event ev → calm w ev = true → recorded d0 w → recorded d0 (wstep to_uppercase ev w).
Proof.
  intros Hev Hc Hw. destruct ev as [t c e|t force now|t now|]; [| |by apply recorded_run|].
  - cbn. destruct ((on_key_event e c).2) as [msg|] eqn:Hm; [|done].
    apply recorded_add; [apply input_key_records|by apply (message_prog_ok to_uppercase e c)|done].
  - apply recorded_add; [apply fix_steps_records|apply fix_steps_ok|done].
  - destruct Hw as [H1 H2 H3]. split; cbn; [done..|]. intros c ?. done.
Qed.

Definition start (d0 : D) : @world D := mk_world (mk_input d0 ∅ false) ∅.
Definition idle w : Prop := ∀ t p, threads w !! t = Some p → p = [].
Lemma wrun_app evs1 evs2 w : wrun to_uppercase (evs1 ++ evs2) w = wrun to_uppercase evs2 (wrun to_uppercase evs1 w).
Proof. apply foldl_app. Qed.
Lemma run_safe d0 evs w : Forall sane_event evs → safe d0 w → safe d0 (wrun to_uppercase evs w).
Proof. intros Hs. revert w. induction Hs as [|ev evs Hev _ IH]; intros w Hw; [done|]. apply IH. by apply safe_step. Qed.
Lemma run_recorded d0 evs w : Forall sane_event evs → calm_run w evs = true → recorded d0 w → recorded d0 (wrun to_uppercase evs w).
Proof.
  intros Hs. revert w. induction Hs as [|ev evs Hev _ IH]; intros w Hc Hw; [done|]. cbn in Hc. apply andb_true_iff in Hc as [Hc1 Hc2].
  apply IH; [done|]. by apply recorded_step.
Qed.
Lemma start_safe d0 : safe d0 (start d0).
Proof. split; cbn; [by intros|]. intros c _ Hc. by left. Qed.
Lemma start_recorded d0 : recorded d0 (start d0).
Proof. split; cbn; [by intros|by intros|]. intros c _ Hc. by left. Qed.

(** Steps a thread has left. *)
Definition weight (p : list micro) : nat := sum_list_with (λ m, match m with MHandle _ => 4 | _ => 1 end)%nat p.
Lemma exec_weight m now s rest : (weight ((exec to_uppercase m now s).2 ++ rest) < weight (m :: rest))%nat.
Proof.
  unfold weight. rewrite sum_list_with_app. destruct m as [e|e|k b|b code|text|ch|k]; cbn [exec]; [|cbn; lia..].
  assert (sum_list_with (λ m, match m with MHandle _ => 4 | _ => 1 end)%nat (handle_body e) ≤ 2)%nat as H.
  { unfold handle_body, sim_rdev_rawkey_position.
    destruct (mode_value (mode e)) as [[]|]; [| |destruct (event_union e) as [[]|]|..]; cbn; lia. }
  destruct (exiting s); [cbn; lia|]. destruct (lock_modes_for e) as [b|].
  - destruct (lock_modes_new e b (dev s)) as [d ch]. cbn [snd]. rewrite sum_list_with_app. cbn [sum_list_with]. lia.
  - cbn [snd sum_list_with]. lia.
Qed.
Lemma thread_ends t now w p : threads w !! t = Some p →
  ∃ n, (n ≤ weight p)%nat ∧ threads (wrun to_uppercase (replicate n (Run t now)) w) !! t = Some [].
Proof.
  remember (weight p) as n eqn:E. assert (weight p ≤ n)%nat as Hn by lia. clear E. revert w p Hn.
  induction n as [|n IH]; intros w p Hn Ht.
  - destruct p as [|m p]; [by exists 0%nat|]. exfalso. pose proof (exec_weight m now (inp w) p). lia.
  - destruct p as [|m p]; [exists 0%nat; split; [lia|done]|].
    pose proof (exec_weight m now (inp w) p) as Hw.
    assert (threads (wstep to_uppercase (Run t now) w) !! t = Some ((exec to_uppercase m now (inp w)).2 ++ p)) as Hs.
    { cbn. rewrite Ht. destruct (exec to_uppercase m now (inp w)). cbn. by rewrite lookup_insert_eq. }
    assert (weight ((exec to_uppercase m now (inp w)).2 ++ p) ≤ n)%nat as Hle by lia. destruct (IH _ _ Hle Hs) as (i & Hi & Hend). exists (S i). split; [lia|]. exact Hend.
Qed.

(** A thread that releases recorded keys, while the others rest. *)
Lemma releasing d0 t now ks w : recorded d0 w → exiting (inp w) = false →
  (∀ t' p, threads w !! t' = Some p → t' ≠ t → p = []) → threads w !! t = Some (fix_steps ks) →
  (∀ k, is_Some (keys_down (inp w) !! k) → k ∈ ks) →
  let w' := wrun to_uppercase (replicate (2 * length ks) (Run t now)) w in
  keys_down (inp w') = ∅ ∧ ∀ c, c ∈ held (dev (inp w')) → c ∈ held d0.
Proof.
  revert w. induction ks as [|k ks IH]; intros w Hw Hx Hidle Ht Hks w'.
  - subst w'. cbn. assert (keys_down (inp w) = ∅) as E.
    { apply map_eq. intros k. rewrite lookup_empty. apply eq_None_not_Some. intros Hk. by apply Hks, elem_of_nil in Hk. }
    split; [done|]. intros c Hc. destruct (rec_held _ _ Hw c Hx Hc) as [|[(k & Hk & _)|(t' & p & Hp & Hpend)]]; [done| |].
    + rewrite E, lookup_empty in Hk. by destruct Hk.
    + exfalso. assert (p = []) as -> by (destruct (decide (t' = t)) as [->|]; [rewrite Ht in Hp; by injection Hp|by eapply Hidle]). by apply Exists_nil in Hpend.
  - subst w'. replace (2 * length (k :: ks))%nat with (S (S (2 * length ks))) by (cbn; lia). cbn [replicate].
    set (w1 := wstep to_uppercase (Run t now) w). set (w2 := wstep to_uppercase (Run t now) w1).
    assert (recorded d0 w1) as Hw1.
    { apply recorded_run; [|done]. cbn. rewrite Ht. destruct k as [c|v]; [|done]. apply forallb_forall. intros [t' p] Hp.
      apply list_elem_of_In, elem_of_map_to_list in Hp. destruct (decide (t' = t)) as [->|Hne].
      - rewrite Ht in Hp. by injection Hp as <-.
      - by rewrite (Hidle t' p Hp Hne). }
    assert (threads w1 !! t = Some (MRelease k :: fix_steps ks)) as Ht1.
    { subst w1. cbn. rewrite Ht. cbn. by rewrite lookup_insert_eq. }
    assert (recorded d0 w2) as Hw2 by (apply recorded_run; [unfold calm; by rewrite Ht1|done]).
    change (wrun to_uppercase (Run t now :: Run t now :: replicate (2 * length ks) (Run t now)) w) with
      (wrun to_uppercase (replicate (2 * length ks) (Run t now)) w2).
    assert (inp w1 = (inp w) <| keys_down ::= delete k |>) as Ei1.
    { subst w1. cbn. by rewrite Ht. }
    assert (inp w2 = (inp w1) <| dev ::= release_record_key k |>) as Ei2.
    { subst w2. unfold wstep. by rewrite Ht1. }
    apply IH; [done| | | |].
    + by rewrite Ei2, Ei1.
    + intros t' p Hp Hne. subst w2 w1. cbn in Hp. rewrite Ht in Hp. cbn in Hp. rewrite lookup_insert_eq in Hp. cbn in Hp.
      rewrite !lookup_insert_ne in Hp by done. by eapply Hidle.
    + subst w2. unfold wstep. rewrite Ht1. cbn. by rewrite lookup_insert_eq.
    + intros k' Hk'. rewrite Ei2, Ei1 in Hk'. cbn in Hk'. destruct (decide (k = k')) as [<-|Hne].
      * rewrite lookup_delete_eq in Hk'. by destruct Hk'.
      * rewrite lookup_delete_ne in Hk' by done. by apply Hks, elem_of_cons in Hk' as [->|].
Qed.
Lemma timed_out_all now (kd : held_record) k : is_Some (kd !! k) → k ∈ timed_out true now kd.
Proof.
  intros [tm Hk]. unfold timed_out. apply list_elem_of_fmap. exists (k, tm). split; [done|]. apply list_elem_of_filter.
  split; [by left|]. by apply elem_of_map_to_list.
Qed.

(** ** Theorems *)
(** C5: no key but a modifier stays down. Whatever messages sessions send, however their
    input threads and those that release forgotten keys interleave, and whether keys are
    sent by character, by position or as text, a code that is down was down before, is a
    modifier's, or is about to be released by a thread that has only so many steps left. *)
Theorem nothing_stays_down d0 evs now : Forall sane_event evs →
  let w := wrun to_uppercase evs (start d0) in
  exiting (inp w) = false →
  (∀ c, c ∈ held (dev (inp w)) →
    c ∈ held d0 ∨ modifier_code c ∨ ∃ t p, threads w !! t = Some p ∧ pending c p) ∧
  ∀ t p, threads w !! t = Some p →
    ∃ n, (n ≤ weight p)%nat ∧ threads (wrun to_uppercase (replicate n (Run t now)) w) !! t = Some [].
Proof.
  intros Hs w Hx. destruct (run_safe d0 evs (start d0) Hs (start_safe d0)) as [_ H]. split.
  - intros c Hc. by apply H.
  - intros t p Ht. by apply thread_ends.
Qed.
(** C25: releasing the recorded keys releases all. Once the threads of the sessions rest,
    forcing [fix_key_down_timeout], as the cursor service does when its last subscriber
    leaves, empties the record and leaves nothing down that was not before the first
    session. This is of events that carry no modifiers with a function key, as
    LockScreen and CtrlAltDel may, whose modifiers stay down
    ([lock_screen_holds_control]), and numbers in their range; and of histories that are [calm_run]: no key is taken
    from the record while a thread is about to press it ([released_too_soon]). *)
Theorem reset_releases_all d0 evs t now : Forall sane_event evs → calm_run (start d0) evs = true →
  let w := wrun to_uppercase evs (start d0) in
  exiting (inp w) = false → idle w →
  let n := (2 * length (timed_out true now (keys_down (inp w))))%nat in
  let w' := wrun to_uppercase (Fix t true now :: replicate n (Run t now)) w in
  keys_down (inp w') = ∅ ∧ ∀ c, c ∈ held (dev (inp w')) → c ∈ held d0.
Proof.
  intros Hs Hc w Hx Hidle n w'. pose proof (run_recorded d0 evs (start d0) Hs Hc (start_recorded d0)) as Hw. fold w in Hw.
  subst w' n. set (ks := timed_out true now (keys_down (inp w))).
  assert (wstep to_uppercase (Fix t true now) w = add_steps t (fix_steps ks) w) as E by done.
  change (wrun to_uppercase (Fix t true now :: replicate (2 * length ks) (Run t now)) w) with
    (wrun to_uppercase (replicate (2 * length ks) (Run t now)) (add_steps t (fix_steps ks) w)).
  apply releasing.
  - apply recorded_add; [apply fix_steps_records|apply fix_steps_ok|done].
  - done.
  - intros t' p [[<- _]|[_ Hp]]%add_steps_lookup Hne; [done|]. by eapply Hidle.
  - apply add_steps_lookup. left. split; [done|]. destruct (threads w !! t) as [p|] eqn:Hp; [|done]. by rewrite (Hidle t p Hp).
  - intros k Hk. by apply timed_out_all.
Qed.
End records.

(** *** Modifiers and locks of an event *)
Section modes.
Context {D : Type} `{X : X11 D} {XL : X11Laws D} (to_uppercase : str → str).
Implicit Types (d : D) (k : Key) (s : @input D).

Definition kind_down (m : kind) d : Prop := held d ∩ kind_codes m ≠ ∅.
Definition kind_of k : option kind :=
  match k with
  | KShift | KRightShift => Some KindShift
  | KControl | KRightControl => Some KindControl
  | KAlt | KRightAlt => Some KindAlt
  | KMeta | KRWin => Some KindMeta
  | _ => None
  end.
Definition lock_of k : option lock := match k with KCapsLock => Some CapsLock | KNumLock => Some NumLock | _ => None end.
(** Whether a list of modifiers has one of the kind. *)
Definition asked (m : kind) (mods : list Z) : Prop := ∃ v k, v ∈ mods ∧ control_key_value_to_key v = Some k ∧ kind_of k = Some m.
Definition kind_value (m : kind) : Z :=
  match m with KindShift => ck_Shift | KindControl => ck_Control | KindAlt => ck_Alt | KindMeta => ck_Meta end.
Lemma kind_of_spec k m : kind_of k = Some m ↔ k = left_key m ∨ k = right_key m.
Proof. split; [destruct k; intros [= <-]; auto|by destruct m; intros [-> | ->]]. Qed.
Lemma kind_codes_of k m : kind_of k = Some m → codes k ⊆ kind_codes m ∧ codes k ≠ ∅.
Proof. unfold kind_codes. intros [-> | ->]%kind_of_spec; (split; [set_solver|]); [apply kind_left|apply kind_right]. Qed.
Lemma kind_codes_other k m : is_layout k = false → kind_of k ≠ Some m → codes k ## kind_codes m.
Proof. intros Hl Hk. apply kind_own; [done|..]; intros ->; by destruct Hk, m. Qed.
Lemma modifier_state k m d : kind_of k = Some m → get_modifier_state k d = bool_decide (kind_down m d).
Proof.
  intros Hk%kind_of_spec. unfold kind_down. rewrite <- mask_kind.
  destruct m, Hk as [-> | ->]; unfold get_modifier_state, get_key_state, kind_bit; cbn [left_key right_key]; by rewrite ?orb_false_r.
Qed.
Lemma key_map_facts v k : control_key_value_to_key v = Some k →
  is_layout k = false ∧ (lock_of k = Some CapsLock → v = ck_CapsLock) ∧ (lock_of k = Some NumLock → v = ck_NumLock).
Proof.
  assert (map_Forall (λ v k, (negb (is_layout k) && match lock_of k with Some CapsLock => v =? ck_CapsLock | Some NumLock => v =? ck_NumLock | None => true end)
    = true) KEY_MAP) as H by (apply (bool_decide_unpack _); vm_compute; exact I).
  intros Hk. specialize (H v k Hk). cbn in H. apply andb_true_iff in H as [H1 H2]. split; [by apply negb_true_iff in H1|].
  destruct (lock_of k) as [[]|]; split; intros [=]; by apply Z.eqb_eq.
Qed.
Lemma kind_value_key m : control_key_value_to_key (kind_value m) = Some (left_key m).
Proof. by destruct m; vm_compute. Qed.

Definition fix_pair (mods : list Z) (m : kind) d : D := fix_modifier mods (kind_value m) (right_key m) (fix_modifier mods (kind_value m) (left_key m) d).
Lemma fix_modifiers_pairs mods ck d : ck ∉ modifier_values →
  fix_modifiers mods ck d = fix_pair mods KindMeta (fix_pair mods KindControl (fix_pair mods KindAlt (fix_pair mods KindShift d))).
Proof.
  intros Hck. unfold fix_modifiers, fix_table. cbn [foldl].
  assert (∀ v, v ∈ modifier_values → (ck =? v) = false) as H by (intros v Hv; apply Z.eqb_neq; by intros ->).
  by rewrite !H by (apply (bool_decide_unpack _); vm_compute; exact I).
Qed.
Lemma fix_pair_held mods m d : held (fix_pair mods m d) ⊆ held d.
Proof. unfold fix_pair. by rewrite !fix_modifier_held. Qed.
Lemma fix_pair_up mods m d : kind_value m ∉ mods → ¬ kind_down m (fix_pair mods m d).
Proof.
  intros Hv. unfold fix_pair, fix_modifier. rewrite (bool_decide_eq_false_2 (kind_value m ∈ mods)) by done. cbn [negb].
  rewrite !andb_true_r. rewrite !(modifier_state (left_key m) m) by (by apply kind_of_spec; left).
  rewrite !(modifier_state (right_key m) m) by (by apply kind_of_spec; right).
  set (d1 := if bool_decide (kind_down m d) then key_up (left_key m) d else d).
  destruct (bool_decide (kind_down m d1)) eqn:H1; [|by apply bool_decide_eq_false in H1].
  assert (held d1 ∩ codes (left_key m) = ∅) as Hl.
  { subst d1. destruct (bool_decide (kind_down m d)) eqn:H2; [rewrite key_up_held; set_solver|].
    apply bool_decide_eq_false in H2. unfold kind_down, kind_codes in *. set_solver. }
  intros Hk. apply Hk. rewrite key_up_held. unfold kind_codes. set_solver.
Qed.
Lemma kind_down_mono m d d' : held d' ⊆ held d → kind_down m d' → kind_down m d.
Proof. unfold kind_down. intros Hd Hk E. apply Hk. set_solver. Qed.
Lemma fix_modifiers_kind mods ck d m : ck ∉ modifier_values → kind_down m (fix_modifiers mods ck d) → kind_value m ∈ mods.
Proof.
  intros Hck Hm. rewrite (fix_modifiers_pairs mods ck d Hck) in Hm. destruct (decide (kind_value m ∈ mods)) as [|Hv]; [done|]. exfalso.
  pose proof (λ d, fix_pair_up mods m d Hv) as Hup.
  assert (∀ m' d', kind_down m (fix_pair mods m' d') → kind_down m d') as Hf.
  { intros m' d'. apply kind_down_mono, fix_pair_held. }
  destruct m; [apply Hf, Hf, Hf, Hup in Hm|apply Hf, Hup in Hm|apply Hf, Hf, Hup in Hm|apply Hup in Hm]; done.
Qed.

Lemma kind_down_press k m d : is_layout k = false →
  kind_down m (key_down k d).1 ↔ kind_down m d ∨ kind_of k = Some m.
Proof.
  intros Hl. unfold kind_down. rewrite key_down_held. destruct (decide (kind_of k = Some m)) as [Hk|Hk].
  - destruct (kind_codes_of k m Hk) as [H1 H2]. split; [by right|]. intros _ E. apply H2. set_solver.
  - pose proof (kind_codes_other k m Hl Hk). split; [intros Hd; left; intros E; apply Hd; set_solver|].
    intros [Hd|]; [|done]. intros E. apply Hd. set_solver.
Qed.
(** Pressing the modifiers of an event. *)
Lemma press_modifiers_kind mods kd d m : is_altgr_pressed kd = false →
  kind_down m (press_modifiers mods kd d).1 ↔ kind_down m d ∨ asked m mods.
Proof.
  intros Halt. unfold press_modifiers. match goal with |- context [foldl ?f (d, _)] => set (F := f) end.
  generalize (@nil Key) as rel. revert d. induction mods as [|v mods IH]; intros d rel.
  - cbn. split; [by left|]. intros [|(v & k & Hv & _)]; [done|by apply elem_of_nil in Hv].
  - assert (asked m (v :: mods) ↔ (∃ k, control_key_value_to_key v = Some k ∧ kind_of k = Some m) ∨ asked m mods) as Hask.
    { split.
      - intros (v' & k & [->|Hv]%elem_of_cons & H1 & H2); [left; by exists k|right; by exists v', k].
      - intros [(k & H1 & H2)|(v' & k & Hv & H1 & H2)]; [exists v, k|exists v', k]; (split; [apply elem_of_cons; by auto|done]). }
    rewrite Hask. cbn [foldl]. unfold F at 2. destruct (control_key_value_to_key v) as [k|] eqn:Hk.
    + destruct (key_map_facts v k Hk) as [Hl _]. rewrite Halt, andb_false_r.
      assert ((∃ k', Some k = Some k' ∧ kind_of k' = Some m) ↔ kind_of k = Some m) as ->
        by (split; [by intros (k' & [= <-] & H)|intros H; by exists k]).
      destruct (get_modifier_state k d) eqn:Hs; rewrite IH.
      * assert (kind_of k = Some m → kind_down m d) as Hd; [|tauto]. intros Hkm. rewrite (modifier_state k m d Hkm) in Hs.
        by apply bool_decide_eq_true in Hs.
      * rewrite (kind_down_press k m d Hl). tauto.
    + rewrite IH. assert (¬ ∃ k, None = Some k ∧ kind_of k = Some m) by (by intros (k & [=] & _)). tauto.
Qed.
(** C26: [sync_modifiers], which the mode [Legacy] runs before a key goes down, and
    [release_keys], which is for what it pressed: for an event that presses a key
    that is no modifier, while the record does not have the code 75, which the test for
    AltGr mistakes, the first leaves each of the four modifiers down exactly if the event
    has it, on either side; and the second then leaves nothing down that was not before.
    (At a function key [legacy_keyboard_mode] does not get to the second:
    [lock_screen_holds_control]; a character may press Shift for itself in between.) *)
Theorem modifiers_synced e kd d : down e = true → get_control_key_value e ∉ modifier_values → is_altgr_pressed kd = false →
  let r := sync_modifiers e kd d in
  (∀ m, kind_down m r.1 ↔ asked m (modifiers e)) ∧ held (release_keys r.2 r.1) ⊆ held d.
Proof.
  intros Hd Hck Halt r. split.
  - intros m. subst r. unfold sync_modifiers. rewrite Hd, (press_modifiers_kind _ _ _ _ Halt). split; [|by right].
    intros [Hm|]; [|done]. apply (fix_modifiers_kind _ _ _ _ Hck) in Hm. exists (kind_value m), (left_key m).
    split; [done|]. split; [apply kind_value_key|]. apply kind_of_spec. by left.
  - rewrite release_keys_held. apply sync_modifiers_held.
Qed.

(** *** Locks *)
Definition lock_value (l : lock) : Z := match l with CapsLock => ck_CapsLock | NumLock => ck_NumLock end.
(** The modes of the locks an event has are brought about for it. *)
Definition synced (e : KeyEvent) (l : lock) : Prop :=
  match l with CapsLock => is_Some (lock_modes_for e) | NumLock => lock_modes_for e = Some true end.
(** An event whose key is no lock, and which has no lock that is not brought about. *)
Definition leaves_locks (e : KeyEvent) : Prop :=
  ∀ l, handle_codes e ## codes (lock_key l) ∧ event_union e ≠ Some (ControlKey (lock_value l)) ∧
    (lock_value l ∈ modifiers e → synced e l).
Lemma key_map_lock v k l : control_key_value_to_key v = Some k → k = lock_key l → v = lock_value l.
Proof. intros Hk ->. destruct (key_map_facts v _ Hk) as (_ & H1 & H2). destruct l; auto. Qed.
Lemma press_modifiers_led l mods kd d : (lock_value l ∈ mods → led l d = true) → led l (press_modifiers mods kd d).1 = led l d.
Proof.
  unfold press_modifiers. match goal with |- context [foldl ?f (d, _)] => set (F := f) end.
  generalize (@nil Key) as rel. revert d. induction mods as [|v mods IH]; intros d rel Hl; [done|]. cbn [foldl]. unfold F at 2.
  assert (lock_value l ∈ mods → led l d = true) as Hl' by (intros; apply Hl, elem_of_cons; by right).
  destruct (control_key_value_to_key v) as [k|] eqn:Hk; [|by apply IH].
  destruct (get_modifier_state k d) eqn:Hs; [by apply IH|]. destruct (_ && _); [by apply IH|].
  assert (led l (key_down k d).1 = led l d) as E; [|rewrite <- E; apply IH; by rewrite E].
  apply key_down_led. intros ->. pose proof (key_map_lock v _ l Hk eq_refl) as ->. specialize (Hl ltac:(apply elem_of_cons; by left)).
  assert (get_modifier_state (lock_key l) d = led l d) as E by (by destruct l). congruence.
Qed.
Lemma legacy_led l e now s : (lock_value l ∈ modifiers e → led l (dev s) = true) → event_union e ≠ Some (ControlKey (lock_value l)) →
  led l (dev (legacy_keyboard_mode to_uppercase e now s)) = led l (dev s).
Proof.
  intros Hm Hu. unfold legacy_keyboard_mode.
  assert (led l (sync_modifiers e (keys_down s) (dev s)).1 = led l (dev s)) as Hsync.
  { unfold sync_modifiers. destruct (down e); [|done]. rewrite press_modifiers_led; [apply fix_modifiers_led|by rewrite fix_modifiers_led]. }
  destruct (sync_modifiers e (keys_down s) (dev s)) as [d rel]. cbn [fst] in Hsync.
  destruct (event_union e) as [[v|v|v|t|v]|]; cbn.
  - destruct (is_function_key v); [done|]. cbn. rewrite release_keys_led, <- Hsync. unfold process_control_key.
    destruct (control_key_value_to_key v) as [k|] eqn:Hk; [|done]. destruct (down e); [|apply key_up_led].
    apply key_down_led. intros ->. apply Hu. by rewrite (key_map_lock v _ l Hk eq_refl).
  - rewrite release_keys_led, <- Hsync, <- (release_shift_led l d). unfold process_chr. generalize (release_shift_for_char_input d) as d1. intros d1.
    destruct (down e); [|apply key_up_led]. pose proof (key_down_ok (char_value_to_key v) d1) as Hok.
    pose proof (key_down_led l (char_value_to_key v) d1 ltac:(by destruct l)) as Hl. destruct (key_down _ d1) as [d2 b]. cbn in *. by subst b.
  - rewrite release_keys_led. unfold process_unicode. destruct (char_from_u32 v); by rewrite ?xdo_text_led, release_shift_led.
  - by rewrite release_keys_led, xdo_text_led.
  - by rewrite release_keys_led.
  - by rewrite release_keys_led.
Qed.
Lemma translate_seq_led l text d : led l (translate_seq text d) = led l d.
Proof.
  unfold translate_seq. rewrite <- (release_shift_led l d). generalize (release_shift_for_char_input d) as d1.
  induction text as [|c text IH]; intros d1; [done|]. cbn. rewrite IH. apply key_click_led. by destruct l.
Qed.
Definition run_body (e : KeyEvent) (now : Z) s : @input D := foldl (λ s m, (exec to_uppercase m now s).1) s (handle_body e).
Lemma body_led l e now s : (lock_value l ∈ modifiers e → led l (dev s) = true) → event_union e ≠ Some (ControlKey (lock_value l)) →
  handle_codes e ## codes (lock_key l) → led l (dev (run_body e now s)) = led l (dev s).
Proof.
  intros Hm Hu Hc. unfold run_body, handle_body. unfold handle_codes in Hc.
  assert (∀ code s, record_codes (RdevKeyDown code) ## codes (lock_key l) → led l (dev (foldl (λ s m, (exec to_uppercase m now s).1) s
    (sim_rdev_rawkey_position code (down e)))) = led l (dev s)) as Hsim.
  { clear. intros code s Hc. cbn. destruct (down e); [|apply rdev_release_led]. cbn in Hc. destruct (valid_code code) eqn:Hv.
    - apply rdev_press_led. set_solver.
    - apply rdev_press_invalid, Hv. }
  destruct (mode_value (mode e)) as [[]|]; [by apply legacy_led|by apply Hsim| |by apply legacy_led..].
  destruct (event_union e) as [[v|v|v|t|v]|]; try done; [by apply Hsim|]. apply translate_seq_led.
Qed.
Lemma body_held e now s c : sane e → c ∈ held (dev (run_body e now s)) → c ∈ handle_codes e ∨ c ∈ held (dev s).
Proof.
  intros Hs. unfold run_body. assert (∀ m, m ∈ handle_body e → sane_step m ∧ (c ∈ simple_presses m → c ∈ handle_codes e)) as Hm.
  { intros m Hm. split; [by apply (handle_body_sane to_uppercase e)|]. intros Hc.
    apply (proj2 (proj1 (presses_handle to_uppercase e c) (proj2 (Exists_exists _ _) (ex_intro _ m (conj Hm Hc))))). }
  revert s. induction (handle_body e) as [|m l IH]; intros s; [by right|]. cbn [foldl]. intros Hc.
  destruct (IH ltac:(intros m' H'; apply Hm, elem_of_cons; by right) _ Hc) as [|Hc']; [by left|].
  destruct (Hm m ltac:(apply elem_of_cons; by left)) as [Hsm Hp].
  destruct (exec_held to_uppercase m now s Hsm c Hc') as [|[]]; auto.
Qed.
(** Clicking a lock, or not. *)
Definition click_if (b : bool) (l : lock) d : D := if b then key_click (lock_key l) d else d.
Lemma click_if_led b l l' d : codes (lock_key l) ## held d →
  led l' (click_if b l d) = if (match l, l' with CapsLock, CapsLock | NumLock, NumLock => true | _, _ => false end) then xorb b (led l' d) else led l' d.
Proof.
  intros Hd. unfold click_if. destruct b; [|by destruct l, l', (led _ d)]. destruct l, l'; rewrite ?key_click_lock by done; try done;
    by rewrite key_click_led.
Qed.
Lemma click_if_held b l d : held (click_if b l d) ⊆ held d.
Proof. unfold click_if. destruct b; [apply key_click_held|done]. Qed.
Lemma xorb_twice (a b : bool) : xorb a (xorb a b) = b.
Proof. by destruct a, b. Qed.
Lemma xorb_sync (a b : bool) : xorb (negb (eqb a b)) b = a.
Proof. by destruct a, b. Qed.
Lemma xorb_sync_l (a b : bool) : xorb (negb (eqb b a)) b = a.
Proof. by destruct a, b. Qed.
(** A handler's modes: what they are while it lasts, and that they are put back. *)
Lemma lock_modes_new_led e b d : (∀ l, codes (lock_key l) ## held d) →
  let '(d1, ch) := lock_modes_new e b d in
  led CapsLock d1 = is_modifier_enabled e ck_CapsLock ∧ (b = true → led NumLock d1 = is_modifier_enabled e ck_NumLock) ∧
  held d1 ⊆ held d ∧ led CapsLock d = xorb ch.1 (led CapsLock d1) ∧ led NumLock d = xorb ch.2 (led NumLock d1).
Proof.
  intros Hd. set (cc := negb (eqb (is_modifier_enabled e ck_CapsLock) (led CapsLock d))). set (d1 := click_if cc CapsLock d).
  set (nc := b && negb (eqb (led NumLock d1) (is_modifier_enabled e ck_NumLock))).
  assert (lock_modes_new e b d = (click_if nc NumLock d1, (cc, nc))) as -> by reflexivity.
  assert (held d1 ⊆ held d) as H1 by apply click_if_held.
  assert (held (click_if nc NumLock d1) ⊆ held d) as H2 by (etrans; [apply click_if_held|done]).
  assert (∀ l, codes (lock_key l) ## held d1) as Hd1 by (intros l; specialize (Hd l); set_solver).
  assert (led CapsLock d1 = xorb cc (led CapsLock d)) as Ec by (by apply (click_if_led cc CapsLock CapsLock)).
  assert (led NumLock d1 = led NumLock d) as En by (by apply (click_if_led cc CapsLock NumLock)).
  cbn [fst snd]. rewrite (click_if_led nc NumLock CapsLock d1), (click_if_led nc NumLock NumLock d1), Ec by done. split_and!.
  - apply xorb_sync.
  - intros Hb. unfold nc. rewrite Hb. apply xorb_sync_l.
  - done.
  - by rewrite xorb_twice.
  - by rewrite <- En, xorb_twice.
Qed.
Lemma lock_modes_drop_led ch d l : (∀ l, codes (lock_key l) ## held d) →
  led l (lock_modes_drop ch d) = xorb (match l with CapsLock => ch.1 | NumLock => ch.2 end) (led l d).
Proof.
  intros Hd. set (d1 := click_if ch.1 CapsLock d).
  assert (lock_modes_drop ch d = click_if ch.2 NumLock d1) as -> by reflexivity.
  assert (codes (lock_key NumLock) ## held d1) as H1 by (pose proof (click_if_held ch.1 CapsLock d); specialize (Hd NumLock); set_solver).
  rewrite (click_if_led ch.2 NumLock l d1) by done. subst d1. rewrite (click_if_led ch.1 CapsLock l d) by apply Hd. by destruct l.
Qed.
Lemma handle_key_eq e now s : exiting s = false → handle_key_ to_uppercase e now s =
  match lock_modes_for e with
  | Some b =>
      let '(d, ch) := lock_modes_new e b (dev s) in
      let s1 := run_body e now (s <| dev := d |>) in s1 <| dev := lock_modes_drop ch (dev s1) |>
  | None => run_body e now s
  end.
Proof.
  intros Hx. unfold handle_key_. cbn [exec]. rewrite Hx. destruct (lock_modes_for e) as [b|]; [|done].
  destruct (lock_modes_new e b (dev s)) as [d ch]. rewrite foldl_app. done.
Qed.
(** C27: keys act under the viewer's locks and leave them as they were. An event is
    handled, no other between, no lock key being held. If its numbers are in their range,
    its key is no lock, and it lists only locks that are brought about for it - of
    Num Lock, the viewer sends more than that with other keys of the number pad than
    digits and Enter ([minus_turns_num_lock_on]) - then the
    lights are the same afterwards; and if its key is one for which locks are brought
    about, CapsLock, and for a digit or Enter of the number pad NumLock, are as on the
    viewer's side all the while its key acts. NumLock is not looked at for other keys. *)
Theorem locks_follow_viewer e now s : sane e → leaves_locks e → exiting s = false → (∀ l, codes (lock_key l) ## held (dev s)) →
  (∀ l, led l (dev (handle_key_ to_uppercase e now s)) = led l (dev s)) ∧
  ∀ b, lock_modes_for e = Some b →
    let d1 := (lock_modes_new e b (dev s)).1 in
    led CapsLock d1 = is_modifier_enabled e ck_CapsLock ∧ (b = true → led NumLock d1 = is_modifier_enabled e ck_NumLock) ∧
    ∀ l, led l (dev (run_body e now (s <| dev := d1 |>))) = led l d1.
Proof.
  intros Hs Hl Hx Hd. rewrite (handle_key_eq e now s Hx). destruct (lock_modes_for e) as [b|] eqn:Hb.
  - pose proof (lock_modes_new_led e b (dev s) Hd) as H. destruct (lock_modes_new e b (dev s)) as [d1 ch] eqn:Hnew.
    destruct H as (Hc & Hn & Hh & Ec & En). set (s1 := s <| dev := d1 |>).
    assert (∀ l, led l (dev (run_body e now s1)) = led l d1) as Hbody.
    { intros l. destruct (Hl l) as (H1 & H2 & H3). apply (body_led l e now s1); [|done|done]. intros Hm. cbn.
      specialize (H3 Hm). destruct l; cbn in H3.
      - rewrite Hc. by apply bool_decide_eq_true.
      - rewrite Hn by congruence. by apply bool_decide_eq_true. }
    assert (∀ l, codes (lock_key l) ## held (dev (run_body e now s1))) as Hd2.
    { intros l c Hc1 Hc2. destruct (Hl l) as (H1 & _ & _). destruct (body_held e now s1 c Hs Hc2) as [Hc3|Hc3]; [by apply (H1 c)|].
      apply (Hd l c Hc1). by apply Hh. }
    split.
    + intros l. cbv zeta. cbn [dev]. change (led l (lock_modes_drop ch (dev (run_body e now s1))) = led l (dev s)).
      rewrite lock_modes_drop_led, Hbody by done. by destruct l.
    + intros b' [= <-]. rewrite Hnew. cbn [fst]. split_and!; [done|exact Hn|exact Hbody].
  - split; [|by intros b']. intros l. destruct (Hl l) as (H1 & H2 & H3). apply body_led; [|done|done].
    intros Hm. exfalso. specialize (H3 Hm). destruct l; cbn in H3; rewrite Hb in H3; [by destruct H3|done].
Qed.

(** *** The record of modifiers of a connection *)
(** On Linux a modifier that goes down is never noted, so a connection that is dropped
    releases none. *)
Lemma pressed_modifiers_never e (c : conn_input) : pressed_modifiers c = [] → pressed_modifiers (on_key_event e c).1 = [].
Proof.
  intros Hc. unfold on_key_event. destruct (view_camera c); [done|]. destruct (peer_keyboard_enabled c); [|done].
  destruct (event_modifier e) as [key|] eqn:Hk; [|done]. cbn. rewrite Hc. unfold is_press. rewrite Hk. cbn.
  by rewrite orb_true_r, andb_false_r.
Qed.

(** *** The mouse *)
Lemma press_mouse_modifiers_spec mods d :
  let r := press_mouse_modifiers mods d in held r.1 ∖ all_codes r.2 ⊆ held d ∧ ∀ l, led l r.1 = led l d.
Proof.
  unfold press_mouse_modifiers. match goal with |- context [foldl ?f (d, _)] => set (F := f) end. cbv zeta. split.
  - etrans; [apply (press_fold_held (λ ck d rel, F (d, rel) ck) mods d [])|by intros c [Hc _]%elem_of_difference].
    clear d. intros ck d rel. cbn. destruct (control_key_value_to_key ck) as [k|]; [|by left]. destruct (_ || _); [by left|].
    right. by exists k.
  - intros l. generalize (@nil Key) as rel. revert d. induction mods as [|v mods IH]; intros d rel; [done|]. cbn [foldl]. unfold F at 2.
    destruct (control_key_value_to_key v) as [k|]; [|apply IH]. destruct (_ || _) eqn:Hk; [apply IH|]. rewrite IH. apply key_down_led.
    intros ->. by destruct l.
Qed.
(** A mouse event leaves no key down that was not, and changes no light. *)
Lemma mouse_leaves_keys e conn x p d :
  let d' := (handle_mouse_simulation_ e conn x p d).2 in held d' ⊆ held d ∧ ∀ l, led l d' = led l d.
Proof.
  unfold handle_mouse_simulation_. destruct x; [done|].
  set (pressed := if Z.land (mask e) MOUSE_TYPE_MASK =? 1 then _ else _).
  assert (held pressed.1 ∖ all_codes pressed.2 ⊆ held d ∧ ∀ l, led l pressed.1 = led l d) as [H1 H2].
  { subst pressed. destruct (_ =? 1); [|split; [by intros c [Hc _]%elem_of_difference|done]].
    destruct (press_mouse_modifiers_spec (mouse_modifiers e) (fix_modifiers (mouse_modifiers e) 0 d)) as [H1 H2]. split.
    - etrans; [exact H1|apply fix_modifiers_held].
    - intros l. by rewrite H2, fix_modifiers_led. }
  clearbody pressed. destruct pressed as [d1 rel]. cbn [fst snd] in *.
  match goal with |- context [let '(p, d) := ?r in (p, release_keys rel d)] => set (moved := r) end.
  assert (held moved.2 = held d1 ∧ ∀ l, led l moved.2 = led l d1) as [E1 E2].
  { subst moved. cbv zeta. repeat case_match; cbn [snd]; split; intros; rewrite ?xdo_mouse_held, ?xdo_mouse_led; done. }
  clearbody moved. destruct moved as [p' d2]. cbn in *. split; [by rewrite release_keys_held, E1|].
  intros l. by rewrite release_keys_led, E2.
Qed.
End modes.

(** ** A display, and examples *)
Record screen := mk_screen { s_held : gset Z; s_caps : bool; s_num : bool }.
#[local] Instance screen_eta : Eta screen := λ r, mk_screen (s_held r) (s_caps r) (s_num r).
Definition code_of (k : Key) : Z :=
  match k with
  | KShift => 50 | KRightShift => 62 | KControl => 37 | KRightControl => 105 | KAlt => 64 | KRightAlt => 108 | KMeta => 133 | KRWin => 134
  | KCapsLock => 66 | KNumLock => 77 | KReturn => 36 | KTab => 23 | KSubtract => 82 | KLayout c => 300 + Z.of_N c | _ => 200
  end.
Definition put_down (c : Z) (s : screen) : screen :=
  mk_screen (s_held s ∪ {[c]}) (if (c =? 66) && negb (bool_decide (c ∈ s_held s)) then negb (s_caps s) else s_caps s)
    (if (c =? 77) && negb (bool_decide (c ∈ s_held s)) then negb (s_num s) else s_num s).
Definition put_up (c : Z) (s : screen) : screen := s <| s_held := s_held s ∖ {[c]} |>.
Definition is_held (l : list Z) (s : screen) : bool := bool_decide (s_held s ∩ list_to_set l ≠ ∅).
Definition bit (b : bool) (n : Z) : Z := if b then n else 0.
#[local] Instance screen_x11 : X11 screen := {|
  has_tfc := true;
  tfc_down k s := (put_down (code_of k) s, true);
  tfc_up k s := (put_up (code_of k) s, true);
  tfc_click k s :=
    (match k with KCapsLock => s <| s_caps := negb (s_caps s) |> | KNumLock => s <| s_num := negb (s_num s) |> | _ => s end, true);
  xdo_down k s := put_down (code_of k) s;
  xdo_up k s := put_up (code_of k) s;
  xdo_text _ s := s;
  xdo_state s := bit (is_held [50; 62] s) 1 + bit (s_caps s) 2 + bit (is_held [37; 105] s) 4 + bit (is_held [64; 108] s) 8
    + bit (s_num s) 16 + bit (is_held [133; 134] s) 64;
  xdo_mouse _ s := s;
  rdev_simulate b k s :=
    match b, k with
    | true, RawKey c => if valid_code c then put_down c s else s
    | false, RawKey c => put_up c s
    | false, ShiftLeft => put_up 50 s
    | false, ShiftRight => put_up 62 s
    | _, _ => s
    end;
  linux_key_from_code c :=
    match c with
    | 50 => ShiftLeft | 62 => ShiftRight | 37 => ControlLeft | 105 => ControlRight | 133 => MetaLeft | 134 => MetaRight | 64 => RAlt
    | 108 => AltGr | 23 => RTab | 36 => RReturn | 82 => KpMinus | _ => OtherKey c
    end;
  get_cursor_pos _ := None
|}.
Lemma mask_bits (a b c d e f : bool) : let mask := bit a 1 + bit e 2 + bit b 4 + bit c 8 + bit f 16 + bit d 64 in
  Z.testbit mask 0 = a ∧ Z.testbit mask 1 = e ∧ Z.testbit mask 2 = b ∧ Z.testbit mask 3 = c ∧ Z.testbit mask 4 = f ∧ Z.testbit mask 6 = d.
Proof. by destruct a, b, c, d, e, f. Qed.
Lemma put_down_leds c s : (c ≠ 66 → s_caps (put_down c s) = s_caps s) ∧ (c ≠ 77 → s_num (put_down c s) = s_num s)
  ∧ (66 ∉ s_held s → s_caps (put_down 66 s) = negb (s_caps s)) ∧ (77 ∉ s_held s → s_num (put_down 77 s) = negb (s_num s)).
Proof.
  split_and!; intros H; cbn; [by rewrite (proj2 (Z.eqb_neq c 66) H)|by rewrite (proj2 (Z.eqb_neq c 77) H)|by rewrite bool_decide_eq_false_2..].
Qed.
Lemma led_screen l s : Z.testbit (xdo_state s) (lock_bit l) = match l with CapsLock => s_caps s | NumLock => s_num s end.
Proof.
  destruct (mask_bits (is_held [50; 62] s) (is_held [37; 105] s) (is_held [64; 108] s) (is_held [133; 134] s) (s_caps s) (s_num s))
    as (_ & H1 & _ & _ & H2 & _). by destruct l.
Qed.
Lemma code_of_lock k l : k ≠ lock_key l → code_of k ≠ match l with CapsLock => 66 | NumLock => 77 end.
Proof. destruct l, k; try done; cbn; intros _; lia. Qed.
Lemma put_down_led l k s : k ≠ lock_key l → Z.testbit (xdo_state (put_down (code_of k) s)) (lock_bit l) = Z.testbit (xdo_state s) (lock_bit l).
Proof.
  intros Hk%code_of_lock. rewrite !led_screen. destruct (put_down_leds (code_of k) s) as (H1 & H2 & _). destruct l; auto.
Qed.
Lemma put_down_lock l s : ({[code_of (lock_key l)]} : gset Z) ## s_held s →
  Z.testbit (xdo_state (put_down (code_of (lock_key l)) s)) (lock_bit l) = negb (Z.testbit (xdo_state s) (lock_bit l)).
Proof.
  intros Hd. rewrite !led_screen. destruct (put_down_leds 0 s) as (_ & _ & H1 & H2). destruct l; [apply H1|apply H2]; set_solver.
Qed.
Lemma mask_screen m s : Z.testbit (xdo_state s) (kind_bit m) =
  bool_decide (s_held s ∩ ({[code_of (left_key m)]} ∪ {[code_of (right_key m)]}) ≠ ∅).
Proof.
  destruct (mask_bits (is_held [50; 62] s) (is_held [37; 105] s) (is_held [64; 108] s) (is_held [133; 134] s) (s_caps s) (s_num s))
    as (H0 & _ & H2 & H3 & _ & H6).
  assert (∀ a b, is_held [a; b] s = bool_decide (s_held s ∩ ({[a]} ∪ {[b]}) ≠ ∅)) as H.
  { intros a b. unfold is_held. apply bool_decide_ext. cbn. by rewrite (right_id_L ∅ _). }
  destruct m; cbn [kind_bit left_key right_key code_of]; rewrite <- H; done.
Qed.
#[local, refine] Instance screen_laws : X11Laws screen := {|
  held := s_held;
  codes k := {[code_of k]}
|}.
Proof.
  - done.
  - done.
  - intros k d. by destruct k.
  - done.
  - done.
  - done.
  - done.
  - intros c d. cbn. by destruct (valid_code c).
  - intros k d. destruct k; cbn; try done; apply subseteq_difference_l; done.
  - intros c d _. cbn. set_solver.
  - apply mask_screen.
  - intros m E. set_solver.
  - intros m E. set_solver.
  - intros m k Hl H1 H2. apply disjoint_singleton_l. intros [E|E]%elem_of_union; apply elem_of_singleton in E;
      destruct m, k; cbn in *; done.
  - intros l k d [Hk|[=]]. by apply put_down_led.
  - intros l d _. apply put_down_lock.
  - intros l k d. by rewrite !led_screen.
  - intros l k d [Hk|[=]]. rewrite !led_screen. by destruct l, k.
  - intros l d _. rewrite !led_screen. by destruct l.
  - intros l k d. apply put_down_led.
  - intros l d. apply put_down_lock.
  - intros l k d. by rewrite !led_screen.
  - done.
  - done.
  - intros l c d Hc. cbn [rdev_simulate screen_x11]. rewrite !led_screen. destruct (valid_code c); [|done].
    destruct (put_down_leds c d) as (H1 & H2 & _). destruct l; [apply H1|apply H2]; set_solver.
  - intros l c d Hc. cbn [rdev_simulate screen_x11]. by rewrite Hc.
  - intros l k d. rewrite !led_screen. by destruct l, k.
Defined.

Definition quiet : screen := mk_screen ∅ false false.
Definition typing : conn_input := mk_conn_input true false false [].
Definition map_key (down : bool) (code : Z) : KeyEvent := mk_key_event down false (Some (Chr code)) [] 1.
Definition legacy_key (down : bool) (u : KeyUnion) (mods : list Z) : KeyEvent := mk_key_event down false (Some u) mods 0.
Definition steps (t : Z) (n : nat) : list event := replicate n (Run t 1000).
(** A viewer holds Shift by position while another types a letter. *)
Definition two_viewers : list event :=
  [Message 1 typing (map_key true 50); Run 1 10; Message 2 typing (legacy_key true (Chr 97) [ck_Shift]); Run 2 11; Run 1 12; Run 2 13; Run 1 14].
Lemma two_viewers_sane : Forall sane_event two_viewers.
Proof. repeat constructor; vm_compute; done. Qed.
Lemma nothing_stays_down_witness :
  let w := wrun id two_viewers (start quiet) in
  exiting (inp w) = false ∧ 50 ∈ held (dev (inp w)) ∧
  ∀ c, c ∈ held (dev (inp w)) → c ∈ held quiet ∨ modifier_code c ∨ ∃ t p, threads w !! t = Some p ∧ pending c p.
Proof.
  cbv zeta. assert (exiting (inp (wrun id two_viewers (start quiet))) = false) as Hx by (vm_compute; reflexivity).
  split; [exact Hx|]. split; [apply (bool_decide_unpack _); vm_compute; exact I|].
  exact (proj1 (nothing_stays_down id quiet two_viewers 0 two_viewers_sane Hx)).
Defined.
Definition two_viewers_rest : list event := two_viewers ++ steps 2 8 ++ [Message 1 typing (map_key true 37)] ++ steps 1 4.
Lemma reset_releases_all_witness :
  let w := wrun id two_viewers_rest (start quiet) in
  let w' := wrun id (Fix 0 true 2000 :: replicate 4 (Run 0 2000)) w in
  37 ∈ held (dev (inp w)) ∧ keys_down (inp w') = ∅ ∧ ∀ c, c ∈ held (dev (inp w')) → c ∈ held quiet.
Proof.
  cbv zeta. split; [apply (bool_decide_unpack _); vm_compute; exact I|].
  pose proof (reset_releases_all id quiet two_viewers_rest 0 2000) as H. cbv zeta in H.
  assert ((2 * length (timed_out true 2000 (keys_down (inp (wrun id two_viewers_rest (start quiet))))))%nat = 4%nat) as E
    by (vm_compute; reflexivity).
  rewrite E in H. apply H; clear H E.
  - apply Forall_app. split; [exact two_viewers_sane|]. repeat constructor; vm_compute; done.
  - vm_compute. reflexivity.
  - vm_compute. reflexivity.
  - intros t p Ht. assert (map_Forall (λ _ p, p = []) (threads (wrun id two_viewers_rest (start quiet)))) as H.
    + apply (bool_decide_unpack _). vm_compute. exact I.
    + by apply (H t).
Defined.
Definition shifted : screen := mk_screen {[62]} true false.
Lemma modifiers_synced_witness :
  let e := legacy_key true (Chr 97) [ck_Control] in
  let r := sync_modifiers e ∅ shifted in
  kind_down KindControl r.1 ∧ ¬ kind_down KindShift r.1 ∧ held (release_keys r.2 r.1) ⊆ held shifted.
Proof.
  cbv zeta. destruct (modifiers_synced (legacy_key true (Chr 97) [ck_Control]) ∅ shifted) as [H1 H2].
  - reflexivity.
  - apply (bool_decide_unpack _). vm_compute. exact I.
  - vm_compute. reflexivity.
  - split; [apply H1; exists ck_Control, KControl; split; [apply elem_of_cons; by left|split; reflexivity]|]. split; [|exact H2].
    intros (v & k & Hv & Hk & Hm)%H1. apply elem_of_cons in Hv as [->|Hv]; [|by apply elem_of_nil in Hv].
    vm_compute in Hk. injection Hk as <-. discriminate Hm.
Defined.
(** A letter with CapsLock, as the viewer has it, on a side that has not. *)
Lemma locks_follow_viewer_witness :
  let e := (map_key true 38) <| modifiers := [ck_CapsLock] |> in
  let s := mk_input quiet ∅ false in
  lock_modes_for e = Some false ∧ led CapsLock (lock_modes_new e false quiet).1 = true ∧ led CapsLock (dev (handle_key_ id e 0 s)) = false.
Proof.
  cbv zeta. split; [reflexivity|].
  destruct (locks_follow_viewer id ((map_key true 38) <| modifiers := [ck_CapsLock] |>) 0 (mk_input quiet ∅ false)) as [H1 H2].
  - vm_compute. done.
  - intros l. destruct l; (split; [apply (bool_decide_unpack _); vm_compute; exact I|]); (split; [discriminate|]).
    + intros _. by exists false.
    + intros H. apply elem_of_cons in H as [H|H]; [discriminate H|by apply elem_of_nil in H].
  - reflexivity.
  - intros l. apply (bool_decide_unpack _). by destruct l; vm_compute.
  - split; [exact (proj1 (H2 false eq_refl))|]. rewrite H1. reflexivity.
Defined.
(** A dropped connection leaves its Shift down: its record of modifiers is empty. *)
Example dropped_connection :
  let c := (on_key_event (map_key true 50) typing).1 in
  let s := handle_key_ id (map_key true 50) 0 (mk_input quiet ∅ false) in
  pressed_modifiers c = [] ∧ 50 ∈ held (release_pressed_modifiers c (dev s)).2.
Proof. split; [reflexivity|]. apply (bool_decide_unpack _). vm_compute. exact I. Qed.
(** The AltGr a viewer holds is not found by the test for it. *)
Example altgr_not_found :
  let s := handle_key_ id (legacy_key true (ControlKey ck_RAlt) []) 0 (mk_input quiet ∅ false) in
  keys_down s = {[EnigoKey ck_RAlt := 0]} ∧ 108 ∈ held (dev s) ∧ is_altgr_pressed (keys_down s) = false.
Proof. split_and!; [vm_compute; reflexivity|apply (bool_decide_unpack _); vm_compute; exact I|vm_compute; reflexivity]. Qed.
(** Asking to lock the screen with Control held leaves Control down, unrecorded. *)
Example lock_screen_holds_control :
  let s := handle_key_ id (legacy_key true (ControlKey ck_LockScreen) [ck_Control]) 0 (mk_input quiet ∅ false) in
  37 ∈ held (dev s) ∧ keys_down s = ∅.
Proof. split; [apply (bool_decide_unpack _); vm_compute; exact I|vm_compute; reflexivity]. Qed.
(** The minus of the number pad with NumLock on the viewer's side turns it on here, and
    nothing turns it off. *)
Example minus_turns_num_lock_on :
  let s := handle_key_ id (legacy_key true (ControlKey 68) [ck_NumLock]) 0 (mk_input quiet ∅ false) in
  let s := handle_key_ id (legacy_key false (ControlKey 68) [ck_NumLock]) 0 s in
  led NumLock quiet = false ∧ led NumLock (dev s) = true ∧ keys_down s = ∅.
Proof. split_and!; vm_compute; reflexivity. Qed.
(** Forgotten keys are released between the two halves of a press: the key is held, and
    the record does not have it. *)
Example released_too_soon :
  let evs := [Message 1 typing (map_key true 50); Run 1 0; Run 1 0; Fix 0 true 1; Run 0 1; Run 0 1; Run 1 2] in
  let w := wrun id evs (start quiet) in
  calm_run id (start quiet) evs = false ∧ 50 ∈ held (dev (inp w)) ∧ keys_down (inp w) = ∅.
Proof. split_and!; [vm_compute; reflexivity|apply (bool_decide_unpack _); vm_compute; exact I|vm_compute; reflexivity]. Qed.
