(* ===== verification/TerminalText.v ===== *)
(** * Output of a terminal: whole characters, whole lines

    The text part of [src/server/terminal_service.rs]: [Utf8ChunkAccumulator]
    cuts what a terminal prints into pieces that end between characters, and
    [OutputBuffer] keeps the last lines of it for a viewer that comes back. *)
From S2P Require Import Prelude.
Local Open Scope nat_scope.

(** ** UTF-8

    [std::str::from_utf8]: the well-formed byte sequences of the Unicode standard,
    table 3-7. [width] is the length of the sequence a first byte begins. *)
Definition between (lo hi : N) (b : Byte.byte) : bool := ((lo <=? Byte.to_N b) && (Byte.to_N b <=? hi))%N.
Definition cont : Byte.byte → bool := between 0x80 0xBF.
Definition width (b : Byte.byte) : nat :=
  if between 0 0x7F b then 1 else if between 0xC2 0xDF b then 2
  else if between 0xE0 0xEF b then 3 else if between 0xF0 0xF4 b then 4 else 0.
Definition second_ok (b b2 : Byte.byte) : bool :=
  if (Byte.to_N b =? 0xE0)%N then between 0xA0 0xBF b2
  else if (Byte.to_N b =? 0xED)%N then between 0x80 0x9F b2
  else if (Byte.to_N b =? 0xF0)%N then between 0x90 0xBF b2
  else if (Byte.to_N b =? 0xF4)%N then between 0x80 0x8F b2 else cont b2.
Definition is_char (c : bytes) : bool :=
  match c with
  | [b] => width b =? 1
  | [b; b2] => (width b =? 2) && second_ok b b2
  | [b; b2; b3] => (width b =? 3) && second_ok b b2 && cont b3
  | [b; b2; b3; b4] => (width b =? 4) && second_ok b b2 && cont b3 && cont b4
  | _ => false
  end.
Fixpoint from_utf8 (s : bytes) : bool :=
  match s with
  | [] => true
  | b :: s1 =>
      (is_char [b] && from_utf8 s1) ||
      match s1 with
      | [] => false
      | b2 :: s2 =>
          (is_char [b; b2] && from_utf8 s2) ||
          match s2 with
          | [] => false
          | b3 :: s3 =>
              (is_char [b; b2; b3] && from_utf8 s3) ||
              match s3 with
              | [] => false
              | b4 :: s4 => is_char [b; b2; b3; b4] && from_utf8 s4
              end
          end
      end
  end.

(** ** [find_utf8_split_point] *)
Definition lead_len (b : Byte.byte) : option nat :=
  let b := Byte.to_N b in
  if (N.land b 0xE0 =? 0xC0)%N then Some 2
  else if (N.land b 0xF0 =? 0xE0)%N then Some 3
  else if (N.land b 0xF8 =? 0xF0)%N then Some 4
  else None.
(** The loop, over the indices still to visit. *)
Fixpoint split_scan (buf : bytes) (idx : list nat) : nat :=
  match idx with
  | [] => length buf
  | i :: idx =>
      let b := default Byte.x00 (buf !! i) in
      if (N.land (Byte.to_N b) 0x80 =? 0)%N then length buf
      else if (N.land (Byte.to_N b) 0xC0 =? 0x80)%N then split_scan buf idx
      else match lead_len b with
           | Some seq_len => if seq_len <=? length buf - i then length buf else i
           | None => length buf
           end
  end.
Definition find_utf8_split_point (buf : bytes) : nat :=
  if bool_decide (buf = []) then 0
  else
    let start := length buf - 3 in
    split_scan buf (rev (seq start (length buf - start))).

(** ** [Utf8ChunkAccumulator]

    The state is the bytes held back. *)
Definition push_chunk (remainder data : bytes) : option bytes * bytes :=
  if bool_decide (data = []) then (None, remainder)
  else
    let had_remainder := negb (bool_decide (remainder = [])) in
    let data := remainder ++ data in
    let split := find_utf8_split_point data in
    if split =? length data then (Some data, [])
    else if negb had_remainder && (0 <? split) && negb (from_utf8 (take split data))
    then (Some data, [])
    else
      let kept := take split data in
      (if bool_decide (kept = []) then None else Some kept, drop split data).
Definition finish (remainder : bytes) : option bytes * bytes :=
  if bool_decide (remainder = []) then (None, []) else (Some remainder, []).

(** The pieces of a list of reads, and what is held back after them. *)
Definition push_all (remainder : bytes) (reads : list bytes) : list bytes * bytes :=
  foldl (λ s data, let '(out, r) := push_chunk s.2 data in (s.1 ++ option_list out, r))
    ([], remainder) reads.

(** The source's own tests. *)
Definition b8 (l : list nat) : bytes := default Byte.x00 ∘ Byte.of_N ∘ N.of_nat <$> l.
Example split_point_incomplete : find_utf8_split_point (b8 [97; 0xE4; 0xB8]) = 1.
Proof. reflexivity. Qed.
Example split_point_malformed_prefix : find_utf8_split_point (b8 [0xFF; 0xE4]) = 1.
Proof. reflexivity. Qed.
Example split_point_orphans : find_utf8_split_point (b8 [0x80; 0x81; 0x82]) = 3.
Proof. reflexivity. Qed.
Example chunks_leading_split :
  push_all [] [b8 [0xE4]; b8 [0xB8]; b8 [0xAD]] = ([b8 [0xE4; 0xB8; 0xAD]], []).
Proof. reflexivity. Qed.
Example chunks_no_hold_back : push_all [] [b8 [0xFF; 0xE4]] = ([b8 [0xFF; 0xE4]], []).
Proof. reflexivity. Qed.
Example chunks_flush : push_chunk [] (b8 [97; 0xE4]) = (Some (b8 [97]), b8 [0xE4])
  ∧ finish (b8 [0xE4]) = (Some (b8 [0xE4]), []).
Proof. by split. Qed.

(** ** Text, as a sequence of characters *)
Inductive text : bytes → Prop :=
| text_nil : text []
| text_char c s : is_char c = true → text s → text (c ++ s).
#[export] Hint Constructors text : core.

Lemma is_char_length c : is_char c = true → 1 ≤ length c ≤ 4.
Proof. destruct c as [|? [|? [|? [|? [|]]]]]; cbn; [done|lia..|done]. Qed.
Lemma text_single c : is_char c = true → text c.
Proof. intros Hc. rewrite <- (app_nil_r c). by constructor. Qed.
Lemma text_app s t : text s → text t → text (s ++ t).
Proof. induction 1; intros; [done|]. rewrite <- app_assoc. auto. Qed.
#[export] Hint Resolve text_single text_app : core.
Lemma text_concat ss : Forall text ss → text (concat ss).
Proof. induction 1; cbn; auto. Qed.

Lemma from_utf8_text s : from_utf8 s = true ↔ text s.
Proof.
  split.
  - remember (length s) as n eqn:Hn. revert s Hn.
    induction (lt_wf n) as [n _ IH]. intros s -> Hs.
    assert (∀ c t, s = c ++ t → is_char c && from_utf8 t = true → text s) as Hgo.
    { intros c t -> [Hc Ht]%andb_prop. constructor; [done|].
      eapply IH; [|reflexivity|done]. apply is_char_length in Hc. rewrite length_app. lia. }
    destruct s as [|b s1]; [done|]. cbn [from_utf8] in Hs.
    apply orb_prop in Hs as [Hs|Hs]; [by apply (Hgo [b] s1)|]. destruct s1 as [|b2 s2]; [done|].
    apply orb_prop in Hs as [Hs|Hs]; [by apply (Hgo [b; b2] s2)|]. destruct s2 as [|b3 s3]; [done|].
    apply orb_prop in Hs as [Hs|Hs]; [by apply (Hgo [b; b2; b3] s3)|]. destruct s3 as [|b4 s4]; [done|].
    by apply (Hgo [b; b2; b3; b4] s4).
  - induction 1 as [|c s Hc Hs IH]; [done|].
    destruct c as [|b [|b2 [|b3 [|b4 [|]]]]]; try done; cbn [app from_utf8]; rewrite Hc, IH;
      cbn [andb]; rewrite ?orb_true_r; done.
Qed.

(** A first byte and a following byte, as the bit tests see them. *)
Definition first_byte (b : Byte.byte) (w : nat) : bool :=
  if w =? 1 then (N.land (Byte.to_N b) 0x80 =? 0)%N
  else negb (N.land (Byte.to_N b) 0x80 =? 0)%N && negb (N.land (Byte.to_N b) 0xC0 =? 0x80)%N
       && bool_decide (lead_len b = Some w).
Lemma width_bits b : width b ≠ 0 → first_byte b (width b) = true.
Proof. destruct b; vm_compute; congruence. Qed.
Lemma cont_bits b : cont b = true → (N.land (Byte.to_N b) 0x80 =? 0)%N = false ∧ (N.land (Byte.to_N b) 0xC0 =? 0x80)%N = true.
Proof. destruct b; vm_compute; (discriminate || by split). Qed.
Lemma second_cont b b2 : second_ok b b2 = true → cont b2 = true.
Proof. unfold second_ok. repeat case_match; destruct b2; vm_compute; (done || discriminate). Qed.
Lemma width_cont b : cont b = true → width b = 0.
Proof. destruct b; vm_compute; (done || discriminate). Qed.

(** A character is its first byte, of that width, and following bytes. *)
Lemma is_char_shape c : is_char c = true →
  ∃ b t, c = b :: t ∧ width b = S (length t) ∧ Forall (λ b, cont b = true) t.
Proof.
  intros Hc. destruct c as [|b t]; [done|]. exists b, t. split; [done|].
  destruct t as [|b2 [|b3 [|b4 [|]]]]; cbn [is_char] in Hc; try done;
    repeat match goal with H : _ && _ = true |- _ => apply andb_prop in H as [? ?] end;
    match goal with H : (width _ =? _) = true |- _ => apply Nat.eqb_eq in H end;
    try match goal with H : second_ok _ _ = true |- _ => apply second_cont in H end;
    split; auto.
Qed.

(** ** Where [find_utf8_split_point] cuts *)
Lemma split_scan_tail p u : length u ≤ 3 → u ≠ [] →
  find_utf8_split_point (p ++ u)
  = split_scan (p ++ u) (rev (seq (length p) (length u)) ++ rev (seq (length p + length u - 3) (3 `min` (length p + length u) - length u))).
Proof.
  intros Hu Hne. unfold find_utf8_split_point. rewrite bool_decide_eq_false_2; [|by destruct p, u].
  rewrite length_app. set (start := length p + length u - 3). f_equal. rewrite <- rev_app_distr. f_equal.
  replace (length p + length u - start) with ((3 `min` (length p + length u) - length u) + length u) by lia.
  rewrite seq_app. do 2 f_equal. lia.
Qed.

(** From the back over following bytes. *)
Lemma split_scan_conts p t more : Forall (λ b, cont b = true) t →
  ∀ rest, split_scan ((p ++ t) ++ rest) (rev (seq (length p) (length t)) ++ more)
          = split_scan ((p ++ t) ++ rest) more.
Proof.
  induction t as [|b t IH] using rev_ind; intros Ht rest; [done|].
  apply Forall_app in Ht as [Ht Hb]. inversion Hb as [|? ? Hb' _]; subst.
  rewrite length_app, seq_app, rev_app_distr. cbn [length seq rev app split_scan].
  assert (((p ++ t ++ [b]) ++ rest) !! (length p + length t) = Some b) as ->.
  { rewrite app_assoc, <- (app_assoc _ [b]). rewrite lookup_app_r; rewrite length_app; [|lia].
    by rewrite Nat.sub_diag. }
  change (default Byte.x00 (Some b)) with b. destruct (cont_bits _ Hb') as [-> ->].
  rewrite (app_assoc p), <- (app_assoc _ [b]). by apply IH.
Qed.

Lemma split_scan_first p b t more : width b ≠ 0 →
  split_scan (p ++ b :: t) (length p :: more)
  = if width b <=? S (length t) then length (p ++ b :: t) else length p.
Proof.
  intros Hw. cbn [split_scan]. rewrite lookup_app_r by done. rewrite Nat.sub_diag.
  change (default Byte.x00 ((b :: t) !! 0)) with b.
  pose proof (width_bits b Hw) as Hb. unfold first_byte in Hb.
  destruct (width b) as [|[|w]] eqn:Hwb; [done|..]; cbn [Nat.eqb] in Hb.
  - by rewrite Hb.
  - apply andb_prop in Hb as [[H80 HC0]%andb_prop Hl]. apply negb_true_iff in H80, HC0.
    apply bool_decide_eq_true in Hl. rewrite H80, HC0, Hl, length_app. cbn [length].
    by replace (length p + S (length t) - length p) with (S (length t)) by lia.
Qed.

(** A first byte and at most two following ones at the end. *)
Lemma find_tail p b t : width b ≠ 0 → length t ≤ 2 → Forall (λ b, cont b = true) t →
  find_utf8_split_point (p ++ b :: t) = if width b <=? S (length t) then length (p ++ b :: t) else length p.
Proof.
  intros Hw Hl Ht. rewrite split_scan_tail by (cbn; lia || done).
  cbn [length seq rev]. rewrite <- app_assoc.
  pose proof (split_scan_conts (p ++ [b]) t
    ([length p] ++ rev (seq (length p + S (length t) - 3) (3 `min` (length p + S (length t)) - S (length t)))) Ht []) as Hc.
  rewrite !app_nil_r, length_app, Nat.add_1_r, <- app_assoc in Hc. cbn [app] in Hc |- *. rewrite Hc.
  by apply split_scan_first.
Qed.

Lemma text_last s : text s → s = [] ∨ ∃ p c, is_char c = true ∧ s = p ++ c.
Proof.
  induction 1 as [|c s Hc Hs IH]; [by left|right].
  destruct IH as [->|(p & c' & Hc' & ->)]; [exists [], c|exists (c ++ p), c']; rewrite ?app_nil_r, ?app_assoc; auto.
Qed.
Lemma find_whole s : text s → find_utf8_split_point s = length s.
Proof.
  intros [->|(p & c & Hc & ->)]%text_last; [done|].
  destruct (is_char_shape _ Hc) as (b & t & -> & Hw & Ht).
  pose proof (is_char_length _ Hc) as Hl. cbn [length] in Hl.
  destruct (decide (length t = 3)) as [H3|H3].
  - replace (p ++ b :: t) with ((p ++ [b]) ++ t) by by rewrite <- app_assoc.
    rewrite split_scan_tail by (lia || by destruct t).
    rewrite H3, Nat.min_l by lia. cbn [Nat.sub]. rewrite <- H3.
    pose proof (split_scan_conts (p ++ [b]) t [] Ht []) as Hc'. by rewrite !app_nil_r in *.
  - rewrite find_tail by (done || lia). rewrite Hw. by rewrite (proj2 (Nat.leb_le _ _)) by lia.
Qed.

(** The beginning of a character, not all of it. *)
Definition partial (u : bytes) : Prop := ∃ v, v ≠ [] ∧ is_char (u ++ v) = true.
Lemma partial_nil : partial [].
Proof. by exists (b8 [97]). Qed.
#[export] Hint Resolve partial_nil : core.
Lemma partial_length u : partial u → length u ≤ 3.
Proof. intros (v & Hv & Hc%is_char_length). rewrite length_app in Hc. destruct v; [done|]. cbn in Hc. lia. Qed.

Lemma find_partial s u : text s → partial u → find_utf8_split_point (s ++ u) = length s.
Proof.
  intros Hs Hp. destruct u as [|b t]; [rewrite app_nil_r; by apply find_whole|].
  pose proof (partial_length _ Hp) as Hl. destruct Hp as (v & Hv & Hc). cbn [length] in Hl.
  destruct (is_char_shape _ Hc) as (b' & t' & [= <- <-] & Hw & Ht).
  apply Forall_app in Ht as [Ht _]. rewrite length_app in Hw.
  assert (length v ≠ 0) by by destruct v.
  rewrite find_tail by (done || lia). rewrite Hw. by rewrite (proj2 (Nat.leb_gt _ _)) by lia.
Qed.

(** Characters are delimited by their first bytes. *)
Lemma text_cancel s w : text s → text (s ++ w) → text w.
Proof.
  induction 1 as [|c s Hc Hs IH]; [done|]. rewrite <- app_assoc. intros Ht. apply IH.
  inversion Ht as [Hn|c' s' Hc' Hs' Heq]; [by destruct c|].
  assert (length c' = length c) as Hl.
  { destruct (is_char_shape _ Hc) as (b & t & -> & Hw & _), (is_char_shape _ Hc') as (b' & t' & -> & Hw' & _).
    simplify_list_eq. congruence. }
  apply app_inj_1 in Heq as [-> <-]; [done|by rewrite Hl].
Qed.

(** Every beginning of a text is text and a part of a character. *)
Lemma text_cut a t : text (a ++ t) → ∃ s u, a = s ++ u ∧ text s ∧ partial u.
Proof.
  remember (a ++ t) as w eqn:Hw. intros Htx. revert a Hw.
  induction Htx as [|c w Hc Hs IH]; intros a Hw.
  - symmetry in Hw. apply app_nil in Hw as [-> ->]. by exists [], [].
  - destruct (app_eq_inv _ _ _ _ Hw) as [(v & -> & Ht)|(v & -> & ->)].
    + destruct v as [|x v]; [exists a, []; rewrite !app_nil_r in *; auto|].
      exists [], a. split_and!; [done|auto|]. by exists (x :: v).
    + destruct (IH v eq_refl) as (s & u & -> & Hs' & Hu).
      exists (c ++ s), u. rewrite app_assoc. auto.
Qed.

(** ** The pieces *)
Lemma split_scan_bound buf idx lo : Forall (λ i, lo ≤ i ≤ length buf) idx → lo ≤ length buf →
  lo ≤ split_scan buf idx ≤ length buf.
Proof.
  intros Hi Hlo. induction Hi as [|i idx Hb Hi IH]; cbn [split_scan]; [lia|].
  repeat case_match; lia.
Qed.
Lemma find_bounds buf : length buf - 3 ≤ find_utf8_split_point buf ≤ length buf.
Proof.
  unfold find_utf8_split_point. case_bool_decide as Hb; [by subst; cbn|].
  apply split_scan_bound; [|lia]. apply Forall_rev, Forall_forall.
  intros i Hi%elem_of_seq. lia.
Qed.

Lemma push_chunk_spec r d o r' : push_chunk r d = (o, r') → length r ≤ 3 →
  concat (option_list o) ++ r' = r ++ d ∧ length r' ≤ 3 ∧ Forall (.≠ []) (option_list o).
Proof.
  intros Hp Hr. pose proof (find_bounds (r ++ d)) as Hf. unfold push_chunk in Hp.
  case_bool_decide as Hd; [subst; simplify_eq; cbn; rewrite app_nil_r; auto|].
  assert (r ++ d ≠ []) by by destruct r.
  destruct (_ =? _) eqn:Hs; [simplify_eq; cbn; rewrite !app_nil_r; split_and!; [done|lia|by constructor]|].
  destruct (negb _ && _ && _); [simplify_eq; cbn; rewrite !app_nil_r; split_and!; [done|lia|by constructor]|].
  simplify_eq. rewrite length_drop. split_and!; [|lia|by case_bool_decide; repeat constructor].
  transitivity (take (find_utf8_split_point (r ++ d)) (r ++ d) ++ drop (find_utf8_split_point (r ++ d)) (r ++ d));
    [f_equal|by rewrite take_drop].
  case_bool_decide as Hk; cbn; [done|by rewrite app_nil_r].
Qed.

Lemma push_chunk_text r d o r' rest : push_chunk r d = (o, r') → partial r → text ((r ++ d) ++ rest) →
  Forall text (option_list o) ∧ partial r'.
Proof.
  intros Hp Hr Ht. unfold push_chunk in Hp. case_bool_decide as Hd; [simplify_eq; by cbn|].
  destruct (text_cut _ _ Ht) as (s & u & Hsu & Hs & Hu). rewrite Hsu, (find_partial _ _ Hs Hu) in Hp.
  rewrite take_app_length, drop_app_length in Hp. rewrite (proj2 (from_utf8_text s) Hs), andb_false_r in Hp.
  destruct (_ =? _) eqn:Hl.
  - simplify_eq. apply Nat.eqb_eq in Hl. rewrite length_app in Hl. assert (u = []) as -> by by destruct u; cbn in *; [|lia].
    rewrite app_nil_r. cbn. auto.
  - simplify_eq. split; [|done]. case_bool_decide; cbn; auto.
Qed.

(** Reads one after the other. *)
Lemma push_all_snoc r reads d : push_all r (reads ++ [d]) =
  (let '(out, r1) := push_all r reads in let '(o, r2) := push_chunk r1 d in (out ++ option_list o, r2)).
Proof. unfold push_all. rewrite foldl_app. cbn. destruct (foldl _ _ _) as [out r1]. done. Qed.

Lemma push_all_spec reads : let '(out, r) := push_all [] reads in
  concat out ++ r = concat reads ∧ length r ≤ 3 ∧ Forall (.≠ []) out
  ∧ ∀ rest, text (concat reads ++ rest) → Forall text out ∧ partial r.
Proof.
  induction reads as [|d reads IH] using rev_ind; [cbn; split_and!; auto with lia|].
  rewrite push_all_snoc. destruct (push_all [] reads) as [out r]. destruct IH as (Hc & Hl & Hn & Ht).
  destruct (push_chunk r d) as [o r'] eqn:Hp. destruct (push_chunk_spec _ _ _ _ Hp Hl) as (Hc' & Hl' & Hn').
  assert (concat (out ++ option_list o) ++ r' = concat (reads ++ [d])) as Hall.
  { rewrite !concat_app, <- app_assoc, Hc', app_assoc, Hc. cbn. by rewrite app_nil_r. }
  split_and!; [done|done|by apply Forall_app|].
  intros rest Hx. rewrite concat_app in Hx. cbn in Hx. rewrite app_nil_r, <- app_assoc in Hx.
  destruct (Ht _ Hx) as [Ho Hr]. rewrite <- Hc, <- app_assoc, (app_assoc r) in Hx.
  apply text_cancel in Hx; [|by apply text_concat].
  destruct (push_chunk_text _ _ _ _ _ Hp Hr Hx) as [Ho2 Hr2]. split; [by apply Forall_app|done].
Qed.

(** However the output of a terminal is cut into reads, the pieces passed on
    are the output without gaps; at most three bytes are held back, and the end of
    the output releases them. When the output is text, so far as it has come, every
    piece is text: no character is cut, and what is held back is the beginning of
    one character. *)
Theorem chunks_whole reads :
  let '(out, r) := push_all [] reads in
  concat out ++ r = concat reads ∧ length r ≤ 3 ∧ Forall (.≠ []) out
  ∧ concat (out ++ option_list (finish r).1) = concat reads
  ∧ ∀ rest, text (concat reads ++ rest) → Forall (λ c, from_utf8 c = true) out ∧ partial r.
Proof.
  pose proof (push_all_spec reads) as H. destruct (push_all [] reads) as [out r]. destruct H as (Hc & Hl & Hn & Ht).
  split_and!; [done..| |].
  - rewrite concat_app, <- Hc. f_equal. unfold finish. case_bool_decide; cbn; subst; by rewrite ?app_nil_r.
  - intros rest Hx. destruct (Ht _ Hx) as [Ho Hr]. split; [|done].
    eapply Forall_impl; [exact Ho|intros ?; apply from_utf8_text].
Qed.
Lemma chunks_whole_witness :
  let reads := [b8 [0xE4]; b8 [0xB8; 0xAD; 97]; b8 [0xF0; 0x9F]] in
  push_all [] reads = ([b8 [0xE4; 0xB8; 0xAD; 97]], b8 [0xF0; 0x9F])
  ∧ from_utf8 (b8 [0xE4; 0xB8; 0xAD; 97]) = true ∧ partial (b8 [0xF0; 0x9F]).
Proof.
  intros reads.
  assert (push_all [] reads = ([b8 [0xE4; 0xB8; 0xAD; 97]], b8 [0xF0; 0x9F])) as E by reflexivity.
  split; [exact E|]. pose proof (chunks_whole reads) as H. rewrite E in H.
  destruct H as (_ & _ & _ & _ & H).
  destruct (H (b8 [0x98; 0x80]) ltac:(by apply from_utf8_text)) as [H1 H2].
  split; [exact (Forall_inv H1)|exact H2].
Defined.

(** ** [OutputBuffer] *)
Definition MAX_OUTPUT_BUFFER_SIZE : Z := 1024 * 1024.
Definition MAX_BUFFER_LINES : Z := 10000.
Definition newline : Byte.byte := Byte.x0a.
Record OutputBuffer := mk_buffer {
  lines : list bytes;
  total_size : Z;
  last_line_incomplete : bool
}.
#[export] Instance OutputBuffer_eta : Eta OutputBuffer := λ r,
  mk_buffer (lines r) (total_size r) (last_line_incomplete r).
Definition buffer_new : OutputBuffer := mk_buffer [] 0 false.
Definition size (l : bytes) : Z := Z.of_nat (length l).
Definition sizes (ls : list bytes) : Z := foldr Z.add 0%Z (size <$> ls).

(** [split(|&b| b == b'\n')]: the pieces between newlines, at least one. *)
Fixpoint split_lines (s : bytes) : list bytes :=
  match s with
  | [] => [[]]
  | b :: s =>
      if Byte.eqb b newline then [] :: split_lines s
      else match split_lines s with
           | [] => [[b]]
           | l :: ls => (b :: l) :: ls
           end
  end.
(** [position(|&b| b == b'\n')] *)
Fixpoint newline_pos (s : bytes) : option nat :=
  match s with
  | [] => None
  | b :: s => if Byte.eqb b newline then Some 0 else S <$> newline_pos s
  end.

Definition push_line (count : nat) (ends_with_newline : bool) (b : OutputBuffer) (il : nat * bytes) : OutputBuffer :=
  let '(i, line) := il in
  let b := if (i =? count - 1) && negb ends_with_newline && negb (bool_decide (line = []))
           then b <| last_line_incomplete := true |> else b in
  if negb (bool_decide (line = [])) || (i <? count - 1) then
    let line_data := if (i <? count - 1) || ends_with_newline then line ++ [newline] else line in
    b <| total_size ::= λ t, (t + size line_data)%Z |> <| lines ::= λ ls, ls ++ [line_data] |>
  else b.

(** The loop that drops the oldest lines. *)
Fixpoint trim_lines (ls : list bytes) (total : Z) (incomplete : bool) : OutputBuffer :=
  if (MAX_OUTPUT_BUFFER_SIZE <? total)%Z || (MAX_BUFFER_LINES <? Z.of_nat (length ls))%Z then
    match ls with
    | [] => mk_buffer [] 0 false
    | removed :: ls =>
        let total := if (total <? size removed)%Z then sizes ls else (total - size removed)%Z in
        trim_lines ls total (if bool_decide (ls = []) then false else incomplete)
    end
  else mk_buffer ls total incomplete.

(** [last_line.extend_from_slice(more)] *)
Definition extend_last (more : bytes) (b : OutputBuffer) : OutputBuffer :=
  b <| lines ::= λ ls, match last ls with Some l => removelast ls ++ [l ++ more] | None => ls end |>
    <| total_size ::= λ t, (t + size more)%Z |>.
Definition append_lines (b : OutputBuffer) (remaining : bytes) : OutputBuffer :=
  let ends_with_newline := bool_decide (last remaining = Some newline) in
  let pieces := split_lines remaining in
  let b := foldl (push_line (length pieces) ends_with_newline) b (imap pair pieces) in
  trim_lines (lines b) (total_size b) (last_line_incomplete b).
Definition append (b : OutputBuffer) (data : bytes) : OutputBuffer :=
  if bool_decide (data = []) then b
  else if last_line_incomplete b && negb (bool_decide (lines b = [])) then
    match newline_pos data with
    | Some pos =>
        append_lines ((extend_last (take (S pos) data) b) <| last_line_incomplete := false |>) (drop (S pos) data)
    | None => extend_last data b
    end
  else append_lines b data.

(** [get_recent]: the loop over the lines from the newest; [size] is what is
    taken so far. *)
Fixpoint skip_conts (n : nat) (l : bytes) : bytes :=
  match n, l with
  | S n, b :: l' => if (N.land (Byte.to_N b) 0xC0 =? 0x80)%N then skip_conts n l' else l
  | _, _ => l
  end.
Fixpoint recent_chunks (newest : list bytes) (max_bytes size : nat) : list bytes :=
  match newest with
  | [] => []
  | line :: older =>
      if max_bytes <? size + length line then
        if (size =? 0) && (max_bytes <? length line) then
          let tail := skip_conts 3 (drop (length line - max_bytes) line) in
          if bool_decide (tail = []) then [] else [tail]
        else []
      else line :: recent_chunks older max_bytes (size + length line)
  end.
Definition get_recent (b : OutputBuffer) (max_bytes : nat) : bytes :=
  if max_bytes =? 0 then []
  else concat (rev (recent_chunks (rev (lines b)) max_bytes 0)).

(** The source's own test, at a smaller size. *)
Definition appends (b : OutputBuffer) (chunks : list bytes) : OutputBuffer := foldl append b chunks.
Example append_example :
  let b := appends buffer_new [lit_bytes "hel"; lit_bytes "lo
x
y"; lit_bytes "z
"] in
  lines b = [lit_bytes "hello
"; lit_bytes "x
"; lit_bytes "yz
"] ∧ total_size b = sizes (lines b) ∧ last_line_incomplete b = false ∧
  get_recent b 5 = lit_bytes "x
yz
" ∧ get_recent b 2 = lit_bytes "z
".
Proof. vm_compute. done. Qed.

(** ** What the buffer holds *)
Definition whole (l : bytes) : Prop := ∃ t, l = t ++ [newline] ∧ newline ∉ t.
Definition shape (ls : list bytes) (incomplete : bool) : Prop :=
  if incomplete then ∃ ls' l, ls = ls' ++ [l] ∧ Forall whole ls' ∧ l ≠ [] ∧ newline ∉ l
  else Forall whole ls.
(** The lines that are complete. *)
Definition finished (b : OutputBuffer) : list bytes :=
  if last_line_incomplete b then removelast (lines b) else lines b.
Record buffer_ok (b : OutputBuffer) : Prop := {
  ok_size : total_size b = sizes (lines b);
  ok_shape : shape (lines b) (last_line_incomplete b);
  ok_count : (Z.of_nat (length (lines b)) ≤ MAX_BUFFER_LINES)%Z;
  ok_bound : (sizes (finished b) ≤ MAX_OUTPUT_BUFFER_SIZE)%Z
}.

#[global] Arguments size : simpl never.
#[global] Arguments sizes : simpl never.
Lemma sizes_cons l ls : sizes (l :: ls) = (size l + sizes ls)%Z.
Proof. done. Qed.
Lemma size_app l l' : size (l ++ l') = (size l + size l')%Z.
Proof. unfold size. rewrite length_app. lia. Qed.
Lemma sizes_concat ls : sizes ls = size (concat ls).
Proof. induction ls as [|l ls IH]; [done|]. cbn [concat]. by rewrite sizes_cons, IH, size_app. Qed.
Lemma sizes_app ls ls' : sizes (ls ++ ls') = (sizes ls + sizes ls')%Z.
Proof. by rewrite !sizes_concat, concat_app, size_app. Qed.
Lemma sizes_nonneg ls : (0 ≤ sizes ls)%Z.
Proof. rewrite sizes_concat. unfold size. lia. Qed.
Lemma byte_eqb_spec b c : reflect (b = c) (Byte.eqb b c).
Proof. apply iff_reflect. split; [apply Byte.byte_dec_lb|apply Byte.byte_dec_bl]. Qed.

(** Pieces between newlines. *)
Lemma split_lines_spec s : ∃ init lst, split_lines s = init ++ [lst]
  ∧ s = concat ((.++ [newline]) <$> init) ++ lst ∧ Forall (λ l, newline ∉ l) (init ++ [lst])
  ∧ (last s = Some newline → lst = []).
Proof.
  induction s as [|b s (init & lst & Hs & Hc & Hn & Hl)]; cbn [split_lines].
  - exists [], []. split_and!; [done|done| |done]. repeat constructor. set_solver.
  - destruct (byte_eqb_spec b newline) as [->|Hb].
    + exists ([] :: init), lst. rewrite Hs. split_and!; [done|by rewrite Hc at 1| |].
      * constructor; [set_solver|done].
      * intros Hlast. destruct s as [|c s]; [|by apply Hl].
        destruct init as [|[]]; cbn in Hc; [done|done|done].
    + rewrite Hs. destruct init as [|l init]; cbn [app].
      * exists [], (b :: lst). cbn in Hc |- *. subst s. split_and!; [done|done| |].
        -- inversion Hn; subst. repeat constructor. set_solver.
        -- intros Hlast. destruct lst as [|c lst]; [by simplify_eq/=|]. by discriminate Hl.
      * exists ((b :: l) :: init), lst. split_and!; [done|by rewrite Hc at 1| |].
        -- inversion Hn; subst. constructor; [set_solver|done].
        -- intros Hlast. destruct s as [|c s]; [by destruct l|]. by apply Hl.
Qed.

Lemma push_lines_init n ends b init k : k + length init < n →
  foldl (push_line n ends) b (imap (λ i, pair (k + i)) init)
  = mk_buffer (lines b ++ ((.++ [newline]) <$> init)) (total_size b + sizes ((.++ [newline]) <$> init)) (last_line_incomplete b).
Proof.
  revert b k. induction init as [|l init IH]; intros b k Hk.
  - cbn. rewrite app_nil_r, Z.add_0_r. by destruct b.
  - cbn [length] in Hk. rewrite imap_cons. cbn [foldl]. unfold push_line at 2.
    rewrite Nat.add_0_r, (proj2 (Nat.eqb_neq _ _)), (proj2 (Nat.ltb_lt _ _)) by lia. cbn [andb orb].
    rewrite orb_true_r.
    rewrite (imap_ext _ (λ i, pair (S k + i))) by (intros; cbn; f_equal; lia).
    rewrite IH by lia. destruct b as [ls t f]. unfold upd. cbn. rewrite sizes_cons. f_equal; [by rewrite <- app_assoc|lia].
Qed.

Definition tail_line (lst : bytes) : list bytes := if bool_decide (lst = []) then [] else [lst].
Lemma append_lines_spec b data init lst : split_lines data = init ++ [lst] →
  append_lines b data =
  trim_lines (lines b ++ ((.++ [newline]) <$> init) ++ tail_line lst)
    (total_size b + size data) (last_line_incomplete b || negb (bool_decide (lst = []))).
Proof.
  intros Hs. destruct (split_lines_spec data) as (init' & lst' & Hs' & Hd & _ & Hl).
  rewrite Hs in Hs'. apply app_inj_tail in Hs' as [<- <-]. unfold append_lines. rewrite Hs.
  rewrite imap_app, foldl_app, length_app. cbn [length].
  pose proof (push_lines_init (length init + 1) (bool_decide (last data = Some newline)) b init 0 ltac:(lia)) as Hi.
  rewrite (imap_ext _ pair) in Hi by done. rewrite Hi. cbn [imap foldl]. unfold push_line, tail_line.
  replace (length init + 1 - 1) with (length init) by lia.
  rewrite Nat.add_0_r, Nat.eqb_refl, Nat.ltb_irrefl. cbn [andb orb].
  assert (size data = sizes ((.++ [newline]) <$> init) + size lst)%Z as ->.
  { rewrite Hd at 1. by rewrite size_app, sizes_concat. }
  destruct (bool_decide_reflect (lst = [])) as [->|Hlst]; cbn [negb andb orb].
  - rewrite andb_false_r. cbn. rewrite orb_false_r, app_nil_r. f_equal. unfold size. cbn. lia.
  - rewrite bool_decide_eq_false_2 by tauto. cbn. rewrite orb_true_r, <- app_assoc. f_equal. lia.
Qed.

(** ** Dropping the oldest lines *)
Lemma shape_drop l ls inc : shape (l :: ls) inc → shape ls (if bool_decide (ls = []) then false else inc).
Proof.
  unfold shape. case_bool_decide as Hls; [by subst|]. destruct inc.
  - intros (ls' & l' & Heq & Hw & Hl). destruct ls' as [|x ls']; simplify_list_eq. exists ls', l'. inversion Hw. auto.
  - by inversion 1.
Qed.
Lemma trim_lines_spec ls inc : shape ls inc →
  ∃ old, ls = old ++ lines (trim_lines ls (sizes ls) inc) ∧ buffer_ok (trim_lines ls (sizes ls) inc).
Proof.
  revert inc. induction ls as [|l ls IH]; intros inc Hsh; cbn [trim_lines].
  - exists []. rewrite sizes_concat. cbn [length].
    change (size (concat [])) with 0%Z. destruct inc; [by destruct Hsh as ([|] & ? & ? & _)|].
    by repeat split.
  - destruct (_ || _) eqn:Hbig.
    + rewrite sizes_cons. pose proof (sizes_nonneg ls). rewrite (proj2 (Z.ltb_ge _ _)) by lia.
      replace (size l + sizes ls - size l)%Z with (sizes ls) by lia.
      destruct (IH _ (shape_drop _ _ _ Hsh)) as (old & Hold & Hok). exists (l :: old).
      split; [by rewrite Hold at 1|done].
    + exists []. split; [done|]. apply orb_false_elim in Hbig as [Hb1 Hb2].
      apply Z.ltb_ge in Hb1, Hb2. split; cbn [lines total_size last_line_incomplete]; [done|done|done|].
      unfold finished. cbn [lines last_line_incomplete]. destruct inc; [|done].
      destruct Hsh as (ls' & l' & Heq & _). rewrite Heq in *. rewrite removelast_last. rewrite sizes_app in Hb1.
      pose proof (sizes_nonneg [l']). lia.
Qed.

(** ** Appending *)
(** What an operation does to the buffer: the lines it leaves are the last ones of
    what there was and what came, and they are text if all of it was. *)
Record appended (b : OutputBuffer) (data : bytes) (b' : OutputBuffer) : Prop := {
  appended_ok : buffer_ok b';
  appended_suffix : ∃ old, concat (lines b) ++ data = old ++ concat (lines b');
  appended_text : Forall text (lines b) → text data → Forall text (lines b')
}.

Lemma char_newline c : is_char c = true → newline ∈ c → c = [newline].
Proof.
  intros Hc Hn. destruct (is_char_shape _ Hc) as (b & t & -> & Hw & Ht).
  apply elem_of_cons in Hn as [<-|Hn].
  - destruct t; [done|]. by change (width newline) with 1 in Hw.
  - rewrite Forall_forall in Ht. by specialize (Ht _ Hn).
Qed.
Lemma text_newline a c : text (a ++ [newline] ++ c) → text (a ++ [newline]) ∧ text c.
Proof.
  intros Ht. assert (text (a ++ [newline])) as Ha.
  { rewrite app_assoc in Ht. destruct (text_cut _ _ Ht) as (s & u & Heq & Hs & v & Hv & Hc).
    destruct u as [|x u _] using rev_ind; [by rewrite Heq, app_nil_r|].
    rewrite app_assoc in Heq. apply app_inj_tail in Heq as [_ <-].
    apply char_newline in Hc; [|set_solver]. destruct u as [|? []], v; simplify_list_eq. }
  split; [done|]. rewrite app_assoc in Ht. by apply text_cancel in Ht.
Qed.
Lemma text_pieces init lst : text (concat ((.++ [newline]) <$> init) ++ lst) →
  Forall text ((.++ [newline]) <$> init) ∧ text lst.
Proof.
  induction init as [|l init IH]; cbn; [by split|]. rewrite <- !app_assoc. intros [Hl Ht]%text_newline.
  destruct (IH Ht). auto.
Qed.

Lemma whole_pieces init lst : Forall (λ l, newline ∉ l) (init ++ [lst]) → Forall whole ((.++ [newline]) <$> init).
Proof.
  intros [Hi _]%Forall_app. apply Forall_fmap. eapply Forall_impl; [exact Hi|]. intros l Hl. by exists l.
Qed.

Lemma append_lines_ok b data : total_size b = sizes (lines b) → last_line_incomplete b = false →
  Forall whole (lines b) → appended b data (append_lines b data).
Proof.
  intros Hsz Hinc Hw. destruct (split_lines_spec data) as (init & lst & Hs & Hd & Hn & _).
  rewrite (append_lines_spec _ _ _ _ Hs). set (ls := lines b ++ _).
  assert (concat ls = concat (lines b) ++ data) as Hcat.
  { subst ls. rewrite !concat_app, Hd at 1. do 2 f_equal. unfold tail_line. case_bool_decide; subst; cbn; by rewrite ?app_nil_r. }
  assert (total_size b + size data = sizes ls)%Z as -> by by rewrite Hsz, !sizes_concat, <- size_app, <- Hcat.
  destruct (trim_lines_spec ls (last_line_incomplete b || negb (bool_decide (lst = [])))) as (old & Hold & Hok).
  { subst ls. rewrite Hinc. unfold tail_line, shape. case_bool_decide as Hl; cbn [orb negb].
    - rewrite app_nil_r. apply Forall_app; split; [done|by eapply whole_pieces].
    - exists (lines b ++ ((.++ [newline]) <$> init)), lst. rewrite <- app_assoc. split_and!; [done| |done|].
      + apply Forall_app; split; [done|by eapply whole_pieces].
      + apply Forall_app in Hn as [_ Hn]. by inversion Hn. }
  split; [done|..].
  - exists (concat old). by rewrite <- Hcat, Hold, concat_app at 1.
  - intros Hb Ht. assert (Forall text ls) as Hls.
    { rewrite Hd in Ht. apply text_pieces in Ht as [Hi Hl]. subst ls. unfold tail_line.
      rewrite !Forall_app. split_and!; [done..|]. case_bool_decide; auto. }
    rewrite Hold in Hls. by apply Forall_app in Hls as [_ Hls].
Qed.

Lemma newline_pos_spec s : match newline_pos s with
  | Some pos => take (S pos) s = take pos s ++ [newline] ∧ newline ∉ take pos s
  | None => newline ∉ s
  end.
Proof.
  induction s as [|b s IH]; cbn; [set_solver|]. destruct (byte_eqb_spec b newline) as [->|Hb].
  - split; [done|set_solver].
  - destruct (newline_pos s) as [pos|]; cbn [fmap option_fmap option_map].
    + destruct IH as [IH1 IH2]. split; [cbn; f_equal; exact IH1|cbn; set_solver].
    + set_solver.
Qed.

Lemma append_ok b data : buffer_ok b → appended b data (append b data).
Proof.
  intros Hok. unfold append. case_bool_decide as Hd.
  { subst. split; [done|exists []; by rewrite app_nil_r|done]. }
  destruct (last_line_incomplete b) eqn:Hinc; cbn [andb].
  2: { destruct Hok as [Hsz Hsh _ _]. rewrite Hinc in Hsh. by apply append_lines_ok. }
  destruct b as [ls t f], Hok as [Hsz Hsh Hc Hb]. unfold finished in Hb. cbn in Hinc, Hsz, Hsh, Hc, Hb. subst t f.
  destruct Hsh as (ls' & l & -> & Hw & Hl & Hnl). cbn [lines]. rewrite bool_decide_eq_false_2 by by destruct ls'.
  cbn [negb]. unfold extend_last. rewrite removelast_last in Hb.
  set (ext more f := mk_buffer (ls' ++ [l ++ more]) (sizes (ls' ++ [l ++ more])) f).
  assert (∀ more, (mk_buffer (ls' ++ [l]) (sizes (ls' ++ [l])) true)
    <| lines ::= λ ls, match last ls with Some l => removelast ls ++ [l ++ more] | None => ls end |>
    <| total_size ::= λ t, (t + size more)%Z |> = ext more true) as Hext.
  { intros more. unfold upd, ext. cbn. rewrite last_snoc, removelast_last, !sizes_app, !sizes_cons, size_app.
    unfold sizes. cbn. f_equal. lia. }
  pose proof (newline_pos_spec data) as Hpos. destruct (newline_pos data) as [pos|]; rewrite Hext.
  - destruct Hpos as [Ht Hn].
    change ((ext (take (S pos) data) true) <| last_line_incomplete := false |>) with (ext (take (S pos) data) false).
    destruct (append_lines_ok (ext (take (S pos) data) false) (drop (S pos) data)) as [Hok (old & Hold) Htx]; [done|done| |].
    { cbn. apply Forall_app; split; [done|]. constructor; [|done]. exists (l ++ take pos data).
      rewrite Ht, <- app_assoc. set_solver. }
    split; [done|exists old|].
    + rewrite <- Hold. unfold ext. cbn [lines]. rewrite !concat_app. cbn [concat].
      by rewrite !app_nil_r, <- !app_assoc, take_drop.
    + intros [Hx Hy]%Forall_app Hdata. rewrite <- (take_drop (S pos) data), Ht, <- app_assoc in Hdata.
      apply text_newline in Hdata as [Hd1 Hd2]. apply Htx; [|done]. apply Forall_app; split; [done|].
      rewrite Ht. inversion Hy. auto.
  - split.
    + split; cbn; [done| | |].
      * exists ls', (l ++ data). split_and!; [done|done|by destruct l|set_solver].
      * by rewrite length_app in *.
      * unfold finished. cbn. by rewrite removelast_last.
    + exists []. cbn. rewrite !concat_app. cbn. by rewrite !app_nil_r, <- app_assoc.
    + intros [Hx Hy]%Forall_app Hdata. apply Forall_app; split; [done|]. inversion Hy. auto.
Qed.

Lemma appends_snoc b chunks c : appends b (chunks ++ [c]) = append (appends b chunks) c.
Proof. unfold appends. by rewrite foldl_app. Qed.
Lemma buffer_new_ok : buffer_ok buffer_new.
Proof. split; [done|by constructor|done|done]. Qed.
Lemma appends_ok chunks : let b := appends buffer_new chunks in
  buffer_ok b ∧ (∃ old, concat chunks = old ++ concat (lines b)) ∧ (Forall text chunks → Forall text (lines b)).
Proof.
  intros b. subst b. induction chunks as [|c chunks (Hok & (old & Hold) & Htx)] using rev_ind.
  { split_and!; [apply buffer_new_ok|by exists []|done]. }
  rewrite appends_snoc, concat_app. cbn [concat]. rewrite app_nil_r.
  destruct (append_ok _ c Hok) as [Hok' (old' & Hold') Htx']. split_and!; [done|..].
  - exists (old ++ old'). by rewrite Hold, <- app_assoc, Hold', app_assoc.
  - intros [Ht Hc]%Forall_app. inversion Hc. auto.
Qed.

(** ** Taking the recent output *)
Lemma skip_conts_suffix n l : ∃ p, l = p ++ skip_conts n l ∧ length p ≤ n.
Proof.
  revert l. induction n as [|n IH]; intros [|b l]; cbn; try (by exists []; split; [|cbn; lia]).
  case_match; [|by exists []; split; [|cbn; lia]].
  destruct (IH l) as (p & Hp & Hl). exists (b :: p). cbn. split; [by rewrite Hp at 1|lia].
Qed.

Lemma first_not_cont b : width b ≠ 0 → (N.land (Byte.to_N b) 0xC0 =? 0x80)%N = false.
Proof. destruct b; vm_compute; congruence. Qed.
Lemma skip_conts_whole n s : text s → skip_conts n s = s.
Proof.
  intros [|c s' Hc _]; [by destruct n|]. destruct (is_char_shape _ Hc) as (b & t & -> & Hw & _).
  destruct n as [|n]; [done|]. cbn [app skip_conts]. by rewrite first_not_cont by lia.
Qed.
Lemma skip_conts_over n t s : Forall (λ b, cont b = true) t → skip_conts (length t + n) (t ++ s) = skip_conts n s.
Proof.
  induction 1 as [|b t Hb Ht IH]; [done|]. cbn [length Nat.add app skip_conts].
  destruct (cont_bits _ Hb) as [_ ->]. done.
Qed.

(** What is left of a text after a cut at any place and the bytes of the cut
    character that follow. *)
Lemma skip_conts_text n p l : 3 ≤ n → text (p ++ l) → text (skip_conts n l).
Proof.
  intros Hn Ht. destruct (text_cut _ _ Ht) as (s & u & -> & Hs & Hu).
  rewrite <- app_assoc in Ht. apply text_cancel in Ht; [|done].
  destruct u as [|b u]; [by rewrite skip_conts_whole|].
  destruct Hu as (v & Hv & Hc). inversion Ht as [|c s' Hc' Hs' Heq].
  destruct (is_char_shape _ Hc) as (b' & t & Heq1 & Hw & _), (is_char_shape _ Hc') as (b2 & t2 & -> & Hw2 & Ht2).
  injection Heq1 as <- <-. injection Heq as <- Heq. rewrite Hw, length_app in Hw2. injection Hw2 as Hw2.
  destruct (app_eq_inv _ _ _ _ Heq) as [(k & -> & ->)|(k & -> & ->)].
  - apply Forall_app in Ht2 as [_ Hk]. pose proof (is_char_length _ Hc') as Hlen. cbn in Hlen. rewrite length_app in Hlen.
    replace n with (length k + (n - length k)) by lia. by rewrite skip_conts_over, skip_conts_whole.
  - rewrite length_app in Hw2. destruct v; [done|]. cbn in Hw2. lia.
Qed.

Lemma concat_tail_line l : concat (tail_line l) = l.
Proof. unfold tail_line. case_bool_decide; subst; cbn; by rewrite ?app_nil_r. Qed.

(** The loop takes whole lines, or a part of the newest. *)
Lemma recent_chunks_spec newest m sz : sz ≤ m → Forall (.≠ []) newest →
  (∃ left, newest = recent_chunks newest m sz ++ left
     ∧ sz + length (concat (recent_chunks newest m sz)) ≤ m
     ∧ ∀ l, head left = Some l → m < sz + length (concat (recent_chunks newest m sz)) + length l)
  ∨ (∃ l left, sz = 0 ∧ newest = l :: left ∧ m < length l
       ∧ recent_chunks newest m sz = tail_line (skip_conts 3 (drop (length l - m) l))).
Proof.
  revert sz. induction newest as [|l newest IH]; intros sz Hsz Hne; cbn [recent_chunks].
  { left. exists []. cbn. split_and!; [done|lia|done]. }
  destruct (m <? sz + length l) eqn:Hm.
  - apply Nat.ltb_lt in Hm. destruct ((sz =? 0) && (m <? length l)) eqn:Hb.
    + right. apply andb_prop in Hb as [->%Nat.eqb_eq ?%Nat.ltb_lt]. exists l, newest. done.
    + left. exists (l :: newest). cbn. split_and!; [done|lia|]. intros ? [= <-]. lia.
  - apply Nat.ltb_ge in Hm. left.
    inversion Hne as [|? ? Hl0 Hne']; subst.
    destruct (IH (sz + length l) Hm Hne') as [(left & Hn & Hl & Hh)|(? & ? & Hz & _)].
    + exists left. cbn [app concat]. rewrite length_app. split_and!; [by f_equal|lia|].
      intros x Hx. specialize (Hh x Hx). lia.
    + destruct l; [done|]. cbn in Hz. lia.
Qed.

Lemma shape_nonempty ls inc : shape ls inc → Forall (.≠ []) ls.
Proof.
  assert (∀ ls, Forall whole ls → Forall (.≠ []) ls) as Hw.
  { intros ls' H. eapply Forall_impl; [exact H|]. intros l (t & -> & _). by destruct t. }
  destruct inc; [|apply Hw]. intros (ls' & l & -> & Hls & Hl & _). apply Forall_app; auto.
Qed.

(** [get_recent]: the most recent whole lines that fit, or, when even the newest
    does not fit, the end of it. *)
Lemma get_recent_spec b m : buffer_ok b →
  let r := get_recent b m in
  length r ≤ m
  ∧ ((∃ older newer, lines b = older ++ newer ∧ r = concat newer ∧ ∀ l, last older = Some l → m < length l + length r)
     ∨ (∃ older l, lines b = older ++ [l] ∧ m < length l ∧ m ≤ length r + 3
          ∧ r = skip_conts 3 (drop (length l - m) l))).
Proof.
  intros Hok r. subst r. pose proof (shape_nonempty _ _ (ok_shape _ Hok)) as Hne.
  unfold get_recent. destruct (m =? 0) eqn:Hm.
  { apply Nat.eqb_eq in Hm as ->. split; [done|left]. exists (lines b), []. rewrite app_nil_r. split_and!; [done|done|].
    intros l Hl. rewrite Forall_forall in Hne. apply last_Some_elem_of, Hne in Hl. destruct l; [done|cbn; lia]. }
  destruct (recent_chunks_spec (rev (lines b)) m 0 ltac:(lia) ltac:(by apply Forall_rev))
    as [(left & Hl & Hlen & Hhd)|(l & left & _ & Hl & Hlt & ->)].
  - assert (lines b = rev left ++ rev (recent_chunks (rev (lines b)) m 0)) as Hb.
    { rewrite <- rev_app_distr, <- Hl. by rewrite rev_involutive. }
    assert (length (concat (rev (recent_chunks (rev (lines b)) m 0))) = length (concat (recent_chunks (rev (lines b)) m 0))) as Hr.
    { clear. induction (recent_chunks _ _ _) as [|x cs IH]; [done|]. cbn. rewrite concat_app, !length_app. cbn. rewrite length_app. cbn. lia. }
    split; [lia|left]. exists (rev left), (rev (recent_chunks (rev (lines b)) m 0)). split_and!; [done|done|].
    intros l Hlast. rewrite Hr. destruct left as [|x left]; [done|]. cbn in Hlast. rewrite last_snoc in Hlast.
    specialize (Hhd _ Hlast). lia.
  - assert (lines b = rev left ++ [l]) as Hb.
    { rewrite <- (rev_involutive (lines b)), Hl. done. }
    unfold tail_line. destruct (skip_conts_suffix 3 (drop (length l - m) l)) as (p & Hp & Hpl).
    assert (length (drop (length l - m) l) = m) as Hd by (rewrite length_drop; lia).
    rewrite Hp, length_app in Hd.
    assert (concat (rev (tail_line (skip_conts 3 (drop (length l - m) l)))) = skip_conts 3 (drop (length l - m) l)) as Hcat.
    { unfold tail_line. case_bool_decide as Hx; [by rewrite Hx|]. cbn. by rewrite app_nil_r. }
    fold (tail_line (skip_conts 3 (drop (length l - m) l))). rewrite Hcat. split; [lia|right].
    exists (rev left), l. split_and!; [done|done|lia|done].
Qed.

(** Of text it is text. *)
Lemma recent_text chunks m : Forall text chunks → text (get_recent (appends buffer_new chunks) m).
Proof.
  intros Hchunks. destruct (appends_ok chunks) as (Hok & _ & Htx). specialize (Htx Hchunks). revert Hok Htx.
  generalize (appends buffer_new chunks) as b. intros b Hok Ht.
  destruct (get_recent_spec b m Hok) as [_ [(older & newer & Hb & Hr & _)|(older & l & Hb & _ & _ & Hr)]];
    rewrite Hb in Ht; apply Forall_app in Ht as [_ Ht]; rewrite Hr.
  - by apply text_concat.
  - apply Forall_inv in Ht. apply (skip_conts_text _ (take (length l - m) l)); [done|]. by rewrite take_drop.
Qed.

(** A viewer that comes back is given the end of what the terminal printed, at
    most so many bytes of it: as many of the newest whole lines as fit, or, when
    even the newest does not fit, all of its end but at most three bytes. When the
    terminal printed text what is given is text. *)
Theorem replay_recent chunks m :
  let b := appends buffer_new chunks in
  let r := get_recent b m in
  (∃ old, concat chunks = old ++ r) ∧ length r ≤ m
  ∧ ((∃ older newer, lines b = older ++ newer ∧ r = concat newer ∧ ∀ l, last older = Some l → m < length l + length r)
     ∨ (∃ older l, lines b = older ++ [l] ∧ m < length l ∧ m ≤ length r + 3 ∧ ∃ p, l = p ++ r))
  ∧ (Forall text chunks → from_utf8 r = true).
Proof.
  destruct (appends_ok chunks) as (Hok & (old & Hold) & _). set (b := appends buffer_new chunks) in *.
  cbv zeta. assert (Forall text chunks → from_utf8 (get_recent b m) = true) as Htx.
  { intros Ht. apply from_utf8_text. by apply recent_text. }
  destruct (get_recent_spec b m Hok) as [Hlen [(older & newer & Hb & Hr & Hmax)|(older & l & Hb & Hlt & Hge & Hr)]];
    cbv zeta in Hlen.
  - split_and!; [|done|left; by exists older, newer|done].
    exists (old ++ concat older). by rewrite Hold, Hb, concat_app, Hr, app_assoc.
  - destruct (skip_conts_suffix 3 (drop (length l - m) l)) as (p & Hp & _).
    assert (l = (take (length l - m) l ++ p) ++ get_recent b m) as Hl.
    { rewrite Hr, <- app_assoc, <- Hp. by rewrite take_drop. }
    split_and!; [|done|right; exists older, l; eauto 6|done].
    exists (old ++ concat older ++ take (length l - m) l ++ p).
    rewrite Hold, Hb, concat_app. cbn. rewrite app_nil_r, Hl at 1. by rewrite !app_assoc.
Qed.
Lemma replay_recent_witness :
  let r := get_recent (appends buffer_new [b8 [97; 10; 0xE4; 0xB8; 0xAD]; b8 [98]]) 3 in
  r = b8 [98] ∧ from_utf8 r = true.
Proof.
  intros r. split; [reflexivity|].
  apply (replay_recent [b8 [97; 10; 0xE4; 0xB8; 0xAD]; b8 [98]] 3).
  repeat constructor; apply from_utf8_text; reflexivity.
Defined.

(** The sizes the buffer records are the sizes of what it holds, so the
    subtraction of the loop that trims it never wraps; it holds at most 10000
    lines, and at most 1 MiB in lines that are complete. *)
Theorem buffer_bounded chunks :
  let b := appends buffer_new chunks in
  total_size b = size (concat (lines b)) ∧ (Z.of_nat (length (lines b)) ≤ 10000)%Z
  ∧ (sizes (finished b) ≤ 1024 * 1024)%Z.
Proof.
  destruct (appends_ok chunks) as (Hok & _ & _). cbv zeta. rewrite <- sizes_concat.
  split_and!; apply Hok.
Qed.

(** The line that is not complete is not bounded: without a newline the buffer
    keeps all that comes. *)
Lemma unfinished_line_unbounded chunks b : last_line_incomplete b = true → lines b ≠ [] →
  Forall (λ c, newline ∉ c) chunks →
  total_size (appends b chunks) = (total_size b + size (concat chunks))%Z.
Proof.
  intros Hi Hne Hc. revert b Hi Hne. induction Hc as [|c chunks Hc Hcs IH]; intros b Hi Hne; [cbn; unfold size; cbn; lia|].
  cbn [appends foldl concat]. unfold append at 2. case_bool_decide as Hc0.
  { subst c. by apply IH. }
  rewrite Hi, bool_decide_eq_false_2 by done. cbn [andb negb].
  pose proof (newline_pos_spec c) as Hp. destruct (newline_pos c) as [pos|].
  { destruct Hp as [Hp _]. exfalso. apply Hc. rewrite <- (take_drop (S pos) c), Hp. set_solver. }
  rewrite size_app. unfold appends in IH. rewrite IH; [cbn; lia|done|].
  cbn. destruct (last (lines b)) eqn:Hl; [|by apply last_None in Hl]. by destruct (removelast (lines b)).
Qed.
