(* ===== verification/TerminalSession.v ===== *)
(** * One terminal: reading, leaving and coming back

    [TerminalSession] of [src/server/terminal_service.rs] with its reader thread,
    and what the service does to it: a poll of [read_outputs], opening it again,
    resizing, typing, stopping. Without the helper process of Windows. *)
From S2P Require Import Prelude TerminalText.
Local Open Scope Z_scope.

Definition CHANNEL_BUFFER_SIZE : nat := 500.
Definition COMPRESS_THRESHOLD : nat := 512.
Definition DEFAULT_RECONNECT_BUFFER_BYTES : nat := 8 * 1024.
#[global] Arguments CHANNEL_BUFFER_SIZE : simpl never.
#[global] Arguments DEFAULT_RECONNECT_BUFFER_BYTES : simpl never.
Definition MAX_SIGWINCH_PHASE_ATTEMPTS : Z := 3.

(** [as u16] *)
Definition as_u16 (z : Z) : Z := z mod 2 ^ 16.
Definition u16_saturating_add (a b : Z) : Z := Z.min (a + b) (2 ^ 16 - 1).
Definition u16_saturating_sub (a b : Z) : Z := Z.max (a - b) 0.

Inductive SigwinchPhase := Idle | TempResize (retries : Z) | Restore (retries : Z).
Inductive SigwinchAction := DoTempResize | DoRestore.
Inductive SessionState :=
| Closed
| Active (pending_buffer : option bytes) (sigwinch : SigwinchPhase).

(** The reader thread: running, with the bytes its [Utf8ChunkAccumulator] holds
    back, or finished. *)
Inductive reader := Running (held : bytes) | Finished.
#[export] Instance reader_eq_dec : EqDecision reader.
Proof. solve_decision. Defined.

(** [pty_pair]: the size the pseudo-terminal was last given. [input_tx]: what was
    given to the writer thread. [output_rx]: the pieces in the channel. *)
Record TerminalSession := mk_session {
  last_activity : Z;
  pty_pair : option (Z * Z);
  child : bool;
  input_tx : option (list bytes);
  output_rx : option (list bytes);
  exiting : bool;
  reader_thread : option reader;
  output_buffer : OutputBuffer;
  title : str;
  pid : Z;
  rows : Z;
  cols : Z;
  closed_message_sent : bool;
  state : SessionState
}.
#[export] Instance TerminalSession_eta : Eta TerminalSession := λ r,
  mk_session (last_activity r) (pty_pair r) (child r) (input_tx r) (output_rx r) (exiting r)
    (reader_thread r) (output_buffer r) (title r) (pid r) (rows r) (cols r) (closed_message_sent r) (state r).

Definition session_new (now terminal_id rows cols : Z) : TerminalSession :=
  mk_session now None false None None false None buffer_new (lit "Terminal " ++ fmt_Z terminal_id) 0
    rows cols false Closed.
(** The end of [handle_open] for a terminal that was started: its channels, its
    threads, its child with process id [pid]. *)
Definition session_start (now terminal_id r c pid_ : Z) : TerminalSession :=
  (session_new now terminal_id (as_u16 r) (as_u16 c))
    <| pid := pid_ |> <| pty_pair := Some (as_u16 r, as_u16 c) |> <| child := true |>
    <| input_tx := Some [] |> <| output_rx := Some [] |> <| reader_thread := Some (Running []) |>
    <| state := Active None Idle |>.

(** ** The reader thread *)
(** [try_send_output]: the channel after it and whether the thread goes on. *)
Definition try_send_output (s : TerminalSession) (data : bytes) : TerminalSession * bool :=
  match output_rx s with
  | None => (s, false)
  | Some q => (if (length q <? CHANNEL_BUFFER_SIZE)%nat then s <| output_rx := Some (q ++ [data]) |> else s, true)
  end.
(** [read] returned [data], not empty. *)
Definition reader_read (data : bytes) (s : TerminalSession) : TerminalSession :=
  match reader_thread s with
  | Some (Running held) =>
      if exiting s then s <| reader_thread := Some Finished |>
      else
        match push_chunk held data with
        | (None, held) => s <| reader_thread := Some (Running held) |>
        | (Some piece, held) =>
            let '(s, goes_on) := try_send_output s piece in
            s <| reader_thread := Some (if goes_on then Running held else Finished) |>
        end
  | _ => s
  end.
(** [read] returned 0. *)
Definition reader_eof (s : TerminalSession) : TerminalSession :=
  match reader_thread s with
  | Some (Running held) =>
      let s := match finish held with (Some piece, _) => (try_send_output s piece).1 | _ => s end in
      s <| reader_thread := Some Finished |>
  | _ => s
  end.
(** [read] failed. *)
Definition reader_error (s : TerminalSession) : TerminalSession :=
  match reader_thread s with
  | Some (Running _) => s <| reader_thread := Some Finished |>
  | _ => s
  end.

(** ** Responses *)
Inductive TerminalResponse :=
| Opened (terminal_id : Z) (message : str) (pid : Z) (service_id : str)
    (persistent_sessions : list Z) (replay_terminal_output : bool)
| Data (terminal_id : Z) (data : bytes) (compressed : bool)
| ClosedResponse (terminal_id : Z) (exit_code : Z)
| Error (message : str).

Section session.
Context (compress : bytes → bytes).

Definition create_terminal_data_response (terminal_id : Z) (data : bytes) : TerminalResponse :=
  if (COMPRESS_THRESHOLD <? length data)%nat then
    let compressed := compress data in
    if (length compressed <? length data)%nat then Data terminal_id compressed true
    else Data terminal_id data false
  else Data terminal_id data false.

(** ** Coming back: [handle_open] on a terminal that exists *)
Definition reopen (s : TerminalSession) : TerminalSession * bool :=
  let buffer := get_recent (output_buffer s) DEFAULT_RECONNECT_BUFFER_BYTES in
  let reconnect_backlog := take CHANNEL_BUFFER_SIZE (default [] (output_rx s)) in
  let s := s <| output_rx ::= fmap (drop CHANNEL_BUFFER_SIZE) |> in
  let s := s <| output_buffer ::= λ b, appends b reconnect_backlog |> in
  let buffer := if bool_decide (reconnect_backlog = []) then buffer
                else get_recent (output_buffer s) DEFAULT_RECONNECT_BUFFER_BYTES in
  let has_pending := negb (bool_decide (buffer = [])) in
  (s <| state := Active (if has_pending then Some buffer else None) (TempResize MAX_SIGWINCH_PHASE_ATTEMPTS) |>,
   has_pending).

(** ** [do_sigwinch_resize]: the size of the terminal after it, and the outcome;
    [ok] is the system's answer. *)
Definition target_rows (rows : Z) (action : SigwinchAction) : Z :=
  match action with
  | DoTempResize => if 2 <? rows then u16_saturating_sub rows 1 else u16_saturating_add rows 1
  | DoRestore => rows
  end.
Definition do_sigwinch_resize (ok : bool) (action : SigwinchAction) (s : TerminalSession) : TerminalSession * bool :=
  if (rows s =? 0) || (cols s =? 0) then (s, false)
  else match pty_pair s with
       | Some _ => if ok then (s <| pty_pair := Some (target_rows (rows s) action, cols s) |>, true) else (s, false)
       | None => (s, false)
       end.

(** ** One terminal in [read_outputs] *)
Definition sigwinch_of (st : SessionState) : SigwinchPhase :=
  match st with Active _ p => p | Closed => Idle end.
(** The next phase and what to do now. *)
Definition sigwinch_begin (p : SigwinchPhase) : SigwinchPhase * option SigwinchAction :=
  match p with
  | TempResize retries => if retries =? 0 then (Idle, None) else (TempResize (retries - 1), Some DoTempResize)
  | Restore retries => if retries =? 0 then (Idle, None) else (Restore (retries - 1), Some DoRestore)
  | Idle => (Idle, None)
  end.
Definition sigwinch_end (action : SigwinchAction) (ok : bool) (p : SigwinchPhase) : SigwinchPhase :=
  match action with
  | DoTempResize => if ok then Restore MAX_SIGWINCH_PHASE_ATTEMPTS else p
  | DoRestore => if ok then Idle else p
  end.
(** [exited]: [try_wait] says that the child has exited. *)
Definition should_send_closed (exited : bool) (s : TerminalSession) : bool :=
  negb (closed_message_sent s)
  && (bool_decide (reader_thread s = Some Finished) || (child s && exited)).
Definition poll (exited ok : bool) (now terminal_id : Z) (s : TerminalSession)
  : TerminalSession * list TerminalResponse * bool :=
  let closed := should_send_closed exited s in
  let s := s <| closed_message_sent ::= orb closed |> in
  let received_data := default [] (output_rx s) in
  let s := s <| output_rx ::= fmap (λ _, []) |> in
  let s := s <| output_buffer ::= λ b, appends b received_data |> in
  match state s with
  | Closed => (s, [], closed)
  | Active pending_buffer sigwinch =>
      let '(sigwinch, action) := sigwinch_begin sigwinch in
      let s := s <| state := Active None sigwinch |> in
      let replay := match pending_buffer with
                    | Some buffer => if bool_decide (buffer = []) then [] else [create_terminal_data_response terminal_id buffer]
                    | None => []
                    end in
      let s := if bool_decide (received_data = []) then s else s <| last_activity := now |> in
      let s := match action with
               | None => s
               | Some action =>
                   let '(s, resize_ok) := do_sigwinch_resize ok action s in
                   s <| state := Active None (sigwinch_end action resize_ok sigwinch) |>
               end in
      (s, replay ++ (create_terminal_data_response terminal_id <$> received_data), closed)
  end.

(** ** The other operations *)
(** [reset_status], of one terminal. *)
Definition detach (s : TerminalSession) : TerminalSession := s <| state := Closed |>.
(** [handle_resize]; the result is an error when the system refuses. *)
Definition resize (ok : bool) (now r c : Z) (s : TerminalSession) : TerminalSession * bool :=
  let s := s <| last_activity := now |> <| rows := as_u16 r |> <| cols := as_u16 c |> in
  match pty_pair s with
  | Some _ => if ok then (s <| pty_pair := Some (as_u16 r, as_u16 c) |>, true) else (s, false)
  | None => (s, true)
  end.
(** [handle_data] *)
Definition input (now : Z) (data : bytes) (s : TerminalSession) : TerminalSession :=
  s <| last_activity := now |> <| input_tx ::= fmap (λ sent, sent ++ [data]) |>.
(** [stop]: the threads are joined, the child killed. *)
Definition stop (s : TerminalSession) : TerminalSession :=
  s <| state := Closed |> <| exiting := true |> <| input_tx := None |> <| output_rx := None |>
    <| pty_pair := None |> <| reader_thread := None |> <| child := false |>.

(** ** What happens to a terminal *)
Inductive event :=
| ReadData (data : bytes)       (* the reader thread read this *)
| ReadEof
| ReadError
| Reopen (loop : nat)           (* [handle_open], for the connection of this loop *)
| Poll (loop : nat) (exited ok : bool) (now : Z)   (* one pass of [read_outputs], in this loop *)
| Detach                        (* [reset_status] *)
| Resize (ok : bool) (now rows cols : Z)
| Input (now : Z) (data : bytes)
| Reap.                         (* the child is taken, to be waited for *)
Definition on_event (terminal_id : Z) (s : TerminalSession) (e : event) : TerminalSession * list TerminalResponse :=
  match e with
  | ReadData data => (reader_read data s, [])
  | ReadEof => (reader_eof s, [])
  | ReadError => (reader_error s, [])
  | Reopen _ => ((reopen s).1, [])
  | Poll _ exited ok now => let '(s, responses, _) := poll exited ok now terminal_id s in (s, responses)
  | Detach => (detach s, [])
  | Resize ok now r c => ((resize ok now r c s).1, [])
  | Input now data => (input now data s, [])
  | Reap => (s <| child := false |>, [])
  end.

(** The pieces an event makes the reader pass on, and those of them the channel
    had no room for. *)
Definition pieces (s : TerminalSession) (e : event) : list bytes :=
  match e, reader_thread s with
  | ReadData data, Some (Running held) => if exiting s then [] else option_list (push_chunk held data).1
  | ReadEof, Some (Running held) => option_list (finish held).1
  | _, _ => []
  end.
Definition has_room (s : TerminalSession) : bool :=
  match output_rx s with Some q => (length q <? CHANNEL_BUFFER_SIZE)%nat | None => false end.

(** The session, with what an observer notes: the pieces the reader made, those
    the channel took, those that had left the channel when the terminal was opened
    last, the loop of the connection that opened it, the viewer; what the loops of all
    connections have sent since then, what the loop of the viewer has, and whether no
    other has sent anything. *)
Record observed := mk_observed {
  session : TerminalSession;
  produced : list bytes;
  accepted : list bytes;
  before : list bytes;
  viewer : nat;
  sent : bytes;
  shown : bytes;
  alone : bool
}.
Context (decompress : bytes → bytes).
Definition payload (r : TerminalResponse) : bytes :=
  match r with Data _ data compressed => if compressed then decompress data else data | _ => [] end.
Definition queued (s : TerminalSession) : list bytes := default [] (output_rx s).
Definition observe (terminal_id : Z) (o : observed) (e : event) : observed :=
  let s := session o in
  let '(s', responses) := on_event terminal_id s e in
  let produced' := produced o ++ pieces s e in
  let accepted' := accepted o ++ (if has_room s then pieces s e else []) in
  let out := concat (payload <$> responses) in
  match e with
  | Reopen loop => mk_observed s' produced' accepted' (take (length accepted' - length (queued s')) accepted') loop [] [] true
  | Poll loop _ _ _ =>
      mk_observed s' produced' accepted' (before o) (viewer o) (sent o ++ out)
        (shown o ++ if bool_decide (loop = viewer o) then out else [])
        (alone o && (bool_decide (loop = viewer o) || bool_decide (out = [])))
  | _ => mk_observed s' produced' accepted' (before o) (viewer o) (sent o) (shown o) (alone o)
  end.
(** [loop] is that of the connection the terminal was started for. *)
Definition watch (terminal_id : Z) (loop : nat) (s : TerminalSession) (es : list event) : observed :=
  foldl (observe terminal_id) (mk_observed s [] [] [] loop [] [] true) es.
Definition reads (es : list event) : list bytes :=
  omap (λ e, match e with ReadData data => Some data | _ => None end) es.
Definition pending (s : TerminalSession) : bytes :=
  match state s with Active (Some buffer) _ => buffer | _ => [] end.

(** ** What the observer always finds *)
Hypothesis decompress_compress : ∀ data, decompress (compress data) = data.

Lemma payload_create terminal_id data : payload (create_terminal_data_response terminal_id data) = data.
Proof. unfold create_terminal_data_response. repeat case_match; cbn; auto. Qed.
Lemma payloads_create terminal_id (ds : list bytes) : payload <$> (create_terminal_data_response terminal_id <$> ds) = ds.
Proof. rewrite <- list_fmap_compose. rewrite <- (list_fmap_id ds) at 2. apply list_fmap_ext. intros. apply payload_create. Qed.

Definition recent (taken : list bytes) : bytes := get_recent (appends buffer_new taken) DEFAULT_RECONNECT_BUFFER_BYTES.
Record seen (es : list event) (o : observed) : Prop := {
  seen_open : is_Some (output_rx (session o)) ∧ exiting (session o) = false ∧ is_Some (reader_thread (session o));
  seen_queue : (length (queued (session o)) ≤ CHANNEL_BUFFER_SIZE)%nat;
  seen_taken : ∃ taken, accepted o = taken ++ queued (session o)
    ∧ output_buffer (session o) = appends buffer_new taken
    ∧ (state (session o) ≠ Closed → ∃ since, taken = before o ++ since
         ∧ sent o ++ pending (session o) = recent (before o) ++ concat since
         ∧ (pending (session o) ≠ [] → sent o = [] ∧ since = []));
  seen_shown : shown o `sublist_of` sent o ∧ (alone o = true → shown o = sent o);
  seen_sub : accepted o `sublist_of` produced o;
  seen_running : ∀ held, reader_thread (session o) = Some (Running held) →
    push_all [] (reads es) = (produced o, held)
}.

Lemma appends_app b cs cs' : appends b (cs ++ cs') = appends (appends b cs) cs'.
Proof. unfold appends. apply foldl_app. Qed.

(** What the reader thread does to the session. *)
Definition reads_only (e : event) : bool := match e with ReadData _ | ReadEof | ReadError => true | _ => false end.
Lemma reader_step terminal_id s e q : reads_only e = true → output_rx s = Some q → exiting s = false →
  is_Some (reader_thread s) →
  let s' := (on_event terminal_id s e).1 in
  output_rx s' = Some (q ++ if has_room s then pieces s e else [])
  ∧ (length (pieces s e) ≤ 1)%nat
  ∧ output_buffer s' = output_buffer s ∧ state s' = state s ∧ exiting s' = false
  ∧ (on_event terminal_id s e).2 = []
  ∧ is_Some (reader_thread s')
  ∧ ∀ held', reader_thread s' = Some (Running held') → ∃ data held o, e = ReadData data
      ∧ reader_thread s = Some (Running held) ∧ push_chunk held data = (o, held') ∧ pieces s e = option_list o.
Proof.
  intros He Hq Hx [rd Hrd]. unfold has_room. rewrite Hq. destruct s; cbn in Hq, Hx, Hrd. subst.
  destruct e; try discriminate He; cbn -[push_chunk finish Nat.ltb]; unfold reader_read, reader_eof, reader_error;
    destruct rd as [held|]; cbn -[push_chunk finish Nat.ltb].
  - destruct (push_chunk held data) as [[piece|] held'] eqn:Hp; cbn -[Nat.ltb].
    + unfold try_send_output. cbn -[Nat.ltb]. destruct (_ <? _)%nat; cbn; rewrite ?app_nil_r; split_and!; eauto; intros ? [= <-]; eauto 8.
    + destruct (_ <? _)%nat; rewrite ?app_nil_r; split_and!; eauto with lia; intros ? [= <-]; eauto 8.
  - destruct (_ <? _)%nat; rewrite ?app_nil_r; split_and!; eauto with lia; done.
  - destruct (finish held) as [[piece|] held'] eqn:Hp; cbn -[Nat.ltb].
    + unfold try_send_output. cbn -[Nat.ltb]. destruct (_ <? _)%nat; cbn; rewrite ?app_nil_r; split_and!; eauto; done.
    + destruct (_ <? _)%nat; rewrite ?app_nil_r; split_and!; eauto with lia; done.
  - destruct (_ <? _)%nat; rewrite ?app_nil_r; split_and!; eauto with lia; done.
  - destruct (_ <? _)%nat; rewrite ?app_nil_r; split_and!; eauto with lia; done.
  - destruct (_ <? _)%nat; rewrite ?app_nil_r; split_and!; eauto with lia; done.
Qed.

Lemma queued_Some s q : output_rx s = Some q → queued s = q.
Proof. unfold queued. by intros ->. Qed.

(** What the fields an observer looks at are after the other events. *)
Lemma reopen_spec s q : output_rx s = Some q → (length q ≤ CHANNEL_BUFFER_SIZE)%nat →
  let s' := (reopen s).1 in
  output_rx s' = Some [] ∧ output_buffer s' = appends (output_buffer s) q
  ∧ exiting s' = exiting s ∧ reader_thread s' = reader_thread s
  ∧ pending s' = get_recent (output_buffer s') DEFAULT_RECONNECT_BUFFER_BYTES.
Proof.
  intros Hq Hl. unfold reopen. rewrite Hq. cbn [default from_option]. change (default [] (Some q)) with q.
  rewrite take_ge by done. destruct s as [a b c d e f g ob h i k l m n]; cbn in Hq |- *. subst e.
  cbn. rewrite drop_ge by done. split_and!; [done..|].
  unfold pending. cbn -[get_recent DEFAULT_RECONNECT_BUFFER_BYTES]. destruct (bool_decide_reflect (q = [])) as [->|Hqe]; cbn -[get_recent DEFAULT_RECONNECT_BUFFER_BYTES];
    case_bool_decide as Hb; cbn -[get_recent DEFAULT_RECONNECT_BUFFER_BYTES]; by rewrite ?Hb.
Qed.

Lemma sigwinch_only_pty ok action s :
  ∃ p b, do_sigwinch_resize ok action s = (s <| pty_pair := p |>, b).
Proof.
  unfold do_sigwinch_resize. destruct s as [? pty]. cbn. repeat case_match; eauto.
Qed.
Lemma poll_spec terminal_id exited ok now s q : output_rx s = Some q →
  let '(s', responses, _) := poll exited ok now terminal_id s in
  output_rx s' = Some [] ∧ output_buffer s' = appends (output_buffer s) q
  ∧ exiting s' = exiting s ∧ reader_thread s' = reader_thread s
  ∧ match state s with
    | Closed => state s' = Closed ∧ responses = []
    | Active _ _ => state s' ≠ Closed ∧ pending s' = []
        ∧ concat (payload <$> responses) = pending s ++ concat q
        ∧ ∀ r, r ∈ responses → payload r = pending s ∨ payload r ∈ q
    end.
Proof.
  intros Hq. unfold poll. destruct s as [a pty c d e f g ob h i k l m st]; cbn in Hq. subst e.
  cbn -[sigwinch_begin do_sigwinch_resize should_send_closed].
  destruct st as [|pb ph]; cbn -[sigwinch_begin do_sigwinch_resize should_send_closed]; [by split_and!|].
  destruct (sigwinch_begin ph) as [ph' act]. cbn -[do_sigwinch_resize should_send_closed].
  set (replay := match pb with Some _ => _ | None => _ end).
  assert (concat (payload <$> replay ++ (create_terminal_data_response terminal_id <$> q))
          = match pb with Some buffer => buffer | None => [] end ++ concat q
    ∧ ∀ r, r ∈ replay ++ (create_terminal_data_response terminal_id <$> q) →
        payload r = match pb with Some buffer => buffer | None => [] end ∨ payload r ∈ q) as [Hshown Heach].
  { split.
    - rewrite fmap_app, concat_app, payloads_create. f_equal. subst replay.
      destruct pb as [buf|]; [|done]. case_bool_decide; [by subst|]. cbn. by rewrite payload_create, app_nil_r.
    - intros r [Hr|Hr]%elem_of_app.
      + left. subst replay. destruct pb as [buf|]; [|by apply elem_of_nil in Hr].
        case_bool_decide; [by apply elem_of_nil in Hr|]. apply list_elem_of_singleton in Hr as ->. apply payload_create.
      + right. apply list_elem_of_fmap in Hr as (x & -> & Hx). by rewrite payload_create. }
  destruct act as [act|]; [|destruct (bool_decide (q = [])); cbn; split_and!; done].
  match goal with |- context [do_sigwinch_resize ok act ?x] => destruct (sigwinch_only_pty ok act x) as (p & b & ->) end.
  destruct (bool_decide (q = [])); cbn; split_and!; done.
Qed.

Lemma output_rx_resize ok now r c s : let s' := (resize ok now r c s).1 in
  output_rx s' = output_rx s ∧ output_buffer s' = output_buffer s ∧ exiting s' = exiting s
  ∧ reader_thread s' = reader_thread s ∧ state s' = state s.
Proof. unfold resize. destruct s; cbn. destruct pty_pair0, ok; cbn; done. Qed.

(** ** Every event keeps it *)
Lemma seen_reader terminal_id es o e : seen es o → reads_only e = true → seen (es ++ [e]) (observe terminal_id o e).
Proof.
  intros [([q Hq] & Hx & Hrd) Hlen (taken & Hacc & Hbuf & Hact) Hshow Hsub Hrun] He.
  rewrite (queued_Some _ _ Hq) in *.
  pose proof (reader_step terminal_id (session o) e q He Hq Hx Hrd) as Hs. unfold observe.
  destruct (on_event terminal_id (session o) e) as [s' rs]. cbn [fst snd] in Hs.
  destruct Hs as (Hq' & Hone & Hbuf' & Hst & Hx' & -> & Hrd' & Hheld).
  set (new := if has_room (session o) then pieces (session o) e else []) in *.
  replace (match e with Reopen _ => _ | _ => _ end) with
    (mk_observed s' (produced o ++ pieces (session o) e) (accepted o ++ new) (before o) (viewer o) (sent o) (shown o) (alone o)) by by destruct e.
  split; cbn [session produced accepted before viewer sent shown alone].
  - by eauto.
  - rewrite (queued_Some _ _ Hq'), length_app. subst new. unfold has_room. rewrite Hq.
    destruct (Nat.ltb_spec (length q) CHANNEL_BUFFER_SIZE); cbn [length]; lia.
  - exists taken. rewrite (queued_Some _ _ Hq'), Hacc, <- app_assoc, Hbuf'. unfold pending. rewrite Hst.
    split_and!; [done|done|exact Hact].
  - exact Hshow.
  - apply sublist_app; [done|]. subst new. destruct (has_room _); [done|apply sublist_nil_l].
  - intros held' Hh. destruct (Hheld _ Hh) as (data & held & p & -> & Hold & Hp & Hps).
    rewrite Hps. unfold reads. rewrite omap_app. cbn [omap list_omap].
    rewrite push_all_snoc. fold (reads es). by rewrite (Hrun _ Hold), Hp.
Qed.

(** Events that do not touch the reader make no pieces. *)
Lemma pieces_none s e : reads_only e = false → pieces s e = [].
Proof. by destruct e. Qed.
Lemma reads_none es e : reads_only e = false → reads (es ++ [e]) = reads es.
Proof. intros He. unfold reads. rewrite omap_app. destruct e; try done; cbn; by rewrite app_nil_r. Qed.

(** An event that leaves the channel, the buffer and the reader alone. *)
Lemma seen_quiet es o e s' : seen es o → reads_only e = false →
  output_rx s' = output_rx (session o) → output_buffer s' = output_buffer (session o) →
  exiting s' = exiting (session o) → reader_thread s' = reader_thread (session o) →
  state s' = Closed ∨ state s' = state (session o) →
  seen (es ++ [e]) (mk_observed s' (produced o) (accepted o) (before o) (viewer o) (sent o) (shown o) (alone o)).
Proof.
  intros [Hopen Hlen (taken & Hacc & Hbuf & Hact) Hshow Hsub Hrun] He Hq Hb Hx Hr Hst.
  assert (queued s' = queued (session o)) as Hqs by by unfold queued; rewrite Hq.
  split; cbn [session produced accepted before viewer sent shown alone]; rewrite ?Hq, ?Hx, ?Hr, ?Hqs, ?Hb, ?reads_none by done; auto.
  exists taken. split_and!; [done..|]. destruct Hst as [Hst|Hst]; [by rewrite Hst|].
  unfold pending. rewrite Hst. exact Hact.
Qed.

Lemma seen_step terminal_id es o e : seen es o → seen (es ++ [e]) (observe terminal_id o e).
Proof.
  intros Hseen. destruct (reads_only e) eqn:He; [by apply seen_reader|].
  pose proof Hseen as Hseen'. destruct Hseen as [([q Hq] & Hx & Hrd) Hlen (taken & Hacc & Hbuf & Hact) [Hshow Halone] Hsub Hrun].
  rewrite (queued_Some _ _ Hq) in *. unfold observe. rewrite (pieces_none _ _ He).
  destruct e as [| | |loop|loop exited ok now| |ok now r c|now data|]; try discriminate He; cbn [on_event].
  - pose proof (reopen_spec _ _ Hq Hlen) as (Hq' & Hb' & Hx' & Hr' & Hp). set (s' := (reopen (session o)).1) in *.
    replace (if has_room (session o) then [] else []) with (@nil bytes) by by destruct has_room.
    rewrite !app_nil_r. rewrite (queued_Some _ _ Hq'). cbn [length]. rewrite Nat.sub_0_r, take_ge by done.
    split; cbn [session produced accepted before viewer sent shown alone].
    + by rewrite Hq', Hx', Hr'.
    + rewrite (queued_Some _ _ Hq'). cbn. lia.
    + exists (accepted o). rewrite (queued_Some _ _ Hq'), app_nil_r. split_and!; [done|by rewrite Hb', Hbuf, <- appends_app, Hacc|].
      intros _. exists []. rewrite app_nil_r. split_and!; [done| |done]. cbn [app concat]. rewrite app_nil_r, Hp. unfold recent.
      by rewrite Hb', Hbuf, <- appends_app, Hacc.
    + done.
    + done.
    + by rewrite Hr', reads_none.
  - pose proof (poll_spec terminal_id exited ok now _ _ Hq) as Hpoll.
    destruct (poll exited ok now terminal_id (session o)) as [[s' rs] closed].
    destruct Hpoll as (Hq' & Hb' & Hx' & Hr' & Hst).
    replace (if has_room (session o) then [] else []) with (@nil bytes) by by destruct has_room.
    rewrite !app_nil_r. split; cbn [session produced accepted before viewer sent shown alone].
    + by rewrite Hq', Hx', Hr'.
    + rewrite (queued_Some _ _ Hq'). cbn. lia.
    + exists (accepted o). rewrite (queued_Some _ _ Hq'), app_nil_r. split_and!; [done|by rewrite Hb', Hbuf, <- appends_app, Hacc|].
      destruct (state (session o)) as [|pb ph] eqn:Hs; [by destruct Hst as [-> _]|]. intros _.
      destruct (Hact ltac:(done)) as (since & -> & Hshown & Hpend). destruct Hst as (_ & Hp & Hpay & _).
      exists (since ++ queued (session o)). rewrite (queued_Some _ _ Hq), Hacc, Hp, !app_assoc, app_nil_r, Hpay.
      split_and!; [done| |done]. by rewrite app_assoc, Hshown, concat_app, app_assoc.
    + split; [apply sublist_app; [done|]; case_bool_decide; [done|apply sublist_nil_l]|].
      intros [Ha Hor]%andb_true_iff. rewrite (Halone Ha). case_bool_decide; [done|]. cbn in Hor. apply bool_decide_eq_true in Hor. by rewrite Hor.
    + done.
    + by rewrite Hr', reads_none.
  - replace (if has_room (session o) then [] else []) with (@nil bytes) by by destruct has_room.
    rewrite !app_nil_r. apply seen_quiet; auto.
  - replace (if has_room (session o) then [] else []) with (@nil bytes) by by destruct has_room.
    pose proof (output_rx_resize ok now r c (session o)) as (Hq' & Hb' & Hx' & Hr' & Hst').
    rewrite !app_nil_r. apply seen_quiet; auto.
  - replace (if has_room (session o) then [] else []) with (@nil bytes) by by destruct has_room.
    rewrite !app_nil_r. apply seen_quiet; auto.
  - replace (if has_room (session o) then [] else []) with (@nil bytes) by by destruct has_room.
    rewrite !app_nil_r. apply seen_quiet; auto.
Qed.

Lemma watch_snoc terminal_id loop s es e :
  watch terminal_id loop s (es ++ [e]) = observe terminal_id (watch terminal_id loop s es) e.
Proof. unfold watch. by rewrite foldl_app. Qed.
Lemma seen_watch now terminal_id loop r c p es :
  seen es (watch terminal_id loop (session_start now terminal_id r c p) es).
Proof.
  induction es as [|e es IH] using rev_ind; [|rewrite watch_snoc; by apply seen_step].
  split; cbn -[recent]; [by eauto|lia| |done|done|by intros ? [= <-]].
  exists []. split_and!; [done..|]. intros _. exists []. by split_and!.
Qed.

(** C28: Whatever a terminal prints, however often viewers leave it and come back,
    however it is resized and typed into and whichever connections' loops poll it, also the loop of one that
    was lost and goes on: since a viewer opened it, the loops have together sent the recent
    output of the time before it came (at most 8 KiB), then all the output that
    has left the channel since, in order and without gaps or repetitions; the viewer has
    been sent a subsequence of that, and all of it as long as no loop but its own has taken any.
    Of what the reader made the channel has taken it all but for pieces it was full for;
    and of a terminal that prints text, text is sent. *)
Theorem screen_continues now terminal_id loop r c p es :
  let o := watch terminal_id loop (session_start now terminal_id r c p) es in
  (∃ taken, accepted o = taken ++ queued (session o)
    ∧ (state (session o) ≠ Closed → ∃ since, taken = before o ++ since
       ∧ sent o ++ pending (session o)
         = get_recent (appends buffer_new (before o)) DEFAULT_RECONNECT_BUFFER_BYTES ++ concat since
       ∧ (pending (session o) ≠ [] → sent o = [] ∧ since = [])))
  ∧ shown o `sublist_of` sent o ∧ (alone o = true → shown o = sent o)
  ∧ accepted o `sublist_of` produced o ∧ (length (queued (session o)) ≤ 500)%nat
  ∧ (∀ held, reader_thread (session o) = Some (Running held) →
       push_all [] (reads es) = (produced o, held)
       ∧ ∀ rest, text (concat (reads es) ++ rest) → state (session o) ≠ Closed →
           from_utf8 (sent o ++ pending (session o)) = true).
Proof.
  intros o. destruct (seen_watch now terminal_id loop r c p es) as [_ Hlen (taken & Hacc & _ & Hact) [Hshow Halone] Hsub Hrun].
  fold o in Hlen, Hacc, Hact, Hshow, Halone, Hsub, Hrun. split_and!; [by exists taken|done|done|done|done|].
  intros held Hheld. specialize (Hrun _ Hheld). split; [done|]. intros rest Htx Hst.
  pose proof (push_all_spec (reads es)) as Hall. rewrite Hrun in Hall. destruct Hall as (_ & _ & _ & Hall).
  destruct (Hall _ Htx) as [Hprod _]. assert (Forall text (accepted o)) as Ht.
  { rewrite Forall_forall in Hprod |- *. intros x Hx. eapply Hprod, elem_of_sublist; eauto. }
  rewrite Hacc in Ht. apply Forall_app in Ht as [Ht _].
  destruct (Hact Hst) as (since & -> & -> & _). apply Forall_app in Ht as [Hb Hs].
  apply from_utf8_text, text_app; [by apply recent_text|by apply text_concat].
Qed.

(** ** Redrawing on return *)
Definition run (terminal_id : Z) (s : TerminalSession) (es : list event) : TerminalSession :=
  foldl (λ s e, (on_event terminal_id s e).1) s es.
(** Events between the passes of [read_outputs] while the viewer stays. *)
Definition still (e : event) : bool := match e with Reopen _ | Detach | Poll _ _ _ _ => false | _ => true end.
Definition stays (e : event) : bool := match e with Reopen _ | Detach => false | _ => true end.
Definition polls : list event → nat := sum_list_with (λ e, match e with Poll _ _ _ _ => 1%nat | _ => 0%nat end).

Lemma state_still terminal_id s e : still e = true →
  state (on_event terminal_id s e).1 = state s ∧ (is_Some (pty_pair s) → is_Some (pty_pair (on_event terminal_id s e).1)).
Proof.
  destruct s. destruct e as [data| | | | | |ok now r c| |]; try done; intros _; cbn -[push_chunk finish Nat.ltb].
  - unfold reader_read. cbn -[push_chunk Nat.ltb]. repeat (case_match; simplify_eq; cbn -[push_chunk Nat.ltb] in *; try done).
    all: unfold try_send_output in *; cbn -[Nat.ltb] in *; repeat (case_match; simplify_eq; cbn in *; try done).
  - unfold reader_eof. cbn -[finish Nat.ltb]. repeat (case_match; simplify_eq; cbn -[finish Nat.ltb] in *; try done).
    all: unfold try_send_output in *; cbn -[Nat.ltb] in *; repeat (case_match; simplify_eq; cbn in *; try done).
  - unfold reader_error. cbn. by repeat case_match.
  - unfold resize. cbn. destruct pty_pair0; cbn; [|done]. by destruct ok.
Qed.
Lemma state_run_still terminal_id s es : Forall (λ e, still e = true) es →
  state (run terminal_id s es) = state s ∧ (is_Some (pty_pair s) → is_Some (pty_pair (run terminal_id s es))).
Proof.
  intros Hes. revert s. induction Hes as [|e es He Hes IH]; intros s; [done|].
  change (run terminal_id s (e :: es)) with (run terminal_id (on_event terminal_id s e).1 es).
  destruct (state_still terminal_id s e He) as [Hst Hpty]. destruct (IH (on_event terminal_id s e).1) as [-> Hp].
  split; [done|auto].
Qed.

(** What a pass does to the size and to the phase. *)
Lemma poll_redraw terminal_id loop exited ok now s pb ph : state s = Active pb ph →
  let s' := (on_event terminal_id s (Poll loop exited ok now)).1 in
  let '(ph', action) := sigwinch_begin ph in
  rows s' = rows s ∧ cols s' = cols s ∧
  match action with
  | None => state s' = Active None ph' ∧ pty_pair s' = pty_pair s
  | Some action =>
      let done := ok && negb (rows s =? 0) && negb (cols s =? 0) && bool_decide (is_Some (pty_pair s)) in
      state s' = Active None (sigwinch_end action done ph')
      ∧ pty_pair s' = if done then Some (target_rows (rows s) action, cols s) else pty_pair s
  end.
Proof.
  intros Hst. cbn [on_event]. unfold poll. destruct s as [a pty c d e f g ob h i k l m st]; cbn in Hst. subst st.
  cbn -[sigwinch_begin do_sigwinch_resize should_send_closed appends].
  destruct (sigwinch_begin ph) as [ph' [act|]]; cbn -[do_sigwinch_resize should_send_closed appends target_rows sigwinch_end].
  2: { by destruct (bool_decide _). }
  unfold do_sigwinch_resize. destruct (bool_decide (default [] e = [])); cbn -[should_send_closed appends target_rows sigwinch_end].
  all: destruct (k =? 0), (l =? 0), pty, ok; cbn -[should_send_closed appends target_rows sigwinch_end]; done.
Qed.

Definition phase_fuel (p : SigwinchPhase) : Z :=
  match p with Idle => 0 | TempResize retries => retries + 4 | Restore retries => retries + 1 end.
Definition phase_ok (p : SigwinchPhase) : Prop :=
  match p with Idle => True | TempResize retries | Restore retries => 0 <= retries <= MAX_SIGWINCH_PHASE_ATTEMPTS end.
Lemma reopen_state s : sigwinch_of (state (reopen s).1) = TempResize MAX_SIGWINCH_PHASE_ATTEMPTS
  ∧ state (reopen s).1 ≠ Closed ∧ pty_pair (reopen s).1 = pty_pair s.
Proof. unfold reopen. destruct s. cbn -[get_recent appends]. done. Qed.

(** Each pass uses up an attempt, or goes on to the next phase. *)
Lemma redraw_fuel terminal_id s e : stays e = true → state s ≠ Closed → phase_ok (sigwinch_of (state s)) →
  let s' := (on_event terminal_id s e).1 in
  state s' ≠ Closed ∧ phase_ok (sigwinch_of (state s'))
  ∧ phase_fuel (sigwinch_of (state s')) ≤ Z.max 0 (phase_fuel (sigwinch_of (state s)) - Z.of_nat (polls [e])).
Proof.
  intros He Hst Hok. cbv zeta. destruct (still e) eqn:Hstill.
  { destruct (state_still terminal_id s e Hstill) as [-> _]. split_and!; [done|done|].
    destruct e; try done; cbn; lia. }
  destruct e as [| | | |loop exited ok now| | | |]; try done. destruct (state s) as [|pb ph] eqn:Hs; [done|].
  pose proof (poll_redraw terminal_id loop exited ok now s pb ph Hs) as Hp. cbn [sigwinch_of] in *. cbv zeta in *.
  unfold phase_ok, MAX_SIGWINCH_PHASE_ATTEMPTS in *. cbn [polls sum_list_with].
  destruct ph as [|r|r]; cbn [sigwinch_begin] in Hp.
  - destruct Hp as (_ & _ & -> & _). cbn. split_and!; [done|done|lia].
  - destruct (Z.eqb_spec r 0); destruct Hp as (_ & _ & -> & _).
    + cbn. split_and!; [done|done|lia].
    + cbn [sigwinch_end]. unfold MAX_SIGWINCH_PHASE_ATTEMPTS. destruct (_ && _); cbn; split_and!; (done || lia).
  - destruct (Z.eqb_spec r 0); destruct Hp as (_ & _ & -> & _).
    + cbn. split_and!; [done|done|lia].
    + cbn [sigwinch_end]. destruct (_ && _); cbn; split_and!; (done || lia).
Qed.
Lemma redraw_ends terminal_id s es : Forall (λ e, stays e = true) es → state s ≠ Closed →
  phase_ok (sigwinch_of (state s)) →
  let s' := run terminal_id s es in
  phase_fuel (sigwinch_of (state s')) ≤ Z.max 0 (phase_fuel (sigwinch_of (state s)) - Z.of_nat (polls es))
  ∧ phase_ok (sigwinch_of (state s')).
Proof.
  intros Hes. revert s. induction Hes as [|e es He Hes IH]; intros s Hst Hok; cbv zeta.
  { cbn. split; [|done]. unfold phase_ok in Hok. destruct (sigwinch_of (state s)); cbn; lia. }
  change (run terminal_id s (e :: es)) with (run terminal_id (on_event terminal_id s e).1 es).
  destruct (redraw_fuel terminal_id s e He Hst Hok) as (Hst' & Hok' & Hf).
  destruct (IH _ Hst' Hok') as [Hf' Hok'']. split; [|done].
  assert (polls (e :: es) = (polls [e] + polls es)%nat) as ->; [|lia].
  unfold polls. cbn. destruct e; lia.
Qed.
Lemma no_fuel_idle p : phase_ok p → phase_fuel p ≤ 0 → p = Idle.
Proof. destruct p; cbn; intros; [done|lia..]. Qed.

(** A program that redraws its screen when the size of the terminal changes is
    made to redraw when a viewer comes back: the first pass gives the terminal
    another number of rows, the second its own again, and that is the end of it;
    reading, typing and resizing between the passes change nothing. Refused
    attempts are repeated three times each, and after seven passes nothing is
    left to do whatever the system answers. *)
Theorem redraw_on_return terminal_id loop s es1 es2 exited1 exited2 now1 now2 :
  is_Some (pty_pair s) → Forall (λ e, still e = true) es1 → Forall (λ e, still e = true) es2 →
  let s1 := run terminal_id (reopen s).1 es1 in
  let s2 := run terminal_id s1 [Poll loop exited1 true now1] in
  let s3 := run terminal_id s2 es2 in
  let s4 := run terminal_id s3 [Poll loop exited2 true now2] in
  0 < rows s1 → 0 < cols s1 → 0 < rows s3 → 0 < cols s3 →
  (∃ other, pty_pair s2 = Some (other, cols s2) ∧ other ≠ rows s2)
  ∧ pty_pair s4 = Some (rows s4, cols s4) ∧ sigwinch_of (state s4) = Idle
  ∧ ∀ es, Forall (λ e, stays e = true) es → (7 ≤ polls es)%nat →
      sigwinch_of (state (run terminal_id (reopen s).1 es)) = Idle.
Proof.
  intros Hpty Hes1 Hes2 s1 s2 s3 s4 Hr1 Hc1 Hr3 Hc3.
  destruct (reopen_state s) as (Hph & Hopen & Hp0). rewrite <- Hp0 in Hpty.
  destruct (state_run_still terminal_id (reopen s).1 es1 Hes1) as [Hst1 Hpty1]. fold s1 in Hst1, Hpty1.
  specialize (Hpty1 Hpty). destruct (state s1) as [|pb ph] eqn:Hs1; [by rewrite <- Hst1 in Hopen|].
  rewrite <- Hst1 in Hph. cbn [sigwinch_of] in Hph. subst ph.
  pose proof (poll_redraw terminal_id loop exited1 true now1 s1 _ _ Hs1) as H2. cbn [sigwinch_begin] in H2.
  change ((on_event terminal_id s1 (Poll loop exited1 true now1)).1) with s2 in H2.
  rewrite (proj2 (Z.eqb_neq (rows s1) 0)), (proj2 (Z.eqb_neq (cols s1) 0)), bool_decide_eq_true_2 in H2 by (done || lia).
  destruct H2 as (Hrows & Hcols & Hs2 & Hp2). cbn [andb negb sigwinch_end] in Hs2, Hp2.
  assert (is_Some (pty_pair s2)) as Hpty2 by by rewrite Hp2.
  destruct (state_run_still terminal_id s2 es2 Hes2) as [Hst3 Hpty3]. fold s3 in Hst3, Hpty3.
  specialize (Hpty3 Hpty2). rewrite Hs2 in Hst3.
  pose proof (poll_redraw terminal_id loop exited2 true now2 s3 _ _ Hst3) as H4. cbn [sigwinch_begin] in H4.
  change ((on_event terminal_id s3 (Poll loop exited2 true now2)).1) with s4 in H4.
  rewrite (proj2 (Z.eqb_neq (rows s3) 0)), (proj2 (Z.eqb_neq (cols s3) 0)), bool_decide_eq_true_2 in H4 by (done || lia).
  destruct H4 as (Hrows4 & Hcols4 & Hs4 & Hp4). cbn [andb negb sigwinch_end target_rows] in Hs4, Hp4.
  split_and!.
  - rewrite Hp2, Hrows, Hcols. eexists. split; [done|]. cbn. unfold u16_saturating_sub, u16_saturating_add.
    destruct (Z.ltb_spec 2 (rows s1)); lia.
  - by rewrite Hp4, Hrows4, Hcols4.
  - by rewrite Hs4.
  - intros es Hes Hpolls. destruct (reopen_state s) as (Hph' & _ & _).
    destruct (redraw_ends terminal_id (reopen s).1 es Hes Hopen) as [Hf Hok].
    { rewrite Hph'. cbn. unfold MAX_SIGWINCH_PHASE_ATTEMPTS. lia. }
    apply no_fuel_idle; [done|]. rewrite Hph' in Hf.
      change (phase_fuel (TempResize MAX_SIGWINCH_PHASE_ATTEMPTS)) with 7 in Hf. lia.
Qed.
End session.

(** A toy compression: one long string is shortened, all others grow. *)
Definition toy_string : bytes := replicate 600 Byte.x61.
Definition toy_compress (d : bytes) : bytes := if bool_decide (d = toy_string) then [] else Byte.x00 :: d.
Definition toy_decompress (d : bytes) : bytes := match d with [] => toy_string | _ :: d => d end.
Lemma toy_ok d : toy_decompress (toy_compress d) = d.
Proof. unfold toy_compress. case_bool_decide as Hd; [by rewrite Hd|done]. Qed.
(** A viewer comes back on another connection, the loop of the first having ended; then
    the same with the loop of the first still running: it is that loop that sends. *)
Definition comes_back (loop : nat) : list event :=
  [ReadData (b8 [97; 0xE4]%nat); Detach; ReadData (b8 [0xB8; 0xAD]%nat); Reopen 2; ReadData (b8 [98]%nat); Poll loop false true 5].
Lemma screen_continues_witness :
  let o := watch toy_compress toy_decompress 1 1 (session_start 0 1 24 80 7) (comes_back 2) in
  sent o = b8 [97; 0xE4; 0xB8; 0xAD; 98]%nat ∧ shown o = sent o ∧ from_utf8 (sent o ++ pending (session o)) = true.
Proof.
  intros o. split; [vm_compute; reflexivity|].
  destruct (screen_continues toy_compress toy_decompress toy_ok 0 1 1 24 80 7 (comes_back 2)) as (_ & _ & Halone & _ & _ & Hrun). split.
  - apply Halone. vm_compute. reflexivity.
  - refine (proj2 (Hrun [] _) [] _ _).
    + vm_compute. reflexivity.
    + apply from_utf8_text. vm_compute. reflexivity.
    + vm_compute. discriminate.
Defined.
Example lost_loop_sends :
  let o := watch toy_compress toy_decompress 1 1 (session_start 0 1 24 80 7) (comes_back 1) in
  sent o = b8 [97; 0xE4; 0xB8; 0xAD; 98]%nat ∧ shown o = [] ∧ alone o = false.
Proof. vm_compute. done. Qed.

Lemma redraw_on_return_witness :
  let s := session_start 0 1 24 80 7 in
  let s1 := run toy_compress 1 (reopen s).1 [Resize true 3 30 90] in
  let s2 := run toy_compress 1 s1 [Poll 1 false true 4] in
  let s3 := run toy_compress 1 s2 [ReadData (b8 [97]%nat)] in
  let s4 := run toy_compress 1 s3 [Poll 1 false true 5] in
  pty_pair s2 = Some (29, 90) ∧ pty_pair s4 = Some (30, 90) ∧ sigwinch_of (state s4) = Idle.
Proof.
  intros s s1 s2 s3 s4. split; [vm_compute; reflexivity|]. split; [vm_compute; reflexivity|].
  refine (proj1 (proj2 (proj2 (redraw_on_return toy_compress 1 1 s [Resize true 3 30 90] [ReadData (b8 [97]%nat)]
    false false 4 5 _ _ _ _ _ _ _)))).
  - by eexists.
  - by repeat constructor.
  - by repeat constructor.
  - vm_compute. reflexivity.
  - vm_compute. reflexivity.
  - vm_compute. reflexivity.
  - vm_compute. reflexivity.
Defined.
