(* ===== verification/TerminalService.v ===== *)
(** * Terminal services

    The rest of [src/server/terminal_service.rs]: the registry of the services
    that outlive connections, the terminals of a service, the actions a viewer
    sends and the passes of the loops that collect output, lock by lock. *)
From S2P Require Import Prelude TerminalText TerminalSession.
Local Open Scope Z_scope.

(** Times are in milliseconds. *)
Definition MAX_SERVICES : nat := 100.
Definition SERVICE_IDLE_TIMEOUT : Z := 3600 * 1000.
#[global] Arguments MAX_SERVICES : simpl never.

(** The sessions are shared, with the passes under way and with the handlers:
    [sessions] says where in a store of sessions each terminal's is. *)
Abbreviation store := (gmap nat TerminalSession).
Record PersistentTerminalService := mk_service {
  service_id : str;
  sessions : gmap Z nat;
  service_activity : Z;
  is_persistent : bool;
  needs_session_sync : bool;
  is_specified_user : bool
}.
#[export] Instance PersistentTerminalService_eta : Eta PersistentTerminalService := λ r,
  mk_service (service_id r) (sessions r) (service_activity r) (is_persistent r) (needs_session_sync r) (is_specified_user r).
Definition service_new (now : Z) (id : str) (persistent specified_user : bool) : PersistentTerminalService :=
  mk_service id ∅ now persistent false specified_user.

(** An operation on some of the sessions of the store. *)
Definition on_sessions (f : TerminalSession → TerminalSession) (sids : gset nat) (h : store) : store :=
  map_imap (λ sid s, Some (if decide (sid ∈ sids) then f s else s)) h.
Definition sids (m : gmap Z nat) : gset nat := map_img m.

Definition reset_status (persistent : bool) (s : PersistentTerminalService) (h : store)
  : PersistentTerminalService * store :=
  (s <| is_persistent := persistent |> <| needs_session_sync := true |>, on_sessions detach (sids (sessions s)) h).

(** [get_terminal_info] *)
Definition get_terminal_info (s : PersistentTerminalService) (h : store) (terminal_id : Z) : option (Z * Z * bytes) :=
  sid ← sessions s !! terminal_id; t ← h !! sid;
  Some (rows t, cols t, get_recent (output_buffer t) DEFAULT_RECONNECT_BUFFER_BYTES).
Definition has_active_terminals (s : PersistentTerminalService) : bool := negb (bool_decide (sessions s = ∅)).

(** ** What a viewer asks for *)
Inductive TerminalAction :=
| OpenTerminal (terminal_id rows cols : Z)
| TerminalData (terminal_id : Z) (data : bytes)
| ResizeTerminal (terminal_id rows cols : Z)
| CloseTerminal (terminal_id : Z)
| NoAction.
(** What the system answers: to starting a shell (its process id), to a resize,
    to killing a child. *)
Record answers := mk_answers { started : result str Z; resized : result str unit; killed : result str unit }.

Definition lowest (m : gmap Z nat) : option Z :=
  map_fold (λ k _ acc, Some (match acc with Some l => Z.min k l | None => k end)) None m.
(** The terminal with the lowest number gets the number asked for. *)
Definition remap (terminal_id : Z) (s : PersistentTerminalService) : PersistentTerminalService :=
  if negb (bool_decide (is_Some (sessions s !! terminal_id))) && needs_session_sync s
     && negb (bool_decide (sessions s = ∅)) then
    match lowest (sessions s) with
    | Some lowest_id =>
        match sessions s !! lowest_id with
        | Some session_arc => s <| sessions := <[terminal_id := session_arc]> (delete lowest_id (sessions s)) |>
        | None => s
        end
    | None => s
    end
  else s.
Definition other_terminals (terminal_id : Z) (m : gmap Z nat) : list Z :=
  filter (λ id, id ≠ terminal_id) (map_to_list m).*1.
Definition handle_open (now terminal_id r c : Z) (start : result str Z) (next : nat)
    (s : PersistentTerminalService) (h : store)
  : PersistentTerminalService * store * result str (option TerminalResponse) :=
  let s := remap terminal_id s in
  match sessions s !! terminal_id with
  | Some sid =>
      match h !! sid with
      | None => (s, h, Ok None)
      | Some t =>
          let '(t, has_pending) := reopen t in
          let others := if needs_session_sync s && (1 <? base.size (sessions s))%nat
                        then other_terminals terminal_id (sessions s) else [] in
          (s <| needs_session_sync := false |>, <[sid := t]> h,
           Ok (Some (Opened terminal_id
             (if has_pending then lit "Reconnected to existing terminal with pending output"
              else lit "Reconnected to existing terminal") (pid t) (service_id s) others has_pending)))
      end
  | None =>
      match start with
      | Err e => (s, h, Err e)
      | Ok pid_ =>
          let others := if needs_session_sync s then (map_to_list (sessions s)).*1 else [] in
          (s <| needs_session_sync := false |> <| sessions ::= <[terminal_id := next]> |>,
           <[next := session_start now terminal_id r c pid_]> h,
           Ok (Some (Opened terminal_id (lit "Terminal opened") pid_ (service_id s) others false)))
      end
  end.

Definition with_session (f : TerminalSession → TerminalSession) (terminal_id : Z)
    (s : PersistentTerminalService) (h : store) : store :=
  match sessions s !! terminal_id with Some sid => alter f sid h | None => h end.
Definition handle_resize (now terminal_id r c : Z) (ok : result str unit)
    (s : PersistentTerminalService) (h : store) : store * result str (option TerminalResponse) :=
  let refused := match sessions s !! terminal_id with
                 | Some sid => match h !! sid with Some t => negb (resize (is_ok ok) now r c t).2 | None => false end
                 | None => false
                 end in
  (with_session (λ t, (resize (is_ok ok) now r c t).1) terminal_id s h,
   match ok with Err e => if refused then Err e else Ok None | Ok _ => Ok None end).
(** The session leaves the service, and is stopped when the last reference to it
    is gone. *)
Definition handle_close (terminal_id : Z) (kill : result str unit)
    (s : PersistentTerminalService) (h : store)
  : PersistentTerminalService * store * result str (option TerminalResponse) :=
  match sessions s !! terminal_id with
  | None => (s, h, Ok None)
  | Some sid =>
      let had_child := match h !! sid with Some t => child t | None => false end in
      (s <| sessions ::= delete terminal_id |>, alter stop sid h,
       if had_child then
         match kill with
         | Err e => Err e
         | Ok _ => Ok (Some (ClosedResponse terminal_id (-1)))
         end
       else Ok (Some (ClosedResponse terminal_id 0)))
  end.
Definition handle_action (now : Z) (action : TerminalAction) (ans : answers) (next : nat)
    (s : PersistentTerminalService) (h : store)
  : PersistentTerminalService * store * result str (option TerminalResponse) :=
  let s := s <| service_activity := now |> in
  match action with
  | OpenTerminal id r c => handle_open now id r c (started ans) next s h
  | TerminalData id data => (s, with_session (input now data) id s h, Ok None)
  | ResizeTerminal id r c => let '(h, res) := handle_resize now id r c (resized ans) s h in (s, h, res)
  | CloseTerminal id => handle_close id (killed ans) s h
  | NoAction => (s, h, Ok None)
  end.

(** ** The registry *)
Record world := mk_world { services : gmap str PersistentTerminalService; heap : store; next_sid : nat }.
#[export] Instance world_eta : Eta world := λ r, mk_world (services r) (heap r) (next_sid r).
Definition world_new : world := mk_world ∅ ∅ 0.

Definition get_or_create_service (now : Z) (id : str) (persistent specified_user : bool) (w : world) : world * result str () :=
  if negb (bool_decide (is_Some (services w !! id))) && (MAX_SERVICES <=? base.size (services w))%nat
  then (w, Err (lit "Maximum number of terminal services (100) reached"))
  else
    let s := default (service_new now id persistent specified_user) (services w !! id) in
    let '(s, h) := reset_status persistent s (heap w) in
    (w <| services ::= <[id := s]> |> <| heap := h |>, Ok ()).
Definition remove_service (id : str) (w : world) : world :=
  match services w !! id with
  | None => w
  | Some s => w <| services ::= delete id |> <| heap ::= on_sessions stop (sids (sessions s)) |>
  end.
(** [duration_since] is zero when the clock has gone back. *)
Definition idle (now : Z) (s : PersistentTerminalService) : bool :=
  let since := Z.max 0 (now - service_activity s) in
  if negb (is_persistent s) && (SERVICE_IDLE_TIMEOUT <? since) then true
  else is_persistent s && bool_decide (sessions s = ∅) && (SERVICE_IDLE_TIMEOUT * 2 <? since).
Definition cleanup_inactive_services (now : Z) (w : world) : world :=
  let to_remove := (filter (λ ids, idle now ids.2 = true) (map_to_list (services w))).*1 in
  foldl (λ w id, remove_service id w) w to_remove.
Definition is_service_specified_user (w : world) (id : str) : option bool := is_specified_user <$> services w !! id.
Definition set_persistent (id : str) (persistent : bool) (w : world) : world * result str () :=
  match services w !! id with
  | Some s => (w <| services ::= <[id := s <| is_persistent := persistent |>]> |>, Ok ())
  | None => (w, Err (lit "Service " ++ id ++ lit " not found"))
  end.

(** ** [TerminalServiceProxy] *)
Record TerminalServiceProxy := mk_proxy { proxy_id : str; proxy_persistent : bool }.
Definition proxy_new (id : str) (persistent : option bool) (w : world) : TerminalServiceProxy :=
  mk_proxy id (match persistent with
               | Some p => p
               | None => match services w !! id with Some s => is_persistent s | None => false end
               end).
Definition proxy_action (now : Z) (action : TerminalAction) (ans : answers) (p : TerminalServiceProxy) (w : world)
  : world * result str (option TerminalResponse) :=
  match services w !! proxy_id p with
  | None => (w, Ok (Some (Error (lit "Terminal service " ++ proxy_id p ++ lit " not found"))))
  | Some s =>
      let '(s, h, res) := handle_action now action ans (next_sid w) s (heap w) in
      (mk_world (<[proxy_id p := s]> (services w)) h (S (next_sid w)), res)
  end.
Definition on_disconnect (p : TerminalServiceProxy) (w : world) : world :=
  if proxy_persistent p then w else remove_service (proxy_id p) w.
(** The end of [run]: the connection of this service is gone. *)
Definition run_ends (id : str) (w : world) : world :=
  match services w !! id with
  | Some s => if is_persistent s then w else remove_service id w
  | None => w
  end.

(** ** The passes of [read_outputs]

    Each connection has a loop, and each turn of it a pass. It clones the table of its
    service, polls the sessions one after the other, each under its own lock, clones the
    table once more if it found terminals closed, and removes those by number, one after
    the other, from the table as it then is. Other loops and handlers come between any
    two of these. What the system says of a session while it is read: whether its lock
    is taken by another thread, whether its child has exited, whether a resize
    succeeds. *)
Record answer := mk_answer { busy : bool; exited : bool; resize_ok : bool }.
Record pass := mk_pass {
  pass_service : str;
  pass_instance : nat;
  pass_persistent : bool;
  pass_order : list (Z * nat);
  pass_todo : list (Z * nat);
  pass_closed : list Z;
  pass_snapshot : option (gmap Z nat);
  pass_responses : list TerminalResponse
}.
#[export] Instance pass_eta : Eta pass := λ r,
  mk_pass (pass_service r) (pass_instance r) (pass_persistent r) (pass_order r) (pass_todo r) (pass_closed r)
    (pass_snapshot r) (pass_responses r).
(** The registry, how many services were created under each id, and the pass each loop
    is in. A pass has a reference to its service, which is not that of a service
    created under the same id later. *)
Record system := mk_system { registry : world; created : gmap str nat; passes : gmap nat pass }.
#[export] Instance system_eta : Eta system := λ r, mk_system (registry r) (created r) (passes r).
Definition system_new : system := mk_system world_new ∅ ∅.
Definition instance_of (x : system) (id : str) : nat := default 0%nat (created x !! id).
Definition live (x : system) (p : pass) : option PersistentTerminalService :=
  match services (registry x) !! pass_service p with
  | Some s => if (instance_of x (pass_service p) =? pass_instance p)%nat then Some s else None
  | None => None
  end.
(** [TerminalServiceProxy::new], which has read [persistent] from the service, and the
    first lock of the pass of loop [n]; [order] is the table as it is gone through. *)
Definition begin_pass (n : nat) (persistent : bool) (order : list (Z * nat)) (id : str) (x : system) : system :=
  match services (registry x) !! id with
  | None => x
  | Some _ => x <| passes ::= <[n := mk_pass id (instance_of x id) persistent order order [] None []]> |>
  end.
Definition read_next (compress : bytes → bytes) (now : Z) (a : answer) (n : nat) (x : system) : system :=
  match passes x !! n with
  | None => x
  | Some p =>
      match pass_todo p with
      | [] => x
      | (terminal_id, sid) :: todo =>
          let p := p <| pass_todo := todo |> in
          match (if busy a then None else heap (registry x) !! sid) with
          | None => x <| passes ::= <[n := p]> |>
          | Some t =>
              let '(t, more, closed) := poll compress (exited a) (resize_ok a) now terminal_id t in
              x <| registry ::= λ w, w <| heap ::= <[sid := t]> |> |>
                <| passes ::= <[n := p <| pass_responses ::= λ rs, rs ++ more |>
                     <| pass_closed ::= λ l, if closed then l ++ [terminal_id] else l |>]> |>
          end
      end
  end.
(** The second clone of the table. Of a service that has left the registry nothing more
    is followed. *)
Definition look_again (n : nat) (x : system) : system :=
  match passes x !! n with
  | None => x
  | Some p =>
      match pass_todo p, pass_closed p, pass_snapshot p with
      | [], _ :: _, None =>
          match live x p with
          | Some s => x <| passes ::= <[n := p <| pass_snapshot := Some (sessions s) |>]> |>
          | None => x <| passes ::= delete n |>
          end
      | _, _, _ => x
      end
  end.
(** The session under the number leaves the table, and is stopped when the last
    reference to it is gone. *)
Definition remove_terminal (p : pass) (terminal_id : Z) (x : system) : system :=
  match live x p with
  | None => x
  | Some s => x <| registry ::= λ w,
      w <| services ::= <[pass_service p := s <| sessions ::= delete terminal_id |>]> |>
        <| heap ::= match sessions s !! terminal_id with Some sid => alter stop sid | None => λ h, h end |> |>
  end.
(** One turn of the loop over the closed terminals: the child of the session in the clone is taken,
    which [exit_code] is asked of, and the number removed. It takes the session's lock
    and then the table's (of a service that is not persistent, the table's first). The
    two are one step here: the removal goes by number, whatever came
    between, and that a session was told of stays so ([grows]), so another step coming
    between them does what it does before or after both, but for the exit code told. *)
Definition clean_next (exit_code : option Z) (n : nat) (x : system) : system :=
  match passes x !! n with
  | None => x
  | Some p =>
      match pass_snapshot p, pass_closed p with
      | Some snapshot, terminal_id :: closed =>
          let respond code := p <| pass_closed := closed |>
                                <| pass_responses ::= λ rs, rs ++ [ClosedResponse terminal_id code] |> in
          match snapshot !! terminal_id with
          | None => x <| passes ::= <[n := respond 0]> |>
          | Some sid =>
              let session := heap (registry x) !! sid in
              let code := if (match session with Some t => child t | None => false end) then default 0 exit_code else 0 in
              let remove := negb (pass_persistent p) || (match session with Some t => closed_message_sent t | None => false end) in
              let x := x <| registry ::= λ w, w <| heap ::= alter (λ t, t <| child := false |>) sid |> |> in
              if remove then
                remove_terminal p terminal_id
                  (x <| passes ::= <[n := (respond code) <| pass_snapshot := Some (delete terminal_id snapshot) |>]> |>)
              else x <| passes ::= <[n := respond code]> |>
          end
      | _, _ => x
      end
  end.

(** ** The connection's side

    [Connection] of [src/server/connection.rs]: what its terminal fields are,
    [user] being whether the login is for the logged-on user ([Some true]), for the
    user the program runs as ([Some false]) or not settled. [fresh] is what
    [generate_service_id] returns. *)
Record TerminalConnection := mk_terminal_conn {
  terminal_service_id : str;
  terminal_persistent : bool;
  terminal_user_token : option bool
}.
#[export] Instance TerminalConnection_eta : Eta TerminalConnection := λ r,
  mk_terminal_conn (terminal_service_id r) (terminal_persistent r) (terminal_user_token r).
Definition init_terminal_service (now : Z) (fresh : str) (c : TerminalConnection) (w : world) : TerminalConnection * world :=
  match terminal_user_token c with
  | None => (c, w)
  | Some has_service_token =>
      let c := if bool_decide (terminal_service_id c = []) then c <| terminal_service_id := fresh |> else c in
      (c, (get_or_create_service now (terminal_service_id c) (terminal_persistent c) has_service_token w).1)
  end.
Definition handle_terminal_action (now : Z) (action : TerminalAction) (ans : answers) (c : TerminalConnection) (w : world)
  : world * list TerminalResponse :=
  match terminal_user_token c with
  | None => (w, [])
  | Some _ =>
      let '(w, res) := proxy_action now action ans (proxy_new (terminal_service_id c) (Some (terminal_persistent c)) w) w in
      (w, match res with
          | Ok (Some response) => [response]
          | Ok None => []
          | Err err => [Error (lit "Failed to handle action: " ++ err)]
          end)
  end.
Definition update_terminal_persistence (persistent : bool) (c : TerminalConnection) (w : world) : TerminalConnection * world :=
  (c <| terminal_persistent := persistent |>, (set_persistent (terminal_service_id c) persistent w).1).
(** The check of the login that the service was started for the same kind of user. *)
Definition terminal_user_matches (c : TerminalConnection) (w : world) : bool :=
  match is_service_specified_user w (terminal_service_id c), terminal_user_token c with
  | Some is_user, Some has_service_token => eqb is_user has_service_token
  | _, _ => true
  end.

(** ** The store *)
Lemma lookup_on_sessions f X (h : store) sid :
  on_sessions f X h !! sid = (λ t, if decide (sid ∈ X) then f t else t) <$> h !! sid.
Proof. unfold on_sessions. rewrite map_lookup_imap. by destruct (h !! sid). Qed.
Lemma elem_of_sids m sid : sid ∈ sids m ↔ ∃ tid, m !! tid = Some sid.
Proof. unfold sids. by rewrite elem_of_map_img. Qed.
Definition injective (m : gmap Z nat) : Prop := ∀ i j sid, m !! i = Some sid → m !! j = Some sid → i = j.

(** ** Opening a terminal *)
Lemma lowest_spec m : match lowest m with
  | Some l => is_Some (m !! l) ∧ ∀ k, is_Some (m !! k) → l ≤ k
  | None => m = ∅
  end.
Proof.
  unfold lowest. apply (map_fold_weak_ind (λ r m, match r with
    | Some l => is_Some (m !! l) ∧ ∀ k, is_Some (m !! k) → l ≤ k | None => m = ∅ end)); [done|].
  intros k v m' r Hk IH. destruct r as [l|].
  - destruct IH as [Hl Hmin]. split.
    + destruct (Z.min_spec k l) as [[_ ->]|[_ ->]]; [by rewrite lookup_insert_eq|].
      rewrite lookup_insert_ne by (intros ->; rewrite Hk in Hl; by inversion Hl). done.
    + intros j [x Hj]. destruct (decide (k = j)) as [->|Hne]; [lia|].
      rewrite lookup_insert_ne in Hj by done. specialize (Hmin j ltac:(by eexists)). lia.
  - subst m'. split; [by rewrite lookup_insert_eq|]. intros j [x Hj].
    destruct (decide (k = j)) as [->|Hne]; [lia|]. by rewrite lookup_insert_ne in Hj.
Qed.

(** What the remapping does: nothing, or the lowest terminal gets a new number. *)
Lemma remap_spec terminal_id s : let s' := remap terminal_id s in
  s' = s ∧ (is_Some (sessions s !! terminal_id) ∨ needs_session_sync s = false ∨ sessions s = ∅)
  ∨ ∃ low sid, sessions s !! terminal_id = None ∧ needs_session_sync s = true ∧ sessions s !! low = Some sid
      ∧ (∀ k, is_Some (sessions s !! k) → low ≤ k)
      ∧ s' = s <| sessions := <[terminal_id := sid]> (delete low (sessions s)) |>.
Proof.
  cbv zeta. unfold remap. destruct (bool_decide_reflect (is_Some (sessions s !! terminal_id))) as [Ht|Ht]; [by left; auto|].
  destruct (needs_session_sync s) eqn:Hn; [|left; auto]. destruct (bool_decide_reflect (sessions s = ∅)) as [He|He]; [left; auto|].
  cbn [andb negb]. pose proof (lowest_spec (sessions s)) as Hl. destruct (lowest (sessions s)) as [low|]; [|done].
  destruct Hl as [[sid Hlow] Hmin]. rewrite Hlow. right. exists low, sid. split_and!; [|done..].
  by apply eq_None_not_Some.
Qed.
Lemma remap_fields terminal_id s : service_id (remap terminal_id s) = service_id s
  ∧ needs_session_sync (remap terminal_id s) = needs_session_sync s ∧ is_persistent (remap terminal_id s) = is_persistent s
  ∧ service_activity (remap terminal_id s) = service_activity s
  ∧ is_specified_user (remap terminal_id s) = is_specified_user s.
Proof. unfold remap. repeat case_match; done. Qed.

(** A renumbering: the same sessions, each under one number, and all numbers but
    the one renamed as before. *)
Record renumbered (terminal_id : Z) (m m' : gmap Z nat) : Prop := {
  renumbered_sids sid : sid ∈ sids m' ↔ sid ∈ sids m;
  renumbered_others k : k ≠ terminal_id → m' !! k = m !! k
    ∨ m !! terminal_id = None ∧ m' !! k = None ∧ m !! k = m' !! terminal_id ∧ (∀ j, is_Some (m !! j) → k ≤ j)
}.
Lemma remap_renumbered terminal_id s : injective (sessions s) →
  renumbered terminal_id (sessions s) (sessions (remap terminal_id s)) ∧ injective (sessions (remap terminal_id s)).
Proof.
  intros Hinj. destruct (remap_spec terminal_id s) as [[-> _]|(low & sid & Ht & _ & Hlow & Hmin & ->)].
  { split; [|done]. split; [done|by left]. }
  cbn. assert (low ≠ terminal_id) as Hne by (intros ->; congruence). split; [split|].
  - intros x. rewrite !elem_of_sids. split; intros [k Hk].
    + destruct (decide (k = terminal_id)) as [->|Hkt]; [rewrite lookup_insert_eq in Hk; simplify_eq; eauto|].
      rewrite lookup_insert_ne in Hk by done. apply lookup_delete_Some in Hk as [_ Hk]. eauto.
    + destruct (decide (k = low)) as [->|Hkl]; [exists terminal_id; rewrite lookup_insert_eq; congruence|].
      exists k. rewrite lookup_insert_ne by (intros ->; congruence). by rewrite lookup_delete_ne by done.
  - intros k Hk. rewrite lookup_insert_ne by done. destruct (decide (k = low)) as [->|Hkl].
    + right. rewrite lookup_delete_eq, lookup_insert_eq, Hlow. done.
    + left. by rewrite lookup_delete_ne by done.
  - intros i j x Hi Hj.
    assert (∀ k, <[terminal_id:=sid]> (delete low (sessions s)) !! k = Some x →
      k = terminal_id ∧ x = sid ∨ k ≠ low ∧ k ≠ terminal_id ∧ sessions s !! k = Some x) as Hcases.
    { intros k Hk. destruct (decide (k = terminal_id)) as [->|Hkt]; [rewrite lookup_insert_eq in Hk; left; split; congruence|].
      rewrite lookup_insert_ne in Hk by done. apply lookup_delete_Some in Hk as [? ?]. right. auto. }
    destruct (Hcases _ Hi) as [[-> ->]|(Hil & Hit & Hi')], (Hcases _ Hj) as [[-> Hx]|(Hjl & Hjt & Hj')]; try done.
    + by destruct Hjl; eapply Hinj.
    + subst x. by destruct Hil; eapply Hinj.
    + by eapply Hinj.
Qed.

Lemma elem_of_ids (m : gmap Z nat) k : k ∈ (map_to_list m).*1 ↔ is_Some (m !! k).
Proof.
  rewrite list_elem_of_fmap. split.
  - intros ([k' v] & -> & Hk%elem_of_map_to_list). by eexists.
  - intros [v Hv]. exists (k, v). by rewrite elem_of_map_to_list.
Qed.
Lemma other_terminals_spec terminal_id m : NoDup (other_terminals terminal_id m)
  ∧ ∀ k, k ∈ other_terminals terminal_id m ↔ k ≠ terminal_id ∧ is_Some (m !! k).
Proof.
  unfold other_terminals. split; [apply NoDup_filter, NoDup_fst_map_to_list|].
  intros k. by rewrite list_elem_of_filter, elem_of_ids.
Qed.
(** A table of one terminal has no others. *)
Lemma no_other_terminals terminal_id (m : gmap Z nat) k :
  is_Some (m !! terminal_id) → (base.size m ≤ 1)%nat → is_Some (m !! k) → k = terminal_id.
Proof.
  intros [v Hv] Hs [w Hw]. destruct (decide (k = terminal_id)) as [|Hne]; [done|exfalso].
  rewrite <- (insert_delete_id m terminal_id v Hv), map_size_insert_None in Hs by apply lookup_delete_eq.
  assert (base.size (delete terminal_id m) = 0)%nat as H0 by lia.
  apply map_size_empty_inv in H0. assert (delete terminal_id m !! k = None) as Hn by by rewrite H0.
  rewrite lookup_delete_ne in Hn by done. congruence.
Qed.

(** Opening a terminal, on every branch. One that exists is gone back to, and
    so is the one with the lowest number when the number asked for is free and the
    viewer has just come back; no session is lost, the others keep their numbers
    and their state, and the viewer is told exactly the other terminals, once.
    Otherwise a shell is started in a session of its own, or nothing changes and
    the error is reported. *)
Lemma handle_open_spec now terminal_id r c start next s h :
  injective (sessions s) → (∀ k sid, sessions s !! k = Some sid → is_Some (h !! sid)) → h !! next = None →
  let '(s', h', res) := handle_open now terminal_id r c start next s h in
  let told others := NoDup others ∧ ∀ k, k ∈ others ↔
    needs_session_sync s = true ∧ k ≠ terminal_id ∧ is_Some (sessions s' !! k) in
  injective (sessions s')
  ∧ if bool_decide (is_Some (sessions s !! terminal_id)) || needs_session_sync s && negb (bool_decide (sessions s = ∅))
    then ∃ sid t message others, sessions s' !! terminal_id = Some sid ∧ h !! sid = Some t
      ∧ renumbered terminal_id (sessions s) (sessions s')
      ∧ h' = <[sid := (reopen t).1]> h ∧ needs_session_sync s' = false
      ∧ res = Ok (Some (Opened terminal_id message (pid t) (service_id s) others (reopen t).2)) ∧ told others
    else match start with
      | Err e => s' = s ∧ h' = h ∧ res = Err e
      | Ok pid_ => ∃ message others, sessions s' = <[terminal_id := next]> (sessions s)
          ∧ h' = <[next := session_start now terminal_id r c pid_]> h ∧ needs_session_sync s' = false
          ∧ res = Ok (Some (Opened terminal_id message pid_ (service_id s) others false)) ∧ told others
      end.
Proof.
  intros Hinj Href Hnext. destruct (remap_renumbered terminal_id s Hinj) as [Hren Hinj'].
  destruct (remap_fields terminal_id s) as (Hid & Hsync & _ & _ & _).
  unfold handle_open. pose proof (remap_spec terminal_id s) as Hspec. cbv zeta in Hspec.
  destruct (bool_decide (is_Some (sessions s !! terminal_id)) || needs_session_sync s && negb (bool_decide (sessions s = ∅))) eqn:Hex.
  - assert (is_Some (sessions (remap terminal_id s) !! terminal_id)) as [sid Hsid].
    { destruct Hspec as [[-> Hno]|(low & sid & _ & _ & _ & _ & ->)]; [|cbn; by rewrite lookup_insert_eq].
      apply orb_true_iff in Hex as [Hex|[Hn He]%andb_true_iff]; [by apply bool_decide_eq_true in Hex|].
      apply negb_true_iff, bool_decide_eq_false in He. destruct Hno as [|[|]]; [done|congruence|done]. }
    assert (is_Some (h !! sid)) as [t Ht].
    { assert (sid ∈ sids (sessions s)) as (k & Hk)%elem_of_sids by (apply (renumbered_sids _ _ _ Hren), elem_of_sids; eauto). eauto. }
    rewrite Hsid, Ht. destruct (reopen t) as [t' has_pending] eqn:Hr. cbn [sessions needs_session_sync].
    rewrite Hid, Hsync. split; [done|]. exists sid, t. do 2 eexists.
    split; [exact Hsid|]. split; [done|]. split; [exact Hren|]. rewrite Hr. cbn [fst snd].
    split; [done|]. split; [done|].
    assert (pid t' = pid t) as -> by (change t' with (t', has_pending).1; by rewrite <- Hr).
    split; [done|]. cbn -[Nat.ltb].
    destruct (other_terminals_spec terminal_id (sessions (remap terminal_id s))) as [Hnd Helem].
    destruct (needs_session_sync s); cbn [andb].
    + destruct (Nat.ltb_spec 1 (base.size (sessions (remap terminal_id s)))) as [Hlt|Hge].
      * split; [done|]. intros k. rewrite Helem. tauto.
      * split; [constructor|]. intros k. split; [by intros ?%elem_of_nil|]. intros (_ & Hk & Hs).
        by destruct Hk; eapply no_other_terminals.
    + split; [constructor|]. intros k. split; [by intros ?%elem_of_nil|by intros []].
  - apply orb_false_iff in Hex as [Hex Hns]. apply bool_decide_eq_false in Hex.
    assert (remap terminal_id s = s) as ->.
    { destruct Hspec as [[-> _]|(low & sid & _ & Hn & Hlow & _)]; [done|].
      rewrite Hn in Hns. cbn in Hns. apply negb_false_iff, bool_decide_eq_true in Hns. by rewrite Hns in Hlow. }
    apply eq_None_not_Some in Hex. rewrite Hex. destruct start as [pid_|e]; [|by split_and!]. cbn.
    assert (∀ k, sessions s !! k ≠ Some next) as Hfresh by (intros k Hk; destruct (Href _ _ Hk); congruence).
    split.
    { intros i j x Hi Hj. destruct (decide (i = terminal_id)) as [->|Hit], (decide (j = terminal_id)) as [->|Hjt];
        rewrite ?lookup_insert_eq, ?lookup_insert_ne in * by done; [done|simplify_eq..|].
      - by destruct (Hfresh j).
      - by destruct (Hfresh i).
      - by eapply Hinj. }
    do 2 eexists. split; [done|]. split; [done|]. split; [done|]. split; [done|].
    destruct (needs_session_sync s) eqn:Hn.
    + cbn in Hns. apply negb_false_iff, bool_decide_eq_true in Hns. rewrite Hns. rewrite map_to_list_empty. cbn.
      split; [constructor|]. intros k. split; [by intros ?%elem_of_nil|]. intros (_ & Hk & Hs).
      by rewrite lookup_insert_ne, lookup_empty in Hs by done; inversion Hs.
    + split; [constructor|]. intros k. split; [by intros ?%elem_of_nil|by intros []].
Qed.
Example reopen_lowest :
  let s := mk_service (lit "ts") {[2 := 0%nat; 5 := 1%nat]} 0 true true false in
  let h : store := {[0%nat := detach (session_start 0 2 24 80 7); 1%nat := detach (session_start 0 5 24 80 8)]} in
  let '(s', _, res) := handle_open 9 1 24 80 (Err (lit "no shell")) 2 s h in
  sessions s' = {[1 := 0%nat; 5 := 1%nat]}
  ∧ res = Ok (Some (Opened 1 (lit "Reconnected to existing terminal") 7 (lit "ts") [5] false)).
Proof. vm_compute. done. Qed.

Lemma open_user now terminal_id r c start next s h :
  is_specified_user (handle_open now terminal_id r c start next s h).1.1 = is_specified_user s.
Proof.
  destruct (remap_fields terminal_id s) as (_ & _ & _ & _ & <-). unfold handle_open.
  repeat case_match; simplify_eq; done.
Qed.

Lemma poll_closed compress now ex ok terminal_id t :
  let '(t', _, closed) := poll compress ex ok now terminal_id t in
  closed = should_send_closed ex t ∧ closed_message_sent t' = closed || closed_message_sent t.
Proof.
  unfold poll. set (closed := should_send_closed ex t). destruct t as [a b c d e f g ob hh i k l m st].
  cbn -[appends do_sigwinch_resize]. destruct st as [|pb ph]; [done|]. cbn -[appends do_sigwinch_resize].
  destruct (sigwinch_begin ph) as [ph' [act|]]; cbn -[appends do_sigwinch_resize]; [|by destruct (bool_decide _)].
  match goal with |- context [do_sigwinch_resize ok act ?x] => destruct (sigwinch_only_pty ok act x) as (p & r & ->) end.
  by destruct (bool_decide _).
Qed.

(** ** What happens to the registry *)
Section life.
Context (compress : bytes → bytes).

Inductive happening :=
| Attach (now : Z) (id : str) (persistent specified_user : bool)  (* [new], for a login *)
| Persist (id : str) (persistent : bool)                          (* [set_persistent] *)
| Act (now : Z) (action : TerminalAction) (ans : answers) (p : TerminalServiceProxy)
| Ends (id : str)                                                 (* the end of [run] *)
| Leave (p : TerminalServiceProxy)                                (* [on_disconnect] *)
| Cleanup (now : Z)
| Pty (sid : nat) (e : event)                                     (* a reader thread *)
| PassBegin (n : nat) (persistent : bool) (order : list (Z * nat)) (id : str)
| PassRead (now : Z) (a : answer) (n : nat)
| PassLook (n : nat)
| PassClean (exit_code : option Z) (n : nat).
Definition on_registry (w : world) (e : happening) : world :=
  match e with
  | Attach now id persistent specified_user => (get_or_create_service now id persistent specified_user w).1
  | Persist id persistent => (set_persistent id persistent w).1
  | Act now action ans p => (proxy_action now action ans p w).1
  | Ends id => run_ends id w
  | Leave p => on_disconnect p w
  | Cleanup now => cleanup_inactive_services now w
  | Pty sid e => w <| heap ::= alter (λ t, (on_event compress 0 t e).1) sid |>
  | _ => w
  end.
Definition happens (x : system) (e : happening) : system :=
  match e with
  | Attach _ id _ _ =>
      let x' := x <| registry := on_registry (registry x) e |> in
      if bool_decide (services (registry x) !! id = None) then x' <| created ::= <[id := S (instance_of x id)]> |> else x'
  | PassBegin n persistent order id => begin_pass n persistent order id x
  | PassRead now a n => read_next compress now a n x
  | PassLook n => look_again n x
  | PassClean exit_code n => clean_next exit_code n x
  | _ => x <| registry := on_registry (registry x) e |>
  end.
(** A pass goes through the table of the service in some order; reader threads
    only read. *)
Definition possible (x : system) (e : happening) : Prop :=
  match e with
  | PassBegin _ _ order id => ∀ s, services (registry x) !! id = Some s → order ≡ₚ map_to_list (sessions s)
  | Pty _ e => reads_only e = true
  | _ => True
  end.
Definition system_step (x x' : system) : Prop := ∃ e, possible x e ∧ x' = happens x e.
Definition reachable_system : system → Prop := reachable (λ x, x = system_new) system_step.

(** Whom a happening is about. *)
Definition about (x : system) (e : happening) (id : str) (sid : nat) : Prop :=
  match e with
  | Attach _ id' _ _ | Persist id' _ | Ends id' => id' = id
  | Act _ _ _ p | Leave p => proxy_id p = id
  | Cleanup _ | PassBegin _ _ _ _ | PassLook _ => False
  | Pty sid' _ => sid' = sid
  | PassRead _ _ n => ∃ p k, passes x !! n = Some p ∧ head (pass_todo p) = Some (k, sid)
  | PassClean _ n => ∃ p, passes x !! n = Some p
      ∧ (pass_service p = id ∨ ∃ m k, pass_snapshot p = Some m ∧ m !! k = Some sid)
  end.
(** What a session has come to is something that happens to sessions. *)
Definition evolves (t t' : TerminalSession) : Prop := ∃ es, t' = run compress 0 t es.
Definition lived (t : TerminalSession) : Prop :=
  ∃ now terminal_id r c p es, t = run compress 0 (session_start now terminal_id r c p) es.

(** The terminal [k] of the service [id], its session [sid] in state [t], after
    [e] has taken [x] to [w']: it is there, *)
Definition stays_open (w' : world) (x : system) (e : happening) (id : str) (s : PersistentTerminalService) (k : Z) (sid : nat)
    (t : TerminalSession) : Prop :=
  ∃ s' k' t', services w' !! id = Some s' ∧ sessions s' !! k' = Some sid ∧ heap w' !! sid = Some t'
    ∧ evolves t t' ∧ is_specified_user s' = is_specified_user s
    ∧ (k' = k ∨ ∃ now r c ans p, e = Act now (OpenTerminal k' r c) ans p ∧ proxy_id p = id ∧ sessions s !! k' = None)
    ∧ (¬ about x e id sid → s' = s ∧ t' = t).
(** or there is a reason that it is not. A pass removes the number of a session it had found
    ended, or that another loop had, and told the viewer of: most often that is this one. *)
Definition ended (x : system) (e : happening) (id : str) (s : PersistentTerminalService) (k : Z) (sid : nat) (t : TerminalSession) : Prop :=
  match e with
  | Act _ (CloseTerminal k') _ p => k' = k ∧ proxy_id p = id
  | Ends id' => id' = id ∧ is_persistent s = false
  | Leave p => proxy_id p = id ∧ proxy_persistent p = false
  | Cleanup now => idle now s = true
  | PassClean _ n => ∃ p sid0 t0, passes x !! n = Some p ∧ pass_service p = id ∧ head (pass_closed p) = Some k
      ∧ (k, sid0) ∈ pass_order p ∧ heap (registry x) !! sid0 = Some t0 ∧ closed_message_sent t0 = true
  | _ => False
  end.

Record world_ok (w : world) : Prop := {
  ok_refs id s k sid : services w !! id = Some s → sessions s !! k = Some sid → ∃ t, heap w !! sid = Some t ∧ lived t;
  ok_inj id id' s s' k k' sid : services w !! id = Some s → services w !! id' = Some s' →
    sessions s !! k = Some sid → sessions s' !! k' = Some sid → id = id' ∧ k = k';
  ok_next sid : is_Some (heap w !! sid) → (sid < next_sid w)%nat;
  ok_services : (base.size (services w) ≤ MAX_SERVICES)%nat
}.

Context (sy : system).
Lemma lived_evolves t t' : lived t → evolves t t' → lived t'.
Proof.
  intros (now & tid & r & c & p & es & ->) [es' ->]. exists now, tid, r, c, p, (es ++ es'). unfold run. by rewrite foldl_app.
Qed.
Lemma evolves_trans t1 t2 t3 : evolves t1 t2 → evolves t2 t3 → evolves t1 t3.
Proof. intros [es ->] [es' ->]. exists (es ++ es'). unfold run. by rewrite foldl_app. Qed.
Lemma evolves_refl t : evolves t t.
Proof. by exists []. Qed.
Lemma evolves_event t ev : evolves t (on_event compress 0 t ev).1.
Proof. by exists [ev]. Qed.
#[local] Hint Resolve evolves_refl evolves_event : core.
Lemma stays_same w e id s k sid t : services w !! id = Some s → sessions s !! k = Some sid → heap w !! sid = Some t →
  stays_open w sy e id s k sid t.
Proof. intros. exists s, k, t. split_and!; auto. Qed.

Definition life (w : world) (e : happening) (w' : world) : Prop := ∀ id s k sid t,
  services w !! id = Some s → sessions s !! k = Some sid → heap w !! sid = Some t →
  stays_open w' sy e id s k sid t ∨ ended sy e id s k sid t.

(** One service, or a new one, goes from [s] to [s'], and the store to [h']. *)
Lemma update_service w e id s s' h' next' : world_ok w → (∀ sid, about sy e id sid) →
  services w !! id = Some s ∨ services w !! id = None ∧ sessions s = ∅ ∧ (base.size (services w) < MAX_SERVICES)%nat →
  injective (sessions s') →
  (∀ sid, sid ∈ sids (sessions s') → sid ∉ sids (sessions s) →
     (next_sid w ≤ sid)%nat ∧ ∃ t, h' !! sid = Some t ∧ lived t) →
  (∀ sid, (sid < next_sid w)%nat → sid ∉ sids (sessions s) → h' !! sid = heap w !! sid) →
  (∀ sid t, sid ∈ sids (sessions s) → sid ∈ sids (sessions s') → heap w !! sid = Some t → ∃ t', h' !! sid = Some t' ∧ evolves t t') →
  (∀ k sid t, sessions s !! k = Some sid → heap w !! sid = Some t →
     (∃ k', sessions s' !! k' = Some sid ∧
        (k' = k ∨ ∃ now r c ans p, e = Act now (OpenTerminal k' r c) ans p ∧ proxy_id p = id ∧ sessions s !! k' = None))
     ∨ ended sy e id s k sid t) →
  is_specified_user s' = is_specified_user s →
  (∀ sid, is_Some (h' !! sid) → (sid < next')%nat) → (next_sid w ≤ next')%nat →
  let w' := mk_world (<[id := s']> (services w)) h' next' in world_ok w' ∧ life w e w'.
Proof.
  intros Hok Habout Hs Hinj Hnew Hout Hev Hkeep Huser Hdom Hnext w'.
  assert (∀ sid, sid ∈ sids (sessions s) → ∃ t, heap w !! sid = Some t ∧ lived t) as Href.
  { intros sid (k & Hk)%elem_of_sids. destruct Hs as [Hs|(_ & He & _)]; [by eapply ok_refs|by rewrite He in Hk]. }
  assert (∀ id' s'' k sid, id' ≠ id → services w !! id' = Some s'' → sessions s'' !! k = Some sid →
    (sid ∉ sids (sessions s)) ∧ h' !! sid = heap w !! sid ∧ (sid < next_sid w)%nat) as Hother.
  { intros id' s'' k sid Hne Hs'' Hk. assert (sid ∉ sids (sessions s)) as Hnot.
    { intros (k' & Hk')%elem_of_sids. destruct Hs as [Hs|(_ & He & _)]; [|by rewrite He in Hk'].
      by destruct Hne; eapply (ok_inj w Hok id' id). }
    destruct (ok_refs w Hok _ _ _ _ Hs'' Hk) as (t & Ht & _).
    assert (sid < next_sid w)%nat by (apply (ok_next w Hok); eauto). split_and!; auto. }
  assert (∀ sid, sid ∈ sids (sessions s') → ∃ t, h' !! sid = Some t ∧ lived t) as Href'.
  { intros sid Hsid. destruct (decide (sid ∈ sids (sessions s))) as [Hin|Hin]; [|by apply Hnew].
    destruct (Href _ Hin) as (t & Ht & Hl). destruct (Hev _ _ Hin Hsid Ht) as (t' & Ht' & He).
    exists t'. split; [done|by eapply lived_evolves]. }
  split; [split; cbn|].
  - intros id' s'' k sid Hs'' Hk. destruct (decide (id = id')) as [<-|Hne].
    + rewrite lookup_insert_eq in Hs''. simplify_eq. apply Href', elem_of_sids. eauto.
    + rewrite lookup_insert_ne in Hs'' by done. destruct (Hother id' s'' k sid) as (_ & -> & _); [done..|].
      by eapply ok_refs.
  - assert (∀ id' s'' k k' sid, id ≠ id' → services w !! id' = Some s'' → sessions s' !! k = Some sid →
      sessions s'' !! k' = Some sid → False) as Hsep.
    { intros id' s'' k k' sid Hne Hs'' Hk Hk'. destruct (Hother id' s'' k' sid) as (Hnot & _ & Hlt); [done..|].
      destruct (Hnew sid) as [Hge _]; [apply elem_of_sids; eauto|done|lia]. }
    intros id1 id2 s1 s2 k k' sid H1 H2 Hk Hk'.
    destruct (decide (id = id1)) as [<-|Hn1], (decide (id = id2)) as [<-|Hn2];
      rewrite ?lookup_insert_eq, ?lookup_insert_ne in * by done; simplify_eq.
    + split; [done|by eapply Hinj].
    + by destruct (Hsep id2 s2 k k' sid).
    + by destruct (Hsep id1 s1 k' k sid).
    + by eapply (ok_inj w Hok).
  - exact Hdom.
  - destruct Hs as [Hs|(Hs & _ & Hlt)].
    + rewrite map_size_insert_Some by (rewrite Hs; by eexists). apply (ok_services w Hok).
    + rewrite map_size_insert_None by done. lia.
  - intros id' s'' k sid t Hs'' Hk Ht. destruct (decide (id = id')) as [<-|Hne].
    + destruct Hs as [Hs|(Hs & _ & _)]; [|by rewrite Hs in Hs'']. rewrite Hs in Hs''. injection Hs'' as <-.
      destruct (Hkeep _ _ _ Hk Ht) as [(k' & Hk' & Hren)|]; [|by right]. left.
      destruct (Hev sid t) as (t' & Ht' & He); [apply elem_of_sids; eauto..|done|].
      exists s', k', t'. cbn. rewrite lookup_insert_eq. split_and!; [done..|]. intros Hna. by destruct Hna.
    + left. destruct (Hother id' s'' k sid) as (_ & Hh & _); [done..|]. exists s'', k, t. cbn.
      rewrite lookup_insert_ne, Hh by done. split_and!; auto.
Qed.

(** A service is removed. *)
Lemma remove_ok w e id : world_ok w →
  (∀ s k sid t, services w !! id = Some s → sessions s !! k = Some sid → ended sy e id s k sid t) →
  world_ok (remove_service id w) ∧ life w e (remove_service id w).
Proof.
  intros Hok Hend. unfold remove_service. destruct (services w !! id) as [s0|] eqn:Hs0.
  2: { split; [done|]. intros id' s k sid t Hs Hk Ht. left. by apply stays_same. }
  assert (∀ id' s k sid, id' ≠ id → services w !! id' = Some s → sessions s !! k = Some sid →
    on_sessions stop (sids (sessions s0)) (heap w) !! sid = heap w !! sid) as Hother.
  { intros id' s k sid Hne Hs Hk. rewrite lookup_on_sessions. destruct (heap w !! sid); [|done]. cbn.
    rewrite decide_False; [done|]. intros (k' & Hk')%elem_of_sids. by destruct Hne; eapply (ok_inj w Hok id' id). }
  split; [split; cbn|].
  - intros id' s k sid [Hne Hs]%lookup_delete_Some Hk. rewrite (Hother id' s k sid) by done. by eapply (ok_refs w Hok).
  - intros id1 id2 s1 s2 k k' sid [_ H1]%lookup_delete_Some [_ H2]%lookup_delete_Some. by eapply (ok_inj w Hok).
  - intros sid Hsid. apply (ok_next w Hok). rewrite lookup_on_sessions in Hsid. by apply fmap_is_Some in Hsid.
  - rewrite map_size_delete_Some by (by eexists). pose proof (ok_services w Hok). lia.
  - intros id' s k sid t Hs Hk Ht. destruct (decide (id' = id)) as [->|Hne].
    + right. rewrite Hs0 in Hs. injection Hs as <-. by apply Hend.
    + left. exists s, k, t. cbn. rewrite lookup_delete_ne, (Hother id' s k sid) by done. split_and!; auto.
Qed.

(** ** What the handlers do to a session is something that happens to sessions *)
Lemma evolves_reopen t : evolves t (reopen t).1.
Proof. apply (evolves_event t (Reopen 0)). Qed.
Lemma evolves_input now data t : evolves t (input now data t).
Proof. apply (evolves_event t (Input now data)). Qed.
Lemma evolves_resize ok now r c t : evolves t (resize ok now r c t).1.
Proof. apply (evolves_event t (Resize ok now r c)). Qed.
Lemma evolves_detach t : evolves t (detach t).
Proof. apply (evolves_event t Detach). Qed.
Lemma evolves_reap t : evolves t (t <| child := false |>).
Proof. apply (evolves_event t Reap). Qed.
Lemma evolves_poll ex ok now terminal_id t : evolves t (poll compress ex ok now terminal_id t).1.1.
Proof.
  assert ((poll compress ex ok now terminal_id t).1.1 = (on_event compress 0 t (Poll 0 ex ok now)).1) as ->; [|apply evolves_event].
  cbn [on_event]. unfold poll. destruct (state t) eqn:Hst; cbn -[do_sigwinch_resize appends];
    rewrite ?Hst; [done|]. destruct (sigwinch_begin _) as [ph [act|]]; cbn -[do_sigwinch_resize appends]; [|done].
  by destruct (do_sigwinch_resize _ _ _).
Qed.
#[local] Hint Resolve evolves_refl evolves_reopen evolves_input evolves_resize evolves_detach : core.

(** An operation on the sessions of a service that keeps its table. *)
Lemma update_same_table w e id s s' f : world_ok w → (∀ sid, about sy e id sid) → services w !! id = Some s →
  sessions s' = sessions s → is_specified_user s' = is_specified_user s →
  (∀ t, evolves t (f t)) → ∀ X next', X ⊆ sids (sessions s) → (next_sid w ≤ next')%nat →
  let w' := mk_world (<[id := s']> (services w)) (on_sessions f X (heap w)) next' in world_ok w' ∧ life w e w'.
Proof.
  intros Hok Habout Hs Htable Huser Hf X next' HX Hnext. apply update_service with (s := s); auto; rewrite ?Htable.
  - intros i j sid Hi Hj. by eapply (ok_inj w Hok id id).
  - by intros sid ? [].
  - intros sid _ Hsid. rewrite lookup_on_sessions. destruct (heap w !! sid); [|done]. cbn. by rewrite decide_False by set_solver.
  - intros sid t _ _ Ht. rewrite lookup_on_sessions, Ht. cbn. case_decide; eauto.
  - intros k sid t Hk _. left. exists k. auto.
  - intros sid. rewrite lookup_on_sessions, fmap_is_Some. intros Hsid%(ok_next w Hok). lia.
Qed.
Lemma alter_on_sessions f sid (h : store) : alter f sid h = on_sessions f {[sid]} h.
Proof.
  apply map_eq. intros x. rewrite lookup_on_sessions. destruct (decide (x = sid)) as [->|Hne].
  - rewrite lookup_alter_eq. destruct (h !! sid); [|done]. cbn. by rewrite decide_True by set_solver.
  - rewrite lookup_alter_ne by done. destruct (h !! x); [|done]. cbn. by rewrite decide_False by set_solver.
Qed.

Lemma attach_life w now id persistent user : world_ok w →
  let w' := on_registry w (Attach now id persistent user) in world_ok w' ∧ life w (Attach now id persistent user) w'.
Proof.
  intros Hok. cbn. unfold get_or_create_service. destruct (negb _ && _) eqn:Hfull.
  { split; [done|]. intros ? ? ? ? ? ? ? ?. left. by apply stays_same. }
  cbn. set (s := default _ _).
  assert (services w !! id = Some s ∨ services w !! id = None ∧ sessions s = ∅ ∧ (base.size (services w) < MAX_SERVICES)%nat) as Hs.
  { subst s. destruct (services w !! id) as [s|]; [by left|right]. split_and!; [done|done|].
    rewrite bool_decide_eq_false_2 in Hfull by by intros []. cbn [negb andb] in Hfull. apply Nat.leb_gt in Hfull. done. }
  clearbody s. apply update_service with (s := s); auto; cbn; [done|..].
  - destruct Hs as [Hs|(_ & -> & _)]; [|by intros i j sid Hi]. intros i j sid Hi Hj. by eapply (ok_inj w Hok id id).
  - by intros sid ? [].
  - intros sid _ Hsid. rewrite lookup_on_sessions. destruct (heap w !! sid); [|done]. cbn. by rewrite decide_False.
  - intros sid t Hsid _ Ht. rewrite lookup_on_sessions, Ht. cbn. rewrite decide_True by done. eauto.
  - intros k sid t Hk _. left. exists k. auto.
  - intros sid. rewrite lookup_on_sessions, fmap_is_Some. intros Hsid%(ok_next w Hok). lia.
Qed.

Lemma no_life w e : life w e w.
Proof. intros ? ? ? ? ? ? ? ?. left. by apply stays_same. Qed.
Lemma ok_injective w id s : world_ok w → services w !! id = Some s → injective (sessions s).
Proof. intros Hok Hs i j sid Hi Hj. by eapply (ok_inj w Hok id id). Qed.

(** The store stays as it is. *)
Lemma on_none f (h : store) : on_sessions f ∅ h = h.
Proof. apply map_eq. intros x. rewrite lookup_on_sessions. by destruct (h !! x). Qed.
Lemma touch_life w e id s s' next' : world_ok w → (∀ sid, about sy e id sid) → services w !! id = Some s →
  sessions s' = sessions s → is_specified_user s' = is_specified_user s → (next_sid w ≤ next')%nat →
  let w' := mk_world (<[id := s']> (services w)) (heap w) next' in world_ok w' ∧ life w e w'.
Proof.
  intros Hok Habout Hs Ht Hu Hn w'. subst w'. rewrite <- (on_none detach (heap w)). apply update_same_table with (s := s); auto. set_solver.
Qed.
Lemma persist_life w id persistent : world_ok w →
  let w' := on_registry w (Persist id persistent) in world_ok w' ∧ life w (Persist id persistent) w'.
Proof.
  intros Hok. cbn. unfold set_persistent. destruct (services w !! id) as [s|] eqn:Hs; [|split; [done|apply no_life]].
  by apply touch_life with (s := s).
Qed.

(** Handlers that change one session at most, and the time of the service. *)
Lemma with_session_life w e id s s' f terminal_id : world_ok w → (∀ sid, about sy e id sid) → services w !! id = Some s →
  sessions s' = sessions s → is_specified_user s' = is_specified_user s → (∀ t, evolves t (f t)) →
  let w' := mk_world (<[id := s']> (services w)) (with_session f terminal_id s' (heap w)) (S (next_sid w)) in
  world_ok w' ∧ life w e w'.
Proof.
  intros Hok Habout Hs Htable Huser Hf. unfold with_session. rewrite Htable.
  destruct (sessions s !! terminal_id) as [sid|] eqn:Hk.
  - rewrite alter_on_sessions. apply update_same_table with (s := s); auto.
    intros x ->%elem_of_singleton. apply elem_of_sids. eauto.
  - apply touch_life with (s := s); auto.
Qed.

Lemma open_life w now terminal_id r c ans p s : world_ok w → services w !! proxy_id p = Some s →
  let '(s', h', res) := handle_open now terminal_id r c (started ans) (next_sid w) (s <| service_activity := now |>) (heap w) in
  let w' := mk_world (<[proxy_id p := s']> (services w)) h' (S (next_sid w)) in
  world_ok w' ∧ life w (Act now (OpenTerminal terminal_id r c) ans p) w'.
Proof.
  intros Hok Hs. set (s0 := s <| service_activity := now |>).
  pose proof (ok_injective w _ _ Hok Hs) as Hinj.
  assert (∀ k sid, sessions s !! k = Some sid → ∃ t, heap w !! sid = Some t ∧ lived t) as Href by (intros; by eapply (ok_refs w Hok)).
  assert (heap w !! next_sid w = None) as Hfresh.
  { apply eq_None_not_Some. intros Hn%(ok_next w Hok). lia. }
  pose proof (handle_open_spec now terminal_id r c (started ans) (next_sid w) s0 (heap w) Hinj
    ltac:(intros k sid Hk; destruct (Href _ _ Hk) as (t & -> & _); by eexists) Hfresh) as Hspec.
  pose proof (open_user now terminal_id r c (started ans) (next_sid w) s0 (heap w)) as Huser.
  destruct (handle_open _ _ _ _ _ _ s0 (heap w)) as [[s' h'] res]. cbn [fst] in Huser.
  destruct Hspec as [Hinj' Hspec]. cbn [sessions s0] in Hspec. change (sessions s0) with (sessions s) in Hspec.
  assert (∀ sid, is_Some (heap w !! sid) → (sid < S (next_sid w))%nat) as Hlt by (intros sid Hsid%(ok_next w Hok); lia).
  destruct (bool_decide (is_Some (sessions s !! terminal_id)) || _) eqn:Hex in Hspec.
  - destruct Hspec as (sid & t & msg & others & Hk & Ht & [Hsids Hren] & -> & _ & _).
    apply update_service with (s := s); auto; [done|..].
    + intros x Hx Hnx. by apply Hsids in Hx.
    + intros x _ Hx. rewrite lookup_insert_ne; [done|]. intros <-. apply Hx, Hsids, elem_of_sids. eauto.
    + intros x tx _ _ Htx. destruct (decide (x = sid)) as [->|Hne]; [rewrite lookup_insert_eq; eexists; split; [done|]|].
      * rewrite Ht in Htx. injection Htx as <-. apply evolves_reopen.
      * rewrite lookup_insert_ne by done. eauto.
    + intros k x tx Hkx _. left. destruct (decide (k = terminal_id)) as [->|Hne].
      * assert (x ∈ sids (sessions s')) as (k' & Hk')%elem_of_sids by (apply Hsids, elem_of_sids; eauto).
        destruct (decide (k' = terminal_id)) as [->|Hne]; [exists terminal_id; auto|].
        destruct (Hren k' Hne) as [He|(Hnone & _)]; [|by rewrite Hnone in Hkx].
        rewrite Hk' in He. symmetry in He. by destruct Hne; eapply Hinj.
      * destruct (Hren k Hne) as [He|(Hnone & _ & He & _)]; [exists k; rewrite He; auto|].
        exists terminal_id. rewrite <- He. split; [done|]. right. by exists now, r, c, ans, p.
    + intros x Hx. destruct (decide (x = sid)) as [->|Hne]; [by apply Hlt; rewrite Ht|].
      rewrite lookup_insert_ne in Hx by done. auto.
  - destruct (started ans) as [pid_|err].
    + destruct Hspec as (msg & others & Htab & -> & _ & _).
      apply orb_false_iff in Hex as [Hex _]. apply bool_decide_eq_false, eq_None_not_Some in Hex.
      apply update_service with (s := s); auto; rewrite ?Htab; [done|..].
      * intros x (k & Hk)%elem_of_sids Hnx. destruct (decide (k = terminal_id)) as [->|Hne].
        -- rewrite lookup_insert_eq in Hk. injection Hk as <-. split; [lia|]. rewrite lookup_insert_eq. eexists. split; [done|].
           by exists now, terminal_id, r, c, pid_, [].
        -- rewrite lookup_insert_ne in Hk by done. by destruct Hnx; apply elem_of_sids; exists k.
      * intros x Hx _. rewrite lookup_insert_ne by lia. done.
      * intros x tx _ _ Htx. rewrite lookup_insert_ne by (intros <-; congruence). eauto.
      * intros k x tx Hk _. left. exists k. rewrite lookup_insert_ne by (intros <-; congruence). auto.
      * intros x Hx. destruct (decide (x = next_sid w)) as [->|Hne]; [lia|]. rewrite lookup_insert_ne in Hx by done. auto.
    + destruct Hspec as (-> & -> & _).
      apply update_service with (s := s); auto; [done| | | ].
      * by intros x ? [].
      * eauto.
      * intros k x tx Hk _. left. exists k. auto.
Qed.

Lemma act_life w now action ans p : world_ok w →
  let w' := on_registry w (Act now action ans p) in world_ok w' ∧ life w (Act now action ans p) w'.
Proof.
  intros Hok. cbn [on_registry]. unfold proxy_action. destruct (services w !! proxy_id p) as [s|] eqn:Hs; [|split; [done|apply no_life]].
  destruct action as [id r c|id data|id r c|id|]; cbn [handle_action].
  - pose proof (open_life w now id r c ans p s Hok Hs) as H.
    by destruct (handle_open _ _ _ _ _ _ _ _) as [[s' h'] res].
  - by apply with_session_life with (s := s).
  - by apply with_session_life with (s := s); auto.
  - unfold handle_close. cbn [sessions]. change (sessions (s <| service_activity := now |>)) with (sessions s).
    destruct (sessions s !! id) as [sid|] eqn:Hk; cbn [fst].
    + rewrite alter_on_sessions. apply update_service with (s := s); auto; cbn; [done|..].
      * intros i j x [_ Hi]%lookup_delete_Some [_ Hj]%lookup_delete_Some. by eapply (ok_injective w).
      * intros x (k & [_ Hx]%lookup_delete_Some)%elem_of_sids Hnx. by destruct Hnx; apply elem_of_sids; exists k.
      * intros x _ Hx. rewrite lookup_on_sessions. destruct (heap w !! x); [|done]. cbn. rewrite decide_False; [done|].
        intros ->%elem_of_singleton. apply Hx, elem_of_sids. eauto.
      * intros x t _ (k & [Hne Hx]%lookup_delete_Some)%elem_of_sids Ht. rewrite lookup_on_sessions, Ht. cbn.
        rewrite decide_False; [eauto|]. intros ->%elem_of_singleton. by destruct Hne; eapply (ok_injective w).
      * intros k x t Hx _. destruct (decide (k = id)) as [->|Hne]; [by right|]. left. exists k. rewrite lookup_delete_ne by done. auto.
      * intros x. rewrite lookup_on_sessions, fmap_is_Some. intros Hx%(ok_next w Hok). lia.
    + apply touch_life with (s := s); auto; done.
  - apply touch_life with (s := s); auto; done.
Qed.

Lemma cleanup_fold w now ids w1 : world_ok w1 →
  (∀ id s, services w1 !! id = Some s → services w !! id = Some s
     ∧ ∀ k sid, sessions s !! k = Some sid → heap w1 !! sid = heap w !! sid) →
  (∀ id s, services w !! id = Some s → services w1 !! id = None → idle now s = true) →
  (∀ id, id ∈ ids → ∃ s, services w !! id = Some s ∧ idle now s = true) →
  let w' := foldl (λ w id, remove_service id w) w1 ids in world_ok w' ∧ life w (Cleanup now) w'.
Proof.
  revert w1. induction ids as [|id ids IH]; intros w1 Hok Hsame Hgone Hids; cbn [foldl].
  - split; [done|]. intros id s k sid t Hs Hk Ht. destruct (services w1 !! id) as [s1|] eqn:Hs1.
    + left. destruct (Hsame _ _ Hs1) as [Hs' Hh]. rewrite Hs in Hs'. injection Hs' as <-.
      exists s, k, t. rewrite (Hh _ _ Hk). split_and!; auto.
    + right. cbn. by eapply Hgone.
  - destruct (Hids id ltac:(left)) as (s0 & Hs0 & Hidle).
    destruct (remove_ok w1 (Cleanup now) id Hok) as [Hok' _].
    { intros s k sid t Hs _. cbn. destruct (Hsame _ _ Hs) as [Hs' _]. rewrite Hs0 in Hs'. by injection Hs' as <-. }
    apply IH; [done|..|intros; by apply Hids; right].
    + intros id' s Hs. unfold remove_service in Hs |- *. destruct (services w1 !! id) as [s1|] eqn:Hs1; [|by apply Hsame].
      cbn in Hs |- *. apply lookup_delete_Some in Hs as [Hne Hs]. destruct (Hsame _ _ Hs) as [Hs' Hh]. split; [done|].
      intros k sid Hk. rewrite lookup_on_sessions, <- (Hh _ _ Hk). destruct (heap w1 !! sid); [|done]. cbn.
      rewrite decide_False; [done|]. intros (k' & Hk')%elem_of_sids. by destruct Hne; eapply (ok_inj w1 Hok id id').
    + intros id' s Hs Hnone. destruct (decide (id' = id)) as [->|Hne]; [rewrite Hs0 in Hs; by injection Hs as <-|].
      apply (Hgone id' s Hs). unfold remove_service in Hnone. destruct (services w1 !! id); [|done]. cbn in Hnone.
      by rewrite lookup_delete_ne in Hnone by done.
Qed.
Lemma cleanup_life w now : world_ok w →
  let w' := on_registry w (Cleanup now) in world_ok w' ∧ life w (Cleanup now) w'.
Proof.
  intros Hok. cbn. unfold cleanup_inactive_services. apply cleanup_fold; auto.
  - intros id s Hs Hn. congruence.
  - intros id ([id' s] & -> & [Hi Hm%elem_of_map_to_list]%list_elem_of_filter)%list_elem_of_fmap. by exists s.
Qed.

(** One session goes on. *)
Lemma one_session_life w e sid f : world_ok w → (∀ t, evolves t (f t)) → (∀ id, about sy e id sid) →
  let w' := w <| heap ::= alter f sid |> in world_ok w' ∧ life w e w'.
Proof.
  intros Hok Hf Hab. assert (∀ y t, heap w !! y = Some t →
    ∃ t', alter f sid (heap w) !! y = Some t' ∧ evolves t t' ∧ (y ≠ sid → t' = t)) as Hev.
  { intros y t Ht. destruct (decide (y = sid)) as [->|Hne].
    - rewrite lookup_alter_eq, Ht. cbn. eexists. split_and!; [done|apply Hf|done].
    - rewrite lookup_alter_ne, Ht by done. exists t. auto. }
  split; [split; cbn|].
  - intros id s k y Hs Hk. destruct (ok_refs w Hok _ _ _ _ Hs Hk) as (t & Ht & Hl). destruct (Hev _ _ Ht) as (t' & Ht' & He & _).
    exists t'. split; [done|by eapply lived_evolves].
  - apply (ok_inj w Hok).
  - intros y Hy. apply (ok_next w Hok). destruct (decide (y = sid)) as [->|Hne];
      [rewrite lookup_alter_eq in Hy; by apply fmap_is_Some in Hy|by rewrite lookup_alter_ne in Hy].
  - apply (ok_services w Hok).
  - intros id s k y t Hs Hk Ht. left. destruct (Hev _ _ Ht) as (t' & Ht' & He & Hsame). exists s, k, t'. cbn.
    split_and!; auto. intros Hna. split; [done|]. apply Hsame. intros ->. by apply Hna.
Qed.
Lemma pty_life w sid e : world_ok w →
  let w' := on_registry w (Pty sid e) in world_ok w' ∧ life w (Pty sid e) w'.
Proof. intros Hok. apply one_session_life; [done|intros; apply evolves_event|done]. Qed.

Lemma registry_life w e : world_ok w → (∀ sid e', e = Pty sid e' → reads_only e' = true) →
  match e with PassBegin _ _ _ _ | PassRead _ _ _ | PassLook _ | PassClean _ _ => False | _ => True end →
  world_ok (on_registry w e) ∧ life w e (on_registry w e).
Proof.
  intros Hok _ He. destruct e as [now id persistent user|id persistent|now action ans p|id|p|now|sid e| | | |]; try done.
  - by apply attach_life.
  - by apply persist_life.
  - by apply act_life.
  - cbn. unfold run_ends. destruct (services w !! id) as [s|] eqn:Hs; [|split; [done|apply no_life]].
    destruct (is_persistent s) eqn:Hper; [split; [done|apply no_life]|]. apply remove_ok; [done|].
    intros s' k sid t Hs' _. cbn. split; congruence.
  - cbn. unfold on_disconnect. destruct (proxy_persistent p) eqn:Hper; [split; [done|apply no_life]|]. by apply remove_ok.
  - by apply cleanup_life.
  - by apply pty_life.
Qed.

(** ** What a pass does *)
(** A number is removed. *)
Lemma removed_life w e id s k : world_ok w → (∀ sid, about sy e id sid) → services w !! id = Some s →
  (∀ sid t, ended sy e id s k sid t) →
  let w' := w <| services ::= <[id := s <| sessions ::= delete k |>]> |>
              <| heap ::= match sessions s !! k with Some sid => alter stop sid | None => λ h, h end |> in
  world_ok w' ∧ life w e w'.
Proof.
  intros Hok Hab Hs Hend. cbv zeta. set (X := match sessions s !! k with Some sid => {[sid]} | None => ∅ end : gset nat).
  assert (match sessions s !! k with Some sid => alter stop sid | None => λ h, h end (heap w) = on_sessions stop X (heap w)) as Hheap.
  { subst X. destruct (sessions s !! k); [apply alter_on_sessions|by rewrite on_none]. }
  assert (∀ y, y ∈ X ↔ sessions s !! k = Some y) as HX by (intros y; subst X; destruct (sessions s !! k); set_solver).
  change (w <| services ::= <[id := s <| sessions ::= delete k |>]> |> <| heap ::= match sessions s !! k with Some sid => alter stop sid | None => λ h, h end |>)
    with (mk_world (<[id := s <| sessions ::= delete k |>]> (services w)) (match sessions s !! k with Some sid => alter stop sid | None => λ h, h end (heap w)) (next_sid w)).
  rewrite Hheap. apply update_service with (s := s); auto; cbn.
  - intros i j y [_ Hi]%lookup_delete_Some [_ Hj]%lookup_delete_Some. by eapply (ok_injective w).
  - intros y (k' & [_ Hy]%lookup_delete_Some)%elem_of_sids Hny. by destruct Hny; apply elem_of_sids; exists k'.
  - intros y _ Hy. rewrite lookup_on_sessions. destruct (heap w !! y); [|done]. cbn. rewrite decide_False; [done|].
    intros Hk%HX. apply Hy, elem_of_sids. eauto.
  - intros y t _ (k' & [Hne Hy]%lookup_delete_Some)%elem_of_sids Ht. rewrite lookup_on_sessions, Ht. cbn.
    rewrite decide_False; [eauto|]. intros Hk%HX. by destruct Hne; eapply (ok_injective w).
  - intros k' y t Hy _. destruct (decide (k' = k)) as [->|Hne]; [by right|]. left. exists k'. rewrite lookup_delete_ne by done. auto.
  - intros y. rewrite lookup_on_sessions, fmap_is_Some. intros Hy%(ok_next w Hok). lia.
Qed.
Lemma life_trans w e w1 w2 : (∀ now action ans p, e ≠ Act now action ans p) →
  (∀ id s s' k sid t t', ended sy e id s' k sid t' → ended sy e id s k sid t) →
  life w e w1 → life w1 e w2 → life w e w2.
Proof.
  intros Hact Hend H1 H2 id s k sid t Hs Hk Ht. destruct (H1 id s k sid t Hs Hk Ht) as [(s1 & k1 & t1 & Hs1 & Hk1 & Ht1 & He1 & Hu1 & Hr1 & Hn1)|?]; [|by right].
  destruct Hr1 as [->|(? & ? & ? & ? & ? & -> & _)]; [|by destruct (Hact _ _ _ _ eq_refl)].
  destruct (H2 id s1 k sid t1 Hs1 Hk1 Ht1) as [(s2 & k2 & t2 & Hs2 & Hk2 & Ht2 & He2 & Hu2 & Hr2 & Hn2)|?]; [left|right; by eapply Hend].
  destruct Hr2 as [->|(? & ? & ? & ? & ? & -> & _)]; [|by destruct (Hact _ _ _ _ eq_refl)].
  exists s2, k, t2. split_and!; [done..|by eapply evolves_trans|congruence|by left|].
  intros Hab. destruct (Hn1 Hab) as [-> ->]. by apply Hn2.
Qed.
End life.

(** ** The system *)
Section system.
Context (compress : bytes → bytes).

(** Sessions stay in the store, and what has been told to be closed stays so. *)
Definition grows (h h' : store) : Prop := ∀ sid t, h !! sid = Some t →
  ∃ t', h' !! sid = Some t' ∧ (closed_message_sent t = true → closed_message_sent t' = true).
Definition keeps (f : TerminalSession → TerminalSession) : Prop :=
  ∀ t, closed_message_sent t = true → closed_message_sent (f t) = true.
Lemma keeps_reads t ev : reads_only ev = true → closed_message_sent (on_event compress 0 t ev).1 = closed_message_sent t.
Proof.
  destruct t as [a b c d e f g ob hh i k l m st]. destruct ev as [data| | | | | | | |]; try done; intros _; cbn -[push_chunk finish Nat.ltb].
  - unfold reader_read. cbn -[push_chunk Nat.ltb]. repeat (case_match; simplify_eq; cbn -[push_chunk Nat.ltb] in *; try done).
    all: unfold try_send_output in *; cbn -[Nat.ltb] in *; repeat (case_match; simplify_eq; cbn in *; try done).
  - unfold reader_eof. cbn -[finish Nat.ltb]. repeat (case_match; simplify_eq; cbn -[finish Nat.ltb] in *; try done).
    all: unfold try_send_output in *; cbn -[Nat.ltb] in *; repeat (case_match; simplify_eq; cbn in *; try done).
  - unfold reader_error. cbn. by repeat case_match.
Qed.
Lemma keeps_poll ex ok now k : keeps (λ t, (poll compress ex ok now k t).1.1).
Proof.
  intros t Ht. pose proof (poll_closed compress now ex ok k t) as Hc. destruct (poll _ _ _ _ _ t) as [[t' rs] c].
  destruct Hc as [_ Hc]. cbn. rewrite Hc, Ht. by destruct c.
Qed.
Lemma keeps_resize ok now r c : keeps (λ t, (resize ok now r c t).1).
Proof. intros [? pty] Ht. unfold resize. cbn in *. by destruct pty, ok. Qed.
Lemma grows_refl h : grows h h.
Proof. intros sid t ->. eauto. Qed.
Lemma grows_trans h1 h2 h3 : grows h1 h2 → grows h2 h3 → grows h1 h3.
Proof. intros H1 H2 sid t Ht. destruct (H1 _ _ Ht) as (t1 & Ht1 & ?). destruct (H2 _ _ Ht1) as (t2 & ? & ?). eauto. Qed.
Lemma grows_on f X h : keeps f → grows h (on_sessions f X h).
Proof. intros Hf sid t Ht. rewrite lookup_on_sessions, Ht. cbn. case_decide; eauto. Qed.
Lemma grows_alter f sid h : keeps f → grows h (alter f sid h).
Proof. intros Hf. rewrite alter_on_sessions. by apply grows_on. Qed.
Lemma grows_insert sid t' h : (∀ t, h !! sid = Some t → closed_message_sent t = true → closed_message_sent t' = true) → grows h (<[sid := t']> h).
Proof.
  intros Hf y t Ht. destruct (decide (y = sid)) as [->|]; [rewrite lookup_insert_eq; eauto|rewrite lookup_insert_ne by done; eauto].
Qed.
#[local] Hint Resolve grows_refl grows_on grows_alter keeps_poll keeps_resize : core.
Lemma keeps_same f : (∀ t, closed_message_sent (f t) = closed_message_sent t) → keeps f.
Proof. intros Hf t. by rewrite Hf. Qed.

Lemma with_grows f id s h : keeps f → grows h (with_session f id s h).
Proof. intros Hf. unfold with_session. destruct (sessions s !! id); auto. Qed.

Lemma action_grows now action ans next s h : h !! next = None → grows h (handle_action now action ans next s h).1.2.
Proof.
  intros Hn. destruct action as [id r c|id data|id r c|id|]; cbn [handle_action].
  - unfold handle_open. set (s0 := remap id _). destruct (sessions s0 !! id) as [sid|].
    + destruct (h !! sid) as [t|] eqn:Ht; [|done]. destruct (reopen t) as [t' pend] eqn:Hr. cbn. apply grows_insert.
      intros t0 Ht0 Hc. rewrite Ht in Ht0. injection Ht0 as <-. change t' with (t', pend).1. rewrite <- Hr. by destruct t.
    + destruct (started ans); cbn; [|done]. apply grows_insert. congruence.
  - apply with_grows, keeps_same. by intros [].
  - apply with_grows, keeps_resize.
  - unfold handle_close. destruct (sessions _ !! id); cbn; [|apply grows_refl]. apply grows_alter, keeps_same. by intros [].
  - done.
Qed.
Lemma remove_grows id w : grows (heap w) (heap (remove_service id w)).
Proof. unfold remove_service. destruct (services w !! id); [|done]. cbn. apply grows_on, keeps_same. by intros []. Qed.
Lemma registry_grows w e : world_ok compress w → (∀ sid e', e = Pty sid e' → reads_only e' = true) → grows (heap w) (heap (on_registry compress w e)).
Proof.
  intros Hok Hp. destruct e as [now id persistent user|id persistent|now action ans p|id|p|now|sid e| | | |]; cbn; try done.
  - unfold get_or_create_service. destruct (_ && _); [done|]. cbn. apply grows_on, keeps_same. by intros [].
  - unfold set_persistent. by destruct (services w !! id).
  - unfold proxy_action. destruct (services w !! proxy_id p); [|done].
    pose proof (action_grows now action ans (next_sid w) p0 (heap w)) as Hg. destruct (handle_action _ _ _ _ p0 (heap w)) as [[s' h'] res]. cbn in *.
    apply Hg, eq_None_not_Some. intros Hn%(ok_next compress w Hok). lia.
  - unfold run_ends. destruct (services w !! id); [|done]. destruct (is_persistent p); [done|apply remove_grows].
  - unfold on_disconnect. destruct (proxy_persistent p); [done|apply remove_grows].
  - unfold cleanup_inactive_services. generalize ((filter (λ ids, idle now ids.2 = true) (map_to_list (services w))).*1). clear Hok Hp. intros l. revert w.
    induction l as [|id l IH]; intros w; [done|]. cbn. eapply grows_trans; [apply (remove_grows id)|apply IH].
  - apply grows_alter, keeps_same. intros t. by apply keeps_reads, (Hp sid).
Qed.

(** What a pass has noted is so. *)
Record pass_ok (h : store) (p : pass) : Prop := {
  pass_todo_ok : pass_todo p ⊆ pass_order p;
  pass_closed_ok : ∀ k, k ∈ pass_closed p → ∃ sid t, (k, sid) ∈ pass_order p ∧ h !! sid = Some t ∧ closed_message_sent t = true
}.
Definition system_ok (x : system) : Prop :=
  world_ok compress (registry x) ∧ ∀ n p, passes x !! n = Some p → pass_ok (heap (registry x)) p.
Lemma pass_grows h h' p : grows h h' → pass_ok h p → pass_ok h' p.
Proof.
  intros Hg [Ht Hc]. split; [done|]. intros k Hk. destruct (Hc k Hk) as (sid & t & Ho & Hh & Hs).
  destruct (Hg _ _ Hh) as (t' & ? & ?). eauto 6.
Qed.
(** The pass of one loop changes. *)
Lemma passes_ok x h n p : (∀ m q, passes x !! m = Some q → pass_ok (heap (registry x)) q) → grows (heap (registry x)) h →
  pass_ok h p → ∀ m q, <[n := p]> (passes x) !! m = Some q → pass_ok h q.
Proof. intros Hall Hg Hp m q [[<- <-]|[_ Hq]]%lookup_insert_Some; [done|]. eapply pass_grows; eauto. Qed.
Definition good (x : system) (e : happening) (x' : system) : Prop :=
  system_ok x' ∧ life compress x (registry x) e (registry x').
Lemma good_same x e p' : system_ok x → (∀ n p, p' !! n = Some p → pass_ok (heap (registry x)) p) → good x e (x <| passes := p' |>).
Proof. intros [Hok _] Hp. split; [by split|]. apply no_life. Qed.

Lemma begin_good x n persistent order id : system_ok x → good x (PassBegin n persistent order id) (happens compress x (PassBegin n persistent order id)).
Proof.
  intros Hx. cbn. unfold begin_pass. destruct (services (registry x) !! id); [|split; [done|apply no_life]].
  apply good_same; [done|]. apply (passes_ok x (heap (registry x))); [apply Hx|done|]. split; cbn; [done|]. by intros k ?%elem_of_nil.
Qed.
Lemma look_good x n : system_ok x → good x (PassLook n) (happens compress x (PassLook n)).
Proof.
  intros Hx. cbn. unfold look_again. assert (good x (PassLook n) x) as Hsame by (split; [done|apply no_life]).
  destruct (passes x !! n) as [p|] eqn:Hp; [|done]. destruct (pass_todo p) eqn:Ht; [|done]. destruct (pass_closed p) eqn:Hc; [done|].
  destruct (pass_snapshot p); [done|]. destruct (live x p).
  - apply good_same; [done|]. apply (passes_ok x (heap (registry x))); [apply Hx|done|]. destruct (proj2 Hx n p Hp). by split.
  - apply good_same; [done|]. intros m q [_ Hq]%lookup_delete_Some. by apply (proj2 Hx m).
Qed.
Lemma read_good x now a n : system_ok x → good x (PassRead now a n) (happens compress x (PassRead now a n)).
Proof.
  intros Hx. cbn. unfold read_next. assert (good x (PassRead now a n) x) as Hsame by (split; [done|apply no_life]).
  destruct (passes x !! n) as [p|] eqn:Hp; [|done]. destruct (pass_todo p) as [|[k sid] todo] eqn:Htodo; [done|].
  pose proof (proj2 Hx n p Hp) as [Ht Hc]. rewrite Htodo in Ht.
  destruct (if busy a then None else heap (registry x) !! sid) as [t|] eqn:Hsid.
  2:{ apply good_same; [done|]. apply (passes_ok x (heap (registry x))); [apply Hx|done|]. split; cbn; [set_solver|done]. }
  destruct (busy a); [done|]. set (f := λ t, (poll compress (exited a) (resize_ok a) now k t).1.1).
  assert (<[sid := f t]> (heap (registry x)) = alter f sid (heap (registry x))) as Halter.
  { apply map_eq. intros y. destruct (decide (y = sid)) as [->|]; [by rewrite lookup_insert_eq, lookup_alter_eq, Hsid|by rewrite lookup_insert_ne, lookup_alter_ne]. }
  pose proof (poll_closed compress now (exited a) (resize_ok a) k t) as Hcl.
  destruct (one_session_life compress x (registry x) (PassRead now a n) sid f (proj1 Hx)) as [Hok Hlife].
  { intros t0. apply evolves_poll. }
  { intros id. exists p, k. by rewrite Htodo. }
  assert (f t = (poll compress (exited a) (resize_ok a) now k t).1.1) as Hft by done.
  destruct (poll _ _ _ _ _ t) as [[t' more] closed]. cbn [fst] in Hft. destruct Hcl as [_ Hcl].
  rewrite Hft in Halter.
  assert (grows (heap (registry x)) (alter f sid (heap (registry x)))) as Hg by apply grows_alter, keeps_poll.
  unfold good, system_ok. cbn. rewrite Halter. split; [split; [exact Hok|]|exact Hlife].
  apply (passes_ok x (alter f sid (heap (registry x)))); [apply Hx|exact Hg|]. split; cbn; [set_solver|].
  intros j Hj. assert (j ∈ pass_closed p ∨ j = k ∧ closed = true) as [Hold|[-> ->]].
  { destruct closed; [|by left]. apply elem_of_app in Hj as [|Hj%list_elem_of_singleton]; auto. }
  - destruct (Hc j Hold) as (sid0 & t0 & Ho & Hh & Hs). destruct (Hg _ _ Hh) as (t1 & Ht1 & Hs1). eauto 6.
  - exists sid, (f t). split_and!; [set_solver|by rewrite lookup_alter_eq, Hsid|]. by rewrite Hft, Hcl.
Qed.
Lemma remove_terminal_good sy e p k x : world_ok compress (registry x) → (∀ sid, about sy e (pass_service p) sid) →
  (∀ s sid t, ended sy e (pass_service p) s k sid t) →
  let x' := remove_terminal p k x in
  world_ok compress (registry x') ∧ life compress sy (registry x) e (registry x')
  ∧ grows (heap (registry x)) (heap (registry x')) ∧ passes x' = passes x.
Proof.
  intros Hok Hab Hend. unfold remove_terminal, live. destruct (services (registry x) !! pass_service p) as [s|] eqn:Hs.
  2:{ split_and!; [done|apply no_life|done|done]. }
  destruct (_ =? _)%nat. 2:{ split_and!; [done|apply no_life|done|done]. }
  destruct (removed_life compress sy (registry x) e (pass_service p) s k Hok Hab Hs (Hend s)) as [Hok' Hlife].
  split_and!; [exact Hok'|exact Hlife| |done]. cbn. destruct (sessions s !! k); [|done]. apply grows_alter, keeps_same. by intros [].
Qed.
(** The child of the session in the clone is taken. *)
Lemma clean_good x exit_code n : system_ok x → good x (PassClean exit_code n) (happens compress x (PassClean exit_code n)).
Proof.
  intros Hx. cbn [happens]. unfold clean_next. assert (good x (PassClean exit_code n) x) as Hsame by (split; [done|apply no_life]).
  destruct (passes x !! n) as [p|] eqn:Hp; [|done]. destruct (pass_snapshot p) as [snapshot|] eqn:Hsn; [|done].
  destruct (pass_closed p) as [|k closed] eqn:Hcl; [done|]. pose proof (proj2 Hx n p Hp) as [Ht Hc]. rewrite Hcl in Hc. cbv zeta.
  set (responded := λ code, p <| pass_closed := closed |> <| pass_responses ::= λ rs, rs ++ [ClosedResponse k code] |>).
  assert (∀ h q, pass_order q = pass_order p → pass_todo q = pass_todo p → pass_closed q = closed →
    grows (heap (registry x)) h → pass_ok h q) as Hpass.
  { intros h q Ho' Ht' Hc' Hg. split; rewrite ?Ho', ?Ht', ?Hc'; [done|]. intros j Hj.
    destruct (Hc j ltac:(set_solver)) as (sid0 & t0 & Ho & Hh & Hs).
    destruct (Hg _ _ Hh) as (t1 & Ht1 & Hs1). eauto 6. }
  destruct (snapshot !! k) as [sid|] eqn:Hsid.
  2:{ apply good_same; [done|]. apply (passes_ok x (heap (registry x))); [apply Hx|done|]. by apply Hpass. }
  set (reap := λ t : TerminalSession, t <| child := false |>).
  destruct (one_session_life compress x (registry x) (PassClean exit_code n) sid reap (proj1 Hx)) as [Hok Hlife].
  { apply evolves_reap. }
  { intros id. exists p. eauto 6. }
  assert (grows (heap (registry x)) (alter reap sid (heap (registry x)))) as Hg by (apply grows_alter, keeps_same; by intros []).
  set (code := if match heap (registry x) !! sid with Some t => child t | None => false end then default 0 exit_code else 0).
  destruct (_ || _).
  - set (x1 := mk_system ((registry x) <| heap ::= alter reap sid |>) (created x)
      (<[n := (responded code) <| pass_snapshot := Some (delete k snapshot) |>]> (passes x))).
    change (good x (PassClean exit_code n) (remove_terminal p k x1)).
    destruct (remove_terminal_good x (PassClean exit_code n) p k x1 Hok) as (Hok' & Hlife' & Hg' & Hps).
    { intros sid'. exists p. auto. }
    { intros s sid' t. destruct (Hc k ltac:(set_solver)) as (sid0 & t0 & Ho & Hh & Hs0). exists p, sid0, t0.
      rewrite Hcl. split_and!; done. }
    split; [split; [done|]|].
    + rewrite Hps. pose proof (grows_trans _ _ _ Hg Hg') as Hgg. apply (passes_ok x _ n _ (proj2 Hx) Hgg). by apply Hpass.
    + eapply life_trans; [done|by intros|exact Hlife|exact Hlife'].
  - split; [split; [exact Hok|]|exact Hlife]. apply (passes_ok x _ n _ (proj2 Hx) Hg). by apply Hpass.
Qed.

Lemma happens_good x e : system_ok x → possible x e → good x e (happens compress x e).
Proof.
  intros Hx Hp.
  assert (match e with PassBegin _ _ _ _ | PassRead _ _ _ | PassLook _ | PassClean _ _ => False | _ => True end →
    ∀ cr, good x e (mk_system (on_registry compress (registry x) e) cr (passes x))) as Hreg.
  { intros He cr. assert (∀ sid e', e = Pty sid e' → reads_only e' = true) as Hr by (intros sid e' ->; exact Hp).
    destruct (registry_life compress x (registry x) e (proj1 Hx) Hr He) as [Hok Hlife]. split; [split; [done|]|done].
    intros n p Hn. apply (pass_grows (heap (registry x))); [|by apply (proj2 Hx n)]. apply registry_grows; [apply Hx|done]. }
  destruct e as [now id persistent user|id persistent|now action ans p|id|p|now|sid e|n persistent order id|now a n|n|code n].
  - cbn [happens]. case_bool_decide; by apply Hreg.
  - by apply Hreg.
  - by apply Hreg.
  - by apply Hreg.
  - by apply Hreg.
  - by apply Hreg.
  - by apply Hreg.
  - by apply begin_good.
  - by apply read_good.
  - by apply look_good.
  - by apply clean_good.
Qed.
Lemma reachable_ok x : reachable_system compress x → system_ok x.
Proof.
  apply reachable_invariant.
  - intros x0 ->. split; [|done]. split; cbn; [done|done|by intros ? []|]. rewrite map_size_empty. lia.
  - intros x0 x1 Hok (e & Hp & ->). by apply happens_good.
Qed.
End system.


(** A history: a login opens a terminal, it prints, the connection is lost, and comes
    back. *)
Section examples.
Definition id0 : str := lit "ts_1".
Definition yes : answers := mk_answers (Ok 7) (Ok ()) (Ok ()).
Definition quiet : answer := mk_answer false false true.
Definition history : list happening :=
  [Attach 0 id0 true false; Act 1 (OpenTerminal 1 24 80) yes (mk_proxy id0 true);
   Pty 0 (ReadData (lit_bytes "hi")); Attach 5 id0 true false; Act 6 (OpenTerminal 3 24 80) yes (mk_proxy id0 true)].
Definition after (es : list happening) : system := foldl (happens toy_compress) system_new es.
Definition sent_by (n : nat) (x : system) : option (list TerminalResponse) := pass_responses <$> passes x !! n.
Definition terminals (x : system) : option (gmap Z nat) := sessions <$> services (registry x) !! id0.
(** A pass of loop [n] that finds one session, in which nothing is closed. *)
Definition whole_pass (n : nat) (now : Z) (a : answer) : list happening :=
  [PassBegin n true [(3, 0%nat)] id0; PassRead now a n; PassLook n].

Lemma reachable_history es : Forall (λ e, match e with PassBegin _ _ _ _ => False | _ => possible system_new e end) es →
  ∀ x, reachable_system toy_compress x → reachable_system toy_compress (foldl (happens toy_compress) x es).
Proof.
  induction 1 as [|e es He Hes IH]; intros x Hx; [done|]. cbn [foldl]. apply IH. eapply reach_step; [exact Hx|].
  exists e. split; [|done]. by destruct e.
Qed.

(** The loop of a connection that was lost goes on until the connection is
    dropped: when the viewer has come back on another, that loop may be the one
    that takes the recent output, and what is printed meanwhile. *)
Example old_loop_takes_replay :
  let x := after (history ++ whole_pass 0 7 quiet ++ whole_pass 1 8 quiet) in
  sent_by 0 x = Some [Data 3 (lit_bytes "hi") false] ∧ sent_by 1 x = Some [].
Proof. vm_compute. done. Qed.

(** The second loop of a pass goes by the numbers of the terminals: when the viewer
    closes one and opens it anew between the two loops, it is the new terminal
    that a service that is not persistent loses. *)
Example reopened_terminal_removed :
  let p := mk_proxy id0 false in
  let x := after [Attach 0 id0 false false; Act 0 (OpenTerminal 1 24 80) yes p; Pty 0 ReadEof;
    PassBegin 0 false [(1, 0%nat)] id0; PassRead 1 quiet 0;
    Act 2 (CloseTerminal 1) yes p; Act 3 (OpenTerminal 1 24 80) yes p; PassLook 0] in
  let x' := happens toy_compress x (PassClean None 0) in
  terminals x = Some {[1 := 2%nat]} ∧ (reader_thread <$> heap (registry x) !! 2%nat) = Some (Some (Running []))
  ∧ terminals x' = Some ∅ ∧ sent_by 0 x' = Some [ClosedResponse 1 0].
Proof. vm_compute. done. Qed.

(** A terminal whose shell has exited goes at once, although its reader may not
    have read all that the shell printed. *)
Example last_words_lost :
  let x := after (history ++ whole_pass 0 7 (mk_answer false true true)
    ++ [PassClean (Some 0) 0; Pty 0 (ReadData (lit_bytes "bye"))]) in
  (reader_thread <$> heap (registry x) !! 0%nat) = Some None ∧ terminals x = Some ∅.
Proof. vm_compute. done. Qed.
End examples.
