(* ===== verification/ClipFormat.v ===== *)
(** * Copied files: the list of what is copied

    The file descriptors one side sends for the files on its clipboard:
    [LocalFile::as_bin] of [src/libs/clipboard/src/platform/unix/local_file.rs],
    [build_file_list_pdu] of [serv_files.rs] beside it, and
    [FileDescription::parse_file_descriptors] of [filetype.rs], which reads them. *)
From S2P Require Import Prelude Paths FileTransfer.
Local Open Scope Z_scope.

(** ** Constants of the platform module *)
Definition FLAGS_FD_ATTRIBUTES : Z := 0x04.
Definition FLAGS_FD_SIZE : Z := 0x40.
Definition FLAGS_FD_LAST_WRITE : Z := 0x20.
Definition FLAGS_FD_PROGRESSUI : Z := 0x4000.
Definition FLAGS_FD_UNIX_MODE : Z := 0x08.
Definition FILE_NAME_CODE_UNITS : nat := 260.
Definition FILE_NAME_FIELD_SIZE : nat := FILE_NAME_CODE_UNITS * 2.
Definition FILE_DESCRIPTOR_SIZE : nat := 592.
Definition MAX_FILE_NAME_CODE_UNITS : nat := FILE_NAME_CODE_UNITS - 1.
Definition LDAP_EPOCH_DELTA : Z := 116444772610000000.
(** r--r--r--, rw-r--r--, r-------- and rwxr-xr-x. *)
Definition PERM_READ : Z := 292.
Definition PERM_RW : Z := 420.
Definition PERM_SELF_RO : Z := 256.
Definition PERM_RWX : Z := 493.
#[global] Arguments FILE_NAME_FIELD_SIZE : simpl never.
#[global] Arguments FILE_DESCRIPTOR_SIZE : simpl never.
#[global] Arguments MAX_FILE_NAME_CODE_UNITS : simpl never.

(** [CliprdrError], the error of the system left out of [FileError]. *)
Inductive CliprdrError :=
| CliprdrName | CliprdrInit | CliprdrOutOfMemory | ClipboardInternalError | ClipboardOccupied
| ConversionFailure | OpenClipboard
| FileError (path : str)
| InvalidRequest (description : str)
| CommonError (description : str)
| Unknown (code : Z).

(** ** UTF-16

    [str::encode_utf16] and [String::from_utf16] of the standard library; a unit
    is a number below 2^16. *)
Definition encode_char (c : char) : list Z :=
  let c := Z.of_N c in
  if c <? 0x10000 then [c]
  else [0xD800 + (c - 0x10000) / 0x400; 0xDC00 + (c - 0x10000) mod 0x400].
Definition encode_utf16 (s : str) : list Z := s ≫= encode_char.
Fixpoint from_utf16 (units : list Z) : option str :=
  match units with
  | [] => Some []
  | u :: units' =>
      if (u <? 0xD800) || (0xE000 <=? u) then cons (Z.to_N u) <$> from_utf16 units'
      else match units' with
           | v :: units'' =>
               if (u <? 0xDC00) && (0xDC00 <=? v) && (v <? 0xE000)
               then cons (Z.to_N (0x10000 + (u - 0xD800) * 0x400 + (v - 0xDC00))) <$> from_utf16 units''
               else None
           | [] => None
           end
  end.
Definition units_bytes (units : list Z) : bytes := units ≫= le_bytes 2.
(** [chunks_exact(2)] *)
Fixpoint chunks2 (b : bytes) : list bytes :=
  match b with x :: y :: b' => [x; y] :: chunks2 b' | _ => [] end.

(** The [utf16string] crate: text as little-endian UTF-16, and back. *)
Class WStrings := {
  wstring_from : str → bytes;
  from_utf16le : bytes → option str
}.
(** A Unicode scalar value. *)
Definition scalar (c : char) : Prop := (c < 0xD800 ∨ 0xE000 ≤ c ∧ c ≤ 0x10FFFF)%N.
#[export] Instance scalar_dec c : Decision (scalar c).
Proof. unfold scalar. apply _. Defined.
Class WStringLaws `{WStrings} : Prop := {
  wstring_from_utf16 s : Forall scalar s → wstring_from s = units_bytes (encode_utf16 s);
  from_utf16le_back s : Forall scalar s → from_utf16le (wstring_from s) = Some s
}.

(** ** Names *)
Definition backslash : char := chr "\".
(** [validate_file_name] of [filetype.rs]: a normalized relative path. *)
Definition validate_file_name (name : str) : result CliprdrError unit :=
  if match name with letter :: c :: d :: _ => is_ascii_alphabetic letter && (c =? chr ":")%N && (d =? slash)%N | _ => false end
     || existsb (λ component, bool_decide (component = []) || bool_decide (component = lit ".")) (split_on slash name)
  then Err (InvalidRequest (lit "clipboard file name is not a normalized relative path"))
  else match validate_file_name_no_traversal false name with
       | Ok _ => Ok tt
       | Err error => Err (InvalidRequest error)
       end.
(** [str::replace] of one character by another. *)
Definition replace_char (a b : char) (s : str) : str := (λ c, if (c =? a)%N then b else c) <$> s.

(** ** What is sent of a file

    [handle] is the position of the open file; times are nanoseconds since 1970. *)
Record LocalFile := mk_local {
  local_path : str;
  handle : option Z;
  offset : Z;
  local_name : str;
  descriptor_name : str;
  local_size : Z;
  last_write_time : Z;
  is_dir : bool;
  local_perm : Z;
  read_only : bool;
  hidden : bool;
  system : bool;
  archive : bool;
  normal : bool
}.
#[export] Instance LocalFile_eta : Eta LocalFile := λ r,
  mk_local (local_path r) (handle r) (offset r) (local_name r) (descriptor_name r) (local_size r)
    (last_write_time r) (is_dir r) (local_perm r) (read_only r) (hidden r) (system r) (archive r) (normal r).

Definition descriptor_name_too_long_error : CliprdrError :=
  InvalidRequest (lit "clipboard file name exceeds 259 UTF-16 code units").

Section format.
Context `{WStrings}.

Definition put_descriptor_name (f : LocalFile) : result CliprdrError bytes :=
  match validate_file_name (descriptor_name f) with
  | Err e => Err e
  | Ok _ =>
      let name := wstring_from (descriptor_name f) in
      let name_field_size := (length name + 2)%nat in
      if bool_decide (FILE_NAME_FIELD_SIZE < name_field_size)%nat then Err descriptor_name_too_long_error
      else Ok (name ++ le_bytes 2 0 ++ replicate (FILE_NAME_FIELD_SIZE - name_field_size) Byte.x00)
  end.

Definition flag (b : bool) (v : Z) : Z := if b then v else 0.
Definition file_attributes (f : LocalFile) : Z :=
  Z.lor (Z.lor (Z.lor (Z.lor (Z.lor (flag (read_only f) 0x1) (flag (hidden f) 0x2)) (flag (system f) 0x4))
    (flag (is_dir f) 0x10)) (flag (archive f) 0x20)) (flag (normal f) 0x80).
(** In units of 100 ns since 1601. *)
Definition win32_time (f : LocalFile) : Z :=
  Int.wrap_u64 (Z.max 0 (last_write_time f)) / 100 + LDAP_EPOCH_DELTA.
Definition as_bin (f : LocalFile) : result CliprdrError bytes :=
  let size_high := Z.shiftr (local_size f) 32 in
  let size_low := Z.land (local_size f) Int.u32_max in
  let flags := Z.lor (Z.lor (Z.lor (Z.lor FLAGS_FD_SIZE FLAGS_FD_LAST_WRITE) FLAGS_FD_ATTRIBUTES) FLAGS_FD_PROGRESSUI)
                 FLAGS_FD_UNIX_MODE in
  match put_descriptor_name f with
  | Err e => Err e
  | Ok name =>
      Ok (le_bytes 4 flags ++ replicate 32 Byte.x00 ++ le_bytes 4 (file_attributes f)
            ++ replicate 12 Byte.x00 ++ le_bytes 4 (local_perm f) ++ le_bytes 8 (win32_time f)
            ++ le_bytes 4 size_high ++ le_bytes 4 size_low ++ name)
  end.
Fixpoint descriptors (files : list LocalFile) : result CliprdrError bytes :=
  match files with
  | [] => Ok []
  | f :: files =>
      match as_bin f with
      | Err e => Err e
      | Ok b => match descriptors files with Err e => Err e | Ok rest => Ok (b ++ rest) end
      end
  end.
Definition build_file_list_pdu (files : list LocalFile) : result CliprdrError bytes :=
  match descriptors files with
  | Err e => Err e
  | Ok data => Ok (le_bytes 4 (Z.of_nat (length files)) ++ data)
  end.

(** ** What the other side reads *)
Inductive FileType := File | Directory | Symlink.
Record FileDescription := mk_desc {
  conn_id : Z;
  name : str;
  kind : FileType;
  last_modified : Z;
  size : Z;
  perm : Z
}.

(** [get_u32_le] and the like, and [advance]; the caller has checked that there is
    enough. *)
Definition get_le (n : nat) (b : bytes) : Z * bytes := (of_le (take n b), drop n b).

Definition parse_file_descriptor (b : bytes) (conn_id : Z) : result CliprdrError (FileDescription * bytes) :=
  let '(flags, b) := get_le 4 b in
  let b := drop 32 b in
  let '(attributes, b) := get_le 4 b in
  let b := drop 12 b in
  let '(perm, b) := get_le 4 b in
  let perm := perm mod 2 ^ 16 in
  let '(last_write_time, b) := get_le 8 b in
  let '(file_size_high, b) := get_le 4 b in
  let '(file_size_low, b) := get_le 4 b in
  let block := take FILE_NAME_FIELD_SIZE b in
  let b := drop FILE_NAME_FIELD_SIZE b in
  match list_find (λ unit, unit = [Byte.x00; Byte.x00]) (chunks2 block) with
  | None => Err (InvalidRequest (lit "clipboard file name is not null-terminated"))
  | Some (name_end, _) =>
      match from_utf16le (take (name_end * 2) block) with
      | None => Err ConversionFailure
      | Some wstr =>
          let from_unix := negb (Z.land flags FLAGS_FD_UNIX_MODE =? 0) in
          let valid_attributes := negb (Z.land flags FLAGS_FD_ATTRIBUTES =? 0) in
          if negb valid_attributes
          then Err (InvalidRequest (lit "file description must have valid attributes"))
          else
            let directory := negb (Z.land attributes 0x10 =? 0) in
            let normal := attributes =? 0x80 in
            let hidden := negb (Z.land attributes 0x02 =? 0) in
            let readonly := negb (Z.land attributes 0x01 =? 0) in
            let perm := if from_unix then perm else if normal then PERM_RWX else if readonly then PERM_READ
                        else if hidden then PERM_SELF_RO else if directory then PERM_RWX else PERM_RW in
            let size := Z.shiftl file_size_high 32 + file_size_low in
            let valid_write_time := negb (Z.land flags FLAGS_FD_LAST_WRITE =? 0) in
            let last_modified := if valid_write_time && (LDAP_EPOCH_DELTA <=? last_write_time)
                                 then Int.wrap_u64 ((last_write_time - LDAP_EPOCH_DELTA) * 100) else 0 in
            let name := replace_char backslash slash wstr in
            match validate_file_name name with
            | Err e => Err e
            | Ok _ => Ok (mk_desc conn_id name (if directory then Directory else File) last_modified size perm, b)
            end
      end
  end.

Fixpoint parse_count (count : nat) (data : bytes) (conn_id : Z) : result CliprdrError (list FileDescription) :=
  match count with
  | O => Ok []
  | S count =>
      match parse_file_descriptor data conn_id with
      | Err e => Err e
      | Ok (desc, data) =>
          match parse_count count data conn_id with Err e => Err e | Ok files => Ok (desc :: files) end
      end
  end.
Definition parse_file_descriptors (pdu : bytes) (conn_id : Z) : result CliprdrError (list FileDescription) :=
  if bool_decide (length pdu < 4)%nat
  then Err (InvalidRequest (lit "file descriptor request with infficient length"))
  else
    let '(count, data) := get_le 4 pdu in
    let count := Z.to_nat count in
    if bool_decide (length data = 0)%nat && bool_decide (count = 0)%nat then Ok []
    else if negb (bool_decide (length data = 592 * count)%nat)
    then Err (InvalidRequest (lit "file descriptor request with invalid length"))
    else parse_count count data conn_id.
End format.

(** ** UTF-16 *)
Definition unit_range (u : Z) : Prop := 0 ≤ u < 0x10000.
Lemma from_utf16_char c rest : scalar c → from_utf16 (encode_char c ++ rest) = cons c <$> from_utf16 rest.
Proof.
  unfold scalar, encode_char. intros Hc. destruct (Z.ltb_spec (Z.of_N c) 0x10000); cbn [app from_utf16].
  - destruct (Z.ltb_spec (Z.of_N c) 0xD800), (Z.leb_spec 0xE000 (Z.of_N c)); try lia; cbn [orb]; by rewrite N2Z.id.
  - pose proof (Z.mod_pos_bound (Z.of_N c - 0x10000) 0x400). pose proof (Z.div_mod (Z.of_N c - 0x10000) 0x400).
    assert (0 ≤ (Z.of_N c - 65536) / 1024 < 1024) by (split; [apply Z.div_pos|apply Z.div_lt_upper_bound]; lia).
    destruct (Z.ltb_spec (0xD800 + (Z.of_N c - 0x10000) / 0x400) 0xD800); [lia|].
    destruct (Z.leb_spec 0xE000 (0xD800 + (Z.of_N c - 0x10000) / 0x400)); [lia|].
    destruct (Z.ltb_spec (0xD800 + (Z.of_N c - 0x10000) / 0x400) 0xDC00); [|lia].
    destruct (Z.leb_spec 0xDC00 (0xDC00 + (Z.of_N c - 0x10000) mod 0x400)); [|lia].
    destruct (Z.ltb_spec (0xDC00 + (Z.of_N c - 0x10000) mod 0x400) 0xE000); [|lia]. cbn [orb andb].
    do 3 f_equal. lia.
Qed.
Lemma from_encode_utf16 s : Forall scalar s → from_utf16 (encode_utf16 s) = Some s.
Proof.
  induction 1 as [|c s Hc _ IH]; [done|]. unfold encode_utf16 in *. cbn [mbind list_bind].
  rewrite from_utf16_char by done. by rewrite IH.
Qed.
Lemma encode_char_units c : scalar c → Forall (λ u, unit_range u ∧ (u = 0 → c = nul)) (encode_char c).
Proof.
  unfold scalar, encode_char, unit_range, nul. intros Hc.
  pose proof (Z.mod_pos_bound (Z.of_N c - 0x10000) 0x400).
  assert (Z.of_N c < 0x10000 ∨ 0 ≤ (Z.of_N c - 65536) / 1024 < 1024).
  { destruct (Z.lt_ge_cases (Z.of_N c) 65536); [by left|right]. split; [apply Z.div_pos|apply Z.div_lt_upper_bound]; lia. }
  destruct (Z.ltb_spec (Z.of_N c) 0x10000); repeat constructor; lia.
Qed.
Lemma encode_utf16_units s : Forall scalar s → Forall (λ u, unit_range u ∧ (u = 0 → nul ∈ s)) (encode_utf16 s).
Proof.
  unfold encode_utf16. induction 1 as [|c s Hc _ IH]; cbn [mbind list_bind]; [constructor|]. apply Forall_app. split.
  - eapply Forall_impl; [apply encode_char_units, Hc|]. intros u [? Hu]. split; [done|]. intros ->. rewrite (Hu eq_refl). by left.
  - eapply Forall_impl; [exact IH|]. intros u [? Hu]. split; [done|]. intros ->. right. auto.
Qed.

Lemma length_units_bytes us : length (units_bytes us) = (2 * length us)%nat.
Proof. unfold units_bytes. induction us as [|u us IH]; [done|]. cbn [mbind list_bind]. rewrite length_app, IH. cbn. lia. Qed.
Lemma chunks2_units us rest : chunks2 (units_bytes us ++ rest) = (le_bytes 2 <$> us) ++ chunks2 rest.
Proof.
  unfold units_bytes. induction us as [|u us IH]; [done|]. cbn [mbind list_bind fmap list_fmap]. rewrite <- app_assoc.
  change (le_bytes 2 u) with [byte_of_Z u; byte_of_Z (u / 256)]. cbn [app chunks2]. by rewrite IH.
Qed.
Lemma le_bytes_zero u : unit_range u → le_bytes 2 u = [Byte.x00; Byte.x00] → u = 0.
Proof. intros Hu H. apply (f_equal of_le) in H. rewrite of_le_bytes_small in H by (unfold unit_range in Hu; cbn; lia). done. Qed.
Lemma units_of_bytes us : Forall unit_range us → of_le <$> chunks2 (units_bytes us) = us.
Proof.
  intros Hu. rewrite <- (app_nil_r (units_bytes us)), chunks2_units, app_nil_r, <- list_fmap_compose.
  induction Hu as [|u us Hu _ IH]; [done|]. cbn [fmap list_fmap compose]. f_equal; [|done].
  apply of_le_bytes_small. unfold unit_range in Hu. cbn. lia.
Qed.

(** The standard library's UTF-16 meets what is asked of the crate. *)
#[export] Instance std_wstrings : WStrings := {
  wstring_from s := units_bytes (encode_utf16 s);
  from_utf16le b := from_utf16 (of_le <$> chunks2 b)
}.
#[export] Instance std_wstring_laws : WStringLaws (H := std_wstrings).
Proof.
  split; [done|]. intros s Hs. cbn. rewrite units_of_bytes; [by apply from_encode_utf16|].
  eapply Forall_impl; [by apply encode_utf16_units|]. by intros u [? _].
Qed.

(** ** Names *)
Definition plain (w : str) : Prop := w ≠ [] ∧ w ≠ lit "." ∧ w ≠ lit "..".
Lemma validate_file_name_ok nm : validate_file_name nm = Ok tt →
  Forall plain (split_on slash nm) ∧ nul ∉ nm.
Proof.
  unfold validate_file_name. destruct (_ || existsb _ _) eqn:He; [done|].
  apply orb_false_iff in He as [_ He]. unfold validate_file_name_no_traversal.
  case_bool_decide as Hnul; [done|]. case_bool_decide as Hdots; [done|]. intros _. split; [|done].
  rewrite Forall_forall. intros w Hw.
  assert (∀ w, w ∈ split_on slash nm → (bool_decide (w = []) || bool_decide (w = lit ".")) = false) as Hall.
  { intros v Hv. apply not_true_is_false. intros Ht. assert (existsb (λ component, bool_decide (component = []) || bool_decide (component = lit ".")) (split_on slash nm) = true); [|congruence].
    apply existsb_exists. exists v. split; [by apply list_elem_of_In|done]. }
  specialize (Hall w Hw). apply orb_false_iff in Hall as [H1%bool_decide_eq_false H2%bool_decide_eq_false].
  split_and!; [done|done|]. intros ->. apply Hdots.
  assert (split_by (λ c, (slash =? c)%N || (false && (chr "\" =? c)%N)) nm = split_on slash nm) as ->; [|done].
  unfold split_on. clear. induction nm as [|c nm IH]; [done|]. cbn [split_by]. rewrite andb_false_l, orb_false_r.
  by rewrite IH.
Qed.
(** The root of a drive, [X:/]. *)
Definition drive_rooted (nm : str) : Prop :=
  ∃ letter rest, is_ascii_alphabetic letter = true ∧ nm = letter :: chr ":" :: slash :: rest.
(** A normalized relative path: no piece is empty or made of dots, and it is not below
    the root of a drive. *)
Definition normalized (nm : str) : Prop := Forall plain (split_on slash nm) ∧ (nul ∉ nm) ∧ ¬ drive_rooted nm.
Lemma validate_file_name_spec nm : validate_file_name nm = Ok tt ↔ normalized nm.
Proof.
  split.
  - intros Hv. pose proof (validate_file_name_ok nm Hv) as [Hp Hn]. do 2 (split; [done|]). intros (letter & rest & Hl & ->).
    unfold validate_file_name in Hv. rewrite Hl, !N.eqb_refl in Hv. done.
  - intros (Hp & Hn & Hd). unfold validate_file_name.
    assert (match nm with letter :: c :: d :: _ => is_ascii_alphabetic letter && (c =? chr ":")%N && (d =? slash)%N | _ => false end = false) as ->.
    { destruct nm as [|letter [|c [|d rest]]]; try done. apply not_true_iff_false. intros [[Hl ->%N.eqb_eq]%andb_true_iff ->%N.eqb_eq]%andb_true_iff.
      apply Hd. by exists letter, rest. }
    assert (existsb (λ component, bool_decide (component = []) || bool_decide (component = lit ".")) (split_on slash nm) = false) as ->.
    { apply not_true_iff_false. intros (w & Hw%list_elem_of_In & Hb)%existsb_exists. rewrite Forall_forall in Hp. destruct (Hp w Hw) as (H1 & H2 & _).
      rewrite !bool_decide_eq_false_2 in Hb by done. done. }
    unfold validate_file_name_no_traversal. cbn [orb]. rewrite bool_decide_eq_false_2 by done.
    assert (split_by (λ c, (slash =? c)%N || (false && (chr "\" =? c)%N)) nm = split_on slash nm) as ->.
    { unfold split_on. clear. induction nm as [|c nm IH]; [done|]. cbn [split_by]. rewrite andb_false_l, orb_false_r. by rewrite IH. }
    rewrite bool_decide_eq_false_2 by (intros Hin; rewrite Forall_forall in Hp; by destruct (Hp _ Hin) as (_ & _ & ?)).
    destruct (starts_with nm [slash]) eqn:Hst; [|done]. apply starts_with_spec in Hst as (t & ->). unfold split_on in Hp. cbn in Hp.
    rewrite N.eqb_refl in Hp. apply Forall_cons in Hp as [[? _] _]. done.
Qed.
Lemma piece_plain w : plain w → piece w = Some (Normal w).
Proof. intros (? & ? & ?). unfold piece. by rewrite !bool_decide_eq_false_2. Qed.
(** The components of a validated name are its pieces. *)
Lemma components_plain nm : Forall plain (split_on slash nm) → components nm = Normal <$> split_on slash nm.
Proof.
  intros Hp. unfold components.
  assert (omap piece (split_on slash nm) = Normal <$> split_on slash nm) as ->.
  { clear -Hp. induction Hp as [|w ws Hw _ IH]; [done|]. cbn. rewrite piece_plain by done. by rewrite IH. }
  assert (∃ w ws, split_on slash nm = w :: ws ∧ plain w) as (w & ws & Hs & Hw).
  { pose proof (split_by_nonempty (N.eqb slash) nm) as Hne. unfold split_on in *.
    destruct (split_by _ nm); [done|]. apply Forall_cons in Hp as [? _]. eauto. }
  destruct (starts_with nm [slash]) eqn:Hst.
  - apply starts_with_spec in Hst as (t & ->). unfold split_on in Hs. cbn in Hs. rewrite N.eqb_refl in Hs.
    injection Hs as <- _. by destruct Hw.
  - rewrite Hs. cbn [head]. rewrite bool_decide_eq_false_2; [done|]. intros [= ->]. by destruct Hw as (_ & ? & _).
Qed.
Lemma replace_char_none a b s : a ∉ s → replace_char a b s = s.
Proof.
  unfold replace_char. induction s as [|c s IH]; [done|]. rewrite not_elem_of_cons. intros [Hc Hs].
  cbn. destruct (N.eqb_spec c a); [congruence|]. by rewrite IH.
Qed.
Lemma replaced_none a b s : a ≠ b → a ∉ replace_char a b s.
Proof. unfold replace_char. intros Hab (c & Hc & _)%list_elem_of_fmap. case_match eqn:E; [congruence|]. apply N.eqb_neq in E. congruence. Qed.

(** ** Reading what was written *)
Lemma ok_inj {E A} (a b : A) : @Ok E A a = Ok b → a = b.
Proof. congruence. Qed.
Lemma get_le_bytes n z rest : get_le n (le_bytes n z ++ rest) = (z mod 256 ^ Z.of_nat n, rest).
Proof.
  unfold get_le. rewrite <- (length_le_bytes n z) at 1 3. rewrite take_app_length, drop_app_length.
  by rewrite of_le_bytes.
Qed.
Lemma drop_zeros n (rest : bytes) : drop n (replicate n Byte.x00 ++ rest) = rest.
Proof. rewrite <- (length_replicate n Byte.x00) at 1. apply drop_app_length. Qed.

(** What the description of a file is to be. *)
Definition describe (conn : Z) (f : LocalFile) : FileDescription :=
  mk_desc conn (descriptor_name f) (if is_dir f then Directory else File)
    (Int.wrap_u64 (Z.max 0 (last_write_time f)) / 100 * 100) (local_size f) (local_perm f mod 2 ^ 16).
(** A file with a name of scalar values without backslashes, which are separators
    to the other side. *)
Record sendable (f : LocalFile) : Prop := {
  sendable_scalar : Forall scalar (descriptor_name f);
  sendable_slashes : backslash ∉ descriptor_name f;
  sendable_size : Int.in_u64 (local_size f)
}.
Definition nameable (f : LocalFile) : Prop :=
  normalized (descriptor_name f)
  ∧ (length (encode_utf16 (descriptor_name f)) ≤ MAX_FILE_NAME_CODE_UNITS)%nat.

Section roundtrip.
Context `{WStringLaws}.

Lemma put_name_spec f : Forall scalar (descriptor_name f) →
  match put_descriptor_name f with
  | Ok b => nameable f ∧ b = units_bytes (encode_utf16 (descriptor_name f))
      ++ [Byte.x00; Byte.x00] ++ replicate (FILE_NAME_FIELD_SIZE - (2 * length (encode_utf16 (descriptor_name f)) + 2)) Byte.x00
  | Err _ => ¬ nameable f
  end.
Proof.
  intros Hs. unfold put_descriptor_name, nameable. pose proof (validate_file_name_spec (descriptor_name f)) as Hv.
  destruct (validate_file_name _) as [[]|e]; [apply proj1 in Hv|by intros [?%Hv _]]. specialize (Hv eq_refl).
  rewrite wstring_from_utf16, length_units_bytes by done.
  unfold FILE_NAME_FIELD_SIZE, MAX_FILE_NAME_CODE_UNITS, FILE_NAME_CODE_UNITS.
  case_bool_decide; [intros [_ ?]; lia|]. split; [split; [done|lia]|done].
Qed.

Lemma length_put_name f b : put_descriptor_name f = Ok b → length b = FILE_NAME_FIELD_SIZE.
Proof.
  unfold put_descriptor_name. destruct (validate_file_name _); [|done]. case_bool_decide; [done|]. intros <-%ok_inj.
  rewrite !length_app, length_le_bytes, length_replicate. lia.
Qed.
Lemma length_as_bin f b : as_bin f = Ok b → length b = FILE_DESCRIPTOR_SIZE.
Proof.
  unfold as_bin. destruct (put_descriptor_name f) as [nm|] eqn:Hp; [|done]. apply length_put_name in Hp. intros <-%ok_inj.
  rewrite !length_app, !length_replicate, Hp. done.
Qed.

(** The end of the name is found, whatever follows the field. *)
Lemma name_end us pad rest : Forall (λ u, unit_range u ∧ u ≠ 0) us →
  list_find (λ unit, unit = [Byte.x00; Byte.x00]) (chunks2 (units_bytes us ++ [Byte.x00; Byte.x00] ++ replicate pad Byte.x00 ++ rest))
    = Some (length us, [Byte.x00; Byte.x00]).
Proof.
  intros Hu. rewrite chunks2_units. cbn [app chunks2]. apply list_find_Some. split_and!.
  - rewrite lookup_app_r by (by rewrite length_fmap). by rewrite length_fmap, Nat.sub_diag.
  - done.
  - intros j y Hj Hlt. rewrite lookup_app_l in Hj by (by rewrite length_fmap).
    apply list_lookup_fmap_Some in Hj as (u & -> & Hj). apply (Forall_lookup_1 _ _ _ _ Hu) in Hj as [Hr Hne].
    intros Hz. apply Hne. by apply le_bytes_zero.
Qed.

Lemma attributes_directory f : (Z.land (file_attributes f mod 256 ^ Z.of_nat 4) 0x10 =? 0) = negb (is_dir f).
Proof. unfold file_attributes. by destruct (read_only f), (hidden f), (system f), (is_dir f), (archive f), (normal f). Qed.
Lemma time_back f : let t := win32_time f mod 256 ^ Z.of_nat 8 in
  (if negb (Z.land 0x406C FLAGS_FD_LAST_WRITE =? 0) && (LDAP_EPOCH_DELTA <=? t)
   then Int.wrap_u64 ((t - LDAP_EPOCH_DELTA) * 100) else 0) = Int.wrap_u64 (Z.max 0 (last_write_time f)) / 100 * 100.
Proof.
  cbv zeta. unfold win32_time, Int.wrap_u64, LDAP_EPOCH_DELTA. set (t := Z.max 0 _ mod 2 ^ 64).
  pose proof (Z.mod_pos_bound (Z.max 0 (last_write_time f)) (2 ^ 64)). fold t in H1.
  change (256 ^ Z.of_nat 8) with (2 ^ 64). change (negb _) with true. cbn [andb].
  rewrite (Z.mod_small (t / 100 + _)) by lia. destruct (Z.leb_spec 116444772610000000 (t / 100 + 116444772610000000)); [|lia].
  rewrite Z.mod_small; lia.
Qed.
Lemma size_back z : Int.in_u64 z →
  Z.shiftl (Z.shiftr z 32 mod 256 ^ Z.of_nat 4) 32 + Z.land z Int.u32_max mod 256 ^ Z.of_nat 4 = z.
Proof.
  unfold Int.in_u64, Int.u64_max. intros Hz. change Int.u32_max with (Z.ones 32). rewrite Z.land_ones by lia.
  rewrite Z.shiftr_div_pow2, Z.shiftl_mul_pow2 by lia. change (256 ^ Z.of_nat 4) with (2 ^ 32). lia.
Qed.
Lemma perm_back z : z mod 256 ^ Z.of_nat 4 mod 2 ^ 16 = z mod 2 ^ 16.
Proof. change (256 ^ Z.of_nat 4) with (2 ^ 32). lia. Qed.
(** What arrives of a file: backslashes, which are separators to the reader, made
    slashes. *)
Definition arriving (f : LocalFile) : str := replace_char backslash slash (descriptor_name f).
Definition arrive (conn : Z) (f : LocalFile) : FileDescription :=
  mk_desc conn (arriving f) (if is_dir f then Directory else File)
    (Int.wrap_u64 (Z.max 0 (last_write_time f)) / 100 * 100) (local_size f) (local_perm f mod 2 ^ 16).
Lemma arrive_describe conn f : backslash ∉ descriptor_name f → arrive conn f = describe conn f.
Proof. intros Hb. unfold arrive, arriving. by rewrite replace_char_none. Qed.
(** Text and sizes as their types have them. *)
Definition typed (f : LocalFile) : Prop := Forall scalar (descriptor_name f) ∧ Int.in_u64 (local_size f).
Lemma parse_as_bin f b rest conn : typed f → as_bin f = Ok b →
  parse_file_descriptor (b ++ rest) conn =
  match validate_file_name (arriving f) with Ok _ => Ok (arrive conn f, rest) | Err e => Err e end.
Proof.
  intros [Hs Hsz] Hbin. pose proof (put_name_spec f Hs) as Hp. unfold as_bin in Hbin.
  destruct (put_descriptor_name f) as [nm|] eqn:Hput; [|done]. pose proof (length_put_name _ _ Hput) as Hlen.
  destruct Hp as [[(_ & Hnul & _) Hl] Hnm]. apply ok_inj in Hbin as <-.
  unfold parse_file_descriptor. rewrite <- !app_assoc.
  rewrite get_le_bytes, drop_zeros, get_le_bytes, drop_zeros, get_le_bytes, get_le_bytes, get_le_bytes, get_le_bytes.
  rewrite <- Hlen, take_app_length, drop_app_length.
  assert (Forall (λ u, unit_range u ∧ u ≠ 0) (encode_utf16 (descriptor_name f))) as Hu.
  { eapply Forall_impl; [by apply encode_utf16_units|]. intros u [? Hz]. split; [done|]. auto. }
  rewrite Hnm. pose proof (name_end (encode_utf16 (descriptor_name f))
    (FILE_NAME_FIELD_SIZE - (2 * length (encode_utf16 (descriptor_name f)) + 2)) [] Hu) as Hend.
  rewrite app_nil_r in Hend. rewrite Hend.
  rewrite Nat.mul_comm, <- length_units_bytes, take_app_length, <- wstring_from_utf16, from_utf16le_back by done.
  replace (Z.lor _ FLAGS_FD_UNIX_MODE mod 256 ^ Z.of_nat 4) with 0x406C by done.
  change (negb (negb (Z.land 0x406C FLAGS_FD_ATTRIBUTES =? 0))) with false.
  change (negb (Z.land 0x406C FLAGS_FD_UNIX_MODE =? 0)) with true. cbv iota.
  rewrite time_back, size_back, perm_back, attributes_directory by done. unfold arrive, arriving.
  destruct (validate_file_name _) as [[]|]; [|done]. by destruct (is_dir f).
Qed.

Definition accepted (files : list LocalFile) : Prop := Forall (λ f, normalized (arriving f)) files.
Lemma descriptors_spec files b : descriptors files = Ok b → (length b = FILE_DESCRIPTOR_SIZE * length files)%nat
  ∧ ∀ conn, Forall typed files → (accepted files → parse_count (length files) b conn = Ok (arrive conn <$> files))
      ∧ (¬ accepted files → is_ok (parse_count (length files) b conn) = false).
Proof.
  revert b. induction files as [|f files IH]; intros b; cbn [descriptors].
  { intros <-%ok_inj. split; [done|]. intros conn _. split; [done|]. intros []. constructor. }
  destruct (as_bin f) as [bf|] eqn:Hf; [|done]. destruct (descriptors files) as [rest|]; [|done]. intros <-%ok_inj.
  destruct (IH rest eq_refl) as [Hlen Hparse]. split.
  - rewrite length_app, (length_as_bin _ _ Hf), Hlen. cbn [length]. lia.
  - intros conn [Hs Hss]%Forall_cons. destruct (Hparse conn Hss) as [H1 H2]. cbn [length parse_count fmap list_fmap].
    rewrite (parse_as_bin f bf rest conn Hs Hf). unfold accepted in *. rewrite Forall_cons, <- validate_file_name_spec.
    destruct (validate_file_name (arriving f)) as [[]|e]; [|by split; [intros [? _]|]]. split.
    + intros [_ Ha]. by rewrite H1.
    + intros Hn. assert (is_ok (parse_count (length files) rest conn) = false) as Hr by (apply H2; intros ?; by apply Hn).
      by destruct (parse_count (length files) rest conn).
Qed.
Lemma descriptors_sent files : Forall typed files → is_ok (descriptors files) = true ↔ Forall nameable files.
Proof.
  induction 1 as [|f files Hf _ IH]; cbn [descriptors]; [by split|].
  pose proof (put_name_spec f (proj1 Hf)) as Hp. unfold as_bin.
  destruct (put_descriptor_name f) as [nm|].
  - destruct Hp as [Hn _]. destruct (descriptors files); rewrite Forall_cons; cbn [is_ok] in *; naive_solver.
  - cbn [is_ok]. rewrite Forall_cons. naive_solver.
Qed.

Lemma pdu_arrives conn files pdu : Forall typed files → (Z.of_nat (length files) < 2 ^ 32)%Z → build_file_list_pdu files = Ok pdu →
  (accepted files → parse_file_descriptors pdu conn = Ok (arrive conn <$> files))
  ∧ (¬ accepted files → is_ok (parse_file_descriptors pdu conn) = false).
Proof.
  intros Hs Hn. unfold build_file_list_pdu. destruct (descriptors files) as [data|] eqn:Hd; [|done]. intros <-%ok_inj.
  destruct (descriptors_spec _ _ Hd) as [Hlen Hparse]. specialize (Hparse conn Hs).
  unfold parse_file_descriptors. rewrite get_le_bytes, length_app, length_le_bytes.
  rewrite bool_decide_eq_false_2 by lia. change (256 ^ Z.of_nat 4) with (2 ^ 32).
  rewrite Z.mod_small, Nat2Z.id by lia. unfold FILE_DESCRIPTOR_SIZE in Hlen.
  destruct files as [|f files]; [by rewrite (nil_length_inv _ Hlen)|].
  rewrite andb_comm. rewrite bool_decide_eq_false_2 by done. cbn [andb]. by rewrite bool_decide_eq_true_2.
Qed.
Lemma pdu_parsed conn files pdu : Forall sendable files → Forall nameable files → (Z.of_nat (length files) < 2 ^ 32)%Z →
  build_file_list_pdu files = Ok pdu → parse_file_descriptors pdu conn = Ok (describe conn <$> files).
Proof.
  intros Hs Hnm Hn Hp. destruct (pdu_arrives conn files pdu) as [Ha _]; [|done|done|].
  { eapply Forall_impl; [exact Hs|]. by intros f []. }
  rewrite Ha.
  - f_equal. apply map_ext_in. intros f Hf%list_elem_of_In. apply arrive_describe. rewrite Forall_forall in Hs. by apply Hs.
  - unfold accepted. rewrite Forall_forall in *. intros f Hf. unfold arriving. rewrite replace_char_none by (by apply Hs). by apply Hnm.
Qed.

(** C15: The list of copied files survives its format. A list is sent exactly when each
    name is a relative path of at most 259 UTF-16 units without empty pieces, dots and
    the root of a drive. What is read of it are then the files: their kinds, sizes and
    modes in their order, their times to 100 ns, and their names with backslashes, which
    separate directories to the reader, made slashes; unless that makes a name one that
    could not be sent, in which case the whole list is refused. *)
Theorem pdu_roundtrip conn files : Forall typed files → (Z.of_nat (length files) < 2 ^ 32)%Z →
  match build_file_list_pdu files with
  | Ok pdu => Forall nameable files
      ∧ (Forall (λ f, normalized (arriving f)) files → parse_file_descriptors pdu conn = Ok (arrive conn <$> files))
      ∧ (¬ Forall (λ f, normalized (arriving f)) files → is_ok (parse_file_descriptors pdu conn) = false)
  | Err _ => ¬ Forall nameable files
  end.
Proof.
  intros Hs Hn. pose proof (descriptors_sent files Hs) as Hsent.
  pose proof (λ pdu, pdu_arrives conn files pdu Hs Hn) as Hparse. unfold build_file_list_pdu in *.
  destruct (descriptors files); [|by rewrite <- Hsent]. split; [by apply Hsent|by apply Hparse].
Qed.
End roundtrip.

(** ** What is read is safe *)
(** A name below the place it is put at: no part of it is empty, a dot or two, it is not
    below the root of a drive, and its only separators are slashes. *)
Definition safe_name (nm : str) : Prop := normalized nm ∧ (backslash ∉ nm).
Definition safe_description (conn : Z) (d : FileDescription) : Prop :=
  safe_name (name d) ∧ components (name d) = Normal <$> split_on slash (name d)
  ∧ conn_id d = conn ∧ Int.in_u64 (size d) ∧ (0 ≤ perm d < 2 ^ 16) ∧ Int.in_u64 (last_modified d).

Section safety.
Context `{WStrings}.
Lemma of_le_take n l : 0 ≤ of_le (take n l) < 256 ^ Z.of_nat n.
Proof.
  pose proof (of_le_range (take n l)) as [? Hr]. split; [done|]. eapply Z.lt_le_trans; [exact Hr|].
  apply Z.pow_le_mono_r; [lia|]. rewrite length_take. lia.
Qed.
Lemma parse_safe b conn :
  match parse_file_descriptor b conn with
  | Ok (d, rest) => safe_description conn d ∧ rest = drop FILE_DESCRIPTOR_SIZE b
  | Err _ => True
  end.
Proof.
  unfold parse_file_descriptor, get_le. destruct (list_find _ _) as [[name_end nul]|]; [|done].
  destruct (from_utf16le _) as [wstr|]; [|done]. destruct (negb (negb _)); [done|].
  destruct (validate_file_name _) as [[]|] eqn:Hv; [|done]. apply validate_file_name_spec in Hv as Hp.
  split; [|rewrite !drop_drop; f_equal].
  split_and!; cbn [name conn_id size perm last_modified]; try done.
  - split; [done|by apply replaced_none].
  - by apply components_plain, Hp.
  - pose proof (of_le_take 4). unfold Int.in_u64, Int.u64_max. rewrite Z.shiftl_mul_pow2 by lia.
    change (256 ^ Z.of_nat 4) with (2 ^ 32) in H0. match goal with |- _ ≤ of_le (take 4 ?a) * _ + of_le (take 4 ?b) ≤ _ =>
      pose proof (H0 a); pose proof (H0 b) end. lia.
  - repeat case_match; unfold PERM_RWX, PERM_RW, PERM_READ, PERM_SELF_RO; lia.
  - repeat case_match; unfold PERM_RWX, PERM_RW, PERM_READ, PERM_SELF_RO; lia.
  - case_match; [|by split]. unfold Int.in_u64, Int.wrap_u64, Int.u64_max.
    match goal with |- _ ≤ ?z mod _ ≤ _ => pose proof (Z.mod_pos_bound z (2 ^ 64)) end. lia.
Qed.

Lemma parsed_safe pdu conn files : parse_file_descriptors pdu conn = Ok files →
  Forall (safe_description conn) files
  ∧ length pdu = (4 + FILE_DESCRIPTOR_SIZE * length files)%nat ∧ of_le (take 4 pdu) = Z.of_nat (length files).
Proof.
  unfold parse_file_descriptors. case_bool_decide as Hshort; [done|]. unfold get_le.
  pose proof (of_le_take 4 pdu) as Hc. set (count := Z.to_nat _).
  assert (of_le (take 4 pdu) = Z.of_nat count) as Hcount by (unfold count; rewrite Z2Nat.id; lia).
  rewrite length_drop. destruct (bool_decide (length pdu - 4 = 0)%nat && bool_decide (count = 0)%nat) eqn:He.
  - apply andb_true_iff in He as [H1%bool_decide_eq_true H2%bool_decide_eq_true]. intros <-%ok_inj. rewrite Hcount, H2.
    split_and!; [constructor|cbn [length]; lia|done].
  - destruct (bool_decide_reflect ((length pdu - 4 = 592 * count)%nat)) as [Hlen|]; cbn [negb]; [|done]. intros Hp.
    assert (Forall (safe_description conn) files ∧ length files = count) as [Hs Hn].
    { clear -Hp. revert files Hp. generalize (drop 4 pdu). induction count as [|n IH]; intros data files; cbn [parse_count]; [by intros <-%ok_inj|].
      pose proof (parse_safe data conn) as Hd. destruct (parse_file_descriptor data conn) as [[d rest]|]; [|done].
      destruct (parse_count n rest conn) as [ds|] eqn:Hds; [|done]. intros <-%ok_inj. destruct (IH _ _ Hds) as [? <-].
      split; [constructor; [apply Hd|done]|done]. }
    unfold FILE_DESCRIPTOR_SIZE. rewrite Hcount, Hn. split_and!; [done|lia|done].
Qed.
(** C16: Whatever bytes the other side sends as a list of copied files, what is read of
    them are files whose names stay below the directory they are put in: their pieces,
    between slashes, are neither empty nor made of dots, they hold no backslash and no
    NUL, and are not below the root of a drive ([X:/]); sizes, modes and times are of
    their width; and a list is read only if it has the length its count says. (A name
    like [X:a], which Windows would take to be relative to a drive, is accepted.) *)
Theorem parsed_descriptions_safe pdu conn files : parse_file_descriptors pdu conn = Ok files →
  Forall (safe_description conn) files
  ∧ length pdu = (4 + FILE_DESCRIPTOR_SIZE * length files)%nat ∧ of_le (take 4 pdu) = Z.of_nat (length files).
Proof. apply parsed_safe. Qed.
End safety.

(** ** Lists worked out *)
Definition plain_file (nm : string) (size_ : Z) : LocalFile :=
  mk_local (lit "/home/" ++ lit nm) None 0 (lit nm) (lit nm) size_ 1700000000123456789 false 33188 false false false false true.
Lemma plain_typed nm size_ : bool_decide (Forall scalar (lit nm)) = true → Int.in_u64 size_ → typed (plain_file nm size_).
Proof. intros H1%bool_decide_eq_true ?. by split. Qed.
Lemma pdu_roundtrip_witness : match build_file_list_pdu [plain_file "a/b" 5000000000] with
  | Ok pdu => length pdu = 596%nat
      ∧ parse_file_descriptors pdu 7 = Ok [mk_desc 7 (lit "a/b") File 1700000000123456700 5000000000 33188]
  | Err _ => False
  end.
Proof.
  assert (Forall typed [plain_file "a/b" 5000000000]) as Hs.
  { constructor; [|constructor]. apply plain_typed; [reflexivity|by split]. }
  pose proof (pdu_roundtrip 7 [plain_file "a/b" 5000000000] Hs ltac:(cbn; lia)) as H.
  assert (normalized (lit "a/b")) as Hnm by (apply validate_file_name_spec; reflexivity).
  destruct (build_file_list_pdu _) as [pdu|] eqn:Hp;
    [|destruct H; constructor; [split; [exact Hnm|vm_compute; lia]|constructor]].
  destruct H as (_ & Hr & _). split.
  - assert (match build_file_list_pdu [plain_file "a/b" 5000000000] with Ok p => length p | Err _ => 0%nat end = 596%nat) as Hl
      by (vm_compute; reflexivity).
    rewrite Hp in Hl. exact Hl.
  - rewrite Hr; [reflexivity|]. constructor; [exact Hnm|constructor].
Defined.
Definition sample_pdu : bytes := match build_file_list_pdu [plain_file "a/b" 5] with Ok p => p | Err _ => [] end.
Lemma parsed_descriptions_safe_witness :
  Forall (safe_description 1) [mk_desc 1 (lit "a/b") File 1700000000123456700 5 33188] ∧ length sample_pdu = 596%nat.
Proof.
  assert (parse_file_descriptors sample_pdu 1 = Ok [mk_desc 1 (lit "a/b") File 1700000000123456700 5 33188]) as Hp
    by (vm_compute; reflexivity).
  destruct (parsed_descriptions_safe sample_pdu 1 _ Hp) as (Hs & Hl & _).
  split; [exact Hs|]. rewrite Hl. reflexivity.
Defined.

(** A name that Windows takes to be relative to a drive is read. *)
Example drive_relative_name : match build_file_list_pdu [plain_file "C:payload" 1] with
  | Ok pdu => parse_file_descriptors pdu 7 = Ok [mk_desc 7 (lit "C:payload") File 1700000000123456700 1 33188]
  | Err _ => False end.
Proof. by vm_compute. Qed.
(** A file whose name has a backslash arrives below a directory; one with dots
    between backslashes makes the whole list be refused. *)
Example backslash_becomes_directory : match build_file_list_pdu [plain_file "a\b" 1] with
  | Ok pdu => parse_file_descriptors pdu 7 = Ok [mk_desc 7 (lit "a/b") File 1700000000123456700 1 33188]
  | Err _ => False end.
Proof. by vm_compute. Qed.
Example backslash_refuses_list : match build_file_list_pdu [plain_file "ok" 1; plain_file "a\..\b" 1] with
  | Ok pdu => is_ok (parse_file_descriptors pdu 7) = false
  | Err _ => False end.
Proof. by vm_compute. Qed.
