(* ===== verification/ClipServe.v ===== *)
(** * Copied files: the side that has them

    [src/libs/clipboard/src/platform/unix/local_file.rs] and [serv_files.rs] beside
    it: the list of the files below a selection, and serving their contents by the
    index in that list. Paths are text. *)
From S2P Require Import Prelude Paths FileTransfer ClipFormat.
Local Open Scope Z_scope.

(** ** The file system

    What [std::fs] answers; an entry of a directory may be an error. The
    files are not replaced while they are read, so that a handle reads what its
    path holds. *)
Record Metadata := mk_meta { md_len : Z; md_is_dir : bool; md_readonly : bool; md_modified : option Z; md_mode : Z }.
Record disk := mk_disk {
  metadata : str → option Metadata;
  read_dir : str → option (list (option str));
  open_file : str → option bytes
}.

(** [Path::strip_prefix], as text: the named pieces of the prefix are dropped, and
    separators and dots at both ends of what is left. *)
Definition void (w : str) : bool := bool_decide (w = []) || bool_decide (w = lit ".").
Fixpoint drop_named (n : nat) (pieces : list str) : list str :=
  match n, pieces with
  | O, _ | _, [] => pieces
  | S n', w :: ws => if void w then drop_named n ws else drop_named n' ws
  end.
Fixpoint trim_void (pieces : list str) : list str :=
  match pieces with
  | w :: ws => if void w then trim_void ws else pieces
  | [] => []
  end.
Fixpoint join_pieces (pieces : list str) : str :=
  match pieces with
  | [] => []
  | [w] => w
  | w :: ws => w ++ slash :: join_pieces ws
  end.
Definition named (c : component) : bool := match c with Normal _ | ParentDir => true | _ => false end.
Definition strip_prefix (p : str) (root : list component) : option str :=
  if bool_decide (root `prefix_of` components p)
  then Some (join_pieces (reverse (trim_void (reverse (trim_void
              (drop_named (length (filter (λ c, named c = true) root)) (split_on slash p)))))))
  else None.

(** ** [LocalFile] *)
Definition validated_descriptor_name (relative_root : list component) (path : str) : result CliprdrError str :=
  match strip_prefix path relative_root with
  | None => Err (InvalidRequest (lit "clipboard file path is outside its relative root"))
  | Some descriptor_name =>
      if starts_with descriptor_name [slash] then Err (InvalidRequest (lit "clipboard file path must be relative"))
      else match validate_file_name descriptor_name with
           | Err e => Err e
           | Ok _ =>
               if bool_decide (MAX_FILE_NAME_CODE_UNITS < length (encode_utf16 descriptor_name))%nat
               then Err descriptor_name_too_long_error else Ok descriptor_name
           end
  end.
(** The part of [try_open] after the checks. *)
Fixpoint trim_start_slash (s : str) : str :=
  match s with c :: s' => if (c =? slash)%N then trim_start_slash s' else s | [] => [] end.
Definition local_of (path descriptor_name : str) (mt : Metadata) : LocalFile :=
  let is_dir := md_is_dir mt in
  let read_only := md_readonly mt in
  let hidden := starts_with path (lit ".") in
  mk_local path None 0 (replace_char slash backslash (trim_start_slash path)) descriptor_name (md_len mt)
    (default 0 (md_modified mt)) is_dir (md_mode mt) read_only hidden false false
    (negb (is_dir || read_only || false || hidden || false)).
Definition try_open (d : disk) (relative_root : list component) (path : str) : result CliprdrError LocalFile :=
  match validated_descriptor_name relative_root path with
  | Err e => Err e
  | Ok descriptor_name =>
      match metadata d path with
      | None => Err (FileError path)
      | Some mt => Ok (local_of path descriptor_name mt)
      end
  end.

Definition load_handle (d : disk) (f : LocalFile) : result CliprdrError LocalFile :=
  if negb (is_dir f) && bool_decide (handle f = None)
  then match open_file d (local_path f) with
       | None => Err (FileError (local_path f))
       | Some _ => Ok (f <| handle := Some 0 |>)
       end
  else Ok f.
Definition invalidate_handle (f : LocalFile) : LocalFile := f <| offset := 0 |> <| handle := None |>.
(** [read_exact_at] into a buffer of [n] bytes; the file comes back with the error
    too, for it may have been changed by then. *)
Definition read_exact_at (d : disk) (n off : Z) (f : LocalFile) : LocalFile * result CliprdrError bytes :=
  match load_handle d f with
  | Err e => (f, Err e)
  | Ok f =>
      match handle f with
      | None => (f, Err (FileError (local_path f)))
      | Some pos =>
          let pos := if negb (off =? offset f) then off else pos in
          let held := default [] (open_file d (local_path f)) in
          if Z.of_nat (length held) <? pos + n then (invalidate_handle f, Err (FileError (local_path f)))
          else
            let new_offset := off + n in
            let f := f <| handle := Some (pos + n) |> <| offset := new_offset |> in
            let f := if local_size f <=? new_offset then f <| offset := 0 |> <| handle := None |> else f in
            (f, Ok (take (Z.to_nat n) (drop (Z.to_nat pos) held)))
      end
  end.

(** ** [construct_file_list]

    The recursion is bounded by [fuel], one for each directory on the way down. *)
Section construct.
Context (d : disk).
Abbreviation found := (list LocalFile * gset (list component))%type (only parsing).

Section entries.
Context (descend : str → found → option (result CliprdrError found)) (path : str).
Fixpoint visit_entries (dir : list (option str)) (st : found) : option (result CliprdrError found) :=
  match dir with
  | [] => Some (Ok st)
  | None :: _ => Some (Err (FileError path))
  | Some entry :: dir =>
      match descend (push path entry) st with
      | Some (Ok st) => visit_entries dir st
      | r => r
      end
  end.
End entries.
Fixpoint constr_file_lst (fuel : nat) (relative_root : list component) (path : str) (st : found)
  : option (result CliprdrError found) :=
  match fuel with
  | O => None
  | S fuel =>
      let '(file_list, visited) := st in
      if bool_decide (components path ∈ visited) then Some (Ok st)
      else
        let visited := {[components path]} ∪ visited in
        match try_open d relative_root path with
        | Err e => Some (Err e)
        | Ok local_file =>
            let st := (file_list ++ [local_file], visited) in
            match metadata d path with
            | None => Some (Err (FileError path))
            | Some mt =>
                if md_is_dir mt then
                  match read_dir d path with
                  | None => Some (Err (FileError path))
                  | Some dir => visit_entries (constr_file_lst fuel relative_root) path dir st
                  end
                else Some (Ok st)
            end
        end
  end.
Fixpoint construct_paths (fuel : nat) (paths : list str) (file_list : list LocalFile) : option (result CliprdrError (list LocalFile)) :=
  match paths with
  | [] => Some (Ok file_list)
  | path :: paths =>
      match parent (components path) with
      | None => Some (Err (InvalidRequest (lit "empty parent")))
      | Some relative_root =>
          match constr_file_lst fuel relative_root path (file_list, ∅) with
          | Some (Ok (file_list, _)) => construct_paths fuel paths file_list
          | Some (Err e) => Some (Err e)
          | None => None
          end
      end
  end.
Definition construct_file_list (fuel : nat) (paths : list str) : option (result CliprdrError (list LocalFile)) :=
  match paths with
  | [] => Some (Err (InvalidRequest (lit "empty file list")))
  | _ => construct_paths fuel paths []
  end.
End construct.

(** ** Messages

    [ClipboardFile] of [src/libs/clipboard/src/lib.rs]. *)
Inductive ClipboardFile :=
| NotifyCallback (type title text : str)
| MonitorReady
| FormatList (format_list : list (Z * str))
| FormatListResponse (msg_flags : Z)
| FormatDataRequest (requested_format_id : Z)
| FormatDataResponse (msg_flags : Z) (format_data : bytes)
| FileContentsRequest (stream_id list_index dw_flags n_position_low n_position_high cb_requested : Z)
    (have_clip_data_id : bool) (clip_data_id : Z)
| FileContentsResponse (msg_flags stream_id : Z) (requested_data : bytes)
| TryEmpty
| Files (files : list (str * Z)).

(** ** [ClipFiles] *)
Record FileSig := mk_sig { sig_size : Z; sig_mtime : option Z; sig_is_dir : bool }.
#[export] Instance FileSig_eq_dec : EqDecision FileSig.
Proof. solve_decision. Defined.
Definition fingerprint (d : disk) (files : list str) : list FileSig :=
  (λ s, match metadata d s with
        | Some mt => mk_sig (md_len mt) (md_modified mt) (md_is_dir mt)
        | None => mk_sig 0 None false
        end) <$> files.

Record ClipFiles := mk_clip {
  files : list str;
  sigs : list FileSig;
  file_list : list LocalFile;
  first_file_index : Z;
  files_pdu : bytes
}.
#[export] Instance ClipFiles_eta : Eta ClipFiles := λ r,
  mk_clip (files r) (sigs r) (file_list r) (first_file_index r) (files_pdu r).
Definition clip_default : ClipFiles := mk_clip [] [] [] 0 [].
Definition clear (c : ClipFiles) : ClipFiles := mk_clip [] [] [] Int.usize_max [].

(** [Path::is_dir] and [Path::is_file]. *)
Definition path_is_dir (d : disk) (p : str) : bool := match metadata d p with Some mt => md_is_dir mt | None => false end.
Definition path_is_file (d : disk) (p : str) : bool := match metadata d p with Some mt => negb (md_is_dir mt) | None => false end.

(** [ClipFiles::sync_files] and [sync_files], which skips it when nothing changed. *)
Definition rebuild (d : disk) (fuel : nat) (clipboard_files : list str) (sigs_ : list FileSig) (c : ClipFiles)
  : option (ClipFiles * result CliprdrError unit) :=
  match construct_file_list d fuel clipboard_files with
  | None => None
  | Some (Err e) => Some (c, Err e)
  | Some (Ok list) =>
      let c := c <| file_list := list |> in
      let c := c <| first_file_index := match list_find (λ f, path_is_dir d (local_path f) = false) list with
                                        | Some (i, _) => Z.of_nat i | None => Int.usize_max end |> in
      Some (c <| files := clipboard_files |> <| sigs := sigs_ |>, Ok tt)
  end.
Section sync.
Context `{WStrings}.
Definition sync_files (d : disk) (fuel : nat) (paths : list str) (c : ClipFiles) : option (ClipFiles * result CliprdrError unit) :=
  let current := fingerprint d paths in
  if bool_decide (files c = paths) && bool_decide (sigs c = current) && negb (existsb sig_is_dir current)
  then Some (c, Ok tt)
  else match rebuild d fuel paths current c with
       | None => None
       | Some (c, Err e) => Some (c, Err e)
       | Some (c, Ok _) =>
           match build_file_list_pdu (file_list c) with
           | Err e => Some (c, Err e)
           | Ok pdu => Some (c <| files_pdu := pdu |>, Ok tt)
           end
       end.
End sync.

(** ** Serving contents *)
Inductive FileContentsReq :=
| SizeReq (stream_id : Z) (file_idx : Z)
| RangeReq (stream_id : Z) (file_idx off len : Z).
(** [slice::get] at a [usize]. *)
Definition get_at {A} (l : list A) (i : Z) : option A := if i <? Z.of_nat (length l) then l !! Z.to_nat i else None.
Definition invalid_index (conn file_idx : Z) : CliprdrError :=
  InvalidRequest (lit "invalid file index " ++ fmt_Z file_idx ++ lit " requested from conn: " ++ fmt_Z conn).

Definition get_files_for_audit (d : disk) (c : ClipFiles) (request : FileContentsReq) : option ClipboardFile :=
  match request with
  | RangeReq _ file_idx off _ =>
      if (file_idx =? first_file_index c) && (off =? 0) then
        let files := omap (λ f, if path_is_file d (local_path f) then Some (local_path f, local_size f) else None) (file_list c) in
        if bool_decide (files = []) then None else Some (Files files)
      else None
  | SizeReq _ _ => None
  end.

(** The loop that opens the next file: only files are touched, directories passed. *)
Fixpoint hot_reload (d : disk) (l : list LocalFile) : list LocalFile * result CliprdrError unit :=
  match l with
  | [] => ([], Ok tt)
  | f :: l =>
      if is_dir f then let '(l, r) := hot_reload d l in (f :: l, r)
      else match load_handle d f with
           | Ok f => (f :: l, Ok tt)
           | Err e => (f :: l, Err e)
           end
  end.
(** What follows a successful answer for the file at [idx]. *)
Definition answered (d : disk) (idx : nat) (response : ClipboardFile) (c : ClipFiles) : ClipFiles * result CliprdrError ClipboardFile :=
  let '(rest, r) := hot_reload d (drop (S idx) (file_list c)) in
  let c := c <| file_list := take (S idx) (file_list c) ++ rest |> in
  (c, match r with Ok _ => Ok response | Err e => Err e end).

(** [isize::MAX]: a larger buffer panics. *)
Definition isize_max : Z := 2 ^ 63 - 1.
(** [serve_file_contents]; [None] is a panic. *)
Definition serve_file_contents (d : disk) (conn : Z) (request : FileContentsReq) (c : ClipFiles)
  : option (ClipFiles * result CliprdrError ClipboardFile) :=
  match request with
  | SizeReq stream_id file_idx =>
      match get_at (file_list c) file_idx with
      | None => Some (c, Err (invalid_index conn file_idx))
      | Some file => Some (answered d (Z.to_nat file_idx) (FileContentsResponse 1 stream_id (le_bytes 8 (local_size file))) c)
      end
  | RangeReq stream_id file_idx off len =>
      match get_at (file_list c) file_idx with
      | None => Some (c, Err (invalid_index conn file_idx))
      | Some file =>
          if local_size file <? off
          then Some (c, Err (InvalidRequest (lit "invalid reading offset requested from conn: " ++ fmt_Z conn)))
          else
            let read_size := if local_size file <? Int.wrap_u64 (off + len) then local_size file - off else len in
            if isize_max <? read_size then None
            else
              let '(file, r) := read_exact_at d read_size off file in
              let c := c <| file_list ::= <[Z.to_nat file_idx := file]> |> in
              match r with
              | Err e => Some (c, Err e)
              | Ok buf => Some (answered d (Z.to_nat file_idx) (FileContentsResponse 1 stream_id buf) c)
              end
      end
  end.
Definition read_file_contents (d : disk) (conn stream_id list_index dw_flags n_position_low n_position_high cb_requested : Z)
    (c : ClipFiles) : option (ClipFiles * list (result CliprdrError ClipboardFile)) :=
  let fcr :=
    if dw_flags =? 1 then Some (SizeReq stream_id (Int.wrap_u64 list_index))
    else if dw_flags =? 2 then
      let off := Z.lor (Int.wrap_u64 (Z.shiftl (Int.wrap_u64 n_position_high) 32)) (Int.wrap_u64 n_position_low) in
      let len := Int.wrap_u64 cb_requested in
      Some (RangeReq stream_id (Int.wrap_u64 list_index) off len)
    else None in
  match fcr with
  | None => Some (c, [Err (InvalidRequest (lit "got invalid FileContentsRequest, dw_flats: " ++ fmt_Z dw_flags))])
  | Some fcr =>
      let audit := match get_files_for_audit d c fcr with Some m => [Ok m] | None => [] end in
      match serve_file_contents d conn fcr c with
      | None => None
      | Some (c, r) => Some (c, audit ++ [r])
      end
  end.

(** ** Handles are only a cache *)
(** A file that is there, of the size it was listed with; sizes of files are signed
    to the system. *)
Definition held (d : disk) (f : LocalFile) (content : bytes) : Prop :=
  open_file d (local_path f) = Some content ∧ local_size f = Z.of_nat (length content).
Record file_ok (d : disk) (f : LocalFile) : Prop := {
  file_held : is_dir f = false → ∃ content, held d f content;
  file_size : 0 ≤ local_size f ≤ isize_max;
  file_handle : match handle f with Some pos => is_dir f = false ∧ pos = offset f | None => offset f = 0 end
}.
(** The same file, whatever is open of it. *)
Definition same_file (f g : LocalFile) : Prop :=
  f <| handle := None |> <| offset := 0 |> = g <| handle := None |> <| offset := 0 |>.
#[export] Instance same_file_equiv : Equivalence same_file.
Proof. unfold same_file. split; [done|by intros ? ? ->|by intros ? ? ? -> ->]. Qed.
Lemma same_file_fields f g : same_file f g →
  local_path f = local_path g ∧ local_size f = local_size g ∧ is_dir f = is_dir g.
Proof. destruct f, g. unfold same_file. cbn. intros [=]. by split_and!. Qed.
Lemma same_held d f g content : same_file f g → held d f content → held d g content.
Proof. unfold held. by intros (-> & -> & _)%same_file_fields. Qed.

(** An opened or closed handle leaves a file as it should be. *)
Lemma handled_ok d f g : file_ok d f → same_file f g →
  match handle g with Some pos => is_dir g = false ∧ pos = offset g | None => offset g = 0 end → file_ok d g.
Proof.
  intros [Hh Hs _] Hg Ho. pose proof (same_file_fields _ _ Hg) as (_ & Hsz & Hd).
  split; [|by rewrite <- Hsz|done]. rewrite <- Hd. intros Hf. destruct (Hh Hf) as [content Hc].
  exists content. by eapply same_held.
Qed.

Lemma load_handle_spec d f : file_ok d f → ∃ f', load_handle d f = Ok f' ∧ same_file f f' ∧ file_ok d f'
  ∧ (is_dir f = false → handle f' = Some (offset f')) ∧ (is_dir f = true → handle f' = None).
Proof.
  intros Hf. pose proof Hf as [Hh Hs Ho]. unfold load_handle. destruct (is_dir f) eqn:Hd; cbn [negb andb].
  - exists f. split_and!; try done. destruct (handle f) as [pos|]; [|done]. by destruct Ho as [? _].
  - case_bool_decide as Hn.
    + rewrite Hn in Ho. destruct (Hh eq_refl) as (content & Hc & _). rewrite Hc. eexists. split; [done|].
      split_and!; [by destruct f| |cbn; by rewrite Ho|done].
      eapply handled_ok; [exact Hf|by destruct f|]. cbn. by rewrite Ho.
    + exists f. split_and!; try done. intros _. destruct (handle f) as [pos|]; [|done]. by destruct Ho as [_ ->].
Qed.

(** The bytes asked for are read, wherever the handle stands. *)
Lemma read_exact_at_spec d n off f content : file_ok d f → is_dir f = false → held d f content →
  0 ≤ off → 0 ≤ n → off + n ≤ local_size f →
  let '(f', r) := read_exact_at d n off f in
  r = Ok (take (Z.to_nat n) (drop (Z.to_nat off) content)) ∧ same_file f f' ∧ file_ok d f'.
Proof.
  intros Hf Hd [Hc Hl] Hoff Hn Hle. unfold read_exact_at.
  destruct (load_handle_spec d f Hf) as (f1 & -> & Hs1 & Hf1 & Hh1 & _). rewrite (Hh1 Hd).
  pose proof (same_file_fields _ _ Hs1) as (Hp & Hsz & Hd1). rewrite <- Hp, Hc. change (default [] (Some content)) with content.
  assert ((if negb (off =? offset f1) then off else offset f1) = off) as ->.
  { destruct (Z.eqb_spec off (offset f1)); cbn [negb]; congruence. }
  destruct (Z.ltb_spec (Z.of_nat (length content)) (off + n)); [lia|]. split; [done|].
  assert (is_dir f1 = false) as Hdf by congruence.
  match goal with |- context [if _ then ?a else ?b] => set (closed := a); set (left_open := b) end.
  assert (same_file f closed) as Hcl by (rewrite Hs1; unfold closed; by destruct f1).
  assert (same_file f left_open) as Hop by (rewrite Hs1; unfold left_open; by destruct f1).
  destruct (local_size _ <=? off + n).
  - split; [done|]. by eapply handled_ok.
  - split; [done|]. by eapply handled_ok.
Qed.
Lemma read_directory d n off f : file_ok d f → is_dir f = true →
  read_exact_at d n off f = (f, Err (FileError (local_path f))).
Proof.
  intros Hf Hd. unfold read_exact_at, load_handle. rewrite Hd. cbn [negb andb].
  pose proof (file_handle _ _ Hf) as Ho. destruct (handle f); [|done]. destruct Ho. congruence.
Qed.

Lemma hot_reload_spec d l : Forall (file_ok d) l → ∃ l', hot_reload d l = (l', Ok tt) ∧ Forall2 same_file l l' ∧ Forall (file_ok d) l'.
Proof.
  induction 1 as [|f l Hf Hl IH]; cbn [hot_reload]; [by exists []|]. destruct (is_dir f) eqn:Hd.
  - destruct IH as (l' & -> & Hs & Hok). exists (f :: l'). split_and!; [done|by constructor|by constructor].
  - destruct (load_handle_spec d f Hf) as (f' & -> & Hs & Hok & _). exists (f' :: l).
    split_and!; [done| |by constructor]. constructor; [done|]. apply Forall_Forall2_diag. by apply Forall_true.
Qed.

(** ** What is to be answered *)
(** The answer to a request about a list of files, with nothing of handles; [None] is
    a panic. *)
Definition reference (d : disk) (conn : Z) (request : FileContentsReq) (l : list LocalFile) : option (result CliprdrError ClipboardFile) :=
  match request with
  | SizeReq stream_id i =>
      Some (match get_at l i with
            | None => Err (invalid_index conn i)
            | Some f => Ok (FileContentsResponse 1 stream_id (le_bytes 8 (local_size f)))
            end)
  | RangeReq stream_id i off len =>
      match get_at l i with
      | None => Some (Err (invalid_index conn i))
      | Some f =>
          if local_size f <? off then Some (Err (InvalidRequest (lit "invalid reading offset requested from conn: " ++ fmt_Z conn)))
          else if 2 ^ 64 <=? off + len then None
          else if is_dir f then Some (Err (FileError (local_path f)))
          else let content := default [] (open_file d (local_path f)) in
               Some (Ok (FileContentsResponse 1 stream_id
                 (take (Z.to_nat (Z.min len (local_size f - off))) (drop (Z.to_nat off) content))))
      end
  end.
Definition request_width (request : FileContentsReq) : Prop :=
  match request with
  | SizeReq _ i => Int.in_u64 i
  | RangeReq _ i off len => Int.in_u64 i ∧ Int.in_u64 off ∧ Int.in_u64 len
  end.

Definition list_ok (d : disk) (l0 : list LocalFile) (c : ClipFiles) : Prop :=
  Forall2 same_file l0 (file_list c) ∧ Forall (file_ok d) (file_list c).
Lemma get_at_same l l' i : Forall2 same_file l l' → match get_at l i, get_at l' i with
  | Some f, Some f' => same_file f f' | None, None => True | _, _ => False end.
Proof.
  intros Hl. unfold get_at. rewrite <- (Forall2_length _ _ _ Hl). destruct (_ <? _); [|done].
  destruct (l !! Z.to_nat i) eqn:E1, (l' !! Z.to_nat i) eqn:E2; [by eapply (Forall2_lookup_lr _ l l')| | |done].
  - apply (Forall2_lookup_l _ _ _ _ _ Hl) in E1 as (? & ? & _). congruence.
  - apply (Forall2_lookup_r _ _ _ _ _ Hl) in E2 as (? & ? & _). congruence.
Qed.
Lemma get_at_ok {A} (l : list A) i x : 0 ≤ i → get_at l i = Some x → l !! Z.to_nat i = Some x.
Proof. unfold get_at. by destruct (_ <? _). Qed.

Lemma answered_spec d l0 c idx response : list_ok d l0 c → ∃ c', answered d idx response c = (c', Ok response)
  ∧ list_ok d l0 c' ∧ c' = c <| file_list := file_list c' |>.
Proof.
  intros [Hs Hok]. unfold answered.
  destruct (hot_reload_spec d (drop (S idx) (file_list c))) as (l' & -> & Hs' & Hok'); [by apply Forall_drop|].
  eexists. split; [done|]. split; [|by destruct c]. split; cbn.
  - etrans; [exact Hs|]. rewrite <- (take_drop (S idx) (file_list c)) at 1. apply Forall2_app; [|done].
    apply Forall_Forall2_diag. by apply Forall_true.
  - apply Forall_app. split; [by apply Forall_take|done].
Qed.

Lemma serve_spec d conn request l0 c : list_ok d l0 c → request_width request →
  match serve_file_contents d conn request c with
  | None => reference d conn request l0 = None
  | Some (c', r) => reference d conn request l0 = Some r ∧ list_ok d l0 c' ∧ c' = c <| file_list := file_list c' |>
  end.
Proof.
  intros Hl Hw. pose proof Hl as [Hs Hok]. assert (c = c <| file_list := file_list c |>) as Hc by by destruct c.
  destruct request as [sid i|sid i off len]; cbn [serve_file_contents reference].
  - pose proof (get_at_same _ _ i Hs) as Hg. destruct (get_at l0 i) as [f0|], (get_at (file_list c) i) as [f|] eqn:Hf; try done.
    destruct (answered_spec d l0 c (Z.to_nat i) (FileContentsResponse 1 sid (le_bytes 8 (local_size f))) Hl) as (c' & -> & ? & ?).
    apply same_file_fields in Hg as (_ & -> & _). done.
  - destruct Hw as (Hi & Hoff & Hlen). pose proof (get_at_same _ _ i Hs) as Hg.
    destruct (get_at l0 i) as [f0|], (get_at (file_list c) i) as [f|] eqn:Hf; try done.
    apply same_file_fields in Hg as (-> & -> & ->). unfold Int.in_u64, Int.u64_max in *.
    destruct (Z.ltb_spec (local_size f) off); [done|].
    apply get_at_ok in Hf; [|lia]. pose proof (Forall_lookup_1 _ _ _ _ Hok Hf) as Hfok.
    pose proof (file_size _ _ Hfok) as Hsz. unfold isize_max in *.
    assert ((if local_size f <? Int.wrap_u64 (off + len) then local_size f - off else len)
      = if 2 ^ 64 <=? off + len then len else Z.min len (local_size f - off)) as ->.
    { unfold Int.wrap_u64. destruct (Z.leb_spec (2 ^ 64) (off + len)).
      - destruct (Z.ltb_spec (local_size f) ((off + len) mod 2 ^ 64)); lia.
      - rewrite Z.mod_small by lia. destruct (Z.ltb_spec (local_size f) (off + len)); lia. }
    destruct (Z.leb_spec (2 ^ 64) (off + len)).
    { destruct (Z.ltb_spec (2 ^ 63 - 1) len); [done|lia]. }
    destruct (Z.ltb_spec (2 ^ 63 - 1) (Z.min len (local_size f - off))); [lia|].
    destruct (is_dir f) eqn:Hd.
    { rewrite read_directory by done. cbv zeta.
      assert (c <| file_list ::= <[Z.to_nat i := f]> |> = c) as -> by (destruct c; cbn in *; by rewrite list_insert_id). done. }
    destruct (file_held _ _ Hfok Hd) as [content Hh]. pose proof Hh as [Ho Hsize].
    pose proof (read_exact_at_spec d (Z.min len (local_size f - off)) off f content Hfok Hd Hh ltac:(lia) ltac:(lia) ltac:(lia)) as Hr.
    destruct (read_exact_at _ _ _ _) as [f' r]. destruct Hr as (-> & Hsf & Hf'). rewrite Ho.
    change (default [] (Some content)) with content.
    assert (list_ok d l0 (c <| file_list ::= <[Z.to_nat i := f']> |>)) as Hl'.
    { split; cbn; [|by apply Forall_insert].
      etrans; [exact Hs|]. rewrite <- (list_insert_id _ _ _ Hf) at 1.
      apply Forall2_insert; [|done]. apply Forall_Forall2_diag. by apply Forall_true. }
    match goal with |- context [answered d ?k ?resp ?c1] => destruct (answered_spec d l0 c1 k resp Hl') as (c' & -> & ? & Hc') end.
    split; [done|]. split; [done|]. rewrite Hc'. by destruct c.
Qed.

(** Requests one after another, each of a connection. *)
Fixpoint serve_all (d : disk) (requests : list (Z * FileContentsReq)) (c : ClipFiles)
  : option (ClipFiles * list (result CliprdrError ClipboardFile)) :=
  match requests with
  | [] => Some (c, [])
  | (conn, request) :: requests =>
      match serve_file_contents d conn request c with
      | None => None
      | Some (c, r) =>
          match serve_all d requests c with None => None | Some (c, rs) => Some (c, r :: rs) end
      end
  end.
Fixpoint reference_all (d : disk) (requests : list (Z * FileContentsReq)) (l : list LocalFile)
  : option (list (result CliprdrError ClipboardFile)) :=
  match requests with
  | [] => Some []
  | (conn, request) :: requests =>
      match reference d conn request l with
      | None => None
      | Some r => match reference_all d requests l with None => None | Some rs => Some (r :: rs) end
      end
  end.

Lemma serve_all_spec d requests l0 c : list_ok d l0 c → Forall (λ q, request_width q.2) requests →
  match serve_all d requests c with
  | None => reference_all d requests l0 = None
  | Some (c', answers) => reference_all d requests l0 = Some answers
      ∧ Forall2 same_file l0 (file_list c') ∧ files_pdu c' = files_pdu c
  end.
Proof.
  intros Hl Hw. revert c Hl.
  induction Hw as [|[conn q] requests Hq _ IH]; intros c Hl; cbn [serve_all reference_all].
  { split_and!; [done|apply Hl|done]. }
  pose proof (serve_spec d conn q l0 c Hl Hq) as Hs. destruct (serve_file_contents d conn q c) as [[c' r]|]; [|by rewrite Hs].
  destruct Hs as (-> & Hl' & Hc). specialize (IH c' Hl'). destruct (serve_all d requests c') as [[c2 rs]|]; [|by rewrite IH].
  destruct IH as (-> & ? & Hp). split_and!; [done|done|]. rewrite Hp, Hc. done.
Qed.

(** C13: While the copied files stay as they are, the handles kept open, the positions
    kept with them and the files opened ahead change no answer: if every file of the list
    opens and has the size it was listed with, then, whatever is requested before, in
    whatever order and by whichever connections, each request is answered as by a
    function of the list and the files alone: the size, exactly the bytes of the range
    that the file has, or the error; and the process panics exactly when that function
    says so. A listed file that no longer opens spoils the answers for the one
    before it, which opens it ahead: [next_file_spoils]. *)
Theorem serving_is_stateless d requests c : Forall (file_ok d) (file_list c) →
  Forall (λ q, request_width q.2) requests →
  match serve_all d requests c with
  | None => reference_all d requests (file_list c) = None
  | Some (c', answers) => reference_all d requests (file_list c) = Some answers
      ∧ Forall2 same_file (file_list c) (file_list c') ∧ files_pdu c' = files_pdu c
  end.
Proof.
  intros Hok. apply serve_all_spec. split; [by apply Forall_Forall2_diag, Forall_true|done].
Qed.

(** ** Listing a directory *)
(** A file with its content, or a directory with what is in it. *)
Unset Elimination Schemes.
Inductive tree :=
| TFile (m : Metadata) (content : bytes)
| TDir (m : Metadata) (entries : list (str * tree)).
Set Elimination Schemes.
Lemma tree_ind (P : tree → Prop) :
  (∀ m content, P (TFile m content)) → (∀ m entries, Forall (λ e, P e.2) entries → P (TDir m entries)) → ∀ t, P t.
Proof.
  intros Hf Hd. fix IH 1. intros [m content|m entries]; [apply Hf|apply Hd].
  induction entries as [|[n t] entries IHl]; constructor; [apply IH|apply IHl].
Qed.
Definition meta_of (t : tree) : Metadata := match t with TFile m _ | TDir m _ => m end.
Definition entries_of (t : tree) : list (str * tree) := match t with TFile _ _ => [] | TDir _ es => es end.

Section on_entries.
Context {A : Type} (f : str → tree → A).
Definition on_entries (es : list (str * tree)) : list A := (λ e, f e.1 e.2) <$> es.
End on_entries.
Fixpoint depth (t : tree) : nat :=
  match t with TFile _ _ => 0 | TDir _ es => S (foldr Nat.max 0%nat (map (λ e, depth e.2) es)) end.
(** The names in a directory differ and are names. *)
Definition names_ok (es : list (str * tree)) : Prop := NoDup es.*1 ∧ Forall (λ e, plain e.1 ∧ slash ∉ e.1) es.
(** What the file system has at a path. *)
Fixpoint holds (d : disk) (p : str) (t : tree) : Prop :=
  match t with
  | TFile m content => metadata d p = Some m ∧ md_is_dir m = false ∧ open_file d p = Some content
      ∧ md_len m = Z.of_nat (length content) ∧ md_len m ≤ isize_max
  | TDir m es => metadata d p = Some m ∧ md_is_dir m = true ∧ read_dir d p = Some (Some <$> es.*1) ∧ names_ok es
      ∧ 0 ≤ md_len m ≤ isize_max
      ∧ foldr (λ e P, holds d (push p e.1) e.2 ∧ P) True es
  end.
(** The files of a tree in the order they are listed: [ws] names the tree from the
    directory the selection is in. *)
Fixpoint listing (p : str) (ws : list str) (t : tree) : list LocalFile :=
  local_of p (join_pieces ws) (meta_of t)
  :: match t with
     | TFile _ _ => []
     | TDir _ es => concat (map (λ e, listing (push p e.1) (ws ++ [e.1]) e.2) es)
     end.
Definition name_ok (nm : str) : Prop :=
  validate_file_name nm = Ok tt ∧ (length (encode_utf16 nm) ≤ MAX_FILE_NAME_CODE_UNITS)%nat.
Fixpoint tree_names_ok (ws : list str) (t : tree) : Prop :=
  name_ok (join_pieces ws)
  ∧ match t with TFile _ _ => True | TDir _ es => foldr (λ e P, tree_names_ok (ws ++ [e.1]) e.2 ∧ P) True es end.

(** A normalized absolute path with its pieces. *)
Definition absolute (p : str) (ws : list str) : Prop :=
  split_on slash p = [] :: ws ∧ ws ≠ [] ∧ Forall plain ws.

Lemma split_name n : slash ∉ n → split_on slash n = [n].
Proof.
  intros Hn. apply split_by_none. rewrite Forall_forall. intros c Hc. apply N.eqb_neq. by intros <-.
Qed.
Lemma absolute_push p ws n : absolute p ws → plain n → slash ∉ n → absolute (push p n) (ws ++ [n]).
Proof.
  intros (Hs & Hne & Hp) Hn Hsl. assert (push p n = p ++ slash :: n) as ->.
  { unfold push. destruct (starts_with n [slash]) eqn:Hst.
    - apply starts_with_spec in Hst as (t & ->). exfalso. apply Hsl. by left.
    - rewrite bool_decide_eq_false_2 by (intros ->; unfold split_on in Hs; cbn in Hs; congruence).
      rewrite bool_decide_eq_false_2; [done|]. intros [q ->]%last_Some.
      pose proof (split_on_app slash q []) as Hq. rewrite Hq in Hs. cbn in Hs.
      apply (f_equal last) in Hs. rewrite last_snoc in Hs. destruct ws as [|w ws] using rev_ind; [done|].
      change ([] :: ws ++ [w]) with (([] :: ws) ++ [w]) in Hs. rewrite last_snoc in Hs. injection Hs as <-.
      apply Forall_app in Hp as [_ Hp]. apply Forall_cons in Hp as [[? _] _]. done. }
  split_and!; [by rewrite split_on_app, Hs, split_name|by destruct ws|]. apply Forall_app. by split; [|constructor].
Qed.
Lemma omap_plain ws : Forall plain ws → omap piece ws = Normal <$> ws.
Proof. induction 1 as [|w ws Hw _ IH]; [done|]. cbn. rewrite piece_plain by done. by rewrite IH. Qed.
Lemma absolute_components p ws : absolute p ws → components p = RootDir :: (Normal <$> ws).
Proof.
  intros (Hs & Hne & Hp). unfold components. rewrite Hs. cbn [omap list_omap piece]. rewrite omap_plain by done.
  assert (starts_with p [slash] = true) as ->; [|done]. apply starts_with_spec.
  destruct p as [|c p]; [unfold split_on in Hs; cbn in Hs; congruence|].
  unfold split_on in Hs. cbn [split_by] in Hs. destruct (N.eqb_spec slash c) as [->|]; [by exists p|].
  destruct (split_by (N.eqb slash) p); congruence.
Qed.
Lemma void_plain w : plain w → void w = false.
Proof. intros (? & ? & _). unfold void. by rewrite !bool_decide_eq_false_2. Qed.
Lemma trim_void_plain ws : Forall plain ws → trim_void ws = ws.
Proof. destruct 1 as [|w ws Hw _]; [done|]. cbn. by rewrite void_plain. Qed.
Lemma drop_named_plain n ws : Forall plain ws → drop_named n ws = drop n ws.
Proof. intros Hp. revert n. induction Hp as [|w ws Hw _ IH]; intros [|n]; try done. cbn. by rewrite void_plain. Qed.
Lemma filter_named k ws : length (filter (λ c, named c = true) (RootDir :: (Normal <$> take k ws))) = (k `min` length ws)%nat.
Proof.
  rewrite filter_cons_False by done.
  assert (∀ l : list str, filter (λ c, named c = true) (Normal <$> l) = Normal <$> l) as ->.
  { intros l. induction l as [|w l IH]; [done|]. cbn [fmap list_fmap]. rewrite filter_cons_True by done. by rewrite IH. }
  by rewrite length_fmap, length_take.
Qed.
Lemma strip_absolute p ws k : absolute p ws → (k < length ws)%nat →
  strip_prefix p (RootDir :: (Normal <$> take k ws)) = Some (join_pieces (drop k ws)).
Proof.
  intros Ha Hk. unfold strip_prefix. rewrite (absolute_components _ _ Ha). destruct Ha as (-> & Hne & Hp).
  rewrite bool_decide_eq_true_2 by (rewrite fmap_take; apply prefix_cons, prefix_take). rewrite filter_named.
  replace (k `min` length ws)%nat with k by lia. do 2 f_equal.
  assert (Forall plain (drop k ws)) as Hd by by apply Forall_drop.
  assert (trim_void (drop_named k ([] :: ws)) = drop k ws) as ->.
  { destruct k as [|k]; cbn [drop_named void]; [cbn; by rewrite trim_void_plain|].
    cbn. change (match ws with [] => ws | w :: ws0 => if void w then drop_named (S k) ws0 else drop_named k ws0 end) with (drop_named (S k) ws).
    rewrite drop_named_plain by done. by rewrite trim_void_plain. }
  rewrite trim_void_plain by by apply Forall_reverse. by rewrite reverse_involutive.
Qed.

(** A path that extends no visited one is not visited. *)
Definition fresh_below (q : list component) (v : gset (list component)) : Prop := ∀ r, r ∈ v → ¬ q `prefix_of` r.
Definition visited_below (q : list component) (v v' : gset (list component)) : Prop :=
  ∀ r, r ∈ v' → r ∈ v ∨ q `prefix_of` r.

Section lists.
Context (d : disk) (root : list component).
Definition lists_at (fuel : nat) (p : str) (ws : list str) (k : nat) (t : tree) : Prop :=
  ∀ l v, fresh_below (components p) v →
  ∃ v', constr_file_lst d fuel root p (l, v) = Some (Ok (l ++ listing p (drop k ws) t, v'))
    ∧ visited_below (components p) v v'.

Lemma components_push_plain p ws n : absolute p ws → plain n → slash ∉ n →
  components (push p n) = components p ++ [Normal n].
Proof.
  intros Ha Hn Hs. rewrite (absolute_components _ _ (absolute_push _ _ _ Ha Hn Hs)), (absolute_components _ _ Ha).
  by rewrite fmap_app.
Qed.

(** The entries of a directory, none of which is below another. *)
Lemma visit_entries_spec fuel p ws k es l v : absolute p ws → (k < length ws)%nat → names_ok es →
  Forall (λ e, lists_at fuel (push p e.1) (ws ++ [e.1]) k e.2) es →
  Forall (λ e, fresh_below (components (push p e.1)) v) es →
  ∃ v', visit_entries (constr_file_lst d fuel root) p (Some <$> es.*1) (l, v)
      = Some (Ok (l ++ concat (map (λ e, listing (push p e.1) (drop k ws ++ [e.1]) e.2) es), v'))
    ∧ ∀ r, r ∈ v' → r ∈ v ∨ components p `prefix_of` r.
Proof.
  intros Ha Hk [Hnd Hnm] Hl. revert l v. induction es as [|[n t] es IH]; intros l v Hfr.
  { exists v. cbn. rewrite app_nil_r. split; [done|]. by left. }
  apply Forall_cons in Hl as [Ht Hl], Hnm as [[Hn Hsl] Hnm], Hfr as [Hf Hfr]. cbn [fst snd] in *.
  apply NoDup_cons in Hnd as [Hnin Hnd]. cbn [fmap list_fmap visit_entries fst map concat].
  destruct (Ht l v Hf) as (v1 & -> & Hv1). rewrite drop_app_le by lia.
  destruct (IH Hnd Hnm Hl (l ++ listing (push p n) (drop k ws ++ [n]) t) v1) as (v' & -> & Hv').
  { rewrite Forall_forall. intros e He r Hr Hpre. pose proof (proj1 (Forall_forall _ _) Hfr e He) as Hfe.
    pose proof (proj1 (Forall_forall _ _) Hnm e He) as [He1 He2].
    destruct (Hv1 r Hr) as [Hin|Hpre']; [by eapply Hfe|].
    rewrite (components_push_plain p ws) in Hpre, Hpre' by done.
    destruct Hpre as [x ->], Hpre' as [y Hy]. rewrite <- !app_assoc in Hy. apply app_inv_head in Hy. cbn in Hy.
    injection Hy as Hy _. apply Hnin. replace n with e.1 by congruence. apply list_elem_of_fmap. by exists e. }
  exists v'. rewrite <- app_assoc. split; [done|]. intros r Hr. destruct (Hv' r Hr) as [Hr1|?]; [|by right].
  destruct (Hv1 r Hr1) as [?|Hpre]; [by left|right]. rewrite (components_push_plain p ws) in Hpre by done.
  etrans; [|exact Hpre]. by apply prefix_app_r.
Qed.

Lemma foldr_and {A} (f : A → Prop) l : foldr (λ e P, f e ∧ P) True l ↔ Forall f l.
Proof. induction l as [|x l IH]; cbn; [by split|]. by rewrite Forall_cons, IH. Qed.
Lemma holds_entries p m es : holds d p (TDir m es) ↔
  metadata d p = Some m ∧ md_is_dir m = true ∧ read_dir d p = Some (Some <$> es.*1) ∧ names_ok es
  ∧ 0 ≤ md_len m ≤ isize_max ∧ Forall (λ e, holds d (push p e.1) e.2) es.
Proof. cbn [holds]. by rewrite (foldr_and (λ e, holds d (push p e.1) e.2)). Qed.
Lemma tree_names_entries ws m es : tree_names_ok ws (TDir m es) ↔
  name_ok (join_pieces ws) ∧ Forall (λ e, tree_names_ok (ws ++ [e.1]) e.2) es.
Proof. cbn [tree_names_ok]. by rewrite (foldr_and (λ e, tree_names_ok (ws ++ [e.1]) e.2)). Qed.
Lemma holds_meta p t : holds d p t → metadata d p = Some (meta_of t).
Proof. destruct t; cbn; by intros (? & _). Qed.
Lemma depth_entry m es e : e ∈ es → (depth e.2 < depth (TDir m es))%nat.
Proof.
  intros He. cbn [depth]. apply Nat.lt_succ_r. induction He as [e es|e e' es He IH]; cbn [map foldr]; lia.
Qed.

Lemma lists_tree t : ∀ fuel p ws k, absolute p ws → (k < length ws)%nat → root = RootDir :: (Normal <$> take k ws) →
  holds d p t → tree_names_ok (drop k ws) t → (depth t < fuel)%nat → lists_at fuel p ws k t.
Proof.
  induction t as [m content|m es IH] using tree_ind; intros fuel p ws k Ha Hk Hroot Hh Hn Hd l v Hfr;
    (destruct fuel as [|fuel]; [lia|]); cbn [constr_file_lst];
    rewrite bool_decide_eq_false_2 by (intros Hin; by apply (Hfr _ Hin)).
  all: assert (∀ t', holds d p t' → name_ok (join_pieces (drop k ws)) →
        try_open d root p = Ok (local_of p (join_pieces (drop k ws)) (meta_of t'))) as Hopen
    by (intros t' Ht' [Hv Hlen]; unfold try_open, validated_descriptor_name; rewrite Hroot, (strip_absolute _ _ _ Ha Hk), Hv;
        destruct (starts_with _ _) eqn:Hst;
        [apply validate_file_name_ok in Hv as [Hv _]; apply starts_with_spec in Hst as (y & Hy); rewrite Hy in Hv;
         unfold split_on in Hv; cbn in Hv; apply Forall_cons in Hv as [[? _] _]; done|];
        rewrite bool_decide_eq_false_2 by lia; by rewrite (holds_meta _ _ Ht')).
  - rewrite (Hopen _ Hh) by apply Hn. rewrite (holds_meta _ _ Hh). destruct Hh as (_ & Hdir & _). cbn [meta_of]. rewrite Hdir.
    eexists. split; [done|]. intros r Hr. set_solver.
  - rewrite (Hopen _ Hh) by apply Hn. rewrite (holds_meta _ _ Hh). cbn [meta_of].
    apply holds_entries in Hh as (_ & Hdir & Hrd & Hnames & _ & Hes). apply tree_names_entries in Hn as [_ Hn].
    rewrite Hdir, Hrd.
    destruct (visit_entries_spec fuel p ws k es (l ++ [local_of p (join_pieces (drop k ws)) m]) ({[components p]} ∪ v)) as (v' & -> & Hv'); try done.
    + rewrite Forall_forall in IH |- *. intros e He. pose proof (proj1 (Forall_forall _ _) (proj2 Hnames) e He) as [Hpl Hsl].
      apply (IH e He); [by apply absolute_push|rewrite length_app; lia|by rewrite take_app_le by lia| | |].
      * by apply (proj1 (Forall_forall _ _) Hes).
      * rewrite drop_app_le by lia. by apply (proj1 (Forall_forall _ _) Hn).
      * pose proof (depth_entry m es e He). lia.
    + rewrite Forall_forall. intros e He r Hr Hpre. pose proof (proj1 (Forall_forall _ _) (proj2 Hnames) e He) as [Hpl Hsl].
      rewrite (components_push_plain p ws) in Hpre by done. apply elem_of_union in Hr as [->%elem_of_singleton|Hr].
      * apply prefix_length in Hpre. rewrite length_app in Hpre. cbn in Hpre. lia.
      * apply (Hfr r Hr). etrans; [|exact Hpre]. by apply prefix_app_r.
    + exists v'. cbn [listing meta_of]. rewrite <- app_assoc. split; [done|].
      intros r Hr. destruct (Hv' r Hr) as [[->%elem_of_singleton|?]%elem_of_union|?]; [by right|by left|by right].
Qed.
End lists.

(** ** Selections *)
(** What the user copied: absolute paths with their pieces, and what is there. *)
Record selected := mk_selected { sel_path : str; sel_pieces : list str; sel_tree : tree }.
Definition selection_ok (d : disk) (s : selected) : Prop :=
  absolute (sel_path s) (sel_pieces s) ∧ holds d (sel_path s) (sel_tree s)
  ∧ tree_names_ok [default [] (last (sel_pieces s))] (sel_tree s).
(** The list of one selected path, and of all. *)
Definition selected_files (s : selected) : list LocalFile :=
  listing (sel_path s) [default [] (last (sel_pieces s))] (sel_tree s).
Definition selection_files (sel : list selected) : list LocalFile := concat (map selected_files sel).
Definition deep_enough (fuel : nat) (sel : list selected) : Prop := Forall (λ s, (depth (sel_tree s) < fuel)%nat) sel.

Lemma parent_snoc l w : parent (l ++ [Normal w]) = Some l.
Proof. unfold parent. rewrite reverse_snoc. cbn. by rewrite reverse_involutive. Qed.
Lemma drop_last {A} (ws : list A) a : ws ≠ [] → drop (length ws - 1) ws = [default a (last ws)].
Proof.
  intros Hne. destruct ws as [|w ws] using rev_ind; [done|]. rewrite length_app, last_snoc. cbn [length].
  by rewrite Nat.add_sub, drop_app_length.
Qed.
Lemma parent_absolute p ws : absolute p ws →
  parent (components p) = Some (RootDir :: (Normal <$> take (length ws - 1) ws)).
Proof.
  intros Ha. rewrite (absolute_components _ _ Ha). destruct Ha as (_ & Hne & _).
  destruct ws as [|w ws] using rev_ind; [done|]. rewrite length_app. cbn [length].
  rewrite Nat.add_sub, take_app_length, fmap_app. cbn [fmap list_fmap]. by rewrite app_comm_cons, parent_snoc.
Qed.

Lemma construct_selection d fuel sel l : Forall (selection_ok d) sel → deep_enough fuel sel →
  construct_paths d fuel (sel_path <$> sel) l = Some (Ok (l ++ selection_files sel)).
Proof.
  intros Hs Hd. revert l. induction sel as [|s sel IH]; intros l; cbn [fmap list_fmap construct_paths].
  { unfold selection_files. cbn. by rewrite app_nil_r. }
  apply Forall_cons in Hs as [(Ha & Hh & Hn) Hs], Hd as [Hd Hds].
  rewrite (parent_absolute _ _ Ha). pose proof Ha as (_ & Hne & _).
  assert (length (sel_pieces s) ≠ 0)%nat by by destruct (sel_pieces s).
  pose proof (drop_last (sel_pieces s) [] Hne) as Hdrop.
  destruct (lists_tree d _ (sel_tree s) fuel (sel_path s) (sel_pieces s) (length (sel_pieces s) - 1) Ha ltac:(lia) eq_refl Hh
    ltac:(by rewrite Hdrop) Hd l ∅) as (v' & -> & _); [intros r Hr; set_solver|].
  rewrite Hdrop, (IH Hs Hds). unfold selection_files. cbn [map concat]. by rewrite app_assoc.
Qed.

(** What is listed. *)
Lemma listing_ok d t : ∀ p ws, holds d p t → tree_names_ok ws t →
  Forall (λ f, nameable f ∧ file_ok d f) (listing p ws t).
Proof.
  induction t as [m content|m es IH] using tree_ind; intros p ws Hh Hn; cbn [listing].
  - destruct Hh as (Hm & Hdir & Ho & Hlen & Hmax), Hn as [[Hv Hn] _]. constructor; [|done]. split; [split; [by apply validate_file_name_spec|done]|].
    split; cbn; [|lia|done]. intros _. exists content. by split.
  - apply holds_entries in Hh as (Hm & Hdir & _ & _ & Hlen & Hes). apply tree_names_entries in Hn as [[Hv Hn] Hns].
    constructor.
    + split; [split; [by apply validate_file_name_spec|done]|]. split; cbn; [congruence|lia|done].
    + apply Forall_concat, Forall_map. rewrite Forall_forall in *. intros e He. by apply IH; auto.
Qed.
Lemma selection_files_ok d sel : Forall (selection_ok d) sel → Forall (λ f, nameable f ∧ file_ok d f) (selection_files sel).
Proof.
  intros Hs. apply Forall_concat, Forall_map. eapply Forall_impl; [exact Hs|].
  intros s (_ & Hh & Hn). by apply listing_ok.
Qed.

(** ** Listing ends *)
(** The system refuses paths that are too long, and entries are names. *)
Definition path_max (d : disk) (n : nat) : Prop := ∀ p, (n < length p)%nat → metadata d p = None.
Definition entries_named (d : disk) : Prop :=
  ∀ p dir n, read_dir d p = Some dir → Some n ∈ dir → n ≠ [] ∧ slash ∉ n.

(** Listing a selection ends, whatever links and loops of directories there are:
    it goes no deeper than the longest path the system takes, for each step down
    makes the path longer. *)
Theorem listing_terminates d n paths : path_max d n → entries_named d →
  is_Some (construct_file_list d (n + 2) paths).
Proof.
  intros Hmax Hent. assert (∀ fuel root p st, (n + 1 - length p < fuel)%nat → is_Some (constr_file_lst d fuel root p st)) as Hone.
  { induction fuel as [|fuel IH]; intros root p [l v] Hf; [lia|]. cbn [constr_file_lst].
    case_bool_decide; [by eexists|]. destruct (try_open d root p); [|by eexists].
    destruct (metadata d p) as [mt|] eqn:Hm; [|by eexists]. destruct (md_is_dir mt); [|by eexists].
    destruct (read_dir d p) as [dir|] eqn:Hd; [|by eexists].
    assert (length p ≤ n)%nat as Hle by (destruct (le_lt_dec (length p) n); [done|]; rewrite Hmax in Hm by done; done).
    assert (∀ e, Some e ∈ dir → e ≠ [] ∧ slash ∉ e) as Hn by eauto. clear Hd H.
    generalize (l ++ [a], {[components p]} ∪ v) as st. induction dir as [|[e|] dir IHd]; intros st; cbn [visit_entries]; [by eexists| |by eexists].
    destruct (Hn e ltac:(by left)) as [Hne Hsl].
    assert (length p < length (push p e))%nat as Hlonger.
    { unfold push. destruct (starts_with e [slash]) eqn:Hst.
      - apply starts_with_spec in Hst as (t & ->). exfalso. apply Hsl. by left.
      - destruct e; [done|]. case_match; rewrite length_app; cbn; lia. }
    destruct (IH root (push p e) st ltac:(lia)) as [[st'|] ->]; [|by eexists]. apply IHd. intros e' He'. apply Hn. by right. }
  destruct paths as [|p paths]; [by eexists|]. cbn [construct_file_list]. generalize ([] : list LocalFile) as l.
  revert p. induction paths as [|q paths IH]; intros p l; cbn [construct_paths];
    (destruct (parent _) as [root|]; [|by eexists]);
    destruct (Hone (n + 2)%nat root p (l, ∅) ltac:(lia)) as [[[l' v']|] ->]; try by eexists.
  apply IH.
Qed.

(** ** The list that was told is the list that is served *)
Lemma split_by_forall (P : char → Prop) q s : Forall P s → Forall (Forall P) (split_by q s).
Proof.
  induction 1 as [|c s Hc Hs IH]; cbn [split_by]; [by repeat constructor|]. destruct (q c); [by constructor|].
  destruct (split_by q s); [by repeat constructor|]. apply Forall_cons in IH as [? ?]. by repeat constructor.
Qed.
Lemma trim_void_suffix ws : trim_void ws `suffix_of` ws.
Proof. induction ws as [|w ws IH]; [done|]. cbn. destruct (void w); [by apply suffix_cons_r|done]. Qed.
Lemma drop_named_suffix n ws : drop_named n ws `suffix_of` ws.
Proof.
  revert n. induction ws as [|w ws IH]; intros [|n]; try done. cbn. destruct (void w); by apply suffix_cons_r.
Qed.
Lemma suffix_forall {A} (P : A → Prop) l k : l `suffix_of` k → Forall P k → Forall P l.
Proof. intros [y ->] H. by apply Forall_app in H as [_ ?]. Qed.
Lemma join_forall (P : char → Prop) ws : P slash → Forall (Forall P) ws → Forall P (join_pieces ws).
Proof.
  intros Hs. induction ws as [|w [|w' ws] IH]; intros H; [done|by apply Forall_cons in H as [? _]|].
  apply Forall_cons in H as [? ?]. change (join_pieces (w :: w' :: ws)) with (w ++ slash :: join_pieces (w' :: ws)).
  apply Forall_app. split; [done|]. constructor; [done|]. by apply IH.
Qed.
Lemma strip_prefix_forall (P : char → Prop) p root nm : P slash → Forall P p → strip_prefix p root = Some nm → Forall P nm.
Proof.
  intros Hs Hp. unfold strip_prefix. case_bool_decide; [|done]. intros [= <-]. apply join_forall; [done|].
  apply Forall_reverse. eapply suffix_forall; [apply trim_void_suffix|]. apply Forall_reverse.
  eapply suffix_forall; [apply trim_void_suffix|]. eapply suffix_forall; [apply drop_named_suffix|].
  by apply split_by_forall.
Qed.

(** Rust text has scalar values only. *)
Definition scalar_disk (d : disk) : Prop := ∀ p dir n, read_dir d p = Some dir → Some n ∈ dir → Forall scalar n.
Definition told (f : LocalFile) : Prop := nameable f ∧ Forall scalar (descriptor_name f).
Lemma try_open_told d root p f : Forall scalar p → try_open d root p = Ok f → told f.
Proof.
  intros Hp. unfold try_open, validated_descriptor_name. destruct (strip_prefix p root) as [nm|] eqn:Hs; [|done].
  destruct (starts_with nm _); [done|]. destruct (validate_file_name nm) as [[]|] eqn:Hv; [|done].
  case_bool_decide; [done|]. destruct (metadata d p); [|done]. intros <-%ok_inj.
  assert (length (encode_utf16 nm) ≤ MAX_FILE_NAME_CODE_UNITS)%nat by lia.
  split; [split; [by apply validate_file_name_spec|done]|]. eapply strip_prefix_forall; [|exact Hp|exact Hs]. left. by vm_compute.
Qed.
Lemma push_forall (P : char → Prop) p n : P slash → Forall P p → Forall P n → Forall P (push p n).
Proof. intros Hs Hp Hn. unfold push. repeat case_match; [done|by apply Forall_app|]. apply Forall_app. split; [done|by constructor]. Qed.
Lemma constr_told d : scalar_disk d → ∀ fuel root p l v r, Forall scalar p → Forall told l →
  constr_file_lst d fuel root p (l, v) = Some (Ok r) → Forall told r.1.
Proof.
  intros Hd. induction fuel as [|fuel IH]; intros root p l v r Hp Hl; [done|]. cbn [constr_file_lst].
  case_bool_decide; [by intros [= <-]|]. destruct (try_open d root p) as [f|] eqn:Ho; [|done].
  assert (Forall told (l ++ [f])) as Hl'.
  { apply Forall_app. split; [done|]. constructor; [|done]. by eapply try_open_told. }
  destruct (metadata d p) as [mt|]; [|done]. destruct (md_is_dir mt); [|by intros [= <-]].
  destruct (read_dir d p) as [dir|] eqn:Hr; [|done]. assert (∀ e, Some e ∈ dir → Forall scalar e) as Hdir by eauto.
  clear Hr. revert Hl'. generalize (l ++ [f]) ({[components p]} ∪ v). induction dir as [|[e|] dir IHd]; intros l1 v1 Hl1; cbn [visit_entries].
  - by intros [= <-].
  - destruct (constr_file_lst d fuel root (push p e) (l1, v1)) as [[[l2 v2]|]|] eqn:Hc; try done.
    apply IHd; [intros e' He'; apply Hdir; by right|]. eapply (IH _ _ _ _ _ _ Hl1 Hc).
    Unshelve. apply push_forall; [left; by vm_compute|done|]. apply Hdir. by left.
  - done.
Qed.
Lemma construct_told d fuel paths l : scalar_disk d → Forall (Forall scalar) paths →
  construct_file_list d fuel paths = Some (Ok l) → Forall told l.
Proof.
  intros Hd Hp. destruct paths as [|q qs]; [done|]. cbn [construct_file_list].
  assert (∀ l0, Forall told l0 → construct_paths d fuel (q :: qs) l0 = Some (Ok l) → Forall told l) as H; [|by apply H].
  induction Hp as [|p ps Hp _ IH]; intros l0 Hl0; cbn [construct_paths]; [by intros [= <-]|].
  destruct (parent _) as [root|]; [|done]. destruct (constr_file_lst _ _ _ _ _) as [[[l1 v1]|]|] eqn:Hc; try done.
  apply IH. by eapply (constr_told d Hd _ _ _ _ _ _ Hp Hl0 Hc).
Qed.

Section told.
Context `{WStringLaws}.
Lemma as_bin_same f g : same_file f g → as_bin f = as_bin g.
Proof. destruct f, g. unfold same_file. cbn. intros [=]. subst. done. Qed.
Lemma build_same l l' : Forall2 same_file l l' → build_file_list_pdu l = build_file_list_pdu l'.
Proof.
  intros Hl. unfold build_file_list_pdu. rewrite (Forall2_length _ _ _ Hl).
  assert (descriptors l = descriptors l') as ->; [|done].
  induction Hl as [|f g l l' Hf Hl IH]; [done|]. cbn [descriptors]. by rewrite (as_bin_same _ _ Hf), IH.
Qed.
Lemma build_told l : Forall told l → ∃ pdu, build_file_list_pdu l = Ok pdu.
Proof.
  intros Hl. unfold build_file_list_pdu. assert (∃ data, descriptors l = Ok data) as [data ->]; [|by eexists].
  induction Hl as [|f l [Hn Hs] _ [data IH]]; cbn [descriptors]; [by eexists|].
  pose proof (put_name_spec f Hs) as Hp. unfold as_bin. destruct (put_descriptor_name f); [|done].
  rewrite IH. by eexists.
Qed.

(** What happens to the copied files: the clipboard is read, emptied, served from. *)
Inductive clip_event :=
| SyncFiles (d : disk) (fuel : nat) (paths : list str)
| ClearFiles
| ServeFile (d : disk) (conn : Z) (request : FileContentsReq).
Definition clip_step (e : clip_event) (c : ClipFiles) : option ClipFiles :=
  match e with
  | SyncFiles d fuel paths => fst <$> sync_files d fuel paths c
  | ClearFiles => Some (clear c)
  | ServeFile d conn request => fst <$> serve_file_contents d conn request c
  end.
Definition event_text (e : clip_event) : Prop :=
  match e with SyncFiles d _ paths => scalar_disk d ∧ Forall (Forall scalar) paths | _ => True end.
Inductive clip_history : ClipFiles → Prop :=
| clip_start : clip_history clip_default
| clip_more e c c' : clip_history c → event_text e → clip_step e c = Some c' → clip_history c'.

(** Serving keeps the files, whatever the files of the system have become. *)
Lemma load_same d f f' : load_handle d f = Ok f' → same_file f f'.
Proof.
  unfold load_handle. destruct (_ && _); [|by intros <-%ok_inj]. destruct (open_file d _); [|done]. intros <-%ok_inj.
  by destruct f.
Qed.
Lemma read_same d n off f : same_file f (read_exact_at d n off f).1.
Proof.
  unfold read_exact_at. destruct (load_handle d f) as [f'|] eqn:Hl; [|done]. rewrite (load_same _ _ _ Hl).
  destruct (handle f') as [pos|]; [|done]. cbv zeta. destruct f'. repeat case_match; done.
Qed.
Lemma hot_same d l : Forall2 same_file l (hot_reload d l).1.
Proof.
  induction l as [|f l IH]; cbn [hot_reload]; [done|]. destruct (is_dir f).
  - destruct (hot_reload d l) as [l' r]. by constructor.
  - destruct (load_handle d f) as [f'|] eqn:Hl; (constructor; [|by apply Forall_Forall2_diag, Forall_true]); [|done].
    by apply (load_same d).
Qed.
Lemma answered_same d idx response c : let c' := (answered d idx response c).1 in
  Forall2 same_file (file_list c) (file_list c') ∧ files_pdu c' = files_pdu c.
Proof.
  unfold answered. pose proof (hot_same d (drop (S idx) (file_list c))) as Hh. destruct (hot_reload _ _) as [rest r].
  split; [|done]. cbn in *. rewrite <- (take_drop (S idx) (file_list c)) at 1.
  apply Forall2_app; [|done]. by apply Forall_Forall2_diag, Forall_true.
Qed.
Lemma serve_same d conn request c c' r : serve_file_contents d conn request c = Some (c', r) →
  Forall2 same_file (file_list c) (file_list c') ∧ files_pdu c' = files_pdu c.
Proof.
  assert (Forall2 same_file (file_list c) (file_list c) ∧ files_pdu c = files_pdu c) as Hid
    by (split; [by apply Forall_Forall2_diag, Forall_true|done]).
  destruct request as [sid i|sid i off len]; cbn [serve_file_contents]; destruct (get_at (file_list c) i) as [f|] eqn:Hf;
    try by intros [= <- _].
  - intros Heq. injection Heq as Heq. match type of Heq with answered d ?k ?resp c = _ => pose proof (answered_same d k resp c) as Ha end.
    rewrite Heq in Ha. exact Ha.
  - destruct (local_size f <? off); [by intros [= <- _]|]. cbv zeta. destruct (isize_max <? _); [done|].
    match goal with |- context [read_exact_at d ?n off f] => pose proof (read_same d n off f) as Hs; destruct (read_exact_at d n off f) as [f' r'] end.
    assert (file_list c !! Z.to_nat i = Some f) as Hi by (unfold get_at in Hf; by destruct (i <? _)).
    assert (Forall2 same_file (file_list c) (<[Z.to_nat i := f']> (file_list c))) as Hins.
    { rewrite <- (list_insert_id _ _ _ Hi) at 1. apply Forall2_insert; [apply Hid|done]. }
    destruct r' as [buf|e]; [|by intros [= <- _]].
    intros Heq. injection Heq as Heq. match type of Heq with answered d ?k ?resp ?c1 = _ => pose proof (answered_same d k resp c1) as Ha end.
    rewrite Heq in Ha. cbn [fst] in Ha. destruct Ha as [H1 ->]. split; [|done]. by etrans; [exact Hins|].
Qed.

(** The list the other side was told is the list its indices are looked up in: in
    every history of copies, emptied clipboards and requests, the descriptors kept for
    sending are those of the files kept for serving, in their order, or both are empty;
    and a selection that was listed can always be told. *)
Theorem told_is_served c : clip_history c →
  (files_pdu c = [] ∧ file_list c = []) ∨ build_file_list_pdu (file_list c) = Ok (files_pdu c).
Proof.
  induction 1 as [|e c c' Hh IH Ht Hs]; [by left|]. destruct e as [d fuel paths| |d conn request]; cbn [clip_step event_text] in *.
  - destruct Ht as [Hd Hp]. unfold sync_files in Hs. case_match; [by simplify_eq/=|].
    unfold rebuild in Hs. destruct (construct_file_list d fuel paths) as [[l|err]|] eqn:Hc; [|by simplify_eq/=|done].
    destruct (build_told l (construct_told _ _ _ _ Hd Hp Hc)) as [pdu Hpdu]. cbn in Hs. rewrite Hpdu in Hs.
    right. by simplify_eq/=.
  - left. by simplify_eq/=.
  - destruct (serve_file_contents d conn request c) as [[c2 r]|] eqn:He; [|done]. simplify_eq/=.
    apply serve_same in He as [Hsame ->]. destruct IH as [[-> Hl]|<-].
    + left. rewrite Hl in Hsame. by inversion Hsame.
    + right. by rewrite (build_same _ _ Hsame).
Qed.
End told.

(** ** Worked out *)
Definition entry_named {A} (n : str) (es : list (str * A)) : option A := (λ r, r.2.2) <$> list_find (λ e, e.1 = n) es.
(** A file system that has these at these paths. *)
Definition disk_of (es : list (str * tree)) : disk :=
  mk_disk (λ p, meta_of <$> entry_named p es)
    (λ p, match entry_named p es with Some (TDir _ es) => Some (Some <$> es.*1) | _ => None end)
    (λ p, match entry_named p es with Some (TFile _ content) => Some content | _ => None end).
Lemma entry_named_elem {A} n (es : list (str * A)) x : entry_named n es = Some x → (n, x) ∈ es.
Proof.
  intros ([i [n' y]] & (Hi & Hn & _)%list_find_Some & Hx)%fmap_Some. cbn in *. subst. by eapply list_elem_of_lookup_2.
Qed.
Lemma scalar_disk_of es : forallb (λ e, forallb (λ n, forallb (λ c, bool_decide (scalar c)) n) (entries_of e.2).*1) es = true → scalar_disk (disk_of es).
Proof.
  intros Hes p dir n Hr Hn. cbn in Hr. destruct (entry_named p es) as [[|m es']|] eqn:He; try done. injection Hr as <-.
  apply entry_named_elem in He. apply list_elem_of_fmap in Hn as (n' & [= <-] & Hn).
  rewrite forallb_forall in Hes. apply list_elem_of_In in He, Hn. specialize (Hes _ He). rewrite forallb_forall in Hes. specialize (Hes _ Hn).
  rewrite forallb_forall in Hes. rewrite Forall_forall. intros c Hc%list_elem_of_In. apply (bool_decide_eq_true (scalar c)). by apply Hes.
Qed.

Definition sample_file (content : string) : tree :=
  TFile (mk_meta (Z.of_nat (String.length content)) false false (Some 1000000000) 33188) (String.list_byte_of_string content).
Definition sample_dir (es : list (str * tree)) : tree := TDir (mk_meta 4096 true false (Some 1000000000) 16877) es.
Definition sample_docs : tree := sample_dir [(lit "a", sample_file "hello"); (lit "sub", sample_dir [])].
Definition sample_disk : disk := disk_of
  [(lit "/u/docs", sample_docs); (lit "/u/docs/a", sample_file "hello"); (lit "/u/docs/sub", sample_dir []); (lit "/u/b", sample_file "world!")].
Definition sample_sel : list selected :=
  [mk_selected (lit "/u/docs") [lit "u"; lit "docs"] sample_docs; mk_selected (lit "/u/b") [lit "u"; lit "b"] (sample_file "world!")].
Definition sample_clip : ClipFiles :=
  match sync_files sample_disk 3 (sel_path <$> sample_sel) clip_default with Some (c, _) => c | None => clip_default end.

Lemma sample_file_ok : Forall (file_ok sample_disk) (file_list sample_clip).
Proof.
  change (file_list sample_clip) with (selection_files sample_sel). unfold selection_files. cbn.
  repeat (constructor; [split; cbn; [|unfold isize_max; lia|reflexivity]|]); try constructor.
  - done.
  - intros _. by eexists.
  - done.
  - intros _. by eexists.
Qed.
Lemma serving_is_stateless_witness :
  let requests := [(1, RangeReq 5 1 1 3); (2, SizeReq 6 3); (1, RangeReq 7 1 0 9); (2, RangeReq 8 0 0 1)] in
  match serve_all sample_disk requests sample_clip with
  | Some (_, answers) => answers = [Ok (FileContentsResponse 1 5 (String.list_byte_of_string "ell")); Ok (FileContentsResponse 1 6 (le_bytes 8 6));
                                    Ok (FileContentsResponse 1 7 (String.list_byte_of_string "hello")); Err (FileError (lit "/u/docs"))]
  | None => False
  end.
Proof.
  intros requests.
  assert (Forall (λ q : Z * FileContentsReq, request_width q.2) requests) as Hw
    by (unfold requests; repeat constructor; cbn; unfold Int.in_u64, Int.u64_max; lia).
  pose proof (serving_is_stateless sample_disk requests sample_clip sample_file_ok Hw) as H.
  assert (reference_all sample_disk requests (file_list sample_clip) = Some
    [Ok (FileContentsResponse 1 5 (String.list_byte_of_string "ell")); Ok (FileContentsResponse 1 6 (le_bytes 8 6));
     Ok (FileContentsResponse 1 7 (String.list_byte_of_string "hello")); Err (FileError (lit "/u/docs"))]) as Hr by (vm_compute; reflexivity).
  rewrite Hr in H. destruct (serve_all sample_disk requests sample_clip) as [[c answers]|]; [|discriminate H].
  destruct H as [H _]. congruence.
Defined.

(** A directory that is linked from within itself. *)
Definition loop_disk : disk :=
  mk_disk (λ p, if bool_decide (length p ≤ 12)%nat then Some (mk_meta 4096 true false None 16877) else None)
    (λ p, Some [Some (lit "l")]) (λ p, None).
Lemma listing_terminates_witness : is_Some (construct_file_list loop_disk (12 + 2) [lit "/l"]).
Proof.
  apply listing_terminates.
  - intros p Hp. cbn. rewrite bool_decide_eq_false_2 by lia. reflexivity.
  - intros p dir n Hd Hn. injection Hd as <-. apply list_elem_of_singleton in Hn. injection Hn as ->.
    split; [discriminate|]. refine (bool_decide_eq_true_1 (slash ∉ lit "l") _). vm_compute. reflexivity.
Defined.
(** The paths seen before do not stop it: it goes down until the system refuses the
    path, and the listing fails. *)
Example loop_goes_on : construct_file_list loop_disk 14 [lit "/l"] = Some (Err (FileError (lit "/l/l/l/l/l/l/l"))).
Proof. by vm_compute. Qed.

Lemma told_is_served_witness : let c := match serve_file_contents sample_disk 1 (RangeReq 5 1 0 2) sample_clip with
                                       | Some (c, _) => c | None => clip_default end in
  file_list c ≠ [] ∧ build_file_list_pdu (file_list c) = Ok (files_pdu c).
Proof.
  intros c. assert (file_list c ≠ []) as Hne by (vm_compute; discriminate). split; [exact Hne|].
  destruct (told_is_served c) as [[_ H]|H]; [|contradiction|exact H].
  apply (clip_more (ServeFile sample_disk 1 (RangeReq 5 1 0 2)) sample_clip); [|exact I|vm_compute; reflexivity].
  apply (clip_more (SyncFiles sample_disk 3 (sel_path <$> sample_sel)) clip_default); [constructor| |vm_compute; reflexivity].
  split; [apply scalar_disk_of; vm_compute; reflexivity|].
  repeat constructor; unfold scalar; cbn; lia.
Defined.

(** A length that is negative on the wire makes the sum of offset and length wrap, and
    the buffer is refused by a panic. *)
Example negative_length_panics : read_file_contents sample_disk 1 5 1 2 1 0 (-1) sample_clip = None.
Proof. by vm_compute. Qed.
(** A file that was read is not sent when the next one cannot be opened. *)
Example next_file_spoils : let d := disk_of [(lit "/u/a", sample_file "hello"); (lit "/u/b", sample_dir [])] in
  let c := clip_default <| file_list := [local_of (lit "/u/a") (lit "a") (mk_meta 5 false false None 33188);
                                         local_of (lit "/u/b") (lit "b") (mk_meta 6 false false None 33188)] |> in
  snd <$> serve_file_contents d 1 (RangeReq 5 0 0 5) c = Some (Err (FileError (lit "/u/b"))).
Proof. by vm_compute. Qed.
(** The dot of a hidden file is looked for at the start of the whole path. *)
Lemma never_hidden d root p ws f : absolute p ws → try_open d root p = Ok f → hidden f = false.
Proof.
  intros Ha. pose proof (absolute_components _ _ Ha) as Hc. unfold try_open. destruct (validated_descriptor_name root p); [|done].
  destruct (metadata d p) as [mt|]; [|done]. intros <-%ok_inj. cbn. destruct (starts_with p (lit ".")) eqn:Hs; [|done].
  apply starts_with_spec in Hs as (t & ->). destruct Ha as (Hsp & _). unfold split_on in Hsp.
  change (lit "." ++ t) with (chr "." :: t) in Hsp. cbn [split_by] in Hsp. change (slash =? chr ".")%N with false in Hsp.
  by destruct (split_by _ t).
Qed.
