(* ===== verification/ClipMount.v ===== *)
(** * Copied files: the side that pastes them

    [src/libs/clipboard/src/platform/unix/fuse/cs.rs]: the read-only file system
    made of a list of descriptions, whose reads are requests to the other side; and
    what the two sides do together. *)
From stdpp Require Import sorting.
From S2P Require Import Prelude Paths FileTransfer ClipFormat ClipServe.
Local Open Scope Z_scope.

Definition READ_RETRY : nat := 3.
Definition FUSE_ROOT_ID : nat := 1.
Definition MAX_NAME_LEN : nat := 255.

(** ** Nodes

    Inodes count from one; the times of the system are left out of the
    attributes. *)
Record InodeAttributes := mk_attr {
  inode : nat;
  attr_size : Z;
  attr_modified : Z;
  attr_kind : FileType;
  attr_perm : Z
}.
Record FuseNode := mk_node {
  node_conn : Z;
  index : nat;
  node_parent : option nat;
  node_name : str;
  attributes : InodeAttributes;
  children : list nat;
  handlers : list Z;
  gc : bool
}.
#[export] Instance FuseNode_eta : Eta FuseNode := λ r,
  mk_node (node_conn r) (index r) (node_parent r) (node_name r) (attributes r) (children r) (handlers r) (gc r).
#[export] Instance FileType_eq_dec : EqDecision FileType.
Proof. solve_decision. Defined.

Definition attributes_of (ino : nat) (d : FileDescription) : InodeAttributes :=
  mk_attr ino (size d) (last_modified d) (kind d) (perm d).
Definition from_description (ino : nat) (d : FileDescription) : FuseNode :=
  mk_node (conn_id d) (ino - 2) None (name d) (attributes_of ino d) [] [] false.
Definition new_root : FuseNode :=
  mk_node 0 0 None (lit "/") (mk_attr FUSE_ROOT_ID 0 0 Directory PERM_RWX) [] [] false.
Definition add_child (ino : nat) (n : FuseNode) : FuseNode := n <| children ::= λ c, c ++ [ino] |>.

(** [Path::file_name] *)
Definition file_name (p : str) : option str :=
  match last (components p) with Some (Normal w) => Some w | _ => None end.

(** [build_tree]: the nodes so far, and the inode of each directory by its path. *)
Definition roots : gmap (list component) nat := <[[] := FUSE_ROOT_ID]> {[ [RootDir] := FUSE_ROOT_ID ]}.
Definition insert_file (file : FileDescription) (st : list FuseNode * gmap (list component) nat)
  : result CliprdrError (list FuseNode * gmap (list component) nat) :=
  let '(tree_list, sub_root_map) := st in
  let ino := (length tree_list + FUSE_ROOT_ID)%nat in
  let parent_inode := match parent (components (name file)) with
                      | Some parent => default FUSE_ROOT_ID (sub_root_map !! parent)
                      | None => FUSE_ROOT_ID
                      end in
  let tree_list := alter (add_child ino) (parent_inode - 1)%nat tree_list in
  match file_name (name file) with
  | None => Err (FileError (name file))
  | Some base_name =>
      let sub_root_map := if decide (kind file = Directory) then <[components (name file) := ino]> sub_root_map else sub_root_map in
      let desc := mk_desc (conn_id file) base_name (kind file) (last_modified file) (size file) (perm file) in
      let fuse_node := (from_description ino desc) <| node_parent := Some parent_inode |> in
      Ok (tree_list ++ [fuse_node], sub_root_map)
  end.
Fixpoint insert_files (files : list FileDescription) (st : list FuseNode * gmap (list component) nat)
  : result CliprdrError (list FuseNode) :=
  match files with
  | [] => Ok st.1
  | file :: files => match insert_file file st with Ok st => insert_files files st | Err e => Err e end
  end.
Definition build_tree (files : list FileDescription) : result CliprdrError (list FuseNode) :=
  insert_files files ([new_root], roots).

(** ** The file system *)
Record FuseServer := mk_server { generation : Z; nodes : list FuseNode; file_handle_counter : Z }.
#[export] Instance FuseServer_eta : Eta FuseServer := λ r, mk_server (generation r) (nodes r) (file_handle_counter r).
Definition server_new : FuseServer := mk_server 0 [] 0.
Definition load_file_list (files : list FileDescription) (s : FuseServer) : FuseServer * result CliprdrError unit :=
  match build_tree files with
  | Ok tree => (s <| nodes := tree |> <| generation ::= λ g, Int.wrap_u64 (g + 1) |>, Ok tt)
  | Err e => (s, Err e)
  end.
(** [list_root]; [None] is a panic: there is no root before a list is loaded or the
    file system is mounted. *)
Fixpoint child_names (s : FuseServer) (inodes : list nat) : option (list str) :=
  match inodes with
  | [] => Some []
  | i :: inodes =>
      match nodes s !! (i - 1)%nat, child_names s inodes with
      | Some n, Some names => Some (node_name n :: names)
      | _, _ => None
      end
  end.
Definition list_root (s : FuseServer) : option (list str) :=
  match nodes s !! 0%nat with None => None | Some root => child_names s (children root) end.
Definition init (s : FuseServer) : FuseServer := if bool_decide (nodes s = []) then s <| nodes := [new_root] |> else s.

Inductive errno := ENOENT | ENOTDIR | ENAMETOOLONG | EBUSY | EBADF | ENFILE | EIO.
(** [files.get(ino as usize - 1)]: the subtraction wraps for inode 0. *)
Definition node_at (s : FuseServer) (ino : nat) : option FuseNode :=
  match ino with O => None | S i => nodes s !! i end.

(** The loop over the children, which are there: see [peer_list_mounts]. *)
Fixpoint find_child (s : FuseServer) (name : str) (inodes : list nat) : result errno InodeAttributes :=
  match inodes with
  | [] => Err ENOENT
  | i :: inodes =>
      match node_at s i with
      | None => Err ENOENT
      | Some child => if bool_decide (node_name child = name) then Ok (attributes child) else find_child s name inodes
      end
  end.
Definition lookup_name (parent : nat) (name : str) (s : FuseServer) : result errno InodeAttributes :=
  if bool_decide (MAX_NAME_LEN < byte_len name)%nat then Err ENAMETOOLONG
  else match node_at s parent with
       | None => Err ENOENT
       | Some parent_entry =>
           if negb (bool_decide (attr_kind (attributes parent_entry) = Directory)) then Err ENOTDIR
           else find_child s name (children parent_entry)
       end.
Definition getattr (ino : nat) (s : FuseServer) : result errno InodeAttributes :=
  match node_at s ino with Some entry => Ok (attributes entry) | None => Err ENOENT end.

(** [statfs]: the blocks the files take. *)
Definition BLOCK_SIZE : Z := 4 * 1024 * 1024.
Definition statfs_blocks (s : FuseServer) : Z :=
  foldr (λ n acc, let sz := attr_size (attributes n) in
                  (sz / BLOCK_SIZE + (if negb (sz mod BLOCK_SIZE =? 0) then 1 else 0)) + acc) 0 (nodes s).

(** [FileHandles]: a vector kept sorted, in which [binary_search] finds what is
    there. *)
Definition have_handler (fh : Z) (n : FuseNode) : bool := bool_decide (fh ∈ handlers n).
Definition add_handler (fh : Z) (n : FuseNode) : FuseNode := n <| handlers ::= λ l, l ++ [fh] |>.
Definition unregister_handler (fh : Z) (n : FuseNode) : FuseNode := n <| handlers ::= filter (λ h, h ≠ fh) |>.
Definition update_node (ino : nat) (f : FuseNode → FuseNode) (s : FuseServer) : FuseServer :=
  s <| nodes ::= alter f (ino - 1)%nat |>.

(** [opendir] and [open] *)
Definition open_node (wanted : FileType) (error : errno) (ino : nat) (s : FuseServer) : FuseServer * result errno Z :=
  match node_at s ino with
  | None => (s, Err ENOENT)
  | Some entry =>
      if negb (bool_decide (attr_kind (attributes entry) = wanted)) then (s, Err error)
      else if gc entry then (s, Err EBUSY)
      else let fh := file_handle_counter s in
           ((update_node ino (add_handler fh) s) <| file_handle_counter := Int.wrap_u64 (fh + 1) |>, Ok fh)
  end.
Definition opendir : nat → FuseServer → FuseServer * result errno Z := open_node Directory ENOTDIR.
Definition open : nat → FuseServer → FuseServer * result errno Z := open_node File ENFILE.
Definition release (ino : nat) (fh : Z) (s : FuseServer) : FuseServer * result errno unit :=
  match node_at s ino with
  | None => (s, Err ENOENT)
  | Some entry => if have_handler fh entry then (update_node ino (unregister_handler fh) s, Ok tt) else (s, Err EBADF)
  end.
Definition releasedir (ino : nat) (fh : Z) (s : FuseServer) : FuseServer * result errno unit :=
  match node_at s ino with
  | None => (s, Err ENOENT)
  | Some entry =>
      if negb (bool_decide (attr_kind (attributes entry) = Directory)) then (s, Err ENOTDIR)
      else if have_handler fh entry then (update_node ino (unregister_handler fh) s, Ok tt) else (s, Err EBADF)
  end.
(** [readdir]: what is added to the reply, which has room for [room] entries. *)
Definition dir_entries (ino : nat) (entry : FuseNode) (s : FuseServer) : list (nat * FileType * str) :=
  (ino, Directory, lit ".")
  :: match node_parent entry with Some p => [(p, Directory, lit "..")] | None => [] end
  ++ omap (λ i, (λ child, (i, attr_kind (attributes child), node_name child)) <$> node_at s i) (children entry).
Definition readdir (room : nat) (ino : nat) (fh off : Z) (s : FuseServer) : result errno (list (Z * (nat * FileType * str))) :=
  match node_at s ino with
  | None => Err ENOENT
  | Some entry =>
      if negb (have_handler fh entry) then Err EBADF
      else if negb (bool_decide (attr_kind (attributes entry) = Directory)) then Err ENOTDIR
      else let numbered := imap (λ i e, (Z.of_nat i + 1, e)) (dir_entries ino entry s) in
           Ok (if off <? 0 then [] else take room (drop (Z.to_nat off) numbered))
  end.

(** ** Reading *)
(** [read_node]: the request sent, and the loop over what the channel answers;
    [None] among the answers is a timeout. [send_ok] tells whether the channel takes the
    request, each time it is sent. The result counts the requests, and is [None] as
    long as it waits. *)
Definition contents_request (stream_id_ : Z) (node : FuseNode) (off size_ : Z) : ClipboardFile :=
  FileContentsRequest stream_id_ (Int.wrap_i32 (Z.of_nat (index node))) 2 (Int.wrap_i32 (Z.land off Int.u32_max))
    (Int.wrap_i32 (Z.shiftr off 32)) (Int.wrap_i32 size_) false 0.
Fixpoint await_contents (send_ok : nat → bool) (stream_id_ : Z) (retry_times : nat) (answers : list (option ClipboardFile))
  : nat * option (result errno bytes) :=
  match answers with
  | [] => (S retry_times, None)
  | None :: _ => (S retry_times, Some (Err EIO))
  | Some (FileContentsResponse msg_flags stream_id requested_data) :: answers =>
      if negb (stream_id =? stream_id_) then await_contents send_ok stream_id_ retry_times answers
      else if Z.land msg_flags 1 =? 0 then
        let retry_times := S retry_times in
        if bool_decide (READ_RETRY < retry_times)%nat then (retry_times, Some (Err EIO))
        else if send_ok retry_times then await_contents send_ok stream_id_ retry_times answers
        else (S retry_times, Some (Err EIO))
      else (S retry_times, Some (Ok requested_data))
  | Some _ :: _ => (S retry_times, Some (Err EIO))
  end.
Definition read_node (send_ok : nat → bool) (stream_id_ : Z) (answers : list (option ClipboardFile)) : nat * option (result errno bytes) :=
  if send_ok 0%nat then await_contents send_ok stream_id_ 0 answers else (1%nat, Some (Err EIO)).

(** [read]: an error, or the node to be read. *)
Definition read (ino : nat) (fh : Z) (s : FuseServer) : result errno FuseNode :=
  match node_at s ino with
  | None => Err ENOENT
  | Some entry =>
      if negb (have_handler fh entry) then Err EBADF
      else if negb (bool_decide (attr_kind (attributes entry) = File)) then Err ENFILE
      else if gc entry then Err EBUSY
      else Ok entry
  end.

(** ** The tree of a list *)
(** The inode of the last directory of that path in a list; the root when there is
    none. *)
Definition is_directory_at (key : list component) (e : FileDescription) : bool :=
  bool_decide (kind e = Directory) && bool_decide (components (name e) = key).
Definition look (l : list FileDescription) (key : list component) : nat :=
  foldl (λ acc ie, if is_directory_at key ie.2 then (ie.1 + 2)%nat else acc) FUSE_ROOT_ID (imap pair l).
Definition parent_in (l : list FileDescription) (d : FileDescription) : nat :=
  match parent (components (name d)) with Some key => look l key | None => FUSE_ROOT_ID end.
(** The inode of the parent of each file of the list: it is looked for before the file. *)
Definition parent_at (l : list FileDescription) (j : nat) (d : FileDescription) : nat := parent_in (take j l) d.
Definition children_of (l : list FileDescription) (ino : nat) : list nat :=
  omap (λ x, x) (imap (λ j d, if bool_decide (parent_at l j d = ino) then Some (j + 2)%nat else None) l).
Definition base_of (d : FileDescription) : str := default [] (file_name (name d)).
Definition tree_node (l : list FileDescription) (i : nat) (d : FileDescription) : FuseNode :=
  mk_node (conn_id d) i (Some (parent_at l i d)) (base_of d) (attributes_of (i + 2) d) (children_of l (i + 2)) [] false.
Definition tree_of (l : list FileDescription) : list FuseNode :=
  new_root <| children := children_of l FUSE_ROOT_ID |> :: imap (tree_node l) l.

Lemma look_snoc l e key : look (l ++ [e]) key = if is_directory_at key e then (length l + 2)%nat else look l key.
Proof. unfold look. rewrite imap_app, foldl_app. cbn. by rewrite Nat.add_0_r. Qed.
Lemma look_spec l key : let i := look l key in
  (i = FUSE_ROOT_ID ∧ ∀ j e, l !! j = Some e → is_directory_at key e = false)
  ∨ ∃ j e, i = (j + 2)%nat ∧ l !! j = Some e ∧ is_directory_at key e = true.
Proof.
  cbv zeta. induction l as [|e l IH] using rev_ind; [by left|]. rewrite look_snoc. destruct (is_directory_at key e) eqn:He.
  - right. exists (length l), e. split_and!; [done|by rewrite lookup_app_r, Nat.sub_diag by lia|done].
  - destruct IH as [[-> Hn]|(j & e' & -> & Hj & He')].
    + left. split; [done|]. intros j e' [Hj|[_ Hj]]%lookup_app_Some; [by eapply Hn|].
      apply list_lookup_singleton_Some in Hj as [_ <-]. done.
    + right. exists j, e'. split_and!; [done|by apply lookup_app_l_Some|done].
Qed.
Lemma look_bound l key : (1 ≤ look l key ≤ length l + 1)%nat.
Proof.
  destruct (look_spec l key) as [[-> _]|(j & e & -> & Hj & _)]; [unfold FUSE_ROOT_ID; lia|].
  apply lookup_lt_Some in Hj. lia.
Qed.
Lemma parent_in_bound l d : (1 ≤ parent_in l d ≤ length l + 1)%nat.
Proof. unfold parent_in. destruct (parent _); [apply look_bound|unfold FUSE_ROOT_ID; lia]. Qed.

(** A list that grows gives one node more and its parent one child more. *)
Lemma children_snoc l d ino : children_of (l ++ [d]) ino
  = children_of l ino ++ (if bool_decide (parent_in l d = ino) then [(length l + 2)%nat] else []).
Proof.
  unfold children_of. rewrite imap_app, omap_app. f_equal.
  - f_equal. apply imap_ext. intros j e Hj. unfold parent_at. rewrite take_app_le; [done|].
    apply lookup_lt_Some in Hj. lia.
  - cbn. unfold parent_at. rewrite Nat.add_0_r, take_app_length. by case_bool_decide.
Qed.
Lemma children_after l : children_of l (length l + 2) = [].
Proof.
  unfold children_of. assert (∀ l', (∀ x, x ∈ l' → x = None) → omap (M := list) (λ x : option nat, x) l' = []) as Hn.
  { intros l'. induction l' as [|x l' IH]; [done|]. intros H. cbn. rewrite (H x) by by left. apply IH. intros y Hy. apply H. by right. }
  apply Hn. intros x (j & d & -> & Hj)%elem_of_lookup_imap_1. rewrite bool_decide_eq_false_2; [done|].
  unfold parent_at. pose proof (parent_in_bound (take j l) d). rewrite length_take in *. lia.
Qed.
Lemma parent_at_snoc l d j e : l !! j = Some e → parent_at (l ++ [d]) j e = parent_at l j e.
Proof. intros Hj%lookup_lt_Some. unfold parent_at. by rewrite take_app_le by lia. Qed.
Lemma lookup_tree_of l i : tree_of l !! i = match i with
  | O => Some (new_root <| children := children_of l FUSE_ROOT_ID |>)
  | S i => tree_node l i <$> l !! i
  end.
Proof. destruct i as [|i]; [done|]. unfold tree_of. cbn [lookup list_lookup]. apply list_lookup_imap. Qed.
Lemma length_tree_of l : length (tree_of l) = S (length l).
Proof. unfold tree_of. cbn. by rewrite length_imap. Qed.
Lemma tree_of_snoc l d : tree_of (l ++ [d]) =
  alter (add_child (length l + 2)) (parent_in l d - 1)%nat (tree_of l)
  ++ [tree_node (l ++ [d]) (length l) d].
Proof.
  pose proof (parent_in_bound l d) as Hp. apply list_eq. intros i.
  destruct (decide (i < S (length l))%nat) as [Hi|Hi].
  - rewrite lookup_app_l by (by rewrite length_alter, length_tree_of).
    assert (∀ ino n, (children_of l ino = children n) → n <| children := children_of (l ++ [d]) ino |>
      = if decide (parent_in l d = ino) then add_child (length l + 2) n else n) as Hch.
    { intros ino n Hn. rewrite children_snoc, Hn. unfold add_child. destruct n. cbn.
      case_bool_decide; destruct (decide _); try done. by rewrite app_nil_r. }
    destruct (decide (i = (parent_in l d - 1)%nat)) as [->|Hne].
    + rewrite list_lookup_alter_eq, !lookup_tree_of. destruct (parent_in l d - 1)%nat as [|k] eqn:Hk.
      * cbn [fmap option_fmap option_map]. f_equal.
        pose proof (Hch FUSE_ROOT_ID (new_root <| children := children_of l FUSE_ROOT_ID |>) eq_refl) as Hc.
        rewrite decide_True in Hc by (unfold FUSE_ROOT_ID; lia). exact Hc.
      * rewrite lookup_app_l by lia. destruct (l !! k) as [e|] eqn:He; [|done]. cbn [fmap option_fmap option_map]. f_equal.
        unfold tree_node at 1. rewrite (parent_at_snoc l d k e He).
        pose proof (Hch (k + 2)%nat (tree_node l k e) eq_refl) as Hc. rewrite decide_True in Hc by lia. exact Hc.
    + rewrite list_lookup_alter_ne, !lookup_tree_of by done. destruct i as [|k].
      * f_equal. pose proof (Hch FUSE_ROOT_ID (new_root <| children := children_of l FUSE_ROOT_ID |>) eq_refl) as Hc.
        rewrite decide_False in Hc by (unfold FUSE_ROOT_ID; lia). exact Hc.
      * rewrite lookup_app_l by lia. destruct (l !! k) as [e|] eqn:He; [|done]. cbn [fmap option_fmap option_map]. f_equal.
        unfold tree_node at 1. rewrite (parent_at_snoc l d k e He).
        pose proof (Hch (k + 2)%nat (tree_node l k e) eq_refl) as Hc. rewrite decide_False in Hc by lia. exact Hc.
  - rewrite lookup_app_r by (rewrite length_alter, length_tree_of; lia). rewrite length_alter, length_tree_of, lookup_tree_of.
    destruct i as [|k]; [lia|]. destruct (decide (k = length l)) as [->|Hne].
    + by rewrite lookup_app_r, !Nat.sub_diag by lia.
    + rewrite lookup_ge_None_2 by (rewrite length_app; cbn; lia). cbn. symmetry. apply lookup_ge_None_2. cbn. lia.
Qed.

(** [build_tree] builds that tree, for any list whose paths end in a name. *)
Definition map_ok (l : list FileDescription) (m : gmap (list component) nat) : Prop :=
  ∀ key, default FUSE_ROOT_ID (m !! key) = look l key.
Lemma insert_files_spec l1 l2 m : map_ok l1 m →
  match insert_files l2 (tree_of l1, m) with
  | Ok t => t = tree_of (l1 ++ l2) ∧ Forall (λ d, is_Some (file_name (name d))) l2
  | Err _ => ¬ Forall (λ d, is_Some (file_name (name d))) l2
  end.
Proof.
  revert l1 m. induction l2 as [|d l2 IH]; intros l1 m Hm; cbn [insert_files].
  { by rewrite app_nil_r. }
  unfold insert_file. destruct (file_name (name d)) as [w|] eqn:Hw.
  2:{ intros [[? ?] _]%Forall_cons. congruence. }
  rewrite length_tree_of. replace (S (length l1) + FUSE_ROOT_ID)%nat with (length l1 + 2)%nat by (unfold FUSE_ROOT_ID; lia).
  set (pi := match parent (components (name d)) with Some parent => _ | None => _ end).
  assert (pi = parent_in l1 d) as Hpi by (unfold pi, parent_in; destruct (parent _); [apply Hm|done]).
  set (m' := if decide _ then _ else _).
  assert (map_ok (l1 ++ [d]) m') as Hm'.
  { intros key. unfold m'. rewrite look_snoc. unfold is_directory_at. destruct (decide (kind d = Directory)) as [Hk|Hk].
    - rewrite bool_decide_eq_true_2 by done. cbn [andb]. case_bool_decide as Hkey.
      + subst key. by rewrite lookup_insert_eq.
      + rewrite lookup_insert_ne by done. apply Hm.
    - rewrite bool_decide_eq_false_2 by done. apply Hm. }
  specialize (IH (l1 ++ [d]) m' Hm'). rewrite tree_of_snoc in IH.
  assert (tree_node (l1 ++ [d]) (length l1) d = (from_description (length l1 + 2)
    (mk_desc (conn_id d) w (kind d) (last_modified d) (size d) (perm d))) <| node_parent := Some pi |>) as Hnode.
  { unfold tree_node, from_description. cbn. rewrite children_snoc, children_after. unfold base_of. rewrite Hw. unfold parent_at.
    rewrite take_app_length, Hpi. replace (length l1 + 2 - 2)%nat with (length l1) by lia.
    pose proof (parent_in_bound l1 d). rewrite bool_decide_eq_false_2 by lia. done. }
  rewrite Hnode, <- Hpi in IH.
  destruct (insert_files l2 _) as [t|e].
  - destruct IH as [-> Hf]. rewrite <- app_assoc. split; [done|]. constructor; [by rewrite Hw|done].
  - intros [_ Hf]%Forall_cons. by apply IH.
Qed.
Lemma build_tree_spec l : match build_tree l with
  | Ok t => t = tree_of l ∧ Forall (λ d, is_Some (file_name (name d))) l
  | Err _ => ¬ Forall (λ d, is_Some (file_name (name d))) l
  end.
Proof.
  apply (insert_files_spec [] l roots). intros key. unfold roots, look. cbn.
  destruct (decide (key = [])) as [->|H1]; [by rewrite lookup_insert_eq|].
  rewrite lookup_insert_ne by done. destruct (decide (key = [RootDir])) as [->|H2]; [by rewrite lookup_singleton|].
  by rewrite lookup_singleton_ne.
Qed.

(** ** Walking the tree *)
Fixpoint walk (s : FuseServer) (ino : nat) (names : list str) : result errno nat :=
  match names with
  | [] => Ok ino
  | n :: names => match lookup_name ino n s with Ok a => walk s (inode a) names | Err e => Err e end
  end.
Lemma walk_app s ino ns1 ns2 : walk s ino (ns1 ++ ns2) = match walk s ino ns1 with Ok i => walk s i ns2 | Err e => Err e end.
Proof. revert ino. induction ns1 as [|n ns1 IH]; intros ino; cbn; [done|]. destruct (lookup_name ino n s); [apply IH|done]. Qed.

(** The file system has the tree of a list, whatever handles are open. *)
Definition mounted (l : list FileDescription) (s : FuseServer) : Prop :=
  (λ n, n <| handlers := [] |>) <$> nodes s = tree_of l.
Lemma mounted_node l s ino : mounted l s → match node_at s ino, match ino with O => None | S i => tree_of l !! i end with
  | Some n, Some m => n = m <| handlers := handlers n |>
  | None, None => True
  | _, _ => False
  end.
Proof.
  intros Hm. destruct ino as [|i]; cbn [node_at]; [done|]. rewrite <- Hm, list_lookup_fmap.
  destruct (nodes s !! i) as [n|]; [|done]. cbn. by destruct n.
Qed.
Lemma mounted_some l s ino m : mounted l s → tree_of l !! ino = Some m → ∃ h, node_at s (S ino) = Some (m <| handlers := h |>).
Proof.
  intros Hm Ht. pose proof (mounted_node l s (S ino) Hm) as H. cbn beta iota in H. rewrite Ht in H.
  destruct (node_at s (S ino)) as [n|]; [|done]. exists (handlers n). by rewrite <- H.
Qed.

Lemma elem_of_children l ino c : c ∈ children_of l ino ↔ ∃ j d, c = (j + 2)%nat ∧ l !! j = Some d ∧ parent_at l j d = ino.
Proof.
  unfold children_of. rewrite list_elem_of_omap. split.
  - intros (x & (j & d & -> & Hj)%elem_of_lookup_imap_1 & Hx). case_bool_decide; [|done]. injection Hx as <-. by exists j, d.
  - intros (j & d & -> & Hj & Hp). exists (Some (j + 2)%nat). split; [|done].
    apply list_elem_of_lookup. exists j. rewrite list_lookup_imap, Hj. cbn. by rewrite bool_decide_eq_true_2.
Qed.

Lemma find_child_spec l s name inodes i d : mounted l s →
  (∀ c, c ∈ inodes → ∃ j e, c = (j + 2)%nat ∧ l !! j = Some e ∧ (base_of e = name → j = i)) →
  (i + 2)%nat ∈ inodes → l !! i = Some d → base_of d = name → find_child s name inodes = Ok (attributes_of (i + 2) d).
Proof.
  intros Hm Hall Hin Hi Hd. induction inodes as [|c inodes IH]; [by apply not_elem_of_nil in Hin|]. cbn [find_child].
  destruct (Hall c ltac:(by left)) as (j & e & -> & Hj & Hu).
  destruct (mounted_some l s (S j) (tree_node l j e) Hm) as (h & Hn); [by rewrite lookup_tree_of, Hj|].
  replace (node_at s (j + 2)) with (node_at s (S (S j))) by (f_equal; lia). rewrite Hn.
  change (node_name (upd handlers _ (tree_node l j e))) with (base_of e).
  change (attributes (upd handlers _ (tree_node l j e))) with (attributes_of (j + 2) e).
  case_bool_decide as He.
  - rewrite (Hu He) in *. congruence.
  - apply IH; [intros c Hc; apply Hall; by right|]. apply elem_of_cons in Hin as [Heq|?]; [|done].
    assert (j = i) as -> by lia. congruence.
Qed.

(** Lists in which a file comes after the directory it is in, and no two files have
    the same path. *)
Definition in_directory (l : list FileDescription) (i : nat) (ws : list str) : Prop :=
  ws = [] ∨ ∃ j e, (j < i)%nat ∧ l !! j = Some e ∧ kind e = Directory ∧ components (name e) = Normal <$> ws.
Record well_listed (l : list FileDescription) : Prop := {
  listed_in i d : l !! i = Some d → ∃ ws w, components (name d) = Normal <$> (ws ++ [w]) ∧ in_directory l i ws
    ∧ (byte_len w ≤ MAX_NAME_LEN)%nat;
  listed_once : NoDup ((λ d, components (name d)) <$> l)
}.
Definition pieces_of (d : FileDescription) : list str := omap (λ c, match c with Normal w => Some w | _ => None end) (components (name d)).
Lemma pieces_of_normal d ws : components (name d) = Normal <$> ws → pieces_of d = ws.
Proof. unfold pieces_of. intros ->. induction ws as [|w ws IH]; [done|]. cbn. by rewrite IH. Qed.
Lemma normal_inj (ws ws' : list str) : Normal <$> ws = Normal <$> ws' → ws = ws'.
Proof.
  revert ws'. induction ws as [|w ws IH]; intros [|w' ws']; cbn; [done..|]. intros [= -> H]. f_equal. by apply IH.
Qed.
Lemma listed_same l i j d e : well_listed l → l !! i = Some d → l !! j = Some e →
  components (name d) = components (name e) → i = j.
Proof.
  intros [_ Hnd] Hi Hj Heq. eapply (NoDup_lookup _ i j (components (name d)) Hnd); rewrite list_lookup_fmap; [by rewrite Hi|].
  rewrite Hj. cbn. by rewrite Heq.
Qed.
Lemma snoc_name d ws w : components (name d) = Normal <$> (ws ++ [w]) →
  parent (components (name d)) = Some (Normal <$> ws) ∧ base_of d = w.
Proof.
  intros Hd. rewrite Hd, fmap_app. cbn [fmap list_fmap]. rewrite parent_snoc. split; [done|].
  unfold base_of, file_name. rewrite Hd, fmap_app. cbn [fmap list_fmap]. by rewrite last_snoc.
Qed.
(** Where the parent of a file is found. *)
Lemma parent_at_spec l i d ws w : well_listed l → l !! i = Some d → components (name d) = Normal <$> (ws ++ [w]) →
  (ws = [] ∧ parent_at l i d = FUSE_ROOT_ID)
  ∨ ∃ j e, (j < i)%nat ∧ l !! j = Some e ∧ kind e = Directory ∧ components (name e) = Normal <$> ws ∧ parent_at l i d = (j + 2)%nat.
Proof.
  intros Hw Hi Hd. destruct (listed_in l Hw i d Hi) as (ws' & w' & Hd' & Hin & _).
  rewrite Hd in Hd'. apply normal_inj in Hd'. apply app_inj_tail in Hd' as [<- <-].
  destruct (snoc_name d ws w Hd) as [Hp _]. unfold parent_at, parent_in. rewrite Hp.
  assert (∀ j e, take i l !! j = Some e → is_directory_at (Normal <$> ws) e = true →
    (j < i)%nat ∧ l !! j = Some e ∧ kind e = Directory ∧ components (name e) = Normal <$> ws) as Hat.
  { intros j e [He Hji]%lookup_take_Some [Hk Hc]%andb_true_iff. apply bool_decide_eq_true in Hk, Hc. done. }
  destruct (look_spec (take i l) (Normal <$> ws)) as [[Hroot Hno]|(j & e & -> & Hj & He)].
  - rewrite Hroot. destruct Hin as [->|(j & e & Hji & Hj & Hk & Hc)]; [by left|exfalso].
    assert (take i l !! j = Some e) as Htj by by rewrite lookup_take_lt. specialize (Hno j e Htj). unfold is_directory_at in Hno.
    by rewrite !bool_decide_eq_true_2 in Hno by done.
  - destruct (Hat j e Hj He) as (? & ? & ? & ?). right. by exists j, e.
Qed.

Lemma walk_spec l s i d : mounted l s → well_listed l → l !! i = Some d →
  walk s FUSE_ROOT_ID (pieces_of d) = Ok (i + 2)%nat.
Proof.
  intros Hm Hw. revert d. induction i as [i IH] using lt_wf_ind. intros d Hi.
  destruct (listed_in l Hw i d Hi) as (ws & w & Hd & _ & Hlen). rewrite (pieces_of_normal _ _ Hd), walk_app.
  destruct (snoc_name d ws w Hd) as [_ Hbase].
  assert (∃ p, walk s FUSE_ROOT_ID ws = Ok p ∧ parent_at l i d = p ∧ (∃ n, node_at s p = Some n ∧ attr_kind (attributes n) = Directory
    ∧ children n = children_of l p)) as (p & -> & Hp & n & Hn & Hk & Hch).
  { destruct (parent_at_spec l i d ws w Hw Hi Hd) as [[-> Hp]|(j & e & Hji & Hj & Hk & Hc & Hp)]; rewrite Hp.
    - exists FUSE_ROOT_ID. split_and!; [done|done|].
      destruct (mounted_some l s 0 _ Hm (lookup_tree_of l 0)) as (h & Hn). by eexists.
    - exists (j + 2)%nat. rewrite <- (pieces_of_normal _ _ Hc). split_and!; [by apply IH|done|].
      destruct (mounted_some l s (S j) (tree_node l j e) Hm) as (h & Hn); [by rewrite lookup_tree_of, Hj|].
      replace (node_at s (j + 2)) with (node_at s (S (S j))) by (f_equal; lia). eexists. split; [done|]. split; [exact Hk|].
      done. }
  cbn [walk]. unfold lookup_name. rewrite bool_decide_eq_false_2 by lia. rewrite Hn, bool_decide_eq_true_2 by done. cbn [negb].
  rewrite Hch. erewrite (find_child_spec l s w _ i d Hm); [done| | |done|done].
  - intros c (j & e & -> & Hj & Hpj)%elem_of_children. exists j, e. split_and!; [done|done|]. intros Hbe.
    destruct (listed_in l Hw j e Hj) as (ws' & w' & He & _). destruct (snoc_name e ws' w' He) as [_ Hb].
    assert (w' = w) as -> by congruence.
    destruct (parent_at_spec l j e ws' w Hw Hj He) as [[-> Hp1]|(j1 & e1 & _ & Hj1 & _ & Hc1 & Hp1)];
      destruct (parent_at_spec l i d ws w Hw Hi Hd) as [[-> Hp2]|(j2 & e2 & _ & Hj2 & _ & Hc2 & Hp2)].
    + apply (listed_same l j i e d Hw Hj Hi). congruence.
    + unfold FUSE_ROOT_ID in *. lia.
    + unfold FUSE_ROOT_ID in *. lia.
    + assert (j1 = j2) as -> by lia. assert (e1 = e2) as -> by congruence. rewrite Hc1 in Hc2. apply normal_inj in Hc2 as ->.
      apply (listed_same l j i e d Hw Hj Hi). congruence.
  - apply elem_of_children. by exists i, d.
Qed.

(** The other way: a path leads nowhere but to what the list has there. *)
Lemma find_child_sound s name inodes a : find_child s name inodes = Ok a →
  ∃ c child, c ∈ inodes ∧ node_at s c = Some child ∧ node_name child = name ∧ attributes child = a.
Proof.
  induction inodes as [|c inodes IH]; [done|]. cbn [find_child]. destruct (node_at s c) as [child|] eqn:Hc; [|done].
  case_bool_decide as Hn.
  - intros <-%ok_inj. exists c, child. split_and!; [by left|done..].
  - intros (c' & child' & ? & ?)%IH. exists c', child'. split; [by right|done].
Qed.
(** What the node of a file is, with whatever is open of it. *)
Lemma file_node l s j d : mounted l s → l !! j = Some d → ∃ h, node_at s (j + 2) = Some ((tree_node l j d) <| handlers := h |>).
Proof.
  intros Hm Hj. destruct (mounted_some l s (S j) (tree_node l j d) Hm) as (h & Hn); [by rewrite lookup_tree_of, Hj|].
  exists h. by replace (j + 2)%nat with (S (S j)) by lia.
Qed.
Lemma root_node l s : mounted l s → ∃ h, node_at s FUSE_ROOT_ID = Some (new_root <| children := children_of l FUSE_ROOT_ID |> <| handlers := h |>).
Proof. intros Hm. destruct (mounted_some l s 0 _ Hm (lookup_tree_of l 0)) as (h & Hn). by exists h. Qed.
Definition leads_to (l : list FileDescription) (ws : list str) (ino : nat) : Prop :=
  (ws = [] ∧ ino = FUSE_ROOT_ID) ∨ ∃ i d, ino = (i + 2)%nat ∧ l !! i = Some d ∧ components (name d) = Normal <$> ws.
Lemma walk_sound l s ws ino : mounted l s → well_listed l → walk s FUSE_ROOT_ID ws = Ok ino → leads_to l ws ino.
Proof.
  intros Hm Hw. revert ino. induction ws as [|w ws IH] using rev_ind; intros ino.
  { intros <-%ok_inj. by left. }
  rewrite walk_app. destruct (walk s FUSE_ROOT_ID ws) as [p|] eqn:Hp; [|done]. specialize (IH p eq_refl).
  cbn [walk]. destruct (lookup_name p w s) as [a|] eqn:Hl; [|done]. intros <-%ok_inj. unfold lookup_name in Hl.
  case_bool_decide; [done|]. destruct (node_at s p) as [pn|] eqn:Hpn; [|done]. destruct (negb _); [done|].
  apply find_child_sound in Hl as (c & child & Hc & Hcn & Hname & <-).
  assert (children pn = children_of l p) as Hch.
  { destruct IH as [[-> ->]|(i & d & -> & Hi & _)].
    - destruct (root_node l s Hm) as (h & Hr). rewrite Hr in Hpn. by injection Hpn as <-.
    - destruct (file_node l s i d Hm Hi) as (h & Hr). rewrite Hr in Hpn. by injection Hpn as <-. }
  rewrite Hch in Hc. apply elem_of_children in Hc as (j & e & -> & Hj & Hpj).
  destruct (file_node l s j e Hm Hj) as (h & Hr). rewrite Hr in Hcn. injection Hcn as <-.
  change (base_of e = w) in Hname. change (leads_to l (ws ++ [w]) (j + 2)%nat). right. exists j, e. split_and!; [done|done|].
  destruct (listed_in l Hw j e Hj) as (ws' & w' & He & _). destruct (snoc_name e ws' w' He) as [_ Hb].
  assert (w' = w) as -> by congruence. rewrite He. do 2 f_equal.
  destruct (parent_at_spec l j e ws' w Hw Hj He) as [[-> Hq]|(k & f & _ & Hk & _ & Hf & Hq)];
    rewrite Hpj in Hq; subst p; destruct IH as [[-> Hi]|(i & d & Hi & Hd & Hws)]; unfold FUSE_ROOT_ID in *; try done; try lia.
  assert (i = k) as -> by lia. assert (d = f) as -> by congruence. rewrite Hf in Hws. by apply normal_inj.
Qed.

(** ** What may be done with a mounted list *)
Inductive fuse_step : FuseServer → FuseServer → Prop :=
| step_init s : fuse_step s (init s)
| step_open ino s : fuse_step s (open ino s).1
| step_opendir ino s : fuse_step s (opendir ino s).1
| step_release ino fh s : fuse_step s (release ino fh s).1
| step_releasedir ino fh s : fuse_step s (releasedir ino fh s).1.
Lemma update_mounted l s ino f : (∀ n, (f n) <| handlers := [] |> = n <| handlers := [] |>) → mounted l s → mounted l (update_node ino f s).
Proof.
  intros Hf Hm. unfold mounted, update_node in *. rewrite <- Hm. cbn. apply list_eq. intros i. rewrite !list_lookup_fmap.
  destruct (decide (i = ino - 1)%nat) as [->|Hne]; [|by rewrite list_lookup_alter_ne].
  rewrite list_lookup_alter_eq. destruct (nodes s !! (ino - 1)%nat) as [n|]; [|done].
  change (Some ((f n) <| handlers := [] |>) = Some (n <| handlers := [] |>)). by rewrite Hf.
Qed.
Lemma step_mounted l s s' : fuse_step s s' → mounted l s → mounted l s'.
Proof.
  assert (∀ fh n, (add_handler fh n) <| handlers := [] |> = n <| handlers := [] |>) as Ha by by intros ? [].
  assert (∀ fh n, (unregister_handler fh n) <| handlers := [] |> = n <| handlers := [] |>) as Hu by by intros ? [].
  intros Hst Hm. assert (nodes s ≠ []) as Hne.
  { intros Hn. unfold mounted in Hm. rewrite Hn in Hm. pose proof (length_tree_of l). by rewrite <- Hm in H. }
  destruct Hst; unfold init, open, opendir, open_node, release, releasedir; [by rewrite bool_decide_eq_false_2|..];
    repeat case_match; try done;
    [apply (update_mounted l s ino (add_handler (file_handle_counter s))); auto
    |apply (update_mounted l s ino (add_handler (file_handle_counter s))); auto
    |by apply update_mounted..].
Qed.
Lemma steps_mounted l s s' : rtc fuse_step s s' → mounted l s → mounted l s'.
Proof. induction 1; eauto using step_mounted. Qed.
Lemma tree_no_handlers l : (λ n, n <| handlers := [] |>) <$> tree_of l = tree_of l.
Proof.
  apply list_eq. intros i. rewrite list_lookup_fmap, lookup_tree_of. destruct i as [|i]; [done|]. by destruct (l !! i).
Qed.
Lemma load_mounted l s : Forall (λ d, is_Some (file_name (name d))) l →
  ∃ s', load_file_list l s = (s', Ok tt) ∧ mounted l s' ∧ file_handle_counter s' = file_handle_counter s.
Proof.
  intros Hn. unfold load_file_list. pose proof (build_tree_spec l) as Hb. destruct (build_tree l) as [t|]; [|done].
  destruct Hb as [-> _]. eexists. split; [done|]. split; [|done]. apply tree_no_handlers.
Qed.

(** C14: Whatever list a peer sends, it is mounted as a tree: it loads, each file has the
    node two above its place in the list with its size and kind, by which it is asked
    for; its parent is an earlier directory which has it among its children. Nothing
    in the tree is above itself, and nothing leads out of it. *)
Theorem peer_list_mounts `{WStrings} pdu conn files s : parse_file_descriptors pdu conn = Ok files →
  ∃ s', load_file_list files s = (s', Ok tt) ∧ length (nodes s') = S (length files)
    ∧ ∀ i d, files !! i = Some d → ∃ n p pn,
        node_at s' (i + 2) = Some n ∧ index n = i ∧ node_conn n = conn ∧ attr_size (attributes n) = size d ∧ attr_kind (attributes n) = kind d
        ∧ plain (node_name n) ∧ node_parent n = Some p ∧ (p < i + 2)%nat ∧ node_at s' p = Some pn
        ∧ attr_kind (attributes pn) = Directory ∧ (i + 2)%nat ∈ children pn.
Proof.
  intros Hparse. destruct (parsed_safe _ _ _ Hparse) as (Hsafe & _).
  assert (∀ i d, files !! i = Some d → ∃ w, file_name (name d) = Some w ∧ plain w) as Hname.
  { intros i d Hi. apply (Forall_lookup_1 _ _ _ _ Hsafe) in Hi as (((Hp & _) & _) & Hc & _). unfold file_name. rewrite Hc.
    pose proof (split_by_nonempty (N.eqb slash) (name d)) as Hne. unfold split_on in *.
    destruct (split_by _ (name d)) as [|w ws _] using rev_ind; [done|]. rewrite fmap_app. cbn. rewrite last_snoc.
    exists w. split; [done|]. by apply Forall_app in Hp as [_ [? _]%Forall_cons]. }
  destruct (load_mounted files s) as (s' & Hload & Hm & _).
  { rewrite Forall_forall. intros d Hd. apply list_elem_of_lookup_1 in Hd as [i Hi]. destruct (Hname i d Hi) as (w & -> & _). by eexists. }
  exists s'. split; [done|]. split.
  { rewrite <- (length_tree_of files), <- Hm. by rewrite length_fmap. }
  intros i d Hi. destruct (file_node files s' i d Hm Hi) as (h & Hn). destruct (Hname i d Hi) as (w & Hw & Hpw).
  assert (∃ pn, node_at s' (parent_at files i d) = Some pn ∧ attr_kind (attributes pn) = Directory
    ∧ children pn = children_of files (parent_at files i d) ∧ (parent_at files i d < i + 2)%nat) as (pn & Hpn & Hk & Hch & Hlt).
  { unfold parent_at. pose proof (parent_in_bound (take i files) d) as Hb. rewrite length_take in Hb.
    assert (parent_in (take i files) d = FUSE_ROOT_ID ∨ ∃ j e, parent_in (take i files) d = (j + 2)%nat ∧ files !! j = Some e
      ∧ kind e = Directory) as Hcase.
    { unfold parent_in. destruct (parent _) as [key|]; [|by left]. destruct (look_spec (take i files) key) as [[-> _]|(j & e & -> & Hj & He)]; [by left|].
      right. apply lookup_take_Some in Hj as [Hj _]. apply andb_true_iff in He as [He%bool_decide_eq_true _]. by exists j, e. }
    destruct Hcase as [->|(j & e & Hp & Hj & He)].
    - destruct (root_node files s' Hm) as (h' & Hr). eexists. split; [exact Hr|]. split_and!; [done|done|unfold FUSE_ROOT_ID; lia].
    - rewrite Hp in *. destruct (file_node files s' j e Hm Hj) as (h' & Hr). eexists. split; [exact Hr|]. split_and!; [exact He|done|lia]. }
  eexists _, (parent_at files i d), pn. split; [exact Hn|]. split_and!; try done.
  - apply (Forall_lookup_1 _ _ _ _ Hsafe) in Hi as (_ & _ & Hc & _). exact Hc.
  - change (plain (base_of d)). unfold base_of. by rewrite Hw.
  - rewrite Hch. apply elem_of_children. by exists i, d.
Qed.

(** A read asks at most four times, and what it returns is what some answer with
    its own number and the flag of success carries; an answer to another read is
    never taken for it. *)
Theorem read_takes_own_answer send_ok sid answers :
  let '(requests, r) := read_node send_ok sid answers in
  (1 ≤ requests ≤ READ_RETRY + 1)%nat
  ∧ match r with
    | Some (Ok data) => ∃ flags, Some (FileContentsResponse flags sid data) ∈ answers ∧ Z.land flags 1 ≠ 0
    | Some (Err e) => e = EIO
    | None => Forall (λ m, match m with Some (FileContentsResponse flags id _) => id = sid → Z.land flags 1 = 0 | _ => False end) answers
    end.
Proof.
  unfold read_node. destruct (send_ok 0%nat); [|by split; [unfold READ_RETRY; lia|]].
  assert (∀ k, (k ≤ READ_RETRY)%nat → let '(requests, r) := await_contents send_ok sid k answers in
    (k + 1 ≤ requests ≤ READ_RETRY + 1)%nat ∧ match r with
    | Some (Ok data) => ∃ flags, Some (FileContentsResponse flags sid data) ∈ answers ∧ Z.land flags 1 ≠ 0
    | Some (Err e) => e = EIO
    | None => Forall (λ m, match m with Some (FileContentsResponse flags id _) => id = sid → Z.land flags 1 = 0 | _ => False end) answers
    end) as Hk.
  { induction answers as [|m answers IH]; intros k Hle; cbn [await_contents]; [split; [lia|constructor]|].
    destruct m as [[| | | | | | |flags id data| |]|]; try (split; [lia|done]).
    destruct (Z.eqb_spec id sid) as [->|Hne]; cbn [negb].
    - destruct (Z.eqb_spec (Z.land flags 1) 0) as [Hz|Hnz].
      + case_bool_decide as Hr; [split; [lia|done]|]. destruct (send_ok (S k)); [|split; [lia|done]].
        specialize (IH (S k) ltac:(lia)). destruct (await_contents send_ok sid (S k) answers) as [n r]. destruct IH as [Hn Hr']. split; [lia|].
        destruct r as [[data'|e]|]; [|done|by constructor].
        destruct Hr' as (fl & Hin & Hf). exists fl. split; [by right|done].
      + split; [lia|]. exists flags. split; [by left|done].
    - specialize (IH k Hle). destruct (await_contents send_ok sid k answers) as [n r]. destruct IH as [Hn Hr]. split; [lia|].
      destruct r as [[data'|e]|]; [|done|by constructor].
      destruct Hr as (fl & Hin & Hf). exists fl. split; [by right|done]. }
  specialize (Hk 0%nat ltac:(lia)). by destruct (await_contents send_ok sid 0 answers).
Qed.

(** ** Handles *)
(** A file system in use: lists are loaded, nodes opened and closed. *)
Inductive fuse_event : FuseServer → FuseServer → Prop :=
| event_load files s : fuse_event s (load_file_list files s).1
| event_step s s' : fuse_step s s' → fuse_event s s'.
Definition sorted_below (bound : Z) (n : FuseNode) : Prop :=
  StronglySorted Z.lt (handlers n) ∧ Forall (λ h, h < bound) (handlers n).
Definition handles_ok (k : Z) (s : FuseServer) : Prop :=
  0 ≤ file_handle_counter s ≤ k ∧ Forall (sorted_below (file_handle_counter s)) (nodes s).
Lemma sorted_snoc l x : StronglySorted Z.lt l → Forall (λ h, h < x) l → StronglySorted Z.lt (l ++ [x]).
Proof.
  induction 1 as [|h l Hs IH Hh]; intros Hx; [repeat constructor|]. apply Forall_cons in Hx as [? ?].
  constructor; [by apply IH|]. apply Forall_app. split; [done|by repeat constructor].
Qed.
Lemma sorted_filter P `{∀ x, Decision (P x)} l : StronglySorted Z.lt l → StronglySorted Z.lt (filter P l).
Proof.
  induction 1 as [|h l Hs IH Hh]; [constructor|]. rewrite filter_cons. case_decide; [|done]. constructor; [done|].
  rewrite Forall_forall in *. intros x [_ Hx]%list_elem_of_filter. by apply Hh.
Qed.
Lemma update_ok k s ino f : (∀ n, sorted_below (file_handle_counter s) n → sorted_below (file_handle_counter s) (f n)) →
  handles_ok k s → handles_ok k (update_node ino f s).
Proof. intros Hf [Hc Hn]. split; [done|]. unfold update_node. cbn. apply Forall_alter; [done|]. intros n Hi Hs. by apply Hf. Qed.
Lemma open_ok k wanted e ino s : k + 1 < 2 ^ 64 → handles_ok k s → handles_ok (k + 1) (open_node wanted e ino s).1.
Proof.
  intros Hk [Hc Hn]. unfold open_node.
  assert (handles_ok (k + 1) s) as Hsame by (split; [lia|done]). repeat case_match; try done. unfold update_node. split; cbn.
  - unfold Int.wrap_u64. rewrite Z.mod_small; lia.
  - unfold Int.wrap_u64. rewrite Z.mod_small by lia.
    assert (Forall (λ n, sorted_below (file_handle_counter s) n ∨ sorted_below (file_handle_counter s + 1) n) (nodes s)) as Hn'
      by (eapply Forall_impl; [exact Hn|auto]).
    assert (∀ n, sorted_below (file_handle_counter s) n → sorted_below (file_handle_counter s + 1) n) as Hup.
    { intros n [? Hb]. split; [done|]. eapply Forall_impl; [exact Hb|]. intros h. cbn. lia. }
    rewrite Forall_lookup in Hn |- *. intros i n Hi. destruct (decide (i = ino - 1)%nat) as [->|Hne].
    + rewrite list_lookup_alter_eq in Hi. apply fmap_Some in Hi as (m & Hm & ->). destruct (Hn _ _ Hm) as [Hs Hb]. split.
      * by apply sorted_snoc.
      * apply Forall_app. split; [by apply Hup|]. repeat constructor. lia.
    + rewrite list_lookup_alter_ne in Hi by done. apply Hup. by eapply Hn.
Qed.
Lemma event_ok k s s' : k + 1 < 2 ^ 64 → fuse_event s s' → handles_ok k s → handles_ok (k + 1) s'.
Proof.
  intros Hk He Hok. assert (∀ s, handles_ok k s → handles_ok (k + 1) s) as Hup by (intros ? [? ?]; split; [lia|done]).
  assert (∀ fh ino, handles_ok (k + 1) (update_node ino (unregister_handler fh) s)) as Hun.
  { intros fh ino. apply Hup, update_ok; [|done]. intros n [Hs Hb]. split; [by apply sorted_filter|]. rewrite Forall_forall in *.
    intros x [_ Hx]%list_elem_of_filter. by apply Hb. }
  destruct He as [files s|s s' Hst]; [|destruct Hst as [s|ino s|ino s|ino fh s|ino fh s]].
  - unfold load_file_list. pose proof (build_tree_spec files) as Hb. destruct (build_tree files) as [t|]; [|by apply Hup].
    destruct Hb as [-> _]. split; [destruct Hok; cbn; lia|]. cbn. rewrite <- tree_no_handlers. apply Forall_fmap, Forall_true. by repeat constructor.
  - unfold init. case_bool_decide; [|by apply Hup]. split; [destruct Hok; cbn; lia|]. repeat constructor.
  - by apply open_ok.
  - by apply open_ok.
  - unfold release. repeat case_match; cbn [fst]; auto.
  - unfold releasedir. repeat case_match; cbn [fst]; auto.
Qed.
(** The handles of a node are kept in the order they were handed out, each once, as
    the comment at the vector asks to be shown, for as many operations as the counter
    has values: a binary search of them finds exactly those that are open. *)
Theorem handles_sorted n s : nsteps fuse_event n server_new s → Z.of_nat n < 2 ^ 64 →
  Forall (sorted_below (file_handle_counter s)) (nodes s).
Proof.
  assert (∀ k s0, nsteps fuse_event n s0 s → Z.of_nat n + k < 2 ^ 64 → handles_ok k s0 → handles_ok (Z.of_nat n + k) s) as H.
  { induction n as [|n IH]; intros k s0 Hs Hn Hok; inversion Hs as [|? ? s1 ? He Hr]; subst; [done|].
    replace (Z.of_nat (S n) + k) with (Z.of_nat n + (k + 1)) by lia. apply (IH _ s1); [done|lia|]. apply (event_ok k s0); [lia|done|done]. }
  intros Hs Hn. apply (H 0 server_new Hs ltac:(lia)). split; [cbn; lia|constructor].
Qed.

(** ** Worked out *)
Lemma peer_list_mounts_witness : ∃ s', load_file_list [mk_desc 1 (lit "a/b") File 1700000000123456700 5 33188] server_new = (s', Ok tt)
  ∧ length (nodes s') = 2%nat ∧ ∃ n, node_at s' 2 = Some n ∧ attr_size (attributes n) = 5.
Proof.
  assert (parse_file_descriptors sample_pdu 1 = Ok [mk_desc 1 (lit "a/b") File 1700000000123456700 5 33188]) as Hp
    by (vm_compute; reflexivity).
  destruct (peer_list_mounts sample_pdu 1 _ server_new Hp) as (s' & Hl & Hn & Hall). exists s'. split; [exact Hl|]. split; [exact Hn|].
  destruct (Hall 0%nat _ eq_refl) as (n & p & pn & Hnode & _ & _ & Hsz & _). exists n. split; [exact Hnode|exact Hsz].
Defined.
(** Answers to other reads do not end the wait for the own one, however many they are. *)
Example others_ignored : read_node (λ _, true) 7 (replicate 100 (Some (FileContentsResponse 1 6 []))) = (1%nat, None).
Proof. done. Qed.
(** The other side has directories above it only if they are listed before it. *)
Example unlisted_directory : walk (load_file_list [mk_desc 1 (lit "a/b") File 0 5 420] server_new).1 FUSE_ROOT_ID [lit "b"] = Ok 2%nat.
Proof. by vm_compute. Qed.
Lemma handles_sorted_witness : let s := (open 2 (open 2 (load_file_list [mk_desc 1 (lit "b") File 0 5 420] server_new).1).1).1 in
  Forall (sorted_below 2) (nodes s) ∧ handlers <$> node_at s 2 = Some [0; 1].
Proof.
  intros s. split; [|vm_compute; reflexivity].
  exact (handles_sorted 3 s (nsteps_l _ _ _ _ _ (event_load _ _) (nsteps_l _ _ _ _ _ (event_step _ _ (step_open 2 _))
    (nsteps_l _ _ _ _ _ (event_step _ _ (step_open 2 _)) (nsteps_O _ _)))) ltac:(lia)).
Defined.
