(* ===== verification/ClipMessages.v ===== *)
(** * Copied files: messages

    [src/src/clipboard_file.rs]: what the clipboards of the two sides tell each other
    and how a message is served; [src/libs/clipboard/src/lib.rs]: the channels to the
    connections; [src/libs/clipboard/src/platform/unix/fuse/mod.rs]: the mounted file
    system of each role. *)
From S2P Require Import Prelude Paths FileTransfer ClipFormat ClipServe ClipMount.
Local Open Scope Z_scope.

(** ** Messages

    [Cliprdr] and the part of [Message] that carries it. *)
Inductive Cliprdr :=
| UReady
| UFormatList (formats : list (Z * str))
| UFormatListResponse (msg_flags : Z)
| UFormatDataRequest (requested_format_id : Z)
| UFormatDataResponse (msg_flags : Z) (format_data : bytes)
| UFileContentsRequest (stream_id list_index dw_flags n_position_low n_position_high cb_requested : Z)
    (have_clip_data_id : bool) (clip_data_id : Z)
| UFileContentsResponse (msg_flags stream_id : Z) (requested_data : bytes)
| UTryEmpty
| UFiles (files : list (str * Z)).
Inductive Message :=
| MessageBox (msgtype title text link : str)
| MCliprdr (union : option Cliprdr).

Definition clip_2_msg (d : disk) (clip : ClipboardFile) : Message :=
  match clip with
  | NotifyCallback type title text => MessageBox type title text []
  | MonitorReady => MCliprdr (Some UReady)
  | FormatList format_list => MCliprdr (Some (UFormatList format_list))
  | FormatListResponse msg_flags => MCliprdr (Some (UFormatListResponse msg_flags))
  | FormatDataRequest requested_format_id => MCliprdr (Some (UFormatDataRequest requested_format_id))
  | FormatDataResponse msg_flags format_data => MCliprdr (Some (UFormatDataResponse msg_flags format_data))
  | FileContentsRequest stream_id list_index dw_flags n_position_low n_position_high cb_requested have_clip_data_id clip_data_id =>
      MCliprdr (Some (UFileContentsRequest stream_id list_index dw_flags n_position_low n_position_high cb_requested
                        have_clip_data_id clip_data_id))
  | FileContentsResponse msg_flags stream_id requested_data =>
      MCliprdr (Some (UFileContentsResponse msg_flags stream_id requested_data))
  | TryEmpty => MCliprdr (Some UTryEmpty)
  | Files files =>
      MCliprdr (Some (UFiles (omap (λ '(f, s), if s =? 0
                                     then (λ meta, (f, md_len meta)) <$> metadata d f
                                     else Some (f, s)) files)))
  end.
Definition msg_2_clip (msg : option Cliprdr) : option ClipboardFile :=
  match msg with
  | Some UReady => Some MonitorReady
  | Some (UFormatList formats) => Some (FormatList formats)
  | Some (UFormatListResponse msg_flags) => Some (FormatListResponse msg_flags)
  | Some (UFormatDataRequest requested_format_id) => Some (FormatDataRequest requested_format_id)
  | Some (UFormatDataResponse msg_flags format_data) => Some (FormatDataResponse msg_flags format_data)
  | Some (UFileContentsRequest stream_id list_index dw_flags n_position_low n_position_high cb_requested have_clip_data_id clip_data_id) =>
      Some (FileContentsRequest stream_id list_index dw_flags n_position_low n_position_high cb_requested have_clip_data_id clip_data_id)
  | Some (UFileContentsResponse msg_flags stream_id requested_data) => Some (FileContentsResponse msg_flags stream_id requested_data)
  | Some UTryEmpty => Some TryEmpty
  | _ => None
  end.
Definition is_stopping_allowed (clip : ClipboardFile) : bool :=
  match clip with MonitorReady | FormatList _ | FormatDataRequest _ => true | _ => false end.
Definition is_beginning_message (clip : ClipboardFile) : bool :=
  match clip with MonitorReady | FormatList _ => true | _ => false end.

(** ** Formats *)
Definition FILEDESCRIPTOR_FORMAT_ID : Z := 49334.
Definition FILEDESCRIPTORW_FORMAT_NAME : str := lit "FileGroupDescriptorW".
Definition FILECONTENTS_FORMAT_ID : Z := 49267.
Definition FILECONTENTS_FORMAT_NAME : str := lit "FileContents".
Definition get_local_format (remote_id : Z) : option str :=
  (list_to_map [(FILEDESCRIPTOR_FORMAT_ID, FILEDESCRIPTORW_FORMAT_NAME); (FILECONTENTS_FORMAT_ID, FILECONTENTS_FORMAT_NAME)] : gmap Z str)
    !! remote_id.
Definition get_format_list : ClipboardFile :=
  FormatList [(FILEDESCRIPTOR_FORMAT_ID, default FILEDESCRIPTORW_FORMAT_NAME (get_local_format FILEDESCRIPTOR_FORMAT_ID));
              (FILECONTENTS_FORMAT_ID, default FILECONTENTS_FORMAT_NAME (get_local_format FILECONTENTS_FORMAT_ID))].
Definition find_format (nm : str) (format_list : list (Z * str)) : option Z :=
  (λ r, r.2.1) <$> list_find (λ f, f.2 = nm) format_list.

(** ** The mounted file system *)
Inductive MountPointState := HealthyMount | NotMounted | StaleMount | Unknown.
(** What is found of the mount point: of the one there is, before a new one, and after
    a stale one is cleaned up; and whether it can be prepared and mounted. *)
Record mount_env := mk_env {
  inspect_present : MountPointState;
  inspect_new : MountPointState;
  inspect_cleaned : MountPointState;
  prepare_ok : bool;
  mount_ok : bool;
  mount_at : str
}.
Record FuseContext := mk_ctx { server : FuseServer; tx : list ClipboardFile; mount_point : str; ctx_conn_id : Z }.
#[export] Instance FuseContext_eta : Eta FuseContext := λ r, mk_ctx (server r) (tx r) (mount_point r) (ctx_conn_id r).

Definition validate_mount_state_after_stale_cleanup (mount_state : MountPointState) : result CliprdrError unit :=
  match mount_state with
  | NotMounted => Ok tt
  | HealthyMount => Err ClipboardOccupied
  | StaleMount => Err CliprdrInit
  | Unknown => Err CliprdrInit
  end.
Definition mount_new (env : mount_env) : result CliprdrError FuseContext :=
  let mount :=
    if negb (prepare_ok env) then Err CliprdrInit
    else if negb (mount_ok env) then Err CliprdrInit
    else Ok (mk_ctx server_new [] (mount_at env) 0) in
  match inspect_new env with
  | HealthyMount => Err ClipboardOccupied
  | StaleMount => match validate_mount_state_after_stale_cleanup (inspect_cleaned env) with Err e => Err e | Ok _ => mount end
  | Unknown => Err CliprdrInit
  | NotMounted => mount
  end.
Definition init_fuse_context (env : mount_env) (ctx : option FuseContext) : option FuseContext * result CliprdrError unit :=
  let renew := match mount_new env with Ok c => (Some c, Ok tt) | Err e => (None, Err e) end in
  match ctx with
  | Some _ =>
      match inspect_present env with
      | HealthyMount => (ctx, Ok tt)
      | StaleMount | NotMounted => renew
      | Unknown => (ctx, Err CliprdrInit)
      end
  | None => renew
  end.

Section context.
Context `{WStrings}.
(** [FuseContext::format_data_response_to_urls] and the function of that name; [None] is
    a panic. *)
Definition ctx_urls (format_data : bytes) (conn : Z) (c : FuseContext) : option (FuseContext * result CliprdrError (list str)) :=
  match parse_file_descriptors format_data conn with
  | Err e => Some (c, Err e)
  | Ok files =>
      match load_file_list files (server c) with
      | (s, Err e) => Some (c <| server := s |>, Err e)
      | (s, Ok _) =>
          let c := c <| server := s |> <| ctx_conn_id := conn |> in
          match list_root (server c) with
          | None => None
          | Some paths => Some (c, Ok (push (mount_point c) <$> paths))
          end
      end
  end.
Definition format_data_response_to_urls (format_data : bytes) (conn : Z) (ctx : option FuseContext)
  : option (option FuseContext * result CliprdrError (list str)) :=
  match ctx with
  | None => Some (None, Err CliprdrInit)
  | Some c => match ctx_urls format_data conn c with None => None | Some (c, r) => Some (Some c, r) end
  end.
End context.
(** Nothing closes the receiver of [tx]: the file system holds it. *)
Definition handle_file_content_response (clip : ClipboardFile) (ctx : option FuseContext) : option FuseContext * result CliprdrError unit :=
  match ctx with
  | None => (None, Err CliprdrInit)
  | Some c => (Some (c <| tx ::= λ q, q ++ [clip] |>), Ok tt)
  end.
Definition empty_local_files (conn : Z) (ctx : option FuseContext) : option FuseContext * bool :=
  match ctx with
  | None => (None, false)
  | Some c =>
      if negb (conn =? 0) && negb (ctx_conn_id c =? conn) then (Some c, false)
      else (Some (c <| server ::= λ s, (load_file_list [] s).1 |>), true)
  end.

(** ** Serving *)
Inductive ClipboardSide := Host | Client.
(** The process: the files it offers, the file system of each role, the lists of files
    put on its clipboard, and the threads started to take them off it. *)
Record clip_app := mk_app {
  offered : ClipFiles;
  fuse_client : option FuseContext;
  fuse_server : option FuseContext;
  updates : list (list str * ClipboardSide);
  emptying : list (ClipboardSide * Z)
}.
#[export] Instance clip_app_eta : Eta clip_app := λ r,
  mk_app (offered r) (fuse_client r) (fuse_server r) (updates r) (emptying r).
Definition fuse_of (side : ClipboardSide) (a : clip_app) : option FuseContext :=
  match side with Client => fuse_client a | Host => fuse_server a end.
Definition set_fuse (side : ClipboardSide) (ctx : option FuseContext) (a : clip_app) : clip_app :=
  match side with Client => a <| fuse_client := ctx |> | Host => a <| fuse_server := ctx |> end.
Definition get_file_list_pdu (a : clip_app) : bytes := files_pdu (offered a).
Definition update_clipboard_files (files : list str) (side : ClipboardSide) (a : clip_app) : clip_app :=
  if bool_decide (files = []) then a else a <| updates ::= λ u, u ++ [(files, side)] |>.
Definition try_empty_clipboard_files (side : ClipboardSide) (conn : Z) (a : clip_app) : clip_app :=
  a <| emptying ::= λ u, u ++ [(side, conn)] |>.
(** What that thread does, [try_empty_clipboard_files_sync], once it has a clipboard:
    the flag tells whether the clipboard is to be cleared. *)
Definition try_empty_clipboard_files_sync (side : ClipboardSide) (conn : Z) (a : clip_app) : clip_app * bool :=
  let '(ctx, cleared) := empty_local_files conn (fuse_of side a) in (set_fuse side ctx a, cleared).

Definition msg_resp_format_data_failure (d : disk) : Message := clip_2_msg d (FormatDataResponse 2 []).
Definition resp_file_contents_fail (d : disk) (stream_id : Z) : Message := clip_2_msg d (FileContentsResponse 2 stream_id []).

Section serve.
Context `{WStrings}.
(** [serve_clip_messages] on Linux; [None] is a panic. *)
Definition serve_clip_messages (d : disk) (env : mount_env) (side : ClipboardSide) (clip : ClipboardFile) (conn : Z) (a : clip_app)
  : option (clip_app * list Message) :=
  match clip with
  | MonitorReady => Some (a, [])
  | FormatList format_list =>
      match find_format FILECONTENTS_FORMAT_NAME format_list with
      | None => Some (a, [])
      | Some _ =>
          match find_format FILEDESCRIPTORW_FORMAT_NAME format_list with
          | None => Some (a, [])
          | Some file_descriptor_id => Some (a, [clip_2_msg d (FormatDataRequest file_descriptor_id)])
          end
      end
  | FormatListResponse _ => Some (a, [])
  | FormatDataRequest _ =>
      let format_data := get_file_list_pdu a in
      if negb (bool_decide (format_data = [])) then Some (a, [clip_2_msg d (FormatDataResponse 1 format_data)])
      else Some (a, [msg_resp_format_data_failure d])
  | FormatDataResponse msg_flags format_data =>
      if negb (msg_flags =? 1) then Some (a, [])
      else
        let '(ctx, r) := init_fuse_context env (fuse_of side a) in
        match r with
        | Err _ => Some (set_fuse side ctx a, [])
        | Ok _ =>
            match format_data_response_to_urls format_data conn ctx with
            | None => None
            | Some (ctx, Err _) => Some (set_fuse side ctx a, [])
            | Some (ctx, Ok files) => Some (update_clipboard_files files side (set_fuse side ctx a), [])
            end
        end
  | FileContentsRequest stream_id list_index dw_flags n_position_low n_position_high cb_requested _ _ =>
      match read_file_contents d conn stream_id list_index dw_flags n_position_low n_position_high cb_requested (offered a) with
      | None => None
      | Some (c, results) =>
          Some (a <| offered := c |>,
                (λ res, match res with Ok data => clip_2_msg d data | Err _ => resp_file_contents_fail d stream_id end) <$> results)
      end
  | FileContentsResponse msg_flags stream_id requested_data =>
      let '(ctx, _) := handle_file_content_response (FileContentsResponse msg_flags stream_id requested_data) (fuse_of side a) in
      Some (set_fuse side ctx a, [])
  | NotifyCallback _ _ _ => Some (a, [])
  | TryEmpty => Some (try_empty_clipboard_files side conn a, [])
  | Files _ => Some (a, [])
  end.
(** A message from the wire. *)
Definition serve_message (d : disk) (env : mount_env) (side : ClipboardSide) (msg : Message) (conn : Z) (a : clip_app)
  : option (clip_app * list Message) :=
  match msg with
  | MessageBox _ _ _ _ => Some (a, [])
  | MCliprdr m => match msg_2_clip m with None => Some (a, []) | Some clip => serve_clip_messages d env side clip conn a end
  end.
Fixpoint serve_messages (d : disk) (env : mount_env) (side : ClipboardSide) (msgs : list Message) (conn : Z) (a : clip_app)
  : option (clip_app * list Message) :=
  match msgs with
  | [] => Some (a, [])
  | msg :: msgs =>
      match serve_message d env side msg conn a with
      | None => None
      | Some (a, out) => match serve_messages d env side msgs conn a with None => None | Some (a, outs) => Some (a, out ++ outs) end
      end
  end.
End serve.

(** ** Channels

    [VEC_MSG_CHANNEL]. A receiver is named by a number; what was sent to it and
    not yet received is its queue. *)
Record MsgChannel := mk_channel { peer_id : str; channel_conn : Z; receiver : nat }.
Record channels := mk_channels { vec_msg_channel : list MsgChannel; conn_counter : Z; queues : list (list ClipboardFile) }.
#[export] Instance channels_eta : Eta channels := λ r, mk_channels (vec_msg_channel r) (conn_counter r) (queues r).
Definition no_channels : channels := mk_channels [] 0 [].
Definition find_channel (P : MsgChannel → bool) (t : channels) : option MsgChannel :=
  (λ r, r.2) <$> list_find (λ x, P x = true) (vec_msg_channel t).
Definition of_peer (peer : str) (x : MsgChannel) : bool := bool_decide (peer_id x = peer).
Definition of_conn (conn : Z) (x : MsgChannel) : bool := channel_conn x =? conn.
Definition get_client_conn_id (peer : str) (t : channels) : option Z := channel_conn <$> find_channel (of_peer peer) t.
Definition new_channel (peer : str) (conn : Z) (t : channels) : channels * nat :=
  let rx := length (queues t) in
  (t <| vec_msg_channel ::= λ v, v ++ [mk_channel peer conn rx] |> <| queues ::= λ q, q ++ [[]] |>, rx).
Definition get_rx_cliprdr_client (peer : str) (t : channels) : channels * (Z * nat) :=
  match find_channel (of_peer peer) t with
  | Some c => (t, (channel_conn c, receiver c))
  | None =>
      let conn := Int.wrap_i32 (conn_counter t + 1) in
      let '(t, rx) := new_channel peer conn (t <| conn_counter := conn |>) in (t, (conn, rx))
  end.
Definition get_rx_cliprdr_server (conn : Z) (t : channels) : channels * nat :=
  match find_channel (of_conn conn) t with
  | Some c => (t, receiver c)
  | None => new_channel [] conn t
  end.
Definition remove_channel_by_conn_id (conn : Z) (t : channels) : channels :=
  match list_find (λ x, of_conn conn x = true) (vec_msg_channel t) with
  | Some (index, _) => t <| vec_msg_channel ::= delete index |>
  | None => t
  end.
Definition send_to (rx : nat) (data : ClipboardFile) (t : channels) : channels := t <| queues ::= alter (λ q, q ++ [data]) rx |>.
Definition send_data_to_channel (conn : Z) (data : ClipboardFile) (t : channels) : channels * result CliprdrError unit :=
  match find_channel (of_conn conn) t with
  | Some c => (send_to (receiver c) data t, Ok tt)
  | None => (t, Err (InvalidRequest (lit "conn_id not found")))
  end.
Definition send_data_to_all (data : ClipboardFile) (t : channels) : channels :=
  foldl (λ t c, send_to (receiver c) data t) t (vec_msg_channel t).
Definition send_data (conn : Z) (data : ClipboardFile) (t : channels) : channels * result CliprdrError unit :=
  if conn =? 0 then (send_data_to_all data t, Ok tt) else send_data_to_channel conn data t.

(** ** Round trip *)
(** What the other side makes of a message: the same, but for the two that are only
    told of, and the list of files with the sizes that are there. *)
Definition carried (clip : ClipboardFile) : bool := match clip with NotifyCallback _ _ _ | Files _ => false | _ => true end.
Definition received (m : Message) : option ClipboardFile := match m with MCliprdr u => msg_2_clip u | _ => None end.
Lemma received_back d clip : received (clip_2_msg d clip) = if carried clip then Some clip else None.
Proof. by destruct clip. Qed.

(** ** Whom a message reaches *)
(** A process that only controls others: each channel is of a peer, and their ids
    differ. *)
Record clients_ok (t : channels) : Prop := {
  ids_differ : NoDup (channel_conn <$> vec_msg_channel t);
  ids_counted : Forall (λ c, 0 < channel_conn c ≤ conn_counter t) (vec_msg_channel t);
  counter_range : 0 ≤ conn_counter t < 2 ^ 31
}.
Inductive client_op := GetRx (peer : str) | SendData (conn : Z) (data : ClipboardFile) | RemoveChannel (conn : Z).
Definition client_step (op : client_op) (t : channels) : channels :=
  match op with
  | GetRx peer => (get_rx_cliprdr_client peer t).1
  | SendData conn data => (send_data conn data t).1
  | RemoveChannel conn => remove_channel_by_conn_id conn t
  end.
Lemma same_channels_ok t t' : vec_msg_channel t' = vec_msg_channel t → conn_counter t' = conn_counter t → clients_ok t → clients_ok t'.
Proof. intros Hv Hc [? ? ?]. by split; rewrite ?Hv, ?Hc. Qed.
Lemma send_all_same data l t : let t' := foldl (λ t c, send_to (receiver c) data t) t l in
  vec_msg_channel t' = vec_msg_channel t ∧ conn_counter t' = conn_counter t.
Proof. revert t. induction l as [|c l IH]; intros t; [done|]. cbn [foldl]. by destruct (IH (send_to (receiver c) data t)) as [-> ->]. Qed.
Lemma client_step_ok op t : conn_counter t + 1 < 2 ^ 31 → clients_ok t → clients_ok (client_step op t).
Proof.
  intros Hlt Hok. destruct op as [peer|conn data|conn]; cbn [client_step].
  - unfold get_rx_cliprdr_client. destruct (find_channel _ _); [done|]. destruct Hok as [Hnd Hf Hc].
    assert (Int.wrap_i32 (conn_counter t + 1) = conn_counter t + 1) as -> by (unfold Int.wrap_i32; lia).
    unfold new_channel. split; cbn; [| |lia].
    + rewrite fmap_app. apply NoDup_app. split_and!; [done| |apply NoDup_singleton].
      intros x (c & -> & Hin)%list_elem_of_fmap Hx%list_elem_of_singleton. apply (proj1 (Forall_forall _ _) Hf) in Hin. cbn in Hx. lia.
    + apply Forall_app. split; [|constructor; [cbn; lia|done]]. eapply Forall_impl; [exact Hf|]. intros c. cbn. lia.
  - unfold send_data, send_data_to_channel, send_data_to_all. destruct (conn =? 0); [|destruct (find_channel _ _); [|done]].
    + destruct (send_all_same data (vec_msg_channel t) t) as [Hv Hc]. by apply (same_channels_ok t).
    + by apply (same_channels_ok t).
  - unfold remove_channel_by_conn_id. destruct (list_find _ _) as [[i c]|]; [|done]. destruct Hok as [Hnd Hf Hc]. split; cbn; [| |done].
    + rewrite delete_take_drop, fmap_app, fmap_take, fmap_drop, <- delete_take_drop.
      eapply sublist_NoDup; [exact Hnd|]. apply sublist_delete.
    + by apply Forall_delete.
Qed.
Lemma found_channel P t c : find_channel P t = Some c → c ∈ vec_msg_channel t ∧ P c = true.
Proof.
  intros ([i c'] & (Hi & Hp & _)%list_find_Some & Hc)%fmap_Some. cbn in Hc. subst c'. split; [by eapply list_elem_of_lookup_2|done].
Qed.
Lemma find_by_conn t c : NoDup (channel_conn <$> vec_msg_channel t) → c ∈ vec_msg_channel t → find_channel (of_conn (channel_conn c)) t = Some c.
Proof.
  intros Hnd Hin. destruct (list_find_elem_of (λ x, of_conn (channel_conn c) x = true) _ c Hin) as ([i c'] & Hf); [by apply Z.eqb_refl|].
  unfold find_channel. rewrite Hf. cbn. apply list_find_Some in Hf as (Hi & Hc & _). apply Z.eqb_eq in Hc.
  apply list_elem_of_lookup_1 in Hin as [j Hj]. assert (i = j) as ->; [|congruence].
  apply (NoDup_lookup _ i j (channel_conn c) Hnd); rewrite list_lookup_fmap; [by rewrite Hi, <- Hc|by rewrite Hj].
Qed.
(** What is sent to the connection of a peer reaches the receiver that was handed
    out for that peer. *)
Theorem sent_reaches_peer ops peer data : Z.of_nat (length ops) + 1 < 2 ^ 31 →
  let t := foldl (λ t op, client_step op t) no_channels ops in
  let '(t', (conn, rx)) := get_rx_cliprdr_client peer t in
  send_data conn data t' = (send_to rx data t', Ok tt) ∧ get_client_conn_id peer t' = Some conn
  ∧ get_rx_cliprdr_client peer t' = (t', (conn, rx)).
Proof.
  intros Hn t. assert (clients_ok t ∧ conn_counter t ≤ Z.of_nat (length ops)) as [Hok Hcount].
  { unfold t. clear t. induction ops as [|op ops IH] using rev_ind; [split; [split; [constructor|constructor|cbn; lia]|done]|].
    rewrite length_app in *. cbn [length] in *. destruct IH as [IH Hc]; [lia|]. rewrite foldl_app. cbn [foldl]. set (t0 := foldl _ _ _) in *.
    split; [apply client_step_ok; [lia|done]|]. pose proof (counter_range _ IH). destruct op as [p|conn m|conn]; cbn [client_step].
    - unfold get_rx_cliprdr_client. destruct (find_channel _ _); [cbn; lia|]. cbn. unfold Int.wrap_i32. lia.
    - unfold send_data, send_data_to_channel, send_data_to_all. destruct (conn =? 0); [|destruct (find_channel _ _); cbn; lia].
      destruct (send_all_same m (vec_msg_channel t0) t0) as [_ Hcc]. cbn. rewrite Hcc. lia.
    - unfold remove_channel_by_conn_id. destruct (list_find _ _) as [[? ?]|]; cbn; lia. }
  clearbody t. pose proof (client_step_ok (GetRx peer) t ltac:(lia) Hok) as Hok'. cbn [client_step] in Hok'.
  unfold get_rx_cliprdr_client in *. destruct (find_channel (of_peer peer) t) as [c|] eqn:Hf.
  - cbn in Hok'. pose proof (found_channel _ _ _ Hf) as [Hin _]. pose proof (proj1 (Forall_forall _ _) (ids_counted _ Hok') c Hin) as [Hpos _].
    rewrite Hf. split_and!; [|by unfold get_client_conn_id; rewrite Hf|done].
    unfold send_data, send_data_to_channel. destruct (Z.eqb_spec (channel_conn c) 0); [lia|]. by rewrite find_by_conn by (done || apply Hok').
  - set (conn := Int.wrap_i32 (conn_counter t + 1)) in *. destruct (new_channel peer conn (t <| conn_counter := conn |>)) as [t' rx] eqn:Ht.
    cbn in Hok'. injection Ht as Ht Hrx. set (c := mk_channel peer conn (length (queues t))) in *.
    assert (c ∈ vec_msg_channel t') as Hin by (rewrite <- Ht; apply elem_of_app; right; by left).
    pose proof (proj1 (Forall_forall _ _) (ids_counted _ Hok') c Hin) as [Hpos _]. change (0 < conn) in Hpos.
    assert (find_channel (of_peer peer) t' = Some c) as Hp.
    { unfold find_channel in *. apply fmap_None in Hf. rewrite <- Ht. cbn.
      rewrite list_find_app_r by done. cbn. unfold of_peer. cbn. by rewrite bool_decide_eq_true_2. }
    rewrite Hp, <- Hrx. split_and!; [|by unfold get_client_conn_id; rewrite Hp|done].
    unfold send_data, send_data_to_channel. destruct (Z.eqb_spec conn 0); [lia|].
    change conn with (channel_conn c). by rewrite find_by_conn by (done || apply Hok').
Qed.
Lemma sent_reaches_peer_witness : let t := foldl (λ t op, client_step op t) no_channels [GetRx (lit "x"); RemoveChannel 1] in
  let '(t', (conn, rx)) := get_rx_cliprdr_client (lit "y") t in
  conn = 2 ∧ queues (send_data conn TryEmpty t').1 = [[]; [TryEmpty]].
Proof.
  pose proof (sent_reaches_peer [GetRx (lit "x"); RemoveChannel 1] (lit "y") TryEmpty ltac:(cbn; lia)) as H.
  cbv zeta in *. destruct (get_rx_cliprdr_client _ _) as [t' [conn rx]] eqn:E. vm_compute in E. injection E as <- <- <-.
  destruct H as (-> & _). split; reflexivity.
Defined.
(** A connection that is served may have the id of one to a peer: what is meant for
    the peer then goes to whichever was there first. *)
Example ids_clash : let '(t, rx) := get_rx_cliprdr_server 1 no_channels in
  let '(t, (conn, rx')) := get_rx_cliprdr_client (lit "x") t in
  rx ≠ rx' ∧ (send_data conn TryEmpty t).1 = send_to rx TryEmpty t.
Proof. by vm_compute. Qed.
