(* ===== verification/ClipPaste.v ===== *)
(** * Copied files: what the two sides do together

    A selection that is copied on one side and pasted on the other: the list of
    [ClipServe], its format of [ClipFormat], the messages of [ClipMessages] and the
    file system of [ClipMount] make the same trees with the same contents. *)
From S2P Require Import Prelude Paths FileTransfer ClipFormat ClipServe ClipMount ClipMessages.
Local Open Scope Z_scope.

(** ** What is where in a tree *)
Fixpoint tree_at (t : tree) (ns : list str) : option tree :=
  match ns with
  | [] => Some t
  | n :: ns => match entry_named n (entries_of t) with Some t => tree_at t ns | None => None end
  end.
Lemma entry_elem {A} n (es : list (str * A)) x : NoDup es.*1 → entry_named n es = Some x ↔ (n, x) ∈ es.
Proof.
  intros Hnd. unfold entry_named. split.
  - intros ([i [n' y]] & (Hi & Hn & _)%list_find_Some & Hx)%fmap_Some. cbn in *. subst. by eapply list_elem_of_lookup_2.
  - intros Hin. destruct (list_find_elem_of (λ e, e.1 = n) es (n, x) Hin eq_refl) as ([i [n' y]] & Hf). rewrite Hf.
    apply list_find_Some in Hf as (Hi & Hn & _). cbn in *. subst n'. apply list_elem_of_lookup_1 in Hin as [j Hj].
    assert (i = j) as -> by (apply (NoDup_lookup es.*1 _ _ n Hnd); by rewrite list_lookup_fmap, ?Hi, ?Hj).
    congruence.
Qed.

Lemma elem_of_concat_map {A B} (f : A → list B) l x : x ∈ concat (map f l) ↔ ∃ y, y ∈ l ∧ x ∈ f y.
Proof.
  induction l as [|y l IH]; cbn [map concat].
  - split; [by intros ?%not_elem_of_nil|]. by intros (? & ?%not_elem_of_nil & _).
  - rewrite elem_of_app, IH. setoid_rewrite elem_of_cons. naive_solver.
Qed.

(** Pieces of names, put together and taken apart. *)
Definition nice (w : str) : Prop := plain w ∧ slash ∉ w.
Definition pieces (f : LocalFile) : list str := split_on slash (descriptor_name f).
Lemma split_join ws : ws ≠ [] → Forall nice ws → split_on slash (join_pieces ws) = ws.
Proof.
  intros Hne Hn. induction Hn as [|w ws [_ Hw] Hn IH]; [done|]. destruct ws as [|w' ws]; [by apply split_name|].
  change (join_pieces (w :: w' :: ws)) with (w ++ slash :: join_pieces (w' :: ws)).
  rewrite split_on_app, split_name by done. by rewrite IH.
Qed.
Lemma pieces_local p ws m : ws ≠ [] → Forall nice ws → pieces (local_of p (join_pieces ws) m) = ws.
Proof. apply split_join. Qed.

(** The files listed of a tree are what is at the paths in it. *)
Section listed.
Context (d : disk).
Lemma listing_elem t : ∀ p ws f, holds d p t → f ∈ listing p ws t ↔
  ∃ ns u, tree_at t ns = Some u ∧ f = local_of (foldl push p ns) (join_pieces (ws ++ ns)) (meta_of u).
Proof.
  induction t as [m content|m es IH] using tree_ind; intros p ws f Hh; cbn [listing].
  - rewrite list_elem_of_singleton. split.
    + intros ->. exists [], (TFile m content). by rewrite app_nil_r.
    + intros ([|n ns] & u & Hu & ->); [|done]. injection Hu as <-. by rewrite app_nil_r.
  - apply holds_entries in Hh as (_ & _ & _ & [Hnd _] & _ & Hes). rewrite elem_of_cons. split.
    + intros [->|(e & He & Hf)%elem_of_concat_map].
      * exists [], (TDir m es). by rewrite app_nil_r.
      * rewrite Forall_forall in IH, Hes. apply (IH e He) in Hf as (ns & u & Hu & ->); [|by apply Hes].
        exists (e.1 :: ns), u. cbn [tree_at entries_of]. rewrite (proj2 (entry_elem e.1 es e.2 Hnd)) by by destruct e.
        by rewrite <- app_assoc.
    + intros ([|n ns] & u & Hu & ->); [left; injection Hu as <-; by rewrite app_nil_r|right].
      cbn [tree_at entries_of] in Hu. destruct (entry_named n es) as [t|] eqn:Hn; [|done].
      apply entry_elem in Hn; [|done]. apply elem_of_concat_map. exists (n, t). split; [done|]. cbn [fst snd].
      rewrite Forall_forall in IH, Hes. apply (IH _ Hn); [by apply (Hes _ Hn)|].
      exists ns, u. by rewrite <- app_assoc.
Qed.
Lemma holds_at t : ∀ ns p u, holds d p t → tree_at t ns = Some u → holds d (foldl push p ns) u ∧ Forall nice ns.
Proof.
  induction t as [m content|m es IH] using tree_ind; intros [|n ns] p u Hh Hu; try done.
  - injection Hu as <-. done.
  - injection Hu as <-. done.
  - pose proof Hh as (_ & _ & _ & [Hnd Hnames] & _ & Hes)%holds_entries. cbn [tree_at entries_of] in Hu.
    destruct (entry_named n es) as [t|] eqn:Hn; [|done]. apply entry_elem in Hn; [|done].
    rewrite Forall_forall in IH, Hes, Hnames. destruct (IH _ Hn ns (push p n) u) as [? ?]; [by apply (Hes _ Hn)|done|].
    split; [done|]. constructor; [by apply (Hnames _ Hn)|done].
Qed.
End listed.

(** ** The list of a selection *)
(** A list in which each file comes after the directory it is in. *)
Definition directories (l : list LocalFile) : list (list str) := pieces <$> filter (λ f, is_dir f = true) l.
Lemma directories_app l1 l2 : directories (l1 ++ l2) = directories l1 ++ directories l2.
Proof. unfold directories. by rewrite filter_app, fmap_app. Qed.
Fixpoint ordered (dirs : list (list str)) (l : list LocalFile) : Prop :=
  match l with
  | [] => True
  | f :: l => (∃ ws w, pieces f = ws ++ [w] ∧ (ws = [] ∨ ws ∈ dirs)) ∧ ordered (dirs ++ directories [f]) l
  end.
Lemma ordered_more dirs dirs' l : dirs ⊆ dirs' → ordered dirs l → ordered dirs' l.
Proof.
  revert dirs dirs'. induction l as [|f l IH]; intros dirs dirs' Hd; [done|]. intros [(ws & w & Hw & Hin) Hl]. split.
  - exists ws, w. split; [done|]. destruct Hin as [?|?]; [by left|right; by apply Hd].
  - eapply IH; [|exact Hl]. intros x [?|?]%elem_of_app; apply elem_of_app; [left; by apply Hd|by right].
Qed.
Lemma ordered_app dirs l1 l2 : ordered dirs l1 → ordered (dirs ++ directories l1) l2 → ordered dirs (l1 ++ l2).
Proof.
  revert dirs. induction l1 as [|f l1 IH]; intros dirs; [cbn; by rewrite app_nil_r|]. intros [Hf Hl1] Hl2. split; [done|].
  apply IH; [done|]. rewrite <- app_assoc. by rewrite <- directories_app.
Qed.
Lemma ordered_concat dirs ls : Forall (ordered dirs) ls → ordered dirs (concat ls).
Proof.
  induction 1 as [|l ls Hl _ IH]; [done|]. cbn [concat]. apply ordered_app; [done|].
  eapply ordered_more; [|exact IH]. intros x Hx. apply elem_of_app. by left.
Qed.
Lemma ordered_lookup dirs l i f : ordered dirs l → l !! i = Some f →
  ∃ ws w, pieces f = ws ++ [w] ∧ (ws = [] ∨ ws ∈ dirs ∨ ws ∈ directories (take i l)).
Proof.
  revert dirs i. induction l as [|g l IH]; intros dirs [|i]; [done..| |].
  - intros [(ws & w & ? & H) _] [= <-]. exists ws, w. naive_solver.
  - intros [_ Hl] Hi. destruct (IH _ _ Hl Hi) as (ws & w & Hw & H). exists ws, w. split; [done|].
    change (take (S i) (g :: l)) with ([g] ++ take i l). rewrite directories_app. setoid_rewrite elem_of_app. rewrite elem_of_app in H. naive_solver.
Qed.

Section ordered.
Context (d : disk).
Lemma listing_ordered t : ∀ p ws w dirs, holds d p t → Forall nice (ws ++ [w]) → (ws = [] ∨ ws ∈ dirs) →
  ordered dirs (listing p (ws ++ [w]) t).
Proof.
  induction t as [m content|m es IH] using tree_ind; intros p ws w dirs Hh Hn Hin; cbn [listing ordered].
  - split; [|done]. exists ws, w. split; [|done]. apply pieces_local; [by destruct ws|done].
  - pose proof Hh as (_ & Hdir & _ & [_ Hnames] & _ & Hes)%holds_entries. rewrite Forall_forall in IH, Hes, Hnames.
    assert (pieces (local_of p (join_pieces (ws ++ [w])) m) = ws ++ [w]) as Hp by (apply pieces_local; [by destruct ws|done]).
    split; [by exists ws, w|]. apply ordered_concat, Forall_map. rewrite Forall_forall. intros e He.
    apply (IH e He); [by apply Hes| |].
    + apply Forall_app. split; [done|]. constructor; [|done]. by apply (Hnames e He).
    + right. apply elem_of_app. right. unfold directories. cbn [filter meta_of]. rewrite filter_cons_True by done.
      cbn [fmap list_fmap]. rewrite Hp. by left.
Qed.
Lemma NoDup_concat_map {A B C K} (f : A → list B) (g : B → C) (key : A → K) l :
  (∀ y, y ∈ l → NoDup (g <$> f y)) →
  (∀ y z x x', y ∈ l → z ∈ l → x ∈ f y → x' ∈ f z → g x = g x' → key y = key z) →
  NoDup (key <$> l) → NoDup (g <$> concat (map f l)).
Proof.
  induction l as [|y l IH]; intros Hy Hk Hnd; [constructor|]. apply NoDup_cons in Hnd as [Hnin Hnd].
  cbn [map concat]. rewrite fmap_app. apply NoDup_app. split_and!.
  - apply Hy. by left.
  - intros c (x & -> & Hx)%list_elem_of_fmap (x' & Heq & (z & Hz & Hx')%elem_of_concat_map)%list_elem_of_fmap.
    apply Hnin. rewrite (Hk y z x x'); [by apply list_elem_of_fmap; exists z|by left|by right|done..].
  - apply IH; [|intros z1 z2 x x' H1 H2; apply Hk; by right|done]. intros z Hz. apply Hy. by right.
Qed.
Lemma listing_pieces t p ws f : holds d p t → ws ≠ [] → Forall nice ws → f ∈ listing p ws t → ∃ ns, pieces f = ws ++ ns.
Proof.
  intros Hh Hne Hn (ns & u & Hu & ->)%(listing_elem d); [|done]. exists ns. apply pieces_local; [by destruct ws|].
  apply Forall_app. split; [done|]. by eapply holds_at.
Qed.
Lemma listing_nodup t : ∀ p ws, holds d p t → ws ≠ [] → Forall nice ws → NoDup (pieces <$> listing p ws t).
Proof.
  induction t as [m content|m es IH] using tree_ind; intros p ws Hh Hne Hn; [apply NoDup_singleton|].
  pose proof Hh as (_ & _ & _ & [Hnd Hnames] & _ & Hes)%holds_entries. rewrite Forall_forall in IH, Hes, Hnames.
  assert (∀ e, e ∈ es → Forall nice (ws ++ [e.1])) as Hnice.
  { intros e He. apply Forall_app. split; [done|]. constructor; [|done]. by apply (Hnames e He). }
  assert (∀ e f, e ∈ es → f ∈ listing (push p e.1) (ws ++ [e.1]) e.2 → ∃ ns, pieces f = ws ++ e.1 :: ns) as Hpre.
  { intros e f He Hf. apply listing_pieces in Hf as [ns ->]; [exists ns; by rewrite <- app_assoc|by apply Hes|by destruct ws|by apply Hnice]. }
  cbn [listing fmap list_fmap]. apply NoDup_cons. split.
  - intros (f & Hf & (e & He & Hin)%elem_of_concat_map)%list_elem_of_fmap. destruct (Hpre e f He Hin) as [ns Hns].
    rewrite pieces_local in Hf by done. rewrite Hns in Hf. apply (f_equal length) in Hf. rewrite length_app in Hf. cbn in Hf. lia.
  - eapply (NoDup_concat_map _ _ fst); [| |done].
    + intros e He. apply (IH e He); [by apply Hes|by destruct ws|by apply Hnice].
    + intros e1 e2 f1 f2 He1 He2 Hf1 Hf2 Heq. destruct (Hpre _ _ He1 Hf1) as [n1 H1], (Hpre _ _ He2 Hf2) as [n2 H2].
      rewrite H1, H2 in Heq. apply app_inv_head in Heq. congruence.
Qed.
End ordered.

(** The selected files by the names they are pasted under. *)
Definition base_name (s : selected) : str := default [] (last (sel_pieces s)).
Definition selected_at (sel : list selected) (ws : list str) : option tree :=
  match ws with
  | [] => None
  | n :: ns => match entry_named n ((λ s, (base_name s, sel_tree s)) <$> sel) with Some t => tree_at t ns | None => None end
  end.
Definition pasteable (f : LocalFile) : Prop :=
  Forall scalar (descriptor_name f) ∧ (backslash ∉ descriptor_name f)
  ∧ Forall (λ w, byte_len w ≤ MAX_NAME_LEN)%nat (pieces f).

Section selection.
Context (d : disk) (sel : list selected).
Hypothesis Hok : Forall (selection_ok d) sel.
Hypothesis Hbase : NoDup (base_name <$> sel).
Lemma base_nice s : s ∈ sel → nice (base_name s).
Proof.
  intros Hs. apply (proj1 (Forall_forall _ _) Hok) in Hs as ((Hsp & Hne & Hp) & _). unfold base_name.
  destruct (sel_pieces s) as [|w ws _] using rev_ind; [done|]. rewrite last_snoc. cbn.
  split; [by apply Forall_app in Hp as [_ [? _]%Forall_cons]|].
  assert (w ∈ split_on slash (sel_path s)) as Hw by (rewrite Hsp; right; apply elem_of_app; right; by left).
  apply split_by_pieces in Hw. intros Hin. apply (proj1 (Forall_forall _ _) Hw) in Hin. by rewrite N.eqb_refl in Hin.
Qed.
Lemma sel_holds s : s ∈ sel → holds d (sel_path s) (sel_tree s).
Proof. intros Hs. by apply (proj1 (Forall_forall _ _) Hok) in Hs as (_ & ? & _). Qed.
Lemma selection_ordered : ordered [] (selection_files sel).
Proof.
  apply ordered_concat, Forall_map. rewrite Forall_forall. intros s Hs.
  apply (listing_ordered d _ _ []); [by apply sel_holds| |by left]. constructor; [by apply base_nice|done].
Qed.
Lemma selection_nodup : NoDup (pieces <$> selection_files sel).
Proof.
  eapply (NoDup_concat_map _ _ base_name); [| |done].
  - intros s Hs. apply (listing_nodup d); [by apply sel_holds|done|]. constructor; [by apply base_nice|done].
  - intros s1 s2 f1 f2 H1 H2 Hf1 Hf2 Heq.
    apply (listing_pieces d) in Hf1 as [n1 Hf1]; [|by apply sel_holds|done|constructor; [by apply base_nice|done]].
    apply (listing_pieces d) in Hf2 as [n2 Hf2]; [|by apply sel_holds|done|constructor; [by apply base_nice|done]].
    rewrite Hf1, Hf2 in Heq. by injection Heq.
Qed.
(** A file of the list for each path in the selection, and no other. *)
Lemma selected_at_some ws u : selected_at sel ws = Some u ↔
  ∃ s ns, s ∈ sel ∧ ws = base_name s :: ns ∧ tree_at (sel_tree s) ns = Some u.
Proof.
  assert (NoDup ((λ s, (base_name s, sel_tree s)) <$> sel).*1) as Hnd by by rewrite <- list_fmap_compose.
  destruct ws as [|n ns]; cbn [selected_at]; [by split; [|naive_solver]|].
  split.
  - destruct (entry_named n _) as [t|] eqn:Hn; [|done]. apply entry_elem in Hn as (s & [= -> ->] & Hs)%list_elem_of_fmap; [|done].
    intros Hu. by exists s, ns.
  - intros (s & ns' & Hs & [= -> ->] & Hu). rewrite (proj2 (entry_elem (base_name s) _ (sel_tree s) Hnd)); [done|].
    apply list_elem_of_fmap. by exists s.
Qed.
Lemma selection_elem f : f ∈ selection_files sel ↔
  ∃ s ns u, s ∈ sel ∧ tree_at (sel_tree s) ns = Some u
    ∧ f = local_of (foldl push (sel_path s) ns) (join_pieces (base_name s :: ns)) (meta_of u).
Proof.
  unfold selection_files. rewrite elem_of_concat_map. split.
  - intros (s & Hs & (ns & u & Hu & ->)%(listing_elem d)); [|by apply sel_holds]. by exists s, ns, u.
  - intros (s & ns & u & Hs & Hu & ->). exists s. split; [done|]. apply (listing_elem d); [by apply sel_holds|]. by exists ns, u.
Qed.
Lemma elem_nice f s ns u : s ∈ sel → tree_at (sel_tree s) ns = Some u →
  f = local_of (foldl push (sel_path s) ns) (join_pieces (base_name s :: ns)) (meta_of u) → pieces f = base_name s :: ns.
Proof.
  intros Hs Hu ->. apply pieces_local; [done|]. constructor; [by apply base_nice|].
  by eapply holds_at; [apply sel_holds|].
Qed.

(** What the other side reads of the list is a list in which files are found. *)
Lemma described_components conn f : f ∈ selection_files sel → components (name (describe conn f)) = Normal <$> pieces f.
Proof.
  intros (s & ns & u & Hs & Hu & ->)%selection_elem. apply components_plain. cbn [name describe local_of descriptor_name].
  pose proof (elem_nice _ s ns u Hs Hu eq_refl) as Hp. unfold pieces in Hp. cbn [local_of descriptor_name] in Hp. rewrite Hp.
  constructor; [by apply base_nice|]. eapply Forall_impl; [by eapply holds_at; [apply sel_holds|]|]. by intros ? [? _].
Qed.
Lemma described_listed conn : Forall pasteable (selection_files sel) → well_listed (describe conn <$> selection_files sel).
Proof.
  intros Hp. split.
  - intros i ds (f & -> & Hf)%list_lookup_fmap_Some. pose proof (list_elem_of_lookup_2 _ _ _ Hf) as Hin.
    destruct (ordered_lookup _ _ _ _ selection_ordered Hf) as (ws & w & Hw & Hd). exists ws, w.
    rewrite described_components, Hw by done. split; [done|]. split.
    + destruct Hd as [->|[?%not_elem_of_nil|Hd]]; [by left|done|right]. unfold directories in Hd.
      apply list_elem_of_fmap in Hd as (g & -> & [Hg Hgi]%list_elem_of_filter).
      apply list_elem_of_lookup_1 in Hgi as [j [Hj Hji]%lookup_take_Some]. exists j, (describe conn g).
      rewrite list_lookup_fmap, Hj. split_and!; [done|done|cbn; by rewrite Hg|].
      apply described_components. by eapply list_elem_of_lookup_2.
    + apply (proj1 (Forall_forall _ _) Hp) in Hin as (_ & _ & Hl). rewrite Hw in Hl. by apply Forall_app in Hl as [_ [? _]%Forall_cons].
  - assert ((λ dd, components (name dd)) <$> (describe conn <$> selection_files sel) = (fmap Normal) <$> (pieces <$> selection_files sel)) as ->.
    { rewrite <- !list_fmap_compose. apply list_fmap_ext. intros i f Hf. apply described_components. by eapply list_elem_of_lookup_2. }
    apply NoDup_fmap_2; [|apply selection_nodup]. intros a b. apply normal_inj.
Qed.
End selection.

(** ** The top of the pasted tree *)
Lemma omap_concat {A B} (f : A → option B) (ls : list (list A)) : omap f (concat ls) = concat (map (omap f) ls).
Proof. induction ls as [|l ls IH]; [done|]. cbn [concat map]. by rewrite omap_app, IH. Qed.
Lemma omap_none {A B} (f : A → option B) (l : list A) : (∀ x, x ∈ l → f x = None) → omap f l = [].
Proof. induction l as [|x l IH]; intros Hf; [done|]. cbn. rewrite Hf by by left. apply IH. intros y Hy. apply Hf. by right. Qed.
Definition top_name (ws : list str) : option str := match ws with [w] => Some w | _ => None end.
Lemma selection_top d sel : Forall (selection_ok d) sel → omap (λ f, top_name (pieces f)) (selection_files sel) = base_name <$> sel.
Proof.
  intros Hok. unfold selection_files. rewrite omap_concat, map_map.
  assert (∀ s, s ∈ sel → omap (λ f, top_name (pieces f)) (selected_files s) = [base_name s]) as Hone.
  { intros s Hs. pose proof (sel_holds d sel Hok s Hs) as Hh. pose proof (base_nice d sel Hok s Hs) as Hn.
    assert (Forall nice [base_name s]) as Hns by (constructor; [done|constructor]).
    unfold selected_files. change (default [] (last (sel_pieces s))) with (base_name s).
    destruct (sel_tree s) as [m content|m es]; cbn [listing omap list_omap];
      change (omap ?f ?l) with (list_omap _ _ f l); rewrite pieces_local by done; cbn [top_name]; [done|].
    f_equal. apply omap_none. intros f (e & He & Hf)%elem_of_concat_map.
    pose proof Hh as (_ & _ & _ & [_ Hnames] & _ & Hes)%holds_entries. rewrite Forall_forall in Hnames, Hes.
    apply (listing_pieces d) in Hf as [ns ->]; [done|by apply Hes|done|]. constructor; [done|]. constructor; [by apply (Hnames e He)|constructor]. }
  clear Hok. induction sel as [|s sel IH]; [done|]. cbn [map concat fmap list_fmap]. rewrite Hone by by left.
  rewrite IH; [done|]. intros s' Hs'. apply Hone. by right.
Qed.
Lemma child_names_spec l s cs : mounted l s → (∀ c, c ∈ cs → ∃ j dd, c = (j + 2)%nat ∧ l !! j = Some dd) →
  child_names s cs = Some (omap (λ c, base_of <$> l !! (c - 2)%nat) cs).
Proof.
  intros Hm. induction cs as [|c cs IH]; intros Hc; [done|]. cbn [child_names].
  destruct (Hc c ltac:(by left)) as (j & dd & -> & Hj). destruct (file_node l s j dd Hm Hj) as (h & Hn).
  replace (j + 2)%nat with (S (S j)) in * by lia. cbn [node_at] in Hn. replace (S (S j) - 1)%nat with (S j) by lia.
  rewrite Hn, IH by (intros c' Hc'; apply Hc; by right). cbn [omap list_omap]. replace (S (S j) - 2)%nat with j by lia.
  by rewrite Hj.
Qed.
Lemma list_root_spec l s : mounted l s → list_root s = Some (omap (λ c, base_of <$> l !! (c - 2)%nat) (children_of l FUSE_ROOT_ID)).
Proof.
  intros Hm. unfold list_root. destruct (root_node l s Hm) as (h & Hr). cbn [node_at FUSE_ROOT_ID] in Hr. rewrite Hr.
  apply child_names_spec; [done|]. intros c (j & dd & -> & Hj & _)%elem_of_children. by exists j, dd.
Qed.
Lemma children_names l ino : omap (λ c, base_of <$> l !! (c - 2)%nat) (children_of l ino)
  = omap (λ x, x) (imap (λ j dd, if bool_decide (parent_at l j dd = ino) then Some (base_of dd) else None) l).
Proof.
  unfold children_of.
  assert (∀ k l' (P : nat → FileDescription → bool), (∀ j dd, l' !! j = Some dd → l !! (k + j)%nat = Some dd) →
    omap (λ c, base_of <$> l !! (c - 2)%nat) (omap (λ x, x) (imap (λ j dd, if P j dd then Some (k + j + 2)%nat else None) l'))
    = omap (λ x, x) (imap (λ j dd, if P j dd then Some (base_of dd) else None) l')) as H; [|by apply (H 0%nat l (λ j dd, bool_decide (parent_at l j dd = ino)))].
  intros k l'. revert k. induction l' as [|dd l' IH]; intros k P Hl; [done|].
  specialize (IH (S k) (λ j, P (S j)) ltac:(intros j e Hj; rewrite Nat.add_succ_comm; by apply Hl)).
  rewrite !imap_cons. cbn [omap list_omap].
  assert (imap ((λ j dd, if P j dd then Some (k + j + 2)%nat else None) ∘ S) l'
    = imap (λ j dd, if P (S j) dd then Some (S k + j + 2)%nat else None) l') as ->.
  { apply imap_ext. intros j e _. cbn. destruct (P (S j) e); [|done]. f_equal. lia. }
  destruct (P 0%nat dd); cbn [omap list_omap]; [|exact IH].
  replace (k + 0 + 2 - 2)%nat with (k + 0)%nat by lia. rewrite (Hl 0%nat dd eq_refl). cbn. f_equal. exact IH.
Qed.
Lemma top_names conn l : well_listed (describe conn <$> l) →
  (∀ f, f ∈ l → components (name (describe conn f)) = Normal <$> pieces f) →
  omap (λ x, x) (imap (λ j dd, if bool_decide (parent_at (describe conn <$> l) j dd = FUSE_ROOT_ID) then Some (base_of dd) else None)
    (describe conn <$> l)) = omap (λ f, top_name (pieces f)) l.
Proof.
  intros Hw Hc. set (l' := describe conn <$> l) in *.
  assert (imap (λ j dd, if bool_decide (parent_at l' j dd = FUSE_ROOT_ID) then Some (base_of dd) else None) l'
    = imap (λ j dd, top_name (pieces_of dd)) l') as ->.
  { apply imap_ext. intros j dd Hj. destruct (listed_in l' Hw j dd Hj) as (ws & w & Hd & _).
    rewrite (pieces_of_normal _ _ Hd). destruct (snoc_name _ _ _ Hd) as [_ ->].
    destruct (parent_at_spec l' j dd ws w Hw Hj Hd) as [[-> ->]|(k & e & _ & Hk & _ & Hce & ->)]; [done|].
    rewrite bool_decide_eq_false_2 by (unfold FUSE_ROOT_ID; lia). destruct ws as [|v [|v' ws]]; [|done..].
    destruct (listed_in l' Hw k e Hk) as (ws' & w' & He & _). rewrite He in Hce. by destruct ws'. }
  unfold l'. clear -Hc. induction l as [|f l IH]; [done|]. cbn [fmap list_fmap]. rewrite imap_cons. cbn [omap list_omap].
  rewrite (pieces_of_normal _ (pieces f)) by (apply Hc; by left). unfold compose.
  specialize (IH ltac:(intros g Hg; apply Hc; by right)). by rewrite IH.
Qed.

(** ** Offsets *)
(** The offset the other side makes of the two halves it is sent. *)
Definition decoded (low high : Z) : Z := Z.lor (Int.wrap_u64 (Z.shiftl (Int.wrap_u64 high) 32)) (Int.wrap_u64 low).
Definition low_of (off : Z) : Z := Int.wrap_i32 (Z.land off Int.u32_max).
Definition high_of (off : Z) : Z := Int.wrap_i32 (Z.shiftr off 32).
Lemma lor_halves a b : 0 ≤ b < 2 ^ 32 → Z.lor (a * 2 ^ 32) b = a * 2 ^ 32 + b.
Proof.
  intros Hb. assert (Z.land (a * 2 ^ 32) b = 0) as Hl.
  { apply Z.bits_inj'. intros n Hn. rewrite Z.land_spec, Z.bits_0, <- Z.shiftl_mul_pow2, Z.shiftl_spec by lia.
    destruct (Z.lt_ge_cases n 32); [by rewrite Z.testbit_neg_r by lia|].
    rewrite <- (Z.mod_small b (2 ^ 32)), Z.mod_pow2_bits_high by lia. apply andb_false_r. }
  by rewrite <- (Z.lxor_lor _ _ Hl), <- Z.add_nocarry_lxor.
Qed.
Lemma lor_ge a b : 0 ≤ a → 0 ≤ b → b ≤ Z.lor a b.
Proof.
  intros Ha Hb. assert (Z.land b (Z.ldiff a b) = 0) as Hl.
  { apply Z.bits_inj'. intros n _. rewrite Z.land_spec, Z.ldiff_spec, Z.bits_0. by destruct (Z.testbit a n), (Z.testbit b n). }
  assert (Z.lor a b = Z.lor b (Z.ldiff a b)) as ->.
  { apply Z.bits_inj'. intros n _. rewrite !Z.lor_spec, Z.ldiff_spec. by destruct (Z.testbit a n), (Z.testbit b n). }
  rewrite <- (Z.lxor_lor _ _ Hl), <- Z.add_nocarry_lxor by done.
  assert (0 ≤ Z.ldiff a b) by (apply Z.ldiff_nonneg; lia). lia.
Qed.
Lemma lor_u64 a b : 0 ≤ a < 2 ^ 64 → 0 ≤ b < 2 ^ 64 → Int.in_u64 (Z.lor a b).
Proof.
  intros Ha Hb. assert (Z.lor a b = Z.lor a b mod 2 ^ 64) as ->.
  { rewrite <- Z.land_ones, Z.land_lor_distr_l, !Z.land_ones by lia. by rewrite !Z.mod_small. }
  pose proof (Z.mod_pos_bound (Z.lor a b) (2 ^ 64)). unfold Int.in_u64, Int.u64_max. lia.
Qed.
Lemma wrap_range z : 0 ≤ Int.wrap_u64 z < 2 ^ 64.
Proof. unfold Int.wrap_u64. apply Z.mod_pos_bound. lia. Qed.
Lemma bit31 off : Z.testbit off 31 = (2 ^ 31 <=? off mod 2 ^ 32).
Proof.
  rewrite Z.testbit_odd, Z.shiftr_div_pow2 by lia. rewrite Zodd_mod.
  destruct (Z.leb_spec (2 ^ 31) (off mod 2 ^ 32)).
  - assert ((off / 2 ^ 31) mod 2 = 1) as -> by lia. done.
  - assert ((off / 2 ^ 31) mod 2 = 0) as -> by lia. done.
Qed.
Lemma halves off : 0 ≤ off ≤ isize_max → high_of off = off / 2 ^ 32 ∧ 0 ≤ off / 2 ^ 32 < 2 ^ 31
  ∧ low_of off = off mod 2 ^ 32 - (if Z.testbit off 31 then 2 ^ 32 else 0).
Proof.
  unfold isize_max, high_of, low_of, Int.wrap_i32. intros Hoff. change Int.u32_max with (Z.ones 32).
  rewrite Z.land_ones, Z.shiftr_div_pow2, bit31 by lia.
  destruct (Z.leb_spec (2 ^ 31) (off mod 2 ^ 32)); lia.
Qed.
Lemma decoded_back off : 0 ≤ off ≤ isize_max → Z.testbit off 31 = false → decoded (low_of off) (high_of off) = off.
Proof.
  intros Hoff Hb. destruct (halves off Hoff) as (Hh & Hr & Hl). rewrite Hb in Hl. rewrite bit31 in Hb. apply Z.leb_gt in Hb.
  unfold decoded, Int.wrap_u64. rewrite Hh, Hl, !(Z.mod_small (off / 2 ^ 32)), Z.shiftl_mul_pow2 by lia.
  rewrite !Z.mod_small by lia. rewrite lor_halves by lia. lia.
Qed.
Lemma decoded_high off : 0 ≤ off ≤ isize_max → Z.testbit off 31 = true → 2 ^ 64 - 2 ^ 31 ≤ decoded (low_of off) (high_of off).
Proof.
  intros Hoff Hb. destruct (halves off Hoff) as (_ & _ & Hl). rewrite Hb in Hl. rewrite bit31 in Hb. apply Z.leb_le in Hb.
  unfold decoded. etrans; [|apply lor_ge; apply wrap_range]. unfold Int.wrap_u64. rewrite Hl. lia.
Qed.

(** ** What is answered to a read *)
Lemma decoded_u64 low high : Int.in_u64 (decoded low high).
Proof. apply lor_u64; apply wrap_range. Qed.
Lemma wrap_u64_in z : Int.in_u64 (Int.wrap_u64 z).
Proof. pose proof (wrap_range z). unfold Int.in_u64, Int.u64_max. lia. Qed.
(** Whatever contents are asked for, the files stay as they were listed. *)
Lemma read_keeps d conn sid i flags low high cb l c c' out : list_ok d l c →
  read_file_contents d conn sid i flags low high cb c = Some (c', out) → list_ok d l c'.
Proof.
  intros Hl. unfold read_file_contents. fold (decoded low high).
  set (fcr := if flags =? 1 then _ else _).
  assert (∀ q, fcr = Some q → request_width q) as Hw.
  { unfold fcr. intros q. repeat case_match; intros [= <-]; cbn; [apply wrap_u64_in|].
    split_and!; [apply wrap_u64_in|apply decoded_u64|apply wrap_u64_in]. }
  destruct fcr as [q|]; [|by intros [= <- _]]. pose proof (serve_spec d conn q l c Hl (Hw q eq_refl)) as Hs.
  destruct (serve_file_contents d conn q c) as [[c1 r]|]; [|done]. destruct Hs as (_ & ? & _). by intros [= <- _].
Qed.
Lemma read_answer d conn sid i off sz l c f content : list_ok d l c → l !! i = Some f → is_dir f = false → held d f content →
  Z.of_nat i < 2 ^ 31 → 0 ≤ off ≤ Z.of_nat (length content) → off ≤ isize_max → Z.testbit off 31 = false → 0 ≤ sz < 2 ^ 31 →
  ∃ c' audit, read_file_contents d conn sid (Int.wrap_i32 (Z.of_nat i)) 2 (low_of off) (high_of off) (Int.wrap_i32 sz) c
      = Some (c', audit ++ [Ok (FileContentsResponse 1 sid (take (Z.to_nat sz) (drop (Z.to_nat off) content)))])
    ∧ (audit = [] ∨ ∃ files, audit = [Ok (Files files)]).
Proof.
  intros Hl Hf Hd [Ho Hsz] Hi Hoff Hmax Hb Hs. unfold read_file_contents. fold (decoded (low_of off) (high_of off)).
  rewrite decoded_back by (done || lia). cbn [Z.eqb Pos.eqb].
  assert (Int.wrap_u64 (Int.wrap_i32 (Z.of_nat i)) = Z.of_nat i) as -> by (unfold Int.wrap_u64, Int.wrap_i32; lia).
  assert (Int.wrap_u64 (Int.wrap_i32 sz) = sz) as -> by (unfold Int.wrap_u64, Int.wrap_i32; lia).
  set (q := RangeReq _ _ _ _). pose proof (serve_spec d conn q l c Hl) as Hsv.
  assert (reference d conn q l = Some (Ok (FileContentsResponse 1 sid (take (Z.to_nat sz) (drop (Z.to_nat off) content))))) as Href.
  { cbn [reference q]. unfold get_at. pose proof (lookup_lt_Some _ _ _ Hf).
    destruct (Z.ltb_spec (Z.of_nat i) (Z.of_nat (length l))); [|lia]. rewrite Nat2Z.id, Hf, Hsz, Hd, Ho.
    destruct (Z.ltb_spec (Z.of_nat (length content)) off); [lia|].
    unfold isize_max in *. destruct (Z.leb_spec (2 ^ 64) (off + sz)); [lia|]. change (default [] (Some content)) with content.
    do 3 f_equal. destruct (Z.min_spec sz (Z.of_nat (length content) - off)) as [[_ ->]|[? ->]]; [done|].
    rewrite !take_ge; [done|rewrite length_drop; lia..]. }
  rewrite Href in Hsv. destruct (serve_file_contents d conn q c) as [[c' r]|].
  - destruct Hsv as ([= <-] & _); [unfold q; cbn; unfold Int.in_u64, Int.u64_max, isize_max in *; lia|].
    eexists c', _. split; [done|]. unfold get_files_for_audit. cbn. repeat case_match; simplify_eq/=; eauto.
  - exfalso. enough (Some (@Ok CliprdrError _ (FileContentsResponse 1 sid (take (Z.to_nat sz) (drop (Z.to_nat off) content)))) = None) by done.
    apply Hsv. unfold q; cbn; unfold Int.in_u64, Int.u64_max, isize_max in *; lia.
Qed.

(** ** Copy and paste *)
Section paste.
Context `{WStringLaws}.
(** [a] copies: it lists the files and tells its formats; [b] asks for the list, is
    told it and puts the files on its clipboard. *)
Definition copy (d d' : disk) (fuel : nat) (paths : list str) (env_a env_b : mount_env) (side_a side_b : ClipboardSide)
    (conn_a conn_b : Z) (a b : clip_app) : option (clip_app * clip_app) :=
  match sync_files d fuel paths (offered a) with
  | Some (c, Ok _) =>
      let a := a <| offered := c |> in
      '(b, requests) ← serve_message d' env_b side_b (clip_2_msg d get_format_list) conn_b b;
      '(a, answers) ← serve_messages d env_a side_a requests conn_a a;
      '(b, _) ← serve_messages d' env_b side_b answers conn_b b;
      Some (a, b)
  | _ => None
  end.
(** What contents are asked for afterwards, by whichever connections. *)
Inductive asked (d : disk) : clip_app → clip_app → Prop :=
| asked_contents env side conn sid i flags low high cb have_id id a a' out :
    serve_clip_messages d env side (FileContentsRequest sid i flags low high cb have_id id) conn a = Some (a', out) →
    asked d a a'.
(** A file can be opened, and what is read of it from any offset with that bit clear
    is its content: the request goes over the wire, is served, and its answer is
    taken, whatever answers to other reads wait before it. *)
Definition reads_as (d d' : disk) (s : FuseServer) (ino : nat) (a : clip_app) (content : bytes) : Prop :=
  ∀ env side conn sid off sz, 0 ≤ off ≤ Z.of_nat (length content) → Z.testbit off 31 = false → 0 ≤ sz < 2 ^ 31 →
  ∃ s' fh node a' out, open ino s = (s', Ok fh) ∧ read ino fh s' = Ok node
    ∧ serve_message d env side (clip_2_msg d' (contents_request sid node off sz)) conn a = Some (a', out)
    ∧ ∀ waiting : list (Z * Z * bytes), Forall (λ w, w.1.2 ≠ sid) waiting →
      read_node (λ _, true) sid (((λ w, Some (FileContentsResponse w.1.1 w.1.2 w.2)) <$> waiting) ++ (Some <$> omap received out))
        = (1%nat, Some (Ok (take (Z.to_nat sz) (drop (Z.to_nat off) content)))).
(** An inode shows a tree. *)
Definition shows (s : FuseServer) (ino : nat) (t : tree) : Prop :=
  ∃ attr, getattr ino s = Ok attr ∧ inode attr = ino ∧ attr_size attr = md_len (meta_of t)
    ∧ attr_kind attr = (if md_is_dir (meta_of t) then Directory else File).

Lemma await_waiting sid waiting answers : Forall (λ w : Z * Z * bytes, w.1.2 ≠ sid) waiting →
  read_node (λ _, true) sid (((λ w, Some (FileContentsResponse w.1.1 w.1.2 w.2)) <$> waiting) ++ answers) = read_node (λ _, true) sid answers.
Proof.
  unfold read_node. induction 1 as [|w waiting Hw _ IH]; [done|]. cbn [fmap list_fmap app await_contents].
  destruct (Z.eqb_spec w.1.2 sid); [done|]. exact IH.
Qed.
Lemma opened l s i dd : mounted l s → l !! i = Some dd → kind dd = File →
  ∃ s' fh node, open (i + 2) s = (s', Ok fh) ∧ read (i + 2) fh s' = Ok node ∧ index node = i.
Proof.
  intros Hm Hi Hk. destruct (file_node l s i dd Hm Hi) as (h & Hn).
  set (n0 := (tree_node l i dd) <| handlers := h |>) in *.
  assert (attr_kind (attributes n0) = File ∧ gc n0 = false ∧ index n0 = i) as (Hkind & Hgc & Hidx) by (split_and!; [exact Hk|done|done]).
  unfold open, open_node. rewrite Hn, bool_decide_eq_true_2, Hgc by done. cbn [negb].
  do 2 eexists. exists (add_handler (file_handle_counter s) n0). split; [done|].
  unfold read. replace (i + 2)%nat with (S (S i)) in * by lia. cbn [node_at] in *.
  assert (∀ z, nodes ((update_node (S (S i)) (add_handler (file_handle_counter s)) s) <| file_handle_counter := z |>) !! S i
    = Some (add_handler (file_handle_counter s) n0)) as ->.
  { intros z. change (alter (add_handler (file_handle_counter s)) (S (S i) - 1)%nat (nodes s) !! S i = Some (add_handler (file_handle_counter s) n0)).
    replace (S (S i) - 1)%nat with (S i) by lia. by rewrite list_lookup_alter_eq, Hn. }
  assert (have_handler (file_handle_counter s) (add_handler (file_handle_counter s) n0) = true) as ->.
  { apply bool_decide_eq_true. change (file_handle_counter s ∈ h ++ [file_handle_counter s]). apply elem_of_app. right. by left. }
  change (attributes (add_handler (file_handle_counter s) n0)) with (attributes n0). rewrite Hkind.
  change (gc (add_handler (file_handle_counter s) n0)) with false. done.
Qed.

Lemma sync_selection d fuel sel c : Forall (selection_ok d) sel → deep_enough fuel sel → sel ≠ [] →
  Forall pasteable (selection_files sel) → files c ≠ sel_path <$> sel →
  ∃ pdu c', sync_files d fuel (sel_path <$> sel) c = Some (c', Ok tt) ∧ build_file_list_pdu (selection_files sel) = Ok pdu
    ∧ files_pdu c' = pdu ∧ list_ok d (selection_files sel) c'.
Proof.
  intros Hok Hd Hne Hp Hc. pose proof (selection_files_ok d sel Hok) as Hfiles.
  destruct (build_told (selection_files sel)) as [pdu Hpdu].
  { rewrite Forall_forall in *. intros f Hf. split; [by apply Hfiles|by apply Hp]. }
  exists pdu. unfold sync_files. rewrite bool_decide_eq_false_2 by done. cbn [andb]. unfold rebuild.
  assert (construct_file_list d fuel (sel_path <$> sel) = Some (Ok (selection_files sel))) as ->.
  { rewrite <- (app_nil_l (selection_files sel)), <- (construct_selection d fuel sel [] Hok Hd). by destruct sel. }
  cbn. rewrite Hpdu. eexists. split_and!; [done|done|done|]. split; cbn; [by apply Forall_Forall2_diag, Forall_true|].
  eapply Forall_impl; [exact Hfiles|]. by intros f [_ ?].
Qed.
Lemma asked_ok d l a a' : rtc (asked d) a a' → list_ok d l (offered a) → list_ok d l (offered a').
Proof.
  induction 1 as [|a a1 a' [env side conn sid i fl lo hi cb hv id ? ? out Hs] _ IH]; [done|]. intros Hl. apply IH. clear IH.
  cbn [serve_clip_messages] in Hs. destruct (read_file_contents _ _ _ _ _ _ _ _ _) as [[c r]|] eqn:Hr; [|done].
  injection Hs as <- _. cbn. by eapply read_keeps.
Qed.
Lemma pasted_reads d d' l conn s i f content a : mounted (describe conn <$> l) s → l !! i = Some f → is_dir f = false →
  held d f content → Z.of_nat (length content) ≤ isize_max → Z.of_nat i < 2 ^ 31 → list_ok d l (offered a) →
  reads_as d d' s (i + 2) a content.
Proof.
  intros Hm Hf Hdir Hh Hmax Hi Hl env side conn' sid off sz Hoff Hb Hsz.
  destruct (opened (describe conn <$> l) s i (describe conn f) Hm) as (s' & fh & node & Ho & Hr & Hidx).
  { by rewrite list_lookup_fmap, Hf. }
  { cbn. by rewrite Hdir. }
  destruct (read_answer d conn' sid i off sz l (offered a) f content Hl Hf Hdir Hh Hi Hoff ltac:(lia) Hb Hsz) as (c' & audit & Hans & Haud).
  exists s', fh, node. unfold contents_request. rewrite Hidx. cbn [clip_2_msg serve_message msg_2_clip serve_clip_messages].
  fold (low_of off) (high_of off). rewrite Hans. do 2 eexists. split_and!; [done|done|done|].
  intros waiting Hw. rewrite await_waiting by done. rewrite fmap_app, omap_app. cbn [fmap list_fmap].
  assert (omap received ((λ res : result CliprdrError ClipboardFile, match res with Ok data => clip_2_msg d data
    | Err _ => resp_file_contents_fail d sid end) <$> audit) = []) as ->.
  { by destruct Haud as [->|[fs ->]]. }
  cbn. by rewrite Z.eqb_refl.
Qed.

End paste.

(** An offset whose bit 31 is set is taken for one near the end of 64 bits, for the
    lower half is extended with its sign: the read is refused, whatever the file. *)
Lemma high_offset_refused d conn sid i off sz c f : get_at (file_list c) (Int.wrap_u64 i) = Some f → local_size f ≤ isize_max →
  0 ≤ off ≤ isize_max → Z.testbit off 31 = true →
  read_file_contents d conn sid i 2 (low_of off) (high_of off) sz c
    = Some (c, [Err (InvalidRequest (lit "invalid reading offset requested from conn: " ++ fmt_Z conn))]).
Proof.
  intros Hf Hs Hoff Hb. unfold read_file_contents. fold (decoded (low_of off) (high_of off)).
  pose proof (decoded_high off Hoff Hb) as Hd. cbn [Z.eqb Pos.eqb get_files_for_audit serve_file_contents].
  destruct (Z.eqb_spec (decoded (low_of off) (high_of off)) 0); [lia|]. rewrite andb_false_r, Hf.
  unfold isize_max in *. destruct (Z.ltb_spec (local_size f) (decoded (low_of off) (high_of off))); [done|lia].
Qed.

(** ** Worked out *)
Definition sample_env : mount_env := mk_env HealthyMount NotMounted NotMounted true true (lit "/run/clip").
Definition sample_ctx : FuseContext := mk_ctx server_new [] (lit "/run/clip") 0.
Definition sample_app : clip_app := mk_app clip_default None None [] [].
Ltac by_deciding := match goal with |- ?P => refine (bool_decide_eq_true_1 P _); vm_compute; reflexivity end.
Ltac settle :=
  repeat match goal with
  | |- _ ∧ _ => split
  | |- names_ok _ => split
  | |- name_ok _ => split
  | |- plain _ => unfold plain
  | |- Forall _ [] => constructor
  | |- Forall _ (_ :: _) => constructor
  | |- True => exact I
  | |- _ ≤ _ => vm_compute; discriminate
  | |- _ => first [vm_compute; reflexivity | by_deciding]
  end.
Lemma sample_selection_ok : Forall (selection_ok sample_disk) sample_sel.
Proof.
  constructor; [|constructor; [|constructor]]; (split; [|split]).
  - unfold absolute. cbn [sel_path sel_pieces]. settle.
  - cbn [holds sel_tree sel_path sample_docs sample_dir sample_file foldr fst snd]. settle.
  - cbn [tree_names_ok sel_tree sample_docs sample_dir sample_file foldr fst snd]. settle.
  - unfold absolute. cbn [sel_path sel_pieces]. settle.
  - cbn [holds sel_tree sel_path sample_file]. settle.
  - cbn [tree_names_ok sel_tree sample_file]. settle.
Qed.
Lemma sample_pasteable : Forall pasteable (selection_files sample_sel).
Proof.
  assert (∀ f, forallb (λ c, bool_decide (scalar c)) (descriptor_name f) && negb (existsb (N.eqb backslash) (descriptor_name f))
    && forallb (λ w, byte_len w <=? MAX_NAME_LEN)%nat (pieces f) = true → pasteable f) as Hf.
  { intros f [[H1 H2]%andb_true_iff H3]%andb_true_iff. rewrite forallb_forall in H1, H3. apply negb_true_iff in H2. split_and!.
    - rewrite Forall_forall. intros c Hc. apply (bool_decide_eq_true (scalar c)), H1. by apply list_elem_of_In.
    - intros Hin. rewrite (proj2 (existsb_exists _ _)) in H2; [done|]. exists backslash. split; [by apply list_elem_of_In|apply N.eqb_refl].
    - rewrite Forall_forall. intros w Hw. apply Nat.leb_le, H3. by apply list_elem_of_In. }
  repeat (constructor; [apply Hf; vm_compute; reflexivity|]). constructor.
Qed.


(** Two files of the same name copied from two directories: one hides the other. *)
Example same_names_hide :
  let d := disk_of [(lit "/u/b", sample_file "one"); (lit "/v/b", sample_file "two")] in
  match copy d d 3 [lit "/u/b"; lit "/v/b"] sample_env sample_env Host Client 4 9 sample_app (sample_app <| fuse_client := Some sample_ctx |>) with
  | Some (_, b) => updates b = [([lit "/run/clip/b"; lit "/run/clip/b"], Client)]
      ∧ match fuse_client b with Some ctx => walk (server ctx) FUSE_ROOT_ID [lit "b"] = Ok 2%nat | None => False end
  | None => False
  end.
Proof. vm_compute. split; reflexivity. Qed.
